(* ===== verification/_CoqProject ===== *)
-Q . S2P
Prelude.v
Common.v
Util.v
Glob.v
Protocol.v
EventLoop.v
Client.v
PubSub.v
Worker.v
Demo.v
MsgQueue.v
Master.v
Buffer.v
Files.v
Stores.v
FileStore.v
Secondary.v
NetworkStore.v
Conf.v
Parser.v
Grammar.v
Meaning.v
Lexer.v
ParserMemory.v
ParserTrace.v
Layout.v
Creation.v
Serving.v
Storer.v
System.v
Delivery.v
Configured.v
Sds.v
SdsArgs.v
Backends.v
Polling.v
Anet.v
Zmalloc.v
Setup.v
Logger.v
Threads.v
Startup.v
Kids.v
Samples.v
