(* ===== verification/Prelude.v ===== *)
(** * A verification development of kids, a log aggregation server

    ** The program

    Clients connect to the server and send requests in the redis protocol: LOG
    puts a message (a topic and a content) into one queue, SUBSCRIBE and
    PSUBSCRIBE ask for the messages of a topic or of the topics of a pattern.
    The [Master] (src/src/master.cc) accepts connections, hands them to
    [Worker] threads (worker.cc) and owns the queue (msgqueue.cc); each worker
    serves its [Client]s (client.cc, pubsub.cc) from an event loop
    (src/deps/ae/ae.c) and publishes every message of the queue to them; the
    [Storer] (storer.cc) takes every message of the queue to a [Store]
    (src/src/store/), a tree of stores that the configuration file describes
    (conf.cc, parser.c, lexer.c).

    ** Conventions

    A definition has the name of the function it translates.  Operations that
    change objects take and return their state.  [None] is undefined
    behaviour (a NULL or dangling pointer, a read outside an array, a failed
    assert, a dereferenced [end()]); errors the code handles are values.  What
    the environment decides (what [read] and [write] return, whether memory
    can be had, the time) is an argument.  Integers are [Z] with the
    wrap-around written where the code can reach it; bytes are [ascii].
    Fuel, where a loop needs it, is computed from the input, and a theorem says
    that it is enough: [Glob.stringmatchlen_spec], [Lexer.ParseConfig_total],
    [PubSub.requests_always_served], [FileStore.buffer_file_roundtrip].

    ** Files

    - Prelude: machine integers, bytes, lists, tactics, the hint database.
      Common: constants.h and common.h, limits, statistics.
    - Util: numbers and quantities of util.cc.  Glob: [stringmatchlen] of
      util.cc against a meaning of patterns.
    - Protocol: the request parser of client.cc.  Client: connections and every
      command handler.  PubSub: the subscription tables and their invariant,
      and the commands as operations on sets.  Worker: the clients of a worker
      as objects in a store, the steps of its loop.  Demo: a small server at
      which the theorems on clients and workers are instantiated.
    - EventLoop: ae.c, with the polling back end as a parameter; clients and
      network stores use it through the class [FileEvents].  Backends: epoll,
      kqueue, select and event ports as instances of the class [Backend], with
      their contract [BackendLaws].  Polling: the loop over any of them.  Setup:
      creating and freeing it.  Anet: the socket functions of anet.c over an
      oracle for the system.  Zmalloc: the allocator of zmalloc.c with its
      counter, which several threads update, and the readers of /proc.
    - MsgQueue: the queue on an explicit heap with its cursors and its
      collector.  Master: connections, notifications, statistics.
    - Buffer: the copy-on-write buffers of buffer.cc on an explicit heap.
    - Files: filesystem.cc over the class [FileSystem].  Stores: the class
      [StoreOps] of store.h and the stores made of stores.  FileStore: the
      store on files.  Secondary: it backs a buffer store.  NetworkStore: the
      store that forwards to another server.
    - Conf: the configuration and its checks.  Parser: the LALR parser.
      Grammar: what it computes on the tokens of a configuration.  Meaning:
      what a configuration says, without the functions of conf.cc.  Lexer: the
      scanner and [ParseConfig].  ParserMemory: the parser on the heap, with
      the objects its actions allocate and delete.  ParserTrace: what a debug
      build writes of its steps.  Layout: what [ParseConfig]
      computes on a text.
      Creation: the store a configuration describes.  Serving: what each kind
      of store promises the storer, as instances of the classes [Serves],
      [Stated] and [Keeps] of Stores.  Storer: the thread that feeds the store,
      over any store that serves.
    - System: the master, its workers and the storer as one server, whose steps
      are the callbacks of its threads.  Delivery: what holds of its runs over
      any store that serves.  Configured: virtual dispatch keeps what the
      stores promise, so that the trees of stores a configuration describes
      serve, and the server runs with one of them.
    - Sds: the strings of sds.c.  SdsArgs: quoting and splitting them.
    - Logger: the log of the program (logger.cc).  Threads: the main thread, the
      signal thread of kids.cc, the workers and the storer: starting, stopping,
      and the hand-over of a new configuration.  Startup: creating and deleting
      the server, with its descriptors.  Kids: the command line and main, which
      puts the components together.
    - Samples: the programs of src/client, over hiredis as a class.

    ** What the theorems show

    The conditions of each theorem are in its comment.

    - The server as a whole: [Delivery.logged_message_reaches_subscribers] (a
      LOG request of any client reaches every subscriber of every worker) and
      [Configured.configured_server_safe] (with the store its configuration
      file asks for, any run of the callbacks of all threads is defined and
      keeps the invariant of every component; [Delivery.server_safe] is the same
      over any store that serves).
    - Delivery of messages: [Worker.publish_delivers] (every subscriber gets exactly its
      frames), [MsgQueue.mq_interleaving_safe] and
      [MsgQueue.MQFreeOldMessages_exact] (every consumer reads all messages in
      order and nothing is freed too early, under any interleaving),
      [Master.notifications_exact] (no wake-up is lost or in excess).
    - Safety of the server: [Worker.worker_step_safe],
      [PubSub.requests_always_served], [Buffer.buffers_independent] (sizes,
      contents and what data() shows, as on plain byte strings),
      [Master.connection_limit] (the counter of an address is exact but for the
      events the code counts wrong, each of which is named).
    - Protocol: [Protocol.parse_encode], [Protocol.parse_incremental],
      [Client.requests_in_pieces], [Client.output_of_requests],
      [Worker.output_in_order].
    - Storage: [Stores.buffer_store_conserves] and
      [Stores.buffer_store_drains] for any store that backs it,
      [FileStore.buffer_file_roundtrip], [NetworkStore.network_store_forwards]
      and [NetworkStore.forwarded_messages_arrive] (what one server forwards the
      next one reads), [Samples.echo2kids_arrives] and
      [Samples.loggen_arrives] (what a client program publishes the server
      puts), [Storer.storer_offers_in_order] and
      [Storer.storer_sends_one_at_a_time].
    - Configuration: [Layout.ParseConfig_layout] (a text is accepted exactly
      if it is valid and then says what it says, whatever its layout), [Lexer.ParseConfig_total],
      [Conf.checked_config_well_formed], [Creation.configured_store_created],
      [ParserMemory.parser_memory_safe] (the pointers of the parser compute its
      values, and nothing is left of an accepted file),
      [ParserTrace.trace_transparent] (tracing changes nothing).
    - The process: [Kids.main_outcome] (main starts the components of the
      configuration or exits for a listed reason), [Threads.shutdown_safe],
      [Threads.shutdown_completes] and [Threads.reload_takes_effect] (any
      interleaving of the threads, once they were created, is defined; a stop
      ends the process; a new configuration is taken), with examples of the
      races and of the thread that could not be created outside those
      conditions, [Startup.descriptors_returned] (what is opened is closed
      once), [Logger.log_lines_kept] (rotation loses no line).
    - The system below: [Polling.backends_serve_the_loop] (over every polling
      back end the kernel watches exactly the events of the table, and only
      event ports may abort),
      [Anet.sockets_owned] (no descriptor is lost or closed twice, but for the
      leaks that are stated), [Zmalloc.used_memory_exact],
      [Zmalloc.counter_exact] (no update of the counter is lost with thread
      safeness), [Sds.sds_refines_text] and [SdsArgs.sdssplitargs_reads_back] (strings are
      their texts; quoting is undone by splitting).

    ** Bounds

    Stores nest at most 19 deep in a configuration, since the parser's stack
    has 100 entries ([Parser.YYSTACKDEPTH]); deeper ones overflow it, which the
    parser reports.  Lengths are below 2^31 where the code keeps them in an
    [int] and the theorem says so.  A stop takes at most 5n + 14 rounds of the
    threads of n workers, which is the rank of [Threads.rank] at that moment.

    ** What the code leaves undefined

    Theorems that say that the code is defined leave out the inputs on which it
    is not, which the comments name: patterns and topics on which
    [stringmatchlen] reads outside its arrays
    ([Glob.stringmatchlen_out_of_bounds]), a reply of one byte CR to a network
    store and its state before it connected, a file store without a path, an
    event loop that could not be created ([Startup.no_event_loop]), a signal
    before the threads were started or after one could not be created
    ([Threads.stop_before_start], [Threads.thread_refused]), a second SIGHUP
    before the first was taken ([Threads.reload_before_cron]), a buffer assigned
    to itself ([Buffer.self_assignment]), a log name of more than 1003 bytes
    ([Logger.long_name_overflows]), and select with descriptors of FD_SETSIZE
    and more.

    ** Not modelled

    The kernels behind epoll, kqueue, event ports and sockets are parameters
    with their documented behaviour; so are getopt_long and hiredis.  Of
    zmalloc the variant for an allocator that knows the size of its blocks is
    left out, of kids.cc the heap profiler, and of sds.c the functions that
    only release memory.  The threads of the model interleave at the granularity of the steps named
    in MsgQueue, Master, System and Threads; torn reads of machine words are
    not modelled. *)

From Stdlib Require Export List ZArith Ascii String Lia.
From stdpp Require Export base numbers strings gmap sets fin_maps list.

#[global] Open Scope Z_scope.

(** ** Bytes

    A C [char] is an [ascii]; a byte sequence (an sds, the data of a Buffer, a
    std::string) is a list of them.  A C string is such a list up to its first
    NUL. *)

Abbreviation byte := ascii (only parsing).
Abbreviation bytes := (list ascii) (only parsing).

(** The bytes of a string literal of the source. *)
Definition bs (s : string) : bytes := list_ascii_of_string s.

Definition NUL : byte := "000"%char.
Definition CR : byte := "013"%char.
Definition LF : byte := "010"%char.
Definition crlf : bytes := [CR; LF].

(** The value of a char as an [unsigned char], and as the (signed) [char] of
    the platform. *)
Definition uchar (c : byte) : Z := Z.of_N (N_of_ascii c).
Definition schar (c : byte) : Z := if uchar c <? 128 then uchar c else uchar c - 256.
Definition byte_of_Z (z : Z) : byte := ascii_of_N (Z.to_N (z mod 256)).

(** Length of a byte sequence, as the integer the code computes with. *)
Abbreviation zlen l := (Z.of_nat (length l)).

(** ** Machine integers: the wrap-around of each width *)

Definition u8 (z : Z) : Z := z mod 2 ^ 8.
Definition u16 (z : Z) : Z := z mod 2 ^ 16.
Definition u32 (z : Z) : Z := z mod 2 ^ 32.
Definition u64 (z : Z) : Z := z mod 2 ^ 64.
Definition i32 (z : Z) : Z := (z + 2 ^ 31) mod 2 ^ 32 - 2 ^ 31.
Definition i64 (z : Z) : Z := (z + 2 ^ 63) mod 2 ^ 64 - 2 ^ 63.

Definition in_i32 (z : Z) : Prop := - 2 ^ 31 <= z < 2 ^ 31.
Definition in_i64 (z : Z) : Prop := - 2 ^ 63 <= z < 2 ^ 63.
Definition in_u32 (z : Z) : Prop := 0 <= z < 2 ^ 32.
Definition in_u64 (z : Z) : Prop := 0 <= z < 2 ^ 64.

(** ** C strings *)

(** What a [const char *] reading of a byte sequence sees: the part before
    the first NUL. *)
Fixpoint cstr (s : bytes) : bytes :=
  match s with
  | [] => []
  | c :: s' => if decide (c = NUL) then [] else c :: cstr s'
  end.

Definition strlen (s : bytes) : nat := length (cstr s).

(** [strchr(s, c) - s] for a character other than NUL. *)
Fixpoint strchr (s : bytes) (c : byte) : option nat :=
  match s with
  | [] => None
  | x :: s' => if decide (x = c) then Some 0%nat
               else if decide (x = NUL) then None
               else S <$> strchr s' c
  end.

(** [tolower], [toupper], [isdigit], [isspace], [isprint] of the C locale. *)
Definition tolower (c : byte) : byte :=
  if (65 <=? uchar c) && (uchar c <=? 90) then byte_of_Z (uchar c + 32) else c.
Definition toupper (c : byte) : byte :=
  if (97 <=? uchar c) && (uchar c <=? 122) then byte_of_Z (uchar c - 32) else c.
Definition isdigit (c : byte) : bool := (48 <=? uchar c) && (uchar c <=? 57).
Definition isspace (c : byte) : bool := (uchar c =? 32) || ((9 <=? uchar c) && (uchar c <=? 13)).
Definition isprint (c : byte) : bool := (32 <=? uchar c) && (uchar c <=? 126).

(** [!strcasecmp(a, b)]. *)
Definition strcaseeq (a b : bytes) : bool :=
  bool_decide (tolower <$> cstr a = tolower <$> cstr b).

(** ** Lemmas shared by the components *)

(** *** Bytes *)

Lemma uchar_range c : 0 <= uchar c < 256.
Proof.
  unfold uchar. pose proof (N_ascii_bounded c). lia.
Qed.

Lemma uchar_inj a b : uchar a = uchar b -> a = b.
Proof.
  unfold uchar. intros H. rewrite <- (ascii_N_embedding a), <- (ascii_N_embedding b).
  f_equal. lia.
Qed.

Lemma uchar_byte_of_Z z : uchar (byte_of_Z z) = z mod 256.
Proof.
  unfold uchar, byte_of_Z. pose proof (Z.mod_pos_bound z 256 eq_refl).
  rewrite N_ascii_embedding by lia. lia.
Qed.

Lemma byte_of_Z_uchar c : byte_of_Z (uchar c) = c.
Proof.
  apply uchar_inj. rewrite uchar_byte_of_Z. apply Z.mod_small, uchar_range.
Qed.

Lemma isdigit_spec c : isdigit c = true <-> 48 <= uchar c <= 57.
Proof. unfold isdigit. rewrite andb_true_iff. lia. Qed.

Lemma uchar_NUL : uchar NUL = 0.
Proof. reflexivity. Qed.

(** *** Machine integers *)

Lemma u32_small z : in_u32 z -> u32 z = z.
Proof. apply Z.mod_small. Qed.

Lemma u64_small z : in_u64 z -> u64 z = z.
Proof. apply Z.mod_small. Qed.

Lemma u64_add_l a b : u64 (u64 a + b) = u64 (a + b).
Proof. unfold u64. by rewrite Zplus_mod_idemp_l. Qed.

Lemma u64_add_r a b : u64 (a + u64 b) = u64 (a + b).
Proof. rewrite Z.add_comm, u64_add_l. f_equal. lia. Qed.

Lemma u64_sub_l a b : u64 (u64 a - b) = u64 (a - b).
Proof. unfold u64. by rewrite Zminus_mod_idemp_l. Qed.

Lemma i32_small z : in_i32 z -> i32 z = z.
Proof. unfold in_i32, i32. intros. rewrite Z.mod_small; lia. Qed.

Lemma i64_small z : in_i64 z -> i64 z = z.
Proof. unfold in_i64, i64. intros. rewrite Z.mod_small; lia. Qed.

Lemma i32_range z : in_i32 (i32 z).
Proof. unfold in_i32, i32. pose proof (Z.mod_pos_bound (z + 2 ^ 31) (2 ^ 32)). lia. Qed.

Lemma u32_range z : in_u32 (u32 z).
Proof. unfold in_u32, u32. apply Z.mod_pos_bound. lia. Qed.

Lemma u64_range z : in_u64 (u64 z).
Proof. unfold in_u64, u64. apply Z.mod_pos_bound. lia. Qed.

(** *** C strings *)

Lemma cstr_app_NUL s t : NUL ∉ s -> cstr (s ++ NUL :: t) = s.
Proof.
  induction s as [|c s IH]; intros H; [done|].
  apply not_elem_of_cons in H as [Hc Hs]. cbn [cstr app].
  rewrite decide_False by congruence. f_equal. auto.
Qed.

Lemma cstr_id s : NUL ∉ s -> cstr s = s.
Proof.
  induction s as [|c s IH]; intros H; [done|].
  apply not_elem_of_cons in H as [Hc Hs]. cbn [cstr].
  rewrite decide_False by congruence. f_equal. auto.
Qed.

Lemma cstr_no_NUL s : NUL ∉ cstr s.
Proof.
  induction s as [|c s IH]; cbn [cstr]; [set_solver|].
  case_decide; set_solver.
Qed.

Lemma cstr_idemp s : cstr (cstr s) = cstr s.
Proof. apply cstr_id, cstr_no_NUL. Qed.

Lemma strchr_app_here s c t :
  c ∉ s -> NUL ∉ s -> strchr (s ++ c :: t) c = Some (length s).
Proof.
  induction s as [|x s IH]; intros Hc Hn; cbn.
  - by rewrite decide_True.
  - apply not_elem_of_cons in Hc as [? ?], Hn as [? ?].
    rewrite !decide_False by congruence. by rewrite IH.
Qed.

(** A successful search is stable under appending. *)
Lemma strchr_app_Some s c t n :
  strchr s c = Some n -> strchr (s ++ t) c = Some n.
Proof.
  revert n. induction s as [|x s IH]; intros n; cbn; [done|].
  case_decide; [done|]. case_decide; [done|].
  destruct (strchr s c) as [m|]; cbn; [|done].
  intros [= <-]. by rewrite (IH m).
Qed.

Lemma strchr_Some_lt s c n : strchr s c = Some n -> (n < length s)%nat.
Proof.
  revert n. induction s as [|x s IH]; intros n; cbn; [done|].
  case_decide; [intros [= <-]; lia|]. case_decide; [done|].
  destruct (strchr s c) as [m|]; cbn; [|done].
  intros [= <-]. specialize (IH m eq_refl). lia.
Qed.

Lemma strchr_Some_take s c n :
  strchr s c = Some n -> s !! n = Some c /\ c ∉ take n s /\ NUL ∉ take n s.
Proof.
  revert n. induction s as [|x s IH]; intros n; cbn; [done|].
  case_decide; [intros [= <-]; subst; cbn; set_solver|]. case_decide; [done|].
  destruct (strchr s c) as [m|]; cbn; [|done].
  intros [= <-]. destruct (IH m eq_refl) as (? & ? & ?).
  cbn. set_solver.
Qed.

Lemma bs_length s : length (bs s) = String.length s.
Proof. unfold bs. induction s; cbn; congruence. Qed.

(** *** Lists *)

Lemma filter_ne_notin {A} `{EqDecision A} (x : A) (l : list A) :
  x ∉ l -> filter (fun y => y <> x) l = l.
Proof.
  induction l as [|y l IH]; intros H; [done|]. apply not_elem_of_cons in H as [? ?].
  rewrite filter_cons_True by congruence. f_equal. auto.
Qed.

(** *** A system to try descriptors on: it gives the one above those that are open *)

Definition above (X : gset Z) : Z := 1 + foldr Z.max (-1) (elements X).

Lemma above_new X : 0 <= above X /\ above X ∉ X.
Proof.
  unfold above. assert (-1 <= foldr Z.max (-1) (elements X) /\ forall x, x ∈ elements X -> x <= foldr Z.max (-1) (elements X)) as [H1 H2].
  { induction (elements X) as [|y l [IH1 IH2]]; cbn [foldr]; [split; [lia|by intros x ?%not_elem_of_nil]|]. split; [lia|].
    intros x [->|Hx]%elem_of_cons; [lia|]. specialize (IH2 x Hx). lia. }
  split; [lia|]. intros Hx%elem_of_elements. specialize (H2 _ Hx). lia.
Qed.

(** ** Automation shared by the components *)

Create HintDb kids discriminated.

#[export] Hint Resolve uchar_range i32_range u32_range u64_range cstr_no_NUL : kids.
#[export] Hint Rewrite uchar_byte_of_Z byte_of_Z_uchar cstr_idemp bs_length : kids.

(** Turns the boolean tests of the code into the propositions they decide. *)
Ltac bool_to_prop :=
  repeat match goal with
  | H : (_ && _) = true |- _ => apply andb_true_iff in H as [? ?]
  | H : (_ || _) = false |- _ => apply orb_false_iff in H as [? ?]
  | H : negb _ = true |- _ => apply negb_true_iff in H
  | H : negb _ = false |- _ => apply negb_false_iff in H
  | H : (_ <? _) = true |- _ => apply Z.ltb_lt in H
  | H : (_ <? _) = false |- _ => apply Z.ltb_ge in H
  | H : (_ <=? _) = true |- _ => apply Z.leb_le in H
  | H : (_ <=? _) = false |- _ => apply Z.leb_gt in H
  | H : (_ =? _) = true |- _ => apply Z.eqb_eq in H
  | H : (_ =? _) = false |- _ => apply Z.eqb_neq in H
  | H : bool_decide _ = true |- _ => apply bool_decide_eq_true in H
  | H : bool_decide _ = false |- _ => apply bool_decide_eq_false in H
  end.

(** Splits on the tests of the goal, in order, keeping their equations. *)
Ltac split_ifs :=
  repeat (match goal with
          | |- context [if ?b then _ else _] => destruct b eqn:?
          end; bool_to_prop).
