(* ===== verification/Common.v ===== *)
(** * constants.h, common.h, kids.h: replies, limits, statistics, hashing *)

From S2P Require Import Prelude.

(** ** Constants *)

Definition CLIENT_REP_BUF_BYTES : Z := 1024 * 16.
Definition KIDS_IOBUF_LEN : Z := 1024 * 16.
Definition KIDS_MAX_QUERYBUF_LEN : Z := 1024 * 1024 * 1024.
Definition KIDS_MAX_WRITE_PER_EVENT : Z := 1024 * 64.

Definition REP_OK : bytes := bs "+OK" ++ crlf.
Definition REP_PONG : bytes := bs "+PONG" ++ crlf.
Definition REP_CZERO : bytes := bs ":0" ++ crlf.
Definition REP_CONE : bytes := bs ":1" ++ crlf.
Definition REP_MBULK3 : bytes := bs "*3" ++ crlf.
Definition REP_MBULK4 : bytes := bs "*4" ++ crlf.
Definition REP_MESSAGEBULK : bytes := bs "$7" ++ crlf ++ bs "message" ++ crlf.
Definition REP_PMESSAGEBULK : bytes := bs "$8" ++ crlf ++ bs "pmessage" ++ crlf.
Definition REP_SUBSCRIBEBULK : bytes := bs "$9" ++ crlf ++ bs "subscribe" ++ crlf.
Definition REP_UNSUBSCRIBEBULK : bytes := bs "$11" ++ crlf ++ bs "unsubscribe" ++ crlf.
Definition REP_PSUBSCRIBEBULK : bytes := bs "$10" ++ crlf ++ bs "psubscribe" ++ crlf.
Definition REP_PUNSUBSCRIBEBULK : bytes := bs "$12" ++ crlf ++ bs "punsubscribe" ++ crlf.

(** ** Output limits (conf.h) *)

Inductive limit_type : Type := NLIMIT_NORMAL | NLIMIT_NETWORKSTORE | NLIMIT_PUBSUB.

#[export] Instance limit_type_eq_dec : EqDecision limit_type.
Proof. solve_decision. Defined.

Record LimitConfig := Limit {
  hard_limit_bytes : Z;
  soft_limit_bytes : Z;
  soft_limit_seconds : Z;
}.

(** [Master::Config] (master.h). *)
Record Config := MkConfig {
  worker_threads : Z;
  listen_socket : bytes;
  listen_host : bytes;
  listen_port : Z;
  ignore_case : bool;
  max_clients : Z;
  nlimit : limit_type -> LimitConfig;
  queue_limit : Z;
}.

(** ** Statistic *)

Record Statistic := Stat {
  start_time : Z;
  msg_in : Z;
  msg_in_traffic : Z;
  msg_in_ps : Z;
  msg_in_traffic_ps : Z;
  msg_out : Z;
  msg_out_traffic : Z;
  msg_out_ps : Z;
  msg_out_traffic_ps : Z;
  msg_in_queue : Z;
  queue_mem_size : Z;
  msg_store : Z;
  msg_store_size : Z;
  msg_buffer : Z;
  msg_buffer_size : Z;
  msg_drop : Z;
  nclients : Z;
  topics : Z;
  patterns : Z;
}.

Definition stat_zero : Statistic := Stat 0 0 0 0 0 0 0 0 0 0 0 0 0 0 0 0 0 0 0.

Definition stat_Add (a b : Statistic) : Statistic :=
  Stat (start_time a)
    (u64 (msg_in a + msg_in b)) (u64 (msg_in_traffic a + msg_in_traffic b))
    (msg_in_ps a) (msg_in_traffic_ps a)
    (u64 (msg_out a + msg_out b)) (u64 (msg_out_traffic a + msg_out_traffic b))
    (msg_out_ps a) (msg_out_traffic_ps a)
    (u64 (msg_in_queue a + msg_in_queue b)) (u64 (queue_mem_size a + queue_mem_size b))
    (u64 (msg_store a + msg_store b)) (u64 (msg_store_size a + msg_store_size b))
    (u64 (msg_buffer a + msg_buffer b)) (u64 (msg_buffer_size a + msg_buffer_size b))
    (u64 (msg_drop a + msg_drop b)) (u64 (nclients a + nclients b))
    (u64 (topics a + topics b)) (u64 (patterns a + patterns b)).

(** The counters the threads update. *)
Definition stat_in (s : Statistic) (traffic : Z) : Statistic :=
  Stat (start_time s) (u64 (msg_in s + 1)) (u64 (msg_in_traffic s + traffic)) (msg_in_ps s)
    (msg_in_traffic_ps s) (msg_out s) (msg_out_traffic s) (msg_out_ps s) (msg_out_traffic_ps s)
    (msg_in_queue s) (queue_mem_size s) (msg_store s) (msg_store_size s) (msg_buffer s)
    (msg_buffer_size s) (msg_drop s) (nclients s) (topics s) (patterns s).
Definition stat_out (s : Statistic) (traffic : Z) : Statistic :=
  Stat (start_time s) (msg_in s) (msg_in_traffic s) (msg_in_ps s)
    (msg_in_traffic_ps s) (u64 (msg_out s + 1)) (u64 (msg_out_traffic s + traffic)) (msg_out_ps s)
    (msg_out_traffic_ps s) (msg_in_queue s) (queue_mem_size s) (msg_store s) (msg_store_size s)
    (msg_buffer s) (msg_buffer_size s) (msg_drop s) (nclients s) (topics s) (patterns s).
Definition stat_sizes (s : Statistic) (c t p : Z) : Statistic :=
  Stat (start_time s) (msg_in s) (msg_in_traffic s) (msg_in_ps s)
    (msg_in_traffic_ps s) (msg_out s) (msg_out_traffic s) (msg_out_ps s) (msg_out_traffic_ps s)
    (msg_in_queue s) (queue_mem_size s) (msg_store s) (msg_store_size s) (msg_buffer s)
    (msg_buffer_size s) (msg_drop s) c t p.
Definition stat_dropped (s : Statistic) : Statistic :=
  Stat (start_time s) (msg_in s) (msg_in_traffic s) (msg_in_ps s)
    (msg_in_traffic_ps s) (msg_out s) (msg_out_traffic s) (msg_out_ps s) (msg_out_traffic_ps s)
    (msg_in_queue s) (queue_mem_size s) (msg_store s) (msg_store_size s) (msg_buffer s)
    (msg_buffer_size s) (u64 (msg_drop s + 1)) (nclients s) (topics s) (patterns s).

(** ** Hash tables keyed by sds *)

(** [SdsHasher]: [hash * 33 + c] on [size_t], the char sign-extended. *)
Definition SdsHasher (buf : bytes) : Z :=
  fold_left (fun hash c => u64 (u64 (Z.shiftl hash 5 + hash) + schar c)) buf 5381.

(** [SdsEqual]: same length and same bytes; keys are compared by content. *)
Definition SdsEqual (a b : bytes) : bool :=
  if negb (zlen a =? zlen b) then false else bool_decide (a = b).

Lemma SdsEqual_spec a b : SdsEqual a b = true <-> a = b.
Proof.
  unfold SdsEqual. destruct (zlen a =? zlen b) eqn:E; cbn.
  - apply bool_decide_eq_true.
  - split; [done|]. intros ->. by rewrite Z.eqb_refl in E.
Qed.

(** ** Sums of statistics *)

(** The counters the master reports by adding those of the threads. *)
Definition stat_counters : list (Statistic -> Z) :=
  [msg_in; msg_in_traffic; msg_out; msg_out_traffic; msg_in_queue; queue_mem_size;
   msg_store; msg_store_size; msg_buffer; msg_buffer_size; msg_drop; nclients; topics; patterns].

Lemma stat_Add_sum (stats : list Statistic) f :
  In f stat_counters -> f (fold_left stat_Add stats stat_zero) = u64 (foldr (fun s n => f s + n) 0 stats).
Proof.
  intros Hf. assert (forall acc, f (fold_left stat_Add stats acc) =
    if decide (stats = []) then f acc else u64 (f acc + foldr (fun s n => f s + n) 0 stats)) as H.
  { induction stats as [|s stats IH]; intros acc; [done|]. cbn [fold_left foldr]. rewrite IH.
    assert (f (stat_Add acc s) = u64 (f acc + f s)) as ->.
    { cbn in Hf. by repeat (destruct Hf as [<-|Hf]; [done|]). }
    destruct stats as [|s' stats]; cbn -[u64 foldr]; [cbn [foldr]; f_equal; lia|].
    unfold u64. rewrite Zplus_mod_idemp_l. f_equal. cbn. lia. }
  rewrite H. case_decide as He; [subst; cbn|].
  - cbn in Hf. by repeat (destruct Hf as [<-|Hf]; [done|]).
  - assert (f stat_zero = 0) as ->; [|done].
    cbn in Hf. by repeat (destruct Hf as [<-|Hf]; [done|]).
Qed.
