(* ===== verification/Util.v ===== *)
(** * util.cc: conversions between numbers and text

    [string2ll] and [ll2string] (signed 64-bit decimal), [ParseTime] and
    [ParseSize] (configuration quantities), [bytesToHuman], [ParseMessage].
    The glob matcher of the same file is in Glob.v. *)

From S2P Require Import Prelude.

(** ** Definitions *)

Definition ULLONG_MAX : Z := 2 ^ 64 - 1.
Definition LLONG_MAX : Z := 2 ^ 63 - 1.
Definition LLONG_MIN : Z := - 2 ^ 63.

(** ['0' + d] and [c - '0']. *)
Definition digit_char (d : Z) : byte := byte_of_Z (48 + d).
Definition digit_val (c : byte) : Z := uchar c - 48.

(** The digit loop of [string2ll]: [s] is the text at [p] up to the NUL that
    ends it, so [[]] is a [p[0]] that is NUL and no digit.  [None] is one of
    the two overflow returns; otherwise the value and [plen] at the end. *)
Fixpoint string2ll_digits (s : bytes) (plen slen v : Z) : option (Z * Z) :=
  match s with
  | [] => Some (v, plen)
  | c :: s' =>
      if (plen <? slen) && isdigit c then
        if v >? ULLONG_MAX / 10 then None
        else
          let v10 := v * 10 in
          if v10 >? ULLONG_MAX - digit_val c then None
          else string2ll_digits s' (plen + 1) slen (v10 + digit_val c)
      else Some (v, plen)
  end.

(** [string2ll(s, slen, &value)]: [Some value] for a return of 1, [None] for
    a return of 0.  [s] is the memory at the pointer up to its NUL; [slen] is
    a [size_t] and may exceed it. *)
Definition string2ll (s : bytes) (slen : Z) : option Z :=
  if slen =? 0 then None
  else if (slen =? 1) && bool_decide (head s = Some "0"%char) then Some 0
  else
    let negative := bool_decide (head s = Some "-"%char) in
    let p := if negative then tail s else s in
    let plen := if negative then 1 else 0 in
    if negative && (plen =? slen) then None
    else
      match p with
      | [] => None
      | c :: p' =>
          if (49 <=? uchar c) && (uchar c <=? 57) then
            match string2ll_digits p' (plen + 1) slen (digit_val c) with
            | None => None
            | Some (v, plen) =>
                if plen <? slen then None
                else if negative then
                  if v >? 2 ^ 63 then None else Some (i64 (u64 (- v)))
                else if v >? LLONG_MAX then None else Some v
            end
          else if bool_decide (c = "0"%char) && (slen =? 1) then Some 0
          else None
      end.

(** The do-while of [ll2string] and [sdsfromlonglong], which fills [buf] from
    its end.  A 64-bit value has at most 20 digits, the fuel given below. *)
Fixpoint fill_digits (fuel : nat) (v : Z) (p : bytes) : bytes :=
  match fuel with
  | O => p
  | S fuel' =>
      let p := digit_char (v mod 10) :: p in
      let v := v / 10 in
      if v =? 0 then p else fill_digits fuel' v p
  end.

(** The decimal text both functions leave in [buf].  The negation is done
    modulo [2 ^ 64], as the conversion to unsigned does. *)
Definition ll_text (value : Z) : bytes :=
  let v := u64 (if value <? 0 then - value else value) in
  let p := fill_digits 20 v [] in
  if value <? 0 then "-"%char :: p else p.

(** [ll2string(s, len, value)]: the characters put in [s] before the NUL (the
    returned length is their number). *)
Definition ll2string (len : Z) (value : Z) : bytes :=
  if len =? 0 then []
  else
    let p := ll_text value in
    let l := zlen p in
    let l := if l + 1 >? len then len - 1 else l in
    take (Z.to_nat l) p.

(** The digit prefix of a configuration quantity: the value, in an [int], and
    the rest of the string. *)
Fixpoint parse_int_prefix (s : bytes) (t : Z) : Z * bytes :=
  match s with
  | [] => (t, [])
  | c :: s' =>
      if isdigit c then parse_int_prefix s' (i32 (i32 (t * 10) + digit_val c))
      else (t, s)
  end.

(** [ParseTime(str, &value)]: [None] for [false]. *)
Definition ParseTime (str : bytes) : option Z :=
  let '(t, unit) := parse_int_prefix (cstr str) 0 in
  if strcaseeq unit (bs "h") || strcaseeq unit (bs "hour") then Some (i32 (t * 3600))
  else if strcaseeq unit (bs "m") || strcaseeq unit (bs "min") then Some (i32 (t * 60))
  else if strcaseeq unit (bs "s") || strcaseeq unit (bs "sec") then Some (i32 (t * 1))
  else if strcaseeq unit (bs "d") || strcaseeq unit (bs "day") then Some (i32 (t * (3600 * 24)))
  else None.

(** [ParseSize(str, &value)]. *)
Definition ParseSize (str : bytes) : option Z :=
  let '(t, unit) := parse_int_prefix (cstr str) 0 in
  if strcaseeq unit (bs "b") || strcaseeq unit (bs "byte") then Some (i32 (t * 1))
  else if strcaseeq unit (bs "k") || strcaseeq unit (bs "kb") then Some (i32 (t * 1024))
  else if strcaseeq unit (bs "m") || strcaseeq unit (bs "mb") then Some (i32 (t * (1024 * 1024)))
  else if strcaseeq unit (bs "g") || strcaseeq unit (bs "gb") then Some (i32 (t * (1024 * 1024 * 1024)))
  else None.

(** Division rounded to nearest, ties to even: the rounding of the conversion
    to [double] and of ["%.2f"]. *)
Definition div_half_even (a b : Z) : Z :=
  let q := a / b in
  let r := a mod b in
  if 2 * r <? b then q
  else if 2 * r >? b then q + 1
  else if Z.even q then q else q + 1.

(** [(double) n] of an unsigned 64-bit [n]: 53 significant bits. *)
Definition to_double (n : Z) : Z :=
  if n <? 2 ^ 53 then n
  else let e := Z.log2 n - 52 in div_half_even n (2 ^ e) * 2 ^ e.

(** ["%.2f"] of [d / 2 ^ k], which the division computes exactly. *)
Definition format_2f (d k : Z) : bytes :=
  let hundredths := div_half_even (100 * d) (2 ^ k) in
  ll_text (hundredths / 100) ++ "."%char
    :: digit_char (hundredths mod 100 / 10) :: digit_char (hundredths mod 10) :: [].

(** [bytesToHuman(s, n)]: the text written to [s], [None] when nothing is. *)
Definition bytesToHuman (n : Z) : option bytes :=
  if n <? 1024 then Some (ll_text n ++ bs "B")
  else if n <? 1024 * 1024 then Some (format_2f (to_double n) 10 ++ bs "K")
  else if n <? 1024 * 1024 * 1024 then Some (format_2f (to_double n) 20 ++ bs "M")
  else if n <? 1024 * 1024 * 1024 * 1024 then Some (format_2f (to_double n) 30 ++ bs "G")
  else if n <? 1024 * 1024 * 1024 * 1024 * 1024 then Some (format_2f (to_double n) 40 ++ bs "T")
  else None.

(** [ParseMessage(data, size)]: the topic and the content of the message. *)
Definition ParseMessage (data : bytes) : bytes * bytes :=
  match strchr data "|"%char with
  | None => (bs "zhihu.notopic", data)
  | Some p => (take p data, drop (p + 1) data)
  end.

(** The value of a digit sequence, read from the left. *)
Definition digits_value (v : Z) (s : bytes) : Z :=
  fold_left (fun v c => v * 10 + digit_val c) s v.

(** The units of a configuration quantity and what they multiply by. *)
Definition size_units : list (bytes * Z) :=
  [(bs "b", 1); (bs "byte", 1); (bs "k", 1024); (bs "kb", 1024);
   (bs "m", 1024 ^ 2); (bs "mb", 1024 ^ 2); (bs "g", 1024 ^ 3); (bs "gb", 1024 ^ 3)].
Definition time_units : list (bytes * Z) :=
  [(bs "h", 3600); (bs "hour", 3600); (bs "m", 60); (bs "min", 60);
   (bs "s", 1); (bs "sec", 1); (bs "d", 86400); (bs "day", 86400)].

(** ** Decimal digits *)

Lemma digit_val_char d : 0 <= d < 10 -> digit_val (digit_char d) = d.
Proof.
  intros. unfold digit_val, digit_char. autorewrite with kids.
  rewrite Z.mod_small; lia.
Qed.

Lemma digit_char_val c : isdigit c = true -> digit_char (digit_val c) = c.
Proof.
  intros ?%isdigit_spec. unfold digit_val, digit_char.
  replace (48 + (uchar c - 48)) with (uchar c) by lia. apply byte_of_Z_uchar.
Qed.

Lemma isdigit_char d : 0 <= d < 10 -> isdigit (digit_char d) = true.
Proof.
  intros. apply isdigit_spec. unfold digit_char. autorewrite with kids.
  rewrite Z.mod_small; lia.
Qed.

Lemma isdigit_val_range c : isdigit c = true -> 0 <= digit_val c < 10.
Proof. intros ?%isdigit_spec. unfold digit_val. lia. Qed.

#[export] Hint Resolve isdigit_char isdigit_val_range : kids.

Lemma digits_value_app v s t : digits_value v (s ++ t) = digits_value (digits_value v s) t.
Proof. apply fold_left_app. Qed.

Lemma digits_value_snoc v s c :
  digits_value v (s ++ [c]) = digits_value v s * 10 + digit_val c.
Proof. by rewrite digits_value_app. Qed.

Lemma digits_value_ge v s :
  Forall (fun c => isdigit c = true) s -> 0 <= v -> v <= digits_value v s.
Proof.
  intros Hs. revert v. induction Hs as [|c s Hc Hs IH]; intros v Hv; cbn; [lia|].
  apply isdigit_val_range in Hc. specialize (IH (v * 10 + digit_val c)).
  unfold digits_value in IH. lia.
Qed.

(** [fill_digits] prepends the digits of [v], which has no leading zero
    unless it is 0. *)
Lemma fill_digits_spec fuel v p :
  0 <= v < 10 ^ Z.of_nat fuel -> (0 < fuel)%nat ->
  exists d, fill_digits fuel v p = d ++ p
    /\ Forall (fun c => isdigit c = true) d
    /\ digits_value 0 d = v
    /\ (length d <= fuel)%nat
    /\ ((v = 0 /\ d = [digit_char 0]) \/ exists c d', d = c :: d' /\ 49 <= uchar c <= 57).
Proof.
  revert v p. induction fuel as [|fuel IH]; intros v p Hv Hf; [lia|].
  cbn [fill_digits].
  pose proof (Z.mod_pos_bound v 10 eq_refl) as Hm.
  pose proof (Z.div_mod v 10 ltac:(lia)) as Hdm.
  destruct (v / 10 =? 0) eqn:E; bool_to_prop.
  - exists [digit_char (v mod 10)].
    split_and!; [done| by repeat constructor; apply isdigit_char | | cbn; lia |].
    + cbn. rewrite digit_val_char by lia. lia.
    + destruct (decide (v = 0)) as [->|?]; [by left|].
      right. exists (digit_char (v mod 10)), []. split; [done|].
      unfold digit_char. autorewrite with kids. rewrite Z.mod_small; lia.
  - rewrite Nat2Z.inj_succ, Z.pow_succ_r in Hv by lia.
    assert (Hq : 0 < v / 10 < 10 ^ Z.of_nat fuel).
    { split; [pose proof (Z.div_pos v 10); lia|]. apply Z.div_lt_upper_bound; lia. }
    destruct fuel as [|fuel]; [lia|].
    destruct (IH (v / 10) (digit_char (v mod 10) :: p)) as (d & -> & Hd & Hval & Hlen & Hc); [lia..|].
    exists (d ++ [digit_char (v mod 10)]).
    split_and!.
    + by rewrite <- app_assoc.
    + apply Forall_app. split; [done|]. repeat constructor. by apply isdigit_char.
    + rewrite digits_value_snoc, Hval, digit_val_char; lia.
    + rewrite length_app. cbn. lia.
    + right. destruct Hc as [[? _]|(c & d' & -> & ?)]; [lia|]. by exists c, (d' ++ [digit_char (v mod 10)]).
Qed.

(** ** The digit loop of [string2ll] *)

(** Over a text of digits only, the loop accumulates the value, and stops
    with the overflow return exactly when the value leaves 64 bits. *)
Lemma string2ll_digits_all s plen v :
  Forall (fun c => isdigit c = true) s -> in_u64 v ->
  string2ll_digits s plen (plen + zlen s) v =
    if digits_value v s <=? ULLONG_MAX then Some (digits_value v s, plen + zlen s) else None.
Proof.
  intros Hs. revert plen v. induction Hs as [|c s Hc Hs IH]; intros plen v Hv.
  - cbn. unfold in_u64, ULLONG_MAX in *. rewrite Z.add_0_r.
    rewrite (proj2 (Z.leb_le _ _)) by lia. done.
  - cbn [string2ll_digits length]. rewrite Hc.
    rewrite (proj2 (Z.ltb_lt _ _)) by lia. cbn [andb].
    pose proof (isdigit_val_range _ Hc) as Hr.
    cbn [digits_value fold_left].
    change (fold_left (fun v c => v * 10 + digit_val c) s (v * 10 + digit_val c))
      with (digits_value (v * 10 + digit_val c) s).
    pose proof (digits_value_ge (v * 10 + digit_val c) s Hs ltac:(unfold in_u64 in Hv; lia)).
    unfold in_u64 in Hv.
    change (ULLONG_MAX / 10) with 1844674407370955161.
    unfold ULLONG_MAX in *.
    destruct (v >? 1844674407370955161) eqn:E1.
    { rewrite (proj2 (Z.leb_gt _ _)) by lia. done. }
    destruct (v * 10 >? 2 ^ 64 - 1 - digit_val c) eqn:E2.
    { rewrite (proj2 (Z.leb_gt _ _)) by lia. done. }
    replace (plen + Z.of_nat (S (length s))) with (plen + 1 + zlen s) by lia.
    apply IH. unfold in_u64. lia.
Qed.

(** When the loop succeeds having used all [slen] bytes of a text of that
    length, the text was digits only. *)
Lemma string2ll_digits_inv s plen slen v r :
  plen + zlen s = slen ->
  string2ll_digits s plen slen v = Some (r, slen) -> Forall (fun c => isdigit c = true) s.
Proof.
  revert plen v. induction s as [|c s IH]; intros plen v Hlen H; [constructor|].
  cbn [string2ll_digits length] in *.
  destruct ((plen <? slen) && isdigit c) eqn:E.
  - destruct (v >? _); [done|]. destruct (_ >? _); [done|].
    bool_to_prop. constructor; [done|]. eapply (IH (plen + 1)); [lia|done].
  - injection H as <- <-. lia.
Qed.
Lemma string2ll_digits_plen s plen slen v r n :
  plen <= slen -> string2ll_digits s plen slen v = Some (r, n) -> n <= slen.
Proof.
  revert plen v. induction s as [|c s IH]; intros plen v Hle H; cbn in H.
  - by injection H as <- <-.
  - destruct ((plen <? slen) && isdigit c) eqn:E.
    + destruct (v >? _); [done|]. destruct (_ >? _); [done|].
      bool_to_prop. eapply IH; [|done]. lia.
    + by injection H as <- <-.
Qed.

Lemma digits_value_pos c d :
  Forall (fun c => isdigit c = true) (c :: d) -> 49 <= uchar c -> 0 < digits_value 0 (c :: d).
Proof.
  intros H Hc. inversion_clear H as [|? ? _ Hd].
  change (0 < digits_value (digit_val c) d).
  pose proof (digits_value_ge (digit_val c) d Hd). unfold digit_val in *. lia.
Qed.

(** A digit text without leading zero is the one [fill_digits] makes. *)
Lemma fill_digits_value d fuel p :
  Forall (fun c => isdigit c = true) d ->
  (exists c d', d = c :: d' /\ 49 <= uchar c) -> (length d <= fuel)%nat ->
  fill_digits fuel (digits_value 0 d) p = d ++ p.
Proof.
  revert fuel p. induction d as [|c d IH] using rev_ind; intros fuel p Hd Hh Hlen.
  { destruct Hh as (? & ? & ? & _); done. }
  rewrite length_app in Hlen. cbn in Hlen. destruct fuel as [|fuel]; [lia|].
  apply Forall_app in Hd as [Hd Hc]. inversion_clear Hc as [|? ? Hc' _].
  pose proof (isdigit_val_range _ Hc').
  rewrite digits_value_snoc. cbn [fill_digits].
  rewrite Z.add_comm, Z.mod_add, Z.div_add by lia.
  rewrite Z.mod_small, Z.div_small, digit_char_val by (done || lia). cbn [Z.add].
  destruct d as [|x d].
  - done.
  - destruct Hh as (x' & d' & [= <- <-] & Hx).
    pose proof (digits_value_pos x d Hd Hx).
    rewrite (proj2 (Z.eqb_neq _ _)) by lia.
    rewrite IH; [by rewrite <- app_assoc|done|eauto|lia].
Qed.

Lemma digits_value_len d v :
  Forall (fun c => isdigit c = true) d -> 0 < v -> 10 ^ zlen d <= digits_value v d.
Proof.
  intros Hd Hv. induction d as [|c d IH] using rev_ind; [cbn; lia|].
  apply Forall_app in Hd as [Hd Hc]. inversion_clear Hc as [|? ? Hc' _].
  apply isdigit_val_range in Hc'. specialize (IH Hd).
  rewrite digits_value_snoc, length_app. cbn [length].
  rewrite Nat2Z.inj_add, Z.pow_add_r by lia. cbn. lia.
Qed.

Lemma digits_length_64 c d :
  Forall (fun c => isdigit c = true) (c :: d) -> 49 <= uchar c ->
  digits_value 0 (c :: d) <= 2 ^ 64 -> (length (c :: d) <= 20)%nat.
Proof.
  intros H Hc Hv. inversion_clear H. cbn [length].
  change (digits_value 0 (c :: d)) with (digits_value (digit_val c) d) in Hv.
  pose proof (digits_value_len d (digit_val c) ltac:(done) ltac:(unfold digit_val; lia)) as Hl.
  destruct (decide (length d <= 19)%nat); [lia|].
  assert (Hp : 10 ^ 20 <= 10 ^ zlen d) by (apply Z.pow_le_mono_r; lia).
  assert (2 ^ 64 < 10 ^ 20) by done. lia.
Qed.

(** ** [ll_text] *)

Lemma ll_text_nonneg v :
  0 <= v < 2 ^ 63 ->
  exists d, ll_text v = d /\ Forall (fun c => isdigit c = true) d /\ digits_value 0 d = v
    /\ (length d <= 20)%nat
    /\ ((v = 0 /\ d = bs "0") \/ exists c d', d = c :: d' /\ 49 <= uchar c <= 57).
Proof.
  intros Hv. unfold ll_text. rewrite (proj2 (Z.ltb_ge _ _)) by lia.
  rewrite u64_small by (unfold in_u64; lia).
  destruct (fill_digits_spec 20 v []) as (d & -> & ? & ? & ? & Hc); [lia..|].
  rewrite app_nil_r. exists d. split_and!; try done.
Qed.

Lemma ll_text_neg v :
  - 2 ^ 63 <= v < 0 ->
  exists c d, ll_text v = "-"%char :: c :: d /\ Forall (fun c => isdigit c = true) (c :: d)
    /\ digits_value 0 (c :: d) = - v /\ (length (c :: d) <= 20)%nat /\ 49 <= uchar c <= 57.
Proof.
  intros Hv. unfold ll_text. rewrite (proj2 (Z.ltb_lt _ _)) by lia.
  rewrite u64_small by (unfold in_u64; lia).
  destruct (fill_digits_spec 20 (- v) []) as (d & -> & ? & ? & ? & Hc); [lia..|].
  rewrite app_nil_r. destruct Hc as [[? _]|(c & d' & -> & ?)]; [lia|].
  exists c, d'. split_and!; try done; lia.
Qed.

Lemma ll_text_length v : in_i64 v -> (1 <= length (ll_text v) <= 21)%nat.
Proof.
  unfold in_i64. intros Hv. destruct (Z.lt_ge_cases v 0).
  - destruct (ll_text_neg v) as (c & d & -> & _ & _ & ? & _); [lia|]. cbn in *. lia.
  - destruct (ll_text_nonneg v) as (d & -> & _ & _ & ? & [[_ ->]|(c & d' & -> & _)]); [lia|cbn; lia|].
    cbn in *. lia.
Qed.

Lemma ll_text_no_special v x : in_i64 v -> x ∈ ll_text v -> x = "-"%char \/ isdigit x = true.
Proof.
  unfold in_i64. intros Hv Hx. destruct (Z.lt_ge_cases v 0).
  - destruct (ll_text_neg v) as (c & d & E & Hd & _); [lia|]. rewrite E in Hx.
    apply elem_of_cons in Hx as [->|Hx]; [by left|]. right.
    rewrite Forall_forall in Hd. by apply Hd.
  - destruct (ll_text_nonneg v) as (d & E & Hd & _); [lia|]. rewrite E in Hx.
    right. rewrite Forall_forall in Hd. by apply Hd.
Qed.

(** ** [string2ll] reads exactly the canonical decimal texts *)

Lemma string2ll_unsigned c d n :
  Forall (fun c => isdigit c = true) (c :: d) -> 49 <= uchar c <= 57 ->
  string2ll_digits d (n + 1) (n + zlen (c :: d)) (digit_val c) =
    if digits_value 0 (c :: d) <=? ULLONG_MAX
    then Some (digits_value 0 (c :: d), n + zlen (c :: d)) else None.
Proof.
  intros H Hc. inversion_clear H. cbn [length].
  replace (n + Z.of_nat (S (length d))) with (n + 1 + zlen d) by lia.
  rewrite string2ll_digits_all; [done|done|].
  unfold in_u64, digit_val. lia.
Qed.

Lemma string2ll_complete v : in_i64 v -> string2ll (ll_text v) (zlen (ll_text v)) = Some v.
Proof.
  unfold in_i64. intros Hv. destruct (Z.lt_ge_cases v 0) as [Hneg|Hpos].
  - destruct (ll_text_neg v) as (c & d & -> & Hd & Hval & Hl & Hc); [lia|].
    unfold string2ll. cbn [head tail]. cbn [length]. cbn [length] in Hl.
    rewrite (proj2 (Z.eqb_neq _ 0)) by lia.
    rewrite (proj2 (Z.eqb_neq _ 1)) by lia. cbn [andb].
    rewrite bool_decide_eq_true_2 by done. cbn [andb].
    rewrite (proj2 (Z.eqb_neq _ _)) by lia.
    rewrite (proj2 (Z.leb_le _ _)), (proj2 (Z.leb_le _ _)) by lia. cbn [andb].
    pose proof (string2ll_unsigned c d 1 Hd Hc) as E. cbn [length] in E.
    replace (Z.of_nat (S (S (length d)))) with (1 + Z.of_nat (S (length d))) by lia.
    rewrite E, Hval. unfold ULLONG_MAX. rewrite (proj2 (Z.leb_le _ _)) by lia.
    rewrite Z.ltb_irrefl. rewrite Z.gtb_ltb, (proj2 (Z.ltb_ge _ _)) by lia.
    rewrite Z.opp_involutive. f_equal. unfold u64, i64.
    rewrite Zplus_mod_idemp_l. rewrite Z.mod_small; lia.
  - destruct (ll_text_nonneg v) as (d & -> & Hd & Hval & Hl & Hcase); [lia|].
    destruct Hcase as [[-> ->]|(c & d' & -> & Hc)]; [done|].
    unfold string2ll. cbn [head tail].
    assert (c <> "-"%char) by (intros ->; by destruct Hc as [[] _]).
    assert (c <> "0"%char) by (intros ->; by destruct Hc as [[] _]).
    cbn [length]. rewrite (proj2 (Z.eqb_neq _ 0)) by lia.
    rewrite (bool_decide_eq_false_2 (Some c = Some "0"%char)) by congruence.
    rewrite andb_false_r.
    rewrite (bool_decide_eq_false_2 (Some c = Some "-"%char)) by congruence.
    cbn [andb].
    rewrite (proj2 (Z.leb_le _ _)), (proj2 (Z.leb_le _ _)) by lia. cbn [andb].
    pose proof (string2ll_unsigned c d' 0 Hd Hc) as E. cbn [length] in E.
    replace (0 + Z.of_nat (S (length d'))) with (Z.of_nat (S (length d'))) in E by lia.
    rewrite E, Hval.
    unfold ULLONG_MAX. rewrite (proj2 (Z.leb_le _ _)) by lia.
    rewrite Z.ltb_irrefl. unfold LLONG_MAX. rewrite Z.gtb_ltb, (proj2 (Z.ltb_ge _ _)) by lia. done.
Qed.

(** The digits that [string2ll] accepts after the optional sign. *)
Lemma string2ll_digits_sound c d n v m :
  49 <= uchar c <= 57 ->
  string2ll_digits d (n + 1) (n + zlen (c :: d)) (digit_val c) = Some (v, m) ->
  (m <? n + zlen (c :: d)) = false ->
  Forall (fun c => isdigit c = true) (c :: d) /\ v = digits_value 0 (c :: d)
  /\ v <= ULLONG_MAX.
Proof.
  intros Hc H Hm. bool_to_prop.
  assert (m = n + zlen (c :: d)) as ->.
  { apply string2ll_digits_plen in H; [lia|]. cbn [length]. lia. }
  assert (Hd : Forall (fun c => isdigit c = true) (c :: d)).
  { constructor; [apply isdigit_spec; lia|].
    eapply string2ll_digits_inv; [|done]. cbn [length]. lia. }
  rewrite string2ll_unsigned in H by done.
  destruct (digits_value 0 (c :: d) <=? ULLONG_MAX) eqn:E; [|done].
  bool_to_prop. injection H as <-. done.
Qed.

Lemma fill_digits_canonical c d p :
  Forall (fun c => isdigit c = true) (c :: d) -> 49 <= uchar c <= 57 ->
  digits_value 0 (c :: d) <= ULLONG_MAX ->
  fill_digits 20 (digits_value 0 (c :: d)) p = c :: d ++ p.
Proof.
  intros Hd Hc Hv. rewrite fill_digits_value; [done|done|naive_solver lia|].
  apply digits_length_64; unfold ULLONG_MAX in *; (done || lia).
Qed.

Lemma string2ll_sound s v :
  string2ll s (zlen s) = Some v -> in_i64 v /\ s = ll_text v.
Proof.
  unfold string2ll, in_i64. intros H.
  destruct (zlen s =? 0) eqn:E0; [done|]. bool_to_prop.
  destruct ((zlen s =? 1) && _) eqn:E1.
  { injection H as <-. bool_to_prop. destruct s as [|x [|y s]]; try (cbn in *; lia).
    cbn in *. split; [lia|]. simplify_eq. done. }
  destruct s as [|x s]; [done|]. cbn [head tail] in H.
  destruct (bool_decide (Some x = Some "-"%char)) eqn:Ex; bool_to_prop.
  - injection Ex as ->. cbn [andb] in H.
    destruct (1 =? _); [done|]. destruct s as [|c d]; [done|].
    destruct ((49 <=? uchar c) && (uchar c <=? 57)) eqn:Ec.
    2: { destruct (bool_decide (c = "0"%char)); cbn [andb length] in H; [|done].
         rewrite (proj2 (Z.eqb_neq _ _)) in H by lia. done. }
    bool_to_prop.
    replace (zlen ("-"%char :: c :: d)) with (1 + zlen (c :: d)) in H by (cbn [length]; lia).
    destruct (string2ll_digits d (1 + 1) _ _) as [[r m]|] eqn:E; [|done].
    destruct (m <? 1 + zlen (c :: d)) eqn:Em; [done|].
    apply string2ll_digits_sound in E as (Hd & -> & Hr); [|lia|done].
    pose proof (digits_value_pos c d Hd ltac:(lia)).
    destruct (digits_value 0 (c :: d) >? 2 ^ 63) eqn:Eg; [done|].
    rewrite Z.gtb_ltb in Eg. bool_to_prop.
    replace (i64 (u64 (- digits_value 0 (c :: d)))) with (- digits_value 0 (c :: d)) in H
      by (unfold u64, i64; rewrite Zplus_mod_idemp_l, Z.mod_small; lia).
    assert (v = - digits_value 0 (c :: d)) as -> by congruence.
    split; [lia|]. unfold ll_text. rewrite (proj2 (Z.ltb_lt _ _)) by lia.
    rewrite Z.opp_involutive, u64_small by (unfold in_u64; lia).
    rewrite fill_digits_canonical by (done || lia). by rewrite app_nil_r.
  - cbn [andb] in H. 
    destruct ((49 <=? uchar x) && (uchar x <=? 57)) eqn:Ec.
    2: { rewrite andb_comm in H. cbn [head] in E1.
         destruct (zlen (x :: s) =? 1); cbn [andb] in H, E1; [|done].
         destruct (decide (x = "0"%char)) as [->|]; [done|].
         by rewrite bool_decide_eq_false_2 in H. }
    bool_to_prop.
    destruct (string2ll_digits s (0 + 1) _ _) as [[r m]|] eqn:E; [|done].
    destruct (m <? zlen (x :: s)) eqn:Em; [done|].
    pose proof (string2ll_digits_sound x s 0 r m) as Hs. rewrite !Z.add_0_l in Hs.
    apply Hs in E as (Hd & -> & Hr); [|lia|done].
    pose proof (digits_value_pos x s Hd ltac:(lia)).
    destruct (digits_value 0 (x :: s) >? LLONG_MAX) eqn:Eg; [done|].
    rewrite Z.gtb_ltb in Eg. bool_to_prop. unfold LLONG_MAX in *.
    assert (v = digits_value 0 (x :: s)) as -> by congruence.
    split; [lia|]. unfold ll_text. rewrite (proj2 (Z.ltb_ge _ _)) by lia.
    rewrite u64_small by (unfold in_u64; lia).
    rewrite fill_digits_canonical by (done || lia). by rewrite app_nil_r.
Qed.

(** [ll2string] with room for the text writes all of it. *)
Lemma ll2string_full len v : in_i64 v -> 22 <= len -> ll2string len v = ll_text v.
Proof.
  intros Hv Hl. pose proof (ll_text_length v Hv). unfold ll2string.
  rewrite (proj2 (Z.eqb_neq _ _)) by lia. rewrite Z.gtb_ltb, (proj2 (Z.ltb_ge _ _)) by lia.
  rewrite take_ge by lia. done.
Qed.

(** string2ll accepts exactly the texts ll2string produces, which are the shortest decimal
    texts of the 64-bit integers, and returns the integer each of them stands for; overflow, leading
    zeros, a plus sign and trailing characters are refused. *)
Theorem string2ll_exact s v :
  string2ll s (zlen s) = Some v <-> in_i64 v /\ s = ll2string 127 v.
Proof.
  split.
  - intros [Hv ->]%string2ll_sound. by rewrite ll2string_full.
  - intros [Hv ->]. rewrite ll2string_full by done. by apply string2ll_complete.
Qed.

(** *** Configuration quantities *)

Lemma parse_int_prefix_digits d u t :
  Forall (fun c => isdigit c = true) d -> 0 <= t ->
  (forall c, head u = Some c -> isdigit c = false) ->
  digits_value t d < 2 ^ 31 ->
  parse_int_prefix (d ++ u) t = (digits_value t d, u).
Proof.
  intros Hd. revert t. induction Hd as [|c d Hc Hd IH]; intros t Ht Hu Hv; cbn [app].
  - destruct u as [|c u]; [done|]. cbn [parse_int_prefix]. by rewrite (Hu c).
  - cbn [parse_int_prefix]. rewrite Hc. pose proof (isdigit_val_range _ Hc).
    change (digits_value t (c :: d)) with (digits_value (t * 10 + digit_val c) d) in *.
    pose proof (digits_value_ge (t * 10 + digit_val c) d Hd ltac:(lia)).
    rewrite (i32_small (t * 10)) by (unfold in_i32; lia).
    rewrite i32_small by (unfold in_i32; lia). apply IH; (done || lia).
Qed.

Lemma unit_ok u :
  u ∈ map fst size_units \/ u ∈ map fst time_units ->
  (forall c, head u = Some c -> isdigit c = false) /\ cstr u = u.
Proof.
  assert (Forall (fun u => (forall c, head u = Some c -> isdigit c = false) /\ cstr u = u)
            (map fst size_units ++ map fst time_units)) as H.
  { repeat constructor; cbn; by intros ? [= <-]. }
  rewrite Forall_forall in H. intros. apply H. set_solver.
Qed.

Lemma cstr_digits_app d u :
  Forall (fun c => isdigit c = true) d -> cstr (d ++ u) = d ++ cstr u.
Proof.
  induction 1 as [|c d Hc Hd IH]; cbn [app cstr]; [done|].
  rewrite decide_False by (intros ->; done). by rewrite IH.
Qed.

(** The digits and the unit of a quantity, as the two parsers split it. *)
Lemma quantity_split n u :
  0 <= n < 2 ^ 31 -> u ∈ map fst size_units \/ u ∈ map fst time_units ->
  parse_int_prefix (cstr (ll_text n ++ u)) 0 = (n, u).
Proof.
  intros Hn [Hh Hc]%unit_ok.
  destruct (ll_text_nonneg n) as (d & -> & Hd & Hv & _); [lia|].
  rewrite cstr_digits_app, Hc by done.
  rewrite parse_int_prefix_digits; rewrite ?Hv; (done || lia).
Qed.

(** Evaluates the unit comparisons of one row of a table, then the product. *)
Ltac quantity_cases Hu :=
  repeat (apply elem_of_cons in Hu as [[= -> ->]|Hu];
    [repeat match goal with
     | |- context [strcaseeq ?a ?b] =>
         let v := eval vm_compute in (strcaseeq a b) in change (strcaseeq a b) with v
     end; cbn [orb]; rewrite i32_small; [f_equal; lia|unfold in_i32; lia]|]);
  by apply not_elem_of_nil in Hu.

(** A number with one of the units of sizes or of times is parsed to that number of bytes
    or of seconds, as long as the result fits an int. *)
Theorem quantities_parse n u k :
  0 <= n < 2 ^ 31 -> n * k < 2 ^ 31 ->
  ((u, k) ∈ size_units -> ParseSize (ll_text n ++ u) = Some (n * k)) /\
  ((u, k) ∈ time_units -> ParseTime (ll_text n ++ u) = Some (n * k)).
Proof.
  intros Hn Hk. split; intros Hu; unfold ParseSize, ParseTime.
  - rewrite quantity_split; [|done|left; by apply (list_elem_of_fmap_2 fst) in Hu].
    quantity_cases Hu.
  - rewrite quantity_split; [|done|right; by apply (list_elem_of_fmap_2 fst) in Hu].
    quantity_cases Hu.
Qed.

Lemma quantities_parse_witness :
  ParseSize (bs "32MB") = Some (32 * 1024 ^ 2) /\ ParseTime (bs "10min") = Some 600
  /\ ParseSize (ll_text 32 ++ bs "mb") = Some (32 * 1024 ^ 2)
  /\ ParseTime (ll_text 10 ++ bs "min") = Some (10 * 60).
Proof.
  split_and!; [reflexivity|reflexivity| |].
  - apply (quantities_parse 32 (bs "mb") (1024 ^ 2)); [lia|lia|].
    unfold size_units. repeat (apply elem_of_cons; (left; reflexivity) || right).
  - apply (quantities_parse 10 (bs "min") 60); [lia|lia|].
    unfold time_units. repeat (apply elem_of_cons; (left; reflexivity) || right).
Defined.
