(* ===== verification/Glob.v ===== *)
(** * util.cc: glob matching of topics

    [stringmatchlen] matches the topic of a message against the pattern of a
    PSUBSCRIBE or of a store's [topic].  The routine walks two NUL-terminated
    arrays through pointers and lengths, so the model keeps both: an index
    into each array and the two [int] counters, and a read outside an array
    is the outcome [MUndef].  A reference semantics on parsed patterns says
    what the routine computes when it stays inside its arrays. *)

From S2P Require Import Prelude.

(** ** The matcher *)

(** The outcome of a call: its result, an access outside the arrays, or not
    enough fuel (excluded by [stringmatchlen_spec] and [class_loop_spec]). *)
Inductive mres : Type :=
| MRet (b : bool)
| MUndef
| MFuel.

#[export] Instance mres_eq_dec : EqDecision mres.
Proof. solve_decision. Defined.

Inductive cres : Type :=
| CRet (pi : nat) (plen : Z) (matched : bool)
| CUndef
| CFuel.

(** [m[i]] for an array holding the bytes [m] and a NUL. *)
Definition rd (m : bytes) (i : nat) : option byte := (m ++ [NUL]) !! i.

(** [ptr++]: the pointer may reach one past the NUL and no further. *)
Definition adv (m : bytes) (i : nat) : option nat :=
  if decide (i <= length m)%nat then Some (S i) else None.

(** Comparison of two chars under [nocase]. *)
Definition char_eq (nocase : bool) (a b : byte) : bool :=
  if nocase then bool_decide (tolower a = tolower b) else bool_decide (a = b).

(** [start <= c <= end] of a range, with the swap and the lowering. *)
Definition in_range (nocase : bool) (start end_ c : byte) : bool :=
  let '(start, end_) := if schar start >? schar end_ then (end_, start) else (start, end_) in
  let low x := if nocase then schar (tolower x) else schar x in
  (low c >=? low start) && (low c <=? low end_).

Section matcher.
Variables (P S : bytes) (nocase : bool).

(** The [while (1)] of the ['['] case, entered after the optional ['^']. *)
Fixpoint class_loop (fuel : nat) (pi : nat) (plen : Z) (si : nat) (matched : bool) : cres :=
  match fuel with
  | O => CFuel
  | Datatypes.S fuel =>
    match rd P pi with
    | None => CUndef
    | Some p0 =>
      if decide (p0 = "\"%char) then
        match rd P (pi + 1), rd S si with
        | Some p1, Some c =>
            class_loop fuel (pi + 2) (plen - 2) si (matched || bool_decide (p1 = c))
        | _, _ => CUndef
        end
      else if decide (p0 = "]"%char) then CRet pi plen matched
      else if plen =? 0 then CRet (pi - 1) (plen + 1) matched
      else
        match rd P (pi + 1) with
        | None => CUndef
        | Some p1 =>
          if bool_decide (p1 = "-"%char) && (plen >=? 3) then
            match rd P (pi + 2), rd S si with
            | Some p2, Some c =>
                class_loop fuel (pi + 3) (plen - 3) si (matched || in_range nocase p0 p2 c)
            | _, _ => CUndef
            end
          else
            match rd S si with
            | Some c => class_loop fuel (pi + 1) (plen - 1) si (matched || char_eq nocase p0 c)
            | None => CUndef
            end
        end
    end
  end.

(** [while (pattern[k] == '*') { pattern++; patternLen--; }], for [k] 1 at
    the start of the ['*'] case and 0 at the end of the string. *)
Fixpoint skip_stars (fuel k pi : nat) (plen : Z) : option (nat * Z) :=
  match fuel with
  | O => None
  | Datatypes.S fuel =>
    match rd P (pi + k) with
    | None => None
    | Some p => if decide (p = "*"%char) then skip_stars fuel k (pi + 1) (plen - 1)
                else Some (pi, plen)
    end
  end.

(** The loop of the ['*'] case: [rest] is the recursive call on the pattern
    after the star. *)
Fixpoint star_loop (fuel : nat) (rest : nat -> Z -> mres) (si : nat) (slen : Z) : mres :=
  match fuel with
  | O => MFuel
  | Datatypes.S fuel =>
    if slen =? 0 then MRet false
    else
      match rest si slen with
      | MRet true => MRet true
      | MRet false =>
          match adv S si with
          | Some si => star_loop fuel rest si (slen - 1)
          | None => MUndef
          end
      | r => r
      end
  end.

(** The code after the switch: [pattern++; patternLen--;], then the end of
    the loop when the string is used up, or its next iteration [loop]. *)
Definition after_switch (loop : nat -> Z -> nat -> Z -> mres)
    (pi : nat) (plen : Z) (si : nat) (slen : Z) : mres :=
  let pi := (pi + 1)%nat in
  let plen := plen - 1 in
  if slen =? 0 then
    match skip_stars (Datatypes.S (length P)) 0 pi plen with
    | Some (_, plen) => MRet ((plen =? 0) && (slen =? 0))
    | None => MUndef
    end
  else loop pi plen si slen.

(** [string++; stringLen--; break;] *)
Definition consume (loop : nat -> Z -> nat -> Z -> mres)
    (pi : nat) (plen : Z) (si : nat) (slen : Z) : mres :=
  match adv S si with
  | Some si => after_switch loop pi plen si (slen - 1)
  | None => MUndef
  end.

(** The default case: one character against one character. *)
Definition literal (loop : nat -> Z -> nat -> Z -> mres)
    (pi : nat) (plen : Z) (si : nat) (slen : Z) : mres :=
  match rd P pi, rd S si with
  | Some p, Some c =>
      if char_eq nocase p c then consume loop pi plen si slen else MRet false
  | _, _ => MUndef
  end.

(** The main loop, one unfolding per iteration or recursive call. *)
Fixpoint match_loop (fuel : nat) (pi : nat) (plen : Z) (si : nat) (slen : Z) : mres :=
  match fuel with
  | O => MFuel
  | Datatypes.S fuel =>
    if plen =? 0 then MRet ((plen =? 0) && (slen =? 0))
    else
      match rd P pi with
      | None => MUndef
      | Some p0 =>
        if decide (p0 = "*"%char) then
          match skip_stars (Datatypes.S (length P)) 1 pi plen with
          | None => MUndef
          | Some (pi, plen) =>
              if plen =? 1 then MRet true
              else star_loop (length S + 3) (match_loop fuel (pi + 1) (plen - 1)) si slen
          end
        else if decide (p0 = "?"%char) then
          if slen =? 0 then MRet false else consume (match_loop fuel) pi plen si slen
        else if decide (p0 = "["%char) then
          match rd P (pi + 1) with
          | None => MUndef
          | Some p1 =>
              let no := bool_decide (p1 = "^"%char) in
              let '(pi, plen) := if no then ((pi + 2)%nat, plen - 2) else ((pi + 1)%nat, plen - 1) in
              match class_loop (length P + 2) pi plen si false with
              | CRet pi plen matched =>
                  if xorb no matched then consume (match_loop fuel) pi plen si slen else MRet false
              | CUndef => MUndef
              | CFuel => MFuel
              end
          end
        else if decide (p0 = "\"%char) then
          if plen >=? 2 then literal (match_loop fuel) (pi + 1)%nat (plen - 1) si slen
          else literal (match_loop fuel) pi plen si slen
        else literal (match_loop fuel) pi plen si slen
      end
  end.

(** [stringmatchlen(P, |P|, S, |S|, nocase)].  Every iteration and every
    recursive call advances in the pattern, so its length bounds the fuel. *)
Definition stringmatchlen : mres :=
  match_loop (length P + 1) 0 (zlen P) 0 (zlen S).
End matcher.

(** [stringmatch(pattern, string, nocase)] on two C strings. *)
Definition stringmatch (pattern s : bytes) (nocase : bool) : mres :=
  stringmatchlen (cstr pattern) (cstr s) nocase.

(** ** Reference semantics *)

(** A pattern as a sequence of tokens. *)
Inductive citem : Type :=
| CChar (c : byte)
| CEsc (c : byte)
| CRange (a b : byte).

Inductive tok : Type :=
| TLit (c : byte)
| TAny
| TStar
| TClass (neg : bool) (items : list citem).

(** The items of a class up to its ']' or the end of the pattern; [None] when
    the pattern ends in a backslash inside the class. *)
Fixpoint parse_class (p : bytes) : option (list citem * bytes) :=
  match p with
  | [] => Some ([], [])
  | a :: p1 =>
      if decide (a = "\"%char) then
        match p1 with
        | [] => None
        | c :: p2 => '(items, rest) ← parse_class p2; Some (CEsc c :: items, rest)
        end
      else if decide (a = "]"%char) then Some ([], p1)
      else
        match p1 with
        | d :: b :: p3 =>
            if decide (d = "-"%char) then
              '(items, rest) ← parse_class p3; Some (CRange a b :: items, rest)
            else '(items, rest) ← parse_class p1; Some (CChar a :: items, rest)
        | _ => '(items, rest) ← parse_class p1; Some (CChar a :: items, rest)
        end
  end.

Fixpoint parse_glob_fuel (fuel : nat) (p : bytes) : option (list tok) :=
  match fuel, p with
  | _, [] => Some []
  | O, _ => None
  | Datatypes.S fuel, a :: p =>
      if decide (a = "*"%char) then cons TStar <$> parse_glob_fuel fuel p
      else if decide (a = "?"%char) then cons TAny <$> parse_glob_fuel fuel p
      else if decide (a = "["%char) then
        let neg := bool_decide (head p = Some "^"%char) in
        '(items, rest) ← parse_class (if neg then tail p else p);
        cons (TClass neg items) <$> parse_glob_fuel fuel rest
      else if decide (a = "\"%char) then
        match p with
        | [] => Some [TLit a]
        | c :: p => cons (TLit c) <$> parse_glob_fuel fuel p
        end
      else cons (TLit a) <$> parse_glob_fuel fuel p
  end.

Definition parse_glob (p : bytes) : option (list tok) := parse_glob_fuel (length p) p.

(** A character as the match compares it. *)
Definition fold (nocase : bool) (c : byte) : byte := if nocase then tolower c else c.

(** What an item of a class stands for: a character, or the characters between
    two ends, in either order. *)
Definition item_holds (nocase : bool) (c : byte) (i : citem) : Prop :=
  let low x := schar (fold nocase x) in
  match i with
  | CChar a => fold nocase a = fold nocase c
  | CEsc a => a = c
  | CRange a b =>
      (schar a <= schar b /\ low a <= low c <= low b) \/ (schar b < schar a /\ low b <= low c <= low a)
  end.

(** What a pattern matches. *)
Inductive gmatch (nocase : bool) : list tok -> bytes -> Prop :=
| gm_nil : gmatch nocase [] []
| gm_lit a c ts s :
    fold nocase a = fold nocase c -> gmatch nocase ts s -> gmatch nocase (TLit a :: ts) (c :: s)
| gm_any c ts s : gmatch nocase ts s -> gmatch nocase (TAny :: ts) (c :: s)
| gm_class (neg : bool) items c ts s :
    (Exists (item_holds nocase c) items <-> neg = false) ->
    gmatch nocase ts s -> gmatch nocase (TClass neg items :: ts) (c :: s)
| gm_star_stop ts s : gmatch nocase ts s -> gmatch nocase (TStar :: ts) s
| gm_star_more ts c s : gmatch nocase (TStar :: ts) s -> gmatch nocase (TStar :: ts) (c :: s).

(** The items as the routine tests them. *)
Definition item_match (nocase : bool) (c : byte) (i : citem) : bool :=
  match i with
  | CChar a => char_eq nocase a c
  | CEsc a => bool_decide (a = c)
  | CRange a b => in_range nocase a b c
  end.

(** On the empty string the routine reads the terminating NUL as a character
    when the pattern starts with a class or a NUL; the other patterns, and
    all patterns on other strings, stay inside the arrays. *)
Definition safe_start (toks : list tok) (s : bytes) : Prop :=
  s <> [] \/ match toks with TClass _ _ :: _ => False | TLit c :: _ => tolower c <> NUL | _ => True end.

(** ** The tests of the routine are those of the meaning *)

Lemma char_eq_fold nocase a c : char_eq nocase a c = true <-> fold nocase a = fold nocase c.
Proof. unfold char_eq, fold. destruct nocase; apply bool_decide_eq_true. Qed.

Lemma in_range_between nocase a b c : in_range nocase a b c = true <-> item_holds nocase c (CRange a b).
Proof.
  unfold in_range, item_holds, fold. destruct (Z.gtb_spec (schar a) (schar b)); cbv beta iota zeta;
    rewrite andb_true_iff, Z.geb_le, Z.leb_le; destruct nocase; lia.
Qed.

Lemma item_match_holds nocase c i : item_match nocase c i = true <-> item_holds nocase c i.
Proof. destruct i; [apply char_eq_fold|apply bool_decide_eq_true|apply in_range_between]. Qed.

Lemma class_holds nocase neg c items :
  xorb neg (existsb (item_match nocase c) items) = true <-> (Exists (item_holds nocase c) items <-> neg = false).
Proof.
  assert (existsb (item_match nocase c) items = true <-> Exists (item_holds nocase c) items) as Hex.
  { rewrite existsb_exists, Exists_exists. split; intros (i & Hi & H); exists i;
      (split; [by apply list_elem_of_In|by apply item_match_holds]). }
  destruct neg, (existsb _ _); cbn; intuition discriminate.
Qed.

(** ** Positions in an array *)

(** Index [i] of [m] is where [l] remains. *)
Definition at_ (m : bytes) (i : nat) (l : bytes) : Prop := (i <= length m)%nat /\ drop i m = l.

Lemma at_0 m : at_ m 0 m.
Proof. split; [lia|done]. Qed.

Lemma at_cons m i c l : at_ m i (c :: l) -> rd m i = Some c /\ at_ m (i + 1) l.
Proof.
  intros [Hi Hd]. assert (m !! i = Some c) as Hc.
  { rewrite <- (Nat.add_0_r i), <- lookup_drop, Hd. done. }
  pose proof (lookup_lt_Some _ _ _ Hc). split.
  - unfold rd. by rewrite lookup_app_l.
  - split; [lia|]. rewrite <- drop_drop, Hd. done.
Qed.

Lemma at_nil m i : at_ m i [] -> rd m i = Some NUL.
Proof.
  intros [Hi Hd]. apply (f_equal length) in Hd. rewrite length_drop in Hd. cbn in Hd.
  unfold rd. rewrite lookup_app_r by lia. by replace (i - length m)%nat with 0%nat by lia.
Qed.

Lemma at_rd m i l : at_ m i l -> rd m i = Some (hd NUL l).
Proof.
  destruct l as [|c l]; intros H; cbn; [by apply at_nil|]. by apply at_cons in H as [? _].
Qed.

Lemma at_adv m i l : at_ m i l -> adv m i = Some (i + 1)%nat.
Proof. intros [Hi _]. unfold adv. rewrite decide_True by done. f_equal. lia. Qed.

Ltac at_step H := let Hr := fresh "Hr" in apply at_cons in H as [Hr H].

(** ** Skipping stars *)

Fixpoint strip_stars (p : bytes) : bytes :=
  match p with
  | c :: p' => if decide (c = "*"%char) then strip_stars p' else p
  | [] => []
  end.

Lemma strip_stars_length p : (length (strip_stars p) <= length p)%nat.
Proof. induction p as [|c p IH]; cbn; [lia|]. case_decide; cbn; lia. Qed.

Lemma strip_stars_head p c q : strip_stars p = c :: q -> c <> "*"%char.
Proof. induction p as [|a p IH]; cbn; [done|]. case_decide; [done|]. by intros [= <- _]. Qed.

Lemma skip_stars_0 P fuel pi p :
  at_ P pi p -> (length p < fuel)%nat ->
  exists pi', skip_stars P fuel 0 pi (zlen p) = Some (pi', zlen (strip_stars p))
    /\ at_ P pi' (strip_stars p).
Proof.
  revert pi p. induction fuel as [|fuel IH]; intros pi p Hat Hf; [lia|].
  cbn [skip_stars]. rewrite Nat.add_0_r, (at_rd _ _ _ Hat).
  destruct p as [|c p]; cbn [hd strip_stars length].
  - rewrite decide_False by done. eauto.
  - case_decide; [|eauto].
    at_step Hat. cbn [length] in Hf. destruct (IH (pi + 1)%nat p) as (pi' & E & ?); [done|lia|].
    exists pi'. split; [|done]. rewrite <- E. f_equal. cbn [length]. lia.
Qed.

Lemma skip_stars_1 P fuel pi p :
  at_ P pi ("*"%char :: p) -> (length p < fuel)%nat ->
  exists pi', skip_stars P fuel 1 pi (zlen ("*"%char :: p)) = Some (pi', 1 + zlen (strip_stars p))
    /\ at_ P (pi' + 1) (strip_stars p).
Proof.
  revert pi p. induction fuel as [|fuel IH]; intros pi p Hat Hf; [lia|].
  cbn [skip_stars]. pose proof Hat as Hat'. at_step Hat. rewrite (at_rd _ _ _ Hat).
  destruct p as [|c p]; cbn [hd strip_stars length].
  - rewrite decide_False by done. eauto.
  - case_decide; [subst c|].
    + cbn [length] in Hf. destruct (IH (pi + 1)%nat p) as (pi' & E & ?); [done|lia|].
      exists pi'. split; [|done]. rewrite <- E. f_equal. cbn [length]. lia.
    + exists pi. split; [|done]. f_equal. f_equal. cbn [length]. lia.
Qed.

(** ** Classes *)

Lemma parse_class_length p items rest :
  parse_class p = Some (items, rest) -> (length rest <= length p)%nat.
Proof.
  revert items rest. induction p as [p IH] using (induction_ltof1 _ (@length _)); unfold ltof in IH.
  intros items rest. destruct p as [|a p1]; [intros [= <- <-]; done|].
  cbn [parse_class].
  case_decide.
  { destruct p1 as [|c p2]; [done|].
    destruct (parse_class p2) as [[i r]|] eqn:E; [|done]. intros [= <- <-].
    apply IH in E; cbn in *; lia. }
  case_decide; [intros [= <- <-]; cbn; lia|].
  assert (forall b, ('(items, rest) ← parse_class p1; Some (b :: items, rest)) = Some (items, rest) ->
            (length rest <= length (a :: p1))%nat) as Hone.
  { intros b. destruct (parse_class p1) as [[i r]|] eqn:E; [|done]. intros [= <- <-].
    apply IH in E; cbn in *; lia. }
  destruct p1 as [|d [|b p3]]; [apply Hone..|].
  case_decide; [|apply Hone].
  destruct (parse_class p3) as [[i r]|] eqn:E; [|done]. intros [= <- <-].
  apply IH in E; cbn in *; lia.
Qed.

(** The class loop computes the disjunction of the items the class parses to,
    and leaves the pattern just before what follows the class. *)
Lemma class_loop_spec P S nocase si c p :
  rd S si = Some c ->
  forall fuel pi items rest m,
  at_ P pi p -> (1 <= pi)%nat -> (length p < fuel)%nat ->
  parse_class p = Some (items, rest) ->
  exists pi', class_loop P S nocase fuel pi (zlen p) si m =
      CRet pi' (1 + zlen rest) (m || existsb (item_match nocase c) items)
    /\ at_ P (pi' + 1) rest.
Proof.
  intros Hc. induction p as [p IH] using (induction_ltof1 _ (@length _)); unfold ltof in IH.
  intros fuel pi items rest m Hat Hpi Hf Hp.
  destruct fuel as [|fuel]; [lia|]. cbn [class_loop].
  destruct p as [|a p1].
  { injection Hp as <- <-. rewrite (at_rd _ _ _ Hat). cbn [hd length existsb].
    rewrite !decide_False by done. cbn [Z.of_nat Z.eqb]. rewrite orb_false_r.
    exists (pi - 1)%nat. split; [done|]. by replace (pi - 1 + 1)%nat with pi by lia. }
  pose proof Hat as Hat1. apply at_cons in Hat1 as [Hr Hat1]. rewrite Hr.
  cbn [parse_class] in Hp. cbn [length] in Hf.
  destruct (decide (a = "\"%char)) as [->|Hbs].
  { destruct p1 as [|x p2]; [done|].
    destruct (parse_class p2) as [[i r]|] eqn:E; [|done]. injection Hp as <- <-.
    pose proof Hat1 as Hat2. apply at_cons in Hat2 as [Hr2 Hat2]. rewrite Hr2, Hc.
    replace (pi + 1 + 1)%nat with (pi + 2)%nat in Hat2 by lia.
    edestruct (fun H => IH p2 H fuel) as (pi' & Hl & ?); [cbn; lia|exact Hat2|lia|cbn [length] in Hf; lia|exact E|].
    exists pi'. split; [|done]. cbn [existsb item_match]. rewrite orb_assoc, <- Hl.
    f_equal. cbn [length]. lia. }
  destruct (decide (a = "]"%char)) as [->|Hbr].
  { injection Hp as <- <-. cbn [existsb]. rewrite orb_false_r. exists pi. split; [|done].
    f_equal. cbn [length]. lia. }
  rewrite (proj2 (Z.eqb_neq _ _)) by (cbn [length]; lia).
  rewrite (at_rd _ _ _ Hat1).
  assert (Hone : (i ← parse_class p1; Some (CChar a :: i.1, i.2)) = Some (items, rest) ->
    exists pi', class_loop P S nocase fuel (pi + 1) (zlen (a :: p1) - 1) si (m || char_eq nocase a c) =
        CRet pi' (1 + zlen rest) (m || existsb (item_match nocase c) items)
      /\ at_ P (pi' + 1) rest).
  { destruct (parse_class p1) as [[i r]|] eqn:E; [|done]. cbn. intros [= <- <-].
    edestruct (fun H => IH p1 H fuel) as (pi' & Hl & ?); [cbn; lia|exact Hat1|lia|lia|exact E|].
    exists pi'. split; [|done]. cbn [existsb item_match]. rewrite orb_assoc, <- Hl.
    f_equal. cbn [length]. lia. }
  rewrite Hc.
  destruct p1 as [|d [|b p3]]; cbn [hd].
  - rewrite bool_decide_eq_false_2 by done. cbn [andb]. apply Hone.
    destruct (parse_class []) as [[? ?]|]; done.
  - replace (zlen [a; d] >=? 3) with false by done. rewrite andb_false_r. apply Hone.
    destruct (parse_class [d]) as [[? ?]|]; done.
  - replace (zlen (a :: d :: b :: p3) >=? 3) with true
      by (symmetry; apply Z.geb_le; cbn [length]; lia).
    rewrite andb_true_r. destruct (decide (d = "-"%char)) as [->|Hd].
    + rewrite bool_decide_eq_true_2 by done.
      destruct (parse_class p3) as [[i r]|] eqn:E; [|done]. injection Hp as <- <-.
      pose proof Hat1 as Hat2. apply at_cons in Hat2 as [Hr2 Hat2].
      pose proof Hat2 as Hat3. apply at_cons in Hat3 as [Hr3 Hat3].
      replace (pi + 1 + 1)%nat with (pi + 2)%nat in Hr3 by lia. rewrite Hr3.
      replace (pi + 1 + 1 + 1)%nat with (pi + 3)%nat in Hat3 by lia.
      edestruct (fun H => IH p3 H fuel) as (pi' & Hl & ?); [cbn; lia|exact Hat3|lia|cbn [length] in Hf; lia|exact E|].
      exists pi'. split; [|done]. cbn [existsb item_match]. rewrite orb_assoc, <- Hl.
      f_equal. cbn [length]. lia.
    + rewrite bool_decide_eq_false_2 by done. cbn [andb]. apply Hone.
      destruct (parse_class (d :: b :: p3)) as [[? ?]|]; done.
Qed.

(** ** Tokens *)

Lemma parse_glob_fuel_enough p f1 f2 :
  (length p <= f1)%nat -> (length p <= f2)%nat -> parse_glob_fuel f1 p = parse_glob_fuel f2 p.
Proof.
  revert f1 f2. induction p as [p IH] using (induction_ltof1 _ (@length _)); unfold ltof in IH.
  intros f1 f2 H1 H2. destruct p as [|a p]; [by destruct f1, f2|]. cbn [length] in *.
  destruct f1 as [|f1], f2 as [|f2]; [lia..|]. cbn [parse_glob_fuel].
  rewrite (IH p) with (f2 := f2) by (cbn; lia).
  destruct (decide (a = "*"%char)); [done|]. destruct (decide (a = "?"%char)); [done|].
  destruct (decide (a = "["%char)); [|destruct (decide (a = "\"%char)); [|done]].
  - destruct (parse_class _) as [[items rest]|] eqn:E; cbn [mbind option_bind]; [|done].
    apply parse_class_length in E.
    assert (length rest <= length p)%nat.
    { case_match; [destruct p|]; cbn in *; lia. }
    rewrite (IH rest) with (f2 := f2) by (cbn; lia). done.
  - destruct p as [|c p]; [done|]. cbn [length] in *.
    rewrite (IH p) with (f2 := f2) by (cbn; lia). done.
Qed.

(** The equation of [parse_glob] on a non-empty pattern. *)
Lemma parse_glob_cons a p :
  parse_glob (a :: p) =
    if decide (a = "*"%char) then cons TStar <$> parse_glob p
    else if decide (a = "?"%char) then cons TAny <$> parse_glob p
    else if decide (a = "["%char) then
      let neg := bool_decide (head p = Some "^"%char) in
      '(items, rest) ← parse_class (if neg then tail p else p);
      cons (TClass neg items) <$> parse_glob rest
    else if decide (a = "\"%char) then
      match p with
      | [] => Some [TLit a]
      | c :: p => cons (TLit c) <$> parse_glob p
      end
    else cons (TLit a) <$> parse_glob p.
Proof.
  unfold parse_glob. cbn [length parse_glob_fuel].
  destruct (decide (a = "*"%char)); [done|]. destruct (decide (a = "?"%char)); [done|].
  destruct (decide (a = "["%char)); [|destruct (decide (a = "\"%char)); [|done]].
  - cbn zeta. destruct (parse_class _) as [[items rest]|] eqn:E; cbn [mbind option_bind]; [|done].
    apply parse_class_length in E.
    rewrite (parse_glob_fuel_enough rest (length p) (length rest)); [done| |done].
    case_match; [destruct p|]; cbn in *; lia.
  - destruct p as [|c p]; [done|].
    rewrite (parse_glob_fuel_enough p (length (c :: p)) (length p)); [done|cbn; lia|lia].
Qed.

Lemma gmatch_star nc ts s :
  gmatch nc (TStar :: ts) s <-> exists s1 s2, s = s1 ++ s2 /\ gmatch nc ts s2.
Proof.
  split.
  - remember (TStar :: ts) as l eqn:E. induction 1; try done; injection E as ->.
    + by exists [], s.
    + destruct IHgmatch as (s1 & s2 & -> & ?); [done|]. by exists (c :: s1), s2.
  - intros (s1 & s2 & -> & H). induction s1; cbn; [by apply gm_star_stop|by apply gm_star_more].
Qed.

Lemma gmatch_star_star nc ts s :
  gmatch nc (TStar :: TStar :: ts) s <-> gmatch nc (TStar :: ts) s.
Proof.
  split.
  - intros (s1 & s2 & -> & (s3 & s4 & -> & H)%gmatch_star)%gmatch_star.
    apply gmatch_star. exists (s1 ++ s3), s4. by rewrite app_assoc.
  - intros H. by apply gm_star_stop.
Qed.

(** Stripping the stars of a pattern: what remains starts with no star, and
    makes no difference after a star. *)
Lemma parse_strip nc p toks :
  parse_glob p = Some toks ->
  exists toks', parse_glob (strip_stars p) = Some toks'
    /\ (forall s, gmatch nc (TStar :: toks) s <-> gmatch nc (TStar :: toks') s)
    /\ (gmatch nc toks [] <-> strip_stars p = [])
    /\ (strip_stars p <> [] -> ~ gmatch nc toks' []).
Proof.
  revert toks. induction p as [|a p IH]; intros toks.
  { intros [= <-]. exists []. split_and!; [done|done| |done]. split; [done|constructor]. }
  rewrite parse_glob_cons. cbn [strip_stars]. destruct (decide (a = "*"%char)).
  - destruct (parse_glob p) as [t|] eqn:E; [|done]. intros [= <-].
    destruct (IH t eq_refl) as (t' & Hp & Hg & Hn & Hs). exists t'. split_and!; [done| | |done].
    + intros s. by rewrite gmatch_star_star, Hg.
    + rewrite gmatch_star, <- Hn. split.
      * intros (s1 & s2 & [-> ->]%symmetry%app_nil & H). done.
      * intros. by exists [], [].
  - intros Ht. exists toks. rewrite parse_glob_cons, decide_False by done.
    assert (~ gmatch nc toks []).
    { repeat case_decide; cbn zeta in *; repeat case_match; try done;
      repeat match goal with
      | H : (_ ≫= _) = Some _ |- _ => apply bind_Some in H as ([? ?] & ? & H)
      | H : (_ <$> _) = Some _ |- _ => apply fmap_Some in H as (? & ? & H)
      end; simplify_eq; inversion 1. }
    split_and!; [done|done|split; done|done].
Qed.

(** ** The routine computes the reference semantics *)

Section match_spec.
Variables (P S : bytes) (nc : bool).

(** A call is right for the tokens [toks] and the rest [s] of the string. *)
Definition right_for (r : mres) (toks : list tok) (s : bytes) : Prop :=
  exists b, r = MRet b /\ (b = true <-> gmatch nc toks s).

(** What the iteration [loop] promises on a non-empty rest of the string. *)
Definition loop_right (loop : nat -> Z -> nat -> Z -> mres) (n : nat) : Prop :=
  forall pi p si s toks,
    at_ P pi p -> at_ S si s -> s <> [] -> (length p < n)%nat ->
    parse_glob p = Some toks -> right_for (loop pi (zlen p) si (zlen s)) toks s.

Lemma after_switch_right loop n pi p si s toks :
  loop_right loop n -> at_ P (pi + 1) p -> at_ S si s -> (length p < n)%nat ->
  parse_glob p = Some toks ->
  right_for (after_switch P loop pi (1 + zlen p) si (zlen s)) toks s.
Proof.
  intros Hl Hp Hs Hn Ht. unfold after_switch. rewrite Z.add_simpl_l.
  destruct s as [|c s].
  - cbn [length Z.of_nat Z.eqb].
    destruct (skip_stars_0 P (Datatypes.S (length P)) (pi + 1) p) as (pi' & -> & _); [done| |].
    { destruct Hp as [? <-]. rewrite length_drop. lia. }
    destruct (parse_strip nc p toks Ht) as (_ & _ & _ & Hg & _).
    eexists. split; [done|]. rewrite Hg, andb_true_r, Z.eqb_eq.
    destruct (strip_stars p); cbn; split; (done || lia).
  - rewrite (proj2 (Z.eqb_neq _ _)) by (cbn; lia). by apply Hl.
Qed.

Lemma consume_right loop n pi p si c s toks :
  loop_right loop n -> at_ P (pi + 1) p -> at_ S si (c :: s) -> (length p < n)%nat ->
  parse_glob p = Some toks ->
  right_for (consume P S loop pi (1 + zlen p) si (zlen (c :: s))) toks s.
Proof.
  intros Hl Hp Hs Hn Ht. unfold consume. rewrite (at_adv _ _ _ Hs).
  apply at_cons in Hs as [_ Hs].
  replace (zlen (c :: s) - 1) with (zlen s) by (cbn [length]; lia).
  by eapply after_switch_right.
Qed.

Lemma literal_right loop n pi a p si c s toks :
  loop_right loop n -> at_ P pi (a :: p) -> at_ S si (c :: s) -> (length p < n)%nat ->
  parse_glob p = Some toks ->
  right_for (literal P S nc loop pi (zlen (a :: p)) si (zlen (c :: s))) (TLit a :: toks) (c :: s).
Proof.
  intros Hl Hp Hs Hn Ht. unfold literal.
  apply at_cons in Hp as [-> Hp]. rewrite (at_rd _ _ _ Hs). cbn [hd].
  destruct (char_eq nc a c) eqn:E.
  - replace (zlen (a :: p)) with (1 + zlen p) by (cbn [length]; lia).
    edestruct consume_right as (b & -> & Hb); [done..|].
    exists b. split; [done|]. rewrite Hb. apply char_eq_fold in E. split; [by constructor|by inversion 1].
  - exists false. split; [done|]. split; [done|]. inversion 1 as [|? ? ? ? Hm%char_eq_fold| | | |]; congruence.
Qed.

(** The star loop tries the rest of the pattern at every position left. *)
Lemma star_loop_right rest toks :
  (forall si s, at_ S si s -> s <> [] -> right_for (rest si (zlen s)) toks s) ->
  ~ gmatch nc toks [] ->
  forall fuel si s, at_ S si s -> (length s < fuel)%nat ->
  right_for (star_loop S fuel rest si (zlen s)) (TStar :: toks) s.
Proof.
  intros Hr Hn. induction fuel as [|fuel IH]; intros si s Hs Hf; [lia|].
  cbn [star_loop]. destruct s as [|c s].
  - exists false. split; [done|]. rewrite gmatch_star.
    split; [done|]. intros (s1 & s2 & [-> ->]%symmetry%app_nil & ?). done.
  - rewrite (proj2 (Z.eqb_neq _ _)) by (cbn; lia).
    destruct (Hr si (c :: s)) as (b & -> & Hb); [done..|].
    destruct b.
    + exists true. split; [done|]. split; [|done]. intros _. apply gm_star_stop. tauto.
    + rewrite (at_adv _ _ _ Hs). apply at_cons in Hs as [_ Hs]. cbn [length] in Hf.
      replace (zlen (c :: s) - 1) with (zlen s) by (cbn [length]; lia).
      destruct (IH _ _ Hs) as (b & -> & Hb'); [lia|].
      exists b. split; [done|]. rewrite Hb'. split; [apply gm_star_more|].
      inversion 1; subst; [|done]. exfalso. by apply diff_false_true, Hb.
Qed.

(** The ['['] case: the class consumes one character or fails. *)
Lemma class_case_right fuel pi p items rest si c s toks neg :
  loop_right (match_loop P S nc fuel) fuel ->
  at_ P pi p -> (1 <= pi)%nat -> (length p <= fuel)%nat -> at_ S si (c :: s) ->
  parse_class p = Some (items, rest) -> (length rest < fuel)%nat ->
  parse_glob rest = Some toks ->
  right_for
    match class_loop P S nc (length P + 2) pi (zlen p) si false with
    | CRet pi plen matched =>
        if xorb neg matched then consume P S (match_loop P S nc fuel) pi plen si (zlen (c :: s))
        else MRet false
    | CUndef => MUndef
    | CFuel => MFuel
    end (TClass neg items :: toks) (c :: s).
Proof.
  intros Hl Hp Hpi Hn Hs Hc Hrest Ht.
  destruct (class_loop_spec P S nc si c p (at_rd _ _ _ Hs) (length P + 2) pi items rest false)
    as (pi' & -> & Hp'); [done|done| |done|].
  { destruct Hp as [? <-]. rewrite length_drop. lia. }
  cbn [orb]. destruct (xorb neg _) eqn:E.
  - edestruct consume_right as (b & -> & Hb); [done..|].
    exists b. split; [done|]. rewrite Hb. apply class_holds in E. split; [by constructor|by inversion 1].
  - exists false. split; [done|]. split; [done|]. inversion 1 as [| | |? ? ? ? ? Hm%class_holds| |]; congruence.
Qed.

Lemma match_loop_right fuel : loop_right (match_loop P S nc fuel) fuel.
Proof.
  induction fuel as [|fuel IH]; intros pi p si s toks Hp Hs Hne Hn Ht; [lia|].
  destruct s as [|c s]; [done|].
  destruct p as [|a p].
  { injection Ht as <-. exists false. split; [|by split; [|inversion 1]].
    cbn [match_loop length Z.of_nat Z.eqb]. f_equal. }
  cbn [length] in Hn. cbn [match_loop]. rewrite (proj2 (Z.eqb_neq _ _)) by (cbn; lia).
  pose proof Hp as Hp1. apply at_cons in Hp1 as [-> Hp1].
  rewrite parse_glob_cons in Ht.
  replace (zlen (a :: p)) with (1 + zlen p) by (cbn [length]; lia).
  destruct (decide (a = "*"%char)) as [->|_].
  { destruct (parse_glob p) as [t|] eqn:Et; [|done]. injection Ht as <-.
    destruct (skip_stars_1 P (Datatypes.S (length P)) pi p) as (pi' & E & Hp'); [done| |].
    { destruct Hp1 as [? <-]. rewrite length_drop. lia. }
    replace (zlen ("*"%char :: p)) with (1 + zlen p) in E by (cbn [length]; lia).
    rewrite E. destruct (parse_strip nc p t Et) as (t' & Ht' & Hg & Hnil & Hstrip).
    destruct (strip_stars p) as [|x q] eqn:Eq.
    - exists true. split; [done|]. split; [|done]. intros _. apply gmatch_star.
      exists (c :: s), []. rewrite app_nil_r, Hnil. done.
    - rewrite (proj2 (Z.eqb_neq _ _)) by (cbn; lia). rewrite Z.add_simpl_l.
      pose proof (strip_stars_length p) as Hlen. rewrite Eq in Hlen.
      edestruct (star_loop_right (match_loop P S nc fuel (pi' + 1) (zlen (x :: q))) t')
        as (b & -> & Hb); [|by apply Hstrip|exact Hs| |].
      + intros si' s' Hs' Hne'. apply IH; (done || lia).
      + destruct Hs as [? <-]. rewrite length_drop. lia.
      + exists b. split; [done|]. by rewrite Hb, Hg. }
  destruct (decide (a = "?"%char)) as [->|_].
  { destruct (parse_glob p) as [t|] eqn:Et; [|done]. injection Ht as <-.
    rewrite (proj2 (Z.eqb_neq _ _)) by (cbn; lia).
    edestruct consume_right as (b & -> & Hb); [done|done|done| |done|]; [lia|].
    exists b. split; [done|]. rewrite Hb. split; [by constructor|by inversion 1]. }
  destruct (decide (a = "["%char)) as [->|_].
  { cbn zeta in Ht. apply bind_Some in Ht as ([items rest] & Hc & Ht).
    apply fmap_Some in Ht as (t & Ht & ->). rewrite (at_rd _ _ _ Hp1).
    pose proof (parse_class_length _ _ _ Hc) as Hlen.
    destruct p as [|x p]; cbn [hd head tail] in *.
    - rewrite bool_decide_eq_false_2 in * by done. cbn iota in *.
      apply class_case_right with (p := []) (rest := rest); (done || cbn in *; lia).
    - destruct (decide (x = "^"%char)) as [->|].
      + rewrite bool_decide_eq_true_2 in * by done. cbn iota in *.
        apply at_cons in Hp1 as [_ Hp1].
        replace (1 + zlen ("^"%char :: p) - 2) with (zlen p) by (cbn [length]; lia).
        replace (pi + 1 + 1)%nat with (pi + 2)%nat in Hp1 by lia.
        apply class_case_right with (rest := rest); (done || cbn in *; lia).
      + rewrite !bool_decide_eq_false_2 in * by congruence. cbn iota in *.
        rewrite Z.add_simpl_l.
        apply class_case_right with (rest := rest); (done || cbn in *; lia). }
  assert (Hlit : forall a pi p, at_ P pi (a :: p) -> (length p < fuel)%nat ->
    (exists t, cons (TLit a) <$> parse_glob p = Some t /\ t = toks) ->
    right_for (literal P S nc (match_loop P S nc fuel) pi (1 + zlen p) si (zlen (c :: s)))
      toks (c :: s)).
  { intros a' pi' p' Ha Hlen (? & (t & Et & ->)%fmap_Some & <-).
    replace (1 + zlen p') with (zlen (a' :: p')) by (cbn [length]; lia).
    by eapply literal_right. }
  destruct (decide (a = "\"%char)) as [->|_].
  - destruct p as [|x p].
    + replace (1 + zlen [] >=? 2) with false by done. apply (Hlit _ _ _ Hp); [cbn in *; lia|eauto].
    + replace (1 + zlen (x :: p) >=? 2) with true
        by (symmetry; apply Z.geb_le; cbn [length]; lia).
      replace (1 + zlen (x :: p) - 1) with (1 + zlen p) by (cbn [length]; lia).
      apply (Hlit _ _ _ Hp1); [cbn in *; lia|eauto].
  - apply (Hlit _ _ _ Hp); [lia|eauto].
Qed.
End match_spec.

Lemma stringmatchlen_right P S nocase toks :
  parse_glob P = Some toks -> safe_start toks S ->
  exists b, stringmatchlen P S nocase = MRet b /\ (b = true <-> gmatch nocase toks S).
Proof.
  intros Ht Hsafe. unfold stringmatchlen.
  destruct (decide (S = [])) as [->|Hne].
  2: { apply match_loop_right; [apply at_0..|done|lia|done]. }
  destruct Hsafe as [?|Hsafe]; [done|]. rewrite Nat.add_comm. cbn [Nat.add match_loop].
  destruct P as [|a p].
  { injection Ht as <-. exists true. split; [done|]. split; [constructor|done]. }
  rewrite (proj2 (Z.eqb_neq _ _)) by (cbn; lia). cbn [length Z.of_nat].
  pose proof (at_0 (a :: p)) as Hp. pose proof Hp as Hp1. apply at_cons in Hp1 as [-> Hp1].
  rewrite parse_glob_cons in Ht.
  destruct (decide (a = "*"%char)) as [->|_].
  { destruct (parse_glob p) as [t|] eqn:Et; [|done]. injection Ht as <-.
    destruct (skip_stars_1 ("*"%char :: p) (Datatypes.S (length ("*"%char :: p))) 0 p)
      as (pi' & E & Hp'); [done|cbn; lia|].
    cbn [length] in E. rewrite E.
    destruct (parse_strip nocase p t Et) as (t' & Ht' & Hg & Hnil & Hstrip).
    destruct (strip_stars p) as [|x q] eqn:Eq.
    - exists true. split; [done|]. split; [|done]. intros _. apply gm_star_stop. by apply Hnil.
    - rewrite (proj2 (Z.eqb_neq _ _)) by (cbn; lia). cbn.
      exists false. split; [done|]. split; [done|]. inversion 1 as [| | | |? ? Hm|]; subst. apply Hnil in Hm. congruence. }
  destruct (decide (a = "?"%char)) as [->|_].
  { destruct (parse_glob p) as [t|] eqn:Et; [|done]. injection Ht as <-.
    exists false. split; [done|]. split; [done|]. inversion 1. }
  destruct (decide (a = "["%char)) as [->|_].
  { cbn zeta in Ht. apply bind_Some in Ht as ([items rest] & Hc & Ht).
    apply fmap_Some in Ht as (t & Ht & ->). done. }
  assert (Hlit : forall a loop pi p plen, at_ (a :: p) pi (a :: p) \/ True ->
    forall P, at_ P pi (a :: p) -> tolower a <> NUL ->
    literal P [] nocase loop pi plen 0 0 = MRet false).
  { intros a' loop pi p' plen _ P Hat Hnul. unfold literal.
    apply at_cons in Hat as [-> _]. cbn [rd app lookup list_lookup].
    unfold char_eq. change (tolower NUL) with NUL.
    destruct nocase; rewrite bool_decide_eq_false_2; try done. by intros ->. }
  destruct (decide (a = "\"%char)) as [->|_].
  - destruct p as [|x p].
    + injection Ht as <-. exists false. split; [by destruct nocase|]. split; [done|]. inversion 1.
    + destruct (parse_glob p) as [t|] eqn:Et; [|done]. injection Ht as <-.
      rewrite (proj2 (Z.geb_le _ _)) by (cbn; lia). exists false.
      rewrite (Hlit x _ _ p) by (done || by right). split; [done|]. split; [done|]. inversion 1.
  - destruct (parse_glob p) as [t|] eqn:Et; [|done]. injection Ht as <-.
    exists false. rewrite (Hlit a _ _ p) by (done || by right). split; [done|]. split; [done|]. inversion 1.
Qed.

(** C27. Pattern matching agrees with the declarative meaning of a glob pattern (any text, any
    character, classes with ranges and negation, escapes, case folding), without reading outside its
    arrays, for every pattern that parses (one without a class that ends in a backslash at the end
    of the pattern) and every string, provided the string is not empty, or the pattern begins
    neither with a class nor with a literal NUL; the lengths fit an int. *)
Theorem stringmatchlen_spec P S nocase toks :
  parse_glob P = Some toks -> safe_start toks S ->
  exists b, stringmatchlen P S nocase = MRet b /\ (b = true <-> gmatch nocase toks S).
Proof. apply stringmatchlen_right. Qed.

Lemma stringmatchlen_spec_witness :
  exists b, stringmatchlen (bs "zhihu.[a-n]*.*") (bs "zhihu.nginx.access") false = MRet b
    /\ (b = true <-> gmatch false
          (map TLit (bs "zhihu.") ++ [TClass false [CRange "a" "n"]; TStar; TLit "."; TStar])
          (bs "zhihu.nginx.access")).
Proof. apply stringmatchlen_spec; [reflexivity|left; discriminate]. Defined.

(** On the empty string a negated class, or a literal NUL, consumes the
    terminating NUL and the routine goes on past the end; a class ending in a
    backslash is read past the pattern's end. *)
Theorem stringmatchlen_out_of_bounds :
  stringmatchlen (bs "[^a]*b") [] false = MUndef /\ stringmatchlen (NUL :: bs "a") [] false = MUndef
  /\ stringmatchlen (bs "[") (bs "x") false <> MUndef
  /\ stringmatchlen (bs "[\") (bs "x") false = MUndef.
Proof. split_and!; [vm_compute; reflexivity|vm_compute; reflexivity|vm_compute; discriminate|vm_compute; reflexivity]. Qed.
