(* ===== verification/Protocol.v ===== *)
(** * client.cc: the request parser

    [Client::ParseRequestBuffer] reads the requests of a client, arrays of
    bulk strings in the redis protocol, from a buffer that receives them in
    arbitrary pieces.  Its fields [argc_], [cur_arglen_] and [argv_] carry the
    progress from one call to the next. *)

From S2P Require Import Prelude Util.

(** ** The parser *)

(** The fields of a client that a request is collected in. *)
Record pstate := PState {
  argc_ : Z;
  cur_arglen_ : Z;
  argv_ : list bytes;
}.

Definition pstate0 : pstate := PState 0 (-1) [].

(** What [ParseRequestBuffer] returns, with the buffer it leaves; an error is
    [false] after [ProcessProtocolError], with the reply given before it. *)
Inductive presult : Type :=
| PFalse (st : pstate) (req : bytes)
| PTrue (st : pstate) (req : bytes)
| PError (st : pstate) (reply : option bytes) (req : bytes).

(** The header of an argument at [pos]. *)
Inductive header : Type :=
| HBreak
| HError (reply : bytes)
| HOk (pos : nat) (arglen : Z).

Definition err_expected (c : byte) : bytes := bs "Protocol error: expected '$', got '" ++ [c] ++ bs "'".
Definition err_bulk_length : bytes := bs "Protocol error: invalid bulk length".

Definition parse_header (req : bytes) (pos : nat) : header :=
  match strchr (drop pos req) CR with
  | None => HBreak
  | Some newline =>
      if zlen req <? Z.of_nat (pos + newline) + 2 then HBreak
      else
        let c := hd NUL (drop pos req) in
        if negb (bool_decide (c = "$"%char)) then HError (err_expected c)
        else
          match string2ll (cstr (drop (pos + 1) req)) (u64 (Z.of_nat newline - 1)) with
          | None => HError err_bulk_length
          | Some ll =>
              if (ll <? 0) || (ll >? 512 * 1024 * 1024) then HError err_bulk_length
              else HOk (pos + newline + 2) ll
          end
  end.

(** [if (cur_arglen_ == -1)]: the header is read unless it is known already. *)
Definition next_header (req : bytes) (st : pstate) (pos : nat) : header :=
  if cur_arglen_ st =? -1 then parse_header req pos else HOk pos (cur_arglen_ st).

(** The loop [while (argv_.size() < argc_)]: the state and position when it
    ends, or an error.  One argument per iteration bounds the fuel. *)
Fixpoint parse_args (fuel : nat) (req : bytes) (st : pstate) (pos : nat)
  : option (pstate * nat * option bytes) :=
  match fuel with
  | O => None
  | S fuel =>
      if zlen (argv_ st) <? argc_ st then
        match next_header req st pos with
        | HBreak => Some (st, pos, None)
        | HError reply => Some (st, pos, Some reply)
        | HOk pos arglen =>
            if zlen req - Z.of_nat pos <? arglen + 2 then
              Some (PState (argc_ st) arglen (argv_ st), pos, None)
            else
              let t := take (Z.to_nat arglen) (drop pos req) in
              parse_args fuel req (PState (argc_ st) (-1) (argv_ st ++ [t]))
                (pos + Z.to_nat arglen + 2)
        end
      else Some (st, pos, None)
  end.

Definition parse_from (req : bytes) (st : pstate) (pos : nat) : presult :=
  match parse_args (S (Z.to_nat (argc_ st))) req st pos with
  | None => PFalse st req
  | Some (st, pos, Some reply) => PError st (Some reply) req
  | Some (st, pos, None) =>
      if argc_ st =? zlen (argv_ st) then PTrue st (drop pos req) else PFalse st (drop pos req)
  end.

Definition ParseRequestBuffer (st : pstate) (req : bytes) : presult :=
  if argc_ st =? 0 then
    match strchr req CR with
    | None => PFalse st req
    | Some newline =>
        if zlen req <? Z.of_nat newline + 2 then PFalse st req
        else
          match string2ll (cstr (drop 1 req)) (u64 (Z.of_nat newline - 1)) with
          | None => PError st None req
          | Some ll =>
              if ll >? 1024 * 1024 then PError st None req
              else if ll <=? 0 then PTrue st (drop (newline + 2) req)
              else parse_from req (PState ll (cur_arglen_ st) []) (newline + 2)
          end
    end
  else parse_from req st 0.

(** ** The wire format *)

(** An argument and a request as a client (or a network store of another
    server) sends them. *)
Definition bulk (s : bytes) : bytes := "$"%char :: ll_text (zlen s) ++ crlf ++ s ++ crlf.
Definition encode (args : list bytes) : bytes :=
  "*"%char :: ll_text (zlen args) ++ crlf ++ concat (map bulk args).

Definition encodable (args : list bytes) : Prop :=
  0 < zlen args <= 1024 * 1024 /\ Forall (fun a => zlen a <= 512 * 1024 * 1024) args.

(** The parser's fields are consistent: no argument is pending between
    requests, and an announced length is one the parser accepts. *)
Definition st_ok (st : pstate) : Prop :=
  0 <= argc_ st <= 1024 * 1024 /\ zlen (argv_ st) <= argc_ st
  /\ (argc_ st = 0 -> cur_arglen_ st = -1)
  /\ (cur_arglen_ st = -1 \/ 0 <= cur_arglen_ st <= 512 * 1024 * 1024).

(** ** Numbers inside a longer text *)

Lemma string2ll_digits_app s t plen v :
  string2ll_digits (s ++ t) plen (plen + zlen s) v = string2ll_digits s plen (plen + zlen s) v.
Proof.
  revert plen v. induction s as [|c s IH]; intros plen v; cbn [app string2ll_digits].
  - destruct t; cbn [string2ll_digits]; [done|].
    replace (plen + zlen []) with plen by (cbn; lia). by rewrite Z.ltb_irrefl.
  - replace (plen + zlen (c :: s)) with (plen + 1 + zlen s) by (cbn [length]; lia).
    rewrite IH. done.
Qed.

(** The text after the [slen] characters is not looked at. *)
Lemma string2ll_app s t : string2ll (s ++ t) (zlen s) = string2ll s (zlen s).
Proof.
  destruct s as [|c s]; [done|]. unfold string2ll. cbn [app head tail].
  destruct (zlen (c :: s) =? 0); [done|].
  destruct ((zlen (c :: s) =? 1) && bool_decide (Some c = Some "0"%char)); [done|].
  destruct (bool_decide (Some c = Some "-"%char)).
  - cbn [andb]. destruct s as [|d s]; [done|]. cbn [app].
    replace (1 =? zlen (c :: d :: s)) with false by (symmetry; apply Z.eqb_neq; cbn [length]; lia).
    replace (zlen (c :: d :: s)) with (1 + 1 + zlen s) by (cbn [length]; lia).
    by rewrite string2ll_digits_app.
  - cbn [andb]. replace (zlen (c :: s)) with (0 + 1 + zlen s) by (cbn [length]; lia).
    by rewrite string2ll_digits_app.
Qed.

Lemma bulk_length_digits s plen slen v v' plen' :
  string2ll_digits s plen slen v = Some (v', plen') -> plen' <= plen + zlen s.
Proof.
  revert plen v. induction s as [|c s IH]; intros plen v; cbn [string2ll_digits].
  - intros [= _ <-]. cbn. lia.
  - destruct ((plen <? slen) && isdigit c).
    + destruct (v >? ULLONG_MAX / 10); [done|]. destruct (_ >? _); [done|].
      intros H%IH. cbn [length]. lia.
    + intros [= _ <-]. cbn [length]. lia.
Qed.

(** A length beyond the end of the text is refused. *)
Lemma string2ll_short s slen : zlen s < slen -> 1 < slen -> string2ll s slen = None.
Proof.
  intros Hs H1. unfold string2ll. replace (slen =? 0) with false by lia.
  replace (slen =? 1) with false by lia. cbn [andb].
  destruct (bool_decide (head s = Some "-"%char)) eqn:En; cbn [andb].
  - replace (1 =? slen) with false by lia. destruct s as [|c [|d s]]; [done..|]. cbn [tail].
    destruct (_ && _); [|by rewrite andb_false_r].
    destruct (string2ll_digits _ _ _ _) as [[v' p']|] eqn:E; [|done].
    apply bulk_length_digits in E. cbn [length] in *. by replace (p' <? slen) with true by lia.
  - destruct s as [|c s]; [done|].
    destruct (_ && _); [|by rewrite andb_false_r].
    destruct (string2ll_digits _ _ _ _) as [[v' p']|] eqn:E; [|done].
    apply bulk_length_digits in E. cbn [length] in *. by replace (p' <? slen) with true by lia.
Qed.

(** ** The parser reads a position's suffix only *)

Lemma cstr_app s t : NUL ∉ s -> cstr (s ++ t) = s ++ cstr t.
Proof.
  induction s as [|c s IH]; intros H; [done|]. apply not_elem_of_cons in H as [? ?].
  cbn. rewrite decide_False by congruence. by rewrite IH.
Qed.

Lemma cstr_length s : (length (cstr s) <= length s)%nat.
Proof. induction s as [|c s IH]; cbn; [lia|]. case_decide; cbn; lia. Qed.

(** The number between the type character of a line and its CR. *)
Definition line_number (l : bytes) (newline : nat) : option Z :=
  match newline with
  | O => None
  | S k => string2ll (take k (tail l)) (Z.of_nat k)
  end.

Lemma string2ll_line l n : strchr l CR = Some n -> zlen l < 2 ^ 63 ->
  string2ll (cstr (tail l)) (u64 (Z.of_nat n - 1)) = line_number l n.
Proof.
  intros Hn Hl. pose proof (strchr_Some_take _ _ _ Hn) as (Hat & _ & Hnul).
  pose proof (strchr_Some_lt _ _ _ Hn) as Hlt. destruct n as [|k]; cbn [line_number].
  - apply string2ll_short; [|done]. pose proof (cstr_length (tail l)).
    change (u64 (Z.of_nat 0 - 1)) with (2 ^ 64 - 1).
    assert (length (tail l) <= length l)%nat by (destruct l; cbn; lia). lia.
  - destruct l as [|c l]; [done|]. cbn [tail take] in *. cbn [length] in *.
    apply not_elem_of_cons in Hnul as [_ Hnul].
    replace (u64 _) with (Z.of_nat k) by (rewrite u64_small; unfold in_u64; lia).
    rewrite <- (take_drop k l) at 1. rewrite cstr_app by done.
    replace (Z.of_nat k) with (zlen (take k l)) by (rewrite length_take; lia).
    apply string2ll_app.
Qed.

Lemma line_number_app l b n : strchr l CR = Some n -> line_number (l ++ b) n = line_number l n.
Proof.
  intros Hn%strchr_Some_lt. destruct n as [|k]; [done|]. destruct l as [|c l]; [cbn in *; lia|].
  cbn [line_number tail app length] in *. by rewrite take_app_le by lia.
Qed.

Lemma parse_header_suffix l k pos : (k <= length l)%nat ->
  parse_header l (k + pos) =
    match parse_header (drop k l) pos with HOk p n => HOk (k + p) n | h => h end.
Proof.
  intros Hk. unfold parse_header. rewrite <- drop_drop.
  destruct (strchr _ CR) as [n|]; [|done].
  replace (zlen l <? Z.of_nat (k + pos + n) + 2) with (zlen (drop k l) <? Z.of_nat (pos + n) + 2)
    by (rewrite length_drop; apply eq_true_iff_eq; rewrite !Z.ltb_lt; lia).
  destruct (_ <? _); [done|]. destruct (negb _); [done|].
  replace (k + pos + 1)%nat with (k + (pos + 1))%nat by lia. rewrite <- drop_drop.
  destruct (string2ll _ _); [|done]. destruct (_ || _); [done|]. f_equal. lia.
Qed.

Lemma parse_args_suffix fuel l k st pos : (k <= length l)%nat ->
  parse_args fuel l st (k + pos) =
    (fun '(st, p, e) => (st, (k + p)%nat, e)) <$> parse_args fuel (drop k l) st pos.
Proof.
  intros Hk. revert st pos. induction fuel as [|fuel IH]; intros st pos; [done|]. cbn [parse_args].
  destruct (zlen (argv_ st) <? argc_ st); [|done].
  assert (next_header l st (k + pos) =
    match next_header (drop k l) st pos with HOk p n => HOk (k + p) n | h => h end) as ->.
  { unfold next_header. rewrite parse_header_suffix by done.
    destruct (_ =? -1); [by destruct (parse_header _ _)|done]. }
  destruct (next_header _ _ _) as [| |p n]; [done..|].
  replace (zlen l - Z.of_nat (k + p) <? n + 2) with (zlen (drop k l) - Z.of_nat p <? n + 2)
    by (rewrite length_drop; apply eq_true_iff_eq; rewrite !Z.ltb_lt; lia).
  destruct (_ <? _); [done|]. rewrite <- drop_drop.
  rewrite <- IH. f_equal. lia.
Qed.

Lemma parse_header_eq l pos : (pos <= length l)%nat -> zlen l < 2 ^ 63 ->
  parse_header l pos =
    match strchr (drop pos l) CR with
    | None => HBreak
    | Some n =>
        if zlen (drop pos l) <? Z.of_nat n + 2 then HBreak
        else if negb (bool_decide (hd NUL (drop pos l) = "$"%char)) then HError (err_expected (hd NUL (drop pos l)))
        else match line_number (drop pos l) n with
             | None => HError err_bulk_length
             | Some ll => if (ll <? 0) || (ll >? 512 * 1024 * 1024) then HError err_bulk_length
                          else HOk (pos + n + 2) ll
             end
    end.
Proof.
  intros Hpos Hlen. rewrite <- (Nat.add_0_r pos) at 1. rewrite parse_header_suffix by done.
  unfold parse_header. rewrite drop_0, Nat.add_0_l. destruct (strchr _ CR) as [n|] eqn:En; [|done].
  destruct (_ <? _); [done|]. destruct (negb _); [done|].
  change (drop 1 (drop pos l)) with (tail (drop pos l)).
  rewrite string2ll_line by (done || (rewrite length_drop; lia)).
  destruct (line_number _ _); [|done]. destruct (_ || _); [done|]. f_equal. lia.
Qed.

Lemma parse_header_app a b pos : (pos <= length a)%nat -> zlen (a ++ b) < 2 ^ 63 ->
  parse_header a pos = HBreak \/ parse_header (a ++ b) pos = parse_header a pos.
Proof.
  intros Hpos Hlen. rewrite length_app in Hlen.
  rewrite !parse_header_eq by (rewrite ?length_app; lia). rewrite drop_app_le by lia.
  set (l := drop pos a). destruct (strchr l CR) as [n|] eqn:En; [|by left].
  rewrite (strchr_app_Some _ _ _ _ En), line_number_app by done.
  destruct (zlen l <? Z.of_nat n + 2) eqn:El; [by left|right]. bool_to_prop.
  replace (zlen (l ++ b) <? Z.of_nat n + 2) with false by (symmetry; apply Z.ltb_ge; rewrite length_app; lia).
  destruct l; [done|]. done.
Qed.

Lemma parse_header_bounds l pos p n :
  parse_header l pos = HOk p n ->
  (pos + 2 <= p <= length l)%nat /\ 0 <= n <= 512 * 1024 * 1024.
Proof.
  unfold parse_header. destruct (strchr _ CR) as [m|]; [|done].
  destruct (_ <? _) eqn:E; [done|]. destruct (negb _); [done|].
  destruct (string2ll _ _) as [ll|]; [|done]. destruct (_ || _) eqn:Er; [done|].
  intros [= <- <-]. bool_to_prop. rewrite Z.gtb_ltb in *. bool_to_prop. lia.
Qed.

(** ** Progress of the argument loop *)

(** Iterations left. *)
Definition todo (st : pstate) : nat := Z.to_nat (argc_ st) - length (argv_ st).

Lemma next_header_app a b st pos : (pos <= length a)%nat -> zlen (a ++ b) < 2 ^ 63 ->
  next_header a st pos = HBreak \/ next_header (a ++ b) st pos = next_header a st pos.
Proof.
  intros. unfold next_header. destruct (_ =? -1); [|by right]. by apply parse_header_app.
Qed.

Lemma next_header_bounds l st pos p n : st_ok st -> (pos <= length l)%nat ->
  next_header l st pos = HOk p n -> (pos <= p <= length l)%nat /\ 0 <= n <= 512 * 1024 * 1024.
Proof.
  intros (_ & _ & _ & Hc) Hp. unfold next_header. destruct (_ =? -1) eqn:E; bool_to_prop.
  - intros H%parse_header_bounds. lia.
  - intros [= <- <-]. lia.
Qed.

Lemma st_ok_arg st s : st_ok st -> zlen (argv_ st) < argc_ st ->
  st_ok (PState (argc_ st) (-1) (argv_ st ++ [s])).
Proof.
  intros (? & ? & ? & ?) ?. unfold st_ok. cbn. rewrite length_app. cbn. split_and!; [lia..|done|by left].
Qed.

Lemma parse_args_fuel f1 f2 req st pos : st_ok st ->
  (todo st < f1)%nat -> (todo st < f2)%nat -> parse_args f1 req st pos = parse_args f2 req st pos.
Proof.
  revert f2 st pos. induction f1 as [|f1 IH]; intros [|f2] st pos Hok H1 H2; [lia..|].
  cbn [parse_args]. destruct (zlen (argv_ st) <? argc_ st) eqn:E; [|done].
  destruct (next_header _ _ _) as [| |p n]; [done..|]. destruct (_ <? n + 2); [done|]. bool_to_prop.
  pose proof Hok as (? & ? & _). unfold todo in *.
  apply IH; [by apply st_ok_arg|..]; cbn; rewrite length_app; cbn; lia.
Qed.

Lemma st_ok_len st n : st_ok st -> zlen (argv_ st) < argc_ st -> 0 <= n <= 512 * 1024 * 1024 ->
  st_ok (PState (argc_ st) n (argv_ st)).
Proof. intros (? & ? & ? & ?) ? ?. unfold st_ok. cbn. split_and!; try lia. Qed.

(** Where the loop stops on [a] it stops, or goes on from there, on [a ++ b]. *)
Lemma parse_args_app fuel a b st pos :
  st_ok st -> (pos <= length a)%nat -> zlen (a ++ b) < 2 ^ 63 -> (todo st < fuel)%nat ->
  exists st' pos' e, parse_args fuel a st pos = Some (st', pos', e)
    /\ (pos' <= length a)%nat /\ st_ok st' /\ argc_ st' = argc_ st /\ (todo st' <= todo st)%nat
    /\ (if decide (e = None /\ zlen (argv_ st') <> argc_ st')
        then parse_args fuel (a ++ b) st pos = parse_args fuel (a ++ b) st' pos'
        else parse_args fuel (a ++ b) st pos = Some (st', pos', e)).
Proof.
  revert st pos. induction fuel as [|fuel IH]; intros st pos Hok Hpos Hlen Hf; [lia|].
  cbn [parse_args]. destruct (zlen (argv_ st) <? argc_ st) eqn:E; bool_to_prop.
  2: { exists st, pos, None. split_and!; try done. rewrite decide_False; [done|].
       destruct Hok as (? & ? & _). lia. }
  destruct (next_header_app a b st pos Hpos Hlen) as [Hh|Hh].
  { rewrite Hh. exists st, pos, None. split_and!; try done. rewrite decide_True by (split; [done|lia]).
    by rewrite (proj2 (Z.ltb_lt _ _) E). }
  rewrite Hh. destruct (next_header a st pos) as [|r|p n] eqn:En.
  - exists st, pos, None. split_and!; try done. rewrite decide_True by (split; [done|lia]).
    by rewrite (proj2 (Z.ltb_lt _ _) E), Hh.
  - exists st, pos, (Some r). by split_and!.
  - pose proof (next_header_bounds _ _ _ _ _ Hok Hpos En) as [Hp Hn].
    destruct (zlen a - Z.of_nat p <? n + 2) eqn:Ef; bool_to_prop.
    + exists (PState (argc_ st) n (argv_ st)), p, None. split_and!; try done.
      * lia.
      * by apply st_ok_len.
      * cbn [argc_ argv_ cur_arglen_]. rewrite decide_True by (split; [done|lia]).
        rewrite (proj2 (Z.ltb_lt _ _) E). unfold next_header. cbn [cur_arglen_].
        by rewrite (proj2 (Z.eqb_neq n (-1))) by lia.
    + replace (zlen (a ++ b) - Z.of_nat p <? n + 2) with false
        by (symmetry; apply Z.ltb_ge; rewrite length_app; lia).
      rewrite drop_app_le, take_app_le by (rewrite ?length_drop; lia).
      set (st1 := PState _ _ (argv_ st ++ _)).
      assert (Hok1 : st_ok st1) by (by apply st_ok_arg).
      assert (Ht : (todo st1 < todo st)%nat).
      { destruct Hok as (? & ? & _). unfold todo, st1. cbn. rewrite length_app. cbn. lia. }
      destruct (IH st1 (p + Z.to_nat n + 2)%nat Hok1) as (st' & pos' & e & -> & ? & Hok' & ? & ? & Hd);
        [lia|done|lia|].
      exists st', pos', e. split_and!; try done; [lia|].
      destruct (decide (e = None /\ zlen (argv_ st') <> argc_ st')) as [[_ Hne]|]; [|done].
      rewrite Hd.
      pose proof Hok' as (? & ? & _).
      change (parse_args fuel (a ++ b) st' pos' = parse_args (S fuel) (a ++ b) st' pos').
      apply parse_args_fuel; [done|lia..].
Qed.

(** Results that differ at most in the bytes left behind by an error. *)
Definition result_sim (r1 r2 : presult) : Prop :=
  match r1, r2 with
  | PError st1 reply1 _, PError st2 reply2 _ => st1 = st2 /\ reply1 = reply2
  | _, _ => r1 = r2
  end.

#[export] Instance result_sim_equiv : Equivalence result_sim.
Proof.
  split.
  - by intros [].
  - intros [] []; cbn; try done. by intros [-> ->].
  - intros [] [] []; cbn; try congruence. by intros [-> ->] [-> ->].
Qed.

Lemma parse_from_app st a b pos : st_ok st -> (pos <= length a)%nat -> zlen (a ++ b) < 2 ^ 63 ->
  match parse_from a st pos with
  | PFalse st' req => st_ok st' /\ argc_ st' = argc_ st
      /\ result_sim (parse_from (a ++ b) st pos) (parse_from (req ++ b) st' 0)
  | PTrue st' req => st_ok st' /\ parse_from (a ++ b) st pos = PTrue st' (req ++ b)
  | PError st' reply req => parse_from (a ++ b) st pos = PError st' reply (req ++ b)
  end.
Proof.
  intros Hok Hpos Hlen.
  destruct (parse_args_app (S (Z.to_nat (argc_ st))) a b st pos Hok Hpos Hlen)
    as (st' & p & e & Ea & Hp & Hok' & Hargc & _ & Hd); [unfold todo; lia|].
  unfold parse_from in *. rewrite Ea. destruct e as [r|].
  { rewrite decide_False in Hd by (intros [? ?]; done). by rewrite Hd. }
  destruct (argc_ st' =? zlen (argv_ st')) eqn:E; bool_to_prop.
  - rewrite decide_False in Hd by (intros [? ?]; lia). split; [done|].
    rewrite Hd, (proj2 (Z.eqb_eq _ _) E). by rewrite drop_app_le.
  - rewrite decide_True in Hd by (split; [done|lia]). split; [done|]. split; [done|].
    rewrite Hd, Hargc, <- drop_app_le by done.
    rewrite <- (Nat.add_0_r p) at 1. rewrite parse_args_suffix by (rewrite length_app; lia).
    destruct (parse_args_app (S (Z.to_nat (argc_ st'))) (drop p (a ++ b)) [] st' 0 Hok')
      as (st2 & p2 & e & E2 & _);
      [lia|rewrite app_nil_r, length_drop; lia|unfold todo; lia|].
    rewrite Hargc in E2. rewrite E2. destruct e; cbn; [done|].
    rewrite <- drop_drop. by destruct (_ =? _).
Qed.

Lemma parse_app st a b :
  st_ok st -> zlen (a ++ b) < 2 ^ 63 ->
  match ParseRequestBuffer st a with
  | PFalse st' req => st_ok st' /\ result_sim (ParseRequestBuffer st (a ++ b)) (ParseRequestBuffer st' (req ++ b))
  | PTrue st' req => ParseRequestBuffer st (a ++ b) = PTrue st' (req ++ b)
  | PError st' reply req => ParseRequestBuffer st (a ++ b) = PError st' reply (req ++ b)
  end.
Proof.
  intros Hok Hlen. destruct (argc_ st =? 0) eqn:E0.
  2: { unfold ParseRequestBuffer. rewrite E0. bool_to_prop.
       pose proof (parse_from_app st a b 0 Hok ltac:(lia) Hlen) as H.
       destruct (parse_from a st 0) as [st' req|st' req|st' r req]; [|by destruct H|done].
       destruct H as (? & Hc & H). split; [done|]. by rewrite (proj2 (Z.eqb_neq (argc_ st') 0)) by lia. }
  rewrite length_app in Hlen. unfold ParseRequestBuffer. rewrite E0.
  destruct (strchr a CR) as [n|] eqn:En.
  2: { split; [done|]. rewrite E0. reflexivity. }
  destruct (zlen a <? Z.of_nat n + 2) eqn:El; bool_to_prop.
  { split; [done|]. rewrite E0. reflexivity. }
  rewrite (strchr_app_Some _ _ _ _ En).
  replace (zlen (a ++ b) <? Z.of_nat n + 2) with false by (symmetry; apply Z.ltb_ge; rewrite length_app; lia).
  change (drop 1 a) with (tail a). change (drop 1 (a ++ b)) with (tail (a ++ b)).
  rewrite !string2ll_line, line_number_app
    by (done || apply strchr_app_Some, En || rewrite ?length_app; lia).
  destruct (line_number a n) as [ll|]; [|done]. destruct (ll >? 1024 * 1024) eqn:Eb; [done|].
  destruct (ll <=? 0) eqn:Ez; [by rewrite drop_app_le by lia|].
  rewrite Z.gtb_ltb in Eb. bool_to_prop.
  assert (Hok1 : st_ok (PState ll (cur_arglen_ st) [])).
  { destruct Hok as (? & ? & ? & ?). unfold st_ok. cbn. split_and!; [lia..|done]. }
  pose proof (parse_from_app _ a b (n + 2) Hok1 ltac:(lia) ltac:(rewrite length_app; lia)) as H.
  destruct (parse_from a _ _) as [st' req|st' req|st' r req]; [|by destruct H|done].
  destruct H as (? & Hc & H). split; [done|]. cbn in Hc.
  by rewrite (proj2 (Z.eqb_neq (argc_ st') 0)) by lia.
Qed.

(** C21. Parsing a request that arrives in pieces gives what parsing it in one piece gives:
    whatever the parser answers on the first bytes (incomplete, complete or an error), going on with
    the kept state and the remaining bytes agrees with parsing all the bytes at once. *)
Theorem parse_incremental st a b :
  st_ok st -> zlen (a ++ b) < 2 ^ 63 ->
  match ParseRequestBuffer st a with
  | PFalse st' req => st_ok st' /\ result_sim (ParseRequestBuffer st (a ++ b)) (ParseRequestBuffer st' (req ++ b))
  | PTrue st' req => ParseRequestBuffer st (a ++ b) = PTrue st' (req ++ b)
  | PError st' reply req => ParseRequestBuffer st (a ++ b) = PError st' reply (req ++ b)
  end.
Proof. apply parse_app. Qed.

(** ** Round trip *)

Lemma number_line c n t : in_i64 n -> c <> CR -> c <> NUL ->
  let l := c :: ll_text n ++ CR :: t in
  strchr l CR = Some (S (length (ll_text n))) /\ line_number l (S (length (ll_text n))) = Some n.
Proof.
  intros Hn Hc Hz. cbn zeta. split.
  - apply (strchr_app_here (c :: ll_text n) CR t); rewrite not_elem_of_cons.
    + split; [congruence|]. intros [H|H]%ll_text_no_special; [done..|done].
    + split; [congruence|]. intros [H|H]%ll_text_no_special; [done..|done].
  - cbn [line_number tail]. rewrite take_app_length. by apply string2ll_complete.
Qed.

Lemma parse_header_bulk s t : zlen s <= 512 * 1024 * 1024 -> zlen (bulk s ++ t) < 2 ^ 63 ->
  parse_header (bulk s ++ t) 0 = HOk (length (ll_text (zlen s)) + 3) (zlen s).
Proof.
  intros Hs Hl. rewrite parse_header_eq, drop_0 by (done || lia). unfold bulk, crlf in *.
  rewrite <- app_comm_cons, <- !app_assoc in *. cbn [app] in *.
  destruct (number_line "$"%char (zlen s) (LF :: s ++ CR :: LF :: t)) as [-> ->]; [unfold in_i64; lia|done..|].
  rewrite (proj2 (Z.ltb_ge _ _)) by (cbn [length]; rewrite length_app; cbn [length]; lia).
  cbn [hd]. rewrite bool_decide_eq_true_2 by done. cbn [negb].
  replace (zlen s <? 0) with false by (symmetry; apply Z.ltb_ge; lia).
  replace (zlen s >? 512 * 1024 * 1024) with false by (symmetry; rewrite Z.gtb_ltb; apply Z.ltb_ge; lia).
  cbn [orb]. f_equal. lia.
Qed.

Lemma bulk_length s : length (bulk s) = (length (ll_text (zlen s)) + 3 + length s + 2)%nat.
Proof. unfold bulk. cbn [length]. rewrite !length_app. cbn. lia. Qed.

Lemma parse_args_encode fuel args rest n av :
  Forall (fun a => zlen a <= 512 * 1024 * 1024) args ->
  zlen (concat (map bulk args) ++ rest) < 2 ^ 63 -> n = zlen av + zlen args -> (length args < fuel)%nat ->
  parse_args fuel (concat (map bulk args) ++ rest) (PState n (-1) av) 0
    = Some (PState n (-1) (av ++ args), length (concat (map bulk args)), None).
Proof.
  intros Hs. revert fuel n av. induction Hs as [|a args Ha Hs IH]; intros fuel n av Hlen -> Hf;
    (destruct fuel as [|fuel]; [lia|]); cbn [parse_args argv_ argc_ map concat].
  { rewrite app_nil_r. by replace (zlen av <? _) with false by (symmetry; apply Z.ltb_ge; cbn; lia). }
  replace (zlen av <? _) with true by (symmetry; apply Z.ltb_lt; cbn [length]; lia).
  cbn [map concat] in Hlen. rewrite <- app_assoc in *. set (t := concat (map bulk args) ++ rest) in *.
  unfold next_header. cbn [cur_arglen_].
  change (-1 =? -1) with true. cbn iota. rewrite parse_header_bulk by done.
  assert (Hd : drop (length (ll_text (zlen a)) + 3) (bulk a ++ t) = a ++ crlf ++ t).
  { replace (bulk a ++ t) with (("$"%char :: ll_text (zlen a) ++ crlf) ++ a ++ crlf ++ t)
      by (unfold bulk; rewrite <- !app_comm_cons, <- !app_assoc; done).
    apply drop_app_length'. cbn [length]. rewrite length_app. cbn. lia. }
  assert (Hal : length (bulk a ++ t) = (length (ll_text (zlen a)) + 3 + length a + 2 + length t)%nat)
    by (rewrite length_app, bulk_length; lia).
  rewrite (proj2 (Z.ltb_ge _ _)) by lia.
  rewrite Hd, Nat2Z.id, take_app_length.
  replace (length (ll_text (zlen a)) + 3 + length a + 2)%nat with (length (bulk a) + 0)%nat
    by (rewrite bulk_length; lia).
  rewrite parse_args_suffix by (rewrite length_app; lia). rewrite drop_app_length.
  rewrite IH; [|rewrite length_app in Hlen; lia|rewrite length_app; cbn [length]; lia|cbn in Hf; lia].
  cbn [fmap option_fmap option_map]. rewrite <- app_assoc, length_app. done.
Qed.

Lemma parse_encoded args rest :
  encodable args -> zlen (encode args ++ rest) < 2 ^ 63 ->
  ParseRequestBuffer pstate0 (encode args ++ rest) = PTrue (PState (zlen args) (-1) args) rest.
Proof.
  intros [Hn Hs] Hlen. unfold ParseRequestBuffer. cbn [argc_ pstate0 cur_arglen_].
  change (0 =? 0) with true. cbn iota. unfold encode in *. set (b := concat (map bulk args)) in *.
  rewrite <- app_comm_cons, <- !app_assoc in *. unfold crlf in *. cbn [app] in *.
  destruct (number_line "*"%char (zlen args) (LF :: b ++ rest)) as [Hsc Hln]; [unfold in_i64; lia|done..|].
  rewrite Hsc. cbn [length] in *. rewrite length_app in *. cbn [length] in *.
  rewrite (proj2 (Z.ltb_ge _ _)) by lia.
  change (drop 1 ("*"%char :: ?l)) with (tail ("*"%char :: l)).
  rewrite (string2ll_line _ _ Hsc), Hln by (cbn [length]; rewrite length_app; cbn [length]; lia).
  replace (zlen args >? _) with false by (symmetry; rewrite Z.gtb_ltb; apply Z.ltb_ge; lia).
  replace (zlen args <=? 0) with false by (symmetry; apply Z.leb_gt; lia).
  unfold parse_from. cbn [argc_]. set (l := "*"%char :: _).
  replace (S (length (ll_text (zlen args))) + 2)%nat with (S (length (ll_text (zlen args))) + 2 + 0)%nat by lia.
  rewrite parse_args_suffix by (subst l; cbn [length]; rewrite length_app; cbn [length]; lia).
  assert (drop (S (length (ll_text (zlen args))) + 2) l = b ++ rest) as Hd.
  { subst l. replace ("*"%char :: _) with (("*"%char :: ll_text (zlen args) ++ crlf) ++ b ++ rest)
      by (cbn; rewrite <- app_assoc; done).
    apply drop_app_length'. cbn. rewrite length_app. cbn. lia. }
  rewrite Hd. pose proof (parse_args_encode (S (Z.to_nat (zlen args))) args rest (zlen args) [] Hs) as Hp.
  fold b in Hp. rewrite Hp; [|cbn [length] in Hlen; lia|cbn; lia|lia].
  cbn [fmap option_fmap option_map argc_ argv_ app]. rewrite Z.eqb_refl. f_equal.
  rewrite <- drop_drop, Hd. apply drop_app_length.
Qed.

(** C23. A request in the multi-bulk format is parsed to its arguments, byte for byte, whatever
    they contain, and what follows it is left in the buffer. *)
Theorem parse_encode args rest :
  encodable args -> zlen (encode args ++ rest) < 2 ^ 63 ->
  ParseRequestBuffer pstate0 (encode args ++ rest) = PTrue (PState (zlen args) (-1) args) rest.
Proof. apply parse_encoded. Qed.

Lemma parse_encode_witness :
  ParseRequestBuffer pstate0 (encode [bs "LOG"; bs "topic"; bs "a message"] ++ bs "*1")
    = PTrue (PState 3 (-1) [bs "LOG"; bs "topic"; bs "a message"]) (bs "*1").
Proof.
  apply (parse_encode [bs "LOG"; bs "topic"; bs "a message"]); [|vm_compute; done].
  split; [cbn; lia|]. repeat constructor; cbn; lia.
Defined.

Lemma parse_incremental_witness :
  let a := bs "*1" ++ crlf ++ bs "$4" ++ crlf ++ bs "PI" in
  let b := bs "NG" ++ crlf in
  match ParseRequestBuffer pstate0 a with
  | PFalse st' req => st_ok st' /\ result_sim (ParseRequestBuffer pstate0 (a ++ b)) (ParseRequestBuffer st' (req ++ b))
  | PTrue st' req => ParseRequestBuffer pstate0 (a ++ b) = PTrue st' (req ++ b)
  | PError st' reply req => ParseRequestBuffer pstate0 (a ++ b) = PError st' reply (req ++ b)
  end.
Proof.
  cbn zeta. apply parse_incremental; [|vm_compute; done].
  unfold st_ok; cbn; split_and!; (lia || done).
Defined.

(** ** Consumption *)

(** An argument the parser accepts. *)
Definition short (a : bytes) : Prop := zlen a <= 512 * 1024 * 1024.

(** Between calls a request is either not begun or short of an argument. *)
Definition ps_ok (st : pstate) : Prop :=
  st_ok st /\ (argc_ st <> 0 -> zlen (argv_ st) < argc_ st) /\ (argc_ st = 0 -> argv_ st = [])
  /\ Forall short (argv_ st).

Lemma ps_ok_0 : ps_ok pstate0.
Proof. split; [|by split_and!; try constructor]. unfold st_ok. cbn. split_and!; (lia || done). Qed.

Lemma parse_args_short fuel l st pos st' pos' e : st_ok st -> (pos <= length l)%nat -> Forall short (argv_ st) ->
  parse_args fuel l st pos = Some (st', pos', e) -> Forall short (argv_ st').
Proof.
  revert st pos. induction fuel as [|fuel IH]; intros st pos Hok Hpos Hs; [done|]. cbn [parse_args].
  destruct (zlen (argv_ st) <? argc_ st) eqn:E; [|by intros [= <- <- <-]]. bool_to_prop.
  destruct (next_header l st pos) as [| |p n] eqn:En; [by intros [= <- <- <-]|by intros [= <- <- <-]|].
  pose proof (next_header_bounds _ _ _ _ _ Hok Hpos En) as [Hp Hn].
  destruct (_ <? n + 2) eqn:Ef; bool_to_prop; [by intros [= <- <- <-]|].
  apply IH; [by apply st_ok_arg|lia|]. cbn. apply Forall_app. split; [done|]. constructor; [|done].
  unfold short. rewrite length_take. lia.
Qed.

Lemma parse_args_consumes fuel l st pos st' pos' :
  st_ok st -> (pos <= length l)%nat -> parse_args fuel l st pos = Some (st', pos', None) ->
  argc_ st' = argc_ st /\ (pos <= pos' <= length l)%nat /\ ((length (argv_ st) < length (argv_ st'))%nat -> (pos + 2 <= pos')%nat).
Proof.
  revert st pos. induction fuel as [|fuel IH]; intros st pos Hok Hpos; [done|]. cbn [parse_args].
  destruct (zlen (argv_ st) <? argc_ st) eqn:E; [|intros [= <- <-]; lia]. bool_to_prop.
  destruct (next_header l st pos) as [| |p n] eqn:En; [intros [= <- <-]; lia|done|].
  pose proof (next_header_bounds _ _ _ _ _ Hok Hpos En) as [Hp Hn].
  destruct (_ <? n + 2) eqn:Ef; bool_to_prop.
  - intros [= <- <-]. cbn. lia.
  - intros H. apply IH in H as (? & ? & _); [cbn in *; lia|by apply st_ok_arg|lia].
Qed.

Lemma parse_from_PTrue l st pos st' req : st_ok st -> zlen (argv_ st) < argc_ st -> (pos <= length l)%nat ->
  parse_from l st pos = PTrue st' req -> (pos + 2 + length req <= length l)%nat.
Proof.
  intros Hok Hlt Hpos. unfold parse_from. destruct (parse_args _ _ _ _) as [[[st1 p] [e|]]|] eqn:E; [done| |done].
  destruct (argc_ st1 =? zlen (argv_ st1)) eqn:Ea; [|done]. intros [= <- <-]. bool_to_prop.
  apply parse_args_consumes in E as (Hc & Hp & H2); [|done..]. rewrite length_drop. lia.
Qed.

(** After the first line of a request. *)
Lemma st_ok_begin st ll : st_ok st -> (ll >? 1024 * 1024) = false -> (ll <=? 0) = false -> st_ok (PState ll (cur_arglen_ st) []).
Proof. intros (? & ? & ? & ?). rewrite Z.gtb_ltb. intros. bool_to_prop. unfold st_ok. cbn. split_and!; [lia..|done]. Qed.

(** A request that is complete has taken at least its last line feed. *)
Lemma parse_PTrue_consumes st l st' req : ps_ok st -> ParseRequestBuffer st l = PTrue st' req ->
  (2 + length req <= length l)%nat.
Proof.
  intros (Hok & Hlt & _). unfold ParseRequestBuffer. destruct (argc_ st =? 0) eqn:E0; bool_to_prop.
  - destruct (strchr l CR) as [n|]; [|done]. destruct (zlen l <? _) eqn:El; [done|]. bool_to_prop.
    destruct (string2ll _ _) as [ll|]; [|done]. destruct (ll >? _) eqn:Eb; [done|].
    destruct (ll <=? 0) eqn:Ez; [intros [= <- <-]; rewrite length_drop; lia|].
    intros H. apply parse_from_PTrue in H; [lia|by apply st_ok_begin|bool_to_prop; cbn; lia|lia].
  - intros H. apply parse_from_PTrue in H; [lia|done|auto|lia].
Qed.

Lemma parse_from_PFalse l st pos st' req : st_ok st -> (pos <= length l)%nat -> Forall short (argv_ st) ->
  zlen l < 2 ^ 63 -> argc_ st <> 0 -> parse_from l st pos = PFalse st' req -> ps_ok st'.
Proof.
  intros Hok Hpos Hsh Hl Hne. unfold parse_from.
  destruct (parse_args_app (S (Z.to_nat (argc_ st))) l [] st pos Hok Hpos)
    as (st1 & p & e & E & _ & Hok' & Hc & _); [by rewrite app_nil_r|unfold todo; lia|].
  rewrite E. destruct e; [done|]. destruct (argc_ st1 =? zlen (argv_ st1)) eqn:Ea; [done|].
  intros [= <- <-]. bool_to_prop. apply parse_args_short in E; [|done..]. destruct Hok' as (? & ? & ? & ?).
  split; [by unfold st_ok|]. split_and!; [lia|lia|done].
Qed.

Lemma parse_from_PTrue_short l st pos st' req : st_ok st -> (pos <= length l)%nat -> Forall short (argv_ st) ->
  parse_from l st pos = PTrue st' req -> Forall short (argv_ st').
Proof.
  intros Hok Hpos Hsh. unfold parse_from. destruct (parse_args _ _ _ _) as [[[st1 p] [e|]]|] eqn:E; [done| |done].
  destruct (argc_ st1 =? zlen (argv_ st1)); [|done]. intros [= <- <-]. by eapply parse_args_short.
Qed.

Lemma parse_PFalse_ok st l st' req : ps_ok st -> zlen l < 2 ^ 63 ->
  ParseRequestBuffer st l = PFalse st' req -> ps_ok st'.
Proof.
  intros (Hok & Hlt & Hnil & Hsh) Hl. unfold ParseRequestBuffer. destruct (argc_ st =? 0) eqn:E0; bool_to_prop.
  - destruct (strchr l CR) as [n|]; [|by intros [= <- <-]].
    destruct (zlen l <? _) eqn:El; [by intros [= <- <-]|]. bool_to_prop.
    destruct (string2ll _ _) as [ll|]; [|done]. destruct (ll >? _) eqn:Eb; [done|].
    destruct (ll <=? 0) eqn:Ez; [done|]. pose proof (st_ok_begin _ _ Hok Eb Ez) as Hok1. bool_to_prop.
    apply parse_from_PFalse; [done|lia|constructor|lia|cbn; lia].
  - by apply parse_from_PFalse; [|lia| |lia|].
Qed.

(** The arguments of a request are those the parser accepts. *)
Lemma parse_PTrue_short st l st' req : ps_ok st -> ParseRequestBuffer st l = PTrue st' req -> Forall short (argv_ st').
Proof.
  intros (Hok & Hlt & Hnil & Hsh). unfold ParseRequestBuffer. destruct (argc_ st =? 0) eqn:E0; bool_to_prop.
  - destruct (strchr l CR) as [n|]; [|done]. destruct (zlen l <? _) eqn:El; [done|]. bool_to_prop.
    destruct (string2ll _ _) as [ll|]; [|done]. destruct (ll >? _) eqn:Eb; [done|].
    destruct (ll <=? 0) eqn:Ez; [by intros [= <- <-]|].
    apply parse_from_PTrue_short; [by apply st_ok_begin|lia|constructor].
  - by apply parse_from_PTrue_short; [|lia|].
Qed.

Lemma parse_from_shrinks st l pos :
  match parse_from l st pos with
  | PFalse _ req | PTrue _ req | PError _ _ req => (length req <= length l)%nat
  end.
Proof.
  unfold parse_from. destruct (parse_args _ _ _ _) as [[[st1 p] [e|]]|]; [lia| |lia].
  destruct (_ =? _); rewrite length_drop; lia.
Qed.

(** The buffer never grows. *)
Lemma parse_shrinks st l :
  match ParseRequestBuffer st l with
  | PFalse _ req | PTrue _ req | PError _ _ req => (length req <= length l)%nat
  end.
Proof.
  unfold ParseRequestBuffer. destruct (_ =? 0); [|apply parse_from_shrinks].
  destruct (strchr l CR); [|lia]. destruct (_ <? _); [lia|]. destruct (string2ll _ _) as [ll|]; [|lia].
  destruct (_ >? _); [lia|]. destruct (ll <=? 0); [rewrite length_drop; lia|]. apply parse_from_shrinks.
Qed.
