(* ===== verification/EventLoop.v ===== *)
(** * deps/ae/ae.c: the event loop

    Every thread of the server runs one loop, with a table of file events
    indexed by descriptor and a list of timers.  The multiplexing layer
    (Backends.v) and the callbacks are parameters here; what the loop does
    with its own tables is modelled.  A table access outside [0, setsize) is
    an undefined outcome ([None]). *)

From S2P Require Import Prelude.

(** ** Constants *)

Definition AE_NONE : Z := 0.
Definition AE_READABLE : Z := 1.
Definition AE_WRITABLE : Z := 2.
Definition AE_FILE_EVENTS : Z := 1.
Definition AE_TIME_EVENTS : Z := 2.
Definition AE_ALL_EVENTS : Z := Z.lor AE_FILE_EVENTS AE_TIME_EVENTS.
Definition AE_DONT_WAIT : Z := 4.
Definition AE_NOMORE : Z := -1.

(** ** What a loop promises to the code that registers file events *)

Class FileEvents (EL P D : Type) := {
  (** [aeGetFileEvents] *)
  fe_get : EL -> Z -> Z;
  (** [aeCreateFileEvent] for a valid descriptor: [None] is [AE_ERR] *)
  fe_create : EL -> Z -> Z -> P -> D -> option EL;
  (** [aeDeleteFileEvent] for a valid descriptor *)
  fe_delete : EL -> Z -> Z -> EL;
}.

Class FileEventsLaws (EL P D : Type) {fe : FileEvents EL P D} := {
  fe_create_get el fd mask p d el' fd' :
    0 <= fd -> 0 <= fd' -> fe_create el fd mask p d = Some el' ->
    fe_get el' fd' = if decide (fd = fd') then Z.lor (fe_get el fd) mask else fe_get el fd';
  fe_delete_get el fd mask fd' :
    0 <= fd -> 0 <= fd' ->
    fe_get (fe_delete el fd mask) fd' =
      if decide (fd = fd') then Z.land (fe_get el fd) (Z.lnot mask) else fe_get el fd';
}.

(** ** The tables *)

Section loop.
(** The callbacks and their arguments, and the finalizers. *)
Context {fproc tproc cdata : Type} `{EqDecision fproc}.

Record aeFileEvent := FileEvent {
  mask : Z;
  rfileProc : option fproc;
  wfileProc : option fproc;
  fclientData : option cdata;
}.

Record aeTimeEvent := TimeEvent {
  id : Z;
  when_sec : Z;
  when_ms : Z;
  timeProc : tproc;
  tclientData : option cdata;
}.

(** The array [events] as a map whose absent entries are unset ones, and
    the list from [timeEventHead]. *)
Record aeEventLoop := EventLoop {
  maxfd : Z;
  setsize : Z;
  timeEventNextId : Z;
  lastTime : Z;
  events : gmap Z aeFileEvent;
  timeEvents : list aeTimeEvent;
  stop : bool;
  (** called before the loop sleeps; named like the callback of a timer *)
  beforesleep : option tproc;
}.

Definition no_event : aeFileEvent := FileEvent AE_NONE None None None.

Definition event_at (el : aeEventLoop) (fd : Z) : aeFileEvent := default no_event (events el !! fd).
Definition mask_at (el : aeEventLoop) (fd : Z) : Z := mask (event_at el fd).

(** [aeCreateEventLoop(setsize)] when memory and the backend allow it. *)
Definition aeCreateEventLoop (size now : Z) : aeEventLoop :=
  EventLoop (-1) size 0 now ∅ [] false None.

Definition aeStop (el : aeEventLoop) : aeEventLoop :=
  EventLoop (maxfd el) (setsize el) (timeEventNextId el) (lastTime el) (events el) (timeEvents el) true (beforesleep el).

Definition with_events (el : aeEventLoop) (maxfd : Z) (ev : gmap Z aeFileEvent) : aeEventLoop :=
  EventLoop maxfd (setsize el) (timeEventNextId el) (lastTime el) ev (timeEvents el) (stop el) (beforesleep el).

Definition with_timers (el : aeEventLoop) (next last : Z) (tes : list aeTimeEvent) : aeEventLoop :=
  EventLoop (maxfd el) (setsize el) next last (events el) tes (stop el) (beforesleep el).

(** ** File events *)

Inductive ae_res : Type := AE_OK (el : aeEventLoop) | AE_ERR.

(** [aeApiAddEvent] of the backend: whether the kernel takes the event. *)
Variable aeApiAddEvent : aeEventLoop -> Z -> Z -> bool.

Definition aeCreateFileEvent (el : aeEventLoop) (fd m : Z) (proc : fproc) (data : option cdata)
  : option ae_res :=
  if fd >=? setsize el then Some AE_ERR
  else if fd <? 0 then None
  else
    let fe := event_at el fd in
    if negb (aeApiAddEvent el fd m) then Some AE_ERR
    else
      let fe := FileEvent (Z.lor (mask fe) m)
        (if Z.land m AE_READABLE =? 0 then rfileProc fe else Some proc)
        (if Z.land m AE_WRITABLE =? 0 then wfileProc fe else Some proc) data in
      Some (AE_OK (with_events el (if fd >? maxfd el then fd else maxfd el) (<[fd := fe]> (events el)))).

(** [for (j = maxfd-1; j >= 0; j--) if (events[j].mask != AE_NONE) break;] *)
Fixpoint scan_down (n : nat) (ev : gmap Z aeFileEvent) : Z :=
  match n with
  | O => -1
  | S n => if mask (default no_event (ev !! Z.of_nat n)) =? AE_NONE then scan_down n ev else Z.of_nat n
  end.

Definition aeDeleteFileEvent (el : aeEventLoop) (fd m : Z) : option aeEventLoop :=
  if fd >=? setsize el then Some el
  else if fd <? 0 then None
  else
    let fe := event_at el fd in
    if mask fe =? AE_NONE then Some el
    else
      let fe := FileEvent (Z.land (mask fe) (Z.lnot m)) (rfileProc fe) (wfileProc fe) (fclientData fe) in
      let ev := <[fd := fe]> (events el) in
      let max := if (fd =? maxfd el) && (mask fe =? AE_NONE)
                 then scan_down (Z.to_nat (maxfd el)) ev else maxfd el in
      Some (with_events el max ev).

Definition aeGetFileEvents (el : aeEventLoop) (fd : Z) : option Z :=
  if fd >=? setsize el then Some 0
  else if fd <? 0 then None
  else Some (mask_at el fd).

(** ** Timers *)

(** [aeAddMillisecondsToNow], the clock read being [now].  C's division and
    remainder truncate. *)
Definition aeAddMillisecondsToNow (now : Z * Z) (milliseconds : Z) : Z * Z :=
  let when_sec := now.1 + Z.quot milliseconds 1000 in
  let when_ms := now.2 + Z.rem milliseconds 1000 in
  if when_ms >=? 1000 then (when_sec + 1, when_ms - 1000) else (when_sec, when_ms).

Definition aeCreateTimeEvent (el : aeEventLoop) (now : Z * Z) (milliseconds : Z)
    (proc : tproc) (data : option cdata) : Z * aeEventLoop :=
  let id := timeEventNextId el in
  let '(s, ms) := aeAddMillisecondsToNow now milliseconds in
  (id, with_timers el (i64 (id + 1)) (lastTime el) (TimeEvent id s ms proc data :: timeEvents el)).

(** The list without its first event called [i]; [None] when there is none. *)
Fixpoint delete_timer (i : Z) (tes : list aeTimeEvent) : option (list aeTimeEvent) :=
  match tes with
  | [] => None
  | te :: tes => if id te =? i then Some tes else cons te <$> delete_timer i tes
  end.

(** [aeDeleteTimeEvent]; no event of the server has a finalizer. *)
Definition aeDeleteTimeEvent (el : aeEventLoop) (i : Z) : ae_res :=
  match delete_timer i (timeEvents el) with
  | Some tes => AE_OK (with_timers el (timeEventNextId el) (lastTime el) tes)
  | None => AE_ERR
  end.

Definition earlier (a b : aeTimeEvent) : bool :=
  (when_sec a <? when_sec b) || ((when_sec a =? when_sec b) && (when_ms a <? when_ms b)).

Fixpoint search_nearest (nearest : option aeTimeEvent) (tes : list aeTimeEvent) : option aeTimeEvent :=
  match tes with
  | [] => nearest
  | te :: tes =>
      search_nearest
        (match nearest with
         | None => Some te
         | Some n => if earlier te n then Some te else Some n
         end) tes
  end.

Definition aeSearchNearestTimer (el : aeEventLoop) : option aeTimeEvent :=
  search_nearest None (timeEvents el).

(** The timeout [aeProcessEvents] computes for the poll: seconds and
    microseconds, [None] for waiting forever. *)
Definition poll_timeout (el : aeEventLoop) (flags : Z) (now : Z * Z) : option (Z * Z) :=
  let wait := Z.land flags AE_DONT_WAIT =? 0 in
  match (if negb (Z.land flags AE_TIME_EVENTS =? 0) && wait then aeSearchNearestTimer el else None) with
  | Some te =>
      let sec := when_sec te - now.1 in
      let '(sec, usec) :=
        if when_ms te <? now.2 then (sec - 1, (when_ms te + 1000 - now.2) * 1000)
        else (sec, (when_ms te - now.2) * 1000) in
      Some (if sec <? 0 then 0 else sec, if usec <? 0 then 0 else usec)
  | None => if wait then None else Some (0, 0)
  end.

(** ** Running the callbacks *)

(** The rest of the process: what the callbacks and the clock act on. *)
Context {W : Type}.
Variable call_file : fproc -> Z -> option cdata -> Z -> aeEventLoop * W -> aeEventLoop * W.
Variable call_time : tproc -> Z -> option cdata -> aeEventLoop * W -> Z * (aeEventLoop * W).
Variable gettimeofday : W -> (Z * Z) * W.

(** One fired event [(fd, mask)]. *)
Definition dispatch (fired : Z * Z) (st : aeEventLoop * W) : option (aeEventLoop * W) :=
  let '(fd, m) := fired in
  if (fd <? 0) || (fd >=? setsize st.1) then None
  else
    let fe := event_at st.1 fd in
    let readable := negb (Z.land (Z.land (mask fe) m) AE_READABLE =? 0) in
    st' ← (if readable then p ← rfileProc fe; Some (call_file p fd (fclientData fe) m st) else Some st);
    (* the entry is read again: the callback may have changed it *)
    let fe := event_at st'.1 fd in
    if negb (Z.land (Z.land (mask fe) m) AE_WRITABLE =? 0) then
      if negb readable || bool_decide (wfileProc fe <> rfileProc fe) then
        p ← wfileProc fe; Some (call_file p fd (fclientData fe) m st')
      else Some st'
    else Some st'.

Fixpoint dispatch_all (fired : list (Z * Z)) (st : aeEventLoop * W) : option (aeEventLoop * W) :=
  match fired with
  | [] => Some st
  | f :: fired => st ← dispatch f st; dispatch_all fired st
  end.

Fixpoint reschedule (i : Z) (when : Z * Z) (tes : list aeTimeEvent) : option (list aeTimeEvent) :=
  match tes with
  | [] => None
  | te :: tes =>
      if id te =? i then Some (TimeEvent (id te) when.1 when.2 (timeProc te) (tclientData te) :: tes)
      else cons te <$> reschedule i when tes
  end.

Definition due (te : aeTimeEvent) (now : Z * Z) : bool :=
  (now.1 >? when_sec te) || ((now.1 =? when_sec te) && (now.2 >=? when_ms te)).

(** The loop of [processTimeEvents] from the list position [tes]; after a
    callback it starts again from the head.  A callback that deletes its own
    timer leaves [te] dangling: undefined. *)
Fixpoint time_loop (fuel : nat) (maxId : Z) (tes : list aeTimeEvent) (processed : Z) (st : aeEventLoop * W)
  : option (Z * (aeEventLoop * W)) :=
  match fuel with
  | O => None
  | S fuel =>
    match tes with
    | [] => Some (processed, st)
    | te :: tes =>
        if id te >? maxId then time_loop fuel maxId tes processed st
        else
          let '(now, w) := gettimeofday st.2 in
          if due te now then
            let '(retval, (el, w)) := call_time (timeProc te) (id te) (tclientData te) (st.1, w) in
            '(el, w) ←
              (if retval =? AE_NOMORE then
                 match aeDeleteTimeEvent el (id te) with AE_OK el => Some (el, w) | AE_ERR => Some (el, w) end
               else
                 let '(now, w) := gettimeofday w in
                 tes ← reschedule (id te) (aeAddMillisecondsToNow now retval) (timeEvents el);
                 Some (with_timers el (timeEventNextId el) (lastTime el) tes, w));
            time_loop fuel maxId (timeEvents el) (processed + 1) (el, w)
          else time_loop fuel maxId tes processed (st.1, w)
    end
  end.

(** [processTimeEvents]: a clock set back makes every timer due. *)
Definition processTimeEvents (fuel : nat) (st : aeEventLoop * W) : option (Z * (aeEventLoop * W)) :=
  let '((now, _), w) := gettimeofday st.2 in
  let el := st.1 in
  let tes := if now <? lastTime el
             then (fun te => TimeEvent (id te) 0 (when_ms te) (timeProc te) (tclientData te)) <$> timeEvents el
             else timeEvents el in
  let el := with_timers el (timeEventNextId el) now tes in
  time_loop fuel (timeEventNextId el - 1) tes 0 (el, w).

(** [aeProcessEvents(el, flags)], the poll being the backend's. *)
Variable aeApiPoll : aeEventLoop -> option (Z * Z) -> W -> list (Z * Z) * W.

Definition aeProcessEvents (fuel : nat) (flags : Z) (st : aeEventLoop * W)
  : option (Z * (aeEventLoop * W)) :=
  let timers := negb (Z.land flags AE_TIME_EVENTS =? 0) in
  if negb timers && (Z.land flags AE_FILE_EVENTS =? 0) then Some (0, st)
  else
    '(processed, st) ←
      (if negb (maxfd st.1 =? -1) || (timers && (Z.land flags AE_DONT_WAIT =? 0)) then
         let '(now, w) := gettimeofday st.2 in
         let '(fired, w) := aeApiPoll st.1 (poll_timeout st.1 flags now) w in
         st ← dispatch_all fired (st.1, w);
         Some (zlen fired, st)
       else Some (0, st));
    if timers then
      '(n, st) ← processTimeEvents fuel st; Some (processed + n, st)
    else Some (processed, st).

Variable call_sleep : tproc -> aeEventLoop * W -> aeEventLoop * W.

(** [aeMain] *)
Fixpoint main_loop (rounds fuel : nat) (st : aeEventLoop * W) : option (aeEventLoop * W) :=
  match rounds with
  | O => None
  | S rounds =>
      if stop st.1 then Some st
      else
        let st := match beforesleep st.1 with Some p => call_sleep p st | None => st end in
        '(_, st) ← aeProcessEvents fuel AE_ALL_EVENTS st; main_loop rounds fuel st
  end.

Definition aeMain (rounds fuel : nat) (st : aeEventLoop * W) : option (aeEventLoop * W) :=
  let el := st.1 in
  main_loop rounds fuel
    (EventLoop (maxfd el) (setsize el) (timeEventNextId el) (lastTime el) (events el) (timeEvents el) false (beforesleep el), st.2).

Definition aeSetBeforeSleepProc (el : aeEventLoop) (p : option tproc) : aeEventLoop :=
  EventLoop (maxfd el) (setsize el) (timeEventNextId el) (lastTime el) (events el) (timeEvents el) (stop el) p.
End loop.

Arguments aeFileEvent : clear implicits.
Arguments aeTimeEvent : clear implicits.
Arguments aeEventLoop : clear implicits.

(** ** The file event table *)

Section file_events.
Context {fproc tproc cdata : Type}.
Variable api : aeEventLoop fproc tproc cdata -> Z -> Z -> bool.
Notation loop := (aeEventLoop fproc tproc cdata).

Lemma event_at_insert (el : loop) m fd fe fd' :
  event_at (with_events el m (<[fd := fe]> (events el))) fd' =
    if decide (fd = fd') then fe else event_at el fd'.
Proof. unfold event_at. cbn. rewrite lookup_insert. by case_decide. Qed.

(** The loop's file event interface. *)
#[export] Instance loop_file_events : FileEvents loop fproc (option cdata) := {
  fe_get el fd := default 0 (aeGetFileEvents el fd);
  fe_create el fd m p d :=
    match aeCreateFileEvent api el fd m p d with Some (AE_OK el) => Some el | _ => None end;
  fe_delete el fd m := default el (aeDeleteFileEvent el fd m);
}.

(** The largest descriptor with an event set is [maxfd], and only
    descriptors of the table have one. *)
Record el_ok (el : loop) : Prop := {
  ok_range fd : mask_at el fd <> AE_NONE -> 0 <= fd <= maxfd el;
  ok_max : maxfd el = -1 \/ mask_at el (maxfd el) <> AE_NONE;
  ok_size : -1 <= maxfd el < setsize el;
}.

Lemma get_valid (el : loop) fd : 0 <= fd < setsize el -> fe_get el fd = mask_at el fd.
Proof.
  intros. cbn. unfold aeGetFileEvents.
  replace (fd >=? setsize el) with false by lia. by replace (fd <? 0) with false by lia.
Qed.

Lemma get_beyond (el : loop) fd : setsize el <= fd -> fe_get el fd = 0.
Proof. intros. cbn. unfold aeGetFileEvents. by replace (fd >=? setsize el) with true by lia. Qed.

Lemma create_masks (el el' : loop) fd m p d :
  aeCreateFileEvent api el fd m p d = Some (AE_OK el') ->
  0 <= fd < setsize el /\ setsize el' = setsize el /\ maxfd el' = Z.max fd (maxfd el)
  /\ forall fd', mask_at el' fd' = if decide (fd = fd') then Z.lor (mask_at el fd) m else mask_at el fd'.
Proof.
  unfold aeCreateFileEvent. destruct (fd >=? setsize el) eqn:?; [done|].
  destruct (fd <? 0) eqn:?; [done|]. destruct (api el fd m); [|done]. cbn. intros [= <-].
  split; [lia|]. split; [done|]. split; [cbn; destruct (fd >? maxfd el) eqn:?; lia|].
  intros fd'. unfold mask_at. rewrite event_at_insert. by case_decide.
Qed.

Lemma delete_masks (el : loop) fd m : 0 <= fd ->
  exists el', aeDeleteFileEvent el fd m = Some el' /\ setsize el' = setsize el
    /\ forall fd', mask_at el' fd' =
         if decide (fd = fd' /\ fd < setsize el) then Z.land (mask_at el fd) (Z.lnot m) else mask_at el fd'.
Proof.
  intros. unfold aeDeleteFileEvent. destruct (fd >=? setsize el) eqn:Hs.
  { exists el. split; [done|]. split; [done|]. intros. rewrite decide_False by lia. done. }
  replace (fd <? 0) with false by lia. destruct (mask (event_at el fd) =? AE_NONE) eqn:Hm.
  - exists el. split; [done|]. split; [done|]. intros fd'.
    destruct (decide (fd = fd' /\ fd < setsize el)) as [[-> _]|]; [|done]. apply Z.eqb_eq in Hm. unfold mask_at. by rewrite Hm.
  - eexists. split; [done|]. split; [done|]. intros fd'. unfold mask_at.
    rewrite event_at_insert. case_decide; [rewrite decide_True by lia|rewrite decide_False by tauto]; done.
Qed.

#[export] Instance loop_file_events_laws : FileEventsLaws loop fproc (option cdata).
Proof.
  split.
  - intros el fd m p d el' fd' Hf Hf' H. unfold fe_create in H. cbn in H.
    destruct (aeCreateFileEvent api el fd m p d) as [[e|]|] eqn:E; try done. injection H as ->.
    apply create_masks in E as (? & Hs & _ & Hm). rewrite (get_valid el fd) by lia.
    destruct (decide (fd' < setsize el)).
    + rewrite !get_valid, Hm by lia. done.
    + rewrite !get_beyond, decide_False by lia. done.
  - intros el fd m fd' Hf Hf'. unfold fe_delete. cbn -[fe_get].
    destruct (delete_masks el fd m Hf) as (el' & -> & Hs & Hm). cbn -[fe_get].
    destruct (decide (fd' < setsize el)).
    + rewrite !(get_valid _ fd'), Hm by lia. destruct (decide (fd = fd')) as [->|].
      * by rewrite decide_True, get_valid by lia.
      * by rewrite decide_False by tauto.
    + rewrite (get_beyond el' fd') by lia. destruct (decide (fd = fd')) as [->|].
      * by rewrite get_beyond by lia.
      * by rewrite get_beyond by lia.
Qed.

Lemma scan_down_spec n (ev : gmap Z (aeFileEvent fproc cdata)) :
  let j := scan_down n ev in
  -1 <= j < Z.of_nat n
  /\ (j = -1 \/ mask (default no_event (ev !! j)) <> AE_NONE)
  /\ forall k, j < k < Z.of_nat n -> mask (default no_event (ev !! k)) = AE_NONE.
Proof.
  induction n as [|n IH]; cbn [scan_down]; cbn zeta; [split; [lia|]; split; [by left|lia]|].
  destruct (mask (default no_event (ev !! Z.of_nat n)) =? AE_NONE) eqn:E; bool_to_prop.
  - destruct IH as (? & ? & Hk). split; [lia|]. split; [done|]. intros k ?.
    destruct (decide (k = Z.of_nat n)) as [->|]; [done|]. apply Hk. lia.
  - split; [lia|]. split; [by right|]. lia.
Qed.

Lemma maxfd_create (el el' : loop) fd m p d : el_ok el -> m <> 0 ->
  aeCreateFileEvent api el fd m p d = Some (AE_OK el') -> el_ok el'.
Proof.
  intros [Hr Hmx Hs] Hm E. apply create_masks in E as (? & Hs' & Hmax & Hmask).
  assert (Hne : Z.lor (mask_at el fd) m <> AE_NONE).
  { unfold AE_NONE. rewrite Z.lor_eq_0_iff. tauto. }
  split.
  + intros fd' Hn. rewrite Hmask in Hn. case_decide; [lia|]. specialize (Hr _ Hn). lia.
  + rewrite Hmask, Hmax. case_decide; [by right|].
    assert (Z.max fd (maxfd el) = maxfd el) as -> by lia. done.
  + lia.
Qed.

Lemma maxfd_delete (el : loop) fd m : el_ok el -> 0 <= fd -> exists el', aeDeleteFileEvent el fd m = Some el' /\ el_ok el'.
Proof.
  intros [Hr Hmx Hs] Hf. destruct (delete_masks el fd m Hf) as (el' & E & Hs' & Hmask). exists el'. split; [done|].
  unfold aeDeleteFileEvent in E. destruct (fd >=? setsize el) eqn:?; [by injection E as <-|].
  replace (fd <? 0) with false in E by lia.
  destruct (mask (event_at el fd) =? AE_NONE) eqn:?; [by injection E as <-|].
  set (fe := FileEvent _ _ _ _) in E. set (ev := <[fd := fe]> (events el)) in E.
  injection E as <-. cbn [setsize with_events] in *.
  assert (Hsub : forall k, mask_at (with_events el 0 ev) k <> AE_NONE -> mask_at el k <> AE_NONE).
  { intros k Hk Hz. apply Hk. fold (mask_at (with_events el 0 ev) k) in *.
    change (mask_at (with_events el 0 ev) k) with (mask_at (with_events el (if (fd =? maxfd el) && (mask fe =? AE_NONE) then scan_down (Z.to_nat (maxfd el)) ev else maxfd el) ev) k).
    rewrite Hmask. destruct (decide (fd = k /\ fd < setsize el)) as [[-> _]|]; [by rewrite Hz|done]. }
  change (Z.land (mask (event_at el fd)) (Z.lnot m)) with (mask fe).
  destruct ((fd =? maxfd el) && (mask fe =? AE_NONE)) eqn:Etop.
  + bool_to_prop. pose proof (scan_down_spec (Z.to_nat (maxfd el)) ev) as Hsc. cbn zeta in Hsc.
    set (j := scan_down _ ev) in *. clearbody j. destruct Hsc as (Hj & Hjm & Hjk). split; cbn.
    * intros k Hk. pose proof (Hr _ (Hsub k Hk)).
      assert (k <> fd).
      { intros ->. apply Hk. unfold mask_at, event_at. cbn. subst ev. by rewrite lookup_insert_eq. }
      split; [lia|]. destruct (decide (k <= j)); [done|].
      destruct Hk. apply Hjk. lia.
    * destruct Hjm; [by left|by right].
    * lia.
  + split; cbn; [|destruct Hmx as [?|Hmx]; [by left|right]|done].
    * intros k Hk. by apply Hr, Hsub.
    * unfold mask_at, event_at. cbn. subst ev. rewrite lookup_insert. destruct (decide (fd = maxfd el)) as [Heq|]; [|exact Hmx].
      intros Hz. rewrite (proj2 (Z.eqb_eq _ _) Heq) in Etop. cbn in Hz.
      change (mask fe = AE_NONE) in Hz. by rewrite Hz in Etop.
Qed.

(** Creating and deleting file events keeps maxfd the highest descriptor that has an event,
    and -1 when there is none, with every registered descriptor inside the table. *)
Theorem maxfd_exact (el : loop) fd m p d : el_ok el -> 0 <= fd -> m <> 0 ->
  (forall el', aeCreateFileEvent api el fd m p d = Some (AE_OK el') -> el_ok el')
  /\ exists el', aeDeleteFileEvent el fd m = Some el' /\ el_ok el'.
Proof. intros Hok Hf Hm. split; [intros el'; by apply maxfd_create|by apply maxfd_delete]. Qed.
End file_events.

(** ** Timers *)

Section timers.
Context {fproc tproc cdata : Type}.
Notation loop := (aeEventLoop fproc tproc cdata).
Notation timer := (aeTimeEvent tproc cdata).

(** A time as milliseconds; timers and clock readings keep their
    milliseconds part under 1000. *)
Definition to_ms (t : Z * Z) : Z := t.1 * 1000 + t.2.
Definition ms_ok (t : Z * Z) : Prop := 0 <= t.2 < 1000.
Definition when (te : timer) : Z * Z := (when_sec te, when_ms te).

Lemma earlier_spec (a b : timer) :
  ms_ok (when a) -> ms_ok (when b) -> earlier a b = true <-> to_ms (when a) < to_ms (when b).
Proof.
  unfold earlier, to_ms, ms_ok, when. cbn. intros.
  rewrite orb_true_iff, andb_true_iff, !Z.ltb_lt, Z.eqb_eq. lia.
Qed.

Lemma search_nearest_spec (tes : list timer) n :
  Forall (fun te => ms_ok (when te)) (n :: tes) ->
  exists te, search_nearest (Some n) tes = Some te /\ te ∈ n :: tes
    /\ Forall (fun te' => to_ms (when te) <= to_ms (when te')) (n :: tes).
Proof.
  revert n. induction tes as [|te tes IH]; intros n [Hn Hf]%Forall_cons; cbn [search_nearest].
  { exists n. split; [done|]. split; [set_solver|]. by repeat constructor. }
  apply Forall_cons in Hf as [Ht Hf]. pose proof (earlier_spec te n Ht Hn) as He.
  destruct (earlier te n).
  - destruct (IH te) as (r & -> & Hin & Hle); [by constructor|]. exists r. split; [done|].
    split; [set_solver|]. constructor; [|done]. apply Forall_cons in Hle as [? _].
    pose proof (proj1 He eq_refl). lia.
  - destruct (IH n) as (r & -> & Hin & Hle); [by constructor|]. exists r. split; [done|].
    split; [set_solver|]. apply Forall_cons in Hle as [? ?]. constructor; [done|]. constructor; [|done].
    destruct (decide (to_ms (when te) < to_ms (when n))) as [Hlt|]; [|lia].
    by apply He in Hlt.
Qed.

(** C33. The loop waits for the timer that is due first: exactly the time until it is due, as a
    valid timeval; when it is overdue the wait is the difference of the milliseconds of the two
    times modulo 1000, below a second, and zero only when these agree. *)
Theorem poll_timeout_exact (el : loop) now :
  timeEvents el <> [] -> Forall (fun te => ms_ok (when te)) (timeEvents el) -> ms_ok now ->
  exists te s us, aeSearchNearestTimer el = Some te /\ te ∈ timeEvents el
    /\ Forall (fun te' => to_ms (when te) <= to_ms (when te')) (timeEvents el)
    /\ poll_timeout el AE_ALL_EVENTS now = Some (s, us)
    /\ 0 <= s /\ 0 <= us < 1000000
    /\ (to_ms now <= to_ms (when te) -> s * 1000000 + us = (to_ms (when te) - to_ms now) * 1000)
    /\ (to_ms (when te) < to_ms now -> s = 0 /\ us = (when_ms te - now.2) mod 1000 * 1000).
Proof.
  intros Hne Hok Hnow. unfold poll_timeout. change (negb _ && _) with true. cbn [negb].
  unfold aeSearchNearestTimer. destruct (timeEvents el) as [|n tes]; [done|]. cbn [search_nearest].
  destruct (search_nearest_spec tes n Hok) as (te & -> & Hin & Hle).
  pose proof Hok as Hte. rewrite Forall_forall in Hte. specialize (Hte _ Hin).
  unfold ms_ok, to_ms, when in *. cbn [fst snd] in *.
  assert (Hmod : (when_ms te - now.2) mod 1000 =
    if when_ms te <? now.2 then when_ms te + 1000 - now.2 else when_ms te - now.2).
  { split_ifs; symmetry; [apply (Z.mod_unique_pos _ _ (-1))|apply (Z.mod_unique_pos _ _ 0)]; lia. }
  exists te. rewrite Hmod. clear Hmod.
  destruct (when_ms te <? now.2) eqn:?; bool_to_prop; do 2 eexists;
    (split; [done|]); (split; [done|]); (split; [done|]); (split; [done|]); split_ifs; lia.
Qed.

(** A new timer gets a time that is valid and exactly the given milliseconds after now, and
    is due exactly from that time on. *)
Theorem timer_fires_in_time (el : loop) now ms proc data :
  ms_ok now -> 0 <= ms ->
  let '(i, el') := aeCreateTimeEvent el now ms proc data in
  exists te, timeEvents el' = te :: timeEvents el /\ id te = i
    /\ ms_ok (when te) /\ to_ms (when te) = to_ms now + ms
    /\ forall t, ms_ok t -> due te t = true <-> to_ms now + ms <= to_ms t.
Proof.
  intros Hnow Hms. unfold aeCreateTimeEvent, aeAddMillisecondsToNow.
  pose proof (Z.quot_rem' ms 1000). pose proof (Z.rem_bound_pos ms 1000 Hms eq_refl).
  unfold ms_ok, to_ms, due, when in *.
  destruct (now.2 + Z.rem ms 1000 >=? 1000) eqn:E; cbn; eexists; (split; [done|]); cbn;
    (split; [done|]); (split; [lia|]); (split; [lia|]); intros t Ht;
    rewrite orb_true_iff, andb_true_iff, Z.gtb_ltb, Z.ltb_lt, Z.eqb_eq, Z.geb_le; lia.
Qed.
End timers.

(** ** Instances of the theorems on concrete loops *)

Lemma el_ok_create {fproc tproc cdata} size now : 0 <= size ->
  el_ok (aeCreateEventLoop size now : aeEventLoop fproc tproc cdata).
Proof.
  intros. split; cbn; [|by left|lia].
  intros fd Hm. exfalso. apply Hm. unfold mask_at, event_at. cbn. by rewrite lookup_empty.
Qed.

Lemma maxfd_exact_witness :
  let el := aeCreateEventLoop 16 0 : aeEventLoop nat nat nat in
  (forall el', aeCreateFileEvent (fun _ _ _ => true) el 7 AE_READABLE 1%nat None = Some (AE_OK el') -> el_ok el')
  /\ exists el', aeDeleteFileEvent el 7 AE_READABLE = Some el' /\ el_ok el'.
Proof.
  apply (maxfd_exact (fun _ _ _ => true) (aeCreateEventLoop 16 0) 7 AE_READABLE 1%nat None);
    [by apply el_ok_create|lia|done].
Defined.

Definition two_timers : aeEventLoop nat nat nat :=
  with_timers (aeCreateEventLoop 16 0) 2 0 [TimeEvent 0 5 300 0%nat None; TimeEvent 1 9 0 0%nat None].

Lemma poll_timeout_exact_witness :
  exists te s us, aeSearchNearestTimer two_timers = Some te /\ te ∈ timeEvents two_timers
    /\ Forall (fun te' => to_ms (when te) <= to_ms (when te')) (timeEvents two_timers)
    /\ poll_timeout two_timers AE_ALL_EVENTS (10, 0) = Some (s, us)
    /\ 0 <= s /\ 0 <= us < 1000000
    /\ (to_ms (10, 0) <= to_ms (when te) -> s * 1000000 + us = (to_ms (when te) - to_ms (10, 0)) * 1000)
    /\ (to_ms (when te) < to_ms (10, 0) -> s = 0 /\ us = (when_ms te - 0) mod 1000 * 1000).
Proof.
  apply (poll_timeout_exact two_timers (10, 0)); [discriminate| |unfold ms_ok; cbn; lia].
  repeat constructor; cbn; lia.
Defined.

Lemma timer_fires_in_time_witness :
  let '(i, el') := aeCreateTimeEvent two_timers (10, 950) 5100 3%nat None in
  exists te, timeEvents el' = te :: timeEvents two_timers /\ id te = i
    /\ ms_ok (when te) /\ to_ms (when te) = to_ms (10, 950) + 5100
    /\ forall t, ms_ok t -> due te t = true <-> to_ms (10, 950) + 5100 <= to_ms t.
Proof. apply (timer_fires_in_time two_timers (10, 950) 5100 3%nat None); [unfold ms_ok; cbn; lia|lia]. Defined.
