(* ===== verification/Client.v ===== *)
(** * client.cc, pubsub.cc: a client's connection and its commands

    The handlers run in the thread of the client's worker.  They act on the
    connection, on the tables of the worker and, through the interface below,
    on the master; each is a function on these three.  A dereference of a
    table's [end()] is an undefined outcome ([None]). *)

From S2P Require Import Prelude Common Util EventLoop Protocol.

(** ** Interfaces *)

(** The callbacks registered in a worker's loop. *)
Inductive fproc : Type := ReadRequestProc | SendReplyProc | NewConnectionProc | NewMessageProc.

#[export] Instance fproc_eq_dec : EqDecision fproc.
Proof. solve_decision. Defined.

(** A client, as a pointer. *)
Abbreviation cid := positive (only parsing).

(** What the handlers ask of the master. *)
Class MasterOps (M : Type) := {
  PutMessage : M -> bytes -> bytes -> nat -> bool * M;
  RemoveClient : M -> bytes -> M;
  Terminate : M -> M;
  master_stat : M -> Statistic;
}.

(** A message whose texts are arguments the parser accepts. *)
Definition short_message (m : bytes * bytes) : Prop := short m.1 /\ short m.2.

(** One call of the master by worker [i]. *)
Inductive master_move {M : Type} `{MasterOps M} (i : nat) : M -> M -> Prop :=
| move_put m topic content : short_message (topic, content) -> master_move i m (snd (PutMessage m topic content i))
| move_remove m ip : master_move i m (RemoveClient m ip)
| move_stop m : master_move i m (Terminate m).

(** ** State *)

(** The fields of a [Client] other than those of the request parser. *)
Record connection := Conn {
  this : cid;
  fd_ : Z;
  rep_ : bytes;
  sentlen_ : Z;
  close_after_reply : bool;
  close_asap : bool;
  last_active_ : Z;
  last_soft_limit_ : Z;
  last_cmd_ : bytes;
  sub_topics_ : gset bytes;
  sub_patterns_ : gset bytes;
}.

Definition with_rep (c : connection) (rep : bytes) (sent : Z) : connection :=
  Conn (this c) (fd_ c) rep sent (close_after_reply c) (close_asap c) (last_active_ c)
    (last_soft_limit_ c) (last_cmd_ c) (sub_topics_ c) (sub_patterns_ c).
Definition with_flags (c : connection) (after asap : bool) : connection :=
  Conn (this c) (fd_ c) (rep_ c) (sentlen_ c) after asap (last_active_ c)
    (last_soft_limit_ c) (last_cmd_ c) (sub_topics_ c) (sub_patterns_ c).
Definition with_times (c : connection) (active soft : Z) : connection :=
  Conn (this c) (fd_ c) (rep_ c) (sentlen_ c) (close_after_reply c) (close_asap c) active
    soft (last_cmd_ c) (sub_topics_ c) (sub_patterns_ c).
Definition with_last_cmd (c : connection) (cmd : bytes) : connection :=
  Conn (this c) (fd_ c) (rep_ c) (sentlen_ c) (close_after_reply c) (close_asap c) (last_active_ c)
    (last_soft_limit_ c) cmd (sub_topics_ c) (sub_patterns_ c).
Definition with_subs (c : connection) (ts ps : gset bytes) : connection :=
  Conn (this c) (fd_ c) (rep_ c) (sentlen_ c) (close_after_reply c) (close_asap c) (last_active_ c)
    (last_soft_limit_ c) (last_cmd_ c) ts ps.

(** The fields of a [Worker] its clients act on.  [clients_by_topic_] hashes
    by content; the order of its keys is never used. *)
Record worker {EL : Type} := Worker {
  worker_id_ : nat;
  eventl_ : EL;
  stat_ : Statistic;
  clients_ : list cid;
  clients_to_close_ : list cid;
  clients_by_topic_ : gmap bytes (list cid);
  pubsub_patterns_ : list (bytes * cid);
}.
Arguments worker : clear implicits.

Definition with_eventl {EL} (w : worker EL) (el : EL) : worker EL :=
  Worker _ (worker_id_ w) el (stat_ w) (clients_ w) (clients_to_close_ w) (clients_by_topic_ w) (pubsub_patterns_ w).
Definition with_stat {EL} (w : worker EL) (s : Statistic) : worker EL :=
  Worker _ (worker_id_ w) (eventl_ w) s (clients_ w) (clients_to_close_ w) (clients_by_topic_ w) (pubsub_patterns_ w).
Definition with_clients {EL} (w : worker EL) (cs close : list cid) : worker EL :=
  Worker _ (worker_id_ w) (eventl_ w) (stat_ w) cs close (clients_by_topic_ w) (pubsub_patterns_ w).
Definition with_topics {EL} (w : worker EL) (ts : gmap bytes (list cid)) : worker EL :=
  Worker _ (worker_id_ w) (eventl_ w) (stat_ w) (clients_ w) (clients_to_close_ w) ts (pubsub_patterns_ w).
Definition with_patterns {EL} (w : worker EL) (ps : list (bytes * cid)) : worker EL :=
  Worker _ (worker_id_ w) (eventl_ w) (stat_ w) (clients_ w) (clients_to_close_ w) (clients_by_topic_ w) ps.

(** [Worker::FreeClientAsync]. *)
Definition FreeClientAsync {EL} (w : worker EL) (c : cid) : worker EL :=
  if decide (c ∈ clients_ w) then
    with_clients w (filter (fun x => x <> c) (clients_ w)) (clients_to_close_ w ++ [c])
  else w.

(** What a handler acts on. *)
Record st {EL M : Type} := St {
  conn : connection;
  wk : worker EL;
  ms : M;
}.
Arguments st : clear implicits.
Arguments St {EL M}.

(** The facts INFO reports that the process asks the system for. *)
Record info_env := InfoEnv {
  version : bytes;
  hostname : bytes;
  api_name : bytes;
  pid : Z;
  rss : Z;
  cpu_sys : bytes;
  cpu_user : bytes;
  (** what an uninitialised [char[64]] holds when [bytesToHuman] writes nothing *)
  stack_junk : bytes;
}.

Section handlers.
Context {EL M : Type} `{FileEvents EL fproc cid} `{MasterOps M}.
Variable cfg : Config.
Variable unixtime : Z.
Variable env : info_env.
(** [*set.begin()] of a non-empty unordered set. *)
Variable set_begin : gset bytes -> bytes.

Notation st := (st EL M).
Definition on_conn (f : connection -> connection) (s : st) : st := St (f (conn s)) (wk s) (ms s).
Definition on_worker (f : worker EL -> worker EL) (s : st) : st := St (conn s) (f (wk s)) (ms s).

(** ** Replies *)

(** [SetWriteEvent]: [None] is [false]. *)
Definition SetWriteEvent (s : st) : option st :=
  if fd_ (conn s) <=? 0 then None
  else if negb (sentlen_ (conn s) =? 0) then None
  else
    el ← fe_create (eventl_ (wk s)) (fd_ (conn s)) AE_WRITABLE SendReplyProc (this (conn s));
    Some (on_worker (fun w => with_eventl w el) s).

(** [CheckOutputBufferLimits]; sizes compare as unsigned. *)
Definition CheckOutputBufferLimits (c : connection) : bool * connection :=
  let type := if negb (bool_decide (sub_topics_ c = ∅)) || negb (bool_decide (sub_patterns_ c = ∅))
              then NLIMIT_PUBSUB else NLIMIT_NORMAL in
  let l := nlimit cfg type in
  let over limit := negb (limit =? 0) && (zlen (rep_ c) >=? u32 limit) in
  let hard := over (hard_limit_bytes l) in
  if over (soft_limit_bytes l) then
    if last_soft_limit_ c =? 0 then (hard, with_times c (last_active_ c) unixtime)
    else (negb (unixtime - last_soft_limit_ c <=? soft_limit_seconds l) || hard, c)
  else (hard, with_times c (last_active_ c) 0).

Definition AsyncCloseOnOutputBufferLimitsReached (s : st) : st :=
  if close_asap (conn s) then s
  else
    let '(reached, c) := CheckOutputBufferLimits (conn s) in
    let s := St c (wk s) (ms s) in
    if reached then
      on_worker (fun w => FreeClientAsync w (this c))
        (on_conn (fun c => with_flags c (close_after_reply c) true) s)
    else s.

(** The guards all replies share, what is appended to [rep_], and the check
    of the limits. *)
Definition reply_with (text : bytes) (s : st) : st :=
  if close_after_reply (conn s) then s
  else
    match SetWriteEvent s with
    | None => s
    | Some s =>
        AsyncCloseOnOutputBufferLimitsReached
          (on_conn (fun c => with_rep c (rep_ c ++ text) (sentlen_ c)) s)
    end.

Definition Reply (data : bytes) : st -> st := reply_with data.
Definition ReplyBulk (data : bytes) : st -> st :=
  reply_with ("$"%char :: ll_text (zlen data) ++ crlf ++ data ++ crlf).
(** [append_vaprintf] appends the formatted text up to its first NUL. *)
Definition ReplyBulkFormat (text : bytes) : st -> st :=
  let buf := cstr text in reply_with ("$"%char :: ll_text (zlen buf) ++ crlf ++ buf ++ crlf).
Definition ReplyStatusFormat (text : bytes) : st -> st :=
  reply_with ("+"%char :: cstr text ++ crlf).
Definition ReplyErrorFormat (text : bytes) : st -> st :=
  reply_with (bs "-ERR " ++ cstr text ++ crlf).
Definition ReplyLongLong (ll : Z) : st -> st :=
  if ll =? 0 then Reply REP_CZERO
  else if ll =? 1 then Reply REP_CONE
  else Reply (":"%char :: ll2string 127 ll ++ crlf).

(** ** Messages of the subscriptions *)

Definition ReceiveMessage (topic content : bytes) (s : st) : st :=
  ReplyBulk content (ReplyBulk topic (Reply REP_MESSAGEBULK (Reply REP_MBULK3 s))).

Definition ReceivePatternMessage (topic content pattern : bytes) (s : st) : st :=
  ReplyBulk content (ReplyBulk topic (ReplyBulk pattern
    (Reply REP_PMESSAGEBULK (Reply REP_MBULK4 s)))).

(** [sub_topics_.size() + sub_patterns_.size()] *)
Definition sub_count (c : connection) : Z :=
  Z.of_nat (size (sub_topics_ c) + size (sub_patterns_ c)).

Definition notify_subscription (kind name : bytes) (s : st) : st :=
  let s := ReplyBulk name (Reply kind (Reply REP_MBULK3 s)) in
  ReplyLongLong (sub_count (conn s)) s.

(** ** Subscriptions (pubsub.cc) *)

(** One iteration of [ProcessSubscribe]. *)
Definition subscribe_topic (topic : bytes) (s : st) : st :=
  let s :=
    if decide (topic ∈ sub_topics_ (conn s)) then s
    else
      let s := on_conn (fun c => with_subs c ({[topic]} ∪ sub_topics_ c) (sub_patterns_ c)) s in
      let me := this (conn s) in
      on_worker (fun w =>
        with_topics w
          (match clients_by_topic_ w !! topic with
           | None => <[topic := [me]]> (clients_by_topic_ w)
           | Some l => <[topic := l ++ [me]]> (clients_by_topic_ w)
           end)) s in
  notify_subscription REP_SUBSCRIBEBULK topic s.

Definition ProcessSubscribe (argv : list bytes) (s : st) : st :=
  if zlen argv <? 2 then ReplyErrorFormat (bs "wrong number of arguments for 'subscribe' command") s
  else fold_left (fun s t => subscribe_topic t s) (tail argv) s.

(** One iteration of [ProcessPSubscribe]. *)
Definition subscribe_pattern (pattern : bytes) (s : st) : st :=
  let s :=
    if decide (pattern ∈ sub_patterns_ (conn s)) then s
    else
      let s := on_conn (fun c => with_subs c (sub_topics_ c) ({[pattern]} ∪ sub_patterns_ c)) s in
      let me := this (conn s) in
      on_worker (fun w => with_patterns w (pubsub_patterns_ w ++ [(pattern, me)])) s in
  notify_subscription REP_PSUBSCRIBEBULK pattern s.

Definition ProcessPSubscribe (argv : list bytes) (s : st) : st :=
  if zlen argv <? 2 then ReplyErrorFormat (bs "wrong number of arguments for 'psubscribe' command") s
  else fold_left (fun s p => subscribe_pattern p s) (tail argv) s.

Definition UnsubscribeTopic (notify : bool) (topic : bytes) (s : st) : option st :=
  let s := if notify then notify_subscription REP_UNSUBSCRIBEBULK topic s else s in
  if decide (topic ∈ sub_topics_ (conn s)) then
    let me := this (conn s) in
    l ← clients_by_topic_ (wk s) !! topic;
    let s := on_conn (fun c => with_subs c (sub_topics_ c ∖ {[topic]}) (sub_patterns_ c)) s in
    let l := filter (fun x => x <> me) l in
    Some (on_worker (fun w =>
      with_topics w (if decide (l = []) then delete topic (clients_by_topic_ w)
                     else <[topic := l]> (clients_by_topic_ w))) s)
  else Some s.

(** Erases the first entry for [(pattern, me)]. *)
Fixpoint erase_pattern (pattern : bytes) (me : cid) (ps : list (bytes * cid)) : list (bytes * cid) :=
  match ps with
  | [] => []
  | p :: ps => if SdsEqual p.1 pattern && bool_decide (p.2 = me) then ps
               else p :: erase_pattern pattern me ps
  end.

Definition UnsubscribePattern (notify : bool) (pattern : bytes) (s : st) : option st :=
  let s := if notify then notify_subscription REP_PUNSUBSCRIBEBULK pattern s else s in
  if decide (pattern ∈ sub_patterns_ (conn s)) then
    let me := this (conn s) in
    let s := on_worker (fun w => with_patterns w (erase_pattern pattern me (pubsub_patterns_ w))) s in
    Some (on_conn (fun c => with_subs c (sub_topics_ c) (sub_patterns_ c ∖ {[pattern]})) s)
  else Some s.

(** [while (sub_topics_.size() > 0) UnsubscribeTopic( *sub_topics_.begin(), notify)];
    the size of the set bounds the fuel. *)
Fixpoint unsubscribe_topics (fuel : nat) (notify : bool) (s : st) : option st :=
  if decide (sub_topics_ (conn s) = ∅) then Some s
  else
    match fuel with
    | O => None
    | S fuel => s ← UnsubscribeTopic notify (set_begin (sub_topics_ (conn s))) s;
                unsubscribe_topics fuel notify s
    end.

Definition UnsubscribeAllTopics (notify : bool) (s : st) : option st :=
  unsubscribe_topics (size (sub_topics_ (conn s))) notify s.

Fixpoint unsubscribe_patterns (fuel : nat) (notify : bool) (s : st) : option st :=
  if decide (sub_patterns_ (conn s) = ∅) then Some s
  else
    match fuel with
    | O => None
    | S fuel => s ← UnsubscribePattern notify (set_begin (sub_patterns_ (conn s))) s;
                unsubscribe_patterns fuel notify s
    end.

Definition UnsubscribeAllPatterns (notify : bool) (s : st) : option st :=
  unsubscribe_patterns (size (sub_patterns_ (conn s))) notify s.

Fixpoint for_args (f : bytes -> st -> option st) (args : list bytes) (s : st) : option st :=
  match args with
  | [] => Some s
  | a :: args => s ← f a s; for_args f args s
  end.

Definition ProcessUnSubscribe (notify : bool) (argv : list bytes) (s : st) : option st :=
  if zlen argv >? 1 then for_args (UnsubscribeTopic notify) (tail argv) s
  else UnsubscribeAllTopics notify s.

Definition ProcessPUnSubscribe (notify : bool) (argv : list bytes) (s : st) : option st :=
  if zlen argv >? 1 then for_args (UnsubscribePattern notify) (tail argv) s
  else UnsubscribeAllPatterns notify s.

(** ** INFO *)

Definition info_line (name : bytes) (value : bytes) : bytes := name ++ ":"%char :: value ++ crlf.
Definition num (n : Z) : bytes := ll_text n.
Definition human (n : Z) : bytes := cstr (default (stack_junk env) (bytesToHuman n)).

Definition info_server (stat : Statistic) : bytes :=
  let uptime := unixtime - start_time stat in
  bs "# Server" ++ crlf
  ++ info_line (bs "kids_version") (version env ++ bs " 64bit")
  ++ info_line (bs "server_hostname") (cstr (hostname env))
  ++ info_line (bs "multiplexing_api") (api_name env)
  ++ info_line (bs "process_id") (num (pid env))
  ++ info_line (bs "tcp_port") (num (listen_port cfg))
  ++ info_line (bs "unix_socket") (cstr (listen_socket cfg))
  ++ info_line (bs "uptime_in_seconds") (num (i32 uptime))
  ++ info_line (bs "uptime_in_days") (num (i32 (Z.quot uptime (3600 * 24))))
  ++ info_line (bs "connected_clients") (num (i32 (nclients stat))).

Definition info_messages (stat : Statistic) : bytes :=
  bs "# Messages" ++ crlf
  ++ info_line (bs "message_in") (num (msg_in stat))
  ++ info_line (bs "message_in_traffic") (num (msg_in_traffic stat))
  ++ info_line (bs "message_in_traffic_human") (human (msg_in_traffic stat))
  ++ info_line (bs "message_in_per_second") (num (msg_in_ps stat))
  ++ info_line (bs "message_in_traffic_per_second") (num (msg_in_traffic_ps stat))
  ++ info_line (bs "message_in_traffic_per_second_human") (human (msg_in_traffic_ps stat))
  ++ info_line (bs "message_out") (num (msg_out stat))
  ++ info_line (bs "message_out_traffic") (num (msg_out_traffic stat))
  ++ info_line (bs "message_out_traffic_human") (human (msg_out_traffic stat))
  ++ info_line (bs "message_out_per_second") (num (msg_out_ps stat))
  ++ info_line (bs "message_out_traffic_per_second") (num (msg_out_traffic_ps stat))
  ++ info_line (bs "message_out_traffic_per_second_human") (human (msg_out_traffic_ps stat))
  ++ info_line (bs "message_in_queue") (num (msg_in_queue stat))
  ++ info_line (bs "queue_mem_size") (num (queue_mem_size stat))
  ++ info_line (bs "queue_mem_size_human") (human (queue_mem_size stat))
  ++ info_line (bs "message_store") (num (msg_store stat))
  ++ info_line (bs "message_store_size") (num (msg_store_size stat))
  ++ info_line (bs "message_store_size_human") (human (msg_store_size stat))
  ++ info_line (bs "message_buffer") (num (msg_buffer stat))
  ++ info_line (bs "message_buffer_size") (num (msg_buffer_size stat))
  ++ info_line (bs "message_buffer_size_human") (human (msg_buffer_size stat))
  ++ info_line (bs "message_drop") (num (msg_drop stat))
  ++ info_line (bs "pubsub_topics") (num (topics stat))
  ++ info_line (bs "pubsub_patterns") (num (patterns stat)).

Definition info_resource : bytes :=
  bs "# Resource" ++ crlf
  ++ info_line (bs "used_memory_rss") (num (rss env / 1024))
  ++ info_line (bs "used_memory_rss_human") (human (rss env))
  ++ info_line (bs "used_cpu_sys") (cpu_sys env)
  ++ info_line (bs "used_cpu_user") (cpu_user env).

(** Each section is preceded by an empty line if another came before it;
    every [append_printf] stops at the first NUL of its text. *)
Definition info_append (wanted : bool) (text : bytes) (buf : nat * bytes) : nat * bytes :=
  if wanted then
    (S (fst buf), snd buf ++ (if decide (fst buf = 0%nat) then [] else crlf) ++ cstr text)
  else buf.

Definition info_text (argv : list bytes) (stat : Statistic) : bytes :=
  let all := zlen argv =? 1 in
  let section := nth 1 argv [] in
  let sec s := strcaseeq section (bs s) in
  snd (info_append (all || sec "resource"%string || sec "res"%string) info_resource
    (info_append (all || sec "message"%string || sec "msg"%string) (info_messages stat)
      (info_append (all || sec "server"%string) (info_server stat) (0%nat, [])))).

Definition ProcessInfo (argv : list bytes) (s : st) : st :=
  ReplyBulk (info_text argv (master_stat (ms s))) s.

(** ** Commands *)

Definition ProcessQuit (s : st) : st :=
  on_conn (fun c => with_flags c true (close_asap c)) (Reply REP_OK s).

Definition ProcessPing : st -> st := Reply REP_PONG.

Definition ProcessShutdown (s : st) : st := St (conn s) (wk s) (Terminate (ms s)).

Definition ProcessLog (argv : list bytes) (s : st) : st :=
  match argv with
  | [_; topic; content] =>
      let s := on_worker (fun w => with_stat w (stat_in (stat_ w) (zlen topic + zlen content))) s in
      let '(ok, m) := PutMessage (ms s) topic content (worker_id_ (wk s)) in
      let s := St (conn s) (wk s) m in
      if ok then Reply REP_CONE s else ReplyErrorFormat (bs "Some thing bad happens!") s
  | _ => ReplyErrorFormat (bs "invalid argments of log") s
  end.

Definition redis_cmd : list bytes := map bs
  ["get"; "set"; "setnx"; "setex"; "psetex"; "append"; "strlen"; "del"; "exists"; "setbit";
   "getbit"; "setrange"; "getrange"; "substr"; "incr"; "decr"; "mget"; "rpush"; "lpush";
   "rpushx"; "lpushx"; "linsert"; "rpop"; "lpop"; "brpop"; "brpoplpush"; "blpop"; "llen";
   "lindex"; "lset"; "lrange"; "ltrim"; "lrem"; "rpoplpush"; "sadd"; "srem"; "smove";
   "sismember"; "scard"; "spop"; "srandmember"; "sinter"; "sinterstore"; "sunion";
   "sunionstore"; "sdiff"; "sdiffstore"; "smembers"; "zadd"; "zincrby"; "zrem";
   "zremrangebyscore"; "zremrangebyrank"; "zunionstore"; "zinterstore"; "zrange";
   "zrangebyscore"; "zrevrangebyscore"; "zcount"; "zrevrange"; "zcard"; "zscore"; "zrank";
   "zrevrank"; "hset"; "hsetnx"; "hget"; "hmset"; "hmget"; "hincrby"; "hincrbyfloat"; "hdel";
   "hlen"; "hkeys"; "hvals"; "hgetall"; "hexists"; "incrby"; "decrby"; "incrbyfloat";
   "getset"; "mset"; "msetnx"; "randomkey"; "select"; "move"; "rename"; "renamenx"; "expire";
   "expireat"; "pexpire"; "pexpireat"; "keys"; "dbsize"; "auth"; "ping"; "echo"; "save";
   "bgsave"; "bgrewriteaof"; "shutdown"; "lastsave"; "type"; "multi"; "exec"; "discard";
   "sync"; "flushdb"; "flushall"; "sort"; "info"; "monitor"; "ttl"; "pttl"; "persist";
   "slaveof"; "debug"; "config"; "subscribe"; "unsubscribe"; "psubscribe"; "punsubscribe";
   "publish"; "watch"; "unwatch"; "cluster"; "restore"; "migrate"; "asking"; "dump"; "object";
   "client"; "eval"; "evalsha"; "slowlog"; "script"]%string.

Definition ProcessOther (argv : list bytes) (s : st) : st :=
  let cmd := nth 0 argv [] in
  if existsb (fun c => strcaseeq c cmd) redis_cmd then
    ReplyErrorFormat (bs "Sorry this is KIDS but not Redis, '" ++ cstr cmd ++ bs "' is not supported") s
  else ReplyErrorFormat (bs "Unknown command '" ++ cstr cmd ++ bs "'") s.

(** The commands, in the order in which [ProcessCommand] compares them. *)
Definition run_command (argv : list bytes) (s : st) : option st :=
  let cmd name := strcaseeq (nth 0 argv []) (bs name) in
  if cmd "ping"%string then Some (ProcessPing s)
  else if cmd "info"%string then Some (ProcessInfo argv s)
  else if cmd "publish"%string || cmd "log"%string then Some (ProcessLog argv s)
  else if cmd "subscribe"%string then Some (ProcessSubscribe argv s)
  else if cmd "psubscribe"%string then Some (ProcessPSubscribe argv s)
  else if cmd "unsubscribe"%string then ProcessUnSubscribe true argv s
  else if cmd "punsubscribe"%string then ProcessPUnSubscribe true argv s
  else if cmd "shutdown"%string then Some (ProcessShutdown s)
  else if cmd "select"%string then Some (Reply REP_OK s)
  else if cmd "hello"%string then Some (ReplyStatusFormat (bs "World!") s)
  else Some (ProcessOther argv s).

(** [ProcessCommand]: its result and the state it leaves. *)
Definition ProcessCommand (argv : list bytes) (s : st) : option (bool * st) :=
  if strcaseeq (nth 0 argv []) (bs "quit") then Some (false, ProcessQuit s)
  else
    s ← run_command argv s;
    Some (true, on_conn (fun c => with_last_cmd c (cstr (nth 0 argv []))) s).

(** ** The request loop *)

(** A client: its input buffer, the progress of its parser, and the rest. *)
Definition ProcessProtocolError (reply : option bytes) (s : st) : st :=
  let s := match reply with Some text => ReplyErrorFormat text s | None => s end in
  on_conn (fun c => with_flags c true (close_asap c)) s.

(** [ProcessRequestBuffer].  Every successful parse takes at least two bytes
    from the buffer, so its length bounds the fuel. *)
Fixpoint request_loop (fuel : nat) (req : bytes) (ps : pstate) (s : st) : option (bytes * pstate * st) :=
  match req with
  | [] => Some ([], ps, s)
  | _ =>
      if close_after_reply (conn s) then Some (req, ps, s)
      else
        match fuel with
        | O => None
        | S fuel =>
            match ParseRequestBuffer ps req with
            | PFalse ps req => Some (req, ps, s)
            | PError ps reply req => Some (req, ps, ProcessProtocolError reply s)
            | PTrue ps req =>
                match argv_ ps with
                | [] => request_loop fuel req pstate0 s
                | argv =>
                    '(reset, s) ← ProcessCommand argv s;
                    request_loop fuel req (if reset : bool then pstate0 else ps) s
                end
            end
        end
  end.

Definition ProcessRequestBuffer (req : bytes) (ps : pstate) (s : st) : option (bytes * pstate * st) :=
  request_loop (length req) req ps s.

(** ** The end of a client *)

(** [~Client]; [ip] is the peer's address. *)
Definition destroy (ip : bytes) (s : st) : option st :=
  let fd := fd_ (conn s) in
  let s := on_worker (fun w => with_eventl w
    (fe_delete (fe_delete (eventl_ w) fd AE_READABLE) fd AE_WRITABLE)) s in
  let s := if max_clients cfg =? 0 then s else St (conn s) (wk s) (RemoveClient (ms s) ip) in
  s ← UnsubscribeAllTopics false s;
  UnsubscribeAllPatterns false s.
End handlers.

(** ** What every handler leaves alone

    [frame s s'] relates the states before and after any handler: it only
    appends to the output of its client, registers a write event whenever it
    does, never clears a closing flag, and touches no other client's events. *)

Section frame.
Context {EL M : Type} `{!FileEvents EL fproc cid} `{!FileEventsLaws EL fproc cid} `{!MasterOps M}.
Variable cfg : Config.
Variable unixtime : Z.
Variable env : info_env.
Variable set_begin : gset bytes -> bytes.
Notation st := (st EL M).

(** The loop calls [SendReply] when the socket takes more. *)
Definition writable (s : st) : Prop :=
  Z.land (fe_get (eventl_ (wk s)) (fd_ (conn s))) AE_WRITABLE <> 0.

(** A client is queued for closing at most once, and is then no longer
    listed as connected. *)
Definition queued (s : st) : Prop :=
  this (conn s) ∉ clients_ (wk s) /\ this (conn s) ∈ clients_to_close_ (wk s).

Record frame (s s' : st) : Prop := {
  fr_fd : fd_ (conn s') = fd_ (conn s);
  fr_this : this (conn s') = this (conn s);
  fr_sent : sentlen_ (conn s') = sentlen_ (conn s);
  fr_active : last_active_ (conn s') = last_active_ (conn s);
  fr_id : worker_id_ (wk s') = worker_id_ (wk s);
  fr_rep : exists text, rep_ (conn s') = rep_ (conn s) ++ text
    /\ (text <> [] -> writable s') /\ (text <> [] -> sentlen_ (conn s) = 0)
    /\ (text <> [] -> close_after_reply (conn s) = false);
  fr_writable : writable s -> writable s';
  fr_after : close_after_reply (conn s) = true -> close_after_reply (conn s') = true;
  fr_events : 0 < fd_ (conn s) -> forall fd, 0 <= fd -> fd <> fd_ (conn s) ->
    fe_get (eventl_ (wk s')) fd = fe_get (eventl_ (wk s)) fd;
  fr_close :
    (close_asap (conn s') = close_asap (conn s) /\ clients_ (wk s') = clients_ (wk s)
      /\ clients_to_close_ (wk s') = clients_to_close_ (wk s))
    \/ (close_asap (conn s) = false /\ close_asap (conn s') = true
        /\ clients_ (wk s') = filter (fun x => x <> this (conn s)) (clients_ (wk s))
        /\ clients_to_close_ (wk s') =
             if decide (this (conn s) ∈ clients_ (wk s))
             then clients_to_close_ (wk s) ++ [this (conn s)] else clients_to_close_ (wk s));
  fr_master : rtc (master_move (worker_id_ (wk s))) (ms s) (ms s');
}.

Lemma frame_refl s : frame s s.
Proof. split; try done; [|by left]. exists []. by rewrite app_nil_r. Qed.

Lemma frame_trans s1 s2 s3 : frame s1 s2 -> frame s2 s3 -> frame s1 s3.
Proof.
  intros [Hfd Hth Hse Hac Hid (t1 & Hr & Hw & Hs & Ha) Hwr Haf Hev Hcl Hms]
         [Hfd' Hth' Hse' Hac' Hid' (t2 & Hr' & Hw' & Hs' & Ha') Hwr' Haf' Hev' Hcl' Hms'].
  rewrite Hid in Hms'. split; [congruence..| |tauto|tauto| | |by etrans].
  - exists (t1 ++ t2). rewrite Hr', Hr, app_assoc. split; [done|].
    assert (t1 ++ t2 <> [] -> t1 <> [] \/ t2 <> []) as Hor by (destruct t1; [by right|by left]).
    split; [intros [?|?]%Hor; auto|]. split; intros [?|?]%Hor; auto; [by rewrite <- Hse; auto|].
    destruct (close_after_reply (conn s1)); [|done]. rewrite Haf in Ha'; auto.
  - intros Hpos fd Hf Hne. rewrite Hev', Hev; congruence || auto.
  - rewrite Hth in Hcl'. destruct Hcl as [(Ha1 & Hc1 & Hd1)|(Ha1 & Hb1 & Hc1 & Hd1)],
      Hcl' as [(Ha2 & Hc2 & Hd2)|(Ha2 & Hb2 & Hc2 & Hd2)]; [left|right|right|congruence];
      rewrite <- ?Hc1, <- ?Hd1; split_and!; congruence.
Qed.

#[export] Instance frame_preorder : PreOrder frame.
Proof. split; [exact frame_refl|exact frame_trans]. Qed.

Lemma CheckOutputBufferLimits_conn c :
  exists soft, (CheckOutputBufferLimits cfg unixtime c).2 = with_times c (last_active_ c) soft.
Proof.
  unfold CheckOutputBufferLimits. destruct (_ && _); [|by eexists].
  destruct (_ =? 0); [by eexists|]. exists (last_soft_limit_ c). by destruct c.
Qed.

Lemma frame_limits s : frame s (AsyncCloseOnOutputBufferLimitsReached cfg unixtime s).
Proof.
  unfold AsyncCloseOnOutputBufferLimitsReached. destruct (close_asap (conn s)) eqn:Ea; [apply frame_refl|].
  destruct (CheckOutputBufferLimits_conn (conn s)) as [soft Hs].
  destruct (CheckOutputBufferLimits cfg unixtime (conn s)) as [reached c]. cbn in Hs. subst c.
  assert (forall c, frame s (St (with_flags (with_times (conn s) (last_active_ (conn s)) soft)
            (close_after_reply (conn s)) c) (wk s) (ms s)) \/ c = true) as Hq.
  { intros [|]; [by right|left]. split; try done; [exists []; by rewrite app_nil_r|by left]. }
  destruct reached.
  - split; try done; cbn.
    + unfold FreeClientAsync. by case_decide.
    + exists []. by rewrite app_nil_r.
    + unfold writable, FreeClientAsync. cbn. by case_decide.
    + intros _ fd ? ?. unfold FreeClientAsync. by case_decide.
    + right. split; [done|]. split; [done|]. unfold FreeClientAsync. case_decide as Hin; [done|].
      split; [|done]. by rewrite filter_ne_notin.
  - destruct (Hq false) as [Hf|?]; [|done]. destruct Hf. split; try done. cbn. left. by split_and!.
Qed.

Lemma SetWriteEvent_spec s s' : SetWriteEvent s = Some s' ->
  0 < fd_ (conn s) /\ sentlen_ (conn s) = 0 /\ conn s' = conn s /\ ms s' = ms s
  /\ (exists el, wk s' = with_eventl (wk s) el) /\ writable s'
  /\ forall fd, 0 <= fd -> fd <> fd_ (conn s) -> fe_get (eventl_ (wk s')) fd = fe_get (eventl_ (wk s)) fd.
Proof.
  unfold SetWriteEvent. destruct (fd_ (conn s) <=? 0) eqn:Hfd; [done|].
  destruct (sentlen_ (conn s) =? 0) eqn:Hs; [|done]. cbn [negb].
  destruct (fe_create _ _ _ _ _) as [el|] eqn:Ec; [|done]. intros [= <-]. bool_to_prop.
  pose proof (fun fd' H => fe_create_get _ _ _ _ _ _ fd' (Z.lt_le_incl _ _ Hfd) H Ec) as Hget.
  split_and!; cbn; try done.
  - by exists el.
  - unfold writable. cbn. rewrite Hget, decide_True by lia.
    rewrite Z.land_lor_distr_l. change (Z.land AE_WRITABLE AE_WRITABLE) with 2.
    rewrite Z.lor_eq_0_iff. lia.
  - intros fd Hf Hne. rewrite Hget, decide_False by congruence || lia. done.
Qed.

Lemma frame_reply text s : frame s (reply_with cfg unixtime text s).
Proof.
  unfold reply_with. destruct (close_after_reply (conn s)) eqn:Ea; [apply frame_refl|].
  destruct (SetWriteEvent s) as [s1|] eqn:E; [|apply frame_refl].
  apply SetWriteEvent_spec in E as (Hfd & Hsent & Hc & Hm & (el & Hw) & Hwr & Hev).
  etrans; [|apply frame_limits].
  split; cbn; rewrite ?Hc, ?Hw; try done; [| |by left|by rewrite Hm].
  - exists text. split; [done|]. split; [|done]. intros _. exact Hwr.
  - intros _ fd Hf Hne. rewrite <- Hw. by apply Hev.
Qed.

Lemma frame_subs s s' ts ps w' :
  s' = St (with_subs (conn s) ts ps) w' (ms s) ->
  (exists t p, w' = with_patterns (with_topics (wk s) t) p) -> frame s s'.
Proof.
  intros -> (t & p & ->). split; cbn; try done; [exists []; by rewrite app_nil_r|by left].
Qed.

Lemma frame_flags s after : (close_after_reply (conn s) = true -> after = true) ->
  frame s (on_conn (fun c => with_flags c after (close_asap c)) s).
Proof. intros Ha. split; cbn; try done; [exists []; by rewrite app_nil_r|by left]. Qed.

(** *** The handlers *)

Hint Resolve frame_reply frame_refl : core.

Lemma frame_notify kind name s : frame s (notify_subscription cfg unixtime kind name s).
Proof.
  unfold notify_subscription, ReplyLongLong, ReplyBulk, Reply.
  set (s1 := reply_with _ _ (_ :: _) _). etrans; [|by destruct (_ =? 0); [|destruct (_ =? 1)]; apply frame_reply].
  subst s1. etrans; [|apply frame_reply]. etrans; [|apply frame_reply]. apply frame_reply.
Qed.

Lemma frame_subscribe_topic t s : frame s (subscribe_topic cfg unixtime t s).
Proof.
  unfold subscribe_topic. etrans; [|apply frame_notify]. case_decide; [done|].
  eapply frame_subs; [reflexivity|]. cbn. eexists _, (pubsub_patterns_ (wk s)). reflexivity.
Qed.

Lemma frame_subscribe_pattern p s : frame s (subscribe_pattern cfg unixtime p s).
Proof.
  unfold subscribe_pattern. etrans; [|apply frame_notify]. case_decide; [done|].
  eapply frame_subs; [reflexivity|]. cbn. eexists (clients_by_topic_ (wk s)), _. reflexivity.
Qed.

Lemma frame_fold (f : st -> bytes -> st) l s : (forall s x, frame s (f s x)) -> frame s (fold_left f l s).
Proof.
  intros Hf. revert s. induction l as [|x l IH]; intros s; [done|]. cbn. etrans; [apply Hf|apply IH].
Qed.

Lemma frame_UnsubscribeTopic n t s s' : UnsubscribeTopic cfg unixtime n t s = Some s' -> frame s s'.
Proof.
  unfold UnsubscribeTopic. set (s1 := if n then _ else s).
  assert (frame s s1) by (subst s1; destruct n; [apply frame_notify|done]). clearbody s1.
  case_decide; [|by intros [= <-]]. destruct (clients_by_topic_ (wk s1) !! t) as [l|]; [|done].
  cbn. intros [= <-]. etrans; [done|]. eapply frame_subs; [reflexivity|]. cbn.
  eexists _, (pubsub_patterns_ (wk s1)). reflexivity.
Qed.

Lemma frame_UnsubscribePattern n p s s' : UnsubscribePattern cfg unixtime n p s = Some s' -> frame s s'.
Proof.
  unfold UnsubscribePattern. set (s1 := if n then _ else s).
  assert (frame s s1) by (subst s1; destruct n; [apply frame_notify|done]). clearbody s1.
  case_decide; [|by intros [= <-]]. intros [= <-]. etrans; [done|].
  eapply frame_subs; [reflexivity|]. cbn. eexists (clients_by_topic_ (wk s1)), _. reflexivity.
Qed.

Lemma frame_for_args f l s s' : (forall x s s', f x s = Some s' -> frame s s') ->
  for_args f l s = Some s' -> frame s s'.
Proof.
  intros Hf. revert s. induction l as [|x l IH]; intros s; cbn; [by intros [= <-]|].
  intros (s1 & ? & ?)%bind_Some. etrans; [by eapply Hf|by apply IH].
Qed.

Lemma frame_UnsubscribeAllTopics n s s' : UnsubscribeAllTopics cfg unixtime set_begin n s = Some s' -> frame s s'.
Proof.
  unfold UnsubscribeAllTopics. generalize (size (sub_topics_ (conn s))) as fuel. intros fuel. revert s.
  induction fuel as [|fuel IH]; intros s; cbn; (case_decide; [by intros [= <-]|]); [done|].
  intros (s1 & ? & ?)%bind_Some. etrans; [by eapply frame_UnsubscribeTopic|by apply IH].
Qed.

Lemma frame_UnsubscribeAllPatterns n s s' : UnsubscribeAllPatterns cfg unixtime set_begin n s = Some s' -> frame s s'.
Proof.
  unfold UnsubscribeAllPatterns. generalize (size (sub_patterns_ (conn s))) as fuel. intros fuel. revert s.
  induction fuel as [|fuel IH]; intros s; cbn; (case_decide; [by intros [= <-]|]); [done|].
  intros (s1 & ? & ?)%bind_Some. etrans; [by eapply frame_UnsubscribePattern|by apply IH].
Qed.

Lemma frame_ProcessLog argv s : Forall short argv -> frame s (ProcessLog cfg unixtime argv s).
Proof.
  unfold ProcessLog, Reply, ReplyErrorFormat. rewrite Forall_lookup. intros Hsh.
  destruct argv as [|? [|topic [|content [|]]]]; try apply frame_reply.
  set (s1 := on_worker _ s). destruct (PutMessage _ _ _ _) as [ok m] eqn:Ep.
  assert (frame s (St (conn s1) (wk s1) m)).
  { split; cbn; try done; [exists []; by rewrite app_nil_r|by left|].
    apply (f_equal snd) in Ep. cbn in Ep. subst m. apply rtc_once, move_put. split; [by apply (Hsh 1%nat)|by apply (Hsh 2%nat)]. }
  destruct ok; (etrans; [done|apply frame_reply]).
Qed.

Lemma frame_run_command argv s s' : Forall short argv -> run_command cfg unixtime env set_begin argv s = Some s' -> frame s s'.
Proof.
  intros Hsh.
  unfold run_command, ProcessPing, ProcessInfo, ProcessSubscribe, ProcessPSubscribe, ProcessUnSubscribe,
    ProcessPUnSubscribe, ProcessShutdown, ProcessOther, Reply, ReplyBulk, ReplyStatusFormat, ReplyErrorFormat.
  repeat case_match; try (intros [= <-]; auto using frame_ProcessLog).
  - apply frame_fold. intros. apply frame_subscribe_topic.
  - apply frame_fold. intros. apply frame_subscribe_pattern.
  - apply frame_for_args. by apply frame_UnsubscribeTopic.
  - apply frame_UnsubscribeAllTopics.
  - apply frame_for_args. by apply frame_UnsubscribePattern.
  - apply frame_UnsubscribeAllPatterns.
  - split; cbn; try done; [exists []; by rewrite app_nil_r|by left|apply rtc_once, move_stop].
Qed.

Lemma frame_ProcessCommand argv s b s' : Forall short argv ->
  ProcessCommand cfg unixtime env set_begin argv s = Some (b, s') -> frame s s'.
Proof.
  intros Hsh. unfold ProcessCommand, ProcessQuit, Reply. destruct (strcaseeq _ _).
  - intros [= <- <-]. etrans; [apply frame_reply|]. by apply frame_flags.
  - intros (s1 & H & [= <- <-])%bind_Some. apply frame_run_command in H; [|done]. etrans; [done|].
    split; cbn; try done; [exists []; by rewrite app_nil_r|by left].
Qed.

(** The parser is ready for more, unless the client is being closed. *)
Definition loop_ok (ps : pstate) (s : st) : Prop := ps_ok ps \/ close_after_reply (conn s) = true.

Lemma quit_closes argv s s' : ProcessCommand cfg unixtime env set_begin argv s = Some (false, s') ->
  close_after_reply (conn s') = true.
Proof.
  unfold ProcessCommand. destruct (strcaseeq _ _); [by intros [= <-]|].
  by intros (? & _ & [=])%bind_Some.
Qed.

Lemma frame_request_loop fuel req ps s req' ps' s' : loop_ok ps s ->
  request_loop cfg unixtime env set_begin fuel req ps s = Some (req', ps', s') -> frame s s'.
Proof.
  revert req ps s. induction fuel as [|fuel IH]; intros req ps s Hok; destruct req as [|c req]; cbn;
    [by intros [= <- <- <-]|by destruct (close_after_reply (conn s)); [intros [= <- <- <-]|]
    |by intros [= <- <- <-]|].
  destruct (close_after_reply (conn s)) eqn:Ec; [by intros [= <- <- <-]|].
  destruct Hok as [Hok|?]; [|congruence].
  destruct (ParseRequestBuffer ps (c :: req)) as [ps1 r1|ps1 r1|ps1 rep r1] eqn:Ep; [by intros [= <- <- <-]| |].
  - apply parse_PTrue_short in Ep; [|done].
    destruct (argv_ ps1) as [|a argv]; [apply IH; left; apply ps_ok_0|].
    intros ([reset s1] & Hc & Hl)%bind_Some. etrans; [by eapply frame_ProcessCommand|]. eapply IH; [|exact Hl].
    destruct reset; [by left; apply ps_ok_0|right]. by eapply quit_closes.
  - intros [= <- <- <-]. unfold ProcessProtocolError, ReplyErrorFormat.
    destruct rep; (etrans; [|by apply frame_flags]); auto.
Qed.
End frame.

(** ** Requests in pieces *)

Section chunks.
Context {EL M : Type} `{!FileEvents EL fproc cid} `{!FileEventsLaws EL fproc cid} `{!MasterOps M}.
Variable cfg : Config.
Variable unixtime : Z.
Variable env : info_env.
Variable set_begin : gset bytes -> bytes.
Notation st := (st EL M).
Notation loop := (request_loop cfg unixtime env set_begin).

(** Outcomes that agree but for the bytes left in the buffer of a client
    that is being closed. *)
Definition outcome_sim (o1 o2 : option (bytes * pstate * st)) : Prop :=
  match o1, o2 with
  | Some (r1, p1, s1), Some (r2, p2, s2) =>
      p1 = p2 /\ s1 = s2 /\ (r1 = r2 \/ close_after_reply (conn s1) = true)
  | None, None => True
  | _, _ => False
  end.

#[export] Instance outcome_sim_equiv : Equivalence outcome_sim.
Proof.
  split.
  - intros [[[]]|]; cbn; auto.
  - intros [[[]]|] [[[]]|]; cbn; try done. intros (-> & -> & [->|?]); auto.
  - intros [[[]]|] [[[]]|] [[[]]|]; cbn; try done.
    intros (-> & -> & [->|?]) (-> & -> & [->|?]); auto.
Qed.

Lemma loop_fuel f1 f2 req ps s : loop_ok ps s -> (length req <= f1)%nat -> (length req <= f2)%nat ->
  loop f1 req ps s = loop f2 req ps s.
Proof.
  revert f2 req ps s. induction f1 as [|f1 IH]; intros f2 req ps s Hok H1 H2.
  { destruct req; [by destruct f2|cbn in H1; lia]. }
  destruct req as [|c req]; [by destruct f2|]. destruct f2 as [|f2]; [cbn in H2; lia|]. cbn [request_loop].
  destruct (close_after_reply (conn s)) eqn:Ec; [done|]. destruct Hok as [Hok|?]; [|congruence].
  destruct (ParseRequestBuffer ps (c :: req)) as [|ps1 r1|] eqn:Ep; [done| |done].
  apply parse_PTrue_consumes in Ep; [|done]. cbn [length] in *.
  destruct (argv_ ps1) as [|a argv]; [apply IH; [by left; apply ps_ok_0|lia..]|].
  destruct (ProcessCommand _ _ _ _ _ _) as [[reset s1]|] eqn:Epc; [|done]. cbn.
  apply IH; [|lia..]. destruct reset; [by left; apply ps_ok_0|right]. by eapply quit_closes.
Qed.

Lemma loop_closing f req ps s : close_after_reply (conn s) = true -> loop f req ps s = Some (req, ps, s).
Proof. intros Hc. destruct f, req; cbn; rewrite ?Hc; done. Qed.

Lemma loop_chunks f F F' a b ps s r1 ps1 s1 :
  loop_ok ps s -> zlen (a ++ b) < 2 ^ 63 ->
  (length a <= f)%nat -> (length (a ++ b) <= F)%nat -> (length (r1 ++ b) <= F')%nat ->
  loop f a ps s = Some (r1, ps1, s1) ->
  outcome_sim (loop F (a ++ b) ps s) (loop F' (r1 ++ b) ps1 s1).
Proof.
  revert F a ps s. induction f as [|f IH]; intros F a ps s Hok Hlen Hf HF HF' Hrun.
  { destruct a; [|cbn in Hf; lia]. injection Hrun as <- <- <-.
    rewrite (loop_fuel F F') by done. reflexivity. }
  destruct a as [|c a].
  { injection Hrun as <- <- <-. rewrite (loop_fuel F F') by done. reflexivity. }
  cbn [request_loop] in Hrun. destruct (close_after_reply (conn s)) eqn:Ec.
  { injection Hrun as <- <- <-. rewrite (loop_fuel F F') by done. reflexivity. }
  destruct Hok as [Hok|?]; [|congruence]. destruct F as [|F]; [cbn in HF; lia|].
  pose proof (parse_app ps (c :: a) b (proj1 Hok) Hlen) as Hinc.
  destruct (ParseRequestBuffer ps (c :: a)) as [ps2 r|ps2 r|ps2 rep r] eqn:Ep.
  - injection Hrun as -> -> ->. destruct Hinc as [_ Hsim].
    assert (Hps : ps_ok ps1).
    { eapply parse_PFalse_ok; [exact Hok| |done]. rewrite length_app in Hlen. lia. }
    destruct (r1 ++ b) as [|d rb] eqn:Erb.
    + apply app_nil in Erb as [-> ->]. rewrite app_nil_r. cbn [app] in *.
      cbn [request_loop]. rewrite Ec, Ep. destruct F'; reflexivity.
    + destruct F' as [|F']; [cbn in HF'; lia|]. rewrite <- app_comm_cons in *. cbn [request_loop].
      rewrite Ec.
      destruct (ParseRequestBuffer ps (c :: a ++ b)) as [x1 y1|x1 y1|x1 z1 y1] eqn:E1,
        (ParseRequestBuffer ps1 (d :: rb)) as [x2 y2|x2 y2|x2 z2 y2] eqn:E2; cbn in Hsim; try done.
      * injection Hsim as -> ->. reflexivity.
      * injection Hsim as -> ->.
        apply parse_PTrue_consumes in E1; [|done]. apply parse_PTrue_consumes in E2; [|done].
        cbn [length] in *. destruct (argv_ x2) as [|a0 argv].
        { rewrite (loop_fuel F F'); [reflexivity|by left; apply ps_ok_0|lia..]. }
        destruct (ProcessCommand _ _ _ _ _ _) as [[reset s2]|] eqn:Epc; [|done]. cbn.
        rewrite (loop_fuel F F'); [reflexivity| |lia..].
        destruct reset; [by left; apply ps_ok_0|right]. by eapply quit_closes.
      * destruct Hsim as [-> ->]. cbn. split_and!; [done|done|by right].
  - rewrite <- app_comm_cons. cbn [request_loop]. rewrite Ec, app_comm_cons, Hinc.
    apply parse_PTrue_consumes in Ep; [|done]. cbn [length app] in *.
    pose proof (length_app a b). pose proof (length_app r b). destruct (argv_ ps2) as [|a0 argv].
    + apply IH; [by left; apply ps_ok_0|lia..|done].
    + destruct (ProcessCommand _ _ _ _ _ _) as [[reset s2]|] eqn:Epc; [|done]. cbn in Hrun |- *.
      apply IH; [|lia..|done].
      destruct reset; [by left; apply ps_ok_0|right]. by eapply quit_closes.
  - rewrite <- app_comm_cons. cbn [request_loop]. rewrite Ec, app_comm_cons, Hinc.
    injection Hrun as <- <- <-. rewrite loop_closing by done. cbn. split_and!; [done|done|by right].
Qed.

(** C22. The effect of a request stream does not depend on how the network cuts it: processing
    some bytes, then the rest with the state that was kept, gives the same worker, master and
    replies as processing them in one go. *)
Theorem requests_in_pieces a b ps s r1 ps1 s1 :
  loop_ok ps s -> zlen (a ++ b) < 2 ^ 63 ->
  ProcessRequestBuffer cfg unixtime env set_begin a ps s = Some (r1, ps1, s1) ->
  outcome_sim (ProcessRequestBuffer cfg unixtime env set_begin (a ++ b) ps s)
              (ProcessRequestBuffer cfg unixtime env set_begin (r1 ++ b) ps1 s1).
Proof. intros Hok Hlen. unfold ProcessRequestBuffer. apply loop_chunks; done. Qed.

(** C25. With a client and a parser in a consistent state, processing requests only appends to
    the output of this client; it appends nothing while an earlier output is partly written or the
    connection is about to be closed; if it appends anything the write event of the descriptor is
    set; and the events of other descriptors and the other clients of the worker do not change. *)
Theorem output_of_requests req ps s req' ps' s' : loop_ok ps s ->
  ProcessRequestBuffer cfg unixtime env set_begin req ps s = Some (req', ps', s') ->
  exists text, rep_ (conn s') = rep_ (conn s) ++ text
    /\ (sentlen_ (conn s) <> 0 \/ close_after_reply (conn s) = true -> text = [])
    /\ (text <> [] -> Z.land (fe_get (eventl_ (wk s')) (fd_ (conn s))) AE_WRITABLE <> 0)
    /\ (0 < fd_ (conn s) -> forall fd, 0 <= fd -> fd <> fd_ (conn s) ->
        fe_get (eventl_ (wk s')) fd = fe_get (eventl_ (wk s)) fd)
    /\ (forall c, c <> this (conn s) -> c ∈ clients_ (wk s') <-> c ∈ clients_ (wk s)).
Proof.
  intros Hok H. unfold ProcessRequestBuffer in H. apply frame_request_loop in H; [|done].
  destruct H as [Hfd _ _ _ _ (t & Hr & Hw & Hs & Ha) _ _ Hev Hcl].
  exists t. split; [done|]. split_and!.
  - intros Hor. destruct t; [done|]. exfalso.
    specialize (Hs ltac:(done)). specialize (Ha ltac:(done)). destruct Hor; congruence.
  - unfold writable in Hw. by rewrite Hfd in Hw.
  - done.
  - intros c Hne. destruct Hcl as [(_ & -> & _)|(_ & _ & -> & _)]; [done|].
    rewrite list_elem_of_filter. tauto.
Qed.
End chunks.
