(* ===== verification/PubSub.v ===== *)
(** * pubsub.cc: the subscription tables

    Who is subscribed to what is stored twice: in the sets of each client and
    in the tables of its worker.  [subs_ok] says that the two agree and that
    the tables hold no empty list and no duplicate; every handler keeps it,
    which is also why none dereferences the [end()] of a table. *)

From S2P Require Import Prelude Common Util EventLoop Protocol Client.

(** ** The tables and the sets they mirror *)

(** [T c] and [P c] are the subscriptions of client [c]. *)
Record tables_ok (topics : gmap bytes (list cid)) (patterns : list (bytes * cid))
    (T P : cid -> gset bytes) : Prop := {
  to_nonempty t l : topics !! t = Some l -> l <> [];
  to_nodup t l : topics !! t = Some l -> NoDup l;
  to_topics t c : c ∈ default [] (topics !! t) <-> t ∈ T c;
  to_pat_nodup : NoDup patterns;
  to_patterns p c : (p, c) ∈ patterns <-> p ∈ P c;
}.

(** The sets when the client being served has [ts] and [ps]. *)
Definition upd {A} (f : cid -> A) (c : cid) (x : A) : cid -> A := fun c' => if decide (c' = c) then x else f c'.

Lemma upd_same {A} (f : cid -> A) c x : upd f c x c = x.
Proof. unfold upd. by rewrite decide_True. Qed.

Lemma upd_other {A} (f : cid -> A) c x c' : c' <> c -> upd f c x c' = f c'.
Proof. intros. unfold upd. by rewrite decide_False. Qed.

Lemma tables_ok_ext topics patterns T P T' P' :
  (forall c, T c = T' c) -> (forall c, P c = P' c) ->
  tables_ok topics patterns T P -> tables_ok topics patterns T' P'.
Proof.
  intros HT HP [H1 H2 H3 H4 H5]. split; try done.
  - intros t c. by rewrite H3, HT.
  - intros p c. by rewrite H5, HP.
Qed.

(** ** The four table updates *)

Definition add_topic (topic : bytes) (me : cid) (m : gmap bytes (list cid)) : gmap bytes (list cid) :=
  match m !! topic with None => <[topic := [me]]> m | Some l => <[topic := l ++ [me]]> m end.

Definition drop_topic (topic : bytes) (me : cid) (l : list cid) (m : gmap bytes (list cid)) :=
  let l := filter (fun x => x <> me) l in if decide (l = []) then delete topic m else <[topic := l]> m.

Lemma tables_add_topic topics patterns T P t c :
  tables_ok topics patterns T P -> t ∉ T c ->
  tables_ok (add_topic t c topics) patterns (upd T c ({[t]} ∪ T c)) P.
Proof.
  intros [H1 H2 H3 H4 H5] Hn.
  assert (Hd : add_topic t c topics = <[t := default [] (topics !! t) ++ [c]]> topics).
  { unfold add_topic. by destruct (topics !! t). }
  rewrite Hd. clear Hd. split; try done.
  - intros t' l. rewrite lookup_insert_Some. intros [[_ <-]|[_ ?]]; [by destruct (default [] _)|eauto].
  - intros t' l. rewrite lookup_insert_Some. intros [[_ <-]|[_ ?]]; [|eauto].
    apply NoDup_app. split_and!; [|intros x Hx ->%list_elem_of_singleton; by apply Hn, H3|apply NoDup_singleton].
    destruct (topics !! t) eqn:E; [by eapply H2|constructor].
  - intros t' c'. destruct (decide (t = t')) as [<-|].
    + rewrite lookup_insert_eq. cbn. rewrite elem_of_app, H3, list_elem_of_singleton.
      unfold upd. case_decide; subst; set_solver.
    + rewrite lookup_insert_ne, H3 by done. unfold upd. case_decide; subst; set_solver.
Qed.

Lemma tables_drop_topic topics patterns T P t c l :
  tables_ok topics patterns T P -> topics !! t = Some l ->
  tables_ok (drop_topic t c l topics) patterns (upd T c (T c ∖ {[t]})) P.
Proof.
  intros [H1 H2 H3 H4 H5] Hl. unfold drop_topic.
  assert (Hlook : forall t', default [] ((if decide (filter (fun x => x <> c) l = [])
      then delete t topics else <[t := filter (fun x => x <> c) l]> topics) !! t')
      = if decide (t = t') then filter (fun x => x <> c) l else default [] (topics !! t')).
  { intros t'. destruct (decide (filter _ l = [])) as [He|He]; destruct (decide (t = t')) as [<-|].
    - by rewrite lookup_delete_eq, He.
    - by rewrite lookup_delete_ne.
    - by rewrite lookup_insert_eq.
    - by rewrite lookup_insert_ne. }
  split; try done.
  - intros t' l'. destruct (decide (filter _ l = [])).
    + rewrite lookup_delete_Some. intros [_ ?]. eauto.
    + rewrite lookup_insert_Some. intros [[_ <-]|[_ ?]]; eauto.
  - intros t' l'. destruct (decide (filter _ l = [])).
    + rewrite lookup_delete_Some. intros [_ ?]. eauto.
    + rewrite lookup_insert_Some. intros [[_ <-]|[_ ?]]; [apply NoDup_filter|]; eauto.
  - intros t' c'. rewrite Hlook. destruct (decide (t = t')) as [<-|].
    + rewrite list_elem_of_filter. specialize (H3 t c'). rewrite Hl in H3. cbn in H3. rewrite H3.
      destruct (decide (c' = c)) as [->|]; [rewrite upd_same|rewrite upd_other by done; tauto].
      rewrite elem_of_difference, elem_of_singleton. tauto.
    + rewrite H3. destruct (decide (c' = c)) as [->|]; [rewrite upd_same|by rewrite upd_other by done].
      rewrite elem_of_difference, elem_of_singleton. naive_solver.
Qed.

Lemma tables_add_pattern topics patterns T P p c :
  tables_ok topics patterns T P -> p ∉ P c ->
  tables_ok topics (patterns ++ [(p, c)]) T (upd P c ({[p]} ∪ P c)).
Proof.
  intros [H1 H2 H3 H4 H5] Hn. split; try done.
  - apply NoDup_app. split_and!; [done| |apply NoDup_singleton].
    intros x Hx ->%list_elem_of_singleton. by apply Hn, H5.
  - intros p' c'. rewrite elem_of_app, H5, list_elem_of_singleton. unfold upd.
    case_decide; subst; set_solver.
Qed.

Lemma erase_pattern_filter p c ps : NoDup ps ->
  erase_pattern p c ps = filter (fun x => x <> (p, c)) ps.
Proof.
  induction 1 as [|[p' c'] ps Hn Hd IH]; [done|]. cbn [erase_pattern fst snd].
  destruct (SdsEqual p' p && bool_decide (c' = c)) eqn:E.
  - apply andb_true_iff in E as [->%SdsEqual_spec Hc]. bool_to_prop. subst c'.
    rewrite filter_cons_False by tauto. by rewrite filter_ne_notin.
  - rewrite filter_cons_True; [by f_equal|]. intros [= -> ->].
    by rewrite (proj2 (SdsEqual_spec p p) eq_refl), bool_decide_eq_true_2 in E.
Qed.

Lemma tables_drop_pattern topics patterns T P p c :
  tables_ok topics patterns T P ->
  tables_ok topics (erase_pattern p c patterns) T (upd P c (P c ∖ {[p]})).
Proof.
  intros [H1 H2 H3 H4 H5]. rewrite erase_pattern_filter by done. split; try done.
  - by apply NoDup_filter.
  - intros p' c'. rewrite list_elem_of_filter, H5.
    destruct (decide (c' = c)) as [->|]; [rewrite upd_same|rewrite upd_other by done; naive_solver].
    rewrite elem_of_difference, elem_of_singleton. naive_solver.
Qed.

Lemma union_swap (X Y Z : gset bytes) : X ∪ Y ∪ Z = Y ∪ (X ∪ Z).
Proof. set_solver. Qed.

Lemma difference_twice (X Y Z : gset bytes) : X ∖ (Y ∪ Z) = X ∖ Y ∖ Z.
Proof. set_solver. Qed.

Lemma union_absorb (x : bytes) (X : gset bytes) : x ∈ X -> {[x]} ∪ X = X.
Proof. set_solver. Qed.

Lemma difference_absent (x : bytes) (X : gset bytes) : x ∉ X -> X ∖ {[x]} = X.
Proof. set_solver. Qed.

(** ** The handlers *)

Section handlers.
Context {EL M : Type} `{!FileEvents EL fproc cid} `{!MasterOps M}.
Variable cfg : Config.
Variable unixtime : Z.
Variable env : info_env.
Variable set_begin : gset bytes -> bytes.
Hypothesis set_begin_in : forall X, X <> ∅ -> set_begin X ∈ X.
Notation st := (st EL M).

(** The subscriptions of the other clients of the worker. *)
Variables (T P : cid -> gset bytes).

Definition subs_ok (s : st) : Prop :=
  tables_ok (clients_by_topic_ (wk s)) (pubsub_patterns_ (wk s))
    (upd T (this (conn s)) (sub_topics_ (conn s))) (upd P (this (conn s)) (sub_patterns_ (conn s))).

(** Nothing about subscriptions differs. *)
Definition same_subs (s s' : st) : Prop :=
  this (conn s') = this (conn s) /\ clients_by_topic_ (wk s') = clients_by_topic_ (wk s)
  /\ pubsub_patterns_ (wk s') = pubsub_patterns_ (wk s)
  /\ sub_topics_ (conn s') = sub_topics_ (conn s) /\ sub_patterns_ (conn s') = sub_patterns_ (conn s).

#[export] Instance same_subs_preorder : PreOrder same_subs.
Proof. unfold same_subs. split; [done|]. intros s1 s2 s3 ? ?. split_and!; intuition congruence. Qed.

Lemma subs_ok_same s s' : same_subs s s' -> subs_ok s -> subs_ok s'.
Proof. unfold subs_ok. by intros (-> & -> & -> & -> & ->). Qed.

Lemma same_limits s : same_subs s (AsyncCloseOnOutputBufferLimitsReached cfg unixtime s).
Proof.
  unfold AsyncCloseOnOutputBufferLimitsReached. destruct (close_asap (conn s)); [done|].
  destruct (CheckOutputBufferLimits_conn cfg unixtime (conn s)) as [soft Hs].
  destruct (CheckOutputBufferLimits _ _ _) as [[|] c]; cbn in Hs; subst c; [|done].
  unfold same_subs, FreeClientAsync. cbn. by case_decide.
Qed.

Lemma same_reply text s : same_subs s (reply_with cfg unixtime text s).
Proof.
  unfold reply_with. destruct (close_after_reply _); [done|].
  destruct (SetWriteEvent s) as [s1|] eqn:E; [|done]. etrans; [|apply same_limits].
  unfold SetWriteEvent in E. destruct (_ <=? 0); [done|]. destruct (negb _); [done|].
  destruct (fe_create _ _ _ _ _); [|done]. injection E as <-. done.
Qed.

Lemma same_notify kind name s : same_subs s (notify_subscription cfg unixtime kind name s).
Proof.
  unfold notify_subscription, ReplyLongLong, ReplyBulk, Reply.
  set (s1 := reply_with _ _ (_ :: _) _).
  etrans; [|by destruct (_ =? 0); [|destruct (_ =? 1)]; apply same_reply].
  subst s1. etrans; [|apply same_reply]. etrans; [|apply same_reply]. apply same_reply.
Qed.

(** The subscriptions of the served client become [ts] and [ps], in its
    sets and in the tables. *)
Definition now_subscribed (s s' : st) (ts ps : gset bytes) : Prop :=
  subs_ok s' /\ this (conn s') = this (conn s) /\ sub_topics_ (conn s') = ts /\ sub_patterns_ (conn s') = ps.

Lemma now_same s s' : subs_ok s -> same_subs s s' ->
  now_subscribed s s' (sub_topics_ (conn s)) (sub_patterns_ (conn s)).
Proof.
  intros Hok Hs. pose proof Hs as (? & _ & _ & ? & ?). split; [by eapply subs_ok_same|]. done.
Qed.

Lemma now_trans s s1 s2 ts ps ts2 ps2 :
  now_subscribed s s1 ts ps -> now_subscribed s1 s2 ts2 ps2 -> now_subscribed s s2 ts2 ps2.
Proof. intros (_ & H1 & _ & _) (? & H2 & ? & ?). split_and!; congruence || done. Qed.

Lemma subscribe_topic_ok t s : subs_ok s ->
  now_subscribed s (subscribe_topic cfg unixtime t s) ({[t]} ∪ sub_topics_ (conn s)) (sub_patterns_ (conn s)).
Proof.
  intros Hok. unfold subscribe_topic. case_decide as Hin.
  - rewrite union_absorb by done.
    apply now_same; [done|apply same_notify].
  - set (s1 := on_worker _ _).
    assert (subs_ok s1) as Hok1.
    { unfold subs_ok in *. cbn. fold (add_topic t (this (conn s)) (clients_by_topic_ (wk s))).
      eapply tables_ok_ext; [| |eapply tables_add_topic; [exact Hok|]].
      - intros c. rewrite upd_same. unfold upd. by case_decide.
      - done.
      - by rewrite upd_same. }
    destruct (now_same s1 (notify_subscription cfg unixtime REP_SUBSCRIBEBULK t s1) Hok1 (same_notify _ _ _))
      as (? & ? & ? & ?).
    done.
Qed.

Lemma subscribe_pattern_ok p s : subs_ok s ->
  now_subscribed s (subscribe_pattern cfg unixtime p s) (sub_topics_ (conn s)) ({[p]} ∪ sub_patterns_ (conn s)).
Proof.
  intros Hok. unfold subscribe_pattern. case_decide as Hin.
  - rewrite union_absorb by done.
    apply now_same; [done|apply same_notify].
  - set (s1 := on_worker _ _).
    assert (subs_ok s1) as Hok1.
    { unfold subs_ok in *. cbn. eapply tables_ok_ext; [| |eapply tables_add_pattern; [exact Hok|]].
      - done.
      - intros c. rewrite upd_same. unfold upd. by case_decide.
      - by rewrite upd_same. }
    destruct (now_same s1 (notify_subscription cfg unixtime REP_PSUBSCRIBEBULK p s1) Hok1 (same_notify _ _ _))
      as (? & ? & ? & ?).
    done.
Qed.

Lemma UnsubscribeTopic_ok n t s : subs_ok s ->
  exists s', UnsubscribeTopic cfg unixtime n t s = Some s'
    /\ now_subscribed s s' (sub_topics_ (conn s) ∖ {[t]}) (sub_patterns_ (conn s)).
Proof.
  intros Hok. unfold UnsubscribeTopic. set (s1 := if n then _ else s).
  assert (Hs1 : same_subs s s1) by (subst s1; destruct n; [apply same_notify|done]).
  clearbody s1. pose proof (subs_ok_same _ _ Hs1 Hok) as Hok1. pose proof Hs1 as (Hth & _ & _ & Hts & Hps).
  rewrite <- Hts, <- Hps. case_decide as Hin.
  2: { exists s1. by rewrite difference_absent. }
  pose proof (to_topics _ _ _ _ Hok1 t (this (conn s1))) as Hl. rewrite upd_same in Hl.
  apply Hl in Hin. destruct (clients_by_topic_ (wk s1) !! t) as [l|] eqn:El; [|by apply not_elem_of_nil in Hin].
  cbn. eexists. split; [done|]. split; [|done]. unfold subs_ok in *. cbn.
  fold (drop_topic t (this (conn s1)) l (clients_by_topic_ (wk s1))).
  eapply tables_ok_ext; [| |eapply tables_drop_topic; [exact Hok1|exact El]].
  - intros c. rewrite upd_same. unfold upd. by case_decide.
  - done.
Qed.

Lemma UnsubscribePattern_ok n p s : subs_ok s ->
  exists s', UnsubscribePattern cfg unixtime n p s = Some s'
    /\ now_subscribed s s' (sub_topics_ (conn s)) (sub_patterns_ (conn s) ∖ {[p]}).
Proof.
  intros Hok. unfold UnsubscribePattern. set (s1 := if n then _ else s).
  assert (Hs1 : same_subs s s1) by (subst s1; destruct n; [apply same_notify|done]).
  clearbody s1. pose proof (subs_ok_same _ _ Hs1 Hok) as Hok1. pose proof Hs1 as (Hth & _ & _ & Hts & Hps).
  rewrite <- Hts, <- Hps. case_decide as Hin.
  2: { exists s1. by rewrite difference_absent. }
  eexists. split; [done|]. split; [|done]. unfold subs_ok in *. cbn.
  eapply tables_ok_ext; [| |eapply tables_drop_pattern; exact Hok1].
  - done.
  - intros c. rewrite upd_same. unfold upd. by case_decide.
Qed.

Lemma fold_subscribe_topic ts s : subs_ok s ->
  now_subscribed s (fold_left (fun s t => subscribe_topic cfg unixtime t s) ts s)
    (list_to_set ts ∪ sub_topics_ (conn s)) (sub_patterns_ (conn s)).
Proof.
  revert s. induction ts as [|t ts IH]; intros s Hok; cbn [fold_left list_to_set].
  - rewrite union_empty_l_L. by apply now_same.
  - pose proof (subscribe_topic_ok t s Hok) as Hs. pose proof Hs as (Hok1 & _ & Ht & Hp).
    eapply now_trans; [exact Hs|]. pose proof (IH _ Hok1) as H. rewrite Ht, Hp in H.
    rewrite union_swap. exact H.
Qed.

Lemma fold_subscribe_pattern ps s : subs_ok s ->
  now_subscribed s (fold_left (fun s p => subscribe_pattern cfg unixtime p s) ps s)
    (sub_topics_ (conn s)) (list_to_set ps ∪ sub_patterns_ (conn s)).
Proof.
  revert s. induction ps as [|p ps IH]; intros s Hok; cbn [fold_left list_to_set].
  - rewrite union_empty_l_L. by apply now_same.
  - pose proof (subscribe_pattern_ok p s Hok) as Hs. pose proof Hs as (Hok1 & _ & Ht & Hp).
    eapply now_trans; [exact Hs|]. pose proof (IH _ Hok1) as H. rewrite Ht, Hp in H.
    rewrite union_swap. exact H.
Qed.

Lemma for_unsubscribe_topic n ts s : subs_ok s ->
  exists s', for_args (UnsubscribeTopic cfg unixtime n) ts s = Some s'
    /\ now_subscribed s s' (sub_topics_ (conn s) ∖ list_to_set ts) (sub_patterns_ (conn s)).
Proof.
  revert s. induction ts as [|t ts IH]; intros s Hok; cbn [for_args list_to_set].
  - exists s. rewrite difference_empty_L. split; [done|]. by apply now_same.
  - destruct (UnsubscribeTopic_ok n t s Hok) as (s1 & -> & Hs). pose proof Hs as (Hok1 & _ & Ht & Hp).
    destruct (IH s1 Hok1) as (s2 & H2 & H). exists s2. split; [done|]. eapply now_trans; [exact Hs|].
    rewrite Ht, Hp in H.
    by rewrite difference_twice.
Qed.

Lemma for_unsubscribe_pattern n ps s : subs_ok s ->
  exists s', for_args (UnsubscribePattern cfg unixtime n) ps s = Some s'
    /\ now_subscribed s s' (sub_topics_ (conn s)) (sub_patterns_ (conn s) ∖ list_to_set ps).
Proof.
  revert s. induction ps as [|p ps IH]; intros s Hok; cbn [for_args list_to_set].
  - exists s. rewrite difference_empty_L. split; [done|]. by apply now_same.
  - destruct (UnsubscribePattern_ok n p s Hok) as (s1 & -> & Hs). pose proof Hs as (Hok1 & _ & Ht & Hp).
    destruct (IH s1 Hok1) as (s2 & H2 & H). exists s2. split; [done|]. eapply now_trans; [exact Hs|].
    rewrite Ht, Hp in H.
    by rewrite difference_twice.
Qed.

Lemma UnsubscribeAllTopics_ok n s : subs_ok s ->
  exists s', UnsubscribeAllTopics cfg unixtime set_begin n s = Some s'
    /\ now_subscribed s s' ∅ (sub_patterns_ (conn s)).
Proof.
  unfold UnsubscribeAllTopics. remember (size (sub_topics_ (conn s))) as fuel eqn:E.
  revert s E. induction fuel as [|fuel IH]; intros s E Hok; cbn [unsubscribe_topics]; case_decide as He.
  - exists s. split; [done|]. rewrite <- He. by apply now_same.
  - symmetry in E. by apply size_empty_inv, leibniz_equiv in E.
  - rewrite He, size_empty in E. done.
  - destruct (UnsubscribeTopic_ok n (set_begin (sub_topics_ (conn s))) s Hok) as (s1 & -> & Hs).
    pose proof Hs as (Hok1 & _ & Ht & Hp).
    destruct (IH s1) as (s2 & H2 & H); [|done|].
    + rewrite Ht, size_difference, size_singleton; [lia|].
      apply singleton_subseteq_l. by apply set_begin_in.
    + exists s2. split; [done|]. rewrite Hp in H. by eapply now_trans.
Qed.

Lemma UnsubscribeAllPatterns_ok n s : subs_ok s ->
  exists s', UnsubscribeAllPatterns cfg unixtime set_begin n s = Some s'
    /\ now_subscribed s s' (sub_topics_ (conn s)) ∅.
Proof.
  unfold UnsubscribeAllPatterns. remember (size (sub_patterns_ (conn s))) as fuel eqn:E.
  revert s E. induction fuel as [|fuel IH]; intros s E Hok; cbn [unsubscribe_patterns]; case_decide as He.
  - exists s. split; [done|]. rewrite <- He. by apply now_same.
  - symmetry in E. by apply size_empty_inv, leibniz_equiv in E.
  - rewrite He, size_empty in E. done.
  - destruct (UnsubscribePattern_ok n (set_begin (sub_patterns_ (conn s))) s Hok) as (s1 & -> & Hs).
    pose proof Hs as (Hok1 & _ & Ht & Hp).
    destruct (IH s1) as (s2 & H2 & H); [|done|].
    + rewrite Hp, size_difference, size_singleton; [lia|].
      apply singleton_subseteq_l. by apply set_begin_in.
    + exists s2. split; [done|]. rewrite Ht in H. by eapply now_trans.
Qed.

(** *** The subscriptions a command leaves: the specification *)

Definition sub_effect (argv : list bytes) (ts ps : gset bytes) : gset bytes * gset bytes :=
  let cmd name := strcaseeq (nth 0 argv []) (bs name) in
  let args : gset bytes := list_to_set (tail argv) in
  if cmd "subscribe"%string then (args ∪ ts, ps)
  else if cmd "psubscribe"%string then (ts, args ∪ ps)
  else if cmd "unsubscribe"%string then (if zlen argv >? 1 then ts ∖ args else ∅, ps)
  else if cmd "punsubscribe"%string then (ts, if zlen argv >? 1 then ps ∖ args else ∅)
  else (ts, ps).

Lemma strcaseeq_excl a x y : strcaseeq a x = true -> strcaseeq x y = false -> strcaseeq a y = false.
Proof. unfold strcaseeq. rewrite bool_decide_eq_true, !bool_decide_eq_false. congruence. Qed.

Lemma sub_effect_other argv ts ps x : strcaseeq (nth 0 argv []) x = true ->
  existsb (strcaseeq x) (map bs ["subscribe"; "psubscribe"; "unsubscribe"; "punsubscribe"]%string) = false ->
  sub_effect argv ts ps = (ts, ps).
Proof.
  intros Hx Hn. cbn [existsb map] in Hn. bool_to_prop. unfold sub_effect.
  by rewrite !(strcaseeq_excl _ x) by done.
Qed.

(** A reply, or anything else that leaves the subscriptions alone. *)
Lemma same_served argv x s s' : subs_ok s -> strcaseeq (nth 0 argv []) x = true ->
  existsb (strcaseeq x) (map bs ["subscribe"; "psubscribe"; "unsubscribe"; "punsubscribe"]%string) = false ->
  same_subs s s' ->
  let '(ts, ps) := sub_effect argv (sub_topics_ (conn s)) (sub_patterns_ (conn s)) in now_subscribed s s' ts ps.
Proof. intros Hok Hx Hn Hs. rewrite (sub_effect_other argv _ _ x) by done. by apply now_same. Qed.

Lemma same_ProcessLog argv s : same_subs s (ProcessLog cfg unixtime argv s).
Proof.
  unfold ProcessLog, Reply, ReplyErrorFormat.
  destruct argv as [|? [|topic [|content [|]]]]; try apply same_reply.
  destruct (PutMessage _ _ _ _) as [[|] m]; (etrans; [|apply same_reply]); done.
Qed.

Lemma run_command_ok argv s : subs_ok s ->
  exists s', run_command cfg unixtime env set_begin argv s = Some s'
    /\ let '(ts, ps) := sub_effect argv (sub_topics_ (conn s)) (sub_patterns_ (conn s)) in now_subscribed s s' ts ps.
Proof.
  intros Hok. unfold run_command.
  destruct (strcaseeq _ (bs "ping")) eqn:E1.
  { eexists. split; [done|]. eapply same_served; [done|exact E1|vm_compute; done|apply same_reply]. }
  destruct (strcaseeq _ (bs "info")) eqn:E2.
  { eexists. split; [done|]. eapply same_served; [done|exact E2|vm_compute; done|apply same_reply]. }
  destruct (strcaseeq _ (bs "publish") || _) eqn:E3.
  { eexists. split; [done|]. apply orb_true_iff in E3 as [E3|E3];
      (eapply same_served; [done|exact E3|vm_compute; done|apply same_ProcessLog]). }
  destruct (strcaseeq _ (bs "subscribe")) eqn:E4.
  { eexists. split; [done|]. unfold sub_effect. rewrite E4. unfold ProcessSubscribe.
    destruct (zlen argv <? 2) eqn:El; [|by apply fold_subscribe_topic].
    destruct argv as [|a0 [|]]; [|cbn|bool_to_prop; cbn [length] in El; lia];
      cbn [tail list_to_set]; rewrite union_empty_l_L; (apply now_same; [done|apply same_reply]). }
  destruct (strcaseeq _ (bs "psubscribe")) eqn:E5.
  { eexists. split; [done|]. unfold sub_effect. rewrite E4, E5. unfold ProcessPSubscribe.
    destruct (zlen argv <? 2) eqn:El; [|by apply fold_subscribe_pattern].
    destruct argv as [|a0 [|]]; [|cbn|bool_to_prop; cbn [length] in El; lia];
      cbn [tail list_to_set]; rewrite union_empty_l_L; (apply now_same; [done|apply same_reply]). }
  destruct (strcaseeq _ (bs "unsubscribe")) eqn:E6.
  { unfold sub_effect. rewrite E4, E5, E6. unfold ProcessUnSubscribe.
    destruct (zlen argv >? 1); [by apply for_unsubscribe_topic|by apply UnsubscribeAllTopics_ok]. }
  destruct (strcaseeq _ (bs "punsubscribe")) eqn:E7.
  { unfold sub_effect. rewrite E4, E5, E6, E7. unfold ProcessPUnSubscribe.
    destruct (zlen argv >? 1); [by apply for_unsubscribe_pattern|by apply UnsubscribeAllPatterns_ok]. }
  unfold sub_effect. rewrite E4, E5, E6, E7.
  destruct (strcaseeq _ (bs "shutdown")); [eexists; split; [done|by apply now_same]|].
  destruct (strcaseeq _ (bs "select")); [eexists; split; [done|apply now_same; [done|apply same_reply]]|].
  destruct (strcaseeq _ (bs "hello")); [eexists; split; [done|apply now_same; [done|apply same_reply]]|].
  eexists. split; [done|]. apply now_same; [done|]. unfold ProcessOther.
  destruct (existsb _ _); apply same_reply.
Qed.

(** C24. The commands implement a set of subscribed topics and a set of patterns: SUBSCRIBE and
    PSUBSCRIBE add their arguments, UNSUBSCRIBE and PUNSUBSCRIBE remove them, or all when there is
    no argument, every other command leaves both sets, and the tables of the worker always name the
    client for exactly these topics and patterns. *)
Theorem commands_implement_subscriptions argv s : subs_ok s ->
  exists b s', ProcessCommand cfg unixtime env set_begin argv s = Some (b, s')
    /\ let '(ts, ps) := sub_effect argv (sub_topics_ (conn s)) (sub_patterns_ (conn s)) in
       subs_ok s' /\ sub_topics_ (conn s') = ts /\ sub_patterns_ (conn s') = ps.
Proof.
  intros Hok. unfold ProcessCommand. destruct (strcaseeq _ (bs "quit")) eqn:Eq.
  - eexists false, _. split; [done|]. unfold ProcessQuit.
    assert (same_subs s (on_conn (fun c => with_flags c true (close_asap c)) (Reply cfg unixtime REP_OK s))) as Hs
      by (etrans; [apply same_reply|done]).
    pose proof (same_served argv _ _ _ Hok Eq ltac:(vm_compute; done) Hs) as H.
    destruct (sub_effect _ _ _). destruct H as (? & _ & ? & ?). done.
  - destruct (run_command_ok argv s Hok) as (s' & -> & H). eexists true, _. split; [done|].
    destruct (sub_effect _ _ _). destruct H as (? & _ & ? & ?). done.
Qed.

Lemma loop_total fuel req ps s : (length req <= fuel)%nat -> subs_ok s -> loop_ok ps s -> zlen req < 2 ^ 63 ->
  exists req' ps' s', request_loop cfg unixtime env set_begin fuel req ps s = Some (req', ps', s')
    /\ subs_ok s' /\ loop_ok ps' s' /\ (length req' <= length req)%nat.
Proof.
  revert req ps s. induction fuel as [|fuel IH]; intros req ps s Hf Hok Hl Hlen.
  { destruct req; [|cbn in Hf; lia]. by exists [], ps, s. }
  destruct req as [|c req]; [by exists [], ps, s|]. cbn [request_loop].
  destruct (close_after_reply (conn s)) eqn:Ec; [exists (c :: req), ps, s; auto|].
  destruct Hl as [Hl|?]; [|congruence]. pose proof (parse_shrinks ps (c :: req)) as Hsh.
  destruct (ParseRequestBuffer ps (c :: req)) as [ps1 r1|ps1 r1|ps1 rep r1] eqn:Ep.
  - exists r1, ps1, s. split_and!; [done|done|left; by eapply parse_PFalse_ok|done].
  - apply parse_PTrue_consumes in Ep; [|done]. cbn [length] in *.
    assert (Hnext : forall ps2 s2, subs_ok s2 -> loop_ok ps2 s2 ->
      exists req' ps' s', request_loop cfg unixtime env set_begin fuel r1 ps2 s2 = Some (req', ps', s')
        /\ subs_ok s' /\ loop_ok ps' s' /\ (length req' <= S (length req))%nat).
    { intros ps2 s2 H1 H2. destruct (IH r1 ps2 s2) as (x & y & z & ? & ? & ? & ?); [lia|done|done|lia|].
      exists x, y, z. split_and!; [done..|lia]. }
    destruct (argv_ ps1) as [|a0 argv]; [apply Hnext; [done|left; apply ps_ok_0]|].
    unfold ProcessCommand. destruct (strcaseeq _ (bs "quit")) eqn:Eq.
    + cbn. apply Hnext; [|by right].
      eapply subs_ok_same; [|exact Hok]. etrans; [apply (same_reply REP_OK)|done].
    + destruct (run_command_ok (a0 :: argv) s Hok) as (s1 & -> & H).
      destruct (sub_effect _ _ _). destruct H as (Hok1 & _). cbn.
      apply Hnext; [done|left; apply ps_ok_0].
  - eexists _, _, _. split_and!; [done| |by right|done]. eapply subs_ok_same; [|exact Hok].
    unfold ProcessProtocolError. destruct rep; [|done]. etrans; [apply same_reply|done].
Qed.

Lemma requests_served req ps s : subs_ok s -> loop_ok ps s -> zlen req < 2 ^ 63 ->
  exists req' ps' s', ProcessRequestBuffer cfg unixtime env set_begin req ps s = Some (req', ps', s')
    /\ subs_ok s' /\ loop_ok ps' s' /\ (length req' <= length req)%nat.
Proof. intros. by apply loop_total. Qed.

Lemma destroy_ok ip s : subs_ok s ->
  exists s', destroy cfg unixtime set_begin ip s = Some s'
    /\ tables_ok (clients_by_topic_ (wk s')) (pubsub_patterns_ (wk s'))
         (upd T (this (conn s)) ∅) (upd P (this (conn s)) ∅).
Proof.
  intros Hok. unfold destroy. set (s1 := if _ =? 0 then _ else _).
  assert (same_subs s s1) as Hs by (subst s1; by destruct (_ =? 0)).
  pose proof (subs_ok_same _ _ Hs Hok) as Hok1.
  destruct (UnsubscribeAllTopics_ok false s1 Hok1) as (s2 & -> & Hok2 & Hth2 & Ht2 & _).
  destruct (UnsubscribeAllPatterns_ok false s2 Hok2) as (s3 & H3 & Hok3 & Hth3 & Ht3 & Hp3).
  exists s3. split; [done|]. unfold subs_ok in Hok3. rewrite Ht3, Hp3, Ht2, Hth3, Hth2 in Hok3.
  destruct Hs as (<- & _). exact Hok3.
Qed.

(** Processing any bytes a client sends terminates without undefined behaviour, keeps the
    subscription tables consistent, and leaves no more bytes than there were. *)
Theorem requests_always_served req ps s : subs_ok s -> loop_ok ps s -> zlen req < 2 ^ 63 ->
  exists req' ps' s', ProcessRequestBuffer cfg unixtime env set_begin req ps s = Some (req', ps', s')
    /\ subs_ok s' /\ loop_ok ps' s' /\ (length req' <= length req)%nat.
Proof. apply requests_served. Qed.
End handlers.
