(* ===== verification/Worker.v ===== *)
(** * worker.cc, client.cc: the clients of a worker thread

    A worker serves its clients from one thread: its loop calls the functions
    of this file one at a time.  The clients are objects in a store, named by
    the tables and lists of the worker; a name without an object is a
    dangling pointer, whose use is an undefined outcome ([None]). *)

From S2P Require Import Prelude Common Util Glob EventLoop Protocol Client PubSub.

(** ** State *)

Record client := MkClient {
  req_ : bytes;
  parsing : pstate;
  self : connection;
}.

Record wstate {EL M : Type} := WState {
  core : worker EL;
  objs : gmap cid client;
  wms : M;
}.
Arguments wstate : clear implicits.
Arguments WState {EL M}.

(** What [read] and [write] on the socket return. *)
Inductive read_result : Type :=
| RData (buf : bytes)
| REof
| RError (again : bool).

Inductive write_result : Type :=
| Wrote (n : nat)
| WError (again : bool).

Section worker.
Context {EL M : Type} `{FileEvents EL fproc cid} `{MasterOps M}.
Variable cfg : Config.
Variable unixtime : Z.
Variable env : info_env.
Variable set_begin : gset bytes -> bytes.
(** [anetPeerToString] of a descriptor. *)
Variable peer_ip : Z -> bytes.

Notation wstate := (wstate EL M).
Notation st := (st EL M).

(** Runs a handler of client [c]. *)
Definition on_client (c : cid) (f : st -> option st) (ws : wstate) : option wstate :=
  cl ← objs ws !! c;
  s ← f (St (self cl) (core ws) (wms ws));
  Some (WState (wk s) (<[c := MkClient (req_ cl) (parsing cl) (conn s)]> (objs ws)) (ms s)).

(** ** Freeing clients *)

(** [delete c] *)
Definition delete_client (c : cid) (ws : wstate) : option wstate :=
  cl ← objs ws !! c;
  s ← destroy cfg unixtime set_begin (peer_ip (fd_ (self cl))) (St (self cl) (core ws) (wms ws));
  Some (WState (wk s) (delete c (objs ws)) (ms s)).

(** [erase(find(begin, end, c))] *)
Fixpoint erase_client (c : cid) (l : list cid) : list cid :=
  match l with
  | [] => []
  | x :: l => if decide (x = c) then l else x :: erase_client c l
  end.

Definition FreeClient (c : cid) (ws : wstate) : option wstate :=
  if decide (c ∈ clients_ (core ws)) then
    delete_client c
      (WState (with_clients (core ws) (erase_client c (clients_ (core ws))) (clients_to_close_ (core ws)))
         (objs ws) (wms ws))
  else Some ws.

Fixpoint delete_all (l : list cid) (ws : wstate) : option wstate :=
  match l with
  | [] => Some ws
  | c :: l => ws ← delete_client c ws; delete_all l ws
  end.

Definition FreeClientsInAsyncFreeQueue (ws : wstate) : option wstate :=
  ws ← delete_all (clients_to_close_ (core ws)) ws;
  Some (WState (with_clients (core ws) (clients_ (core ws)) []) (objs ws) (wms ws)).

(** ** Accepting a client *)

Definition new_connection (c : cid) (fd : Z) : connection :=
  Conn c fd [] 0 false false 0 0 (bs "NULL") ∅ ∅.

(** [Client::Create]; the constructor's [anetNonBlock] and
    [anetEnableTcpNoDelay] act on the socket only. *)
Definition Client_Create (sfd : Z) (ws : wstate) : option (option cid * wstate) :=
  let c := fresh (dom (objs ws)) in
  let cl := MkClient [] pstate0 (new_connection c sfd) in
  match fe_create (eventl_ (core ws)) sfd AE_READABLE ReadRequestProc c with
  | None => ws ← delete_client c (WState (core ws) (<[c := cl]> (objs ws)) (wms ws)); Some (None, ws)
  | Some el => Some (Some c, WState (with_eventl (core ws) el) (<[c := cl]> (objs ws)) (wms ws))
  end.

(** [GetNewConnection] for the descriptor taken from [conn_queue_]. *)
Definition GetNewConnection (sfd : Z) (ws : wstate) : option wstate :=
  '(r, ws) ← Client_Create sfd ws;
  match r with
  | None => Some ws
  | Some c => Some (WState (with_clients (core ws) (clients_ (core ws) ++ [c]) (clients_to_close_ (core ws))) (objs ws) (wms ws))
  end.

Lemma GetNewConnection_eq sfd ws : GetNewConnection sfd ws =
  let c := fresh (dom (objs ws)) in
  let cl := MkClient [] pstate0 (new_connection c sfd) in
  match fe_create (eventl_ (core ws)) sfd AE_READABLE ReadRequestProc c with
  | None => delete_client c (WState (core ws) (<[c := cl]> (objs ws)) (wms ws))
  | Some el =>
      let w := with_eventl (core ws) el in
      Some (WState (with_clients w (clients_ w ++ [c]) (clients_to_close_ w)) (<[c := cl]> (objs ws)) (wms ws))
  end.
Proof. unfold GetNewConnection, Client_Create. destruct (fe_create _ _ _ _ _); [done|]. by destruct (delete_client _ _). Qed.

(** ** What the log calls a client *)

(** The arrays of one and the other [ToString]: the letters of the flags, and
    of the events the descriptor is registered for. *)
Definition flag_letters (close_after close_soon : bool) : bytes :=
  match (if close_after then bs "c" else []) ++ (if close_soon then bs "A" else []) with [] => bs "N" | l => l end.
Definition event_letters (emask : Z) : bytes :=
  (if Z.land emask AE_READABLE =? 0 then [] else bs "r") ++ (if Z.land emask AE_WRITABLE =? 0 then [] else bs "w").

(** [Client::ToString]; [peer] is what [anetPeerToString] gives. *)
Definition ToString (peer : option (bytes * Z)) (el : EL) (cl : client) : bytes :=
  let '(ip, port) := default (bs "?", 0) peer in
  let c := self cl in
  let emask := if fd_ c =? -1 then 0 else fe_get el (fd_ c) in
  bs "addr=" ++ cstr ip ++ bs ":" ++ ll_text port ++ bs " fd=" ++ ll_text (fd_ c)
  ++ bs " idle=" ++ ll_text (i64 (unixtime - last_active_ c)) ++ bs " flags=" ++ flag_letters (close_after_reply c) (close_asap c)
  ++ bs " sub=" ++ ll_text (i32 (Z.of_nat (size (sub_topics_ c)))) ++ bs " psub=" ++ ll_text (i32 (Z.of_nat (size (sub_patterns_ c))))
  ++ bs " qbuf=" ++ ll_text (i32 (zlen (req_ cl))) ++ bs " omem=" ++ ll_text (i32 (zlen (rep_ c)))
  ++ bs " events=" ++ event_letters emask ++ bs " cmd=" ++ cstr (last_cmd_ c).

(** The letters fit in [flags[16]] and [events[3]], with their NUL. *)
Lemma letters_fit a b emask : zlen (flag_letters a b) < 16 /\ zlen (event_letters emask) < 3.
Proof. unfold event_letters. split; [by destruct a, b | by do 2 destruct (_ =? 0)]. Qed.

(** ** Input *)

(** [ReadRequest]; [append_ok] is what [Buffer::append] returns. *)
Definition ReadRequest (append_ok : bool) (r : read_result) (c : cid) (ws : wstate) : option wstate :=
  match r with
  | RError true => Some ws
  | RError false => FreeClient c ws
  | REof => FreeClient c ws
  | RData buf =>
      if negb append_ok then FreeClient c ws
      else
        cl ← objs ws !! c;
        let req := req_ cl ++ buf in
        if zlen req >? KIDS_MAX_QUERYBUF_LEN then
          FreeClient c (WState (core ws) (<[c := MkClient req (parsing cl) (self cl)]> (objs ws)) (wms ws))
        else
          '(req, ps, s) ← ProcessRequestBuffer cfg unixtime env set_begin req (parsing cl)
            (St (with_times (self cl) unixtime (last_soft_limit_ (self cl))) (core ws) (wms ws));
          Some (WState (wk s) (<[c := MkClient req ps (conn s)]> (objs ws)) (ms s))
  end.

(** ** Output *)

(** The loop of [SendReply] on what [write] returns each time: the
    connection, the bytes written by this call, and the error of the last
    [write] if it failed.  When the list runs out the socket is full. *)
Fixpoint send_loop (writes : list write_result) (c : connection) (out : bytes)
  : connection * bytes * option bool :=
  if sentlen_ c <? zlen (rep_ c) then
    match writes with
    | [] => (c, out, Some true)
    | WError again :: _ => (c, out, Some again)
    | Wrote n :: writes =>
        let pending := drop (Z.to_nat (sentlen_ c)) (rep_ c) in
        let sent := take n pending in
        let out := out ++ sent in
        if zlen sent =? 0 then (c, out, None)
        else
          let sentlen := sentlen_ c + zlen sent in
          if sentlen =? zlen (rep_ c) then (with_rep c [] 0, out, None)
          else
            let c := with_rep c (rep_ c) sentlen in
            if zlen out >? KIDS_MAX_WRITE_PER_EVENT then (c, out, None)
            else send_loop writes c out
    end
  else (c, out, None).

Definition SendReply (writes : list write_result) (c : cid) (ws : wstate) : option (wstate * bytes) :=
  cl ← objs ws !! c;
  let '(conn, out, err) := send_loop writes (self cl) [] in
  let put conn w := WState w (<[c := MkClient (req_ cl) (parsing cl) conn]> (objs ws)) (wms ws) in
  if bool_decide (err = Some false) then
    ws ← FreeClient c (put conn (core ws)); Some (ws, out)
  else
    let conn := if zlen out >? 0 then with_times conn unixtime (last_soft_limit_ conn) else conn in
    if sentlen_ conn >=? zlen (rep_ conn) then
      let w := with_eventl (core ws) (fe_delete (eventl_ (core ws)) (fd_ conn) AE_WRITABLE) in
      if close_after_reply conn then ws ← FreeClient c (put conn w); Some (ws, out)
      else Some (put conn w, out)
    else Some (put conn (core ws), out).

(** ** Publishing *)

Definition count_out (traffic : Z) (ws : wstate) : wstate :=
  WState (with_stat (core ws) (stat_out (stat_ (core ws)) traffic)) (objs ws) (wms ws).

Fixpoint publish_topic (topic content : bytes) (l : list cid) (ws : wstate) : option wstate :=
  match l with
  | [] => Some ws
  | c :: l =>
      ws ← on_client c (fun s => Some (ReceiveMessage cfg unixtime topic content s))
             (count_out (zlen topic + zlen content) ws);
      publish_topic topic content l ws
  end.

Fixpoint publish_patterns (topic content : bytes) (l : list (bytes * cid)) (ws : wstate) : option wstate :=
  match l with
  | [] => Some ws
  | (pattern, c) :: l =>
      match stringmatchlen pattern topic (ignore_case cfg) with
      | MRet true =>
          ws ← on_client c (fun s => Some (ReceivePatternMessage cfg unixtime topic content pattern s))
                 (count_out (zlen topic + zlen content) ws);
          publish_patterns topic content l ws
      | MRet false => publish_patterns topic content l ws
      | _ => None
      end
  end.

(** [PublishMessage] for the message [MQNext] gives; the handlers do not
    change the tables it iterates over. *)
Definition PublishMessage (msg : option (bytes * bytes)) (ws : wstate) : option wstate :=
  match msg with
  | None => Some ws
  | Some (topic, content) =>
      ws ← publish_topic topic content (default [] (clients_by_topic_ (core ws) !! topic)) ws;
      publish_patterns topic content (pubsub_patterns_ (core ws)) ws
  end.

(** ** The timer *)

(** The worker's own part of [Cron]; the master's [NotifyNewMessage] is in
    Master.v. *)
Definition Cron (ws : wstate) : option wstate :=
  ws ← FreeClientsInAsyncFreeQueue ws;
  let w := core ws in
  Some (WState (with_stat w (stat_sizes (stat_ w) (zlen (clients_ w))
    (Z.of_nat (size (clients_by_topic_ w))) (zlen (pubsub_patterns_ w)))) (objs ws) (wms ws)).
End worker.

(** ** The invariant of a worker *)

Section invariant.
Context {EL M : Type} `{!FileEvents EL fproc cid} `{!FileEventsLaws EL fproc cid} `{!MasterOps M}.
Variable cfg : Config.
Variable unixtime : Z.
Variable env : info_env.
Variable set_begin : gset bytes -> bytes.
Variable peer_ip : Z -> bytes.
Hypothesis set_begin_in : forall X, X <> ∅ -> set_begin X ∈ X.

Notation wstate := (wstate EL M).
Notation st := (st EL M).

(** The subscriptions of each client. *)
Definition topics_of (ws : wstate) (c : cid) : gset bytes :=
  from_option (fun cl => sub_topics_ (self cl)) ∅ (objs ws !! c).
Definition patterns_of (ws : wstate) (c : cid) : gset bytes :=
  from_option (fun cl => sub_patterns_ (self cl)) ∅ (objs ws !! c).

(** Output that waits is announced to the loop; what was sent is a proper
    part of it. *)
Definition output_ok (el : EL) (c : connection) : Prop :=
  (rep_ c <> [] -> Z.land (fe_get el (fd_ c)) AE_WRITABLE <> 0)
  /\ 0 <= sentlen_ c /\ (sentlen_ c = 0 \/ sentlen_ c < zlen (rep_ c)).

Record client_ok (el : EL) (c : cid) (cl : client) : Prop := {
  co_this : this (self cl) = c;
  co_fd : 0 < fd_ (self cl);
  co_parse : ps_ok (parsing cl) \/ close_after_reply (self cl) = true;
  co_output : output_ok el (self cl);
}.

Record core_ok (ws : wstate) : Prop := {
  wo_tables : tables_ok (clients_by_topic_ (core ws)) (pubsub_patterns_ (core ws)) (topics_of ws) (patterns_of ws);
  wo_clients c cl : objs ws !! c = Some cl -> client_ok (eventl_ (core ws)) c cl;
  wo_fds c c' cl cl' : objs ws !! c = Some cl -> objs ws !! c' = Some cl' ->
    fd_ (self cl) = fd_ (self cl') -> c = c';
}.

(** Every client is either connected or queued for closing, once. *)
Record lists_ok (ws : wstate) : Prop := {
  lo_nodup : NoDup (clients_ (core ws) ++ clients_to_close_ (core ws));
  lo_objs c : c ∈ clients_ (core ws) ++ clients_to_close_ (core ws) <-> is_Some (objs ws !! c);
  lo_asap c cl : objs ws !! c = Some cl -> close_asap (self cl) = true <-> c ∈ clients_to_close_ (core ws);
}.

Definition worker_ok (ws : wstate) : Prop := core_ok ws /\ lists_ok ws.

Lemma core_ok_subs ws c cl conn' : core_ok ws -> objs ws !! c = Some cl ->
  this conn' = c -> sub_topics_ conn' = sub_topics_ (self cl) -> sub_patterns_ conn' = sub_patterns_ (self cl) ->
  subs_ok (topics_of ws) (patterns_of ws) (St conn' (core ws) (wms ws)).
Proof.
  intros [Ht _ _] Hc Hth Hs Hp. unfold subs_ok. cbn. rewrite Hth, Hs, Hp.
  eapply tables_ok_ext; [| |exact Ht]; intros c'; unfold topics_of, patterns_of, upd; case_decide as He;
    [subst c'; by rewrite Hc|done|subst c'; by rewrite Hc|done].
Qed.

(** What serving client [c] by a handler gives: the handler is framed and
    keeps the tables. *)
Lemma serve_core ws c cl s s' req ps : core_ok ws -> objs ws !! c = Some cl ->
  (exists active, s = St (with_times (self cl) active (last_soft_limit_ (self cl))) (core ws) (wms ws)) ->
  frame s s' -> subs_ok (topics_of ws) (patterns_of ws) s' ->
  (ps_ok ps \/ close_after_reply (conn s') = true) ->
  core_ok (WState (wk s') (<[c := MkClient req ps (conn s')]> (objs ws)) (ms s')).
Proof.
  intros [Ht Hc Hf] Hcl (active & Es) Hfr Hsub Hps. pose proof (Hc _ _ Hcl) as [Hth Hfd _ (Hw & Hs0 & Hs1)].
  destruct Hfr as [Ffd Fth Fsent _ _ (t & Frep & Fw & Fs & _) Fwr Faf Fev _ _].
  subst s. cbn [conn wk fd_ this with_times sentlen_ rep_] in *.
  split; cbn [core objs].
  - unfold subs_ok in Hsub. rewrite Fth, Hth in Hsub.
    eapply tables_ok_ext; [| |exact Hsub]; intros c'; unfold topics_of, patterns_of, upd; cbn;
      rewrite lookup_insert; case_decide as He; try subst c'; try (rewrite decide_True by done; done);
      by rewrite decide_False by congruence.
  - intros c' cl'. rewrite lookup_insert_Some. intros [[<- <-]|[Hne Hc']].
    + split; cbn; [congruence|congruence|done|]. split_and!; [|lia|].
      * intros Hne. rewrite Frep in Hne. destruct t as [|x t].
        -- rewrite app_nil_r in Hne. apply Fwr. unfold writable. cbn. auto.
        -- by apply Fw.
      * rewrite Fsent, Frep, length_app. lia.
    + pose proof (Hc _ _ Hc') as [Hth' Hfd' Hps' (Hw' & ? & ?)]. split; try done. split_and!; try done.
      intros Hn. rewrite Fev; [by apply Hw'|lia|lia|]. intros He. apply Hne. by eapply Hf.
  - intros c1 c2 cl1 cl2. rewrite !lookup_insert_Some.
    intros [[<- <-]|[? H1]] [[<- <-]|[? H2]] He; cbn in He.
    + done.
    + eapply Hf; [exact Hcl|exact H2|congruence].
    + eapply Hf; [exact H1|exact Hcl|congruence].
    + by eapply Hf.
Qed.

Lemma serve_lists ws c cl s s' req ps : lists_ok ws -> objs ws !! c = Some cl ->
  this (self cl) = c ->
  (exists active, s = St (with_times (self cl) active (last_soft_limit_ (self cl))) (core ws) (wms ws)) ->
  frame s s' -> lists_ok (WState (wk s') (<[c := MkClient req ps (conn s')]> (objs ws)) (ms s')).
Proof.
  intros [Hn Ho Ha] Hcl Hth (active & Es) Hfr. subst s. destruct Hfr as [_ _ _ _ _ _ _ _ _ Fc _].
  cbn [conn wk this with_times close_asap] in Fc. rewrite Hth in Fc.
  pose proof (Ha _ _ Hcl) as Hac. pose proof (proj2 (Ho c) ltac:(eauto)) as Hin.
  destruct Fc as [(F1 & F2 & F3)|(F1 & F2 & F3 & F4)].
  - split; cbn; rewrite ?F2, ?F3; [done| |].
    + intros c'. rewrite Ho, lookup_insert. case_decide; [subst; rewrite Hcl; split; eauto|done].
    + intros c' cl'. rewrite lookup_insert_Some. intros [[<- <-]|[? ?]]; cbn; [by rewrite F1|by apply Ha].
  - assert (Hnc : c ∉ clients_to_close_ (core ws)) by (rewrite <- Hac, F1; done).
    assert (Hcc : c ∈ clients_ (core ws)) by (apply elem_of_app in Hin; tauto).
    rewrite decide_True in F4 by done.
    split; cbn; rewrite ?F3, ?F4.
    + apply NoDup_app in Hn as (N1 & N2 & N3). apply NoDup_app. split_and!; [by apply NoDup_filter| |].
      * intros x [Hx1 Hx2]%list_elem_of_filter [Hx|Hx%list_elem_of_singleton]%elem_of_app; [by eapply N2|done].
      * apply NoDup_app. split_and!; [done| |apply NoDup_singleton]. by intros x Hx ->%list_elem_of_singleton.
    + intros c'. rewrite lookup_insert, !elem_of_app, list_elem_of_filter, list_elem_of_singleton.
      specialize (Ho c'). rewrite elem_of_app in Ho. case_decide as He; [subst c'; split; eauto|].
      rewrite <- Ho. naive_solver.
    + intros c' cl'. rewrite lookup_insert_Some, elem_of_app, list_elem_of_singleton.
      intros [[<- <-]|[? Hc']]; cbn; [rewrite F2; tauto|]. rewrite (Ha _ _ Hc'). naive_solver.
Qed.

Lemma on_client_ok ws c f : worker_ok ws -> is_Some (objs ws !! c) ->
  (forall s, this (conn s) = c -> subs_ok (topics_of ws) (patterns_of ws) s -> exists s', f s = Some s'
     /\ frame s s' /\ subs_ok (topics_of ws) (patterns_of ws) s') ->
  exists ws', on_client c f ws = Some ws' /\ worker_ok ws'.
Proof.
  intros [Hc Hl] [cl Hcl] Hf. unfold on_client. rewrite Hcl. cbn [mbind option_bind].
  pose proof (wo_clients _ Hc _ _ Hcl) as Hco. pose proof Hco as [Hth _ Hps _].
  destruct (Hf (St (self cl) (core ws) (wms ws))) as (s' & -> & Hfr & Hsub);
    [done|by eapply core_ok_subs|].
  cbn. eexists. split; [done|].
  assert (Hs : exists active, St (self cl) (core ws) (wms ws)
    = St (with_times (self cl) active (last_soft_limit_ (self cl))) (core ws) (wms ws)).
  { exists (last_active_ (self cl)). by destruct (self cl). }
  pose proof (fr_after _ _ Hfr) as Haf. cbn in Haf.
  split; [eapply serve_core; try done; tauto|by eapply serve_lists].
Qed.

(** ** Deleting *)

(** Unsubscribing silently changes the tables only. *)
Definition quiet (s s' : st) : Prop :=
  eventl_ (wk s') = eventl_ (wk s) /\ clients_ (wk s') = clients_ (wk s)
  /\ clients_to_close_ (wk s') = clients_to_close_ (wk s).

#[local] Instance quiet_preorder : PreOrder quiet.
Proof. unfold quiet. split; [done|]. intros s1 s2 s3 ? ?. intuition congruence. Qed.

Lemma quiet_UnsubscribeTopic t s s' : UnsubscribeTopic cfg unixtime false t s = Some s' -> quiet s s'.
Proof.
  unfold UnsubscribeTopic. case_decide; [|by intros [= <-]].
  destruct (_ !! t); [|done]. cbn. by intros [= <-].
Qed.

Lemma quiet_UnsubscribePattern p s s' : UnsubscribePattern cfg unixtime false p s = Some s' -> quiet s s'.
Proof. unfold UnsubscribePattern. case_decide; by intros [= <-]. Qed.

Lemma quiet_AllTopics s s' : UnsubscribeAllTopics cfg unixtime set_begin false s = Some s' -> quiet s s'.
Proof.
  unfold UnsubscribeAllTopics. generalize (size (sub_topics_ (conn s))) as fuel. intros fuel. revert s.
  induction fuel as [|fuel IH]; intros s; cbn; (case_decide; [by intros [= <-]|]); [done|].
  intros (s1 & ? & ?)%bind_Some. etrans; [by eapply quiet_UnsubscribeTopic|by apply IH].
Qed.

Lemma quiet_AllPatterns s s' : UnsubscribeAllPatterns cfg unixtime set_begin false s = Some s' -> quiet s s'.
Proof.
  unfold UnsubscribeAllPatterns. generalize (size (sub_patterns_ (conn s))) as fuel. intros fuel. revert s.
  induction fuel as [|fuel IH]; intros s; cbn; (case_decide; [by intros [= <-]|]); [done|].
  intros (s1 & ? & ?)%bind_Some. etrans; [by eapply quiet_UnsubscribePattern|by apply IH].
Qed.

(** What [destroy] leaves of the worker. *)
Lemma destroy_worker ip s s' : destroy cfg unixtime set_begin ip s = Some s' ->
  clients_ (wk s') = clients_ (wk s) /\ clients_to_close_ (wk s') = clients_to_close_ (wk s)
  /\ (0 < fd_ (conn s) -> forall fd, 0 <= fd ->
      fe_get (eventl_ (wk s')) fd =
        if decide (fd_ (conn s) = fd)
        then Z.land (Z.land (fe_get (eventl_ (wk s)) fd) (Z.lnot AE_READABLE)) (Z.lnot AE_WRITABLE)
        else fe_get (eventl_ (wk s)) fd).
Proof.
  unfold destroy. set (s1 := if _ =? 0 then _ else _).
  assert (conn s1 = conn s /\ clients_ (wk s1) = clients_ (wk s) /\ clients_to_close_ (wk s1) = clients_to_close_ (wk s)
    /\ eventl_ (wk s1) = fe_delete (fe_delete (eventl_ (wk s)) (fd_ (conn s)) AE_READABLE) (fd_ (conn s)) AE_WRITABLE)
    as (E1 & E2 & E3 & E4) by (subst s1; by destruct (_ =? 0)).
  clearbody s1. intros (s2 & (Q1 & Q2 & Q3)%quiet_AllTopics & (R1 & R2 & R3)%quiet_AllPatterns)%bind_Some.
  split; [congruence|]. split; [congruence|]. intros Hfd fd Hge.
  rewrite R1, Q1, E4, !fe_delete_get by lia.
  destruct (decide (fd_ (conn s) = fd)) as [<-|]; [by rewrite decide_True by done|done].
Qed.

Lemma delete_core ws c : core_ok ws -> is_Some (objs ws !! c) ->
  exists ws', delete_client cfg unixtime set_begin peer_ip c ws = Some ws' /\ core_ok ws'
    /\ objs ws' = delete c (objs ws)
    /\ clients_ (core ws') = clients_ (core ws) /\ clients_to_close_ (core ws') = clients_to_close_ (core ws).
Proof.
  intros Hok [cl Hcl]. pose proof Hok as [Ht Hc Hf]. unfold delete_client. rewrite Hcl. cbn [mbind option_bind].
  pose proof (Hc _ _ Hcl) as [Hth Hfd _ _].
  pose proof (core_ok_subs _ _ _ (self cl) Hok Hcl Hth eq_refl eq_refl) as Hsub.
  destruct (destroy_ok cfg unixtime set_begin set_begin_in _ _ (peer_ip (fd_ (self cl))) _ Hsub)
    as (s' & E & Htab). rewrite E. cbn [conn] in Htab.
  apply destroy_worker in E as (E1 & E2 & E3). cbn [conn wk] in *.
  eexists. split; [done|]. split; [|done].
  split; cbn [core objs].
  - eapply tables_ok_ext; [| |exact Htab]; intros c'; rewrite Hth; unfold topics_of, patterns_of, upd; cbn;
      rewrite lookup_delete; case_decide as He; try subst c'; try (rewrite decide_True by done; done);
      by rewrite decide_False by congruence.
  - intros c' cl' [Hne Hc']%lookup_delete_Some. pose proof (Hc _ _ Hc') as [? ? ? (Hw & ?)].
    split; try done. split; [|done]. intros Hr. rewrite E3 by lia. rewrite decide_False; [by apply Hw|].
    intros He. apply Hne. by eapply Hf.
  - intros c1 c2 cl1 cl2 [_ H1]%lookup_delete_Some [_ H2]%lookup_delete_Some. by apply Hf.
Qed.

Lemma erase_client_filter c l : NoDup l -> erase_client c l = filter (fun x => x <> c) l.
Proof.
  induction 1 as [|x l Hx Hn IH]; [done|]. cbn [erase_client]. case_decide as He.
  - subst x. rewrite filter_cons_False by tauto. by rewrite filter_ne_notin.
  - rewrite filter_cons_True by done. by f_equal.
Qed.

Lemma FreeClient_ok ws c : worker_ok ws ->
  exists ws', FreeClient cfg unixtime set_begin peer_ip c ws = Some ws' /\ worker_ok ws'
    /\ objs ws' = (if decide (c ∈ clients_ (core ws)) then delete c (objs ws) else objs ws).
Proof.
  intros [Hc [Hn Ho Ha]]. unfold FreeClient. case_decide as Hin.
  2: { exists ws. split; [done|]. split; [by split|done]. }
  set (ws1 := WState _ _ _). assert (Hc1 : core_ok ws1) by (destruct Hc; by split).
  destruct (delete_core ws1 c Hc1) as (ws' & -> & Hc' & Hobj & E1 & E2).
  { apply Ho, elem_of_app. by left. }
  exists ws'. split; [done|]. split; [|by rewrite Hobj]. split; [done|].
  pose proof Hn as (N1 & N2 & N3)%NoDup_app. cbn in E1, E2, Hobj.
  rewrite erase_client_filter in E1 by done. split; rewrite ?E1, ?E2, ?Hobj.
  - apply NoDup_app. split_and!; [by apply NoDup_filter| |done].
    intros x [? ?]%list_elem_of_filter. by apply N2.
  - intros c'. specialize (Ho c'). rewrite elem_of_app in Ho. rewrite elem_of_app, list_elem_of_filter, lookup_delete.
    case_decide as He; [subst c'|rewrite <- Ho; naive_solver].
    split; [|by intros [? ?]]. intros [[? _]|Hx]; [done|]. by eapply N2 in Hin.
  - intros c' cl' [? Hc'']%lookup_delete_Some. by apply Ha.
Qed.

Lemma delete_all_ok l ws : core_ok ws -> NoDup l -> (forall c, c ∈ l -> is_Some (objs ws !! c)) ->
  exists ws', delete_all cfg unixtime set_begin peer_ip l ws = Some ws' /\ core_ok ws'
    /\ (forall c, objs ws' !! c = if decide (c ∈ l) then None else objs ws !! c)
    /\ clients_ (core ws') = clients_ (core ws).
Proof.
  revert ws. induction l as [|c l IH]; intros ws Hc Hn Hl; cbn [delete_all].
  { exists ws. by split_and!. }
  apply NoDup_cons in Hn as [Hcl Hn].
  destruct (delete_core ws c Hc) as (ws1 & -> & Hc1 & Ho1 & E1 & _); [apply Hl; set_solver|].
  destruct (IH ws1 Hc1 Hn) as (ws2 & H2 & Hc2 & Ho2 & E2).
  { intros c' Hc'. rewrite Ho1, lookup_delete_ne by (intros ->; done). apply Hl. by right. }
  exists ws2. split; [done|]. split; [done|]. split; [|congruence].
  intros c'. rewrite Ho2, Ho1. destruct (decide (c' ∈ l)) as [|Hx].
  - by rewrite decide_True by by right.
  - destruct (decide (c' = c)) as [->|]; [by rewrite lookup_delete_eq, decide_True by by left|].
    by rewrite lookup_delete_ne, decide_False by (done || rewrite elem_of_cons; tauto).
Qed.

Lemma FreeClientsInAsyncFreeQueue_ok ws : worker_ok ws ->
  exists ws', FreeClientsInAsyncFreeQueue cfg unixtime set_begin peer_ip ws = Some ws' /\ worker_ok ws'
    /\ clients_to_close_ (core ws') = [] /\ clients_ (core ws') = clients_ (core ws).
Proof.
  intros [Hc [Hn Ho Ha]]. unfold FreeClientsInAsyncFreeQueue. pose proof Hn as (N1 & N2 & N3)%NoDup_app.
  destruct (delete_all_ok (clients_to_close_ (core ws)) ws Hc N3) as (ws1 & -> & Hc1 & Ho1 & E1).
  { intros c Hx. apply Ho, elem_of_app. by right. }
  eexists. split; [done|]. split; [|done]. split; [destruct Hc1; by split|].
  split; cbn; rewrite ?E1, ?app_nil_r; [done| |].
  - intros c. rewrite Ho1. specialize (Ho c). rewrite elem_of_app in Ho. case_decide.
    + split; [by intros Hx%N2|by intros [? ?]].
    + rewrite <- Ho. tauto.
  - intros c cl. rewrite Ho1. case_decide; [done|]. intros Hx. rewrite (Ha _ _ Hx). set_solver.
Qed.

(** ** Serving *)

Lemma same_ReceiveMessage topic content (s : st) : same_subs s (ReceiveMessage cfg unixtime topic content s).
Proof.
  unfold ReceiveMessage, Reply, ReplyBulk. etrans; [|apply same_reply]. etrans; [|apply same_reply].
  etrans; [|apply same_reply]. apply same_reply.
Qed.

Lemma same_ReceivePatternMessage topic content p (s : st) :
  same_subs s (ReceivePatternMessage cfg unixtime topic content p s).
Proof.
  unfold ReceivePatternMessage, Reply, ReplyBulk. etrans; [|apply same_reply]. etrans; [|apply same_reply].
  etrans; [|apply same_reply]. etrans; [|apply same_reply]. apply same_reply.
Qed.

Lemma frame_ReceiveMessage topic content (s : st) : frame s (ReceiveMessage cfg unixtime topic content s).
Proof.
  unfold ReceiveMessage, Reply, ReplyBulk. etrans; [|apply frame_reply].
  etrans; [|apply frame_reply]. etrans; [|apply frame_reply]. apply frame_reply.
Qed.

Lemma frame_ReceivePatternMessage topic content p (s : st) :
  frame s (ReceivePatternMessage cfg unixtime topic content p s).
Proof.
  unfold ReceivePatternMessage, Reply, ReplyBulk. etrans; [|apply frame_reply].
  etrans; [|apply frame_reply]. etrans; [|apply frame_reply].
  etrans; [|apply frame_reply]. apply frame_reply.
Qed.

(** Replacing the connection of [c] by one that has said less. *)
Lemma replace_ok ws c cl req conn' el : worker_ok ws -> objs ws !! c = Some cl ->
  (exists rep sent active, conn' = with_times (with_rep (self cl) rep sent) active (last_soft_limit_ (self cl))) ->
  output_ok el conn' ->
  (forall fd, 0 <= fd -> fd <> fd_ (self cl) -> fe_get el fd = fe_get (eventl_ (core ws)) fd) ->
  worker_ok (WState (with_eventl (core ws) el) (<[c := MkClient req (parsing cl) conn']> (objs ws)) (wms ws)).
Proof.
  intros [[Ht Hc Hf] [Hn Ho Ha]] Hcl (rep & sent & active & ->) Hout Hel.
  pose proof (Hc _ _ Hcl) as [Hth Hfd Hps _]. split; split; cbn; try done.
  - eapply tables_ok_ext; [| |exact Ht]; intros c'; unfold topics_of, patterns_of; cbn;
      (rewrite lookup_insert; case_decide; [subst c'; by rewrite Hcl|done]).
  - intros c' cl'. rewrite lookup_insert_Some. intros [[<- <-]|[Hne Hc']]; [by split|].
    pose proof (Hc _ _ Hc') as [? ? ? (Hw & ?)]. split; try done. split; [|done].
    intros Hr. rewrite Hel; [by apply Hw|lia|]. intros He. apply Hne. by eapply Hf.
  - intros c1 c2 cl1 cl2. rewrite !lookup_insert_Some.
    intros [[<- <-]|[? H1]] [[<- <-]|[? H2]] He; cbn in He;
      [done|by eapply Hf|symmetry in He; symmetry; by eapply Hf|by eapply Hf].
  - intros c'. rewrite Ho, lookup_insert. case_decide; [subst; rewrite Hcl; split; eauto|done].
  - intros c' cl'. rewrite lookup_insert_Some. intros [[<- <-]|[? ?]]; cbn; by apply Ha.
Qed.

Definition pending (c : connection) : bytes := drop (Z.to_nat (sentlen_ c)) (rep_ c).

(** The loop of [SendReply] moves bytes from what is pending to the socket,
    in order. *)
Lemma send_loop_spec writes c out c' out' err :
  send_loop writes c out = (c', out', err) ->
  0 <= sentlen_ c -> (sentlen_ c = 0 \/ sentlen_ c < zlen (rep_ c)) ->
  (exists rep sent, c' = with_rep c rep sent /\ (rep = rep_ c \/ rep = []))
  /\ 0 <= sentlen_ c' /\ (sentlen_ c' = 0 \/ sentlen_ c' < zlen (rep_ c'))
  /\ out' ++ pending c' = out ++ pending c
  /\ (sentlen_ c' >= zlen (rep_ c') -> rep_ c' = []).
Proof.
  assert (Hself : forall c : connection, c = with_rep c (rep_ c) (sentlen_ c)) by (by intros []).
  revert c out. induction writes as [|[n|again] writes IH]; intros c out; cbn [send_loop];
    destruct (sentlen_ c <? zlen (rep_ c)) eqn:E; bool_to_prop.
  1, 5: intros [= <- <- <-] H0 H1; split_and!; [by exists (rep_ c), (sentlen_ c); auto|done|done|done|lia].
  1, 3, 4: intros [= <- <- <-] H0 H1; split_and!; [by exists (rep_ c), (sentlen_ c); auto|done|done|done|];
    intros _; destruct (rep_ c); [done|cbn in *; lia].
  fold (pending c). set (sent := take n (pending c)). intros Hrun H0 H1.
  assert (Hp : length (pending c) = (length (rep_ c) - Z.to_nat (sentlen_ c))%nat) by apply length_drop.
  assert (Hs : (length sent <= length (pending c))%nat) by (subst sent; rewrite length_take; lia).
  destruct (zlen sent =? 0) eqn:Es; bool_to_prop.
  { injection Hrun as <- <- <-. assert (sent = []) as -> by (destruct sent; [done|cbn in Es; lia]).
    rewrite app_nil_r. split_and!; [by exists (rep_ c), (sentlen_ c); auto|done|done|done|lia]. }
  assert (Hsplit : pending c = sent ++ drop (length sent) (pending c)).
  { subst sent. rewrite <- (take_drop n (pending c)) at 1. f_equal. rewrite length_take.
    destruct (decide (n <= length (pending c))%nat); [by rewrite Nat.min_l by lia|].
    rewrite Nat.min_r by lia. by rewrite !drop_ge by lia. }
  destruct (sentlen_ c + zlen sent =? zlen (rep_ c)) eqn:Ef; bool_to_prop.
  - injection Hrun as <- <- <-. cbn. split_and!; [by exists [], 0; auto|lia|lia| |done].
    rewrite app_nil_r. f_equal. rewrite Hsplit, (drop_ge (pending c)) by lia. by rewrite app_nil_r.
  - set (c1 := with_rep c (rep_ c) (sentlen_ c + zlen sent)) in *.
    assert (Hp1 : out ++ pending c = (out ++ sent) ++ pending c1).
    { rewrite <- app_assoc. f_equal. rewrite Hsplit at 1. f_equal. unfold pending. cbn.
      rewrite drop_drop. f_equal. lia. }
    rewrite Hp1. destruct (zlen (out ++ sent) >? KIDS_MAX_WRITE_PER_EVENT).
    + injection Hrun as <- <- <-. cbn. split_and!; [by exists (rep_ c), (sentlen_ c + zlen sent); auto|lia|lia|done|lia].
    + apply IH in Hrun as ((rep & s2 & -> & Hr) & ? & ? & ? & ?); [|cbn; lia|cbn; lia].
      split_and!; [by exists rep, s2; auto|done|done|done|done].
Qed.

Lemma SendReply_ok writes ws c : worker_ok ws -> is_Some (objs ws !! c) ->
  exists ws' out, SendReply cfg unixtime set_begin peer_ip writes c ws = Some (ws', out) /\ worker_ok ws'
    /\ forall cl, objs ws !! c = Some cl ->
        match objs ws' !! c with
        | Some cl' => out ++ pending (self cl') = pending (self cl)
            /\ (pending (self cl') = [] -> rep_ (self cl') = [])
        | None => exists rest, out ++ rest = pending (self cl)
        end.
Proof.
  intros Hok [cl Hcl]. pose proof Hok as [Hcore _]. pose proof (wo_clients _ Hcore _ _ Hcl) as [Hth Hfd Hps (Hw & Hs0 & Hs1)].
  unfold SendReply. rewrite Hcl. cbn [mbind option_bind].
  destruct (send_loop writes (self cl) []) as [[conn' out] err] eqn:El.
  apply send_loop_spec in El as ((rep & sent & -> & Hrep) & H0 & H1 & Hout & Hall); [|done..].
  set (conn1 := with_rep (self cl) rep sent) in *. cbn [app] in Hout.
  (* the connection that is put back, and the events *)
  assert (Hput : forall conn2 el,
    (conn2 = conn1 \/ conn2 = with_times conn1 unixtime (last_soft_limit_ conn1)) ->
    (el = eventl_ (core ws) \/ el = fe_delete (eventl_ (core ws)) (fd_ conn2) AE_WRITABLE /\ rep = []) ->
    worker_ok (WState (with_eventl (core ws) el) (<[c := MkClient (req_ cl) (parsing cl) conn2]> (objs ws)) (wms ws))).
  { intros conn2 el Hc2 Hel. apply replace_ok; [done|done| | |].
    - destruct Hc2 as [->| ->]; [exists rep, sent, (last_active_ (self cl)); by subst conn1; destruct (self cl)
                                |by exists rep, sent, unixtime].
    - split; [|by destruct Hc2 as [->| ->]]. intros Hne.
      assert (rep_ conn2 = rep /\ fd_ conn2 = fd_ (self cl)) as [E1 E2] by (by destruct Hc2 as [->| ->]).
      rewrite E1 in Hne. rewrite E2. destruct Hel as [->|[_ ?]]; [|done]. apply Hw.
      by destruct Hrep as [<-|?].
    - intros fd Hge Hne. assert (fd_ conn2 = fd_ (self cl)) as E2 by (by destruct Hc2 as [->| ->]).
      destruct Hel as [->|[-> _]]; [done|]. rewrite E2, fe_delete_get by lia. by rewrite decide_False. }
  assert (Hcore0 : forall w : worker EL, w = with_eventl w (eventl_ w)) by (by intros []).
  (* what is left after a FreeClient *)
  assert (Hfree : forall conn2 ws1, (conn2 = conn1 \/ conn2 = with_times conn1 unixtime (last_soft_limit_ conn1)) ->
    worker_ok ws1 -> objs ws1 = <[c := MkClient (req_ cl) (parsing cl) conn2]> (objs ws) ->
    exists ws' out0, (ws' ← FreeClient cfg unixtime set_begin peer_ip c ws1; Some (ws', out)) = Some (ws', out0)
      /\ worker_ok ws' /\ forall cl0, Some cl = Some cl0 ->
        match objs ws' !! c with
        | Some cl' => out0 ++ pending (self cl') = pending (self cl0) /\ (pending (self cl') = [] -> rep_ (self cl') = [])
        | None => exists rest, out0 ++ rest = pending (self cl0)
        end).
  { intros conn2 ws1 Hc2 Hok1 Ho1. destruct (FreeClient_ok ws1 c Hok1) as (ws' & -> & Hok' & Ho').
    exists ws', out. split; [done|]. split; [done|]. intros cl0 [= <-]. rewrite Ho', Ho1.
    assert (pending conn2 = pending conn1 /\ rep_ conn2 = rep_ conn1) as [E1 E2] by (by destruct Hc2 as [->| ->]).
    case_decide; [rewrite lookup_delete_eq; eauto|rewrite lookup_insert_eq; cbn [self]].
    rewrite E1, E2. split; [done|]. intros Hp. apply Hall.
    apply (f_equal length) in Hp. unfold pending in Hp. rewrite length_drop in Hp. cbn [length] in Hp. lia. }
  case_bool_decide.
  { eapply Hfree; [by left|rewrite (Hcore0 (core ws)); apply Hput; by left|done]. }
  set (conn2 := if zlen out >? 0 then _ else _).
  assert (Hc2 : conn2 = conn1 \/ conn2 = with_times conn1 unixtime (last_soft_limit_ conn1))
    by (subst conn2; destruct (_ >? 0); auto).
  assert (E : sentlen_ conn2 = sentlen_ conn1 /\ rep_ conn2 = rep_ conn1 /\ pending conn2 = pending conn1)
    by (by destruct Hc2 as [->| ->]). destruct E as (E1 & E2 & E3). clearbody conn2.
  destruct (sentlen_ conn2 >=? zlen (rep_ conn2)) eqn:Ege.
  - assert (Hnil : rep_ conn1 = []) by (apply Hall; rewrite E1, E2 in Ege; rewrite Z.geb_leb in Ege; bool_to_prop; lia).
    destruct (close_after_reply conn2).
    + eapply Hfree; [done|apply Hput; [done|right; done]|done].
    + eexists _, out. split; [done|]. split; [apply Hput; [done|right; done]|].
      intros cl0 [= <-]. cbn. rewrite lookup_insert_eq. cbn. rewrite E3, E2. done.
  - eexists _, out. split; [done|]. split; [rewrite (Hcore0 (core ws)); apply Hput; [done|by left]|].
    intros cl0 [= <-]. cbn. rewrite lookup_insert_eq. cbn. rewrite E3, E2. split; [done|].
    intros Hp. apply Hall. apply (f_equal length) in Hp. unfold pending in Hp. rewrite length_drop in Hp. cbn [length] in Hp. lia.
Qed.

Lemma GetNewConnection_ok sfd ws : worker_ok ws -> 0 < sfd ->
  (forall c cl, objs ws !! c = Some cl -> fd_ (self cl) <> sfd) ->
  exists ws', GetNewConnection cfg unixtime set_begin peer_ip sfd ws = Some ws' /\ worker_ok ws'.
Proof.
  intros [Hc [Hn Ho Ha]] Hfd Hnew. rewrite GetNewConnection_eq. cbv zeta. set (c := fresh (dom (objs ws))).
  assert (Hfresh : objs ws !! c = None) by (apply not_elem_of_dom, is_fresh).
  assert (Hadd : forall w el, w = with_eventl (core ws) el ->
    (forall fd, 0 <= fd -> fd <> sfd -> fe_get el fd = fe_get (eventl_ (core ws)) fd) ->
    core_ok (WState w (<[c := MkClient [] pstate0 (new_connection c sfd)]> (objs ws)) (wms ws))).
  { intros w el -> Hel. destruct Hc as [Ht Hcl Hf]. split; cbn.
    - eapply tables_ok_ext; [| |exact Ht]; intros c'; unfold topics_of, patterns_of; cbn;
        (rewrite lookup_insert; case_decide; [subst c'; by rewrite Hfresh|done]).
    - intros c' cl'. rewrite lookup_insert_Some. intros [[<- <-]|[Hne Hc']].
      + split; cbn; [done|done|left; apply ps_ok_0|split; cbn; [done|lia]].
      + pose proof (Hcl _ _ Hc') as [? ? ? (Hw & ?)]. split; try done. split; [|done].
        intros Hr. rewrite Hel; [by apply Hw|lia|by eapply Hnew].
    - intros c1 c2 cl1 cl2. rewrite !lookup_insert_Some.
      intros [[<- <-]|[? H1]] [[<- <-]|[? H2]] He; cbn in He; [done| | |by eapply Hf].
      + by destruct (Hnew _ _ H2).
      + by destruct (Hnew _ _ H1). }
  destruct (fe_create _ sfd _ _ _) as [el|] eqn:Ef.
  - eexists. split; [done|]. split.
    + edestruct (Hadd (with_eventl (core ws) el) el eq_refl) as [H1 H2 H3]; [|by split].
      intros fd Hge Hne. rewrite (fe_create_get _ _ _ _ _ _ fd (Z.lt_le_incl _ _ Hfd) Hge Ef). by rewrite decide_False.
    + split; cbn.
      * apply NoDup_app in Hn as (N1 & N2 & N3).
        assert (c ∉ clients_ (core ws) ++ clients_to_close_ (core ws)) as Hnin
          by (rewrite Ho, Hfresh; by intros [? ?]).
        rewrite <- app_assoc. apply NoDup_app. split_and!; [done|set_solver|]. apply NoDup_cons. set_solver.
      * intros c'. rewrite lookup_insert. specialize (Ho c'). rewrite elem_of_app in Ho.
        rewrite !elem_of_app, list_elem_of_singleton. case_decide as He; [subst; split; eauto|].
        rewrite <- Ho. naive_solver.
      * intros c' cl'. rewrite lookup_insert_Some. intros [[<- <-]|[? ?]]; [|by apply Ha]. cbn.
        split; [done|]. intros Hx. assert (is_Some (objs ws !! c)) as [? ?] by (apply Ho, elem_of_app; by right).
        congruence.
  - edestruct (delete_core (WState (core ws) (<[c := MkClient [] pstate0 (new_connection c sfd)]> (objs ws)) (wms ws)) c)
      as (ws' & -> & Hc' & Hobj & E1 & E2); [|cbn [objs]; rewrite lookup_insert_eq; eauto|].
    { apply (Hadd _ (eventl_ (core ws))); [by destruct (core ws)|done]. }
    exists ws'. split; [done|]. split; [done|]. cbn in Hobj, E1, E2. rewrite delete_insert_id in Hobj by done.
    split; rewrite ?E1, ?E2, ?Hobj; done.
Qed.

Lemma ReadRequest_ok append_ok r c ws : worker_ok ws -> is_Some (objs ws !! c) ->
  exists ws', ReadRequest cfg unixtime env set_begin peer_ip append_ok r c ws = Some ws' /\ worker_ok ws'.
Proof.
  intros Hok [cl Hcl]. pose proof Hok as [Hcore Hlists].
  assert (Hfree : forall ws, worker_ok ws ->
    exists ws', FreeClient cfg unixtime set_begin peer_ip c ws = Some ws' /\ worker_ok ws').
  { intros ws1 H1. destruct (FreeClient_ok ws1 c H1) as (ws' & ? & ? & _). eauto. }
  pose proof (wo_clients _ Hcore _ _ Hcl) as [Hth Hfd Hps Hout].
  unfold ReadRequest. destruct r as [buf| |[|]]; [|by apply Hfree|by exists ws|by apply Hfree].
  destruct append_ok; [|by apply Hfree]. cbn [negb]. rewrite Hcl. cbn [mbind option_bind].
  destruct (zlen (req_ cl ++ buf) >? KIDS_MAX_QUERYBUF_LEN) eqn:El.
  - apply Hfree.
    replace (core ws) with (with_eventl (core ws) (eventl_ (core ws))) by (by destruct (core ws)).
    apply replace_ok; [done|done| |by destruct (core ws)|done].
    exists (rep_ (self cl)), (sentlen_ (self cl)), (last_active_ (self cl)). by destruct (self cl).
  - rewrite Z.gtb_ltb in El. bool_to_prop. set (s := St _ _ _).
    assert (Hsub : subs_ok (topics_of ws) (patterns_of ws) s) by (by eapply core_ok_subs).
    destruct (requests_served cfg unixtime env set_begin set_begin_in _ _
      (req_ cl ++ buf) (parsing cl) s Hsub Hps) as (req' & ps' & s' & E & Hsub' & Hps' & _).
    { unfold KIDS_MAX_QUERYBUF_LEN in El. lia. }
    rewrite E. unfold ProcessRequestBuffer in E. apply frame_request_loop in E; [|exact Hps].
    eexists. split; [done|].
    assert (Hs : exists active, s = St (with_times (self cl) active (last_soft_limit_ (self cl))) (core ws) (wms ws))
      by (by exists unixtime).
    split; [by eapply serve_core|by eapply serve_lists].
Qed.

(** ** Publishing *)

(** Serving a client with a handler that leaves the subscriptions alone. *)
Lemma deliver_ok ws c f : worker_ok ws -> is_Some (objs ws !! c) ->
  (forall s : st, frame s (f s) /\ same_subs s (f s)) ->
  exists ws', on_client c (fun s => Some (f s)) ws = Some ws' /\ worker_ok ws'
    /\ clients_by_topic_ (core ws') = clients_by_topic_ (core ws)
    /\ pubsub_patterns_ (core ws') = pubsub_patterns_ (core ws)
    /\ forall c' cl, objs ws !! c' = Some cl ->
        exists cl', objs ws' !! c' = Some cl' /\ sub_topics_ (self cl') = sub_topics_ (self cl)
          /\ sub_patterns_ (self cl') = sub_patterns_ (self cl)
          /\ self cl' = if decide (c' = c) then conn (f (St (self cl) (core ws) (wms ws))) else self cl.
Proof.
  intros Hok Hc Hf.
  destruct (on_client_ok ws c (fun s => Some (f s)) Hok Hc) as (ws' & E & Hok').
  { intros s _ Hs. destruct (Hf s) as [? ?]. eexists. split_and!; [done..|by eapply subs_ok_same]. }
  exists ws'. split; [done|]. split; [done|]. unfold on_client in E.
  destruct Hc as [cl0 Hcl0]. rewrite Hcl0 in E. cbn in E. injection E as <-.
  destruct (Hf (St (self cl0) (core ws) (wms ws))) as [_ (E1 & E2 & E3 & E4 & E5)]. cbn in *.
  split; [done|]. split; [done|]. intros c' cl Hcl. rewrite lookup_insert. case_decide as Hd.
  - subst c'. assert (cl = cl0) as -> by congruence. eexists. split; [done|]. cbn. by rewrite decide_True.
  - exists cl. rewrite decide_False by congruence. done.
Qed.

Definition count_ok ws n : worker_ok ws -> worker_ok (count_out n ws).
Proof. intros [[? ? ?] [? ? ?]]. split; by split. Qed.
End invariant.

(** ** Publishing delivers *)

Section publish.
Context {EL M : Type} `{!FileEvents EL fproc cid} `{!FileEventsLaws EL fproc cid} `{!MasterOps M}.
Variable cfg : Config.
Variable unixtime : Z.
(** The loop has room for the descriptors of the clients, and the kernel
    accepts their events. *)
Hypothesis registered : forall (el : EL) fd m p (d : cid), 0 < fd -> fe_create el fd m p d <> None.

Notation wstate := (wstate EL M).
Notation st := (st EL M).

(** A client whose output buffer takes replies: not closing, and with no
    reply half sent. *)
Definition accepting (c : connection) : Prop :=
  0 < fd_ c /\ close_after_reply c = false /\ sentlen_ c = 0.

Lemma limits_rep (s : st) :
  rep_ (conn (AsyncCloseOnOutputBufferLimitsReached cfg unixtime s)) = rep_ (conn s)
  /\ (accepting (conn s) -> accepting (conn (AsyncCloseOnOutputBufferLimitsReached cfg unixtime s))).
Proof.
  unfold AsyncCloseOnOutputBufferLimitsReached. destruct (close_asap (conn s)); [done|].
  destruct (CheckOutputBufferLimits_conn cfg unixtime (conn s)) as [soft Hs].
  destruct (CheckOutputBufferLimits _ _ _) as [[|] c]; cbn in Hs; subst c; done.
Qed.

Lemma reply_accepted text (s : st) : accepting (conn s) ->
  accepting (conn (reply_with cfg unixtime text s))
  /\ rep_ (conn (reply_with cfg unixtime text s)) = rep_ (conn s) ++ text.
Proof.
  intros Ha. pose proof Ha as (Hfd & Hc & Hs). unfold reply_with, SetWriteEvent. rewrite Hc, Hs.
  rewrite (proj2 (Z.leb_gt _ _)) by lia. change (0 =? 0) with true. cbn [negb].
  destruct (fe_create _ _ _ _ _) as [el|] eqn:E; [|by apply registered in E].
  cbn [mbind option_bind]. set (s1 := on_conn _ _). destruct (limits_rep s1) as [-> Hl].
  split; [by apply Hl|done].
Qed.

(** The two kinds of messages are arrays in the protocol the server itself
    parses. *)
Lemma ReceiveMessage_text topic content (s : st) : accepting (conn s) ->
  let s' := ReceiveMessage cfg unixtime topic content s in
  accepting (conn s') /\ rep_ (conn s') = rep_ (conn s) ++ encode [bs "message"; topic; content].
Proof.
  intros H0. unfold ReceiveMessage, Reply, ReplyBulk.
  destruct (reply_accepted REP_MBULK3 s H0) as [H1 E1]. set (s1 := reply_with _ _ _ s) in *.
  destruct (reply_accepted REP_MESSAGEBULK s1 H1) as [H2 E2]. set (s2 := reply_with _ _ _ s1) in *.
  destruct (reply_accepted (bulk topic) s2 H2) as [H3 E3].
  fold (bulk topic) (bulk content). set (s3 := reply_with _ _ _ s2) in *.
  destruct (reply_accepted (bulk content) s3 H3) as [H4 E4]. split; [done|].
  rewrite E4, E3, E2, E1. rewrite <- !app_assoc. unfold encode. cbn [map concat]. by rewrite app_nil_r.
Qed.

Lemma ReceivePatternMessage_text topic content p (s : st) : accepting (conn s) ->
  let s' := ReceivePatternMessage cfg unixtime topic content p s in
  accepting (conn s') /\ rep_ (conn s') = rep_ (conn s) ++ encode [bs "pmessage"; p; topic; content].
Proof.
  intros H0. unfold ReceivePatternMessage, Reply, ReplyBulk.
  destruct (reply_accepted REP_MBULK4 s H0) as [H1 E1]. set (s1 := reply_with _ _ _ s) in *.
  destruct (reply_accepted REP_PMESSAGEBULK s1 H1) as [H2 E2]. set (s2 := reply_with _ _ _ s1) in *.
  destruct (reply_accepted (bulk p) s2 H2) as [H3 E3]. fold (bulk p) (bulk topic) (bulk content).
  set (s3 := reply_with _ _ _ s2) in *.
  destruct (reply_accepted (bulk topic) s3 H3) as [H4 E4]. set (s4 := reply_with _ _ _ s3) in *.
  destruct (reply_accepted (bulk content) s4 H4) as [H5 E5]. split; [done|].
  rewrite E5, E4, E3, E2, E1. rewrite <- !app_assoc. unfold encode. cbn [map concat]. by rewrite app_nil_r.
Qed.

(** The frames in [ds] addressed to [c]. *)
Definition frames_for (c : cid) (ds : list (cid * bytes)) : bytes :=
  concat (snd <$> filter (fun d => d.1 = c) ds).

(** [ws'] is [ws] after the deliveries [ds]. *)
Definition delivered (ds : list (cid * bytes)) (ws ws' : wstate) : Prop :=
  worker_ok ws' /\ clients_by_topic_ (core ws') = clients_by_topic_ (core ws)
  /\ pubsub_patterns_ (core ws') = pubsub_patterns_ (core ws)
  /\ forall c cl, objs ws !! c = Some cl ->
      exists cl', objs ws' !! c = Some cl' /\ sub_topics_ (self cl') = sub_topics_ (self cl)
        /\ sub_patterns_ (self cl') = sub_patterns_ (self cl)
        /\ (accepting (self cl) -> accepting (self cl')
             /\ rep_ (self cl') = rep_ (self cl) ++ frames_for c ds).

Lemma delivered_nil ws : worker_ok ws -> delivered [] ws ws.
Proof. intros. split_and!; try done. intros c cl Hc. exists cl. cbn. rewrite app_nil_r. done. Qed.

Lemma delivered_app ds1 ds2 ws1 ws2 ws3 :
  delivered ds1 ws1 ws2 -> delivered ds2 ws2 ws3 -> delivered (ds1 ++ ds2) ws1 ws3.
Proof.
  intros (_ & Ht1 & Hp1 & H1) (Hok & Ht2 & Hp2 & H2). split_and!; [done|congruence|congruence|].
  intros c cl Hc. destruct (H1 _ _ Hc) as (cl1 & Hc1 & E1 & E2 & Ha1).
  destruct (H2 _ _ Hc1) as (cl2 & Hc2 & E3 & E4 & Ha2). exists cl2. split_and!; [done|congruence|congruence|].
  intros Ha. destruct (Ha1 Ha) as [Ha' R1]. destruct (Ha2 Ha') as [Ha'' R2]. split; [done|].
  rewrite R2, R1, <- app_assoc. unfold frames_for. by rewrite filter_app, fmap_app, concat_app.
Qed.

Lemma deliver_one ws c (f : st -> st) frame n : worker_ok ws -> is_Some (objs ws !! c) ->
  (forall s : st, Client.frame s (f s) /\ same_subs s (f s)) ->
  (forall s : st, accepting (conn s) -> accepting (conn (f s)) /\ rep_ (conn (f s)) = rep_ (conn s) ++ frame) ->
  exists ws', on_client c (fun s => Some (f s)) (count_out n ws) = Some ws' /\ delivered [(c, frame)] ws ws'.
Proof.
  intros Hok Hc Hf Ht.
  destruct (deliver_ok unixtime (fun _ => []) (count_out n ws) c f (count_ok _ _ Hok) Hc Hf) as (ws' & E & Hok' & E1 & E2 & Hcl).
  exists ws'. split; [done|]. split_and!; [done|done|done|]. intros c' cl Hc'.
  destruct (Hcl c' cl Hc') as (cl' & ? & ? & ? & Eself). exists cl'. split_and!; [done..|].
  rewrite Eself. unfold frames_for. case_decide as Hd.
  - subst c'. intros Ha. destruct (Ht (St (self cl) (core (count_out n ws)) (wms (count_out n ws))) Ha) as [? ->].
    split; [done|]. rewrite filter_cons_True by done. cbn. by rewrite app_nil_r.
  - intros Ha. split; [done|]. rewrite filter_cons_False by (cbn; congruence). cbn. by rewrite app_nil_r.
Qed.

Lemma delivered_objs ds ws ws' : delivered ds ws ws' -> forall c, is_Some (objs ws !! c) -> is_Some (objs ws' !! c).
Proof. intros (_ & _ & _ & H) c [cl Hc]. destruct (H _ _ Hc) as (? & ? & _). eauto. Qed.

Lemma publish_topic_ok topic content l ws : worker_ok ws -> (forall c, c ∈ l -> is_Some (objs ws !! c)) ->
  exists ws', publish_topic cfg unixtime topic content l ws = Some ws'
    /\ delivered ((fun c => (c, encode [bs "message"; topic; content])) <$> l) ws ws'.
Proof.
  revert ws. induction l as [|c l IH]; intros ws Hok Hl; cbn [publish_topic].
  { exists ws. split; [done|]. by apply delivered_nil. }
  destruct (deliver_one ws c (ReceiveMessage cfg unixtime topic content) (encode [bs "message"; topic; content])
    (zlen topic + zlen content) Hok) as (ws1 & -> & H1); [apply Hl; by left| | |].
  { intros s. split; [apply frame_ReceiveMessage|apply same_ReceiveMessage]. }
  { intros s. apply ReceiveMessage_text. }
  destruct (IH ws1) as (ws2 & E2 & H2); [apply H1|intros c' ?; eapply delivered_objs; [done|apply Hl; by right]|].
  exists ws2. split; [done|]. rewrite fmap_cons. by eapply (delivered_app [_]).
Qed.

(** The entries whose pattern matches. *)
Definition matching (topic : bytes) (l : list (bytes * cid)) : list (bytes * cid) :=
  filter (fun pc => stringmatchlen pc.1 topic (ignore_case cfg) = MRet true) l.

Lemma publish_patterns_ok topic content l ws : worker_ok ws ->
  (forall p c, (p, c) ∈ l -> is_Some (objs ws !! c) /\ exists b, stringmatchlen p topic (ignore_case cfg) = MRet b) ->
  exists ws', publish_patterns cfg unixtime topic content l ws = Some ws'
    /\ delivered ((fun pc => (pc.2, encode [bs "pmessage"; pc.1; topic; content])) <$> matching topic l) ws ws'.
Proof.
  revert ws. induction l as [|[p c] l IH]; intros ws Hok Hl; cbn [publish_patterns].
  { exists ws. split; [done|]. by apply delivered_nil. }
  destruct (Hl p c) as [Hc [b Hb]]; [by left|]. rewrite Hb. unfold matching. destruct b.
  - rewrite filter_cons_True by done. cbn [fmap list_fmap fst snd].
    destruct (deliver_one ws c (ReceivePatternMessage cfg unixtime topic content p)
      (encode [bs "pmessage"; p; topic; content]) (zlen topic + zlen content) Hok Hc) as (ws1 & -> & H1).
    { intros s. split; [apply frame_ReceivePatternMessage|apply same_ReceivePatternMessage]. }
    { intros s. apply ReceivePatternMessage_text. }
    destruct (IH ws1) as (ws2 & E2 & H2); [apply H1| |].
    { intros p' c' Hin. destruct (Hl p' c') as [? ?]; [by right|]. split; [by eapply delivered_objs|done]. }
    exists ws2. split; [done|]. by eapply (delivered_app [_]).
  - rewrite filter_cons_False by (cbn [fst]; by rewrite Hb). apply IH; [done|]. intros p' c' Hin. apply Hl. by right.
Qed.

(** The patterns of a worker the matcher parses; see Glob.v. *)
Definition parseable (ws : wstate) : Prop :=
  forall p c, (p, c) ∈ pubsub_patterns_ (core ws) -> is_Some (parse_glob p).

Lemma match_defined p topic : topic <> [] -> is_Some (parse_glob p) ->
  exists b, stringmatchlen p topic (ignore_case cfg) = MRet b.
Proof.
  intros Ht [toks Hp]. destruct (stringmatchlen_right p topic (ignore_case cfg) toks Hp) as (b & Hb & _);
    [by left|eauto].
Qed.

Lemma match_true p topic : topic <> [] ->
  (is_Some (parse_glob p) /\ stringmatchlen p topic (ignore_case cfg) = MRet true
   <-> exists toks, parse_glob p = Some toks /\ gmatch (ignore_case cfg) toks topic).
Proof.
  intros Ht. split.
  - intros [[toks Hp] Hm]. exists toks. split; [done|].
    destruct (stringmatchlen_right p topic (ignore_case cfg) toks Hp) as (b & Hb & Hg); [by left|].
    apply Hg. congruence.
  - intros (toks & Hp & Hm). split; [eauto|].
    destruct (stringmatchlen_right p topic (ignore_case cfg) toks Hp) as (b & Hb & Hg); [by left|].
    rewrite Hb. f_equal. by apply Hg.
Qed.

Lemma frames_topic c frame l : NoDup l ->
  frames_for c ((fun x => (x, frame)) <$> l) = if decide (c ∈ l) then frame else [].
Proof.
  unfold frames_for. induction 1 as [|x l Hx Hn IH]; [done|]. rewrite fmap_cons. cbn [fst].
  destruct (decide (x = c)) as [->|Hne].
  - rewrite filter_cons_True by done. cbn [fmap list_fmap snd concat]. fold (fmap (M := list) (A := cid * bytes) snd).
    rewrite IH, decide_False by done. rewrite app_nil_r. by rewrite decide_True by by left.
  - rewrite filter_cons_False by done. rewrite IH. apply decide_ext. rewrite elem_of_cons. naive_solver.
Qed.

Lemma frames_patterns c (g : bytes -> bytes) (l : list (bytes * cid)) :
  frames_for c ((fun pc => (pc.2, g pc.1)) <$> l) = concat (g <$> (fst <$> filter (fun pc => pc.2 = c) l)).
Proof.
  unfold frames_for. induction l as [|[p c'] l IH]; [done|]. rewrite fmap_cons. cbn [fst snd].
  destruct (decide (c' = c)) as [->|Hne].
  - rewrite !filter_cons_True by done. cbn. by f_equal.
  - rewrite !filter_cons_False by done. exact IH.
Qed.

Lemma PublishMessage_delivers topic content ws : worker_ok ws -> topic <> [] -> parseable ws ->
  exists ws', PublishMessage cfg unixtime (Some (topic, content)) ws = Some ws' /\ worker_ok ws'
    /\ forall c cl, objs ws !! c = Some cl -> accepting (self cl) ->
        exists cl' ps, objs ws' !! c = Some cl' /\ NoDup ps
          /\ (forall p, p ∈ ps <-> p ∈ sub_patterns_ (self cl)
                /\ exists toks, parse_glob p = Some toks /\ gmatch (ignore_case cfg) toks topic)
          /\ rep_ (self cl') = rep_ (self cl)
               ++ (if decide (topic ∈ sub_topics_ (self cl)) then encode [bs "message"; topic; content] else [])
               ++ concat ((fun p => encode [bs "pmessage"; p; topic; content]) <$> ps).
Proof.
  intros Hok Ht Hparse. pose proof Hok as [[[T1 T2 T3 T4 T5] _ _] _]. unfold PublishMessage.
  set (l := default [] (clients_by_topic_ (core ws) !! topic)).
  assert (Hl : NoDup l) by (subst l; destruct (clients_by_topic_ (core ws) !! topic) eqn:E; [by eapply T2|constructor]).
  assert (Hobj : forall c, topics_of ws c <> ∅ \/ patterns_of ws c <> ∅ -> is_Some (objs ws !! c)).
  { intros c Hc. unfold topics_of, patterns_of in Hc. destruct (objs ws !! c); [eauto|]. cbn in Hc. tauto. }
  destruct (publish_topic_ok topic content l ws Hok) as (ws1 & -> & H1).
  { intros c Hc. apply Hobj. left. apply T3 in Hc. set_solver. }
  pose proof H1 as (Hok1 & _ & Ep & _). cbn [mbind option_bind]. rewrite Ep.
  destruct (publish_patterns_ok topic content (pubsub_patterns_ (core ws)) ws1 Hok1) as (ws2 & E2 & H2).
  { intros p c Hin. split; [|by eapply match_defined, Hparse].
    eapply delivered_objs; [done|]. apply Hobj. right. apply T5 in Hin. set_solver. }
  exists ws2. split; [done|]. split; [apply H2|]. intros c cl Hc Ha.
  destruct (delivered_app _ _ _ _ _ H1 H2) as (_ & _ & _ & Hall).
  destruct (Hall c cl Hc) as (cl' & Hc' & _ & _ & Hrep). destruct (Hrep Ha) as [_ Hr].
  exists cl', (fst <$> filter (fun pc => pc.2 = c) (matching topic (pubsub_patterns_ (core ws)))).
  split; [done|]. split_and!.
  - apply NoDup_fmap_2_strong; [|by apply NoDup_filter, NoDup_filter].
    intros [p1 c1] [p2 c2] [? _]%list_elem_of_filter [? _]%list_elem_of_filter. cbn in *. congruence.
  - intros p. rewrite list_elem_of_fmap, <- match_true by done.
    assert (Hin : p ∈ sub_patterns_ (self cl) <-> (p, c) ∈ pubsub_patterns_ (core ws)).
    { rewrite T5. unfold patterns_of. by rewrite Hc. }
    rewrite Hin. split.
    + intros ([p' c'] & -> & [Hc1 [Hm Hin']%list_elem_of_filter]%list_elem_of_filter).
      cbn [fst snd] in *. subst c'.
      split; [done|]. split; [by eapply Hparse|done].
    + intros (Hin' & _ & Hm). exists (p, c). split; [done|].
      apply list_elem_of_filter. split; [done|]. by apply list_elem_of_filter.
  - rewrite Hr. f_equal. unfold frames_for at 1. rewrite filter_app, fmap_app, concat_app.
    f_equal; [|apply (frames_patterns c (fun p => encode [bs "pmessage"; p; topic; content]))].
    etrans; [exact (frames_topic c _ l Hl)|]. apply decide_ext. subst l. rewrite T3. unfold topics_of. by rewrite Hc.
Qed.

(** C3. In a well-formed worker whose patterns all parse, and whose loop accepts every
    descriptor, publishing a message with a topic that is not empty gives every client whose
    connection accepts output exactly what its subscriptions ask for: one "message" frame if it is
    subscribed to the topic and one "pmessage" frame for each of its patterns that matches, appended
    to its output in that order, and nothing else; the worker stays well formed. *)
Theorem publish_delivers topic content ws : worker_ok ws -> topic <> [] -> parseable ws ->
  exists ws', PublishMessage cfg unixtime (Some (topic, content)) ws = Some ws' /\ worker_ok ws'
    /\ forall c cl, objs ws !! c = Some cl -> accepting (self cl) ->
        exists cl' ps, objs ws' !! c = Some cl' /\ NoDup ps
          /\ (forall p, p ∈ ps <-> p ∈ sub_patterns_ (self cl)
                /\ exists toks, parse_glob p = Some toks /\ gmatch (ignore_case cfg) toks topic)
          /\ rep_ (self cl') = rep_ (self cl)
               ++ (if decide (topic ∈ sub_topics_ (self cl)) then encode [bs "message"; topic; content] else [])
               ++ concat ((fun p => encode [bs "pmessage"; p; topic; content]) <$> ps).
Proof. apply PublishMessage_delivers. Qed.
End publish.

(** ** Every event of the loop is handled safely *)

Section events.
Context {EL M : Type} `{!FileEvents EL fproc cid} `{!FileEventsLaws EL fproc cid} `{!MasterOps M}.
Variable cfg : Config.
Variable unixtime : Z.
Variable env : info_env.
Variable set_begin : gset bytes -> bytes.
Variable peer_ip : Z -> bytes.
Hypothesis set_begin_in : forall X, X <> ∅ -> set_begin X ∈ X.
Notation wstate := (wstate EL M).

(** What the loop of a worker calls. *)
Inductive wevent : Type :=
| EvNew (sfd : Z)
| EvRead (append_ok : bool) (r : read_result) (c : cid)
| EvWrite (writes : list write_result) (c : cid)
| EvPublish (msg : option (bytes * bytes))
| EvCron.

Definition wstep (e : wevent) (ws : wstate) : option wstate :=
  match e with
  | EvNew sfd => GetNewConnection cfg unixtime set_begin peer_ip sfd ws
  | EvRead ok r c => ReadRequest cfg unixtime env set_begin peer_ip ok r c ws
  | EvWrite writes c => fst <$> SendReply cfg unixtime set_begin peer_ip writes c ws
  | EvPublish msg => PublishMessage cfg unixtime msg ws
  | EvCron => Cron cfg unixtime set_begin peer_ip ws
  end.

(** When the loop can call it: descriptors of new connections are not in
    use, events are those of existing clients; a published topic is not
    empty and the patterns parse (the matcher's precondition). *)
Definition allowed (e : wevent) (ws : wstate) : Prop :=
  match e with
  | EvNew sfd => 0 < sfd /\ forall c cl, objs ws !! c = Some cl -> fd_ (self cl) <> sfd
  | EvRead _ _ c | EvWrite _ c => is_Some (objs ws !! c)
  | EvPublish (Some (topic, _)) => topic <> [] /\ parseable ws
  | EvPublish None | EvCron => True
  end.

Lemma publish_topic_safe topic content l (ws : wstate) : worker_ok ws -> (forall c, c ∈ l -> is_Some (objs ws !! c)) ->
  exists ws', publish_topic cfg unixtime topic content l ws = Some ws' /\ worker_ok ws'
    /\ pubsub_patterns_ (core ws') = pubsub_patterns_ (core ws)
    /\ forall c, is_Some (objs ws !! c) -> is_Some (objs ws' !! c).
Proof.
  revert ws. induction l as [|c l IH]; intros ws Hok Hl; cbn [publish_topic]; [by exists ws|].
  destruct (deliver_ok unixtime peer_ip (count_out (zlen topic + zlen content) ws) c
    (ReceiveMessage cfg unixtime topic content) (count_ok _ _ Hok)) as (ws1 & -> & Hok1 & _ & Ep & Ho);
    [apply Hl; by left|intros s; split; [apply frame_ReceiveMessage|apply same_ReceiveMessage]|].
  assert (Hdom : forall c, is_Some (objs ws !! c) -> is_Some (objs ws1 !! c)).
  { intros c' [cl Hc]. destruct (Ho c' cl Hc) as (? & ? & _). eauto. }
  cbn [mbind option_bind]. destruct (IH ws1 Hok1) as (ws2 & -> & Hok2 & Ep2 & Hdom2); [intros c' ?; apply Hdom, Hl; by right|].
  exists ws2. split_and!; [done|done|by rewrite Ep2, Ep|auto].
Qed.

Lemma publish_patterns_safe topic content l (ws : wstate) : worker_ok ws ->
  (forall p c, (p, c) ∈ l -> is_Some (objs ws !! c) /\ exists b, stringmatchlen p topic (ignore_case cfg) = MRet b) ->
  exists ws', publish_patterns cfg unixtime topic content l ws = Some ws' /\ worker_ok ws'.
Proof.
  revert ws. induction l as [|[p c] l IH]; intros ws Hok Hl; cbn [publish_patterns]; [by exists ws|].
  destruct (Hl p c) as [Hc [[|] ->]]; [by left| |apply IH; [done|intros ? ? ?; apply Hl; by right]].
  destruct (deliver_ok unixtime peer_ip (count_out (zlen topic + zlen content) ws) c
    (ReceivePatternMessage cfg unixtime topic content p) (count_ok _ _ Hok) Hc) as (ws1 & -> & Hok1 & _ & _ & Ho);
    [intros s; split; [apply frame_ReceivePatternMessage|apply same_ReceivePatternMessage]|].
  cbn [mbind option_bind]. apply IH; [done|]. intros p' c' Hin. destruct (Hl p' c') as [[cl Hc'] ?]; [by right|]. split; [|done].
  destruct (Ho c' cl Hc') as (? & ? & _). eauto.
Qed.

Lemma PublishMessage_safe topic content (ws : wstate) : worker_ok ws -> topic <> [] -> parseable ws ->
  exists ws', PublishMessage cfg unixtime (Some (topic, content)) ws = Some ws' /\ worker_ok ws'.
Proof.
  intros Hok Ht Hparse. pose proof Hok as [[[T1 T2 T3 T4 T5] _ _] _].
  assert (Hobj : forall c, topics_of ws c <> ∅ \/ patterns_of ws c <> ∅ -> is_Some (objs ws !! c)).
  { intros c Hc. unfold topics_of, patterns_of in Hc. destruct (objs ws !! c); [eauto|]. cbn in Hc. tauto. }
  unfold PublishMessage.
  destruct (publish_topic_safe topic content (default [] (clients_by_topic_ (core ws) !! topic)) ws Hok)
    as (ws1 & -> & Hok1 & Ep & Hdom).
  { intros c Hc. apply Hobj. left. apply T3 in Hc. set_solver. }
  cbn [mbind option_bind]. rewrite Ep. apply publish_patterns_safe; [done|]. intros p c Hin.
  split; [|by eapply match_defined, Hparse]. apply Hdom, Hobj. right. apply T5 in Hin. set_solver.
Qed.

Lemma wstep_ok e (ws : wstate) : worker_ok ws -> allowed e ws ->
  exists ws', wstep e ws = Some ws' /\ worker_ok ws'
    /\ (e = EvCron -> clients_to_close_ (core ws') = []).
Proof.
  intros Hok Ha. destruct e as [sfd|ok r c|writes c|[[topic content]|]|]; cbn [wstep allowed] in *.
  - destruct Ha as [Hfd Hnew].
    destruct (GetNewConnection_ok cfg unixtime set_begin peer_ip set_begin_in sfd ws) as (ws' & ? & ?);
      [done..|by exists ws'].
  - destruct (ReadRequest_ok cfg unixtime env set_begin peer_ip set_begin_in ok r c ws) as (ws' & ? & ?);
      [done..|by exists ws'].
  - destruct (SendReply_ok cfg unixtime set_begin peer_ip set_begin_in writes ws c) as (ws' & out & -> & ? & _);
      [done..|by exists ws'].
  - destruct Ha as [Ht Hparse]. destruct (PublishMessage_safe topic content ws) as (ws' & ? & ?); [done..|by exists ws'].
  - by exists ws.
  - unfold Cron. destruct (FreeClientsInAsyncFreeQueue_ok cfg unixtime set_begin peer_ip set_begin_in ws Hok)
      as (ws1 & -> & Hok1 & Hnil & _). cbn. eexists. split; [done|]. split; [|done].
    destruct Hok1 as [[? ? ?] [? ? ?]]. split; by split.
Qed.

Lemma wstep_ok_of e (ws : wstate) : worker_ok ws -> allowed e ws ->
  exists ws', wstep e ws = Some ws' /\ worker_ok ws'.
Proof. intros Hok Ha. destruct (wstep_ok e ws Hok Ha) as (ws' & ? & ? & _). eauto. Qed.

(** C4. From a well-formed worker every step (a new connection, input, output, a message, the
    cron) is defined, so that no client is touched after it was deleted, and leaves a well-formed
    worker, in which the client list, the topic table and the pattern list name exactly the live
    clients and their subscriptions; the cron leaves no client waiting to be closed. A new
    connection has a positive descriptor that no client has, input and output are of clients that
    are there, and a message is published with a topic that is not empty and while every pattern
    parses: with an empty topic or a pattern such as a class that ends in a backslash, which a
    client can send, stringmatchlen reads outside its arrays (Glob.stringmatchlen_out_of_bounds). *)
Theorem worker_step_safe e (ws : wstate) : worker_ok ws -> allowed e ws ->
  exists ws', wstep e ws = Some ws' /\ worker_ok ws'
    /\ (e = EvCron -> clients_to_close_ (core ws') = []).
Proof. exact (wstep_ok e ws). Qed.

(** C26. Whatever the socket accepts of each write, the bytes written are a prefix of the
    pending output, the rest stays pending in order, an output that was written is cleared, and as
    long as output remains the write event is set; when the client is deleted what was written is
    still a prefix. *)
Theorem output_in_order writes (ws : wstate) c cl : worker_ok ws -> objs ws !! c = Some cl ->
  exists ws' out, SendReply cfg unixtime set_begin peer_ip writes c ws = Some (ws', out)
    /\ match objs ws' !! c with
       | Some cl' => out ++ pending (self cl') = pending (self cl)
           /\ (pending (self cl') = [] -> rep_ (self cl') = [])
           /\ (rep_ (self cl') <> [] -> Z.land (fe_get (eventl_ (core ws')) (fd_ (self cl'))) AE_WRITABLE <> 0)
       | None => exists rest, out ++ rest = pending (self cl)
       end.
Proof.
  intros Hok Hcl.
  destruct (SendReply_ok cfg unixtime set_begin peer_ip set_begin_in writes ws c Hok) as (ws' & out & E & Hok' & H);
    [eauto|]. exists ws', out. split; [done|]. specialize (H cl Hcl).
  destruct (objs ws' !! c) as [cl'|] eqn:Ec; [|done]. destruct H as [? ?]. split_and!; [done|done|].
  destruct Hok' as [Hc' _]. destruct (wo_clients _ Hc' _ _ Ec) as [_ _ _ [Hw _]]. exact Hw.
Qed.
End events.
