(* ===== verification/Demo.v ===== *)
(** * A small server

    A worker with one client, on a loop that accepts every descriptor and a
    master that queues every message: the concrete state at which the
    theorems on clients and workers are instantiated. *)

From S2P Require Import Prelude Common Util Glob EventLoop Protocol Client PubSub Worker.

(** ** The environment *)

#[export] Instance demo_events {P D} : FileEvents (gmap Z Z) P D := {
  fe_get el fd := default 0 (el !! fd);
  fe_create el fd m _ _ := Some (<[fd := Z.lor (default 0 (el !! fd)) m]> el);
  fe_delete el fd m := <[fd := Z.land (default 0 (el !! fd)) (Z.lnot m)]> el;
}.

#[export] Instance demo_events_laws {P D} : FileEventsLaws (gmap Z Z) P D.
Proof.
  split; cbn.
  - intros el fd m p d el' fd' _ _ [= <-]. rewrite lookup_insert. by case_decide.
  - intros el fd m fd' _ _. rewrite lookup_insert. by case_decide.
Qed.

#[export] Instance demo_master : MasterOps (list (bytes * bytes)) := {
  PutMessage m topic content _ := (true, m ++ [(topic, content)]);
  RemoveClient m _ := m;
  Terminate m := m;
  master_stat _ := stat_zero;
}.

Definition demo_cfg : Config :=
  MkConfig 1 [] (bs "0.0.0.0") 3388 false 0 (fun _ => Limit 0 0 0) 1000000.
Definition demo_env : info_env := InfoEnv (bs "1.0") (bs "host") (bs "epoll") 1 4096 (bs "0.00") (bs "0.00") [].
Definition demo_begin (X : gset bytes) : bytes := hd [] (elements X).

Lemma demo_begin_in X : X <> ∅ -> demo_begin X ∈ X.
Proof.
  intros HX. unfold demo_begin. destruct (elements X) as [|x l] eqn:E.
  - apply elements_empty_inv, leibniz_equiv in E. done.
  - apply elem_of_elements. rewrite E. by left.
Qed.

Lemma demo_registered (el : gmap Z Z) fd m (p : fproc) (d : cid) : 0 < fd -> fe_create el fd m p d <> None.
Proof. done. Qed.

(** ** The states *)

Notation demo_state := (wstate (gmap Z Z) (list (bytes * bytes))).

Definition demo_step (e : wevent) (ws : demo_state) : option demo_state :=
  wstep demo_cfg 100 demo_env demo_begin (fun _ => bs "127.0.0.1") e ws.

Definition empty_worker : demo_state := WState (Worker _ 0 ∅ stat_zero [] [] ∅ []) ∅ [].

(** A client that connects on descriptor 7, subscribes to a topic and to a
    pattern, and gets its replies. *)
Definition demo_requests : bytes :=
  encode [bs "SUBSCRIBE"; bs "zhihu.access"] ++ encode [bs "PSUBSCRIBE"; bs "zhihu.*"].

Definition one_client : demo_state := default empty_worker (demo_step (EvNew 7) empty_worker).
Definition subscribed : demo_state :=
  default empty_worker (demo_step (EvRead true (RData demo_requests) 1) one_client).
Definition replied : demo_state :=
  default empty_worker (demo_step (EvWrite [Wrote 1000] 1) subscribed).

Definition the_connection (ws : demo_state) : connection :=
  default (new_connection 1 0) (self <$> objs ws !! 1%positive).

Lemma empty_worker_ok : worker_ok empty_worker.
Proof.
  split; split; cbn; try done.
  - split; cbn; [by intros ??; rewrite lookup_empty|by intros ??; rewrite lookup_empty| |constructor|].
    + intros t c. unfold topics_of. cbn. rewrite !lookup_empty. cbn. set_solver.
    + intros p c. unfold patterns_of. cbn. rewrite !lookup_empty. cbn. set_solver.
  - constructor.
  - intros c. rewrite lookup_empty. split; [set_solver|by intros [? ?]].
Qed.

Lemma demo_step_ok e ws : worker_ok ws -> allowed e ws -> worker_ok (default empty_worker (demo_step e ws)).
Proof.
  intros Hok Ha. unfold demo_step.
  destruct (wstep_ok_of demo_cfg 100 demo_env demo_begin (fun _ => bs "127.0.0.1") demo_begin_in e ws Hok Ha)
    as (ws' & -> & ?). done.
Qed.

Lemma one_client_ok : worker_ok one_client.
Proof. apply demo_step_ok; [apply empty_worker_ok|]. split; [done|]. intros c cl Hc. by destruct c. Qed.

Lemma subscribed_ok : worker_ok subscribed.
Proof. apply demo_step_ok; [apply one_client_ok|]. eexists. vm_compute. reflexivity. Qed.

Lemma replied_ok : worker_ok replied.
Proof. apply demo_step_ok; [apply subscribed_ok|]. eexists. vm_compute. reflexivity. Qed.

Lemma replied_patterns : pubsub_patterns_ (core replied) = [(bs "zhihu.*", 1%positive)].
Proof. vm_compute. reflexivity. Qed.

Lemma replied_parseable : parseable replied.
Proof.
  intros p c. rewrite replied_patterns, list_elem_of_singleton. intros [= -> ->]. eexists. vm_compute. reflexivity.
Qed.

(** ** The theorems at these states *)

Definition demo_client_state (ws : demo_state) : st (gmap Z Z) (list (bytes * bytes)) :=
  St (the_connection ws) (core ws) (wms ws).

Lemma requests_in_pieces_witness :
  let a := firstn 20 demo_requests in
  let b := skipn 20 demo_requests in
  let s := demo_client_state one_client in
  exists r1 ps1 s1,
    ProcessRequestBuffer demo_cfg 100 demo_env demo_begin a pstate0 s = Some (r1, ps1, s1)
    /\ outcome_sim (ProcessRequestBuffer demo_cfg 100 demo_env demo_begin (a ++ b) pstate0 s)
         (ProcessRequestBuffer demo_cfg 100 demo_env demo_begin (r1 ++ b) ps1 s1).
Proof.
  cbn zeta.
  destruct (ProcessRequestBuffer demo_cfg 100 demo_env demo_begin (firstn 20 demo_requests) pstate0
    (demo_client_state one_client)) as [[[r1 ps1] s1]|] eqn:E; [|exfalso; vm_compute in E; discriminate].
  exists r1, ps1, s1. split; [reflexivity|].
  apply (requests_in_pieces demo_cfg 100 demo_env demo_begin _ _ _ _ _ _ _ ); [left; apply ps_ok_0|vm_compute; done|exact E].
Defined.

Lemma output_of_requests_witness :
  let s := demo_client_state one_client in
  exists req' ps' s' text,
    ProcessRequestBuffer demo_cfg 100 demo_env demo_begin demo_requests pstate0 s = Some (req', ps', s')
    /\ rep_ (conn s') = rep_ (conn s) ++ text.
Proof.
  cbn zeta.
  destruct (ProcessRequestBuffer demo_cfg 100 demo_env demo_begin demo_requests pstate0
    (demo_client_state one_client)) as [[[r1 ps1] s1]|] eqn:E; [|exfalso; vm_compute in E; discriminate].
  destruct (output_of_requests _ _ _ _ _ _ _ _ _ _ (or_introl ps_ok_0) E) as (text & Ht & _).
  exists r1, ps1, s1, text. split; [reflexivity|exact Ht].
Defined.

Lemma subscribed_subs_ok : subs_ok (topics_of subscribed) (patterns_of subscribed) (demo_client_state subscribed).
Proof.
  destruct subscribed_ok as [Hc _]. destruct (objs subscribed !! 1%positive) as [cl|] eqn:E.
  - unfold demo_client_state, the_connection. rewrite E. cbn.
    eapply core_ok_subs; [exact Hc|exact E| |done|done].
    exact (co_this _ _ _ (wo_clients _ Hc _ _ E)).
  - exfalso. revert E. vm_compute. discriminate.
Qed.

Lemma commands_implement_subscriptions_witness :
  let s := demo_client_state subscribed in
  exists b s', ProcessCommand demo_cfg 100 demo_env demo_begin [bs "unsubscribe"; bs "zhihu.access"] s = Some (b, s')
    /\ sub_topics_ (conn s') = ∅ /\ sub_patterns_ (conn s') = {[bs "zhihu.*"]}.
Proof.
  cbn zeta.
  destruct (commands_implement_subscriptions demo_cfg 100 demo_env demo_begin demo_begin_in _ _
    [bs "unsubscribe"; bs "zhihu.access"] _ subscribed_subs_ok) as (b & s' & E & _ & Ht & Hp).
  exists b, s'. split; [exact E|]. rewrite Ht, Hp. split; vm_compute; reflexivity.
Defined.

Lemma requests_always_served_witness :
  let s := demo_client_state subscribed in
  exists req' ps' s',
    ProcessRequestBuffer demo_cfg 100 demo_env demo_begin (encode [bs "unsubscribe"] ++ bs "*x") pstate0 s = Some (req', ps', s')
    /\ subs_ok (topics_of subscribed) (patterns_of subscribed) s'.
Proof.
  cbn zeta.
  destruct (requests_always_served demo_cfg 100 demo_env demo_begin demo_begin_in _ _
    (encode [bs "unsubscribe"] ++ bs "*x") pstate0 _ subscribed_subs_ok) as (req' & ps' & s' & E & Hs & _);
    [left; apply ps_ok_0|vm_compute; done|].
  exists req', ps', s'. split; [exact E|exact Hs].
Defined.

Lemma worker_step_safe_witness :
  exists ws', wstep demo_cfg 100 demo_env demo_begin (fun _ => bs "127.0.0.1") (EvRead true REof 1) replied = Some ws'
    /\ worker_ok ws'.
Proof.
  destruct (worker_step_safe demo_cfg 100 demo_env demo_begin (fun _ => bs "127.0.0.1") demo_begin_in
    (EvRead true REof 1) replied replied_ok) as (ws' & E & H & _); [eexists; vm_compute; reflexivity|].
  exists ws'. split; [exact E|exact H].
Defined.

Lemma output_in_order_witness :
  exists ws' out, SendReply demo_cfg 100 demo_begin (fun _ => bs "127.0.0.1") [Wrote 10; WError true] 1 subscribed = Some (ws', out)
    /\ exists rest, out ++ rest = pending (the_connection subscribed).
Proof.
  destruct (objs subscribed !! 1%positive) as [cl|] eqn:E; [|exfalso; revert E; vm_compute; discriminate].
  destruct (output_in_order demo_cfg 100 demo_begin (fun _ => bs "127.0.0.1") demo_begin_in
    [Wrote 10; WError true] subscribed 1 cl subscribed_ok E) as (ws' & out & Es & H).
  exists ws', out. split; [exact Es|]. unfold the_connection. rewrite E. cbn.
  destruct (objs ws' !! 1%positive) as [cl'|]; [destruct H as [H _]; eexists; exact H|exact H].
Defined.

Lemma publish_delivers_witness :
  exists ws' cl', PublishMessage demo_cfg 100 (Some (bs "zhihu.access", bs "GET /")) replied = Some ws'
    /\ objs ws' !! 1%positive = Some cl'
    /\ exists ps, (forall p, p ∈ ps <-> p ∈ sub_patterns_ (the_connection replied)
            /\ exists toks, parse_glob p = Some toks /\ gmatch false toks (bs "zhihu.access"))
       /\ rep_ (self cl') = encode [bs "message"; bs "zhihu.access"; bs "GET /"]
            ++ concat ((fun p => encode [bs "pmessage"; p; bs "zhihu.access"; bs "GET /"]) <$> ps).
Proof.
  destruct (publish_delivers demo_cfg 100 demo_registered (bs "zhihu.access") (bs "GET /") replied replied_ok)
    as (ws' & E & _ & H); [discriminate|exact replied_parseable|].
  destruct (objs replied !! 1%positive) as [cl|] eqn:Ec; [|exfalso; revert Ec; vm_compute; discriminate].
  destruct (H _ _ Ec) as (cl' & ps & Hc & _ & Hps & Hr).
  { assert (Hs : self cl = the_connection replied) by (unfold the_connection; by rewrite Ec).
    rewrite Hs. split_and!; vm_compute; reflexivity. }
  exists ws', cl'. split; [exact E|]. split; [exact Hc|]. exists ps.
  assert (Hs : self cl = the_connection replied) by (unfold the_connection; by rewrite Ec).
  rewrite Hs in Hps, Hr. split; [exact Hps|]. rewrite Hr. rewrite decide_True by (apply (bool_decide_unpack _); vm_compute; exact I).
  assert (Hn : rep_ (the_connection replied) = []) by (vm_compute; reflexivity). by rewrite Hn.
Defined.
