(* ===== verification/MsgQueue.v ===== *)
(** * msgqueue.cc: the message queue

    A singly linked list shared by all threads.  Workers push at the tail,
    every consumer (each worker, and the storer) walks it with a cursor of
    its own, and the master frees the items that every cursor has left.  The
    heap of items is explicit, so that a use after free is an undefined
    outcome ([None]); reads and writes of the collector interleave with the
    other threads at the granularity of one loop iteration. *)

From S2P Require Import Prelude.

(** ** Data *)

Definition addr : Type := positive.

(** [MessageQueueItem] with the [Message] it owns. *)
Record MQItem := Item {
  topic : option bytes;
  content : option bytes;
  next : option addr;
}.

(** [MessageQueue]; the lock is the atomicity of the operations below. *)
Record MQ := MkMQ {
  head_ : option addr;
  tail_ : option addr;
  size_ : Z;
  memory_usage_ : Z;
}.

(** The items alive, and the queue. *)
Record mem := Mem {
  items : gmap addr MQItem;
  queue : MQ;
}.

(** [MessageQueueCursor]: its item ([queue] is the only queue). *)
Definition MQCursor : Type := option addr.

(** ** Operations *)

Definition new_item (m : gmap addr MQItem) (t c : option bytes) (n : option addr)
  : addr * gmap addr MQItem :=
  let a := fresh (dom m) in (a, <[a := Item t c n]> m).

Definition MQOpen : mem :=
  let '(a, m) := new_item ∅ None None None in
  Mem m (MkMQ (Some a) (Some a) 0 0).

Definition MQPush (s : mem) (t c : bytes) : option mem :=
  let q := queue s in
  let '(a, m) := new_item (items s) (Some t) (Some c) None in
  tl ← tail_ q;
  it ← m !! tl;
  Some (Mem (<[tl := Item (topic it) (content it) (Some a)]> m)
    (MkMQ (head_ q) (Some a) (u64 (size_ q + 1))
       (u64 (memory_usage_ q + (zlen t + zlen c))))).

Definition MQSize (s : mem) : Z := size_ (queue s).
Definition MQMemoryUsage (s : mem) : Z := memory_usage_ (queue s).

Definition MQCreateCursor (s : mem) : MQCursor := head_ (queue s).

(** [MQNext]: the cursor after the call and the message returned, [None] for
    NULL. *)
Definition MQNext (s : mem) (c : MQCursor) : option (MQCursor * option (option bytes * option bytes)) :=
  match c with
  | None => Some (None, None)
  | Some a =>
      it ← items s !! a;
      match next it with
      | None => Some (Some a, None)
      | Some b => itb ← items s !! b; Some (Some b, Some (topic itb, content itb))
      end
  end.

(** One iteration of the loop of [MQFreeOldMessages]: stop, or free [p]. *)
Inductive gc_result : Type :=
| GStop
| GFreed (m : gmap addr MQItem) (p : option addr) (freed : Z).

Definition item_bytes (it : MQItem) : Z :=
  match topic it, content it with
  | Some t, Some c => zlen t + zlen c
  | _, _ => 0
  end.

Definition gc_iter (m : gmap addr MQItem) (p : option addr) (last_positions : list MQCursor)
  : option gc_result :=
  if bool_decide (p ∈ last_positions) then Some GStop
  else a ← p; it ← m !! a; Some (GFreed (delete a m) (next it) (item_bytes it)).

Fixpoint gc_loop (fuel : nat) (m : gmap addr MQItem) (p : option addr)
    (last_positions : list MQCursor) (count memory_freed : Z)
  : option (gmap addr MQItem * option addr * Z * Z) :=
  match fuel with
  | O => None
  | S fuel =>
      r ← gc_iter m p last_positions;
      match r with
      | GStop => Some (m, p, count, memory_freed)
      | GFreed m p freed =>
          gc_loop fuel m p last_positions (u64 (count + 1)) (u64 (memory_freed + freed))
      end
  end.

(** [queue->head = p] and the locked section that follows it. *)
Definition gc_finish (q : MQ) (count memory_freed : Z) : MQ :=
  MkMQ (head_ q) (tail_ q) (u64 (size_ q - count)) (u64 (memory_usage_ q - memory_freed)).

Definition set_head (q : MQ) (p : option addr) : MQ :=
  MkMQ p (tail_ q) (size_ q) (memory_usage_ q).

Definition MQFreeOldMessages (s : mem) (last_positions : list MQCursor) : option (mem * Z) :=
  '(m, p, count, memory_freed) ←
    gc_loop (S (size (items s))) (items s) (head_ (queue s)) last_positions 0 0;
  let q := gc_finish (set_head (queue s) p) count memory_freed in
  Some (Mem m q, size_ q).

(** [MQClose]: every item from [head] is freed. *)
Fixpoint close_loop (fuel : nat) (m : gmap addr MQItem) (q : option addr) : option (gmap addr MQItem) :=
  match fuel, q with
  | _, None => Some m
  | O, _ => None
  | S fuel, Some a => it ← m !! a; close_loop fuel (delete a m) (next it)
  end.

Definition MQClose (s : mem) : option (gmap addr MQItem) :=
  close_loop (size (items s)) (items s) (head_ (queue s)).

(** ** The threads that share the queue *)

(** Where the master is in [Cron]: reading the cursors one by one
    ([GetCursorPosition]), in the loop of [MQFreeOldMessages], or before its
    locked section. *)
Inductive gc_phase : Type :=
| Idle
| Collect (ps : list MQCursor)
| Scan (p : option addr) (ps : list MQCursor) (count freed : Z)
| Finish (count freed : Z).

Record sys := Sys {
  smem : mem;
  cursors : list MQCursor;
  phase : gc_phase;
  (** what was pushed, and what each consumer was given, in order *)
  pushed : list (bytes * bytes);
  received : list (list (option bytes * option bytes));
}.

(** A thread's atomic action. *)
Inductive event : Type :=
| EPush (t c : bytes)
| ENext (i : nat)
| EGc.

Definition gc_step (s : sys) : option sys :=
  let with_phase ph := Sys (smem s) (cursors s) ph (pushed s) (received s) in
  match phase s with
  | Idle => Some (with_phase (Collect []))
  | Collect ps =>
      match cursors s !! length ps with
      | Some c => Some (with_phase (Collect (ps ++ [c])))
      | None => Some (with_phase (Scan (head_ (queue (smem s))) ps 0 0))
      end
  | Scan p ps count freed =>
      r ← gc_iter (items (smem s)) p ps;
      match r with
      | GStop => Some (Sys (Mem (items (smem s)) (set_head (queue (smem s)) p)) (cursors s)
                         (Finish count freed) (pushed s) (received s))
      | GFreed m p' n => Some (Sys (Mem m (queue (smem s))) (cursors s)
                         (Scan p' ps (u64 (count + 1)) (u64 (freed + n))) (pushed s) (received s))
      end
  | Finish count freed =>
      Some (Sys (Mem (items (smem s)) (gc_finish (queue (smem s)) count freed)) (cursors s)
              Idle (pushed s) (received s))
  end.

Definition step (s : sys) (e : event) : option sys :=
  match e with
  | EPush t c =>
      m ← MQPush (smem s) t c;
      Some (Sys m (cursors s) (phase s) (pushed s ++ [(t, c)]) (received s))
  | ENext i =>
      match cursors s !! i with
      | None => Some s
      | Some c =>
          '(c', r) ← MQNext (smem s) c;
          Some (Sys (smem s) (<[i := c']> (cursors s)) (phase s) (pushed s)
                  (match r with Some v => alter (fun l => l ++ [v]) i (received s) | None => received s end))
      end
  | EGc => gc_step s
  end.

Fixpoint run (s : sys) (es : list event) : option sys :=
  match es with
  | [] => Some s
  | e :: es => s' ← step s e; run s' es
  end.

(** [n] consumers on a fresh queue. *)
Definition init (n : nat) : sys :=
  Sys MQOpen (replicate n (MQCreateCursor MQOpen)) Idle [] (replicate n []).

(** ** The list of messages the heap stands for *)

(** What node [j] of the list holds when [log] was pushed: node 0 is the
    sentinel of [MQOpen], node [j + 1] the message [log !! j]. *)
Definition node_val (log : list (bytes * bytes)) (j : nat) : option bytes * option bytes :=
  match j with
  | O => (None, None)
  | S j => match log !! j with Some (t, c) => (Some t, Some c) | None => (None, None) end
  end.

(** The heap holds the nodes [b], [b + 1], ... of [log], at the addresses
    [ns]; the nodes before [b] have been freed. *)
Record nodes_ok (m : gmap addr MQItem) (log : list (bytes * bytes)) (b : nat) (ns : list addr) : Prop := {
  no_dup : NoDup ns;
  no_dom : dom m = list_to_set ns;
  no_pos : (b <= length log)%nat;
  no_len : (b + length ns = S (length log))%nat;
  no_at : forall k a, ns !! k = Some a ->
    m !! a = Some (Item (node_val log (b + k)).1 (node_val log (b + k)).2 (ns !! S k));
}.

(** Address of node [j]. *)
Definition at_node (ns : list addr) (b j : nat) (c : MQCursor) : Prop :=
  (b <= j)%nat /\ c = ns !! (j - b)%nat.

Lemma node_val_app log e j : (j <= length log)%nat -> node_val (log ++ [e]) j = node_val log j.
Proof. destruct j; cbn; [done|]. intros. by rewrite lookup_app_l by lia. Qed.

Lemma nodes_nonempty m log b ns : nodes_ok m log b ns -> exists a ns', ns = a :: ns'.
Proof. intros H. destruct ns; [|eauto]. pose proof (no_pos _ _ _ _ H). pose proof (no_len _ _ _ _ H). cbn in *. lia. Qed.

Lemma nodes_lookup m log b ns j :
  nodes_ok m log b ns -> (b <= j <= length log)%nat -> exists a, ns !! (j - b)%nat = Some a.
Proof.
  intros H Hj. apply lookup_lt_is_Some. pose proof (no_len _ _ _ _ H). lia.
Qed.

Lemma nodes_at m log b ns j a :
  nodes_ok m log b ns -> (b <= j)%nat -> ns !! (j - b)%nat = Some a ->
  m !! a = Some (Item (node_val log j).1 (node_val log j).2 (ns !! (S j - b)%nat)).
Proof.
  intros H Hj Ha. rewrite (no_at _ _ _ _ H _ _ Ha). replace (b + (j - b))%nat with j by lia.
  by replace (S (j - b)) with (S j - b)%nat by lia.
Qed.

Lemma nodes_inj m log b ns i j a :
  nodes_ok m log b ns -> (b <= i)%nat -> (b <= j)%nat ->
  ns !! (i - b)%nat = Some a -> ns !! (j - b)%nat = Some a -> i = j.
Proof.
  intros H Hi Hj Hia Hja. pose proof (NoDup_lookup _ _ _ _ (no_dup _ _ _ _ H) Hia Hja). lia.
Qed.

Lemma nodes_open : nodes_ok (items MQOpen) [] 0 [fresh (dom (∅ : gmap addr MQItem))].
Proof.
  split; cbn; [apply NoDup_singleton| |lia|lia|].
  - rewrite dom_insert_L, dom_empty_L. set_solver.
  - intros [|k] a; cbn; [|done]. intros [= <-]. by rewrite lookup_insert_eq.
Qed.

Lemma nodes_push m log b ns tl it t c a m' :
  nodes_ok m log b ns -> last ns = Some tl ->
  new_item m (Some t) (Some c) None = (a, m') -> m' !! tl = Some it ->
  nodes_ok (<[tl := Item (topic it) (content it) (Some a)]> m') (log ++ [(t, c)]) b (ns ++ [a]).
Proof.
  intros H Htl [= Ha <-] Hit.
  assert (Hfresh : a ∉ ns).
  { pose proof (is_fresh (dom m)) as Hf. rewrite Ha, (no_dom _ _ _ _ H), elem_of_list_to_set in Hf. done. }
  rewrite Ha in *. rewrite last_lookup in Htl. pose proof (no_len _ _ _ _ H).
  assert (tl <> a) by (intros ->; apply Hfresh; by eapply list_elem_of_lookup_2).
  rewrite lookup_insert_ne, (no_at _ _ _ _ H _ _ Htl) in Hit by congruence. injection Hit as <-.
  split.
  - apply NoDup_app. split; [apply (no_dup _ _ _ _ H)|]. split; [|apply NoDup_singleton].
    intros x Hx ->%list_elem_of_singleton. done.
  - rewrite !dom_insert_L, (no_dom _ _ _ _ H), list_to_set_app_L.
    assert (tl ∈ ns) by (by eapply list_elem_of_lookup_2). cbn. set_solver.
  - rewrite length_app. pose proof (no_pos _ _ _ _ H). lia.
  - rewrite !length_app. cbn. lia.
  - intros k x Hx. destruct (decide (k < length ns)%nat) as [Hk|Hk].
    + rewrite lookup_app_l in Hx by done.
      rewrite node_val_app by lia. destruct (decide (k = pred (length ns))) as [->|Hk'].
      * assert (x = tl) as -> by congruence. rewrite lookup_insert_eq. cbn.
        rewrite lookup_app_r by lia. by replace (S (pred (length ns)) - length ns)%nat with 0%nat by lia.
      * rewrite lookup_insert_ne, lookup_insert_ne, (no_at _ _ _ _ H _ _ Hx), lookup_app_l; [done|lia| |].
        -- intros ->. apply Hfresh. by eapply list_elem_of_lookup_2.
        -- intros ->. pose proof (NoDup_lookup _ _ _ _ (no_dup _ _ _ _ H) Hx Htl). lia.
    + rewrite lookup_app_r in Hx by lia. apply list_lookup_singleton_Some in Hx as [? <-].
      assert (b + k = S (length log))%nat as -> by lia.
      rewrite lookup_insert_ne, lookup_insert_eq by done. cbn.
      rewrite list_lookup_middle by done. cbn. rewrite lookup_ge_None_2; [done|].
      rewrite length_app. cbn. lia.
Qed.

Lemma nodes_free m log b a ns :
  nodes_ok m log b (a :: ns) -> (b < length log)%nat -> nodes_ok (delete a m) log (S b) ns.
Proof.
  intros H Hb. pose proof (no_dup _ _ _ _ H) as [Hna Hnd]%NoDup_cons. pose proof (no_len _ _ _ _ H).
  split; [done| |lia|cbn in *; lia|].
  - rewrite dom_delete_L, (no_dom _ _ _ _ H). cbn. set_solver.
  - intros k x Hx. rewrite lookup_delete_ne.
    + rewrite (no_at _ _ _ _ H (S k) x Hx). replace (b + S k)%nat with (S b + k)%nat by lia. done.
    + intros ->. apply Hna. by eapply list_elem_of_lookup_2.
Qed.

(** ** Accounting *)

Definition log_bytes (log : list (bytes * bytes)) : Z :=
  foldr (fun e n => zlen e.1 + zlen e.2 + n) 0 log.

(** The counters of the queue when nodes before [b] are freed, [count] and
    [freed] of them not yet subtracted: [size] is the number of messages
    after the head node, [memory_usage] includes the head node's message. *)
Definition counted (q : MQ) (log : list (bytes * bytes)) (b : nat) (count freed : Z) : Prop :=
  size_ q = u64 (zlen log - Z.of_nat b + count)
  /\ memory_usage_ q = u64 (log_bytes (drop (b - 1) log) + freed).

Lemma log_bytes_app l1 l2 : log_bytes (l1 ++ l2) = log_bytes l1 + log_bytes l2.
Proof.
  unfold log_bytes. induction l1 as [|e l1 IH]; cbn; [done|]. rewrite IH. lia.
Qed.

Lemma counted_push q log b count freed t c h tl :
  counted q log b count freed -> (b <= length log)%nat ->
  counted (MkMQ h tl (u64 (size_ q + 1)) (u64 (memory_usage_ q + (zlen t + zlen c))))
    (log ++ [(t, c)]) b count freed.
Proof.
  intros [Hs Hm] Hb. split; cbn.
  - rewrite Hs, u64_add_l, length_app. f_equal. cbn. lia.
  - rewrite Hm, u64_add_l, drop_app_le, log_bytes_app by lia. f_equal. cbn. lia.
Qed.

(** Freeing node [b] moves its share from the counters' excess. *)
Lemma counted_free q log b count freed it :
  counted q log b count freed -> (b < length log)%nat ->
  topic it = (node_val log b).1 -> content it = (node_val log b).2 ->
  counted q log (S b) (u64 (count + 1)) (u64 (freed + item_bytes it)).
Proof.
  intros [Hs Hm] Hb Ht Hc. split; [rewrite Hs|rewrite Hm]; rewrite u64_add_r; f_equal; [lia|].
  unfold item_bytes. rewrite Ht, Hc. replace (S b - 1)%nat with b by lia. destruct b as [|b].
  { change (0 - 1)%nat with 0%nat. cbn [node_val fst snd]. lia. }
  replace (S b - 1)%nat with b by lia. cbn [node_val].
  destruct (lookup_lt_is_Some_2 log b) as [[t c] Hl]; [lia|]. rewrite Hl. cbn [fst snd].
  rewrite (drop_S _ _ _ Hl). unfold log_bytes. cbn [foldr fst snd]. lia.
Qed.

Lemma counted_finish q log b count freed p :
  counted q log b count freed ->
  counted (gc_finish (set_head q p) count freed) log b 0 0.
Proof.
  intros [Hs Hm]. split; cbn; [rewrite Hs|rewrite Hm].
  all: rewrite <- Z.add_opp_r, u64_add_l; f_equal; lia.
Qed.

(** ** The invariant of the system *)

Definition deliver (e : bytes * bytes) : option bytes * option bytes := (Some e.1, Some e.2).

(** [pos] is how many messages each consumer has been given; [cps], while the
    master collects, the positions it read, which may be stale. *)
Definition positions (ns : list addr) (b : nat) (js : list nat) : list MQCursor :=
  (fun j => ns !! (j - b)%nat) <$> js.

Definition stale (b : nat) (cps pos : list nat) : Prop :=
  forall i j, cps !! i = Some j -> (b <= j)%nat /\ exists j', pos !! i = Some j' /\ (j <= j')%nat.

Definition phase_ok (s : sys) (b : nat) (ns : list addr) (pos : list nat) : Prop :=
  let q := queue (smem s) in
  match phase s with
  | Idle => head_ q = ns !! 0%nat /\ counted q (pushed s) b 0 0
  | Collect ps => head_ q = ns !! 0%nat /\ counted q (pushed s) b 0 0
      /\ exists cps, ps = positions ns b cps /\ stale b cps pos
  | Scan p ps count freed => p = ns !! 0%nat /\ counted q (pushed s) b count freed
      /\ exists cps, ps = positions ns b cps /\ stale b cps pos /\ length cps = length pos
  | Finish count freed => head_ q = ns !! 0%nat /\ counted q (pushed s) b count freed
  end.

Record sys_ok (n : nat) (s : sys) (b : nat) (ns : list addr) (pos : list nat) : Prop := {
  so_nodes : nodes_ok (items (smem s)) (pushed s) b ns;
  so_tail : tail_ (queue (smem s)) = last ns;
  so_len : length pos = n;
  so_pos : Forall (fun j => b <= j <= length (pushed s))%nat pos;
  so_cursors : cursors s = positions ns b pos;
  so_received : received s = (fun j => deliver <$> take j (pushed s)) <$> pos;
  so_phase : phase_ok s b ns pos;
}.

Definition sys_inv (n : nat) (s : sys) : Prop := exists b ns pos, sys_ok n s b ns pos.

Lemma positions_app ns a b js :
  Forall (fun j => j - b < length ns)%nat js -> positions (ns ++ [a]) b js = positions ns b js.
Proof.
  intros H. apply list_fmap_ext. intros i j Hj. rewrite Forall_lookup in H.
  by rewrite lookup_app_l by (by eapply H).
Qed.

Lemma positions_free ns a b js :
  Forall (fun j => b < j)%nat js -> positions (a :: ns) b js = positions ns (S b) js.
Proof.
  intros H. apply list_fmap_ext. intros i j Hj. rewrite Forall_lookup in H.
  specialize (H _ _ Hj). cbn in H. by replace (j - b)%nat with (S (j - S b)) by lia.
Qed.

Lemma stale_bound b cps pos L :
  stale b cps pos -> Forall (fun j => b <= j <= L)%nat pos -> Forall (fun j => b <= j <= L)%nat cps.
Proof.
  intros Hs Hp. apply Forall_lookup. intros i j Hj. destruct (Hs _ _ Hj) as (? & j' & Hj' & ?).
  rewrite Forall_lookup in Hp. specialize (Hp _ _ Hj'). cbn in Hp. lia.
Qed.

Lemma init_inv n : sys_inv n (init n).
Proof.
  exists 0%nat, [fresh (dom (∅ : gmap addr MQItem))], (replicate n 0%nat). split; cbn.
  - apply nodes_open.
  - done.
  - apply length_replicate.
  - apply Forall_replicate. lia.
  - unfold positions. by rewrite fmap_replicate.
  - by rewrite fmap_replicate.
  - done.
Qed.

(** ** Each action preserves the invariant, and none is undefined *)

Lemma positions_in_range m log b ns js :
  nodes_ok m log b ns -> Forall (fun j => b <= j <= length log)%nat js ->
  Forall (fun j => j - b < length ns)%nat js.
Proof.
  intros H Hf. pose proof (no_len _ _ _ _ H). eapply Forall_impl; [exact Hf|]. intros j ?. cbn in *. lia.
Qed.

Lemma phase_ok_push s m b ns pos a t c :
  phase_ok s b ns pos -> ns <> [] ->
  Forall (fun j => j - b < length ns)%nat pos ->
  head_ (queue m) = head_ (queue (smem s)) ->
  (forall count freed, counted (queue (smem s)) (pushed s) b count freed ->
    counted (queue m) (pushed s ++ [(t, c)]) b count freed) ->
  phase_ok (Sys m (cursors s) (phase s) (pushed s ++ [(t, c)]) (received s)) b (ns ++ [a]) pos.
Proof.
  intros Hp Hne Hr Hh Hc. unfold phase_ok in *. cbn [smem phase pushed].
  assert (H0 : (ns ++ [a]) !! 0%nat = ns !! 0%nat) by (by destruct ns).
  assert (Hcps : forall cps, stale b cps pos -> positions (ns ++ [a]) b cps = positions ns b cps).
  { intros cps Hs. apply positions_app, Forall_lookup. intros i j Hj.
    destruct (Hs _ _ Hj) as (_ & j' & Hj' & ?). rewrite Forall_lookup in Hr.
    specialize (Hr _ _ Hj'). cbn in Hr. lia. }
  destruct (phase s); rewrite ?H0, ?Hh.
  - destruct Hp. auto.
  - destruct Hp as (? & ? & cps & -> & Hs). split_and!; [done|auto|]. exists cps. by rewrite Hcps.
  - destruct Hp as (? & ? & cps & -> & Hs & ?). split_and!; [done|auto|]. exists cps. by rewrite Hcps.
  - destruct Hp. auto.
Qed.

Lemma MQPush_ok s log b ns t c :
  nodes_ok (items s) log b ns -> tail_ (queue s) = last ns ->
  exists m a, MQPush s t c = Some (Mem m (MkMQ (head_ (queue s)) (Some a)
      (u64 (size_ (queue s) + 1)) (u64 (memory_usage_ (queue s) + (zlen t + zlen c)))))
    /\ nodes_ok m (log ++ [(t, c)]) b (ns ++ [a]).
Proof.
  intros Hn Ht. destruct (nodes_nonempty _ _ _ _ Hn) as (a0 & ns0 & Ens).
  assert (exists tl, last ns = Some tl) as [tl Htl] by (apply last_is_Some; by rewrite Ens).
  unfold MQPush. destruct (new_item _ _ _ _) as [a m] eqn:Enew. rewrite Ht, Htl. cbn.
  assert (is_Some (m !! tl)) as [it Hit].
  { injection Enew as _ <-. rewrite lookup_insert. case_decide; [by eexists|].
    apply elem_of_dom. rewrite (no_dom _ _ _ _ Hn), elem_of_list_to_set.
    apply last_Some in Htl as [l ->]. set_solver. }
  rewrite Hit. cbn. eexists _, a. split; [done|]. by eapply nodes_push.
Qed.

Lemma push_ok n s t c : sys_inv n s ->
  exists s', step s (EPush t c) = Some s' /\ sys_inv n s' /\ pushed s' = pushed s ++ [(t, c)].
Proof.
  intros (b & ns & pos & [Hn Ht Hl Hp Hc Hr Hph]). pose proof (no_pos _ _ _ _ Hn) as Hb.
  destruct (nodes_nonempty _ _ _ _ Hn) as (a0 & ns0 & Ens).
  destruct (MQPush_ok _ _ _ _ t c Hn Ht) as (m & a & Hpush & Hn').
  cbn [step]. rewrite Hpush. cbn. eexists. split; [done|]. split; [|done].
  exists b, (ns ++ [a]), pos. split; cbn.
  - done.
  - by rewrite last_snoc.
  - done.
  - rewrite length_app. eapply Forall_impl; [done|]. cbn. lia.
  - rewrite Hc, positions_app; [done|]. by eapply positions_in_range.
  - rewrite Hr. apply list_fmap_ext. intros i j Hj. rewrite Forall_lookup in Hp.
    specialize (Hp _ _ Hj). cbn in Hp. by rewrite take_app_le by lia.
  - apply phase_ok_push; cbn; [done|by rewrite Ens|by eapply positions_in_range|done|].
    intros. by apply counted_push.
Qed.

Lemma MQNext_at s log b ns j :
  nodes_ok (items s) log b ns -> (b <= j <= length log)%nat ->
  MQNext s (ns !! (j - b)%nat) =
    Some (match log !! j with
          | Some e => (ns !! (S j - b)%nat, Some (deliver e))
          | None => (ns !! (j - b)%nat, None)
          end).
Proof.
  intros Hn Hj. destruct (nodes_lookup _ _ _ _ j Hn) as [a Ha]; [lia|].
  rewrite Ha. cbn. rewrite (nodes_at _ _ _ _ j _ Hn ltac:(lia) Ha). cbn.
  destruct (log !! j) as [[t c]|] eqn:E.
  - apply lookup_lt_Some in E as Hlt.
    destruct (nodes_lookup _ _ _ _ (S j) Hn) as [a' Ha']; [lia|]. rewrite Ha'.
    rewrite (nodes_at _ _ _ _ (S j) _ Hn ltac:(lia) Ha'). cbn. by rewrite E.
  - apply lookup_ge_None in E. pose proof (no_len _ _ _ _ Hn).
    by rewrite (lookup_ge_None_2 ns) by lia.
Qed.

Lemma stale_advance b cps pos i j :
  stale b cps pos -> pos !! i = Some j -> stale b cps (<[i := S j]> pos).
Proof.
  intros Hs Hi i' j' Hj'. destruct (Hs _ _ Hj') as (? & k & Hk & ?). split; [done|].
  destruct (decide (i = i')) as [<-|].
  - exists (S j). rewrite list_lookup_insert_eq by (by eapply lookup_lt_Some). split; [done|].
    assert (k = j) by congruence. lia.
  - exists k. by rewrite list_lookup_insert_ne.
Qed.

Lemma next_ok n s i : sys_inv n s ->
  exists s', step s (ENext i) = Some s' /\ sys_inv n s' /\ pushed s' = pushed s.
Proof.
  intros (b & ns & pos & [Hn Ht Hl Hp Hc Hr Hph]). cbn [step]. rewrite Hc.
  unfold positions at 1. rewrite list_lookup_fmap.
  destruct (pos !! i) as [j|] eqn:Ei; cbn.
  2: { exists s. split; [done|]. split; [|done]. by exists b, ns, pos. }
  assert (Hj : (b <= j <= length (pushed s))%nat).
  { rewrite Forall_lookup in Hp. by apply (Hp _ _ Ei). }
  rewrite (MQNext_at _ _ _ _ _ Hn Hj). destruct (pushed s !! j) as [e|] eqn:Ej; cbn.
  - apply lookup_lt_Some in Ej as Hlt. eexists. split; [done|]. split; [|done].
    exists b, ns, (<[i := S j]> pos). split; cbn; [done|done|by rewrite length_insert| | | |].
    + apply Forall_insert; [done|lia].
    + unfold positions. by rewrite list_fmap_insert.
    + rewrite list_fmap_insert, Hr. change (deliver <$> take (S j) (pushed s)) with (fmap deliver (take (S j) (pushed s))).
      rewrite (take_S_r _ _ _ Ej), fmap_app. cbn.
      apply list_eq. intros k. rewrite list_insert_alter, !list_lookup_alter.
      case_decide as Hk; [subst k|done]. by rewrite list_lookup_fmap, Ei.
    + unfold phase_ok in *. cbn [smem phase pushed]. destruct (phase s); [done| | |done].
      * destruct Hph as (? & ? & cps & -> & Hs). split_and!; [done..|]. exists cps. split; [done|].
        by apply stale_advance.
      * destruct Hph as (? & ? & cps & -> & Hs & ?). split_and!; [done..|]. exists cps.
        rewrite length_insert. split_and!; [done|by apply stale_advance|done].
  - eexists. split; [done|]. split; [|done]. exists b, ns, pos. split; try done. cbn.
    unfold positions. change (Sys _ _ _ _ _).(cursors) with (<[i := ns !! (j - b)%nat]> (positions ns b pos)).
    rewrite list_insert_id; [done|]. unfold positions. by rewrite list_lookup_fmap, Ei.
Qed.

(** The free of node [b] when no captured position is at it. *)
Lemma gc_iter_ok m log b ns cps :
  nodes_ok m log b ns -> cps <> [] -> Forall (fun j => b <= j <= length log)%nat cps ->
  gc_iter m (ns !! 0%nat) (positions ns b cps) = Some GStop /\ b ∈ cps
  \/ exists a ns' it, ns = a :: ns'
     /\ gc_iter m (ns !! 0%nat) (positions ns b cps) = Some (GFreed (delete a m) (ns' !! 0%nat) (item_bytes it))
     /\ nodes_ok (delete a m) log (S b) ns' /\ Forall (fun j => b < j <= length log)%nat cps
     /\ positions ns b cps = positions ns' (S b) cps
     /\ topic it = (node_val log b).1 /\ content it = (node_val log b).2.
Proof.
  intros Hn Hne Hr. unfold gc_iter. destruct (nodes_nonempty _ _ _ _ Hn) as (a & ns' & ->).
  case_bool_decide as Hin.
  - left. split; [done|]. apply list_elem_of_fmap in Hin as (j & Hj & Hin).
    apply list_elem_of_lookup in Hin as [i Hi]. pose proof Hr as Hr'. rewrite Forall_lookup in Hr'.
    specialize (Hr' _ _ Hi). cbn in Hr'. pose proof (no_len _ _ _ _ Hn).
    assert (b = j) as ->; [|by eapply list_elem_of_lookup_2].
    eapply (nodes_inj _ _ b _ b j a Hn); [lia|lia|by rewrite Nat.sub_diag|].
    by rewrite <- Hj.
  - right. assert (Hgt : Forall (fun j => b < j <= length log)%nat cps).
    { apply Forall_lookup. intros i j Hi. rewrite Forall_lookup in Hr.
      specialize (Hr _ _ Hi). cbn in Hr. destruct (decide (b = j)) as [<-|]; [|lia].
      destruct Hin. apply list_elem_of_fmap. exists b. rewrite Nat.sub_diag. split; [done|].
      by eapply list_elem_of_lookup_2. }
    assert (b < length log)%nat.
    { destruct cps as [|j cps]; [done|]. apply Forall_cons in Hgt as [? _]. lia. }
    pose proof (no_at _ _ _ _ Hn 0%nat a eq_refl) as Ha. rewrite Nat.add_0_r in Ha. cbn in Ha.
    eexists a, ns', _. split; [done|]. cbn. rewrite Ha. cbn. split; [done|].
    split; [by apply nodes_free|]. split; [done|]. split; [|done].
    apply positions_free. eapply Forall_impl; [done|]. cbn. lia.
Qed.

Lemma tail_free (a : addr) ns' : ns' <> [] -> last (a :: ns') = last ns'.
Proof. by destruct ns'. Qed.

Lemma gc_ok n s : (0 < n)%nat -> sys_inv n s ->
  exists s', step s EGc = Some s' /\ sys_inv n s' /\ pushed s' = pushed s.
Proof.
  intros Hpos (b & ns & pos & [Hn Ht Hl Hp Hc Hr Hph]). cbn [step]. unfold gc_step.
  unfold phase_ok in Hph. destruct (phase s) as [|ps|p ps count freed|count freed] eqn:Eph.
  - eexists. split; [done|]. split; [|done]. exists b, ns, pos. split; try done.
    unfold phase_ok. cbn. destruct Hph. split_and!; [done..|]. by exists [].
  - destruct Hph as (? & ? & cps & -> & Hs). rewrite Hc. unfold positions at 1 2.
    rewrite length_fmap, list_lookup_fmap. destruct (pos !! length cps) as [j|] eqn:Ej; cbn.
    + eexists. split; [done|]. split; [|done]. exists b, ns, pos. split; try done.
      unfold phase_ok. cbn. split_and!; [done..|]. exists (cps ++ [j]).
      split; [by unfold positions; rewrite fmap_app|].
      intros i k Hk. apply lookup_app_Some in Hk as [Hk|[Hi Hk]]; [by apply Hs|].
      apply list_lookup_singleton_Some in Hk as [? <-].
      replace i with (length cps) by lia. rewrite Forall_lookup in Hp. specialize (Hp _ _ Ej).
      cbn in Hp. split; [lia|]. by exists j.
    + eexists. split; [done|]. split; [|done]. exists b, ns, pos. split; try done.
      unfold phase_ok. cbn. split_and!; [done..|]. exists cps. split_and!; [done..|].
      apply lookup_ge_None in Ej. destruct (decide (length pos < length cps)%nat) as [Hlt|]; [|lia].
      destruct (lookup_lt_is_Some_2 _ _ Hlt) as [k Hk]. destruct (Hs _ _ Hk) as (_ & j' & Hj' & _).
      apply lookup_lt_Some in Hj'. lia.
  - destruct Hph as (-> & Hct & cps & -> & Hs & Hlen).
    destruct (gc_iter_ok (items (smem s)) (pushed s) b ns cps) as [(Hg & _)|H];
      [done| |by eapply stale_bound| |].
    { intros ->. cbn in Hlen. lia. }
    + rewrite Hg. cbn. eexists. split; [done|]. split; [|done]. exists b, ns, pos. by split.
    + destruct H as (a & ns' & it & -> & Hg & Hn' & Hgt & Hpos' & Htop & Hcon).
      rewrite Hg. cbn. eexists. split; [done|]. split; [|done]. exists (S b), ns', pos.
      assert (Hp' : Forall (fun j => S b <= j <= length (pushed s))%nat pos).
      { apply Forall_lookup. intros i j Hj. rewrite Forall_lookup in Hp. specialize (Hp _ _ Hj).
        destruct (lookup_lt_is_Some_2 cps i) as [k Hk]; [rewrite Hlen; by eapply lookup_lt_Some|].
        destruct (Hs _ _ Hk) as (_ & j' & Hj' & ?). rewrite Forall_lookup in Hgt.
        specialize (Hgt _ _ Hk). cbn in *. assert (j' = j) by congruence. lia. }
      destruct (nodes_nonempty _ _ _ _ Hn') as (a' & ns'' & Ens').
      split; cbn; [done| |done|done| |done|].
      * by rewrite Ht, tail_free by (by rewrite Ens').
      * rewrite Hc. apply positions_free. eapply Forall_impl; [done|]. cbn. lia.
      * unfold phase_ok. cbn. split; [done|]. split.
        { apply counted_free; [done| |done|done]. pose proof (no_pos _ _ _ _ Hn'). lia. }
        exists cps. split; [done|]. split; [|done]. intros i j Hj.
        destruct (Hs _ _ Hj) as (? & j' & ? & ?). rewrite Forall_lookup in Hgt.
        specialize (Hgt _ _ Hj). cbn in Hgt. split; [lia|]. eauto.
  - eexists. split; [done|]. split; [|done]. exists b, ns, pos. split; try done.
    unfold phase_ok. cbn. destruct Hph as [? ?]. split; [done|].
    by apply (counted_finish _ _ _ _ _ (head_ (queue (smem s)))).
Qed.

Lemma mq_step_ok n s e : (0 < n)%nat -> sys_inv n s ->
  exists s', step s e = Some s' /\ sys_inv n s'
    /\ pushed s' = pushed s ++ (match e with EPush t c => [(t, c)] | _ => [] end).
Proof.
  intros Hn Hs. destruct e as [t c|i|].
  - by apply push_ok.
  - destruct (next_ok n s i Hs) as (s' & ? & ? & ?). exists s'. by rewrite app_nil_r.
  - destruct (gc_ok n s Hn Hs) as (s' & ? & ? & ?). exists s'. by rewrite app_nil_r.
Qed.

Definition pushes (es : list event) : list (bytes * bytes) :=
  omap (fun e => match e with EPush t c => Some (t, c) | _ => None end) es.

Lemma mq_run_ok n s es : (0 < n)%nat -> sys_inv n s ->
  exists s', run s es = Some s' /\ sys_inv n s' /\ pushed s' = pushed s ++ pushes es.
Proof.
  intros Hn. revert s. induction es as [|e es IH]; intros s Hs; cbn.
  - exists s. by rewrite app_nil_r.
  - destruct (mq_step_ok n s e Hn Hs) as (s1 & -> & Hs1 & Hp1). cbn.
    destruct (IH s1 Hs1) as (s2 & -> & Hs2 & Hp2). exists s2. split; [done|]. split; [done|].
    rewrite Hp2, Hp1, <- app_assoc. by destruct e.
Qed.

(** C5. For any interleaving of pushes, reads by the consumers and collections of old messages,
    every operation is defined (no freed item is read), each consumer has received a prefix of the
    pushed messages in order, its cursor still points at a live item that holds the last message it
    received, and when it is behind its next read returns the next message. *)
Theorem mq_interleaving_safe n es : (0 < n)%nat ->
  exists s, run (init n) es = Some s
    /\ length (received s) = n
    /\ forall i l, received s !! i = Some l ->
         exists k, l = deliver <$> take k (pushes es)
           /\ exists a it, cursors s !! i = Some (Some a) /\ items (smem s) !! a = Some it
              /\ (topic it, content it) = default (None, None) (last l)
              /\ (is_Some (pushes es !! k) ->
                  exists s', step s (ENext i) = Some s'
                    /\ received s' !! i = Some (deliver <$> take (S k) (pushes es))).
Proof.
  intros Hn. destruct (mq_run_ok n (init n) es Hn (init_inv n)) as (s & Hrun & Hinv & Hp).
  exists s. split; [done|]. cbn in Hp. rewrite <- Hp.
  pose proof (next_ok n s) as Hnext.
  destruct Hinv as (b & ns & pos & [Hnod Ht Hl Hpos Hc Hr Hph]).
  split; [by rewrite Hr, length_fmap|]. intros i l Hi.
  rewrite Hr, list_lookup_fmap in Hi. destruct (pos !! i) as [k|] eqn:Ei; [|done].
  injection Hi as <-. exists k. split; [done|].
  assert (Hk : (b <= k <= length (pushed s))%nat).
  { rewrite Forall_lookup in Hpos. by apply (Hpos _ _ Ei). }
  destruct (nodes_lookup _ _ _ _ _ Hnod Hk) as [a Ha].
  eexists a, _. split; [by rewrite Hc; unfold positions; rewrite list_lookup_fmap, Ei; cbn; rewrite Ha|].
  split; [apply (nodes_at _ _ _ _ k _ Hnod ltac:(lia) Ha)|]. split.
  - destruct k as [|k]; [done|]. cbn [topic content].
    destruct (lookup_lt_is_Some_2 (pushed s) k) as [[t c] Hl']; [lia|].
    rewrite (take_S_r _ _ _ Hl'), fmap_app. cbn [fmap list_fmap]. rewrite last_snoc.
    cbn [node_val]. by rewrite Hl'.
  - intros [e He]. cbn [step]. rewrite Hc. unfold positions at 1. rewrite list_lookup_fmap, Ei. cbn.
    rewrite (MQNext_at _ _ _ _ _ Hnod Hk), He. cbn. eexists. split; [done|]. cbn.
    rewrite Hr, list_lookup_alter_eq, list_lookup_fmap, Ei. cbn.
    by rewrite (take_S_r _ _ _ He), fmap_app.
Qed.

Lemma mq_interleaving_safe_witness :
  exists s, run (init 2) [EPush (bs "a") (bs "x"); ENext 0; EGc; EPush (bs "b") (bs "y"); EGc; ENext 0] = Some s
    /\ length (received s) = 2%nat
    /\ forall i l, received s !! i = Some l ->
         exists k, l = deliver <$> take k [(bs "a", bs "x"); (bs "b", bs "y")]
           /\ exists a it, cursors s !! i = Some (Some a) /\ items (smem s) !! a = Some it
              /\ (topic it, content it) = default (None, None) (last l)
              /\ (is_Some ([(bs "a", bs "x"); (bs "b", bs "y")] !! k) ->
                  exists s', step s (ENext i) = Some s'
                    /\ received s' !! i = Some (deliver <$> take (S k) [(bs "a", bs "x"); (bs "b", bs "y")])).
Proof. exact (mq_interleaving_safe 2 _ ltac:(lia)). Defined.

(** ** The sequential functions *)

Record queue_ok (s : mem) (log : list (bytes * bytes)) (b : nat) (ns : list addr) : Prop := {
  qo_nodes : nodes_ok (items s) log b ns;
  qo_head : head_ (queue s) = ns !! 0%nat;
  qo_tail : tail_ (queue s) = last ns;
  qo_counted : counted (queue s) log b 0 0;
}.

(** The earliest of the positions. *)
Definition earliest (log : list (bytes * bytes)) (cps : list nat) : nat :=
  foldr Nat.min (length log) cps.

Lemma earliest_le log cps j : j ∈ cps -> (earliest log cps <= j)%nat.
Proof. unfold earliest. induction cps as [|x l IH]; cbn; set_solver by lia. Qed.

Lemma earliest_ge log cps b :
  Forall (fun j => b <= j <= length log)%nat cps -> (b <= length log)%nat ->
  (b <= earliest log cps <= length log)%nat.
Proof. unfold earliest. induction 1; cbn in *; lia. Qed.

Lemma gc_loop_ok q log cps fuel m b ns count freed :
  nodes_ok m log b ns -> cps <> [] -> Forall (fun j => b <= j <= length log)%nat cps ->
  counted q log b count freed -> (length ns <= fuel)%nat ->
  exists m' count' freed', let b' := earliest log cps in
    gc_loop fuel m (ns !! 0%nat) (positions ns b cps) count freed
      = Some (m', drop (b' - b) ns !! 0%nat, count', freed')
    /\ nodes_ok m' log b' (drop (b' - b) ns) /\ counted q log b' count' freed'.
Proof.
  intros Hn Hne Hr Hct Hf. revert m b ns count freed Hn Hr Hct Hf.
  induction fuel as [|fuel IH]; intros m b ns count freed Hn Hr Hct Hf.
  { destruct (nodes_nonempty _ _ _ _ Hn) as (? & ? & ->). cbn in Hf. lia. }
  cbn [gc_loop]. pose proof (no_pos _ _ _ _ Hn) as Hb. pose proof (earliest_ge _ _ _ Hr Hb).
  destruct (gc_iter_ok m log b ns cps Hn Hne Hr) as [(Hg & Hin)|H1].
  - rewrite Hg. cbn. pose proof (earliest_le log _ _ Hin). assert (earliest log cps = b) as -> by lia.
    rewrite Nat.sub_diag. eauto 10.
  - destruct H1 as (a & ns' & it & -> & Hg & Hn' & Hgt & Hpos & Ht & Hc). rewrite Hg. cbn [mbind option_bind].
    rewrite Hpos. cbn [length] in Hf. pose proof (no_pos _ _ _ _ Hn').
    assert (Hr' : Forall (fun j => S b <= j <= length log)%nat cps).
    { eapply Forall_impl; [exact Hgt|]. cbn. lia. }
    pose proof (earliest_ge _ _ _ Hr' ltac:(lia)).
    destruct (IH _ _ _ (u64 (count + 1)) (u64 (freed + item_bytes it)) Hn' Hr') as (m' & c' & f' & E & ? & ?);
      [apply counted_free; (done || lia)|lia|].
    exists m', c', f'. cbn zeta. rewrite E.
    replace (earliest log cps - b)%nat with (S (earliest log cps - S b)) by lia. done.
Qed.

Lemma nodes_size m log b ns : nodes_ok m log b ns -> size m = length ns.
Proof.
  intros H. rewrite <- size_dom, (no_dom _ _ _ _ H). apply size_list_to_set, (no_dup _ _ _ _ H).
Qed.

(** C28. Collection frees exactly the messages that every cursor has passed: the queue starts at
    the earliest cursor afterwards, the result and the size are the number of messages after it, and
    the memory counter is the sum of the sizes of the items that remain. *)
Theorem MQFreeOldMessages_exact s log b ns cps :
  queue_ok s log b ns -> cps <> [] -> Forall (fun j => b <= j <= length log)%nat cps ->
  zlen log < 2 ^ 64 ->
  let b' := earliest log cps in
  exists s', MQFreeOldMessages s (positions ns b cps) = Some (s', zlen log - Z.of_nat b')
    /\ queue_ok s' log b' (drop (b' - b) ns) /\ MQSize s' = zlen log - Z.of_nat b'
    /\ MQMemoryUsage s' = u64 (log_bytes (drop (b' - 1) log)).
Proof.
  intros [Hn Hh Ht Hc] Hne Hr Hlog b'. unfold MQFreeOldMessages. rewrite Hh.
  pose proof (earliest_ge log cps b Hr (no_pos _ _ _ _ Hn)).
  destruct (gc_loop_ok (queue s) log cps (S (size (items s))) (items s) b ns 0 0)
    as (m' & c' & f' & -> & Hn' & Hc'); [done..| |].
  { rewrite (nodes_size _ _ _ _ Hn). lia. }
  cbn [mbind option_bind]. pose proof (counted_finish _ _ _ _ _ (drop (b' - b) ns !! 0%nat) Hc') as Hfin.
  pose proof Hfin as [Hsz Hmem]. rewrite Z.add_0_r in Hsz, Hmem.
  rewrite u64_small in Hsz by (subst b'; unfold in_u64; lia). fold b' in Hsz, Hmem.
  exists (Mem m' (gc_finish (set_head (queue s) (drop (b' - b) ns !! 0%nat)) c' f')).
  split; [by rewrite <- Hsz|]. split; [split|split].
  - done.
  - done.
  - cbn. rewrite Ht. pose proof (no_len _ _ _ _ Hn).
    rewrite !last_lookup, lookup_drop, length_drop. f_equal. subst b'. lia.
  - done.
  - done.
  - done.
Qed.

Lemma queue_ok_push s log b ns t c : queue_ok s log b ns ->
  exists s' a, MQPush s t c = Some s' /\ queue_ok s' (log ++ [(t, c)]) b (ns ++ [a]).
Proof.
  intros [Hn Hh Ht Hc]. destruct (nodes_nonempty _ _ _ _ Hn) as (a0 & ns0 & Ens).
  destruct (MQPush_ok _ _ _ _ t c Hn Ht) as (m & a & Hpush & Hn').
  exists (Mem m (MkMQ (head_ (queue s)) (Some a) (u64 (size_ (queue s) + 1))
    (u64 (memory_usage_ (queue s) + (zlen t + zlen c))))), a.
  split; [done|]. split; cbn; [done|by rewrite Hh, Ens|by rewrite last_snoc|].
  apply counted_push; [done|]. apply (no_pos _ _ _ _ Hn).
Qed.

Lemma queue_ok_open : queue_ok MQOpen [] 0 [fresh (dom (∅ : gmap addr MQItem))].
Proof. split; [apply nodes_open|done..]. Qed.

Lemma MQFreeOldMessages_exact_witness :
  exists s ns s' e, queue_ok s [e; e; e] 0 ns
    /\ MQFreeOldMessages s (positions ns 0 [2; 3]%nat) = Some (s', 1) /\ MQSize s' = 1.
Proof.
  pose (t := bs "t").
  destruct (queue_ok_push _ _ _ _ t t queue_ok_open) as (s1 & a1 & _ & H1).
  destruct (queue_ok_push _ _ _ _ t t H1) as (s2 & a2 & _ & H2).
  destruct (queue_ok_push _ _ _ _ t t H2) as (s3 & a3 & _ & H3).
  destruct (MQFreeOldMessages_exact _ _ _ _ [2; 3]%nat H3) as (s' & Hf & _ & Hs & _);
    [discriminate|repeat constructor; cbn; lia|cbn; lia|].
  eexists s3, _, s', (t, t). split; [exact H3|]. split; [exact Hf|exact Hs].
Defined.

Lemma close_loop_ok fuel m log b ns :
  nodes_ok m log b ns -> (length ns <= fuel)%nat -> close_loop fuel m (ns !! 0%nat) = Some ∅.
Proof.
  revert m b ns. induction fuel as [|fuel IH]; intros m b ns Hn Hf;
    destruct (nodes_nonempty _ _ _ _ Hn) as (a & ns' & ->); cbn in Hf; [lia|].
  cbn [close_loop lookup list_lookup].
  pose proof (no_at _ _ _ _ Hn 0%nat a eq_refl) as Ha. rewrite Ha. cbn.
  destruct ns' as [|a' ns'].
  - replace (close_loop fuel (delete a m) ([] !! 0%nat)) with (Some (delete a m)) by (by destruct fuel).
    f_equal. apply dom_empty_inv_L. rewrite dom_delete_L, (no_dom _ _ _ _ Hn). cbn. set_solver.
  - pose proof (no_len _ _ _ _ Hn). cbn in *.
    apply (IH _ (S b) (a' :: ns')); [|cbn; lia]. apply nodes_free; [done|lia].
Qed.

(** Closing a message queue frees every item, each once, and leaves nothing allocated. *)
Theorem MQClose_frees_all s log b ns : queue_ok s log b ns -> MQClose s = Some ∅.
Proof.
  intros [Hn Hh _ _]. unfold MQClose. rewrite Hh. eapply close_loop_ok; [done|].
  by rewrite (nodes_size _ _ _ _ Hn).
Qed.

Lemma MQClose_frees_all_witness :
  exists s ns, queue_ok s [(bs "t", bs "x")] 0 ns /\ MQClose s = Some ∅.
Proof.
  destruct (queue_ok_push _ _ _ _ (bs "t") (bs "x") queue_ok_open) as (s1 & a1 & E & H1).
  eexists s1, _. split; [exact H1|]. exact (MQClose_frees_all _ _ _ _ H1).
Defined.

(** ** Unread messages, for the threads that count them *)

Lemma inv_received n s i : sys_inv n s -> (i < n)%nat ->
  exists l cur, received s !! i = Some l /\ cursors s !! i = Some cur /\ (length l <= length (pushed s))%nat.
Proof.
  intros (b & ns & pos & [Hn Ht Hl Hp Hc Hr Hph]) Hi.
  destruct (lookup_lt_is_Some_2 pos i) as [j Hj]; [lia|]. rewrite Hr, Hc. unfold positions.
  rewrite !list_lookup_fmap, Hj. cbn. eexists _, _. split; [done|]. split; [done|].
  rewrite length_fmap, length_take. lia.
Qed.

(** A consumer that is behind is given a message, and only then. *)
Lemma inv_next n s i cur l : sys_inv n s -> cursors s !! i = Some cur -> received s !! i = Some l ->
  exists c' msg s', MQNext (smem s) cur = Some (c', msg) /\ step s (ENext i) = Some s' /\ sys_inv n s'
    /\ pushed s' = pushed s
    /\ if decide (length l < length (pushed s))%nat
       then exists m, msg = Some m /\ received s' = <[i := l ++ [m]]> (received s)
       else msg = None /\ received s' = received s.
Proof.
  intros Hinv Hcur Hrec. destruct (next_ok n s i Hinv) as (s' & E & Hinv' & Hp').
  destruct Hinv as (b & ns & pos & [Hn Ht Hl Hp Hc Hr Hph]).
  rewrite Hc in Hcur. unfold positions in Hcur. rewrite list_lookup_fmap in Hcur.
  rewrite Hr, list_lookup_fmap in Hrec. destruct (pos !! i) as [j|] eqn:Ei; [|done].
  injection Hcur as <-. injection Hrec as <-.
  assert (Hj : (b <= j <= length (pushed s))%nat) by (rewrite Forall_lookup in Hp; by apply (Hp _ _ Ei)).
  pose proof (MQNext_at _ _ _ _ _ Hn Hj) as Hnext. rewrite Hnext.
  pose proof E as E0. cbn [step] in E0. rewrite Hc in E0. unfold positions in E0.
  rewrite list_lookup_fmap, Ei in E0. cbn in E0. rewrite Hnext in E0. rewrite length_fmap, length_take.
  destruct (pushed s !! j) as [e|] eqn:Ej.
  - apply lookup_lt_Some in Ej as Hlt. eexists _, _, s'. split_and!; [done..|]. injection E0 as <-.
    rewrite decide_True by lia. exists (deliver e). split; [done|]. cbn.
    rewrite list_insert_alter. rewrite Hr. apply list_eq. intros k. rewrite !list_lookup_alter.
    case_decide as Hk; [subst k|done]. by rewrite list_lookup_fmap, Ei.
  - apply lookup_ge_None in Ej. eexists _, _, s'. split_and!; [done..|]. injection E0 as <-.
    by rewrite decide_False by lia.
Qed.

(** A push is one more message for everybody; the collector takes none. *)
Lemma inv_push n s t c : sys_inv n s ->
  exists s', step s (EPush t c) = Some s' /\ sys_inv n s' /\ pushed s' = pushed s ++ [(t, c)]
    /\ received s' = received s.
Proof.
  intros Hinv. destruct (push_ok n s t c Hinv) as (s' & E & ? & ?). exists s'. split_and!; try done.
  cbn [step] in E. destruct (MQPush _ _ _); [|done]. by injection E as <-.
Qed.

Lemma inv_gc n s : (0 < n)%nat -> sys_inv n s ->
  exists s', step s EGc = Some s' /\ sys_inv n s' /\ pushed s' = pushed s /\ received s' = received s.
Proof.
  intros Hn Hinv. destruct (gc_ok n s Hn Hinv) as (s' & E & ? & ?). exists s'. split_and!; try done.
  cbn [step] in E. unfold gc_step in E.
  destruct (phase s); [by injection E as <-| | |by injection E as <-].
  - destruct (cursors s !! length ps); by injection E as <-.
  - destruct (gc_iter _ _ _) as [[|]|]; [..|done]; by injection E as <-.
Qed.
