(* ===== verification/Master.v ===== *)
(** * master.cc, and the notifications of worker.cc and storer.cc

    The master hands connections to the workers, bounds the connections per
    host, puts the messages of the workers in the queue and sums the
    statistics.  Every consumer of the queue (the workers, then the storer)
    learns of new messages through one socket pair per worker: the worker that
    queued a message counts it in [msg_wait_to_notify_] and writes one byte
    for it, now or when the socket takes it.  The threads interleave. *)

From S2P Require Import Prelude Common MsgQueue.

(** ** Connections *)

Section connections.
Variable cfg : Config.

(** [connected_clients_], a map of [uint16_t] whose absent entries read 0. *)
Definition connected (m : gmap bytes Z) (host : bytes) : Z := default 0 (m !! host).

Definition ShouldAccept (host : bytes) (m : gmap bytes Z) : bool * gmap bytes Z :=
  if max_clients cfg <=? 0 then (true, m)
  else if connected m host <? max_clients cfg then (true, <[host := u16 (connected m host + 1)]> m)
  else (false, <[host := connected m host]> m).

Definition RemoveClient (host : bytes) (m : gmap bytes Z) : gmap bytes Z :=
  if max_clients cfg <=? 0 then m else <[host := u16 (connected m host - 1)]> m.

(** [AssignNewConnection]: the worker that gets it, and [last_thread_]. *)
Definition AssignNewConnection (last_thread : Z) : Z :=
  Z.rem (last_thread + 1) (worker_threads cfg).

(** A connection that is open; those of the Unix socket are not counted. *)
Inductive connection : Type := TcpFrom (host : bytes) | UnixPeer.

#[export] Instance connection_eq_dec : EqDecision connection.
Proof. solve_decision. Defined.

(** The sockets are ready: [accept] succeeds or not, and [ip] is what its
    buffer holds then, which a failed [accept] did not write.  A client is
    deleted: [peer] is what [anetPeerToString] leaves, "?" where the socket has
    no peer any more. *)
Inductive conn_event : Type :=
| TcpArrives (accepted : bool) (ip : bytes)
| UnixArrives (accepted : bool)
| Destroyed (i : nat) (peer : bytes).

Definition conn_step (st : gmap bytes Z * list connection) (e : conn_event) : gmap bytes Z * list connection :=
  match e with
  | TcpArrives accepted ip =>
      let '(ok, m) := ShouldAccept ip st.1 in (m, if ok && accepted then TcpFrom ip :: st.2 else st.2)
  | UnixArrives accepted => (st.1, if accepted : bool then UnixPeer :: st.2 else st.2)
  | Destroyed i peer =>
      match st.2 !! i with
      | Some _ => (RemoveClient peer st.1, delete i st.2)
      | None => st
      end
  end.

Notation conns := (fold_left conn_step).

(** The connections open from an address. *)
Definition is_from (h : bytes) (c : connection) : Z := if decide (c = TcpFrom h) then 1 else 0.
Fixpoint open_from (h : bytes) (l : list connection) : Z :=
  match l with [] => 0 | c :: l => is_from h c + open_from h l end.

(** What an event adds to the counter of an address and not to its
    connections. *)
Definition miscount (h : bytes) (st : gmap bytes Z * list connection) (e : conn_event) : Z :=
  match e with
  | TcpArrives accepted ip => if fst (ShouldAccept ip st.1) && negb accepted then is_from h (TcpFrom ip) else 0
  | UnixArrives _ => 0
  | Destroyed i peer => match st.2 !! i with Some c => is_from h c - is_from h (TcpFrom peer) | None => 0 end
  end.

Fixpoint miscounts (h : bytes) (st : gmap bytes Z * list connection) (es : list conn_event) : Z :=
  match es with [] => 0 | e :: es => miscount h st e + miscounts h (conn_step st e) es end.

(** No event of a run is counted wrong for the address. *)
Fixpoint counted_right (h : bytes) (st : gmap bytes Z * list connection) (es : list conn_event) : Prop :=
  match es with [] => True | e :: es => miscount h st e = 0 /\ counted_right h (conn_step st e) es end.

Lemma open_delete h l i c : l !! i = Some c -> open_from h (delete i l) = open_from h l - is_from h c.
Proof.
  revert i. induction l as [|x l IH]; intros [|i] E; [done..| |].
  { injection E as ->. change (delete 0%nat (c :: l)) with l. cbn [open_from]. lia. }
  change (delete (S i) (x :: l)) with (x :: delete i l). cbn [open_from]. rewrite (IH i E). lia.
Qed.

Lemma open_nonneg h l : 0 <= open_from h l.
Proof. induction l as [|x l IH]; cbn [open_from]; [lia|]. unfold is_from. case_decide; lia. Qed.

Lemma connected_insert m h v h' : connected (<[h := v]> m) h' = if decide (h = h') then v else connected m h'.
Proof. unfold connected. rewrite lookup_insert. by case_decide. Qed.

(** One event, whatever it is. *)
Lemma conn_step_counts st e h : 0 < max_clients cfg ->
  u16 (connected (conn_step st e).1 h) = u16 (connected st.1 h + open_from h (conn_step st e).2 - open_from h st.2 + miscount h st e).
Proof.
  intros Hmax. assert (forall ip, is_from h (TcpFrom ip) = if decide (ip = h) then 1 else 0) as Hfrom.
  { intros ip. unfold is_from. destruct (decide (ip = h)) as [->|Hne]; [by rewrite decide_True|]. rewrite decide_False; [done|]. congruence. }
  assert (forall x, u16 (u16 x) = u16 x) as Hu by (intros x; apply Zmod_mod).
  destruct e as [accepted ip|accepted|i peer]; cbn [conn_step miscount].
  - unfold ShouldAccept. rewrite (proj2 (Z.leb_gt _ _)) by lia. destruct (_ <? _); cbn [fst snd andb]; rewrite connected_insert, ?Hfrom.
    + destruct accepted; cbn [negb open_from]; rewrite ?Hfrom; case_decide; subst; rewrite ?Hu; f_equal; lia.
    + case_decide; subst; f_equal; lia.
  - destruct accepted; cbn [fst snd open_from]; f_equal; [|lia]. unfold is_from. rewrite decide_False by done. lia.
  - destruct (st.2 !! i) as [c|] eqn:E; cbn [fst snd]; [|f_equal; lia]. unfold RemoveClient. rewrite (proj2 (Z.leb_gt _ _)) by lia.
    rewrite connected_insert, (open_delete h _ _ _ E), Hfrom. case_decide; subst; rewrite ?Hu; f_equal; lia.
Qed.

Lemma conns_count es h : 0 < max_clients cfg -> forall st,
  u16 (connected (conns es st).1 h) = u16 (connected st.1 h + open_from h (conns es st).2 - open_from h st.2 + miscounts h st es).
Proof.
  intros Hmax. induction es as [|e es IH]; intros st; cbn [fold_left miscounts]; [f_equal; lia|]. rewrite IH.
  pose proof (conn_step_counts st e h Hmax) as H. unfold u16 in *.
  replace (connected (conn_step st e).1 h + open_from h (conns es (conn_step st e)).2 - open_from h (conn_step st e).2 + miscounts h (conn_step st e) es)
    with (connected (conn_step st e).1 h + (open_from h (conns es (conn_step st e)).2 - open_from h (conn_step st e).2 + miscounts h (conn_step st e) es)) by lia.
  rewrite <- Zplus_mod_idemp_l, H, Zplus_mod_idemp_l. f_equal. lia.
Qed.

(** A counter fits in 16 bits. *)
Lemma conns_small es h : max_clients cfg < 2 ^ 16 -> forall st, 0 <= connected st.1 h < 2 ^ 16 -> 0 <= connected (conns es st).1 h < 2 ^ 16.
Proof.
  intros Hmax. induction es as [|e es IH]; intros st Hst; [done|]. cbn [fold_left]. apply IH.
  assert (forall x, 0 <= u16 x < 2 ^ 16) as Hu by (intros x; by apply Z.mod_pos_bound).
  destruct e as [accepted ip|accepted|i peer]; cbn [conn_step]; [|done|].
  - unfold ShouldAccept. destruct (_ <=? _); [done|]. destruct (_ <? _); cbn [fst]; rewrite connected_insert; case_decide; subst; auto.
  - destruct (st.2 !! i); [|done]. cbn [fst]. unfold RemoveClient. destruct (_ <=? _); [done|]. rewrite connected_insert. case_decide; auto.
Qed.

(** The limit holds for an address whose events are counted right. *)
Lemma conns_limit es h : 0 < max_clients cfg < 2 ^ 16 -> forall st, connected st.1 h = open_from h st.2 -> open_from h st.2 <= max_clients cfg ->
  counted_right h st es -> connected (conns es st).1 h = open_from h (conns es st).2 /\ open_from h (conns es st).2 <= max_clients cfg.
Proof.
  intros Hmax. induction es as [|e es IH]; intros st Hc Hle Hr; [done|]. destruct Hr as [He Hr]. cbn [fold_left].
  assert (open_from h (conn_step st e).2 <= max_clients cfg) as Hle'.
  { destruct e as [accepted ip|accepted|i peer]; cbn [conn_step].
    - unfold ShouldAccept. rewrite (proj2 (Z.leb_gt _ _)) by lia. destruct (_ <? _) eqn:E; [|done]. destruct accepted; [|done].
      cbn [fst snd andb open_from]. unfold is_from. case_decide as Ei; [|lia]. injection Ei as ->. bool_to_prop. lia.
    - destruct accepted; [|done]. cbn [fst snd open_from]. unfold is_from. by rewrite decide_False.
    - destruct (st.2 !! i) as [c|] eqn:E; [|done]. cbn [fst snd]. rewrite (open_delete h _ _ _ E). unfold is_from. case_decide; lia. }
  apply IH; [|done|done]. pose proof (conn_step_counts st e h ltac:(lia)) as Hs. pose proof (open_nonneg h (conn_step st e).2).
  assert (0 <= connected (conn_step st e).1 h < 2 ^ 16) as Hb.
  { apply (conns_small [e] h ltac:(lia) st). pose proof (open_nonneg h st.2). lia. }
  rewrite He, Hc in Hs. unfold u16 in Hs. rewrite !Z.mod_small in Hs; lia.
Qed.

(** C31. When max_clients is positive and below 2^16, then for any sequence of connections,
    failed accepts and deletions of clients, TCP and Unix, whatever address a deleted client seems
    to have, the counter of each address is the number of its open connections and of the events
    that were counted wrong for it (an accept that failed, a client deleted under another address),
    modulo 2^16; and where none was counted wrong, the master never has more than max_clients
    connections from the address, and refuses one only when that many are open. *)
Theorem connection_limit es : 0 < max_clients cfg < 2 ^ 16 ->
  let '(m, open) := conns es (∅, []) in
  forall h, connected m h = u16 (open_from h open + miscounts h (∅, []) es)
    /\ (counted_right h (∅, []) es -> connected m h = open_from h open /\ open_from h open <= max_clients cfg
        /\ (fst (ShouldAccept h m) = true <-> open_from h open < max_clients cfg)).
Proof.
  intros Hmax. destruct (conns es (∅, [])) as [m open] eqn:E. intros h.
  assert (connected ∅ h = 0) as H0 by (unfold connected; by rewrite lookup_empty).
  pose proof (conns_count es h ltac:(lia) (∅, [])) as Hc. pose proof (conns_small es h ltac:(lia) (∅, [])) as Hs.
  pose proof (conns_limit es h Hmax (∅, [])) as Hl. rewrite E in Hc, Hs, Hl. cbn [fst snd open_from] in *. rewrite H0 in *. split.
  - transitivity (u16 (connected m h)); [symmetry; apply Z.mod_small, Hs; lia|]. rewrite Hc. f_equal. lia.
  - intros Hr. destruct (Hl eq_refl ltac:(lia) Hr) as [Hcm Hle]. split; [done|]. split; [done|].
    unfold ShouldAccept. rewrite (proj2 (Z.leb_gt _ _)) by lia. rewrite Hcm.
    destruct (open_from h open <? max_clients cfg) eqn:Em; cbn; bool_to_prop; split; (done || lia).
Qed.
End connections.

Definition small_cfg : Config := MkConfig 4 [] [] 3388 false 2 (fun _ => Limit 0 0 0) 1000000.
Definition local : bytes := bs "10.0.0.1".

(** Two accepts fail while the buffer holds the address: nobody can connect
    from it.  A client whose connection was reset is deleted as "?", whose
    counter wraps, and the place of its address stays taken. *)
Definition counters (es : list conn_event) : Z * Z * list connection :=
  let '(m, open) := fold_left (conn_step small_cfg) es (∅, []) in (connected m local, connected m (bs "?"), open).
Example failed_accepts_count : counters [TcpArrives false local; TcpArrives false local; TcpArrives true local] = (2, 0, []).
Proof. vm_compute. reflexivity. Qed.
Example reset_keeps_its_place : counters [TcpArrives true local; Destroyed 0 (bs "?"); UnixArrives true; Destroyed 0 (bs "?")] = (1, 65534, []).
Proof. vm_compute. reflexivity. Qed.

Definition four_connections : list conn_event :=
  [TcpArrives true local; UnixArrives true; TcpArrives true local; TcpArrives true local; Destroyed 2 local; Destroyed 1 (bs "?")].

Lemma connection_limit_witness :
  let '(m, open) := fold_left (conn_step small_cfg) four_connections (∅, []) in connected m local = 1 /\ open_from local open = 1.
Proof.
  pose proof (connection_limit small_cfg four_connections (conj eq_refl eq_refl)) as H.
  destruct (fold_left (conn_step small_cfg) four_connections (∅, [])) as [m open] eqn:E. destruct (H local) as [_ Hl].
  destruct Hl as (Hc & _ & _); [vm_compute; repeat split|].
  assert (open_from local (fold_left (conn_step small_cfg) four_connections (∅, [])).2 = 1) as Ho by (vm_compute; reflexivity).
  rewrite E in Ho. split; [by rewrite Hc|exact Ho].
Defined.

(** ** Round robin *)

(** The workers that [k] connections in a row go to. *)
Fixpoint assign_all (cfg : Config) (k : nat) (last : Z) : list Z :=
  match k with
  | O => []
  | S k => let t := AssignNewConnection cfg last in t :: assign_all cfg k t
  end.

Lemma assign_nth cfg k last i : 0 < worker_threads cfg -> -1 <= last < worker_threads cfg ->
  (i < k)%nat -> nth i (assign_all cfg k last) 0 = (last + 1 + Z.of_nat i) mod worker_threads cfg.
Proof.
  intros Hn. revert last i. induction k as [|k IH]; intros last i Hl Hi; [lia|]. cbn [assign_all].
  assert (Ha : AssignNewConnection cfg last = (last + 1) mod worker_threads cfg).
  { unfold AssignNewConnection. apply Z.rem_mod_nonneg; lia. }
  destruct i as [|i]; cbn [nth]; [rewrite Ha; f_equal; lia|].
  pose proof (Z.mod_pos_bound (last + 1) (worker_threads cfg) Hn). rewrite IH, Ha by lia.
  rewrite <- Z.add_assoc, Zplus_mod_idemp_l. f_equal. lia.
Qed.

(** New connections go to the workers in turn: the i-th and the j-th go to the same worker
    exactly when i and j are equal modulo the number of workers. *)
Theorem round_robin cfg k i j : 0 < worker_threads cfg ->
  (i < k)%nat -> (j < k)%nat ->
  nth i (assign_all cfg k (-1)) 0 = nth j (assign_all cfg k (-1)) 0
    <-> Z.of_nat i mod worker_threads cfg = Z.of_nat j mod worker_threads cfg.
Proof. intros Hn Hi Hj. rewrite !assign_nth by lia. by rewrite !Z.add_0_l. Qed.

Lemma round_robin_witness :
  0 < worker_threads small_cfg
  /\ (nth 1 (assign_all small_cfg 8 (-1)) 0 = nth 5 (assign_all small_cfg 8 (-1)) 0
      <-> Z.of_nat 1 mod 4 = Z.of_nat 5 mod 4).
Proof. split; [reflexivity|]. apply (round_robin small_cfg 8 1 5); [reflexivity|lia|lia]. Defined.

(** ** Notifications *)

Section notifications.
(** The number of workers, the [queue_limit], and how many unread bytes a
    socket pair holds. *)
Variables (n : nat) (limit : Z) (capacity : nat).

(** Where a worker is in [PutMessage]: outside, past the test of the queue's
    size, or in the loop of [AddNotify] calls (the consumers left, the
    workers in order and the storer, number [n], last). *)
Inductive put_phase : Type :=
| POut
| PAdmitted (topic content : bytes)
| PAdding (consumers : list nat).

(** [wait_ c i] and [pipe_ c i] are, for consumer [c], the entry of worker
    [i] in [msg_wait_to_notify_] and the bytes in its socket pair. *)
Record nstate := NState {
  queue_ : sys;
  wait_ : nat -> nat -> nat;
  pipe_ : nat -> nat -> nat;
  put_ : nat -> put_phase;
  dropped_ : nat;
  (** consumers that read a byte and found no message *)
  wrong_ : nat;
}.

Definition upd1 {A} (f : nat -> A) (i : nat) (x : A) : nat -> A := fun j => if decide (j = i) then x else f j.
Definition upd2 (f : nat -> nat -> nat) (c i : nat) (x : nat) : nat -> nat -> nat :=
  fun c' i' => if decide (c' = c /\ i' = i) then x else f c' i'.

(** The atomic actions of the threads: a worker tests the queue's size,
    pushes, counts a notification, or writes a byte ([NotifyNewMessage],
    called by [PutMessage] and by the worker's timer); a consumer reads a
    byte and takes a message ([PublishMessage], [StoreMessage]); the
    master's collector advances. *)
Inductive naction : Type :=
| ATest (i : nat) (topic content : bytes)
| APush (i : nat)
| AAdd (i : nat)
| AWrite (i c : nat)
| ATake (c i : nat)
| AGc.

Definition nstep (s : nstate) (a : naction) : option nstate :=
  match a with
  | ATest i topic content =>
      match put_ s i with
      | POut =>
          if MQSize (smem (queue_ s)) >=? limit
          then Some (NState (queue_ s) (wait_ s) (pipe_ s) (put_ s) (S (dropped_ s)) (wrong_ s))
          else Some (NState (queue_ s) (wait_ s) (pipe_ s) (upd1 (put_ s) i (PAdmitted topic content))
                       (dropped_ s) (wrong_ s))
      | _ => Some s
      end
  | APush i =>
      match put_ s i with
      | PAdmitted topic content =>
          q ← step (queue_ s) (EPush topic content);
          Some (NState q (wait_ s) (pipe_ s) (upd1 (put_ s) i (PAdding (seq 0 (S n)))) (dropped_ s) (wrong_ s))
      | _ => Some s
      end
  | AAdd i =>
      match put_ s i with
      | PAdding (c :: cs) =>
          Some (NState (queue_ s) (upd2 (wait_ s) c i (S (wait_ s c i))) (pipe_ s)
                  (upd1 (put_ s) i (if decide (cs = []) then POut else PAdding cs)) (dropped_ s) (wrong_ s))
      | _ => Some s
      end
  | AWrite i c =>
      match wait_ s c i with
      | S k =>
          if decide (pipe_ s c i < capacity)%nat
          then Some (NState (queue_ s) (upd2 (wait_ s) c i k) (upd2 (pipe_ s) c i (S (pipe_ s c i)))
                       (put_ s) (dropped_ s) (wrong_ s))
          else Some s
      | O => Some s
      end
  | ATake c i =>
      match pipe_ s c i with
      | O => Some s
      | S k =>
          cur ← cursors (queue_ s) !! c;
          '(_, msg) ← MQNext (smem (queue_ s)) cur;
          q ← step (queue_ s) (ENext c);
          Some (NState q (wait_ s) (upd2 (pipe_ s) c i k) (put_ s) (dropped_ s)
                  (match msg with None => S (wrong_ s) | Some _ => wrong_ s end))
      end
  | AGc => q ← step (queue_ s) EGc; Some (NState q (wait_ s) (pipe_ s) (put_ s) (dropped_ s) (wrong_ s))
  end.

Fixpoint nrun (s : nstate) (acts : list naction) : option nstate :=
  match acts with
  | [] => Some s
  | a :: acts => s ← nstep s a; nrun s acts
  end.

Definition ninit : nstate :=
  NState (init (S n)) (fun _ _ => 0%nat) (fun _ _ => 0%nat) (fun _ => POut) 0 0.

(** Only workers put messages, only consumers are notified. *)
Definition action_ok (a : naction) : Prop :=
  match a with
  | ATest i _ _ | APush i | AAdd i => (i < n)%nat
  | AWrite i c | ATake c i => (i < n)%nat /\ (c <= n)%nat
  | AGc => True
  end.

(** *** Every message is notified exactly once to every consumer *)

(** Notifications worker [i] still has to count for consumer [c]. *)
Definition owed (s : nstate) (c i : nat) : nat :=
  match put_ s i with PAdding cs => if decide (c ∈ cs) then 1 else 0 | _ => 0 end.

Definition sum_workers (f : nat -> nat) : nat := sum_list_with f (seq 0 n).

(** Messages consumer [c] has not been given. *)
Definition unread (s : nstate) (c : nat) : option nat :=
  l ← received (queue_ s) !! c; Some (length (pushed (queue_ s)) - length l)%nat.

Definition debt (s : nstate) (c i : nat) : nat := (wait_ s c i + pipe_ s c i + owed s c i)%nat.

Definition announced (s : nstate) (c : nat) : nat := sum_workers (debt s c).

Record notify_inv (s : nstate) : Prop := {
  ni_queue : sys_inv (S n) (queue_ s);
  ni_put i cs : put_ s i = PAdding cs -> NoDup cs /\ cs <> [];
  ni_count c : (c <= n)%nat -> unread s c = Some (announced s c);
  ni_wrong : wrong_ s = 0%nat;
}.

Lemma sum_ext f g : (forall i, (i < n)%nat -> f i = g i) -> sum_workers f = sum_workers g.
Proof.
  intros H. unfold sum_workers. assert (Forall (fun i => f i = g i) (seq 0 n)) as Hf.
  { apply Forall_forall. intros i Hi%elem_of_seq. apply H. lia. }
  induction Hf as [|i l Hi _ IH]; [done|]. cbn. by rewrite Hi, IH.
Qed.

(** Changing one worker's term changes the sum by as much. *)
Lemma sum_change f g i : (i < n)%nat -> (forall j, (j < n)%nat -> j <> i -> f j = g j) ->
  (sum_workers f + g i = sum_workers g + f i)%nat.
Proof.
  intros Hi H. unfold sum_workers.
  assert (Hin : i ∈ seq 0 n) by (apply elem_of_seq; lia).
  assert (Hall : forall j, j ∈ seq 0 n -> j <> i -> f j = g j) by (intros j Hj%elem_of_seq; apply H; lia).
  pose proof (NoDup_seq 0 n) as Hnd. revert Hin Hall Hnd. generalize (seq 0 n) as l. induction l as [|x l IH].
  - by intros ?%not_elem_of_nil.
  - intros Hin Hall [Hx Hnd]%NoDup_cons. cbn. destruct (decide (x = i)) as [->|Hne].
    + assert (sum_list_with f l = sum_list_with g l) as ->; [|lia].
      assert (Forall (fun j => f j = g j) l) as Hf.
      { apply Forall_forall. intros j Hj. apply Hall; [by right|intros ->; done]. }
      clear -Hf. induction Hf as [|j l Hj _ IH]; [done|]. cbn. by rewrite Hj, IH.
    + apply elem_of_cons in Hin as [?|Hin]; [congruence|].
      specialize (IH Hin (fun j Hj => Hall j (list_elem_of_further _ _ _ Hj)) Hnd).
      rewrite (Hall x (list_elem_of_here _ _) Hne). lia.
Qed.

(** An action of or for worker [i] keeps the count of consumer [c] when the
    debt to [c] moves as the unread messages do. *)
Lemma count_step s s' c i u u' : (i < n)%nat ->
  unread s c = Some (announced s c) -> (forall j, j <> i -> debt s' c j = debt s c j) ->
  unread s c = Some u -> unread s' c = Some u' -> (u' + debt s c i = u + debt s' c i)%nat ->
  unread s' c = Some (announced s' c).
Proof.
  intros Hi Hc Hj Hu Hu' E. rewrite Hu'. f_equal. rewrite Hu in Hc. injection Hc as ->.
  pose proof (sum_change (debt s c) (debt s' c) i Hi (fun j _ Hne => eq_sym (Hj j Hne))) as H.
  unfold announced in *. lia.
Qed.

Lemma unread_some s c : sys_inv (S n) (queue_ s) -> (c <= n)%nat -> is_Some (unread s c).
Proof.
  intros Hq Hc. destruct (inv_received _ _ c Hq) as (l & cur & Hl & _); [lia|].
  unfold unread. rewrite Hl. eauto.
Qed.

Ltac debts := unfold debt, owed, upd1, upd2; cbn -[seq];
  repeat match goal with |- context [decide ?P] => destruct (decide P) end; try lia; try done.

Lemma owed_seq s c i : put_ s i = PAdding (seq 0 (S n)) -> (c <= n)%nat -> owed s c i = 1%nat.
Proof. intros E Hc. unfold owed. rewrite E, decide_True; [done|]. apply elem_of_seq. lia. Qed.

Lemma owed_none s c i : (forall cs, put_ s i <> PAdding cs) -> owed s c i = 0%nat.
Proof. intros H. unfold owed. destruct (put_ s i); [done..|]. by destruct (H consumers). Qed.

(** The phase of worker [i] only matters for its own debt. *)
Lemma debt_put q w p f d x c i ph j : j <> i ->
  debt (NState q w p (upd1 f i ph) d x) c j = (w c j + p c j + owed (NState q w p f d x) c j)%nat.
Proof. intros Hne. unfold debt, owed, upd1. cbn. by rewrite decide_False. Qed.

Lemma step_push s i t c : notify_inv s -> (i < n)%nat -> put_ s i = PAdmitted t c ->
  exists s', nstep s (APush i) = Some s' /\ notify_inv s'.
Proof.
  intros [Hq Hp Hc Hw] Hi Ei. cbn [nstep]. rewrite Ei.
  destruct (inv_push _ _ t c Hq) as (q & -> & Hq' & Epu & Ere). cbn [mbind option_bind].
  eexists. split; [done|]. set (s' := NState _ _ _ _ _ _). split; cbn -[seq]; try done.
  - intros j cs. unfold upd1. case_decide; [|apply Hp]. intros [= <-].
    split; [apply (NoDup_seq 0 (S n))|done].
  - intros c' Hcn. destruct (unread_some s c' Hq Hcn) as [u Hu].
    eapply (count_step s s' c' i u (S u)); [done|by apply Hc|intros j Hne; by apply debt_put|done| |].
    + destruct (inv_received _ _ c' Hq) as (l & cur & Hl & _ & Hle); [lia|].
      unfold unread in *. cbn. rewrite Ere, Hl in *. cbn in *. injection Hu as <-. rewrite Epu, length_app. cbn. f_equal. lia.
    + unfold debt. rewrite (owed_seq s' c' i) by (subst s'; cbn -[seq]; unfold upd1; by rewrite decide_True || done).
      rewrite (owed_none s c' i) by (rewrite Ei; done). cbn. lia.
Qed.

Lemma step_add s i : notify_inv s -> (i < n)%nat -> exists s', nstep s (AAdd i) = Some s' /\ notify_inv s'.
Proof.
  intros Hinv Hi. pose proof Hinv as [Hq Hp Hc Hw]. cbn [nstep].
  destruct (put_ s i) as [| |[|c cs]] eqn:Ei; [by exists s..|].
  destruct (Hp _ _ Ei) as [Hnd _]. apply NoDup_cons in Hnd as [Hcc Hnd].
  eexists. split; [done|]. set (s' := NState _ _ _ _ _ _). split; cbn; try done.
  - intros j cs'. unfold upd1. case_decide; [|apply Hp]. case_decide; [done|]. by intros [= <-].
  - intros c' Hcn. destruct (unread_some s c' Hq Hcn) as [u Hu].
    eapply (count_step s s' c' i u u); [done|by apply Hc| |done|done|].
    + intros j Hne. subst s'. unfold debt, owed, upd1, upd2. cbn. rewrite (decide_False (P := c' = c /\ j = i)) by tauto.
      by rewrite (decide_False (P := j = i)).
    + f_equal. subst s'. unfold debt, owed. rewrite Ei. cbn. unfold upd1, upd2. rewrite (decide_True (P := i = i)) by done.
      assert (Hcs : (match (if decide (cs = []) then POut else PAdding cs) with
                     | PAdding cs => if decide (c' ∈ cs) then 1 else 0 | _ => 0 end)%nat
                    = if decide (c' ∈ cs) then 1%nat else 0%nat).
      { destruct (decide (cs = [])) as [->|]; [|done]. by rewrite decide_False by apply not_elem_of_nil. }
      rewrite Hcs. destruct (decide (c' = c)) as [->|Hne].
      * rewrite !decide_True by (done || by left). rewrite decide_False by done. lia.
      * rewrite (decide_False (P := c' = c /\ i = i)) by tauto.
        destruct (decide (c' ∈ cs)); [rewrite decide_True by by right|rewrite decide_False by (rewrite elem_of_cons; tauto)]; lia.
Qed.

Lemma step_write s i c : notify_inv s -> (i < n)%nat -> exists s', nstep s (AWrite i c) = Some s' /\ notify_inv s'.
Proof.
  intros Hinv Hi. pose proof Hinv as [Hq Hp Hc Hw]. cbn [nstep].
  destruct (wait_ s c i) as [|k] eqn:Ew; [by exists s|]. case_decide; [|by exists s].
  eexists. split; [done|]. set (s' := NState _ _ _ _ _ _). split; cbn; try done.
  intros c' Hcn. destruct (unread_some s c' Hq Hcn) as [u Hu].
  eapply (count_step s s' c' i u u); [done|by apply Hc| |done|done|].
  - intros j Hne. subst s'. unfold debt, upd2. cbn. by rewrite !(decide_False (P := c' = c /\ j = i)) by tauto.
  - f_equal. subst s'. unfold debt, upd2. cbn. destruct (decide (c' = c)) as [->|].
    + rewrite !(decide_True (P := c = c /\ i = i)) by done. unfold owed. cbn. lia.
    + by rewrite !(decide_False (P := c' = c /\ i = i)) by tauto.
Qed.

Lemma step_take s c i : notify_inv s -> (i < n)%nat -> (c <= n)%nat ->
  exists s', nstep s (ATake c i) = Some s' /\ notify_inv s'.
Proof.
  intros Hinv Hi Hcn. pose proof Hinv as [Hq Hp Hc Hw]. cbn [nstep].
  destruct (pipe_ s c i) as [|k] eqn:Ep; [by exists s|].
  destruct (inv_received _ _ c Hq) as (l & cur & Hl & Hcur & Hle); [lia|]. rewrite Hcur. cbn [mbind option_bind].
  destruct (inv_next _ _ _ _ _ Hq Hcur Hl) as (c'' & msg & q & -> & -> & Hq' & Epu & Hd). cbn [mbind option_bind].
  (* the byte read was announced, so a message is there *)
  pose proof (Hc c Hcn) as Hun. unfold unread in Hun. rewrite Hl in Hun. cbn in Hun. injection Hun as Hun.
  pose proof (sum_change (debt s c) (fun j => if decide (j = i) then 0%nat else debt s c j) i Hi) as Hsum.
  cbn beta in Hsum. rewrite decide_True in Hsum by done.
  specialize (Hsum ltac:(intros j _ Hne; by rewrite decide_False)).
  assert (Hdebt : (1 <= debt s c i)%nat) by (unfold debt; lia).
  rewrite decide_True in Hd by (unfold announced in Hun; lia). destruct Hd as (m & -> & Ere).
  eexists. split; [done|]. set (s' := NState _ _ _ _ _ _). split; cbn; try done.
  intros c' Hcn'. destruct (decide (c' = c)) as [->|Hne].
  - eapply (count_step s s' c i (length (pushed (queue_ s)) - length l)%nat); [done|by apply Hc| | | |].
    + intros j Hne. subst s'. unfold debt, upd2. cbn. by rewrite (decide_False (P := c = c /\ j = i)) by tauto.
    + unfold unread. by rewrite Hl.
    + unfold unread. cbn. rewrite Ere, list_lookup_insert_eq by (by eapply lookup_lt_Some). cbn.
      rewrite Epu, length_app. done.
    + subst s'. unfold debt, upd2. cbn. rewrite (decide_True (P := c = c /\ i = i)) by done.
      unfold owed, announced in *. cbn in *. lia.
  - destruct (unread_some s c' Hq Hcn') as [u Hu].
    eapply (count_step s s' c' i u u); [done|by apply Hc| |done| |].
    + intros j _. subst s'. unfold debt, upd2. cbn. by rewrite (decide_False (P := c' = c /\ j = i)) by tauto.
    + unfold unread in *. cbn. rewrite Ere, Epu. by rewrite list_lookup_insert_ne.
    + f_equal. subst s'. unfold debt, upd2. cbn. by rewrite (decide_False (P := c' = c /\ i = i)) by tauto.
Qed.

Lemma notify_step s a : notify_inv s -> action_ok a -> exists s', nstep s a = Some s' /\ notify_inv s'.
Proof.
  intros Hinv Ha. destruct a as [i t ct|i|i|i c|c i|]; cbn [action_ok] in Ha.
  - pose proof Hinv as [Hq Hp Hc Hw]. cbn [nstep]. destruct (put_ s i) eqn:Ei; [|by exists s|by exists s].
    destruct (_ >=? _); eexists; (split; [done|]); split; cbn; try done.
    + intros j cs. unfold upd1. case_decide; [done|]. apply Hp.
    + intros c Hcn. apply (Hc c) in Hcn. unfold unread in *. cbn. rewrite Hcn. f_equal. apply sum_ext. intros j _. unfold debt. f_equal.
      unfold owed, upd1. cbn. destruct (decide (j = i)); [subst; by rewrite Ei|done].
  - destruct (put_ s i) as [|t c|] eqn:Ei; [exists s; cbn; by rewrite Ei|by eapply step_push|exists s; cbn; by rewrite Ei].
  - by apply step_add.
  - destruct Ha. by apply step_write.
  - destruct Ha. by apply step_take.
  - destruct Hinv as [Hq Hp Hc Hw]. cbn [nstep].
    destruct (inv_gc (S n) _ (Nat.lt_0_succ n) Hq) as (q & -> & Hq' & Epu & Ere). cbn. eexists. split; [done|].
    split; cbn; try done. intros c Hcn. specialize (Hc c Hcn). unfold unread in *. cbn. by rewrite Ere, Epu.
Qed.

Lemma ninit_inv : notify_inv ninit.
Proof.
  split; cbn -[init]; [apply init_inv|done| |done]. intros c Hc. unfold unread. cbn -[replicate].
  rewrite lookup_replicate_2 by lia. cbn. f_equal. unfold announced, sum_workers.
  assert (Forall (fun i => debt ninit c i = 0%nat) (seq 0 n)) as Hf by (by apply Forall_forall).
  induction Hf as [|i l Hi _ IH]; [done|]. cbn [sum_list_with]. rewrite Hi. exact IH.
Qed.

Lemma nrun_inv acts s : notify_inv s -> Forall action_ok acts -> exists s', nrun s acts = Some s' /\ notify_inv s'.
Proof.
  revert s. induction acts as [|a acts IH]; intros s Hs Ha; [by exists s|].
  apply Forall_cons in Ha as [Ha Hacts]. destruct (notify_step s a Hs Ha) as (s1 & E & H1).
  destruct (IH s1 H1 Hacts) as (s2 & E2 & H2). exists s2. split; [|done]. cbn. by rewrite E.
Qed.

(** C14. For any sequence of pushes, announcements and reads by the threads the master notifies,
    a thread never wakes up for a message that is not there, and what each thread has not received
    yet is exactly what has been announced to it or waits to be announced. *)
Theorem notifications_exact acts : Forall action_ok acts ->
  exists s, nrun ninit acts = Some s /\ wrong_ s = 0%nat
    /\ forall c, (c <= n)%nat -> exists k l,
        received (queue_ s) !! c = Some l /\ l = deliver <$> take k (pushed (queue_ s))
        /\ length (pushed (queue_ s)) = (k + announced s c)%nat.
Proof.
  intros Ha. destruct (nrun_inv acts ninit ninit_inv Ha) as (s & E & [Hq Hp Hc Hw]).
  exists s. split; [done|]. split; [done|]. intros c Hcn.
  destruct Hq as (b & ns & pos & [_ _ Hl Hpos _ Hr _]).
  destruct (lookup_lt_is_Some_2 pos c) as [k Hk]; [lia|].
  exists k, (deliver <$> take k (pushed (queue_ s))).
  assert (Hrc : received (queue_ s) !! c = Some (deliver <$> take k (pushed (queue_ s))))
    by (by rewrite Hr, list_lookup_fmap, Hk).
  split; [done|]. split; [done|]. rewrite Forall_lookup in Hpos. specialize (Hpos _ _ Hk). cbn in Hpos.
  specialize (Hc c Hcn). unfold unread in Hc. rewrite Hrc in Hc. cbn in Hc. injection Hc as Hc.
  rewrite length_fmap, length_take in Hc. lia.
Qed.
End notifications.

Lemma notifications_exact_witness :
  let acts := [ATest 0 (bs "t") (bs "m"); APush 0; AAdd 0; AAdd 0; AAdd 0; AWrite 0 1; ATake 1 0; AGc] in
  exists s, nrun 2 1000000 16 (ninit 2) acts = Some s /\ wrong_ s = 0%nat
    /\ forall c, (c <= 2)%nat -> exists k l,
        received (queue_ s) !! c = Some l /\ l = deliver <$> take k (pushed (queue_ s))
        /\ length (pushed (queue_ s)) = (k + announced 2 s c)%nat.
Proof. apply (notifications_exact 2 1000000 16). repeat constructor; cbn; lia. Defined.

(** ** Statistics *)

(** The [static] variables of [Cron]. *)
Record rates := Rates {
  last_in : Z;
  last_out : Z;
  last_in_traffic : Z;
  last_out_traffic : Z;
  last_time : Z;
}.

(** [Cron] after the garbage collection: [stats] are those of the workers and
    of the storer, [msgs] and [mem] what the collection and
    [MQMemoryUsage] return.  The difference of two counters is unsigned. *)
Definition cron_stat (stats : list Statistic) (old : Statistic) (r : rates) (unixtime msgs mem : Z)
  : Statistic * rates :=
  let s := fold_left stat_Add stats stat_zero in
  let elapsed := unixtime - last_time r in
  let report in_ps in_traffic_ps out_ps out_traffic_ps :=
    Stat (start_time old) (msg_in s) (msg_in_traffic s) in_ps in_traffic_ps
      (msg_out s) (msg_out_traffic s) out_ps out_traffic_ps msgs mem
      (msg_store s) (msg_store_size s) (msg_buffer s) (msg_buffer_size s) (msg_drop old)
      (nclients s) (topics s) (patterns s) in
  if elapsed >=? 5 then
    (report (u64 (msg_in s - last_in r) / elapsed) (u64 (msg_in_traffic s - last_in_traffic r) / elapsed)
       (u64 (msg_out s - last_out r) / elapsed) (u64 (msg_out_traffic s - last_out_traffic r) / elapsed),
     Rates (msg_in s) (msg_out s) (msg_in_traffic s) (msg_out_traffic s) unixtime)
  else (report (msg_in_ps old) (msg_in_traffic_ps old) (msg_out_ps old) (msg_out_traffic_ps old), r).

(** What INFO reports as totals. *)
Definition reported_totals : list (Statistic -> Z) :=
  [msg_in; msg_in_traffic; msg_out; msg_out_traffic; msg_store; msg_store_size; msg_buffer;
   msg_buffer_size; nclients; topics; patterns].

(** The cron of the master reports, for each total of the statistics, the sum over the
    threads modulo 2^64, the current queue length and memory, and per-second rates that are
    refreshed only every five seconds; the drop counter is the one it had, whatever the threads
    counted. *)
Theorem cron_totals stats old r unixtime msgs mem :
  let '(s, r') := cron_stat stats old r unixtime msgs mem in
  (forall f, In f reported_totals -> f s = u64 (foldr (fun s n => f s + n) 0 stats))
  /\ msg_in_queue s = msgs /\ queue_mem_size s = mem /\ start_time s = start_time old
  /\ msg_drop s = msg_drop old
  /\ (unixtime - last_time r < 5 -> r' = r /\ msg_in_ps s = msg_in_ps old /\ msg_out_ps s = msg_out_ps old)
  /\ (5 <= unixtime - last_time r -> last_time r' = unixtime /\ last_in r' = msg_in s /\ last_out r' = msg_out s
      /\ (last_in r <= msg_in s -> in_u64 (msg_in s) -> 0 <= last_in r ->
          msg_in_ps s = (msg_in s - last_in r) / (unixtime - last_time r))).
Proof.
  unfold cron_stat. set (total := fold_left stat_Add stats stat_zero).
  assert (Ht : forall f, In f reported_totals -> f total = u64 (foldr (fun s n => f s + n) 0 stats)).
  { intros f Hf. apply stat_Add_sum. revert Hf. cbn. tauto. }
  destruct (unixtime - last_time r >=? 5) eqn:E; rewrite Z.geb_leb in E; bool_to_prop;
    (split; [intros f Hf; rewrite <- (Ht f Hf); cbn in Hf; by repeat (destruct Hf as [<-|Hf]; [done|])|]);
    cbn; split_and!; try done; try lia.
  intros _. split_and!; try done. intros Hle Hr H0. rewrite u64_small; [done|]. unfold in_u64 in *. lia.
Qed.
