(* ===== verification/Buffer.v ===== *)
(** * buffer.cc: reference-counted byte buffers

    [Buffer] objects share their storage through a reference count until one
    of them is modified.  The memory they share is explicit here: blocks of
    bytes, some not yet written, and cells holding the counts; an access
    outside a block, a second [free] and a NULL pointer are [None].  The first
    part has the class's methods, the second an abstract buffer (a value per
    object, with no sharing), and the last shows that the objects behave like
    abstract buffers and that no memory is lost. *)

From S2P Require Import Prelude Common.

(** ** Memory *)

Definition addr : Type := positive.

Record mem := Mem {
  blocks : gmap addr (list (option byte));
  counts : gmap addr Z;
}.

(** Computations that use the memory; [None] is undefined behaviour. *)
Definition M (A : Type) : Type := mem -> option (A * mem).

#[export] Instance M_ret : MRet M := fun A x m => Some (x, m).
#[export] Instance M_bind : MBind M := fun A B f c m => '(x, m) ← c m; f x m.

Definition undefined {A} : M A := fun _ => None.

(** Access through a pointer. *)
Definition at_addr {A} (p : option addr) (f : addr -> M A) : M A :=
  match p with Some a => f a | None => undefined end.

Section allocator.
(** Whether an allocation of this many bytes succeeds. *)
Variable alloc_ok : Z -> bool.

Definition malloc (n : Z) : M (option addr) := fun m =>
  if alloc_ok n then
    let a := fresh (dom (blocks m)) in
    Some (Some a, Mem (<[a := replicate (Z.to_nat n) None]> (blocks m)) (counts m))
  else Some (None, m).

Definition free (p : option addr) : M unit := fun m =>
  match p with
  | None => Some (tt, m)
  | Some a => _ ← blocks m !! a; Some (tt, Mem (delete a (blocks m)) (counts m))
  end.

(** [realloc] keeps the beginning of the block and may always move it; to
    size 0 it leaves the pointer dangling. *)
Definition realloc (p : option addr) (n : Z) : M (option addr) := fun m =>
  old ← match p with None => Some [] | Some a => blocks m !! a end;
  if n =? 0 then None
  else if alloc_ok n then
    let a := fresh (dom (blocks m)) in
    let blk := take (Z.to_nat n) (old ++ replicate (Z.to_nat n) None) in
    Some (Some a, Mem (<[a := blk]> (match p with None => blocks m | Some o => delete o (blocks m) end)) (counts m))
  else Some (None, m).

(** The [n] bytes from [off] of a block, read and written. *)
Definition load (p : option addr) (off n : Z) : M (list (option byte)) :=
  at_addr p $ fun a m =>
  blk ← blocks m !! a;
  if (0 <=? off) && (0 <=? n) && (off + n <=? zlen blk)
  then Some (take (Z.to_nat n) (drop (Z.to_nat off) blk), m) else None.

Definition splice (off : nat) (l blk : list (option byte)) : list (option byte) :=
  take off blk ++ l ++ drop (off + length l) blk.

Definition store (p : option addr) (off : Z) (l : list (option byte)) : M unit :=
  at_addr p $ fun a m =>
  blk ← blocks m !! a;
  if (0 <=? off) && (off + zlen l <=? zlen blk)
  then Some (tt, Mem (<[a := splice (Z.to_nat off) l blk]> (blocks m)) (counts m)) else None.

(** [new uint32_t(1)], [*p], [*p = v] and [delete p]. *)
Definition new_count : M (option addr) := fun m =>
  let a := fresh (dom (counts m)) in Some (Some a, Mem (blocks m) (<[a := 1]> (counts m))).
Definition get_count (p : option addr) : M Z := at_addr p $ fun a m => v ← counts m !! a; Some (v, m).
Definition set_count (p : option addr) (v : Z) : M unit :=
  at_addr p $ fun a m => _ ← counts m !! a; Some (tt, Mem (blocks m) (<[a := u32 v]> (counts m))).
Definition delete_count (p : option addr) : M unit :=
  at_addr p $ fun a m => _ ← counts m !! a; Some (tt, Mem (blocks m) (delete a (counts m))).

(** ** The class *)

Record Buffer := MkBuffer {
  data_ : option addr;
  size_ : Z;
  capacity_ : Z;
  refcount_ : option addr;
}.

Definition written (l : bytes) : list (option byte) := Some <$> l.

(** [Buffer(const char *data, uint32_t size)] *)
Definition Buffer_data (data : bytes) : M Buffer :=
  let size := u32 (zlen data) in
  p ← malloc (u32 (size + 1));
  store p 0 (written data);; store p size [Some NUL];;
  r ← new_count; mret (MkBuffer p size size r).

(** [Buffer(uint32_t size)] *)
Definition Buffer_size (size : Z) : M Buffer :=
  p ← malloc (u32 (size + 1));
  store p size [Some NUL];;
  r ← new_count; mret (MkBuffer p 0 size r).

(** [Buffer(const char* str)] *)
Definition Buffer_str (str : bytes) : M Buffer :=
  let size := u32 (Z.of_nat (strlen str)) in
  p ← malloc (u32 (size + 1));
  store p 0 (written (cstr str) ++ [Some NUL]);;
  r ← new_count; mret (MkBuffer p size size r).

(** The copy constructor; the new object has [other]'s fields. *)
Definition ShallowCopy (other : Buffer) : M Buffer :=
  n ← get_count (refcount_ other);
  set_count (refcount_ other) (n + 1);; mret other.

Definition Free (b : Buffer) : M Buffer :=
  n ← get_count (refcount_ b);
  set_count (refcount_ b) (n - 1);;
  n ← get_count (refcount_ b);
  (if n =? 0 then free (data_ b);; delete_count (refcount_ b) else mret tt);;
  mret (MkBuffer None 0 0 None).

Definition Clone (b : Buffer) : M Buffer :=
  n ← get_count (refcount_ b);
  if n =? 1 then mret b
  else
    buf ← malloc (u32 (capacity_ b + 1));
    l ← load (data_ b) 0 (u32 (size_ b + 1));
    store buf 0 l;;
    set_count (refcount_ b) (n - 1);;
    r ← new_count;
    mret (MkBuffer buf (size_ b) (capacity_ b) r).

(** [operator=(const Buffer&)], of another object and of the object itself,
    whose fields [Free] has cleared when they are copied. *)
Definition assign (b other : Buffer) : M Buffer := Free b;; ShallowCopy other.
Definition assign_self (b : Buffer) : M Buffer := b ← Free b; ShallowCopy b.

(** [operator=(const char* str)]: the length is set and the storage enlarged
    if needed, then the text is copied. *)
Definition assign_room (b : Buffer) (size : Z) : M Buffer :=
  if (capacity_ b <? size) || bool_decide (data_ b = None) then
    buf ← realloc (data_ b) (u32 (size + 1));
    match buf with
    | Some _ => mret (MkBuffer buf size size (refcount_ b))
    | None => mret (MkBuffer (data_ b) size (capacity_ b) (refcount_ b))
    end
  else mret (MkBuffer (data_ b) size (capacity_ b) (refcount_ b)).

Definition assign_str (b : Buffer) (str : bytes) : M Buffer :=
  n ← get_count (refcount_ b);
  b ← (if n >? 1 then _ ← Free b; r ← new_count; mret (MkBuffer None 0 0 r) else mret b);
  let size := u32 (Z.of_nat (strlen str)) in
  b ← assign_room b size;
  store (data_ b) 0 (written (cstr str) ++ [Some NUL]);;
  mret b.

Definition resize (b : Buffer) (size : Z) : M (Z * Buffer) :=
  buf ← realloc (data_ b) (u32 (size + 1));
  match buf with
  | Some _ =>
      store buf size [Some NUL];; mret (size, MkBuffer buf (size_ b) size (refcount_ b))
  | None => mret (capacity_ b, b)
  end.

Definition reserve (b : Buffer) (size : Z) : M (bool * Buffer) :=
  if size <? capacity_ b then mret (true, b)
  else
    let s := Z.max (u32 (2 * capacity_ b)) size in
    '(c, b) ← resize b s; mret (c >=? s, b).

(** The move to the front shared by [remove_front] and [pop_front], with the
    shrink. *)
Definition shift (b : Buffer) (size : Z) : M Buffer :=
  l ← load (data_ b) size (u32 (size_ b - size + 1));
  store (data_ b) 0 l;;
  let b := MkBuffer (data_ b) (u32 (size_ b - size)) (capacity_ b) (refcount_ b) in
  if u32 (size_ b * 2) <? capacity_ b then '(_, b) ← resize b (size_ b); mret b else mret b.

Definition remove_front (b : Buffer) (size : Z) : M Buffer :=
  if size =? 0 then mret b else b ← Clone b; shift b size.

(** The result is NULL or a new object. *)
Definition pop_front (b : Buffer) (size : Z) : M (option Buffer * Buffer) :=
  if size >? size_ b then mret (None, b)
  else
    b ← Clone b;
    buf ← Buffer_size size;
    l ← load (data_ b) 0 size;
    store (data_ buf) 0 l;;
    b ← shift b size;
    mret (Some buf, b).

Definition clear (b : Buffer) : M Buffer :=
  n ← get_count (refcount_ b);
  (if n =? 1 then free (data_ b);; delete_count (refcount_ b) else set_count (refcount_ b) (n - 1));;
  p ← malloc 1;
  store p 0 [Some NUL];;
  r ← new_count;
  mret (MkBuffer p 0 0 r).

(** The bytes and the terminator, once there is room. *)
Definition append_bytes (b : Buffer) (data : bytes) (size : Z) : M (bool * Buffer) :=
  store (data_ b) (size_ b) (written data);;
  let b := MkBuffer (data_ b) (u32 (size_ b + size)) (capacity_ b) (refcount_ b) in
  store (data_ b) (size_ b) [Some NUL];;
  mret (true, b).

Definition append (b : Buffer) (data : bytes) : M (bool * Buffer) :=
  let size := u32 (zlen data) in
  if size <=? 0 then mret (true, b)
  else
    b ← Clone b;
    '(ok, b) ← reserve b (u32 (size_ b + size));
    if (ok : bool) then append_bytes b data size else mret (false, b).

Definition set_size (b : Buffer) (size : Z) : Buffer := MkBuffer (data_ b) size (capacity_ b) (refcount_ b).

(** [vsnprintf(buf, buflen, fmt, ap)] when the whole output is [text]: what is
    in [buf] afterwards. *)
Definition vsnprintf (buf : list (option byte)) (text : bytes) : list (option byte) :=
  let out := written (take (length buf - 1) text) ++ [Some NUL] in
  out ++ drop (length out) buf.

(** The string in a buffer, for [strlen] and the copy; reading a byte that was
    never written is [None]. *)
Fixpoint read_cstr (l : list (option byte)) : option bytes :=
  match l with
  | [] | None :: _ => None
  | Some c :: l => if decide (c = NUL) then Some [] else cons c <$> read_cstr l
  end.

(** The loop of [append_vaprintf]: the text in the first buffer large enough,
    or nothing when [malloc] fails.  The buffer is freed in every round. *)
Fixpoint print_loop (fuel : nat) (buflen : Z) (text : bytes) : option (option bytes) :=
  match fuel with
  | O => None
  | S fuel =>
      if alloc_ok buflen then
        let buf := <[Z.to_nat (buflen - 2) := Some NUL]> (replicate (Z.to_nat buflen) None) in
        let buf := vsnprintf buf text in
        c ← (buf !! Z.to_nat (buflen - 2)) ≫= (fun x => x);
        if decide (c <> NUL) then print_loop fuel (u64 (buflen * 2)) text
        else Some <$> read_cstr buf
      else Some None
  end.

(** [append_printf], [append_vaprintf] when the format yields [text]; 60
    doublings cover every length. *)
Definition append_vaprintf (b : Buffer) (text : bytes) : M Buffer :=
  match print_loop 60 16 text with
  | Some (Some t) => '(_, b) ← append b t; mret b
  | Some None => mret b
  | None => undefined
  end.

(** The bytes of an object, for the functions that read them. *)
Definition contents (b : Buffer) : M bytes :=
  l ← load (data_ b) 0 (size_ b);
  match mapM (fun x => x) l with Some l => mret l | None => undefined end.

Definition hash (b : Buffer) : M Z :=
  l ← contents b;
  mret (fold_left (fun hash c => u64 (u64 (Z.shiftl hash 5 + hash) + schar c)) (take (Z.to_nat (i32 (size_ b))) l) 5381).

Fixpoint memcmp (a b : bytes) : Z :=
  match a, b with
  | x :: a, y :: b => if uchar x =? uchar y then memcmp a b else uchar x - uchar y
  | _, _ => 0
  end.

(** [operator==] and [operator<] *)
Definition Buffer_eq (lhs rhs : Buffer) : M bool :=
  if size_ lhs =? size_ rhs then
    a ← contents lhs; b ← contents rhs; mret (memcmp a b =? 0)
  else mret false.

Definition Buffer_lt (lhs rhs : Buffer) : M bool :=
  a ← contents lhs; b ← contents rhs;
  let res := memcmp a b in
  if negb (res =? 0) then mret (res <? 0) else mret (size_ lhs <? size_ rhs).
End allocator.

(** ** Objects and their operations *)

Definition handle : Type := positive.

Record world := World { heap : mem; objs : gmap handle Buffer }.

(** A constructor names the new object; so does [pop_front]. *)
Inductive op : Type :=
| OData (h : handle) (data : bytes)
| OSize (h : handle) (size : Z)
| OStr (h : handle) (str : bytes)
| OCopy (h other : handle)
| ODestroy (h : handle)
| OAssign (h other : handle)
| OAssignStr (h : handle) (str : bytes)
| ORemoveFront (h : handle) (size : Z)
| OPopFront (h : handle) (size : Z) (new : handle)
| OClear (h : handle)
| OAppend (h : handle) (data : bytes)
| OPrintf (h : handle) (text : bytes)
| OReserve (h : handle) (size : Z)
| OResize (h : handle) (size : Z)
| OSetSize (h : handle) (size : Z).

Section steps.
Variable alloc_ok : Z -> bool.

(** Runs a constructor, and a method of an object. *)
Definition construct (h : handle) (c : M Buffer) (w : world) : option (Z * world) :=
  '(b, m) ← c (heap w); Some (0, World m (<[h := b]> (objs w))).
Definition call {A} (h : handle) (f : Buffer -> M (A * Buffer)) (out : A -> Z) (w : world) : option (Z * world) :=
  b ← objs w !! h; '(x, b', m) ← f b (heap w); Some (out x, World m (<[h := b']> (objs w))).
Definition update (h : handle) (f : Buffer -> M Buffer) : world -> option (Z * world) :=
  call h (fun b => b ← f b; mret (tt, b)) (fun _ => 0).

Definition step (o : op) (w : world) : option (Z * world) :=
  match o with
  | OData h data => construct h (Buffer_data alloc_ok data) w
  | OSize h size => construct h (Buffer_size alloc_ok size) w
  | OStr h str => construct h (Buffer_str alloc_ok str) w
  | OCopy h other => b ← objs w !! other; construct h (ShallowCopy b) w
  | ODestroy h => b ← objs w !! h; '(_, m) ← Free b (heap w); Some (0, World m (delete h (objs w)))
  | OAssign h other =>
      if decide (h = other) then update h assign_self w
      else b ← objs w !! other; update h (fun this => assign this b) w
  | OAssignStr h str => update h (fun b => assign_str alloc_ok b str) w
  | ORemoveFront h size => update h (fun b => remove_front alloc_ok b size) w
  | OPopFront h size new =>
      b ← objs w !! h;
      '(r, b', m) ← pop_front alloc_ok b size (heap w);
      match r with
      | Some buf => Some (1, World m (<[new := buf]> (<[h := b']> (objs w))))
      | None => Some (0, World m (<[h := b']> (objs w)))
      end
  | OClear h => update h (clear alloc_ok) w
  | OAppend h data => call h (fun b => append alloc_ok b data) Z.b2z w
  | OPrintf h text => update h (fun b => append_vaprintf alloc_ok b text) w
  | OReserve h size => call h (fun b => reserve alloc_ok b size) Z.b2z w
  | OResize h size => call h (fun b => resize alloc_ok b size) (fun z => z) w
  | OSetSize h size => update h (fun b => mret (set_size b size)) w
  end.
End steps.

(** ** Abstract buffers: a value for each object

    [size()] is the length of the value; with it goes what is known of the
    bytes behind the value, which [data()] shows as well: [NUL] where the value
    is a C string. *)
Abbreviation values := (gmap handle (bytes * bytes)).

Definition on_value (h : handle) (f : bytes -> bytes -> bytes * bytes) (s : values) : values :=
  match s !! h with Some (v, t) => <[h := f v t]> s | None => s end.

(** Of what is behind the value, whether it ends the value. *)
Definition ended (t : bytes) : bytes := match t with c :: _ => if decide (c = NUL) then [NUL] else [] | [] => [] end.

Definition spec_append (data v : bytes) (t : bytes) : bytes * bytes :=
  match data with [] => (v, t) | _ => (v ++ data, [NUL]) end.

(** [pop_front] gives a buffer whose [data()] is the text it took off, while
    its [size()] is 0; [set_size] moves the end of the value. *)
Definition spec_step (o : op) (s : values) : Z * values :=
  match o with
  | OData h data => (0, <[h := (data, [NUL])]> s)
  | OSize h size => (0, <[h := ([], if size =? 0 then [NUL] else [])]> s)
  | OStr h str => (0, <[h := (cstr str, [NUL])]> s)
  | OCopy h other | OAssign h other => (0, match s !! other with Some v => <[h := v]> s | None => s end)
  | ODestroy h => (0, delete h s)
  | OAssignStr h str => (0, <[h := (cstr str, [NUL])]> s)
  | ORemoveFront h size => (0, on_value h (fun v t => (drop (Z.to_nat size) v, ended t)) s)
  | OPopFront h size new =>
      match s !! h with
      | Some (v, _) =>
          if size >? zlen v then (0, s)
          else (1, <[new := ([], take (Z.to_nat size) v ++ [NUL])]> (on_value h (fun v t => (drop (Z.to_nat size) v, ended t)) s))
      | None => (0, s)
      end
  | OClear h => (0, <[h := ([], [NUL])]> s)
  | OAppend h data => (1, on_value h (spec_append data) s)
  | OPrintf h text => (0, on_value h (spec_append (cstr text)) s)
  | OReserve h _ => (1, on_value h (fun v t => (v, ended t)) s)
  | OResize h size => (size, on_value h (fun v t => (v, ended t)) s)
  | OSetSize h size => (0, on_value h (fun v t => (take (Z.to_nat size) (v ++ t), drop (Z.to_nat size) (v ++ t))) s)
  end.

(** When an operation is used as its callers must: new objects have fresh
    names, lengths fit the 32 bits with the terminator, an object is not
    assigned to itself, [reserve] and [resize], which modify the storage in
    place, are called on an object that owns it and not to cut off bytes, and
    [set_size] stays within the bytes that are known, before the last. *)
Definition owner (w : world) (h : handle) : Prop :=
  exists b r, objs w !! h = Some b /\ refcount_ b = Some r /\ counts (heap w) !! r = Some 1.

Definition fits (n : Z) : Prop := 0 <= n /\ n + 1 < 2 ^ 32.

Definition allowed (o : op) (w : world) (s : values) : Prop :=
  let new h := s !! h = None /\ Z.of_nat (size s) + 1 < 2 ^ 32 in
  let len h n := exists v t, s !! h = Some (v, t) /\ n (zlen v) in
  match o with
  | OData h data => new h /\ fits (zlen data)
  | OSize h n => new h /\ fits n
  | OStr h str => new h /\ fits (zlen (cstr str))
  | OCopy h other => new h /\ is_Some (s !! other)
  | ODestroy h | OClear h => is_Some (s !! h)
  | OAssign h other => h <> other /\ is_Some (s !! h) /\ is_Some (s !! other)
  | OAssignStr h str => is_Some (s !! h) /\ fits (zlen (cstr str))
  | ORemoveFront h n => len h (fun k => 0 <= n <= k)
  | OPopFront h n h' => new h' /\ len h (fun _ => 0 <= n)
  | OAppend h data => len h (fun k => fits (k + zlen data))
  | OPrintf h text => len h (fun k => fits (k + zlen text))
  | OReserve h n => owner w h /\ is_Some (s !! h) /\ fits n
  | OResize h n => owner w h /\ len h (fun k => k <= n) /\ fits n
  | OSetSize h n => exists v t, s !! h = Some (v, t) /\ 0 <= n <= zlen v + Z.max 0 (zlen t - 1)
  end.

(** ** The invariant: shared storage, exact counts, no lost memory *)

(** A block that can hold value [v]. *)
Definition known (n : nat) (t : bytes) (blk : list (option byte)) : Prop := take (length t) (drop n blk) = written t.
Definition block_ok (blk : list (option byte)) (v : bytes) (t : bytes) (cap : Z) : Prop :=
  zlen blk = cap + 1 /\ cap + 1 < 2 ^ 32 /\ zlen v <= cap
  /\ take (length v) blk = written v /\ known (length v) t blk.

(** What is known behind a value is known to end it elsewhere too. *)
Lemma known_ended n t blk n' blk' : known n t blk -> (blk !! n = Some (Some NUL) -> blk' !! n' = Some (Some NUL)) -> known n' (ended t) blk'.
Proof.
  unfold known. intros H Hb. destruct t as [|c t]; [done|]. cbn [ended]. case_decide as Hc; [|done]. subst c. cbn [length written fmap list_fmap] in *.
  assert (blk !! n = Some (Some NUL)) as H0.
  { pose proof (f_equal (lookup 0%nat) H) as E. rewrite lookup_take_lt, lookup_drop, Nat.add_0_r in E by lia. exact E. }
  specialize (Hb H0). by rewrite (drop_S _ _ _ Hb).
Qed.

Lemma known_NUL n blk : blk !! n = Some (Some NUL) -> known n [NUL] blk.
Proof. unfold known. intros H. by rewrite (drop_S _ _ _ H). Qed.

Definition holds (m : mem) (b : Buffer) (v : bytes) (t : bytes) : Prop :=
  exists p r blk, data_ b = Some p /\ refcount_ b = Some r /\ size_ b = zlen v
    /\ blocks m !! p = Some blk /\ block_ok blk v t (capacity_ b) /\ r ∈ dom (counts m).

(** How many objects use a count. *)
Definition sharers (B : gmap handle Buffer) (r : addr) : nat :=
  length (filter (fun hb : handle * Buffer => refcount_ hb.2 = Some r) (map_to_list B)).

Record inv (w : world) (s : values) : Prop := {
  inv_dom : dom (objs w) = dom s;
  inv_few : Z.of_nat (size s) < 2 ^ 32;
  inv_obj : forall h b v t, objs w !! h = Some b -> s !! h = Some (v, t) -> holds (heap w) b v t;
  inv_share : forall h1 h2 b1 b2, objs w !! h1 = Some b1 -> objs w !! h2 = Some b2 ->
    data_ b1 = data_ b2 <-> refcount_ b1 = refcount_ b2;
  inv_count : forall r n, counts (heap w) !! r = Some n -> n = Z.of_nat (sharers (objs w) r) /\ 0 < n;
  inv_block : forall p, p ∈ dom (blocks (heap w)) -> exists h b, objs w !! h = Some b /\ data_ b = Some p;
}.

Lemma sharers_insert B h b r : B !! h = None ->
  sharers (<[h := b]> B) r = ((if decide (refcount_ b = Some r) then 1 else 0) + sharers B r)%nat.
Proof.
  intros Hn. unfold sharers. rewrite (map_to_list_insert B h b Hn).
  rewrite filter_cons. cbn [snd]. destruct (decide (refcount_ b = Some r)); done.
Qed.

Lemma sharers_delete B h b r : B !! h = Some b ->
  sharers B r = ((if decide (refcount_ b = Some r) then 1 else 0) + sharers (delete h B) r)%nat.
Proof.
  intros Hb. rewrite <- (sharers_insert (delete h B) h) by apply lookup_delete_eq.
  by rewrite insert_delete_id.
Qed.

Lemma sharers_user B h b r : B !! h = Some b -> refcount_ b = Some r -> (0 < sharers B r)%nat.
Proof. intros Hb Hr. rewrite (sharers_delete _ _ _ _ Hb), decide_True by done. lia. Qed.

Lemma sharers_two B h1 h2 b1 b2 r : B !! h1 = Some b1 -> B !! h2 = Some b2 -> h1 <> h2 ->
  refcount_ b1 = Some r -> refcount_ b2 = Some r -> (2 <= sharers B r)%nat.
Proof.
  intros H1 H2 Hne R1 R2. rewrite (sharers_delete _ _ _ _ H1), decide_True by done.
  pose proof (sharers_user (delete h1 B) h2 b2 r) as H. rewrite lookup_delete_ne in H by done.
  specialize (H H2 R2). lia.
Qed.

Lemma sharers_bound B r : (sharers B r <= size B)%nat.
Proof. unfold sharers. rewrite <- length_map_to_list. apply length_filter. Qed.

Lemma sharers_none B r : (forall h b, B !! h = Some b -> refcount_ b <> Some r) -> sharers B r = 0%nat.
Proof.
  intros H. unfold sharers. destruct (filter _ _) as [|[h b] l] eqn:E; [done|].
  assert ((h, b) ∈ filter (fun hb : handle * Buffer => refcount_ hb.2 = Some r) (map_to_list B)) as Hin
    by (rewrite E; set_solver).
  apply list_elem_of_filter in Hin as [Hr Hin]. apply elem_of_map_to_list in Hin.
  by destruct (H _ _ Hin).
Qed.

Lemma inv_get w s h v t : inv w s -> s !! h = Some (v, t) ->
  exists b, objs w !! h = Some b /\ holds (heap w) b v t.
Proof.
  intros I Hs. assert (h ∈ dom (objs w)) as [b Hb]%elem_of_dom
    by (rewrite (inv_dom _ _ I); by apply elem_of_dom_2 in Hs).
  eauto using inv_obj.
Qed.

Lemma inv_get' w s h b : inv w s -> objs w !! h = Some b ->
  exists v t, s !! h = Some (v, t) /\ holds (heap w) b v t.
Proof.
  intros I Hb. assert (h ∈ dom s) as [[v t] Hs]%elem_of_dom
    by (rewrite <- (inv_dom _ _ I); by apply elem_of_dom_2 in Hb).
  eauto using inv_obj.
Qed.

Lemma inv_no_object w s h : inv w s -> s !! h = None -> objs w !! h = None.
Proof.
  intros I Hn. apply not_elem_of_dom. rewrite (inv_dom _ _ I). by apply not_elem_of_dom.
Qed.

Lemma size_bound w s : inv w s -> size (objs w) = size s.
Proof. intros I. rewrite <- !size_dom. by rewrite (inv_dom _ _ I). Qed.

(** *** The four changes operations are made of *)

(** A new object with a new block and a new count. *)
Lemma inv_alloc m B s h p r blk v t cap :
  inv (World m B) s -> s !! h = None -> Z.of_nat (size s) + 1 < 2 ^ 32 ->
  blocks m !! p = None -> counts m !! r = None -> block_ok blk v t cap ->
  inv (World (Mem (<[p := blk]> (blocks m)) (<[r := 1]> (counts m)))
         (<[h := MkBuffer (Some p) (zlen v) cap (Some r)]> B)) (<[h := (v, t)]> s).
Proof.
  intros I Hs Hsz Hp Hr Hok. pose proof (inv_no_object _ _ _ I Hs) as HB. cbn in HB.
  assert (forall h' b', B !! h' = Some b' -> data_ b' <> Some p /\ refcount_ b' <> Some r) as Hnew.
  { intros h' b' Hb'. destruct (inv_get' _ _ _ _ I Hb') as (v' & t' & _ & p' & r' & blk' & -> & -> & _ & Hp' & _ & Hr').
    cbn in *. apply elem_of_dom in Hr' as [? ?]. split; congruence. }
  split; cbn.
  - rewrite !dom_insert_L. f_equal. apply (inv_dom _ _ I).
  - rewrite map_size_insert_None by done. lia.
  - intros h' b' v' t' H1 H2. destruct (decide (h' = h)) as [->|Hne].
    + rewrite !lookup_insert_eq in *. simplify_eq. exists p, r, blk.
      cbn. rewrite lookup_insert_eq. split_and!; try done. set_solver.
    + rewrite lookup_insert_ne in H1 by done. rewrite lookup_insert_ne in H2 by done.
      destruct (inv_obj _ _ I h' b' v' t' H1 H2) as (p' & r' & blk' & Ed & Er & Es & Hp' & Hb' & Hr').
      exists p', r', blk'. cbn in *. rewrite lookup_insert_ne by congruence.
      split_and!; try done. set_solver.
  - intros h1 h2 b1 b2 H1 H2. apply lookup_insert_Some in H1 as [[<- <-]|[N1 H1]], H2 as [[<- <-]|[N2 H2]]; cbn.
    + done.
    + destruct (Hnew _ _ H2). naive_solver.
    + destruct (Hnew _ _ H1). naive_solver.
    + by apply (inv_share _ _ I h1 h2).
  - intros r' n Hn. rewrite sharers_insert by done. cbn [refcount_].
    apply lookup_insert_Some in Hn as [[<- <-]|[Hne Hn]].
    + rewrite decide_True by done. rewrite sharers_none; [lia|]. intros h' b' Hb'. by destruct (Hnew _ _ Hb').
    + rewrite decide_False by congruence. rewrite Nat.add_0_l. by apply (inv_count _ _ I).
  - intros p' Hp'. rewrite dom_insert in Hp'. apply elem_of_union in Hp' as [->%elem_of_singleton|Hp'].
    + exists h. rewrite lookup_insert_eq. eauto.
    + destruct (inv_block _ _ I p' Hp') as (h' & b' & Hb' & Hd). exists h', b'. split; [|done].
      cbn in Hb'. rewrite lookup_insert_ne; [done|]. intros <-. congruence.
Qed.

(** An object leaves its storage to the others. *)
Lemma inv_leave m B s h b r n :
  inv (World m B) s -> B !! h = Some b -> refcount_ b = Some r -> counts m !! r = Some n -> n <> 1 ->
  inv (World (Mem (blocks m) (<[r := n - 1]> (counts m))) (delete h B)) (delete h s).
Proof.
  intros I Hb Hr Hn Hn1. destruct (inv_get' _ _ _ _ I Hb) as (v & t & Hs & _).
  destruct (inv_count _ _ I r n Hn) as [Hc Hpos]. cbn in Hc.
  pose proof (sharers_delete B h b r Hb) as Hd. rewrite decide_True in Hd by done.
  split; cbn.
  - rewrite !dom_delete_L. f_equal. apply (inv_dom _ _ I).
  - rewrite map_size_delete_Some by done. pose proof (inv_few _ _ I). lia.
  - intros h' b' v' t' [Hne H1]%lookup_delete_Some [_ H2]%lookup_delete_Some.
    destruct (inv_obj _ _ I h' b' v' t' H1 H2) as (p' & r' & blk' & Ed & Er & Es & Hp' & Hok' & Hr').
    exists p', r', blk'. cbn in *. split_and!; try done. set_solver.
  - intros h1 h2 b1 b2 [_ H1]%lookup_delete_Some [_ H2]%lookup_delete_Some. by apply (inv_share _ _ I h1 h2).
  - intros r' n' [[<- <-]|[Hne Hn']]%lookup_insert_Some; [lia|].
    destruct (inv_count _ _ I r' n' Hn') as [Hc' ?]. cbn in Hc'.
    rewrite (sharers_delete B h b r' Hb), decide_False in Hc' by congruence. done.
  - intros q Hq. destruct (inv_block _ _ I q Hq) as (h' & b' & Hb' & Hd'). cbn in Hb'.
    destruct (decide (h' = h)) as [->|Hne]; [|exists h', b'; by rewrite lookup_delete_ne].
    assert (0 < sharers (delete h B) r)%nat as Hpos' by lia. unfold sharers in Hpos'.
    destruct (filter _ _) as [|[h2 b2] l] eqn:E; [cbn in Hpos'; lia|].
    assert ((h2, b2) ∈ filter (fun hb : handle * Buffer => refcount_ hb.2 = Some r) (map_to_list (delete h B))) as Hin
      by (rewrite E; set_solver).
    apply list_elem_of_filter in Hin as [Hr2 Hin]. apply elem_of_map_to_list in Hin. exists h2, b2. split; [done|].
    apply lookup_delete_Some in Hin as [_ Hin]. rewrite <- Hd'. simplify_eq.
    apply (inv_share _ _ I h2 h); [done..|]. cbn in *. congruence.
Qed.

(** The last user of its storage releases it. *)
Lemma inv_release m B s h b p r :
  inv (World m B) s -> B !! h = Some b -> data_ b = Some p -> refcount_ b = Some r -> counts m !! r = Some 1 ->
  inv (World (Mem (delete p (blocks m)) (delete r (counts m))) (delete h B)) (delete h s).
Proof.
  intros I Hb Hp Hr Hn. destruct (inv_count _ _ I r 1 Hn) as [Hc _]. cbn in Hc.
  assert (forall h' b', delete h B !! h' = Some b' -> data_ b' <> Some p /\ refcount_ b' <> Some r) as Hother.
  { intros h' b' [Hne H']%lookup_delete_Some. assert (refcount_ b' <> Some r) as Hr'.
    { intros Hr'. pose proof (sharers_two B h h' b b' r Hb H' Hne Hr Hr'). lia. }
    split; [|done]. intros Hp'. apply Hr'. rewrite <- Hr. apply (inv_share _ _ I h' h); [done..|]. congruence. }
  destruct (inv_get' _ _ _ _ I Hb) as (v0 & t0 & Hs0 & _).
  split; cbn.
  - rewrite !dom_delete_L. f_equal. apply (inv_dom _ _ I).
  - rewrite map_size_delete_Some by done. pose proof (inv_few _ _ I). lia.
  - intros h' b' v t H1 H2. pose proof (Hother _ _ H1) as [Hp' Hr'].
    apply lookup_delete_Some in H1 as [Hne H1], H2 as [_ H2].
    destruct (inv_obj _ _ I h' b' v t H1 H2) as (p' & r' & blk & Ed & Er & Es & Hb' & Hok & Hin).
    exists p', r', blk. cbn in *. rewrite lookup_delete_ne by congruence. split_and!; try done.
    rewrite dom_delete. apply elem_of_difference. split; [done|]. rewrite elem_of_singleton. congruence.
  - intros h1 h2 b1 b2 [_ H1]%lookup_delete_Some [_ H2]%lookup_delete_Some. by apply (inv_share _ _ I h1 h2).
  - intros r' n [Hne Hn']%lookup_delete_Some. destruct (inv_count _ _ I r' n Hn') as [Hc' ?]. cbn in Hc'.
    rewrite (sharers_delete B h b r' Hb), decide_False in Hc' by congruence. done.
  - intros q Hq. rewrite dom_delete in Hq. apply elem_of_difference in Hq as [Hq Hqp].
    destruct (inv_block _ _ I q Hq) as (h' & b' & Hb' & Hd). exists h', b'. cbn in Hb'.
    rewrite lookup_delete_ne; [done|]. intros <-. apply Hqp, elem_of_singleton. congruence.
Qed.

(** A new object shares the storage of another. *)
Lemma inv_join m B s h other b v r n :
  inv (World m B) s -> s !! h = None -> Z.of_nat (size s) + 1 < 2 ^ 32 ->
  B !! other = Some b -> s !! other = Some v -> refcount_ b = Some r -> counts m !! r = Some n ->
  inv (World (Mem (blocks m) (<[r := n + 1]> (counts m))) (<[h := b]> B)) (<[h := v]> s).
Proof.
  intros I Hs Hsz Hb Hv Hr Hn. pose proof (inv_no_object _ _ _ I Hs) as HB. cbn in HB.
  assert (forall h' b', <[h := b]> B !! h' = Some b' -> exists h0, B !! h0 = Some b' /\ (h' = h -> h0 = other) /\ (h' <> h -> h0 = h')) as Hold.
  { intros h' b' [[<- <-]|[Hne H']]%lookup_insert_Some; [by exists other|]. exists h'. naive_solver. }
  split; cbn.
  - rewrite !dom_insert_L. f_equal. apply (inv_dom _ _ I).
  - rewrite map_size_insert_None by done. lia.
  - intros h' b' v' t' H1 H2. destruct (Hold _ _ H1) as (h0 & H0 & E1 & E2).
    assert (s !! h0 = Some (v', t')) as H0s.
    { destruct (decide (h' = h)) as [->|Hne].
      - rewrite lookup_insert_eq in H2. rewrite (E1 eq_refl). congruence.
      - rewrite lookup_insert_ne in H2 by done. by rewrite (E2 Hne). }
    destruct (inv_obj _ _ I h0 b' v' t' H0 H0s) as (p' & r' & blk & Ed & Er & Es & Hp & Hok & Hin).
    exists p', r', blk. cbn in *. split_and!; try done. set_solver.
  - intros h1 h2 b1 b2 H1 H2. destruct (Hold _ _ H1) as (? & ? & _), (Hold _ _ H2) as (? & ? & _).
    by eapply (inv_share _ _ I).
  - intros r' n' [[<- <-]|[Hne Hn']]%lookup_insert_Some; rewrite sharers_insert by done.
    + rewrite decide_True by done. destruct (inv_count _ _ I r n Hn). cbn in *. lia.
    + rewrite decide_False by congruence. rewrite Nat.add_0_l. by apply (inv_count _ _ I).
  - intros q Hq. destruct (inv_block _ _ I q Hq) as (h' & b' & Hb' & Hd). exists h', b'. cbn in Hb'. split; [|done].
    rewrite lookup_insert_ne; [done|]. intros <-. congruence.
Qed.

(** An object that owns its storage replaces or changes it. *)
Lemma inv_replace m B s h b p r p' blk v t cap :
  inv (World m B) s -> B !! h = Some b -> data_ b = Some p -> refcount_ b = Some r -> counts m !! r = Some 1 ->
  (p' = p \/ blocks m !! p' = None) -> block_ok blk v t cap ->
  inv (World (Mem (<[p' := blk]> (delete p (blocks m))) (counts m))
         (<[h := MkBuffer (Some p') (zlen v) cap (Some r)]> B)) (<[h := (v, t)]> s).
Proof.
  intros I Hb Hp Hr Hn Hp' Hok. destruct (inv_get' _ _ _ _ I Hb) as (v0 & t0 & Hs0 & _).
  pose proof (inv_release _ _ _ _ _ _ _ I Hb Hp Hr Hn) as I1.
  pose proof (inv_alloc _ _ _ h p' r blk v t cap I1 (lookup_delete_eq _ _)) as I2. cbn in I2.
  rewrite !insert_delete_eq, (insert_id (counts m) r 1) in I2 by done.
  apply I2; try done.
  - rewrite map_size_delete_Some by done. pose proof (inv_few _ _ I).
    assert (size s <> 0)%nat by (rewrite map_size_non_empty_iff; set_solver). lia.
  - destruct Hp' as [->|?]; [apply lookup_delete_eq|]. apply lookup_delete_None. by right.
  - apply lookup_delete_eq.
Qed.

(** *** Blocks *)

Lemma splice_length off l blk : (off + length l <= length blk)%nat -> length (splice off l blk) = length blk.
Proof. intros H. unfold splice. rewrite !length_app, length_take, length_drop. lia. Qed.

Lemma splice_take off l blk n : (off + length l <= length blk)%nat -> n = (off + length l)%nat ->
  take n (splice off l blk) = take off blk ++ l.
Proof.
  intros H ->. unfold splice. rewrite app_assoc, take_app_le by (rewrite length_app, length_take; lia).
  apply take_ge. rewrite length_app, length_take. lia.
Qed.

Lemma splice_take_before off l blk n : (n <= off <= length blk)%nat -> take n (splice off l blk) = take n blk.
Proof.
  intros H. unfold splice. rewrite take_app_le by (rewrite length_take; lia).
  rewrite take_take. f_equal. lia.
Qed.

Lemma splice_lookup off l blk i : (off <= i < off + length l)%nat -> (off <= length blk)%nat ->
  splice off l blk !! i = l !! (i - off)%nat.
Proof.
  intros Hi Hl. unfold splice. rewrite lookup_app_r; rewrite length_take_le by lia; [|lia].
  by rewrite lookup_app_l by lia.
Qed.

Lemma splice_lookup_before off l blk i : (i < off <= length blk)%nat -> splice off l blk !! i = blk !! i.
Proof.
  intros Hi. unfold splice. rewrite lookup_app_l by (rewrite length_take; lia). apply lookup_take_lt. lia.
Qed.

Lemma splice_full l blk : length l = length blk -> splice 0 l blk = l.
Proof. intros H. unfold splice. rewrite Nat.add_0_l, drop_ge, app_nil_r by lia. done. Qed.

Lemma written_length (d : bytes) : length (written d) = length d.
Proof. apply length_fmap. Qed.

Lemma written_app d1 d2 : written (d1 ++ d2) = written d1 ++ written d2.
Proof. apply fmap_app. Qed.

Lemma mapM_written v : mapM (fun c : option byte => c) (written v) = Some v.
Proof. apply mapM_Some. induction v as [|c v IH]; by constructor. Qed.

Lemma block_ok_length blk v t cap : block_ok blk v t cap -> (length v < length blk)%nat.
Proof. intros (H1 & _ & H2 & _). lia. Qed.

(** A block whose beginning is the value and its terminator. *)
Lemma block_ok_text (v : bytes) rest cap :
  zlen v + 1 + zlen rest = cap + 1 -> cap + 1 < 2 ^ 32 -> block_ok (written v ++ Some NUL :: rest) v [NUL] cap.
Proof.
  intros H1 H2. repeat split; try lia.
  - rewrite length_app, written_length. cbn [length]. lia.
  - apply take_app_length'. by rewrite written_length.
  - apply known_NUL. rewrite lookup_app_r; rewrite written_length; [|lia]. by rewrite Nat.sub_diag.
Qed.

(** Bytes and a terminator written after the value. *)
Lemma block_ok_append blk v t cap d :
  block_ok blk v t cap -> zlen v + zlen d <= cap ->
  block_ok (splice (length (v ++ d)) [Some NUL] (splice (length v) (written d) blk)) (v ++ d) [NUL] cap.
Proof.
  intros Hok Hlen. pose proof (block_ok_length _ _ _ _ Hok) as Hl. destruct Hok as (H1 & H2 & H3 & H4 & _).
  assert (length v + length (written d) <= length blk)%nat by (rewrite written_length; lia).
  assert (length (splice (length v) (written d) blk) = length blk) as E by (by apply splice_length).
  rewrite length_app. repeat split; try lia.
  - rewrite splice_length by (rewrite E; cbn; lia). lia.
  - rewrite length_app. lia.
  - rewrite splice_take_before by (rewrite length_app, E; lia).
    rewrite length_app, splice_take by (rewrite ?written_length; lia). by rewrite H4, written_app.
  - apply known_NUL. rewrite length_app, splice_lookup by (cbn; rewrite ?E; lia). by rewrite Nat.sub_diag.
Qed.

(** The move to the front. *)
Lemma block_ok_shift blk v t cap n :
  block_ok blk v t cap -> (n <= length v)%nat ->
  block_ok (splice 0 (take (length v - n + 1) (drop n blk)) blk) (drop n v) (ended t) cap.
Proof.
  intros Hok Hn. pose proof (block_ok_length _ _ _ _ Hok) as Hl. destruct Hok as (H1 & H2 & H3 & H4 & H5).
  assert (length (take (length v - n + 1) (drop n blk)) = (length v - n + 1)%nat) as El
    by (rewrite length_take, length_drop; lia).
  repeat split; rewrite ?length_drop; try lia.
  - rewrite splice_length by lia. lia.
  - unfold splice. rewrite take_0, app_nil_l, take_app_le by lia.
    rewrite take_take. replace ((length v - n) `min` (length v - n + 1))%nat with (length v - n)%nat by lia.
    rewrite take_drop_commute. replace (n + (length v - n))%nat with (length v) by lia.
    rewrite H4. symmetry. apply fmap_drop.
  - eapply known_ended; [exact H5|]. intros Hb. rewrite splice_lookup by lia. rewrite Nat.sub_0_r, lookup_take_lt by lia.
    rewrite lookup_drop. by replace (n + (length v - n))%nat with (length v) by lia.
Qed.

(** A block of another size that begins with the old one and has a
    terminator at its end. *)
Lemma block_ok_resize blk v t cap n :
  block_ok blk v t cap -> zlen v <= n -> fits n ->
  let blk' := take (Z.to_nat (n + 1)) (blk ++ replicate (Z.to_nat (n + 1)) None) in
  zlen blk' = n + 1 /\ block_ok (splice (Z.to_nat n) [Some NUL] blk') v (ended t) n.
Proof.
  intros Hok Hn [Hn0 Hn1]. pose proof (block_ok_length _ _ _ _ Hok) as Hl. destruct Hok as (H1 & H2 & H3 & H4 & H5).
  set (blk' := take _ _).
  assert (length blk' = Z.to_nat (n + 1)) as El
    by (unfold blk'; rewrite length_take, length_app, length_replicate; lia).
  split; [lia|]. cbn zeta. repeat split; try lia.
  - rewrite splice_length by (cbn; lia). lia.
  - rewrite splice_take_before by lia. unfold blk'. rewrite take_take, take_app_le by lia.
    rewrite <- H4. f_equal. lia.
  - eapply known_ended; [exact H5|]. intros Hb. destruct (decide (n = zlen v)) as [->|Hne].
    + rewrite Nat2Z.id. rewrite splice_lookup by (cbn; lia). by rewrite Nat.sub_diag.
    + rewrite splice_lookup_before by lia. unfold blk'. rewrite lookup_take_lt by lia.
      rewrite lookup_app_l by lia. done.
Qed.

(** ** The methods *)

Section methods.
Variable alloc_ok : Z -> bool.
(** Memory is available for every request of up to 2^34 bytes. *)
Hypothesis memory : forall n, 0 < n < 2 ^ 34 -> alloc_ok n = true.

Variables (B : gmap handle Buffer) (s : values) (h : handle).

Definition sole (m : mem) (b : Buffer) : Prop := exists r, refcount_ b = Some r /\ counts m !! r = Some 1.

(** Object [h] is [b] and holds [v], the others are those of [B] and [s]. *)
Definition state (m : mem) (b : Buffer) (v : bytes) (t : bytes) : Prop :=
  inv (World m (<[h := b]> B)) (<[h := (v, t)]> s).

Lemma malloc_run n m : 0 < n < 2 ^ 34 ->
  malloc alloc_ok n m = Some (Some (fresh (dom (blocks m))),
    Mem (<[fresh (dom (blocks m)) := replicate (Z.to_nat n) None]> (blocks m)) (counts m)).
Proof. intros Hn. unfold malloc. by rewrite memory. Qed.

Lemma store_run p off l m blk : blocks m !! p = Some blk -> 0 <= off -> off + zlen l <= zlen blk ->
  store (Some p) off l m = Some (tt, Mem (<[p := splice (Z.to_nat off) l blk]> (blocks m)) (counts m)).
Proof.
  intros Hp Ho Hl. unfold store, at_addr. rewrite Hp. cbn [mbind option_bind].
  rewrite (proj2 (Z.leb_le _ _) Ho), (proj2 (Z.leb_le _ _) Hl). done.
Qed.

Lemma load_run p off n m blk : blocks m !! p = Some blk -> 0 <= off -> 0 <= n -> off + n <= zlen blk ->
  load (Some p) off n m = Some (take (Z.to_nat n) (drop (Z.to_nat off) blk), m).
Proof.
  intros Hp Ho Hn Hl. unfold load, at_addr. rewrite Hp. cbn [mbind option_bind].
  rewrite (proj2 (Z.leb_le _ _) Ho), (proj2 (Z.leb_le _ _) Hn), (proj2 (Z.leb_le _ _) Hl). done.
Qed.

Lemma fresh_block m : blocks m !! fresh (dom (blocks m)) = None.
Proof. apply not_elem_of_dom, is_fresh. Qed.

Lemma fresh_count m : counts m !! fresh (dom (counts m)) = None.
Proof. apply not_elem_of_dom, is_fresh. Qed.

Lemma state_get m b v t : state m b v t -> holds m b v t.
Proof.
  intros I. apply (inv_obj _ _ I h); cbn; by rewrite lookup_insert_eq.
Qed.

Lemma state_count m b v t : state m b v t ->
  exists r n, refcount_ b = Some r /\ counts m !! r = Some n /\ 0 < n < 2 ^ 32.
Proof.
  intros I. destruct (state_get _ _ _ _ I) as (p & r & blk & _ & Hr & _ & _ & _ & Hin).
  apply elem_of_dom in Hin as [n Hn]. exists r, n. split_and!; try done.
  - by apply (inv_count _ _ I r).
  - destruct (inv_count _ _ I r n Hn) as [-> _]. cbn.
    pose proof (sharers_bound (<[h:=b]> B) r). pose proof (inv_few _ _ I).
    pose proof (size_bound _ _ I) as E. cbn in E. lia.
Qed.

(** A sole owner changes its block, in place or for a new one. *)
Lemma state_replace m b v t p r p' blk v' t' cap :
  state m b v t -> data_ b = Some p -> refcount_ b = Some r -> counts m !! r = Some 1 ->
  (p' = p \/ blocks m !! p' = None) -> block_ok blk v' t' cap ->
  state (Mem (<[p' := blk]> (delete p (blocks m))) (counts m)) (MkBuffer (Some p') (zlen v') cap (Some r)) v' t'.
Proof.
  intros I Hp Hr Hc Hp' Hok. unfold state.
  pose proof (inv_replace m _ _ h b p r p' blk v' t' cap I) as I'. rewrite !insert_insert_eq in I'.
  apply I'; try done. apply lookup_insert_eq.
Qed.

(** A new block for an object that has left its storage. *)
Lemma state_new m v t p r blk cap :
  inv (World m (delete h B)) (delete h s) -> Z.of_nat (size (delete h s)) + 1 < 2 ^ 32 ->
  blocks m !! p = None -> counts m !! r = None -> block_ok blk v t cap ->
  state (Mem (<[p := blk]> (blocks m)) (<[r := 1]> (counts m))) (MkBuffer (Some p) (zlen v) cap (Some r)) v t.
Proof.
  intros I Hsz Hp Hr Hok. unfold state.
  rewrite <- (insert_delete_eq B h), <- (insert_delete_eq s h).
  apply inv_alloc; try done. apply lookup_delete_eq.
Qed.

Lemma state_size m b v t : state m b v t -> Z.of_nat (size (delete h s)) + 1 < 2 ^ 32.
Proof.
  intros I. pose proof (inv_few _ _ I) as H. rewrite <- insert_delete_eq in H.
  rewrite map_size_insert_None in H by apply lookup_delete_eq. lia.
Qed.

Lemma set_count_run r n m v : counts m !! r = Some n ->
  set_count (Some r) v m = Some (tt, Mem (blocks m) (<[r := u32 v]> (counts m))).
Proof. intros Hr. unfold set_count, at_addr. by rewrite Hr. Qed.

Lemma get_count_run r n m : counts m !! r = Some n -> get_count (Some r) m = Some (n, m).
Proof. intros Hr. unfold get_count, at_addr. by rewrite Hr. Qed.

(** Another size of the object, and what is known of its bytes. *)
Lemma state_revalue m b v t b' v' t' : state m b v t -> data_ b' = data_ b -> refcount_ b' = refcount_ b -> holds m b' v' t' -> state m b' v' t'.
Proof.
  intros I Ed Er Hh. assert (forall h' b2, <[h := b']> B !! h' = Some b2 ->
    exists b0, <[h := b]> B !! h' = Some b0 /\ data_ b0 = data_ b2 /\ refcount_ b0 = refcount_ b2) as Hold.
  { intros h' b2 [[<- <-]|[Hne H']]%lookup_insert_Some.
    - exists b. by rewrite lookup_insert_eq.
    - exists b2. by rewrite lookup_insert_ne. }
  split; cbn.
  - rewrite !dom_insert_L. pose proof (inv_dom _ _ I) as Hd. cbn in Hd. by rewrite !dom_insert_L in Hd.
  - pose proof (inv_few _ _ I) as Hf. rewrite <- insert_delete_eq, map_size_insert_None in Hf by apply lookup_delete_eq.
    rewrite <- insert_delete_eq, map_size_insert_None by apply lookup_delete_eq. done.
  - intros h' b2 v2 t2 Hb' Hs'. destruct (decide (h' = h)) as [->|Hne].
    + rewrite lookup_insert_eq in Hb'. rewrite lookup_insert_eq in Hs'. by simplify_eq.
    + rewrite lookup_insert_ne in Hb' by done. rewrite lookup_insert_ne in Hs' by done.
      apply (inv_obj _ _ I h'); cbn; by rewrite lookup_insert_ne.
  - intros h1 h2 b1 b2 Hb1 Hb2. destruct (Hold _ _ Hb1) as (c1 & Hc1 & <- & <-), (Hold _ _ Hb2) as (c2 & Hc2 & <- & <-).
    by apply (inv_share _ _ I h1 h2).
  - intros r' k Hk. destruct (inv_count _ _ I r' k Hk) as [Hc Hpos]. cbn in Hc. split; [|done]. rewrite Hc. f_equal.
    rewrite <- !(insert_delete_eq B), !sharers_insert by apply lookup_delete_eq. by rewrite Er.
  - intros q Hq. destruct (inv_block _ _ I q Hq) as (h' & b2 & Hb' & Hd). cbn in Hb'.
    destruct (decide (h' = h)) as [->|Hne].
    + exists h, b'. rewrite lookup_insert_eq in Hb' |- *. split; [done|]. congruence.
    + exists h', b2. by rewrite lookup_insert_ne in Hb' |- *.
Qed.

Lemma state_ended m b v t : state m b v t -> state m b v (ended t).
Proof.
  intros I. eapply state_revalue; [exact I|done|done|]. destruct (state_get _ _ _ _ I) as (p & r & blk & Hp & Hr & Hs & Hb & (H1 & H2 & H3 & H4 & H5) & Hin).
  exists p, r, blk. split_and!; try done. split_and!; try done. by eapply known_ended.
Qed.

Lemma Clone_ok m b v t : state m b v t ->
  exists b' m', Clone alloc_ok b m = Some (b', m') /\ state m' b' v (ended t) /\ sole m' b'
    /\ size_ b' = size_ b /\ capacity_ b' = capacity_ b.
Proof.
  intros I. destruct (state_count _ _ _ _ I) as (r & n & Hr & Hn & Hpos).
  destruct (state_get _ _ _ _ I) as (p & r' & blk & Hp & Hr' & Hs & Hb & Hok & _).
  assert (r' = r) as -> by congruence. unfold Clone, mbind, M_bind.
  rewrite Hr, (get_count_run _ _ _ Hn). cbn [mbind option_bind].
  destruct (Z.eqb_spec n 1) as [->|Hne].
  { exists b, m. split_and!; try done; [by apply state_ended|by exists r]. }
  pose proof Hok as (H1 & H2 & H3 & H4 & H5).
  rewrite (u32_small (capacity_ b + 1)) by (unfold in_u32; lia). rewrite (malloc_run (capacity_ b + 1)) by lia. cbn [mbind option_bind].
  rewrite Hp, Hs, (u32_small (zlen v + 1)) by (unfold in_u32; lia).
  erewrite load_run; cbn [blocks]; [|rewrite lookup_insert_ne; [exact Hb|]|lia..].
  2: { intros E. pose proof (fresh_block m) as F. rewrite E in F. congruence. }
  cbn [mbind option_bind].
  erewrite store_run; cbn [blocks]; [|apply lookup_insert_eq|lia|rewrite length_take, length_drop, length_replicate; lia].
  cbn [mbind option_bind counts blocks]. erewrite set_count_run by exact Hn.
  cbn [mbind option_bind new_count counts blocks]. eexists _, _. split; [done|]. cbn [size_ capacity_].
  rewrite u32_small by (unfold in_u32; lia). split_and!; try done; [|eexists; split; [done|apply lookup_insert_eq]].
  rewrite insert_insert_eq. pose proof (inv_leave _ _ _ h b r n I) as I'.
  rewrite !delete_insert_eq in I'. specialize (I' (lookup_insert_eq _ _ _) Hr Hn Hne).
  rewrite ?Hs. eapply (state_new (Mem _ _)); [exact I'|by eapply state_size|apply (fresh_block m)|apply not_elem_of_dom, is_fresh|].
  replace (Z.to_nat (zlen v + 1)) with (length v + 1)%nat by lia. rewrite drop_0.
  assert (length (take (length v + 1) blk) = (length v + 1)%nat) as El by (rewrite length_take; lia).
  repeat split; try lia.
  - rewrite splice_length; rewrite length_replicate; lia.
  - unfold splice. rewrite take_0, app_nil_l, take_app_le by lia. rewrite take_take. rewrite <- H4. f_equal. lia.
  - eapply known_ended; [exact H5|]. intros Hblk. rewrite splice_lookup by lia. by rewrite Nat.sub_0_r, lookup_take_lt by lia.
Qed.

Lemma ended_twice t : ended (ended t) = ended t.
Proof. destruct t as [|c t]; [done|]. cbn. by case_decide. Qed.

Lemma resize_ok m b v t n : alloc_ok (n + 1) = true -> state m b v t -> sole m b -> zlen v <= n -> fits n ->
  exists b' m', resize alloc_ok b n m = Some (n, b', m') /\ state m' b' v (ended t) /\ sole m' b'
    /\ size_ b' = size_ b /\ capacity_ b' = n /\ refcount_ b' = refcount_ b.
Proof.
  intros Halloc I (r & Hr & Hc) Hn Hfit. destruct (state_get _ _ _ _ I) as (p & r' & blk & Hp & Hr' & Hs & Hb & Hok & _).
  assert (r' = r) as -> by congruence. destruct (block_ok_resize _ _ _ _ _ Hok Hn Hfit) as [Hlen Hok'].
  destruct Hfit as [Hn0 Hn1]. unfold resize, mbind, M_bind, realloc.
  rewrite (u32_small (n + 1)) by (unfold in_u32; lia). rewrite Hp, Hb. cbn [mbind option_bind].
  rewrite (proj2 (Z.eqb_neq (n + 1) 0)) by lia. rewrite Halloc. cbn [mbind option_bind].
  erewrite store_run; cbn [blocks]; [|apply lookup_insert_eq|lia|rewrite Hlen; cbn [length]; lia].
  cbn [mbind option_bind counts blocks mret M_ret]. eexists _, _. split; [done|]. cbn [size_ capacity_ refcount_].
  split_and!; try done; [|by exists r]. rewrite insert_insert_eq, Hr, Hs.
  eapply (state_replace m b v t); try done. right. apply fresh_block.
Qed.

(** [realloc] fails: nothing changes. *)
Lemma resize_fails m b v t n : alloc_ok (n + 1) = false -> state m b v t -> fits n ->
  resize alloc_ok b n m = Some (capacity_ b, b, m).
Proof.
  intros Halloc I [Hn0 Hn1]. destruct (state_get _ _ _ _ I) as (p & r & blk & Hp & _ & _ & Hb & _ & _).
  unfold resize, mbind, M_bind, realloc. rewrite (u32_small (n + 1)) by (unfold in_u32; lia).
  rewrite Hp, Hb. cbn [mbind option_bind]. rewrite (proj2 (Z.eqb_neq (n + 1) 0)) by lia. by rewrite Halloc.
Qed.

(** The size [reserve] asks for. *)
Lemma reserve_size cap n : 0 <= n -> n + 1 < 2 ^ 32 -> fits (Z.max (u32 (2 * cap)) n).
Proof.
  intros Hn0 Hn1. unfold fits, u32. replace ((2 * cap) mod 2 ^ 32) with (2 * (cap mod 2 ^ 31)).
  - pose proof (Z.mod_pos_bound cap (2 ^ 31)). lia.
  - change (2 ^ 32) with (2 * 2 ^ 31). by rewrite Zmult_mod_distr_l.
Qed.

(** [reserve] makes room, or fails and changes nothing. *)
Lemma reserve_any m b v t n : state m b v t -> sole m b -> fits n -> zlen v <= n ->
  exists ok b' m', reserve alloc_ok b n m = Some (ok, b', m') /\ state m' b' v (ended t) /\ sole m' b'
    /\ size_ b' = size_ b /\ (ok = true -> n <= capacity_ b') /\ (ok = false -> b' = b /\ m' = m).
Proof.
  intros I So Hfit Hv. pose proof Hfit as [Hn0 Hn1]. unfold reserve. destruct (Z.ltb_spec n (capacity_ b)) as [Hlt|Hge].
  { exists true, b, m. split_and!; try done; [by apply state_ended|lia]. }
  pose proof (reserve_size (capacity_ b) n Hn0 Hn1) as Hs. set (k := Z.max _ n) in *. assert (n <= k) by lia.
  destruct (alloc_ok (k + 1)) eqn:Ha.
  - destruct (resize_ok m b v t k Ha I So) as (b' & m' & E & I' & So' & Es & Ec & _); [lia|done|].
    unfold mbind, M_bind. rewrite E. cbn [mbind option_bind mret M_ret]. exists true, b', m'.
    rewrite Z.geb_leb, Z.leb_refl. split_and!; try done. lia.
  - unfold mbind, M_bind. rewrite (resize_fails m b v t k Ha I Hs). cbn [mbind option_bind mret M_ret].
    eexists _, b, m. split_and!; try done; [by apply state_ended|]. rewrite Z.geb_leb. intros ?%Z.leb_le. lia.
Qed.

Lemma reserve_ok m b v t n : state m b v t -> sole m b -> fits n ->
  exists b' m', reserve alloc_ok b n m = Some (true, b', m') /\ state m' b' v (ended t) /\ sole m' b'
    /\ size_ b' = size_ b /\ n <= capacity_ b'.
Proof.
  intros I So Hfit. pose proof Hfit as [Hn0 Hn1]. unfold reserve. destruct (Z.ltb_spec n (capacity_ b)) as [Hlt|Hge].
  { exists b, m. split_and!; try done; [by apply state_ended|lia]. }
  destruct (state_get _ _ _ _ I) as (p & r & blk & Hp & Hr & Hs & Hb & (H1 & H2 & H3 & _) & _).
  pose proof (reserve_size (capacity_ b) n Hn0 Hn1) as Hk. set (k := Z.max _ n) in *. assert (n <= k) by lia.
  destruct (resize_ok m b v t k) as (b' & m' & E & I' & So' & Es & Ec & _); try done;
    [apply memory; destruct Hk; lia|lia|].
  unfold mbind, M_bind. rewrite E. cbn [mbind option_bind mret M_ret]. exists b', m'.
  rewrite Z.geb_leb, Z.leb_refl. split_and!; try done. lia.
Qed.

Lemma shift_ok m b v t n : state m b v t -> sole m b -> 0 <= n <= zlen v ->
  exists b' m', shift alloc_ok b n m = Some (b', m') /\ state m' b' (drop (Z.to_nat n) v) (ended t).
Proof.
  intros I (r & Hr & Hc) Hn. destruct (state_get _ _ _ _ I) as (p & r' & blk & Hp & Hr' & Hs & Hb & Hok & _).
  assert (r' = r) as -> by congruence. pose proof Hok as (H1 & H2 & H3 & _). unfold shift, mbind, M_bind.
  rewrite Hs, (u32_small (zlen v - n + 1)), (u32_small (zlen v - n)) by (unfold in_u32; lia).
  rewrite Hp. erewrite load_run by (done || lia). cbn [mbind option_bind].
  erewrite store_run; cbn [blocks]; [|exact Hb|lia|rewrite length_take, length_drop; lia].
  cbn [mbind option_bind data_ size_ capacity_]. change (Z.to_nat 0) with 0%nat.
  pose proof (block_ok_shift _ _ _ _ (Z.to_nat n) Hok ltac:(lia)) as Hok'.
  replace (length v - Z.to_nat n + 1)%nat with (Z.to_nat (zlen v - n + 1)) in Hok' by lia.
  pose proof (state_replace m b v t p r p _ _ _ _ I Hp Hr Hc (or_introl eq_refl) Hok') as I'.
  rewrite insert_delete_eq in I'. replace (zlen (drop (Z.to_nat n) v)) with (zlen v - n) in I' by (rewrite length_drop; lia).
  rewrite <- Hr in I'. destruct (_ <? _) eqn:E; [|by eexists _, _].
  destruct (resize_ok _ _ _ _ (zlen v - n) ltac:(apply memory; lia) I') as (b' & m' & E' & I'' & _).
  { by exists r. } { rewrite length_drop. lia. } { unfold fits. lia. }
  cbn [mbind option_bind]. rewrite E'. rewrite ended_twice in I''. by eexists _, _.
Qed.

Lemma remove_front_ok m b v t n : state m b v t -> 0 <= n <= zlen v ->
  exists b' m', remove_front alloc_ok b n m = Some (b', m') /\ state m' b' (drop (Z.to_nat n) v) (ended t).
Proof.
  intros I Hn. unfold remove_front. destruct (Z.eqb_spec n 0) as [->|Hne]; [eexists _, _; split; [done|by apply state_ended]|].
  destruct (Clone_ok _ _ _ _ I) as (b1 & m1 & E1 & I1 & So1 & _). unfold mbind, M_bind. rewrite E1.
  rewrite <- ended_twice. by apply shift_ok.
Qed.

Lemma append_bytes_ok m b v t d : state m b v t -> sole m b -> zlen v + zlen d <= capacity_ b ->
  exists b' m', append_bytes b d (zlen d) m = Some (true, b', m') /\ state m' b' (v ++ d) [NUL].
Proof.
  intros I (r & Hr & Hc) Hcap. destruct (state_get _ _ _ _ I) as (p & r' & blk & Hp & Hr' & Hs & Hb & Hok & _).
  assert (r' = r) as -> by congruence. pose proof Hok as (H1 & H2 & H3 & _).
  pose proof (block_ok_append _ _ _ _ d Hok Hcap) as Hok'. unfold append_bytes, mbind, M_bind. rewrite Hp, Hs.
  erewrite store_run; cbn [blocks]; [|exact Hb|lia|rewrite written_length; lia].
  cbn [mbind option_bind data_ size_ capacity_ counts].
  rewrite (u32_small (zlen v + zlen d)) by (unfold in_u32; lia).
  erewrite store_run; cbn [blocks]; [|apply lookup_insert_eq|lia|].
  2: { rewrite splice_length by (rewrite written_length; lia). cbn [length]. lia. }
  cbn [mbind option_bind data_ size_ capacity_ counts mret M_ret]. eexists _, _. split; [done|].
  rewrite insert_insert_eq, Hr. rewrite length_app in Hok'.
  replace (Z.to_nat (zlen v + zlen d)) with (length v + length d)%nat by lia. rewrite Nat2Z.id.
  pose proof (state_replace m b v t p r p _ _ _ _ I Hp Hr Hc (or_introl eq_refl) Hok') as I3.
  rewrite insert_delete_eq in I3. rewrite length_app, Nat2Z.inj_add in I3. exact I3.
Qed.

Lemma append_ok m b v t d : state m b v t -> fits (zlen v + zlen d) ->
  exists b' m', append alloc_ok b d m = Some (true, b', m')
    /\ state m' b' (fst (spec_append d v t)) (snd (spec_append d v t)).
Proof.
  intros I [_ Hfit]. unfold append. rewrite (u32_small (zlen d)) by (unfold in_u32; lia).
  destruct d as [|c d]; [by eexists _, _|].
  rewrite (proj2 (Z.leb_gt _ _)) by (cbn; lia). set (cd := c :: d) in *. cbn [spec_append fst snd].
  destruct (Clone_ok _ _ _ _ I) as (b1 & m1 & E1 & I1 & So1 & _). unfold mbind, M_bind. rewrite E1.
  cbn [mbind option_bind]. destruct (state_get _ _ _ _ I1) as (_ & _ & _ & _ & _ & Hs1 & _).
  rewrite Hs1. rewrite (u32_small (zlen v + zlen cd)) by (unfold in_u32; lia).
  destruct (reserve_ok m1 b1 v _ (zlen v + zlen cd) I1 So1) as (b2 & m2 & E2 & I2 & So2 & _ & Hc2);
    [unfold fits; lia|].
  rewrite E2. cbn [mbind option_bind]. by apply (append_bytes_ok m2 b2 v _ _ I2).
Qed.

(** With any allocator, for an object that owns its storage. *)
Lemma append_any m b v t d : state m b v t -> sole m b -> fits (zlen v + zlen d) ->
  exists ok b' m', append alloc_ok b d m = Some (ok, b', m')
    /\ if ok : bool then state m' b' (fst (spec_append d v t)) (snd (spec_append d v t)) else b' = b /\ m' = m.
Proof.
  intros I So [_ Hfit]. unfold append. rewrite (u32_small (zlen d)) by (unfold in_u32; lia).
  destruct d as [|c d]; [by eexists _, _, _|].
  rewrite (proj2 (Z.leb_gt _ _)) by (cbn; lia). set (cd := c :: d) in *. cbn [spec_append fst snd].
  pose proof So as (r & Hr & Hc). unfold mbind, M_bind, Clone, mbind, M_bind.
  rewrite Hr, (get_count_run _ _ _ Hc). cbn [mbind option_bind mret M_ret]. rewrite Z.eqb_refl.
  cbn [mret M_ret mbind option_bind]. destruct (state_get _ _ _ _ I) as (_ & _ & _ & _ & _ & Hs & _).
  rewrite Hs, (u32_small (zlen v + zlen cd)) by (unfold in_u32; lia).
  destruct (reserve_any m b v t (zlen v + zlen cd) I So) as (ok & b2 & m2 & E2 & I2 & So2 & _ & Hc2 & Hf);
    [unfold fits; lia|lia|].
  rewrite E2. cbn [mbind option_bind]. destruct ok; [|exists false, b2, m2; split; [done|by apply Hf]].
  destruct (append_bytes_ok m2 b2 v _ cd I2 So2 (Hc2 eq_refl)) as (b' & m' & E & I'). by exists true, b', m'.
Qed.

Lemma Free_ok m b v t : state m b v t ->
  exists m', Free b m = Some (MkBuffer None 0 0 None, m') /\ inv (World m' (delete h B)) (delete h s)
    /\ Z.of_nat (size (delete h s)) + 1 < 2 ^ 32.
Proof.
  intros I. pose proof (state_size _ _ _ _ I) as Hsz. destruct (state_count _ _ _ _ I) as (r & n & Hr & Hn & Hpos).
  destruct (state_get _ _ _ _ I) as (p & r' & blk & Hp & Hr' & Hs & Hb & Hok & _).
  assert (r' = r) as -> by congruence. unfold Free, mbind, M_bind.
  rewrite Hr, (get_count_run _ _ _ Hn). cbn [mbind option_bind]. rewrite (set_count_run _ _ _ _ Hn).
  rewrite u32_small by (unfold in_u32; lia). cbn [mbind option_bind].
  erewrite get_count_run by apply lookup_insert_eq. cbn [mbind option_bind].
  destruct (Z.eqb_spec (n - 1) 0) as [E0|E0].
  - assert (n = 1) as -> by lia. rewrite Hp. cbn [free blocks]. rewrite Hb. cbn [mbind option_bind counts].
    unfold delete_count, at_addr. cbn [counts]. rewrite lookup_insert_eq. cbn [mbind option_bind blocks].
    rewrite delete_insert_eq. eexists. split; [done|]. split; [|done].
    pose proof (inv_release m _ _ h b p r I (lookup_insert_eq _ _ _) Hp Hr Hn) as I'.
    by rewrite !delete_insert_eq in I'.
  - cbn [mbind option_bind mret M_ret]. eexists. split; [done|]. split; [|done].
    pose proof (inv_leave m _ _ h b r n I (lookup_insert_eq _ _ _) Hr Hn ltac:(lia)) as I'.
    by rewrite !delete_insert_eq in I'.
Qed.

(** Fresh storage filled with [blk] by the constructors and by [clear]. *)
Lemma filled_ok m v t blk cap :
  inv (World m (delete h B)) (delete h s) -> Z.of_nat (size (delete h s)) + 1 < 2 ^ 32 -> block_ok blk v t cap ->
  let p := fresh (dom (blocks m)) in
  let r := fresh (dom (counts m)) in
  state (Mem (<[p := blk]> (blocks m)) (<[r := 1]> (counts m))) (MkBuffer (Some p) (zlen v) cap (Some r)) v t.
Proof. intros. apply state_new; try done; apply not_elem_of_dom, is_fresh. Qed.

Lemma clear_ok m b v t : state m b v t ->
  exists b' m', clear alloc_ok b m = Some (b', m') /\ state m' b' [] [NUL].
Proof.
  intros I. destruct (state_count _ _ _ _ I) as (r & n & Hr & Hn & Hpos).
  destruct (state_get _ _ _ _ I) as (p & r' & blk & Hp & Hr' & _ & Hb & _ & _).
  assert (r' = r) as -> by congruence. pose proof (state_size _ _ _ _ I) as Hsz.
  assert (exists m1, (if n =? 1 then free (data_ b);; delete_count (refcount_ b) else set_count (refcount_ b) (n - 1)) m
                       = Some (tt, m1) /\ inv (World m1 (delete h B)) (delete h s)) as (m1 & E1 & I1).
  { destruct (Z.eqb_spec n 1) as [->|Hne].
    - unfold mbind, M_bind, free, delete_count, at_addr. rewrite Hp, Hr, Hb. cbn [mbind option_bind counts blocks].
      rewrite Hn. cbn [mbind option_bind]. eexists. split; [done|].
      pose proof (inv_release m _ _ h b p r I (lookup_insert_eq _ _ _) Hp Hr Hn) as I'.
      by rewrite !delete_insert_eq in I'.
    - rewrite Hr, (set_count_run _ _ _ _ Hn), u32_small by (unfold in_u32; lia). eexists. split; [done|].
      pose proof (inv_leave m _ _ h b r n I (lookup_insert_eq _ _ _) Hr Hn Hne) as I'.
      by rewrite !delete_insert_eq in I'. }
  unfold clear. unfold mbind at 1, M_bind at 1. rewrite Hr, (get_count_run _ _ _ Hn). cbn [mbind option_bind].
  rewrite Hr in E1. unfold mbind at 1, M_bind at 1. rewrite E1. cbn [mbind option_bind].
  unfold mbind, M_bind. rewrite malloc_run by lia. cbn [mbind option_bind].
  erewrite store_run; cbn [blocks]; [|apply lookup_insert_eq|lia|done].
  cbn [mbind option_bind new_count counts blocks mret M_ret]. eexists _, _. split; [done|].
  rewrite insert_insert_eq. apply (filled_ok m1 [] [NUL] [Some NUL] 0); try done.
Qed.

Lemma constructed_ok m (c : M Buffer) v t blk cap n :
  inv (World m B) s -> s !! h = None -> Z.of_nat (size s) + 1 < 2 ^ 32 -> block_ok blk v t cap ->
  (let p := fresh (dom (blocks m)) in
   c m = Some (MkBuffer (Some p) (zlen v) cap (Some (fresh (dom (counts m)))),
           Mem (<[p := blk]> (<[p := n]> (blocks m))) (<[fresh (dom (counts m)) := 1]> (counts m)))) ->
  exists b' m', c m = Some (b', m') /\ state m' b' v t.
Proof.
  intros I Hn Hsz Hok E. cbn zeta in E. rewrite insert_insert_eq in E. eexists _, _. split; [exact E|].
  assert (delete h s = s) as Es by by apply delete_id.
  assert (delete h B = B) as EB by (apply delete_id; exact (inv_no_object _ _ _ I Hn)).
  apply filled_ok; rewrite ?Es, ?EB; done.
Qed.

Lemma Buffer_data_ok m d : inv (World m B) s -> s !! h = None -> Z.of_nat (size s) + 1 < 2 ^ 32 -> fits (zlen d) ->
  exists b' m', Buffer_data alloc_ok d m = Some (b', m') /\ state m' b' d [NUL].
Proof.
  intros I Hn Hsz [_ Hf]. eapply (constructed_ok m _ d [NUL] (written d ++ [Some NUL]) (zlen d)); try done.
  { apply block_ok_text; cbn [length]; lia. }
  unfold Buffer_data, mbind, M_bind. rewrite (u32_small (zlen d)), (u32_small (zlen d + 1)) by (unfold in_u32; lia).
  rewrite malloc_run by lia. cbn [mbind option_bind].
  erewrite store_run; cbn [blocks]; [|apply lookup_insert_eq|lia|rewrite length_replicate, written_length; lia].
  cbn [mbind option_bind counts]. change (Z.to_nat 0) with 0%nat.
  assert (length (splice 0 (written d) (replicate (Z.to_nat (zlen d + 1)) None)) = S (length d)) as El
    by (rewrite splice_length; rewrite ?length_replicate, ?written_length; lia).
  erewrite store_run; cbn [blocks]; [|apply lookup_insert_eq|lia|rewrite El; cbn [length]; lia].
  cbn [mbind option_bind new_count counts blocks mret M_ret]. rewrite insert_insert_eq, Nat2Z.id. repeat f_equal.
  unfold splice at 1. rewrite (drop_ge (splice _ _ _)) by (rewrite El; cbn [length]; lia).
  rewrite splice_take by (rewrite ?length_replicate, ?written_length; lia). done.
Qed.

Lemma Buffer_size_ok m n : inv (World m B) s -> s !! h = None -> Z.of_nat (size s) + 1 < 2 ^ 32 -> fits n ->
  exists b' m', Buffer_size alloc_ok n m = Some (b', m') /\ state m' b' [] (if n =? 0 then [NUL] else [])
    /\ sole m' b' /\ capacity_ b' = n
    /\ (forall p blk, data_ b' = Some p -> blocks m' !! p = Some blk -> blk !! Z.to_nat n = Some (Some NUL))
    /\ forall p blk, data_ b' = Some p -> blocks m !! p = Some blk -> False.
Proof.
  intros I Hn Hsz [Hf0 Hf]. set (blk := splice (Z.to_nat n) [Some NUL] (replicate (Z.to_nat (n + 1)) None)).
  assert (Buffer_size alloc_ok n m = Some (MkBuffer (Some (fresh (dom (blocks m)))) 0 n (Some (fresh (dom (counts m)))),
     Mem (<[fresh (dom (blocks m)) := blk]> (<[fresh (dom (blocks m)) := replicate (Z.to_nat (n + 1)) None]> (blocks m)))
       (<[fresh (dom (counts m)) := 1]> (counts m)))) as E.
  { unfold Buffer_size, mbind, M_bind. rewrite (u32_small (n + 1)) by (unfold in_u32; lia).
    rewrite malloc_run by lia. cbn [mbind option_bind].
    erewrite store_run; cbn [blocks]; [|apply lookup_insert_eq|lia|rewrite length_replicate; cbn [length]; lia].
    done. }
  destruct (constructed_ok m (Buffer_size alloc_ok n) [] (if n =? 0 then [NUL] else []) blk n (replicate (Z.to_nat (n + 1)) None) I Hn Hsz) as (b' & m' & E' & I'); [|exact E|].
  { repeat split; cbn [length]; try lia.
    - unfold blk. rewrite splice_length; rewrite length_replicate; cbn [length]; lia.
    - destruct (Z.eqb_spec n 0) as [->|]; [by apply known_NUL|done]. }
  exists b', m'. split; [done|]. split; [done|]. rewrite E in E'. injection E' as <- <-. split_and!; [|done| |].
  - eexists. split; [done|]. apply lookup_insert_eq.
  - cbn. intros p blk0 [= <-]. rewrite lookup_insert_eq. intros [= <-]. unfold blk.
    rewrite splice_lookup by (rewrite ?length_replicate; cbn [length]; lia). by rewrite Nat.sub_diag.
  - cbn. intros p' blk' [= <-] Hb. by rewrite fresh_block in Hb.
Qed.

Lemma Buffer_str_ok m d : inv (World m B) s -> s !! h = None -> Z.of_nat (size s) + 1 < 2 ^ 32 -> fits (zlen (cstr d)) ->
  exists b' m', Buffer_str alloc_ok d m = Some (b', m') /\ state m' b' (cstr d) [NUL].
Proof.
  intros I Hn Hsz [_ Hf]. eapply (constructed_ok m _ (cstr d) [NUL] (written (cstr d) ++ [Some NUL]) (zlen (cstr d))); try done.
  { apply block_ok_text; cbn [length]; lia. }
  unfold Buffer_str, mbind, M_bind, strlen.
  rewrite (u32_small (zlen (cstr d))), (u32_small (zlen (cstr d) + 1)) by (unfold in_u32; lia).
  rewrite malloc_run by lia. cbn [mbind option_bind].
  erewrite store_run; cbn [blocks]; [|apply lookup_insert_eq|lia|].
  2: { rewrite length_replicate, length_app, written_length. cbn [length]. lia. }
  cbn [mbind option_bind counts new_count blocks mret M_ret]. change (Z.to_nat 0) with 0%nat.
  rewrite splice_full; [done|]. rewrite length_replicate, length_app, written_length. cbn [length]. lia.
Qed.

Lemma splice_text (c : bytes) blk cap : zlen blk = cap + 1 -> cap + 1 < 2 ^ 32 -> zlen c <= cap ->
  block_ok (splice 0 (written c ++ [Some NUL]) blk) c [NUL] cap.
Proof.
  intros H1 H2 H3. unfold splice. rewrite take_0, app_nil_l, <- app_assoc. cbn [app]. apply block_ok_text; [|done].
  rewrite length_drop, length_app, written_length. cbn [length]. lia.
Qed.

(** The end of [assign_str], for an object that owns its storage or has none
    yet. *)
Lemma assign_str_fresh m r c :
  inv (World m (delete h B)) (delete h s) -> Z.of_nat (size (delete h s)) + 1 < 2 ^ 32 -> fits (zlen c) ->
  counts m !! r = None ->
  exists p m', realloc alloc_ok None (zlen c + 1) (Mem (blocks m) (<[r := 1]> (counts m))) = Some (Some p, m')
    /\ exists m2, store (Some p) 0 (written c ++ [Some NUL]) m' = Some (tt, m2)
    /\ state m2 (MkBuffer (Some p) (zlen c) (zlen c) (Some r)) c [NUL].
Proof.
  intros I Hsz [_ Hf] Hr. unfold realloc. cbn [mbind option_bind].
  rewrite (proj2 (Z.eqb_neq (zlen c + 1) 0)) by lia. rewrite memory by lia. cbn [blocks counts app].
  rewrite take_ge by (rewrite length_replicate; lia). eexists _, _. split; [done|].
  erewrite store_run; cbn [blocks]; [|apply lookup_insert_eq|lia|].
  2: { rewrite length_replicate, length_app, written_length. cbn [length]. lia. }
  eexists. split; [done|]. cbn [counts]. rewrite insert_insert_eq. change (Z.to_nat 0) with 0%nat.
  apply state_new; try done; [apply fresh_block|]. apply splice_text; try lia. rewrite length_replicate. lia.
Qed.

Lemma assign_str_owned m b v t c : state m b v t -> sole m b -> fits (zlen c) ->
  exists p cap m1, assign_room alloc_ok b (zlen c) m = Some (MkBuffer (Some p) (zlen c) cap (refcount_ b), m1)
    /\ exists m2, store (Some p) 0 (written c ++ [Some NUL]) m1 = Some (tt, m2)
    /\ state m2 (MkBuffer (Some p) (zlen c) cap (refcount_ b)) c [NUL].
Proof.
  intros I (r & Hr & Hc) [_ Hf]. destruct (state_get _ _ _ _ I) as (p & r' & blk & Hp & Hr' & Hs & Hb & Hok & _).
  assert (r' = r) as -> by congruence. pose proof Hok as (H1 & H2 & H3 & _). unfold assign_room.
  rewrite Hp, Hr. rewrite (bool_decide_eq_false_2 (Some p = None)), orb_false_r by done.
  destruct (Z.ltb_spec (capacity_ b) (zlen c)) as [Hlt|Hge].
  - unfold mbind, M_bind, realloc. rewrite Hb. cbn [mbind option_bind].
    rewrite (u32_small (zlen c + 1)) by (unfold in_u32; lia).
    rewrite (proj2 (Z.eqb_neq (zlen c + 1) 0)) by lia. rewrite memory by lia. cbn [mbind option_bind mret M_ret].
    eexists _, _, _. split; [done|].
    assert (forall l : list (option byte), length (take (Z.to_nat (zlen c + 1)) (l ++ replicate (Z.to_nat (zlen c + 1)) None))
              = (length c + 1)%nat) as El
      by (intros; rewrite length_take, length_app, length_replicate; lia).
    erewrite store_run; cbn [blocks]; [|apply lookup_insert_eq|lia|].
    2: { rewrite El, length_app, written_length. cbn [length]. lia. }
    eexists. split; [done|]. rewrite insert_insert_eq. eapply (state_replace m b v t); try done; [right; apply fresh_block|].
    apply splice_text; rewrite ?El; lia.
  - eexists _, _, _. split; [done|].
    erewrite store_run; [|exact Hb|lia|rewrite length_app, written_length; cbn [length]; lia].
    eexists. split; [done|]. rewrite <- insert_delete_eq.
    eapply (state_replace m b v t); try done; [by left|]. apply splice_text; lia.
Qed.

Lemma assign_str_ok m b v t str : state m b v t -> fits (zlen (cstr str)) ->
  exists b' m', assign_str alloc_ok b str m = Some (b', m') /\ state m' b' (cstr str) [NUL].
Proof.
  intros I Hf. unfold assign_str, strlen. rewrite (u32_small (zlen (cstr str))) by (destruct Hf; unfold in_u32; lia).
  destruct (state_count _ _ _ _ I) as (r & n & Hr & Hn & Hpos).
  unfold mbind at 1, M_bind at 1. rewrite Hr, (get_count_run _ _ _ Hn). cbn [mbind option_bind].
  destruct (n >? 1) eqn:E; rewrite Z.gtb_ltb in E.
  - destruct (Free_ok _ _ _ _ I) as (m1 & E1 & I1 & Hsz). unfold mbind, M_bind. rewrite E1.
    cbn [mbind option_bind new_count mret M_ret data_ capacity_ refcount_].
    unfold assign_room at 1. cbn [data_ capacity_ refcount_]. rewrite orb_true_r. unfold mbind, M_bind.
    rewrite (u32_small (zlen (cstr str) + 1)) by (destruct Hf; unfold in_u32; lia).
    destruct (assign_str_fresh m1 _ (cstr str) I1 Hsz Hf (fresh_count m1)) as (p & m2 & E2 & m3 & E3 & I3).
    rewrite E2. cbn [mbind option_bind mret M_ret data_]. rewrite E3. by eexists _, _.
  - unfold mbind at 1, M_bind at 1. cbn [mret M_ret]. apply Z.ltb_ge in E. assert (n = 1) as -> by lia.
    destruct (assign_str_owned m b v t (cstr str) I) as (p & cap & m1 & E1 & m2 & E2 & I2); [by exists r|done|].
    unfold mbind, M_bind. cbn [mbind option_bind mret M_ret]. rewrite E1.
    cbn [mbind option_bind data_]. rewrite E2. by eexists _, _.
Qed.

Lemma assign_ok m b v t other bo vo : state m b v t -> h <> other -> B !! other = Some bo -> s !! other = Some vo ->
  exists m', assign b bo m = Some (bo, m') /\ state m' bo (fst vo) (snd vo).
Proof.
  intros I Hne HB Hs. destruct (Free_ok _ _ _ _ I) as (m1 & E1 & I1 & Hsz).
  unfold assign, mbind at 1, M_bind at 1. rewrite E1. cbn [mbind option_bind].
  assert (delete h B !! other = Some bo) as HB' by (by rewrite lookup_delete_ne).
  assert (delete h s !! other = Some vo) as Hs' by (by rewrite lookup_delete_ne).
  destruct vo as [vo tt']. destruct (inv_get' _ _ _ _ I1 HB') as (v1 & t1 & Hs1 & p & r & blk & Hp & Hr & _ & _ & _ & Hin).
  cbn in Hin. apply elem_of_dom in Hin as [n Hn]. unfold ShallowCopy, mbind, M_bind.
  rewrite Hr, (get_count_run _ _ _ Hn). cbn [mbind option_bind]. rewrite (set_count_run _ _ _ _ Hn).
  cbn [mbind option_bind mret M_ret]. eexists. split; [done|]. unfold state. cbn [fst snd].
  rewrite <- (insert_delete_eq B h), <- (insert_delete_eq s h).
  destruct (inv_count _ _ I1 r n Hn) as [Hc _]. cbn in Hc. pose proof (sharers_bound (delete h B) r).
  pose proof (size_bound _ _ I1) as Hsz'. cbn in Hsz'. rewrite u32_small by (unfold in_u32; lia).
  eapply (inv_join m1 (delete h B) (delete h s) h other bo); try done; apply lookup_delete_eq.
Qed.

Lemma ShallowCopy_ok m other bo vo : inv (World m B) s -> s !! h = None -> Z.of_nat (size s) + 1 < 2 ^ 32 ->
  B !! other = Some bo -> s !! other = Some vo ->
  exists m', ShallowCopy bo m = Some (bo, m') /\ state m' bo (fst vo) (snd vo).
Proof.
  intros I Hnone Hsz HB Hs. destruct (inv_get' _ _ _ _ I HB) as (v1 & t1 & Hs1 & p & r & blk & Hp & Hr & _ & _ & _ & Hin).
  cbn in Hin. apply elem_of_dom in Hin as [n Hn]. unfold ShallowCopy, mbind, M_bind.
  rewrite Hr, (get_count_run _ _ _ Hn). cbn [mbind option_bind]. rewrite (set_count_run _ _ _ _ Hn).
  cbn [mbind option_bind mret M_ret]. eexists. split; [done|]. unfold state. destruct vo as [vo tt']. cbn [fst snd].
  destruct (inv_count _ _ I r n Hn) as [Hc _]. cbn in Hc. pose proof (sharers_bound B r).
  pose proof (size_bound _ _ I) as Hsz'. cbn in Hsz'. rewrite u32_small by (unfold in_u32; lia).
  by eapply (inv_join m B s h other bo).
Qed.
End methods.

(** ** Printing *)

Lemma read_cstr_written (x : bytes) rest : read_cstr (written x ++ Some NUL :: rest) = Some (cstr x).
Proof.
  unfold written. induction x as [|c x IH]; cbn; [done|]. destruct (decide (c = NUL)); [done|].
  cbn in IH. by rewrite IH.
Qed.

Lemma cstr_take (t : bytes) n i : t !! i = Some NUL -> (i < n)%nat -> cstr (take n t) = cstr t.
Proof.
  revert n i. induction t as [|c t IH]; intros n i Hi Hn; [done|].
  destruct n as [|n]; [lia|]. cbn. destruct (decide (c = NUL)); [done|]. f_equal.
  destruct i as [|i]; [cbn in Hi; congruence|]. apply (IH n i); [done|lia].
Qed.

(** One round on a buffer of [n] bytes. *)
Lemma vsnprintf_last n text : (2 <= n)%nat ->
  let buf := vsnprintf (<[(n - 2)%nat := Some NUL]> (replicate n None)) text in
  exists c, buf !! (n - 2)%nat = Some (Some c)
    /\ (c <> NUL -> (n <= length text + 1)%nat) /\ (c = NUL -> read_cstr buf = Some (cstr text)).
Proof.
  intros Hn. unfold vsnprintf. rewrite length_insert, length_replicate.
  set (x := take (n - 1) text). assert (length x = (n - 1) `min` length text)%nat as Hx by apply length_take.
  rewrite <- app_assoc. cbn [app]. rewrite read_cstr_written.
  destruct (decide (length text < n - 1)%nat) as [Hlt|Hge].
  - exists NUL. assert (x = text) as -> by (apply take_ge; lia). split_and!; [|done|done].
    rewrite lookup_app_r; rewrite written_length; [|lia].
    destruct (n - 2 - length text)%nat as [|k] eqn:Ek; [done|].
    rewrite lookup_cons, lookup_drop, length_app, written_length. cbn [length].
    replace (length text + 1 + k)%nat with (n - 2)%nat by lia. apply list_lookup_insert_eq. rewrite length_replicate. lia.
  - destruct (lookup_lt_is_Some_2 text (n - 2)) as [c Hc]; [lia|]. exists c. split_and!; [|lia|].
    + rewrite lookup_app_l by (rewrite written_length; lia). unfold written. rewrite list_lookup_fmap.
      unfold x. rewrite lookup_take_lt by lia. by rewrite Hc.
    + intros ->. f_equal. apply (cstr_take _ _ (n - 2)); [done|lia].
Qed.

Section printing.
Variable alloc_ok : Z -> bool.
Hypothesis memory : forall n, 0 < n < 2 ^ 34 -> alloc_ok n = true.

Lemma print_loop_ok fuel buflen text :
  zlen text < 2 ^ 32 -> 16 <= buflen < 2 ^ 34 -> zlen text + 2 <= buflen * 2 ^ Z.of_nat fuel ->
  print_loop alloc_ok (S fuel) buflen text = Some (Some (cstr text)).
Proof.
  intros Ht. revert buflen. induction fuel as [|fuel IH]; intros n Hn Hf.
  all: cbn [print_loop]; rewrite memory by lia.
  all: replace (Z.to_nat (n - 2)) with (Z.to_nat n - 2)%nat by lia.
  all: destruct (vsnprintf_last (Z.to_nat n) text) as (c & Hc & H1 & H2); [lia|].
  all: rewrite Hc; cbn [mbind option_bind]; destruct (decide (c <> NUL)) as [Hne|Heq].
  - specialize (H1 Hne). cbn in Hf. lia.
  - destruct (decide (c = NUL)); [|done]. by rewrite H2.
  - specialize (H1 Hne). rewrite u64_small by (unfold in_u64; lia). apply IH; [lia|].
    replace (Z.of_nat (S fuel)) with (Z.of_nat fuel + 1) in Hf by lia. rewrite Z.pow_add_r in Hf by lia. lia.
  - destruct (decide (c = NUL)); [|done]. by rewrite H2.
Qed.

Lemma cstr_length_le (t : bytes) : (length (cstr t) <= length t)%nat.
Proof. induction t as [|c t IH]; cbn; [lia|]. destruct (decide (c = NUL)); cbn; lia. Qed.

Lemma append_vaprintf_ok B s h m b v t text : state B s h m b v t -> fits (zlen v + zlen text) ->
  exists b' m', append_vaprintf alloc_ok b text m = Some (b', m')
    /\ state B s h m' b' (fst (spec_append (cstr text) v t)) (snd (spec_append (cstr text) v t)).
Proof.
  intros I [_ Hf]. unfold append_vaprintf. rewrite (print_loop_ok 59) by (cbn; lia).
  destruct (append_ok alloc_ok memory B s h m b v t (cstr text) I) as (b' & m' & E & I').
  { pose proof (cstr_length_le text). unfold fits. lia. }
  unfold mbind, M_bind. rewrite E. by eexists _, _.
Qed.

(** [pop_front]: a second object appears while the first is modified. *)
Lemma pop_front_ok B s h m b v t n new : state B s h m b v t -> h <> new -> s !! new = None ->
  Z.of_nat (size (<[h := (v, t)]> s)) + 1 < 2 ^ 32 -> 0 <= n <= zlen v ->
  exists buf b' m', pop_front alloc_ok b n m = Some (Some buf, b', m')
    /\ inv (World m' (<[new := buf]> (<[h := b']> B))) (<[new := ([], take (Z.to_nat n) v ++ [NUL])]> (<[h := (drop (Z.to_nat n) v, ended t)]> s)).
Proof.
  intros I Hne Hnew Hsz Hn. destruct (state_get _ _ _ _ _ _ _ I) as (_ & _ & _ & _ & _ & Hs0 & _).
  unfold pop_front. rewrite Z.gtb_ltb, (proj2 (Z.ltb_ge (size_ b) n)) by lia.
  destruct (Clone_ok alloc_ok memory _ _ _ _ _ _ _ I) as (b1 & m1 & E1 & I1 & So1 & _).
  unfold mbind at 1, M_bind at 1. rewrite E1. cbn [mbind option_bind]. unfold state in I1.
  destruct (state_get _ _ _ _ _ _ _ I1) as (p1 & r1 & blk1 & Hp1 & Hr1 & Hs1 & Hb1 & Hok1 & _).
  pose proof Hok1 as (L1 & L2 & L3 & _).
  destruct (Buffer_size_ok alloc_ok memory (<[h := b1]> B) (<[h := (v, ended t)]> s) new m1 n I1)
    as (buf & m2 & E2 & I2 & (r & Hr & Hc) & Hcap & Hend & Hfresh).
  { by rewrite lookup_insert_ne. } { by rewrite <- insert_delete_eq, map_size_insert_None in Hsz |- * by apply lookup_delete_eq. } { unfold fits. lia. }
  unfold mbind at 1, M_bind at 1. rewrite E2. cbn [mbind option_bind].
  destruct (inv_obj _ _ I2 h b1 v (ended t)) as (p & r' & blk & Hp & Hr' & Hs & Hb & Hok & _); cbn.
  { by rewrite lookup_insert_ne, lookup_insert_eq by done. } { by rewrite lookup_insert_ne, lookup_insert_eq by done. }
  pose proof Hok as (H1 & H2 & H3 & H4 & _). unfold mbind at 1, M_bind at 1. rewrite Hp. erewrite load_run by (done || lia).
  cbn [mbind option_bind]. rewrite drop_0.
  destruct (state_get _ _ _ _ _ _ _ I2) as (q & r2 & blk2 & Hq & Hr2 & Hs2 & Hb2 & Hok2 & _).
  assert (r2 = r) as -> by congruence. pose proof Hok2 as (K1 & K2 & K3 & K4 & K5).
  assert (length (take (Z.to_nat n) blk) = Z.to_nat n) as El by (rewrite length_take; lia).
  unfold mbind at 1, M_bind at 1. rewrite Hq. erewrite store_run by (done || lia). cbn [mbind option_bind].
  assert (take (Z.to_nat n) blk = written (take (Z.to_nat n) v)) as Et.
  { unfold written. rewrite fmap_take. change (Some <$> v) with (written v). rewrite <- H4, take_take. f_equal. lia. }
  assert (state (<[h := b1]> B) (<[h := (v, ended t)]> s) new
            (Mem (<[q := splice 0 (take (Z.to_nat n) blk) blk2]> (blocks m2)) (counts m2)) buf [] (take (Z.to_nat n) v ++ [NUL])) as I3.
  { rewrite <- (insert_delete_eq (blocks m2) q).
    assert (buf = MkBuffer (Some q) (zlen (@nil byte)) (capacity_ buf) (Some r)) as Eb
      by (destruct buf; cbn in *; congruence).
    rewrite Eb. eapply (state_replace _ _ _ m2 buf []); [exact I2|done..|by left|].
    repeat split; cbn [length]; try lia.
    - rewrite splice_length; lia.
    - unfold known. rewrite drop_0. unfold splice. rewrite take_0, app_nil_l, Nat.add_0_l, length_app, length_take. cbn [length].
      replace (Z.to_nat n `min` length v + 1)%nat with (S (Z.to_nat n)) by lia. rewrite El, Et, written_app.
      rewrite (drop_S _ _ _ (Hend _ _ Hq Hb2)), cons_middle, app_assoc. apply take_app_length'. rewrite length_app, !written_length, length_take. cbn [length]. lia. }
  unfold state in I3. rewrite (insert_insert_ne B) in I3 by done. rewrite (insert_insert_ne s) in I3 by done.
  destruct (shift_ok alloc_ok memory (<[new := buf]> B) (<[new := ([], take (Z.to_nat n) v ++ [NUL])]> s) h _ b1 v (ended t) n I3) as (b' & m' & E4 & I4).
  { destruct So1 as (r0 & Hr0 & Hc0). assert (r0 = r') as -> by congruence. exists r'. split; [done|]. cbn.
    pose proof (inv_obj _ _ I3 h b1 v (ended t) (lookup_insert_eq _ _ _) (lookup_insert_eq _ _ _)) as (_ & r3 & _ & _ & Hr3 & _ & _ & _ & Hin).
    cbn in Hin. assert (r3 = r') as -> by congruence. apply elem_of_dom in Hin as [k Hk].
    destruct (inv_count _ _ I3 r' k Hk) as [-> _]. destruct (inv_count _ _ I1 r' 1 Hc0) as [Hone _].
    cbn in Hone, Hk |- *. rewrite Hk. f_equal. rewrite Hone.
    rewrite (insert_insert_ne B) by done. rewrite sharers_insert, decide_False; [done| |].
    - intros Hsame. rewrite Hsame in Hr2.
      pose proof (inv_share _ _ I2 h new b1 buf) as Hsh. cbn in Hsh.
      rewrite lookup_insert_ne, !lookup_insert_eq in Hsh by done. specialize (Hsh eq_refl eq_refl).
      assert (data_ b1 = data_ buf) as Hd by (apply Hsh; congruence).
      apply (Hfresh p1 blk1); congruence.
    - apply (inv_no_object _ _ new I1). by rewrite lookup_insert_ne. }
  { done. }
  unfold mbind, M_bind. change (Z.to_nat 0) with 0%nat. rewrite E4. eexists _, _, _. split; [done|].
  unfold state in I4. rewrite (insert_insert_ne B), (insert_insert_ne s) by done. rewrite ended_twice in I4. exact I4.
Qed.
End printing.

(** ** Objects behave like values *)

Section refinement.
Variable alloc_ok : Z -> bool.
Hypothesis memory : forall n, 0 < n < 2 ^ 34 -> alloc_ok n = true.

Lemma state_of_inv w s h b v t : inv w s -> objs w !! h = Some b -> s !! h = Some (v, t) ->
  state (objs w) s h (heap w) b v t.
Proof.
  intros I Hb Hs. unfold state. rewrite (insert_id (objs w)), (insert_id s) by done. by destruct w.
Qed.

Lemma update_ok w s h v t v' t' f : inv w s -> s !! h = Some (v, t) ->
  (forall b, state (objs w) s h (heap w) b v t -> objs w !! h = Some b ->
    exists b' m', f b (heap w) = Some (b', m') /\ state (objs w) s h m' b' v' t') ->
  exists w', update h f w = Some (0, w') /\ inv w' (<[h := (v', t')]> s).
Proof.
  intros I Hs Hf. destruct (inv_get _ _ _ _ _ I Hs) as (b & Hb & _).
  destruct (Hf b (state_of_inv _ _ _ _ _ _ I Hb Hs) Hb) as (b' & m' & E & I').
  unfold update, call, mbind, M_bind. rewrite Hb. cbn [mbind option_bind]. rewrite E. by eexists.
Qed.

Lemma call_ok {A} w s h v t v' t' (f : Buffer -> M (A * Buffer)) (out : A -> Z) x : inv w s -> s !! h = Some (v, t) ->
  (forall b, state (objs w) s h (heap w) b v t -> objs w !! h = Some b ->
    exists b' m', f b (heap w) = Some (x, b', m') /\ state (objs w) s h m' b' v' t') ->
  exists w', call h f out w = Some (out x, w') /\ inv w' (<[h := (v', t')]> s).
Proof.
  intros I Hs Hf. destruct (inv_get _ _ _ _ _ I Hs) as (b & Hb & _).
  destruct (Hf b (state_of_inv _ _ _ _ _ _ I Hb Hs) Hb) as (b' & m' & E & I').
  unfold call. rewrite Hb. cbn [mbind option_bind]. rewrite E. by eexists.
Qed.

Lemma construct_ok w s h v t c :
  (exists b m', c (heap w) = Some (b, m') /\ state (objs w) s h m' b v t) ->
  exists w', construct h c w = Some (0, w') /\ inv w' (<[h := (v, t)]> s).
Proof. intros (b & m' & E & I). unfold construct. rewrite E. by eexists. Qed.

Lemma owner_sole w h b : owner w h -> objs w !! h = Some b -> sole (heap w) b.
Proof. intros (b' & r & Hb' & Hr & Hc) Hb. exists r. split; congruence. Qed.

Lemma set_size_ok B s h m b v t n : state B s h m b v t -> 0 <= n <= zlen v + Z.max 0 (zlen t - 1) ->
  state B s h m (set_size b n) (take (Z.to_nat n) (v ++ t)) (drop (Z.to_nat n) (v ++ t)).
Proof.
  intros I Hn. eapply state_revalue; [exact I|done|done|].
  destruct (state_get _ _ _ _ _ _ _ I) as (p & r & blk & Hp & Hr & Hs & Hb & (H1 & H2 & H3 & H4 & H5) & Hin).
  exists p, r, blk. assert (take (length (v ++ t)) blk = written (v ++ t)) as Hall.
  { rewrite length_app, written_app, <- H4, <- H5, <- take_take_drop. done. }
  assert (length (take (Z.to_nat n) (v ++ t)) = Z.to_nat n) as El by (rewrite length_take, length_app; lia).
  assert (length (written (v ++ t)) <= length blk)%nat as Hl by (rewrite <- Hall, length_take; lia). rewrite written_length, length_app in Hl.
  split_and!; try done; [cbn; lia|]. split_and!; try done.
  - cbn. destruct t as [|c t]; cbn [length] in *; lia.
  - rewrite El. unfold written. rewrite fmap_take. change (Some <$> v ++ t) with (written (v ++ t)). rewrite <- Hall, take_take. f_equal.
    rewrite length_app. lia.
  - unfold known. rewrite El, length_drop. unfold written. rewrite fmap_drop. change (Some <$> v ++ t) with (written (v ++ t)).
    rewrite <- Hall. rewrite take_drop_commute. do 2 f_equal. rewrite length_app. lia.
Qed.

Lemma on_value_eq h f (s : values) v t : s !! h = Some (v, t) -> on_value h f s = <[h := f v t]> s.
Proof. intros Hs. unfold on_value. by rewrite Hs. Qed.

Lemma pop_front_step w s h v t n new : inv w s -> s !! h = Some (v, t) -> s !! new = None ->
  Z.of_nat (size s) + 1 < 2 ^ 32 -> 0 <= n ->
  exists w', step alloc_ok (OPopFront h n new) w = Some (fst (spec_step (OPopFront h n new) s), w')
    /\ inv w' (snd (spec_step (OPopFront h n new) s)).
Proof.
  intros I Hs Hnew Hsz Hn. destruct (inv_get _ _ _ _ _ I Hs) as (b & Hb & Hh).
  pose proof (state_of_inv _ _ _ _ _ _ I Hb Hs) as I1.
  destruct Hh as (_ & _ & _ & _ & _ & Hsize & _).
  cbn [step spec_step]. rewrite Hs, Hb, (on_value_eq _ _ _ _ _ Hs). cbn [mbind option_bind].
  destruct (n >? zlen v) eqn:E; rewrite Z.gtb_ltb in E; bool_to_prop.
  - unfold pop_front. rewrite Z.gtb_ltb, (proj2 (Z.ltb_lt _ _)) by lia. cbn. rewrite insert_id by done.
    eexists. split; [done|]. by destruct w.
  - destruct (pop_front_ok alloc_ok memory _ _ _ _ _ _ _ n new I1) as (buf & b' & m' & E' & I'); try done; try congruence.
    { rewrite insert_id by done. done. }
    rewrite E'. by eexists.
Qed.

Lemma destroy_step w s h : inv w s -> is_Some (s !! h) ->
  exists w', step alloc_ok (ODestroy h) w = Some (0, w') /\ inv w' (delete h s).
Proof.
  intros I [[v t] Hs]. destruct (inv_get _ _ _ _ _ I Hs) as (b & Hb & _).
  destruct (Free_ok _ _ _ _ _ _ _ (state_of_inv _ _ _ _ _ _ I Hb Hs)) as (m' & E & I' & _).
  cbn [step]. rewrite Hb. cbn [mbind option_bind]. rewrite E. by eexists.
Qed.

Lemma step_ok o w s : inv w s -> allowed o w s ->
  exists w', step alloc_ok o w = Some (fst (spec_step o s), w') /\ inv w' (snd (spec_step o s)).
Proof.
  intros I Ha.
  destruct o as [h data|h n|h str|h other|h|h other|h str|h n|h n new|h|h data|h text|h n|h n|h n]; cbn [allowed step spec_step fst snd] in *.
  - destruct Ha as [[Hn Hsz] Hf]. apply construct_ok. destruct w. by apply Buffer_data_ok.
  - destruct Ha as [[Hn Hsz] Hf]. apply construct_ok. destruct w as [m B].
    destruct (Buffer_size_ok alloc_ok memory B s h m n I Hn Hsz Hf) as (b & m' & E & I' & _). by exists b, m'.
  - destruct Ha as [[Hn Hsz] Hf]. apply construct_ok. destruct w. by apply Buffer_str_ok.
  - destruct Ha as [[Hn Hsz] [[v t] Ho]]. rewrite Ho. destruct (inv_get _ _ _ _ _ I Ho) as (b & Hb & _).
    rewrite Hb. cbn [mbind option_bind]. apply construct_ok. destruct w as [m B].
    destruct (ShallowCopy_ok B s h m other b (v, t) I Hn Hsz Hb Ho) as (m' & E & I'). by exists b, m'.
  - by apply destroy_step.
  - destruct Ha as (Hne & [[v t] Hs] & [[v' t'] Ho]). rewrite decide_False, Ho by done. destruct (inv_get _ _ _ _ _ I Ho) as (b & Hb & _).
    rewrite Hb. cbn [mbind option_bind]. apply (update_ok w s h v t); [done..|]. intros b0 I0 _.
    destruct (assign_ok (objs w) s h (heap w) b0 v t other b (v', t') I0 Hne Hb Ho) as (m' & E & I'). by exists b, m'.
  - destruct Ha as [[[v t] Hs] Hf]. apply (update_ok w s h v t); [done..|]. intros b0 I0 _. by eapply assign_str_ok.
  - destruct Ha as (v & t & Hs & Hn). rewrite (on_value_eq _ _ _ _ _ Hs). apply (update_ok w s h v t); [done..|].
    intros b0 I0 _. by apply remove_front_ok.
  - destruct Ha as [[Hn Hsz] (v & t & Hs & Hp)]. by eapply pop_front_step.
  - destruct Ha as [[v t] Hs]. apply (update_ok w s h v t); [done..|]. intros b0 I0 _. by eapply clear_ok.
  - destruct Ha as (v & t & Hs & Hf). rewrite (on_value_eq _ _ _ _ _ Hs). destruct (spec_append data v t) as [v' t'] eqn:E.
    apply (call_ok w s h v t v' t' _ Z.b2z true); [done..|]. intros b0 I0 _.
    destruct (append_ok alloc_ok memory _ _ _ _ _ _ _ data I0 Hf) as (b' & m' & E' & I'). rewrite E in I'. by exists b', m'.
  - destruct Ha as (v & t & Hs & Hf). rewrite (on_value_eq _ _ _ _ _ Hs).
    destruct (spec_append (cstr text) v t) as [v' t'] eqn:E.
    apply (update_ok w s h v t); [done..|]. intros b0 I0 _.
    destruct (append_vaprintf_ok alloc_ok memory _ _ _ _ _ _ _ text I0 Hf) as (b' & m' & E' & I'). rewrite E in I'. by exists b', m'.
  - destruct Ha as (Ho & [[v t] Hs] & Hf). rewrite (on_value_eq _ _ _ _ _ Hs).
    apply (call_ok w s h v t v (ended t) _ Z.b2z true); [done..|]. intros b0 I0 Hb.
    destruct (reserve_ok alloc_ok memory _ _ _ _ _ _ _ n I0 (owner_sole _ _ _ Ho Hb) Hf) as (b' & m' & E & I' & _).
    by exists b', m'.
  - destruct Ha as (Ho & (v & t & Hs & Hn) & Hf). rewrite (on_value_eq _ _ _ _ _ Hs).
    apply (call_ok w s h v t v (ended t) _ (fun z => z) n); [done..|]. intros b0 I0 Hb.
    destruct (resize_ok alloc_ok _ _ _ _ _ _ _ n ltac:(apply memory; destruct Hf; lia) I0 (owner_sole _ _ _ Ho Hb) Hn Hf) as (b' & m' & E & I' & _).
    by exists b', m'.
  - destruct Ha as (v & t & Hs & Hn). rewrite (on_value_eq _ _ _ _ _ Hs). apply (update_ok w s h v t); [done..|].
    intros b0 I0 _. eexists _, _. split; [done|]. by apply set_size_ok.
Qed.
End refinement.

(** *** Runs *)

Definition no_objects : world := World (Mem ∅ ∅) ∅.

Lemma inv_empty : inv no_objects ∅.
Proof.
  split; cbn; try done.
Qed.

Fixpoint run (alloc_ok : Z -> bool) (os : list op) (w : world) : option (list Z * world) :=
  match os with
  | [] => Some ([], w)
  | o :: os => '(x, w) ← step alloc_ok o w; '(xs, w) ← run alloc_ok os w; Some (x :: xs, w)
  end.

Fixpoint spec_run (os : list op) (s : values) : list Z * values :=
  match os with
  | [] => ([], s)
  | o :: os => let '(x, s) := spec_step o s in let '(xs, s) := spec_run os s in (x :: xs, s)
  end.

(** Each operation is allowed where it runs. *)
Fixpoint all_allowed (alloc_ok : Z -> bool) (os : list op) (w : world) (s : values) : Prop :=
  match os with
  | [] => True
  | o :: os => allowed o w s /\
      match step alloc_ok o w with
      | Some (_, w') => all_allowed alloc_ok os w' (snd (spec_step o s))
      | None => True
      end
  end.

Lemma run_ok alloc_ok os w s : (forall n, 0 < n < 2 ^ 34 -> alloc_ok n = true) ->
  inv w s -> all_allowed alloc_ok os w s ->
  exists w', run alloc_ok os w = Some (fst (spec_run os s), w') /\ inv w' (snd (spec_run os s)).
Proof.
  intros Hmem. revert w s. induction os as [|o os IH]; intros w s I Ha; [by exists w|].
  destruct Ha as [Ha Hrest]. destruct (step_ok alloc_ok Hmem o w s I Ha) as (w1 & E1 & I1).
  rewrite E1 in Hrest. destruct (IH _ _ I1 Hrest) as (w2 & E2 & I2). cbn [run spec_run]. rewrite E1.
  destruct (spec_step o s) as [x s1]. cbn [fst snd mbind option_bind] in *. rewrite E2.
  destruct (spec_run os s1) as [xs s2]. by exists w2.
Qed.

Lemma read_value w s h b v t : inv w s -> objs w !! h = Some b -> s !! h = Some (v, t) ->
  contents b (heap w) = Some (v, heap w)
  /\ size_ b = zlen v /\ load (data_ b) 0 (zlen (v ++ t)) (heap w) = Some (written (v ++ t), heap w).
Proof.
  intros I Hb Hs. destruct (inv_obj _ _ I h b v t Hb Hs) as (p & r & blk & Hp & Hr & Hz & Hblk & (H1 & H2 & H3 & H4 & H5) & _).
  unfold contents, mbind at 1, M_bind at 1. rewrite Hp, Hz. split_and!; [|done|].
  - erewrite load_run by (done || lia). cbn [mbind option_bind]. rewrite drop_0, Nat2Z.id, H4.
    assert (mapM (fun x => x) (written v) = Some v) as ->; [|done].
    clear. unfold written. induction v as [|c v IH]; [done|]. cbn in *. by rewrite IH.
  - assert (take (length (v ++ t)) blk = written (v ++ t)) as Hall.
    { rewrite length_app, written_app, <- H4, <- H5, <- take_take_drop. done. }
    assert (length (written (v ++ t)) <= length blk)%nat by (rewrite <- Hall, length_take; lia). rewrite written_length in *.
    erewrite load_run by (done || lia). by rewrite drop_0, Nat2Z.id, Hall.
Qed.

Lemma inv_nothing_lost w : inv w ∅ -> heap w = Mem ∅ ∅.
Proof.
  intros I. assert (forall h b, objs w !! h = Some b -> False) as Hno.
  { intros h b Hb. destruct (inv_get' _ _ _ _ I Hb) as (v & t & Hs & _). by rewrite lookup_empty in Hs. }
  destruct w as [[bl co] B]. cbn in *. f_equal.
  - apply map_eq. intros p. rewrite lookup_empty. destruct (bl !! p) eqn:E; [|done].
    destruct (inv_block _ _ I p) as (h & b & Hb & _); [by apply elem_of_dom_2 in E|]. by destruct (Hno _ _ Hb).
  - apply map_eq. intros r. rewrite lookup_empty. destruct (co !! r) eqn:E; [|done].
    destruct (inv_count _ _ I r _ E) as [-> Hpos]. cbn in Hpos.
    rewrite sharers_none in Hpos; [lia|]. intros h b Hb _. by destruct (Hno _ _ Hb).
Qed.

(** C29. Reference-counted, copy-on-write buffers behave as independent byte strings: if memory
    can be had (up to 2^34 bytes at a time), any sequence of constructions, copies, assignments,
    appends, removals and destructions gives on the heap the results the sequence gives on plain
    byte strings, and in the end each object has the size and the bytes of its string, and behind
    them the bytes that data() shows as well: the terminator where the code relies on it, and the
    text that pop_front took off, whose buffer has size 0. No freed memory is touched, and nothing
    is leaked once every buffer is destroyed. The operations are used within the class's bounds: an
    object is not assigned to itself, reserve and resize are called by the only owner and do not cut
    off bytes, set_size stays before the last known byte, fronts are not longer than the string, and
    lengths fit in 32 bits. *)
Theorem buffers_independent alloc_ok os : (forall n, 0 < n < 2 ^ 34 -> alloc_ok n = true) ->
  all_allowed alloc_ok os no_objects ∅ ->
  exists w', run alloc_ok os no_objects = Some (fst (spec_run os ∅), w')
    /\ dom (objs w') = dom (snd (spec_run os ∅))
    /\ (forall h b v t, objs w' !! h = Some b -> snd (spec_run os ∅) !! h = Some (v, t) ->
          contents b (heap w') = Some (v, heap w')
          /\ size_ b = zlen v /\ load (data_ b) 0 (zlen (v ++ t)) (heap w') = Some (written (v ++ t), heap w'))
    /\ (snd (spec_run os ∅) = ∅ -> heap w' = Mem ∅ ∅).
Proof.
  intros Hmem Ha. destruct (run_ok _ _ _ _ Hmem inv_empty Ha) as (w' & E & I). exists w'. split; [done|].
  split; [apply (inv_dom _ _ I)|]. split; [intros; by eapply read_value|].
  intros E0. rewrite E0 in I. by apply inv_nothing_lost.
Qed.

(** Appending to a buffer that owns its data either appends all the bytes or, when the
    memory cannot be had, returns false and leaves the buffer and the heap as they were. *)
Theorem append_or_unchanged alloc_ok w s h b v t d :
  inv w s -> s !! h = Some (v, t) -> objs w !! h = Some b -> owner w h -> fits (zlen v + zlen d) ->
  exists ok b' m', append alloc_ok b d (heap w) = Some (ok, b', m')
    /\ if ok : bool
       then inv (World m' (<[h := b']> (objs w))) (<[h := spec_append d v t]> s)
       else b' = b /\ m' = heap w.
Proof.
  intros I Hs Hb Ho Hf. destruct (append_any alloc_ok _ _ _ _ _ _ _ d (state_of_inv _ _ _ _ _ _ I Hb Hs)
    (owner_sole _ _ _ Ho Hb) Hf) as (ok & b' & m' & E & H). exists ok, b', m'. split; [done|].
  destruct ok; [|done]. unfold state in H. by rewrite <- surjective_pairing in H.
Qed.

(** *** Comparison and hashing *)

Fixpoint lex_lt (a b : bytes) : bool :=
  match a, b with
  | x :: a, y :: b => (uchar x <? uchar y) || ((uchar x =? uchar y) && lex_lt a b)
  | [], _ :: _ => true
  | _, [] => false
  end.

Lemma memcmp_eq a b : length a = length b -> (memcmp a b =? 0) = bool_decide (a = b).
Proof.
  revert b. induction a as [|x a IH]; intros [|y b] Hl; try done. cbn [memcmp].
  destruct (Z.eqb_spec (uchar x) (uchar y)) as [E|E].
  - apply uchar_inj in E as ->. rewrite IH by (cbn in Hl; lia). apply bool_decide_ext. naive_solver.
  - rewrite bool_decide_eq_false_2 by congruence. lia.
Qed.

Lemma memcmp_lt a b :
  (if negb (memcmp a b =? 0) then memcmp a b <? 0 else zlen a <? zlen b) = lex_lt a b.
Proof.
  revert b. induction a as [|x a IH]; intros [|y b]; cbn [memcmp lex_lt]; try reflexivity.
  - rewrite <- IH. destruct (Z.eqb_spec (uchar x) (uchar y)) as [->|E].
    + rewrite Z.ltb_irrefl. cbn [orb andb length].
      destruct (memcmp a b =? 0); cbn [negb]; [|done]. apply Bool.eq_iff_eq_true. rewrite !Z.ltb_lt. lia.
    + rewrite andb_false_l, orb_false_r. rewrite (proj2 (Z.eqb_neq _ 0)) by lia. cbn [negb].
      apply Bool.eq_iff_eq_true. rewrite !Z.ltb_lt. lia.
Qed.

(** Equality and order of buffers are equality and lexicographic order of their contents,
    and the hash of a buffer is that of an sds with the same bytes, for contents below 2^31 bytes.
    *)
Theorem buffer_comparisons w s h1 h2 b1 b2 v1 v2 t1 t2 : inv w s ->
  objs w !! h1 = Some b1 -> objs w !! h2 = Some b2 -> s !! h1 = Some (v1, t1) -> s !! h2 = Some (v2, t2) ->
  Buffer_eq b1 b2 (heap w) = Some (bool_decide (v1 = v2), heap w)
  /\ Buffer_lt b1 b2 (heap w) = Some (lex_lt v1 v2, heap w)
  /\ (zlen v1 < 2 ^ 31 -> hash b1 (heap w) = Some (SdsHasher v1, heap w)).
Proof.
  intros I H1 H2 S1 S2. destruct (read_value _ _ _ _ _ _ I H1 S1) as [E1 _], (read_value _ _ _ _ _ _ I H2 S2) as [E2 _].
  destruct (inv_obj _ _ I _ _ _ _ H1 S1) as (_ & _ & _ & _ & _ & Z1 & _).
  destruct (inv_obj _ _ I _ _ _ _ H2 S2) as (_ & _ & _ & _ & _ & Z2 & _).
  unfold Buffer_eq, Buffer_lt, hash, mbind, M_bind. rewrite Z1, Z2. split_and!.
  - destruct (Z.eqb_spec (zlen v1) (zlen v2)) as [E|E].
    + rewrite E1. cbn [mbind option_bind]. rewrite E2. cbn [mbind option_bind mret M_ret].
      by rewrite memcmp_eq by lia.
    + rewrite bool_decide_eq_false_2 by congruence. done.
  - rewrite E1. cbn [mbind option_bind]. rewrite E2. cbn [mbind option_bind]. rewrite <- memcmp_lt.
    by destruct (negb _).
  - intros Hl. rewrite E1. cbn [mbind option_bind mret M_ret].
    rewrite i32_small by (unfold in_i32; lia). by rewrite Nat2Z.id, take_ge by lia.
Qed.

(** ** The theorems at concrete inputs *)

Definition always (n : Z) : bool := true.

(** Two objects share a text until the second is appended to and the first
    loses its front; then both are destroyed. *)
Definition demo_ops : list op :=
  let a := 1%positive in let b := 2%positive in
  [OData a (bs "ab"); OCopy b a; OAppend b (bs "c"); ORemoveFront a 1; OPrintf b (bs "0123456789abcdef");
   ODestroy a; ODestroy b].

Ltac run_op :=
  match goal with
  | |- all_allowed ?al (?o :: ?os) ?w ?s =>
      change (allowed o w s /\ match step al o w with
                               | Some (_, w') => all_allowed al os w' (snd (spec_step o s))
                               | None => True
                               end);
      let r := eval vm_compute in (step al o w) in
      let s' := eval vm_compute in (snd (spec_step o s)) in
      split; [|change (step al o w) with r; change (snd (spec_step o s)) with s'; cbv beta iota]
  end.

Lemma buffers_independent_witness :
  exists w', run always demo_ops no_objects = Some (fst (spec_run demo_ops ∅), w')
    /\ fst (spec_run demo_ops ∅) = [0; 0; 1; 0; 0; 0; 0] /\ heap w' = Mem ∅ ∅.
Proof.
  destruct (buffers_independent always demo_ops) as (w' & E & _ & _ & H).
  - done.
  - unfold demo_ops. cbv zeta.
    run_op; [by vm_compute|].
    run_op; [split; [by vm_compute|by eexists]|].
    run_op; [eexists _, _; split; [reflexivity|by vm_compute]|].
    run_op; [eexists _, _; split; [reflexivity|by vm_compute]|].
    run_op; [eexists _, _; split; [reflexivity|by vm_compute]|].
    run_op; [by eexists|]. run_op; [by eexists|]. exact I.
  - exists w'. split; [done|]. split; [by vm_compute|]. apply H. by vm_compute.
Defined.

(** Assigning an object to itself is undefined, whoever shares its storage. *)
Lemma self_assignment al h w : step al (OAssign h h) w = None.
Proof.
  cbn [step]. rewrite decide_True by done. unfold update, call. destruct (objs w !! h) as [b|]; [|done]. cbn [mbind option_bind].
  unfold assign_self, mbind, M_bind, Free, mbind, M_bind. destruct (get_count (refcount_ b) (heap w)) as [[n m]|]; [|done]. cbn [mbind option_bind].
  destruct (set_count (refcount_ b) (n - 1) m) as [[[] m1]|]; [|done]. cbn [mbind option_bind].
  destruct (get_count (refcount_ b) m1) as [[k m2]|]; [|done]. cbn [mbind option_bind].
  by destruct (if k =? 0 then _ else _) as [[[] m3]|].
Qed.

(** [pop_front] and then [set_size]: the text that was taken off. *)
Definition popped_ops : list op := let a := 1%positive in let b := 2%positive in [OStr a (bs "abc def"); OPopFront a 4 b; OSetSize b 4].
Example popped : spec_run (take 2 popped_ops) ∅ = ([0; 1], {[1%positive := (bs "def", [NUL]); 2%positive := ([], bs "abc " ++ [NUL])]})
  /\ snd (spec_run popped_ops ∅) !! 2%positive = Some (bs "abc ", [NUL]).
Proof. split; [vm_compute; reflexivity|vm_compute; reflexivity]. Qed.

(** [resize] of a buffer that is shared frees the bytes of the other. *)
Example resize_shared : let a := 1%positive in let b := 2%positive in
  run always [OStr a (bs "ab"); OCopy b a; OResize a 10; OAppend b (bs "c")] no_objects = None.
Proof. vm_compute. reflexivity. Qed.

(** An object with the text [ab] in a block of its own, and an allocator that
    has no block of more than 3 bytes. *)
Definition one_buffer : mem := Mem {[1%positive := written (bs "ab") ++ [Some NUL]]} {[1%positive := 1]}.
Definition one_object : Buffer := MkBuffer (Some 1%positive) 2 2 (Some 1%positive).
Definition one_world : world := World one_buffer {[1%positive := one_object]}.
Definition one_value : values := {[1%positive := (bs "ab", [NUL])]}.
Definition tight (n : Z) : bool := n <=? 3.

Lemma one_world_inv : inv one_world one_value.
Proof.
  split; cbn.
  - by vm_compute.
  - by vm_compute.
  - intros h b v t [<- <-]%lookup_singleton_Some Hs. injection Hs as <- <-.
    eexists 1%positive, 1%positive, _. split_and!; try done.
  - intros h1 h2 b1 b2 [_ <-]%lookup_singleton_Some [_ <-]%lookup_singleton_Some. done.
  - intros r n [<- <-]%lookup_singleton_Some. by vm_compute.
  - intros p Hp. exists 1%positive, one_object. rewrite dom_singleton, elem_of_singleton in Hp. by subst.
Qed.

Lemma append_or_unchanged_witness :
  append tight one_object (bs "c") one_buffer = Some (false, one_object, one_buffer).
Proof.
  destruct (append_or_unchanged tight one_world one_value 1%positive one_object (bs "ab") [NUL] (bs "c")) as (ok & b' & m' & E & H).
  - exact one_world_inv.
  - done.
  - done.
  - by eexists _, _.
  - by vm_compute.
  - change (heap one_world) with one_buffer in E. rewrite E. destruct ok; [|by destruct H as [-> ->]].
    assert (append tight one_object (bs "c") one_buffer = Some (false, one_object, one_buffer)) as E' by by vm_compute.
    congruence.
Defined.

Lemma buffer_comparisons_witness :
  Buffer_eq one_object one_object one_buffer = Some (true, one_buffer)
  /\ Buffer_lt one_object one_object one_buffer = Some (false, one_buffer)
  /\ hash one_object one_buffer = Some (5863208, one_buffer).
Proof.
  destruct (buffer_comparisons one_world one_value 1%positive 1%positive one_object one_object (bs "ab") (bs "ab") [NUL] [NUL] one_world_inv)
    as (E1 & E2 & E3); [done..|].
  split; [exact E1|]. split; [exact E2|]. exact (E3 eq_refl).
Defined.
