(* ===== verification/Files.v ===== *)
(** * filesystem.cc: names, directories and files

    The operating system's file system is an interface, [FileSystem], with the
    behaviour the code relies on as laws; the names the code computes, the
    directories it makes, its [File] objects and the search for the oldest
    file are translated. *)

From S2P Require Import Prelude Util.

(** ** The operating system *)

(** [fs_stat] tells whether a path exists and is a directory; [fs_append] is
    what the descriptor of a file opened for appending accepts (the bytes that
    stdio still holds are counted as written). *)
Class FileSystem (FS : Type) := {
  fs_stat : FS -> bytes -> option bool;
  fs_mkdir : FS -> bytes -> option FS;
  fs_open_append : FS -> bytes -> option FS;
  fs_append : FS -> bytes -> bytes -> FS;
  fs_read : FS -> bytes -> option bytes;
  fs_readdir : FS -> bytes -> option (list bytes);
  fs_ctime : FS -> bytes -> option Z;
  fs_unlink : FS -> bytes -> FS;
}.

(** A file that is opened for appending exists and keeps what it has; an
    append adds to one file; a new directory leaves what is there; a listing
    has every file once. *)
Class FileSystemLaws (FS : Type) {fso : FileSystem FS} := {
  mkdir_stat : forall fs fs' p, fs_mkdir fs p = Some fs' ->
    fs_stat fs' p = Some true /\ forall q, fs_stat fs q = Some true -> fs_stat fs' q = Some true;
  mkdir_read : forall fs fs' p q, fs_mkdir fs p = Some fs' -> fs_read fs' q = fs_read fs q;
  open_read : forall fs fs' f, fs_open_append fs f = Some fs' ->
    fs_read fs' f = Some (default [] (fs_read fs f)) /\ forall g, g <> f -> fs_read fs' g = fs_read fs g;
  append_read : forall fs f d c, fs_read fs f = Some c ->
    fs_read (fs_append fs f d) f = Some (c ++ d) /\ forall g, g <> f -> fs_read (fs_append fs f d) g = fs_read fs g;
  unlink_read : forall fs f,
    fs_read (fs_unlink fs f) f = None /\ forall g, g <> f -> fs_read (fs_unlink fs f) g = fs_read fs g;
  readdir_files : forall fs p l, fs_readdir fs p = Some l ->
    NoDup l /\ forall n, "/"%char ∉ n -> is_Some (fs_read fs (p ++ n)) -> n ∈ l;
}.

(** ** Names *)

(** The part of [std::string] the code uses: [find], [substr] and
    [replace(pos, n, text)]. *)
Fixpoint prefix_of (p s : bytes) : bool :=
  match p, s with
  | [], _ => true
  | x :: p, y :: s => bool_decide (x = y) && prefix_of p s
  | _, [] => false
  end.

Fixpoint find (s p : bytes) : option nat :=
  if prefix_of p s then Some 0%nat
  else match s with [] => None | _ :: s => S <$> find s p end.

Definition replace (s : bytes) (pos n : nat) (text : bytes) : bytes := take pos s ++ text ++ drop (pos + n) s.

(** The fields of [struct tm]. *)
Record tm := Tm { tm_year : Z; tm_mon : Z; tm_mday : Z; tm_hour : Z; tm_min : Z; tm_sec : Z }.

(** [%0<w>d] of a non-negative number. *)
Definition pad (w : nat) (n : Z) : bytes :=
  let t := ll_text n in replicate (w - length t) "0"%char ++ t.

Definition date_text (t : tm) : bytes :=
  pad 4 (1900 + tm_year t) ++ bs "-" ++ pad 2 (tm_mon t + 1) ++ bs "-" ++ pad 2 (tm_mday t).
Definition time_text (t : tm) : bytes :=
  pad 2 (tm_hour t) ++ bs "-" ++ pad 2 (tm_min t) ++ bs "-" ++ pad 2 (tm_sec t).

(** [pos = pattern.find(key); if (pos != npos) pattern.replace(pos, |key|, text)] *)
Definition subst_first (key text pattern : bytes) : bytes :=
  match find pattern key with
  | Some pos => replace pattern pos (length key) text
  | None => pattern
  end.

Definition MakeName (pattern : bytes) (t : tm) (topic : bytes) : bytes :=
  subst_first (bs "[topic]") topic
    (subst_first (bs "[time]") (time_text t) (subst_first (bs "[date]") (date_text t) pattern)).

Definition cut_at (key pattern : bytes) : bytes :=
  match find pattern key with Some pos => take pos pattern | None => pattern end.

(** The loop from the last character down to a slash. *)
Fixpoint last_slash (i : nat) (pattern : bytes) : option nat :=
  match i with
  | O => None
  | S i => if decide (pattern !! i = Some "/"%char) then Some i else last_slash i pattern
  end.

Definition FindRoot (pattern : bytes) : bytes :=
  let pattern := cut_at (bs "[date]") pattern in
  let pattern := cut_at (bs "[time]") pattern in
  let pattern := cut_at (bs "[topic]") pattern in
  match last_slash (length pattern) pattern with
  | None => bs "."
  | Some i => take (S i) pattern
  end.

(** ** Directories *)

Section files.
Context {FS : Type} `{FileSystem FS}.

Definition DoMakeDIR (path : bytes) (fs : FS) : bool * FS :=
  match fs_stat fs path with
  | None => match fs_mkdir fs path with Some fs => (true, fs) | None => (false, fs) end
  | Some true => (true, fs)
  | Some false => (false, fs)
  end.

(** The loop of [MakePath] from slash to slash: [before] is the path up to the
    current character and [empty] tells that nothing lies between the last
    slash and it ([sp == pp]). *)
Fixpoint make_prefixes (before : bytes) (empty : bool) (rest : bytes) (fs : FS) : bool * FS :=
  match rest with
  | [] => (true, fs)
  | c :: rest =>
      if decide (c = "/"%char) then
        let '(ok, fs) := if empty then (true, fs) else DoMakeDIR before fs in
        if ok then make_prefixes (before ++ [c]) true rest fs else (false, fs)
      else make_prefixes (before ++ [c]) false rest fs
  end.

Definition MakePath (path : bytes) (fs : FS) : bool * FS :=
  let path := cstr path in
  let '(ok, fs) := make_prefixes [] true path fs in
  if ok then DoMakeDIR path fs else (false, fs).

(** [readdir] order and [stat] of each entry; the first of the oldest wins. *)
Fixpoint oldest (path : bytes) (entries : list bytes) (min_ctime : Z) (filename : bytes) (fs : FS) : bytes :=
  match entries with
  | [] => filename
  | e :: entries =>
      if decide (e = bs "." \/ e = bs "..") then oldest path entries min_ctime filename fs
      else
        match fs_ctime fs (path ++ e) with
        | None => oldest path entries min_ctime filename fs
        | Some t =>
            if (t <? min_ctime) || (min_ctime =? -1) then oldest path entries t (path ++ e) fs
            else oldest path entries min_ctime filename fs
        end
  end.

Definition FindOldestFile (path : bytes) (fs : FS) : bytes :=
  match fs_readdir fs path with
  | None => []
  | Some entries => oldest path entries (-1) [] fs
  end.

Definition DeleteOldestFile (path : bytes) (fs : FS) : FS :=
  let filename := FindOldestFile path fs in
  if decide (filename = []) then fs else fs_unlink fs filename.

(** ** Files *)

Record File := MkFile { filename_ : bytes; is_open_ : bool }.

(** [Open(filename, "a+")] *)
Definition Open (filename : bytes) (fs : FS) : option File * FS :=
  match fs_open_append fs filename with
  | Some fs => (Some (MkFile filename true), fs)
  | None => (None, fs)
  end.

(** [Open(path, name, is_secondary, topic, ti)]; [localtime_r] is the C
    library's. *)
Definition OpenNamed (localtime : Z -> tm) (now : Z) (path name : bytes) (is_secondary : bool)
    (topic : bytes) (ti : Z) (fs : FS) : option File * FS :=
  let t := localtime (if ti =? 0 then now else ti) in
  let name := if is_secondary then bs "[date]-[time].kidsbuffer" else name in
  let pathname := if is_secondary then path else MakeName path t topic in
  let filename := MakeName name t topic in
  let '(ok, fs) := MakePath pathname fs in
  if ok then Open (pathname ++ filename) fs else (None, fs).

(** The size on disk.  What the code gets for a missing file, whose [stat]
    fails, is not specified; here it is 0, and its one caller does the same
    for any value, since there is nothing to unlink. *)
Definition Size (f : File) (fs : FS) : Z :=
  match fs_read fs (filename_ f) with Some c => zlen c | None => 0 end.

(** [Remove]; what it returns, whether [unlink] worked, is not used. *)
Definition Remove (f : File) (fs : FS) : FS := if decide (filename_ f = []) then fs else fs_unlink fs (filename_ f).

Definition Close (remove_if_empty : bool) (f : File) (fs : FS) : File * FS :=
  if negb (is_open_ f) then (f, fs)
  else
    let f := MkFile (filename_ f) false in
    (f, if (Size f fs =? 0) && remove_if_empty then Remove f fs else fs).

(** An [int] as it lies in memory, least significant byte first. *)
Definition le32 (z : Z) : bytes :=
  [byte_of_Z z; byte_of_Z (Z.shiftr z 8); byte_of_Z (Z.shiftr z 16); byte_of_Z (Z.shiftr z 24)].
Definition of_le32 (l : bytes) : Z :=
  i32 (foldr (fun b acc => uchar b + Z.shiftl acc 8) 0 l).

(** [Write]: only a file that cannot be opened again makes it fail, since
    [fwrite] never returns -1. *)
Definition Write (data : bytes) (prepend_size append_eol : bool) (f : File) (fs : FS) : bool * File * FS :=
  match (if is_open_ f then Some fs else fs_open_append fs (filename_ f)) with
  | None => (false, f, fs)
  | Some fs =>
      let f := MkFile (filename_ f) true in
      let fs := if prepend_size then fs_append fs (filename_ f) (le32 (zlen data)) else fs in
      let fs := fs_append fs (filename_ f) data in
      let fs := if append_eol then fs_append fs (filename_ f) [LF] else fs in
      (true, f, fs)
  end.

(** [Flush] fails on a closed file. *)
Definition Flush (f : File) : bool := is_open_ f.

(** [Read(data, size)] from the bytes not yet read. *)
Definition Read (rest : bytes) (size : Z) : option (bytes * bytes) :=
  if size =? 0 then None
  else if zlen rest <? size then None
  else Some (take (Z.to_nat size) rest, drop (Z.to_nat size) rest).
End files.

(** ** What the directory functions do *)

Section directories.
Context {FS : Type} `{FileSystemLaws FS}.

Lemma DoMakeDIR_ok path fs fs' : DoMakeDIR path fs = (true, fs') ->
  fs_stat fs' path = Some true /\ (forall q, fs_stat fs q = Some true -> fs_stat fs' q = Some true)
  /\ forall q, fs_read fs' q = fs_read fs q.
Proof.
  unfold DoMakeDIR. destruct (fs_stat fs path) as [[]|] eqn:E; [by intros [= <-]|done|].
  destruct (fs_mkdir fs path) as [fs1|] eqn:Em; [|done]. intros [= <-].
  destruct (mkdir_stat _ _ _ Em) as [H1 H2]. split; [done|]. split; [done|].
  intros q. by apply (mkdir_read _ _ path).
Qed.

Lemma DoMakeDIR_read path fs q : fs_read (snd (DoMakeDIR path fs)) q = fs_read fs q.
Proof.
  unfold DoMakeDIR. destruct (fs_stat fs path) as [[]|]; [done|done|].
  destruct (fs_mkdir fs path) eqn:Em; [|done]. by apply (mkdir_read _ _ path).
Qed.

Lemma make_prefixes_ok before empty rest fs fs' : make_prefixes before empty rest fs = (true, fs') ->
  (empty = true <-> before = [] \/ last before = Some "/"%char) ->
  (forall q, fs_stat fs q = Some true -> fs_stat fs' q = Some true)
  /\ (forall q, fs_read fs' q = fs_read fs q)
  /\ forall k, rest !! k = Some "/"%char -> before ++ take k rest <> [] ->
       last (before ++ take k rest) <> Some "/"%char -> fs_stat fs' (before ++ take k rest) = Some true.
Proof.
  revert before empty fs. induction rest as [|c rest IH]; intros before empty fs; cbn [make_prefixes].
  { intros [= <-] _. split_and!; [done|done|]. intros k. by rewrite lookup_nil. }
  assert (forall k l, before ++ take (S k) (c :: rest) = l -> (before ++ [c]) ++ take k rest = l) as Hsh
    by (intros k l <-; by rewrite <- app_assoc).
  destruct (decide (c = "/"%char)) as [->|Hc].
  - destruct (if empty then (true, fs) else DoMakeDIR before fs) as [ok fs1] eqn:E1. destruct ok; [|done].
    intros E He. destruct (IH _ _ _ E) as (I1 & I2 & I3).
    { rewrite last_snoc. naive_solver. }
    assert ((forall q, fs_stat fs q = Some true -> fs_stat fs1 q = Some true) /\ (forall q, fs_read fs1 q = fs_read fs q)
            /\ (empty = false -> fs_stat fs1 before = Some true)) as (J1 & J2 & J3).
    { destruct empty; [by injection E1 as <-|]. destruct (DoMakeDIR_ok _ _ _ E1) as (? & ? & ?). done. }
    split_and!; [by eauto|intros q; by rewrite I2, J2|].
    intros [|k] Hk Hne Hl.
    + cbn [take] in *. rewrite app_nil_r in *. apply I1, J3. destruct empty; [|done].
      destruct He as [He _]. by destruct (He eq_refl).
    + rewrite <- (Hsh k _ eq_refl) in *. by apply I3.
  - intros E He. destruct (IH _ _ _ E) as (I1 & I2 & I3).
    { rewrite last_snoc. split; [done|]. intros [?|?]; [by destruct before|congruence]. }
    split_and!; [done|done|]. intros [|k] Hk Hne Hl; [cbn in Hk; congruence|].
    rewrite <- (Hsh k _ eq_refl) in *. by apply I3.
Qed.

Lemma make_prefixes_read before empty rest fs q : fs_read (snd (make_prefixes before empty rest fs)) q = fs_read fs q.
Proof.
  revert before empty fs. induction rest as [|c rest IH]; intros before empty fs; cbn [make_prefixes]; [done|].
  destruct (decide (c = "/"%char)); [|apply IH].
  destruct (if empty then (true, fs) else DoMakeDIR before fs) as [ok fs1] eqn:E.
  assert (fs_read fs1 q = fs_read fs q) as Hq.
  { destruct empty; [by injection E as <- <-|]. pose proof (DoMakeDIR_read before fs q) as Hr. by rewrite E in Hr. }
  destruct ok; [by rewrite IH|done].
Qed.

Lemma MakePath_read path fs q : fs_read (snd (MakePath path fs)) q = fs_read fs q.
Proof.
  unfold MakePath. pose proof (make_prefixes_read [] true (cstr path) fs q) as Hp.
  destruct (make_prefixes _ _ _ _) as [ok fs1]. cbn in Hp. destruct ok; [|done]. by rewrite DoMakeDIR_read.
Qed.

(** When MakePath succeeds, the path and every directory on the way to it exist, no
    directory that existed is gone, and no file has changed. *)
Theorem MakePath_makes_every_directory path fs fs' : NUL ∉ path -> MakePath path fs = (true, fs') ->
  fs_stat fs' path = Some true
  /\ (forall k, path !! k = Some "/"%char -> k <> 0%nat -> path !! (k - 1)%nat <> Some "/"%char ->
        fs_stat fs' (take k path) = Some true)
  /\ (forall q, fs_stat fs q = Some true -> fs_stat fs' q = Some true)
  /\ forall q, fs_read fs' q = fs_read fs q.
Proof.
  intros Hn. unfold MakePath. rewrite cstr_id by done.
  destruct (make_prefixes [] true path fs) as [ok fs1] eqn:E1. destruct ok; [|done]. intros E2.
  destruct (make_prefixes_ok _ _ _ _ _ E1) as (H1 & H2 & H3); [naive_solver|].
  destruct (DoMakeDIR_ok _ _ _ E2) as (K1 & K2 & K3). split_and!; [done| |by eauto|intros q; by rewrite K3, H2].
  intros k Hk Hk0 Hs. apply K2. assert (k < length path)%nat by (by apply lookup_lt_Some in Hk).
  apply (H3 k Hk).
  - cbn. destruct k; [done|]. by destruct path.
  - cbn. rewrite last_lookup, length_take_le by lia. rewrite lookup_take_lt by lia.
    by replace (pred k) with (k - 1)%nat by lia.
Qed.
End directories.

(** ** Names are made below their root *)

Lemma prefix_of_spec p s : prefix_of p s = true <-> exists t, s = p ++ t.
Proof.
  revert s. induction p as [|x p IH]; intros s; cbn [prefix_of].
  - naive_solver.
  - destruct s as [|y s]; [split; [done|intros [? ?]; done]|].
    rewrite andb_true_iff, bool_decide_eq_true, IH. split.
    + intros [-> [t ->]]. by exists t.
    + intros [t [= -> ->]]. split; [done|by exists t].
Qed.

(** The first occurrence, and no earlier one. *)
Lemma find_Some s p n : find s p = Some n ->
  (exists a b, s = a ++ p ++ b /\ length a = n) /\ forall i, (i < n)%nat -> prefix_of p (drop i s) = false.
Proof.
  revert n. induction s as [|c s IH]; intros n; cbn [find].
  - destruct (prefix_of p []) eqn:E; [|done]. intros [= <-]. apply prefix_of_spec in E as [t E].
    split; [by exists [], t|]. intros i Hi. lia.
  - destruct (prefix_of p (c :: s)) eqn:E.
    + intros [= <-]. apply prefix_of_spec in E as [t E]. split; [by exists [], t|]. intros i Hi. lia.
    + destruct (find s p) as [m|]; cbn; [|done]. intros [= <-].
      destruct (IH m eq_refl) as [(a & b & -> & <-) Hb]. split; [by exists (c :: a), b|].
      intros [|i] Hi; [done|]. cbn. apply Hb. lia.
Qed.

Lemma find_None s p i : find s p = None -> prefix_of p (drop i s) = false.
Proof.
  revert i. induction s as [|c s IH]; intros i; cbn [find].
  - destruct (prefix_of p []) eqn:E; [done|]. by rewrite drop_nil.
  - destruct (prefix_of p (c :: s)) eqn:E; [done|]. destruct (find s p) eqn:Ef; [done|]. intros _.
    destruct i; [done|]. by apply IH.
Qed.

(** A text begins with [r] and no [key] begins inside [r]. *)
Definition below (key r s : bytes) : Prop :=
  (exists t, s = r ++ t) /\ forall i, (i < length r)%nat -> prefix_of key (drop i s) = false.

Lemma subst_first_below key text r s : below key r s -> exists t, subst_first key text s = r ++ t.
Proof.
  intros [[t Hs] Hb]. unfold subst_first. destruct (find s key) as [n|] eqn:E; [|by exists t].
  destruct (find_Some _ _ _ E) as [(a & b & Hab & Hn) _].
  assert (length r <= n)%nat as Hle.
  { destruct (decide (length r <= n)%nat); [done|]. exfalso. specialize (Hb n ltac:(lia)).
    rewrite Hab, drop_app_length' in Hb by done.
    assert (prefix_of key (key ++ b) = true) by (apply prefix_of_spec; by exists b). congruence. }
  unfold replace. exists (take (n - length r) t ++ text ++ drop (n + length key) s).
  assert (take n s = r ++ take (n - length r) t) as -> by (rewrite Hs, take_app, (take_ge r) by lia; done).
  by rewrite <- !app_assoc.
Qed.

(** What a root is: it ends in a slash, and no key begins in it even when the
    text after it changes, since keys have no slash. *)
Lemma below_slash key r s : "/"%char ∉ key -> last r = Some "/"%char ->
  (exists t, s = r ++ t) -> (forall i, prefix_of key (drop i r) = false) -> below key r s.
Proof.
  intros Hk Hl [t ->] Hr. split; [by exists t|]. intros i Hi.
  destruct (prefix_of key (drop i (r ++ t))) eqn:E; [|done]. apply prefix_of_spec in E as [u E].
  rewrite <- (Hr i). symmetry. apply prefix_of_spec. rewrite drop_app_le in E by lia.
  destruct (decide (length key <= length (drop i r))%nat) as [Hle|Hgt].
  - exists (drop (length key) (drop i r)). apply (f_equal (take (length key))) in E.
    rewrite take_app_le, take_app_length in E by done.
    rewrite <- E at 1. by rewrite take_drop.
  - exfalso. apply Hk. apply (f_equal (fun l => l !! (length (drop i r) - 1)%nat)) in E.
    rewrite length_drop in *. rewrite lookup_app_l, lookup_drop in E by (rewrite ?length_drop; lia).
    rewrite lookup_app_l in E by lia. rewrite last_lookup in Hl.
    replace (i + (length r - i - 1))%nat with (pred (length r)) in E by lia. rewrite Hl in E.
    symmetry in E. by apply list_elem_of_lookup_2 in E.
Qed.

Lemma prefix_of_shorter p r q i : prefix_of p (drop i r) = true -> (exists u, q = r ++ u) ->
  exists u, drop i q = p ++ u \/ (i > length r)%nat.
Proof.
  intros Hp [u ->]. destruct (decide (i <= length r)%nat); [|exists []; right; lia].
  apply prefix_of_spec in Hp as [v Hv]. exists (v ++ u). left. by rewrite drop_app_le, Hv, app_assoc by lia.
Qed.

(** No key begins in a part of a text where none is found. *)
Lemma no_key_in key r s : find s key = None -> (exists t, s = r ++ t) -> key <> [] ->
  forall i, prefix_of key (drop i r) = false.
Proof.
  intros Hf Ht Hk i. destruct (prefix_of key (drop i r)) eqn:E; [|done]. exfalso.
  destruct (prefix_of_shorter _ _ _ _ E Ht) as [u [Hu|Hi]].
  - pose proof (find_None s key i Hf) as Hn.
    assert (prefix_of key (drop i s) = true) by (apply prefix_of_spec; by exists u). congruence.
  - rewrite drop_ge in E by lia. by destruct key.
Qed.

(** [cut_at] leaves a beginning of the text without the key. *)
Lemma cut_at_spec key s : key <> [] -> "/"%char ∉ key ->
  (exists t, s = cut_at key s ++ t) /\ find (cut_at key s) key = None.
Proof.
  intros Hk _. unfold cut_at. destruct (find s key) as [n|] eqn:E; [|split; [exists []; by rewrite app_nil_r|done]].
  destruct (find_Some _ _ _ E) as [(a & b & -> & <-) Hb].
  rewrite take_app_length. split; [by exists (key ++ b)|].
  destruct (find a key) as [m|] eqn:Ea; [|done]. exfalso.
  destruct (find_Some _ _ _ Ea) as [(a1 & b1 & -> & <-) _].
  specialize (Hb (length a1)). rewrite <- !app_assoc, drop_app_length in Hb.
  assert (prefix_of key (key ++ b1 ++ key ++ b) = true) as Ht by (apply prefix_of_spec; by exists (b1 ++ key ++ b)).
  rewrite Hb in Ht; [done|]. rewrite !length_app. destruct key; cbn; [done|lia].
Qed.

Lemma last_slash_Some i p n : last_slash i p = Some n -> p !! n = Some "/"%char.
Proof.
  induction i as [|i IH]; cbn; [done|]. destruct (decide _); [by intros [= <-]|done].
Qed.

(** Whatever the date, the time and the topic, a name made from a path pattern begins with
    the root of the pattern, the directory FindRoot returns, which is the beginning of the pattern
    and ends in a slash. *)
Theorem names_are_below_their_root pattern t topic : FindRoot pattern <> bs "." ->
  (exists rest, MakeName pattern t topic = FindRoot pattern ++ rest)
  /\ (exists rest, pattern = FindRoot pattern ++ rest)
  /\ last (FindRoot pattern) = Some "/"%char.
Proof.
  unfold FindRoot. set (p1 := cut_at (bs "[date]") pattern). set (p2 := cut_at (bs "[time]") p1).
  set (p3 := cut_at (bs "[topic]") p2). destruct (last_slash (length p3) p3) as [n|] eqn:E; [|done]. intros _.
  assert (bs "[date]" <> [] /\ "/"%char ∉ bs "[date]") as [D1 D2] by (split; [done|by apply (bool_decide_unpack _)]).
  assert (bs "[time]" <> [] /\ "/"%char ∉ bs "[time]") as [T1 T2] by (split; [done|by apply (bool_decide_unpack _)]).
  assert (bs "[topic]" <> [] /\ "/"%char ∉ bs "[topic]") as [O1 O2] by (split; [done|by apply (bool_decide_unpack _)]).
  destruct (cut_at_spec (bs "[date]") pattern D1 D2) as [[u1 E1] F1].
  destruct (cut_at_spec (bs "[time]") p1 T1 T2) as [[u2 E2] F2].
  destruct (cut_at_spec (bs "[topic]") p2 O1 O2) as [[u3 E3] F3].
  fold p1 in E1, F1. fold p2 in E2, F2. fold p3 in E3, F3. clearbody p1 p2 p3.
  set (r := take (S n) p3). assert (p3 = r ++ drop (S n) p3) as E4 by (symmetry; apply take_drop).
  assert (last r = Some "/"%char) as Hlast.
  { apply last_slash_Some in E. pose proof (lookup_lt_Some _ _ _ E). rewrite last_lookup. unfold r.
    rewrite length_take_le by lia. cbn [pred]. rewrite lookup_take_lt by lia. done. }
  assert (exists v, p2 = r ++ v) as R2 by (exists (drop (S n) p3 ++ u3); by rewrite app_assoc, <- E4).
  assert (exists v, p1 = r ++ v) as R1 by (destruct R2 as [v R2]; exists (v ++ u2); by rewrite app_assoc, <- R2).
  assert (exists v, pattern = r ++ v) as R0 by (destruct R1 as [v R1]; exists (v ++ u1); by rewrite app_assoc, <- R1).
  assert (exists v, p3 = r ++ v) as R3 by (by exists (drop (S n) p3)).
  split_and!; [|done|done]. unfold MakeName.
  destruct (subst_first_below (bs "[date]") (date_text t) r pattern) as [v1 V1].
  { apply below_slash; try done. by apply (no_key_in _ _ p1). }
  destruct (subst_first_below (bs "[time]") (time_text t) r (subst_first (bs "[date]") (date_text t) pattern)) as [v2 V2].
  { apply below_slash; try done; [by exists v1|]. by apply (no_key_in _ _ p2). }
  apply subst_first_below. apply below_slash; try done; [by exists v2|]. by apply (no_key_in _ _ p3).
Qed.

(** ** A file system in memory, to instantiate the laws *)

Record memfs := MemFS { mdirs : gset bytes; mfiles : gmap bytes bytes }.

Definition name_in (p f : bytes) : option bytes :=
  if prefix_of p f then
    let n := drop (length p) f in if decide ("/"%char ∈ n) then None else Some n
  else None.

#[export] Instance memfs_ops : FileSystem memfs := {
  fs_stat fs p := if decide (p ∈ mdirs fs) then Some true else if mfiles fs !! p then Some false else None;
  fs_mkdir fs p :=
    if decide (p ∈ mdirs fs) then None
    else if mfiles fs !! p then None else Some (MemFS ({[p]} ∪ mdirs fs) (mfiles fs));
  fs_open_append fs f :=
    if decide (f ∈ mdirs fs) then None
    else Some (MemFS (mdirs fs) (<[f := default [] (mfiles fs !! f)]> (mfiles fs)));
  fs_append fs f d := MemFS (mdirs fs) (alter (fun c => c ++ d) f (mfiles fs));
  fs_read fs f := mfiles fs !! f;
  fs_readdir fs p :=
    Some (elements (list_to_set (omap (fun f : bytes * bytes => name_in p f.1) (map_to_list (mfiles fs))) : gset bytes));
  fs_ctime fs f := (fun _ => 0) <$> mfiles fs !! f;
  fs_unlink fs f := MemFS (mdirs fs) (delete f (mfiles fs));
}.

#[export] Instance memfs_laws : FileSystemLaws memfs.
Proof.
  split.
  - intros fs fs' p. cbn. destruct (decide _); [done|]. destruct (mfiles fs !! p) eqn:E; [done|]. intros [= <-]. cbn.
    split; [by rewrite decide_True by set_solver|]. intros q. destruct (decide (q ∈ mdirs fs)).
    + intros _. by rewrite decide_True by set_solver.
    + by destruct (mfiles fs !! q).
  - intros fs fs' p q. cbn. destruct (decide _); [done|]. destruct (mfiles fs !! p); [done|]. by intros [= <-].
  - intros fs fs' f. cbn. destruct (decide _); [done|]. intros [= <-]. cbn.
    rewrite lookup_insert_eq. split; [done|]. intros g Hg. by rewrite lookup_insert_ne.
  - intros fs f d c Hc. cbn in *. rewrite lookup_alter_eq, Hc. split; [done|]. intros g Hg. by rewrite lookup_alter_ne.
  - intros fs f. cbn. rewrite lookup_delete_eq. split; [done|]. intros g Hg. by rewrite lookup_delete_ne.
  - intros fs p l. cbn. intros [= <-]. split; [apply NoDup_elements|]. intros n Hn [c Hc].
    apply elem_of_elements, elem_of_list_to_set, list_elem_of_omap. exists (p ++ n, c). split; [by apply elem_of_map_to_list|].
    unfold name_in. cbn [fst]. rewrite (proj2 (prefix_of_spec p (p ++ n))) by by exists n.
    rewrite drop_app_length. by rewrite decide_False.
Qed.

Definition empty_fs : memfs := MemFS ∅ ∅.

Lemma MakePath_makes_every_directory_witness :
  let path := bs "/var/log//kids/" in
  let fs := snd (MakePath path empty_fs) in
  fst (MakePath path empty_fs) = true
  /\ fs_stat fs (bs "/var") = Some true /\ fs_stat fs (bs "/var/log") = Some true
  /\ fs_stat fs (bs "/var/log//kids") = Some true /\ fs_stat fs path = Some true.
Proof.
  cbv zeta.
  destruct (MakePath_makes_every_directory (bs "/var/log//kids/") empty_fs (snd (MakePath (bs "/var/log//kids/") empty_fs)))
    as (H1 & H2 & _).
  - by apply (bool_decide_unpack _).
  - by vm_compute.
  - split; [by vm_compute|]. split; [exact (H2 4%nat eq_refl ltac:(done) ltac:(done))|].
    split; [exact (H2 8%nat eq_refl ltac:(done) ltac:(done))|].
    split; [exact (H2 14%nat eq_refl ltac:(done) ltac:(done))|exact H1].
Defined.

Lemma names_are_below_their_root_witness :
  let pattern := bs "/data/[topic]/[date]/" in
  FindRoot pattern = bs "/data/"
  /\ MakeName pattern (Tm 113 8 5 10 20 30) (bs "app.web") = bs "/data/app.web/2013-09-05/"
  /\ exists rest, MakeName pattern (Tm 113 8 5 10 20 30) (bs "app.web") = bs "/data/" ++ rest.
Proof.
  cbv zeta. split; [by vm_compute|]. split; [by vm_compute|].
  destruct (names_are_below_their_root (bs "/data/[topic]/[date]/") (Tm 113 8 5 10 20 30) (bs "app.web")) as [H _];
    [by vm_compute|exact H].
Defined.
