(* ===== verification/Stores.v ===== *)
(** * store/: the interface of a store and the stores made of other stores

    A [Store] of the code is an abstract class; here it is a typeclass,
    [StoreOps], with one operation per virtual method.  [NullStore],
    [MultipleStore], [PriorityStore] and [BufferStore] are instances, the last
    three over any stores; FileStore.v and NetworkStore.v add the stores that
    reach outside.  Objects are states passed along; the counters every store
    shares, [stat_], are a second state.  [None] is undefined behaviour. *)

From S2P Require Import Prelude Common Glob.

(** ** What stores share *)

Abbreviation message := (bytes * bytes)%type.

(** The global [unixtime], and what [time(NULL)] returns. *)
Record clock := Clock { unixtime : Z; time_now : Z }.

Inductive StoreState : Type := Free | Sending.
#[export] Instance StoreState_eq_dec : EqDecision StoreState.
Proof. solve_decision. Defined.

Inductive BufferType : Type := kNone | kPrimary | kSecondary.
#[export] Instance BufferType_eq_dec : EqDecision BufferType.
Proof. solve_decision. Defined.

(** The updates of [stat_] by stores: a message buffered, taken from the
    buffer, stored. *)
Definition stat_buffered (s : Statistic) (n : Z) : Statistic :=
  Stat (start_time s) (msg_in s) (msg_in_traffic s) (msg_in_ps s) (msg_in_traffic_ps s)
    (msg_out s) (msg_out_traffic s) (msg_out_ps s) (msg_out_traffic_ps s) (msg_in_queue s) (queue_mem_size s)
    (msg_store s) (msg_store_size s) (u64 (msg_buffer s + 1)) (u64 (msg_buffer_size s + n))
    (msg_drop s) (nclients s) (topics s) (patterns s).
Definition stat_unbuffered (s : Statistic) : Statistic :=
  Stat (start_time s) (msg_in s) (msg_in_traffic s) (msg_in_ps s) (msg_in_traffic_ps s)
    (msg_out s) (msg_out_traffic s) (msg_out_ps s) (msg_out_traffic_ps s) (msg_in_queue s) (queue_mem_size s)
    (msg_store s) (msg_store_size s) (u64 (msg_buffer s - 1)) (msg_buffer_size s)
    (msg_drop s) (nclients s) (topics s) (patterns s).
Definition stat_stored (s : Statistic) (n : Z) : Statistic :=
  Stat (start_time s) (msg_in s) (msg_in_traffic s) (msg_in_ps s) (msg_in_traffic_ps s)
    (msg_out s) (msg_out_traffic s) (msg_out_ps s) (msg_out_traffic_ps s) (msg_in_queue s) (queue_mem_size s)
    (u64 (msg_store s + 1)) (u64 (msg_store_size s + n)) (msg_buffer s) (msg_buffer_size s)
    (msg_drop s) (nclients s) (topics s) (patterns s).

(** ** The interface *)

Class StoreOps (S : Type) := {
  topic_ : S -> bytes;
  Open : clock -> S -> Statistic -> option (bool * S * Statistic);
  IsOpen : S -> bool;
  Close : S -> Statistic -> option (S * Statistic);
  DoAddMessage : clock -> message -> S -> Statistic -> option (bool * S * Statistic);
  State : S -> option StoreState;
  HaveOldMessage : S -> bool;
  GetOldestMessages : S -> option (list message);
  DeleteOldestMessages : S -> S;
  Cron : clock -> S -> Statistic -> option (S * Statistic);
  (** the destructor; its files and connections go with the object *)
  Delete : S -> Statistic -> option Statistic;
}.

Section add_message.
Context {S : Type} `{StoreOps S}.
(** [kids->config_.ignore_case] *)
Variable ignore_case : bool.

Definition PreAddMessage (msg : message) (s : S) : option bool :=
  if decide (topic_ s = bs "*") then Some true
  else match stringmatchlen (topic_ s) msg.1 ignore_case with MRet b => Some b | _ => None end.

Definition AddMessage (c : clock) (msg : message) (s : S) (st : Statistic) : option (bool * S * Statistic) :=
  ok ← PreAddMessage msg s;
  if (ok : bool) then DoAddMessage c msg s st else Some (false, s, st).
End add_message.

(** ** [NullStore] *)

Record NullStore := MkNull { null_topic : bytes; null_open : bool }.

#[export] Instance NullStore_ops : StoreOps NullStore := {
  topic_ := null_topic;
  Open _ s st := Some (true, MkNull (null_topic s) true, st);
  IsOpen := null_open;
  Close s st := Some (MkNull (null_topic s) false, st);
  DoAddMessage _ _ s st := Some (true, s, st);
  State _ := Some Free;
  HaveOldMessage _ := false;
  GetOldestMessages _ := Some [];
  DeleteOldestMessages s := s;
  Cron _ s st := Some (s, st);
  Delete _ st := Some st;
}.

(** ** Stores over a list of stores *)

Section lists.
Context {S : Type} `{StoreOps S}.
Variable ignore_case : bool.

(** [for (auto it : stores_)] with a call that returns a bool, collected. *)
Fixpoint for_stores (f : S -> Statistic -> option (bool * S * Statistic)) (l : list S) (st : Statistic)
  : option (list bool * list S * Statistic) :=
  match l with
  | [] => Some ([], [], st)
  | s :: l =>
      '(b, s, st) ← f s st;
      '(bs, l, st) ← for_stores f l st;
      Some (b :: bs, s :: l, st)
  end.

Definition unit_call (f : S -> Statistic -> option (S * Statistic)) (s : S) (st : Statistic)
  : option (bool * S * Statistic) := '(s, st) ← f s st; Some (true, s, st).

Definition Close_all (l : list S) (st : Statistic) : option (list S * Statistic) :=
  '(_, l, st) ← for_stores (unit_call Close) l st; Some (l, st).

(** [for (auto it : stores_) delete it;] *)
Fixpoint Delete_all (l : list S) (st : Statistic) : option Statistic :=
  match l with [] => Some st | s :: l => st ← Delete s st; Delete_all l st end.

Definition Cron_all (c : clock) (l : list S) (st : Statistic) : option (list S * Statistic) :=
  '(_, l, st) ← for_stores (unit_call (Cron c)) l st; Some (l, st).

(** [State()] of a list: the first store that sends decides. *)
Fixpoint State_all (l : list S) : option StoreState :=
  match l with
  | [] => Some Free
  | s :: l => x ← State s; if decide (x = Sending) then Some Sending else State_all l
  end.

(** [for (auto it : stores_) if (it->AddMessage(msg)) return true;] *)
Fixpoint first_accepts (c : clock) (msg : message) (l : list S) (st : Statistic)
  : option (bool * list S * Statistic) :=
  match l with
  | [] => Some (false, [], st)
  | s :: l =>
      '(b, s, st) ← AddMessage ignore_case c msg s st;
      if (b : bool) then Some (true, s :: l, st)
      else '(b, l, st) ← first_accepts c msg l st; Some (b, s :: l, st)
  end.
End lists.

Inductive SuccessType : Type := kAny | kAll.

Record MultipleStore {S : Type} := MkMultiple {
  multi_topic : bytes;
  multi_stores : list S;
  success_ : SuccessType;
  multi_open : bool;
}.
Arguments MultipleStore : clear implicits.
Arguments MkMultiple {_}.

Section multiple.
Context {S : Type} `{StoreOps S}.
Variable ignore_case : bool.

Definition count_true (l : list bool) : Z := zlen (filter (fun b => b = true) l).

Definition MultipleStore_Close (m : MultipleStore S) (st : Statistic) : option (MultipleStore S * Statistic) :=
  if negb (multi_open m) then Some (m, st)
  else '(l, st) ← Close_all (multi_stores m) st; Some (MkMultiple (multi_topic m) l (success_ m) false, st).

Definition MultipleStore_Delete (m : MultipleStore S) (st : Statistic) : option Statistic :=
  '(m, st) ← MultipleStore_Close m st; Delete_all (multi_stores m) st.

Definition MultipleStore_Open (c : clock) (m : MultipleStore S) (st : Statistic)
  : option (bool * MultipleStore S * Statistic) :=
  '(m, st) ← (if multi_open m then MultipleStore_Close m st else Some (m, st));
  '(os, l, st) ← for_stores (Open c) (multi_stores m) st;
  let is_open := match success_ m with kAny => existsb id os | kAll => forallb id os end in
  Some (is_open, MkMultiple (multi_topic m) l (success_ m) is_open, st).

Definition MultipleStore_DoAddMessage (c : clock) (msg : message) (m : MultipleStore S) (st : Statistic)
  : option (bool * MultipleStore S * Statistic) :=
  '(os, l, st) ← for_stores (AddMessage ignore_case c msg) (multi_stores m) st;
  let count := count_true os in
  let success := match success_ m with kAny => count >? 0 | kAll => count =? zlen (multi_stores m) end in
  Some (success, MkMultiple (multi_topic m) l (success_ m) (multi_open m), st).

Definition MultipleStore_Cron (c : clock) (m : MultipleStore S) (st : Statistic)
  : option (MultipleStore S * Statistic) :=
  if negb (multi_open m) then Some (m, st)
  else '(l, st) ← Cron_all c (multi_stores m) st; Some (MkMultiple (multi_topic m) l (success_ m) (multi_open m), st).
End multiple.

Record PriorityStore {S : Type} := MkPriority {
  prio_topic : bytes;
  prio_stores : list S;
  prio_open : bool;
}.
Arguments PriorityStore : clear implicits.
Arguments MkPriority {_}.

Section priority.
Context {S : Type} `{StoreOps S}.
Variable ignore_case : bool.

Definition PriorityStore_Close (p : PriorityStore S) (st : Statistic) : option (PriorityStore S * Statistic) :=
  if negb (prio_open p) then Some (p, st)
  else '(l, st) ← Close_all (prio_stores p) st; Some (MkPriority (prio_topic p) l false, st).

Definition PriorityStore_Delete (p : PriorityStore S) (st : Statistic) : option Statistic :=
  '(p, st) ← PriorityStore_Close p st; Delete_all (prio_stores p) st.

Definition PriorityStore_Open (c : clock) (p : PriorityStore S) (st : Statistic)
  : option (bool * PriorityStore S * Statistic) :=
  '(p, st) ← (if prio_open p then PriorityStore_Close p st else Some (p, st));
  '(_, l, st) ← for_stores (Open c) (prio_stores p) st;
  Some (true, MkPriority (prio_topic p) l true, st).

Definition PriorityStore_DoAddMessage (c : clock) (msg : message) (p : PriorityStore S) (st : Statistic)
  : option (bool * PriorityStore S * Statistic) :=
  '(b, l, st) ← first_accepts ignore_case c msg (prio_stores p) st;
  Some (b, MkPriority (prio_topic p) l (prio_open p), st).

Definition PriorityStore_Cron (c : clock) (p : PriorityStore S) (st : Statistic)
  : option (PriorityStore S * Statistic) :=
  if negb (prio_open p) then Some (p, st)
  else '(l, st) ← Cron_all c (prio_stores p) st; Some (MkPriority (prio_topic p) l (prio_open p), st).
End priority.

(** ** [BufferStore] *)

Inductive Status : Type := kToPrimary | kToSecondary | kTransfering.
#[export] Instance Status_eq_dec : EqDecision Status.
Proof. solve_decision. Defined.

(** The pointer [msg_to_transfer_]: NULL, deleted but not cleared, or a
    queue. *)
Inductive queue_ptr : Type := QNull | QDangling | Queue (l : list message).

(** [state_] is not initialised by the constructor. *)
Record BufferStore {P S : Type} := MkBufferStore {
  buf_topic : bytes;
  primary_ : P;
  secondary_ : S;
  state_ : option Status;
  msg_to_transfer_ : queue_ptr;
  buf_open : bool;
}.
Arguments BufferStore : clear implicits.
Arguments MkBufferStore {_ _}.

Section buffer.
Context {P S : Type} `{StoreOps P} `{StoreOps S}.
Variable ignore_case : bool.

Definition max_msg_per_cron : nat := 100.

Definition with_primary (b : BufferStore P S) (p : P) : BufferStore P S :=
  MkBufferStore (buf_topic b) p (secondary_ b) (state_ b) (msg_to_transfer_ b) (buf_open b).
Definition with_secondary (b : BufferStore P S) (s : S) : BufferStore P S :=
  MkBufferStore (buf_topic b) (primary_ b) s (state_ b) (msg_to_transfer_ b) (buf_open b).
Definition with_state (b : BufferStore P S) (x : Status) (q : queue_ptr) : BufferStore P S :=
  MkBufferStore (buf_topic b) (primary_ b) (secondary_ b) (Some x) q (buf_open b).
Definition with_open (b : BufferStore P S) (o : bool) : BufferStore P S :=
  MkBufferStore (buf_topic b) (primary_ b) (secondary_ b) (state_ b) (msg_to_transfer_ b) o.

Definition BufferStore_State (b : BufferStore P S) : option StoreState :=
  x ← state_ b; if decide (x = kToPrimary) then State (primary_ b) else State (secondary_ b).

(** The queue is deleted, and the pointer kept, only when it has messages. *)
Definition BufferStore_Close (b : BufferStore P S) (st : Statistic) : option (BufferStore P S * Statistic) :=
  if negb (buf_open b) then Some (b, st)
  else
    '(p, st) ← Close (primary_ b) st;
    '(s, st) ← Close (secondary_ b) st;
    let b := with_secondary (with_primary b p) s in
    match msg_to_transfer_ b with
    | QDangling => None
    | Queue (m :: l) =>
        Some (MkBufferStore (buf_topic b) p s (state_ b) QDangling false,
              Nat.iter (length (m :: l)) stat_dropped st)
    | _ => Some (with_open b false, st)
    end.

Definition BufferStore_Delete (b : BufferStore P S) (st : Statistic) : option Statistic :=
  '(b, st) ← BufferStore_Close b st;
  st ← Delete (primary_ b) st;
  Delete (secondary_ b) st.

Definition BufferStore_Open (c : clock) (b : BufferStore P S) (st : Statistic)
  : option (bool * BufferStore P S * Statistic) :=
  '(b, st) ← (if buf_open b then BufferStore_Close b st else Some (b, st));
  let b := with_open b true in
  '(ok, p, st) ← Open c (primary_ b) st;
  let b := with_primary b p in
  if (ok : bool) then
    if HaveOldMessage (secondary_ b) then Some (true, with_state b kTransfering (Queue []), st)
    else Some (true, with_state b kToPrimary (msg_to_transfer_ b), st)
  else
    '(ok, s, st) ← Open c (secondary_ b) st;
    let b := with_secondary b s in
    if (ok : bool) then Some (true, with_state b kToSecondary (msg_to_transfer_ b), st)
    else Some (false, with_open b false, st).

(** [!primary_->IsOpen() || !primary_->AddMessage(msg)] *)
Definition primary_refuses (c : clock) (msg : message) (b : BufferStore P S) (st : Statistic)
  : option (bool * BufferStore P S * Statistic) :=
  if negb (IsOpen (primary_ b)) then Some (true, b, st)
  else '(ok, p, st) ← AddMessage ignore_case c msg (primary_ b) st; Some (negb ok, with_primary b p, st).

(** The second half of [DoAddMessage], in the states [kToSecondary] and
    [kTransfering]. *)
Definition add_to_secondary (c : clock) (msg : message) (b : BufferStore P S) (st : Statistic)
  : option (bool * BufferStore P S * Statistic) :=
  '(s, st) ← (if negb (IsOpen (secondary_ b)) then
                '(_, s, st) ← Open c (secondary_ b) st; Some (s, st)
              else Some (secondary_ b, st));
  '(ok, s, st) ← AddMessage ignore_case c msg s st;
  let b := with_secondary b s in
  if (ok : bool) then Some (true, b, st) else Some (false, b, stat_dropped st).

Definition BufferStore_DoAddMessage (c : clock) (msg : message) (b : BufferStore P S) (st : Statistic)
  : option (bool * BufferStore P S * Statistic) :=
  x ← state_ b;
  if decide (x = kToPrimary) then
    '(refused, b, st) ← primary_refuses c msg b st;
    if (refused : bool) then
      '(_, s, st) ← Open c (secondary_ b) st;
      add_to_secondary c msg (with_state (with_secondary b s) kToSecondary (msg_to_transfer_ b)) st
    else Some (true, b, st)
  else add_to_secondary c msg b st.

(** The loop of [Cron] that sends from the queue, until it is empty, has sent
    [cnt] messages, or the primary store refuses one. *)
Fixpoint send_queue (cnt : nat) (c : clock) (q : list message) (p : P) (st : Statistic)
  : option (list message * P * Statistic) :=
  match cnt, q with
  | Datatypes.S cnt, msg :: q =>
      '(ok, p, st) ← AddMessage ignore_case c msg p st;
      if (ok : bool) then send_queue cnt c q p (stat_unbuffered st) else Some (q, p, stat_unbuffered st)
  | _, _ => Some (q, p, st)
  end.

(** [if (msg_to_transfer_->empty() && secondary_->HaveOldMessage())]: the
    oldest file is read and deleted. *)
Definition refill_queue (q : list message) (s : S) (st : Statistic) : option (list message * S * Statistic) :=
  match q with
  | [] =>
      if HaveOldMessage s then
        '(s, st) ← Close s st;
        l ← GetOldestMessages s;
        Some (l, DeleteOldestMessages s, st)
      else Some ([], s, st)
  | _ => Some (q, s, st)
  end.

(** [if (state_ == kTransfering)] *)
Definition transfer (c : clock) (b : BufferStore P S) (st : Statistic) : option (BufferStore P S * Statistic) :=
  match msg_to_transfer_ b with
  | Queue q =>
      '(q, p, st) ← send_queue max_msg_per_cron c q (primary_ b) st;
      '(q, s, st) ← refill_queue q (secondary_ b) st;
      let b := with_secondary (with_primary b p) s in
      if decide (q = []) then
        if HaveOldMessage s then Some (with_state b kTransfering (Queue q), st)
        else '(s, st) ← Close s st; Some (with_state (with_secondary b s) kToPrimary QNull, st)
      else Some (with_state b kTransfering (Queue q), st)
  | _ => None
  end.

Definition BufferStore_Cron (c : clock) (b : BufferStore P S) (st : Statistic)
  : option (BufferStore P S * Statistic) :=
  if negb (buf_open b) then Some (b, st)
  else
    x ← state_ b;
    let '(x, b) := if decide (x = kToSecondary /\ IsOpen (primary_ b) = true)
                   then (kTransfering, with_state b kTransfering (Queue [])) else (x, b) in
    '(b, st) ← (if decide (x = kTransfering) then transfer c b st else Some (b, st));
    '(p, st) ← Cron c (primary_ b) st;
    '(s, st) ← Cron c (secondary_ b) st;
    Some (with_secondary (with_primary b p) s, st).
End buffer.

#[export] Instance MultipleStore_ops {S} `{StoreOps S} (ignore_case : bool) : StoreOps (MultipleStore S) := {
  topic_ := multi_topic;
  Open := MultipleStore_Open;
  IsOpen := multi_open;
  Close := MultipleStore_Close;
  DoAddMessage := MultipleStore_DoAddMessage ignore_case;
  State m := State_all (multi_stores m);
  HaveOldMessage _ := false;
  GetOldestMessages _ := Some [];
  DeleteOldestMessages m := m;
  Cron := MultipleStore_Cron;
  Delete := MultipleStore_Delete;
}.

#[export] Instance PriorityStore_ops {S} `{StoreOps S} (ignore_case : bool) : StoreOps (PriorityStore S) := {
  topic_ := prio_topic;
  Open := PriorityStore_Open;
  IsOpen := prio_open;
  Close := PriorityStore_Close;
  DoAddMessage := PriorityStore_DoAddMessage ignore_case;
  State p := State_all (prio_stores p);
  HaveOldMessage _ := false;
  GetOldestMessages _ := Some [];
  DeleteOldestMessages p := p;
  Cron := PriorityStore_Cron;
  Delete := PriorityStore_Delete;
}.

#[export] Instance BufferStore_ops {P S} `{StoreOps P} `{StoreOps S} (ignore_case : bool) : StoreOps (BufferStore P S) := {
  topic_ := buf_topic;
  Open := BufferStore_Open;
  IsOpen := buf_open;
  Close := BufferStore_Close;
  DoAddMessage := BufferStore_DoAddMessage ignore_case;
  State := BufferStore_State;
  HaveOldMessage _ := false;
  GetOldestMessages _ := Some [];
  DeleteOldestMessages b := b;
  Cron := BufferStore_Cron ignore_case;
  Delete := BufferStore_Delete;
}.

(** ** A store whose accepted messages are recorded *)

Section logged.
Context {S : Type} `{StoreOps S}.

Definition lift {A} (s : S * list message) (r : option (A * S * Statistic)) : option (A * (S * list message) * Statistic) :=
  '(x, s', st) ← r; Some (x, (s', s.2), st).
Definition lift_unit (s : S * list message) (r : option (S * Statistic)) : option ((S * list message) * Statistic) :=
  '(s', st) ← r; Some ((s', s.2), st).
End logged.

#[export] Instance logged_ops {S} `{StoreOps S} : StoreOps (S * list message) := {
  topic_ s := topic_ s.1;
  Open c s st := lift s (Open c s.1 st);
  IsOpen s := IsOpen s.1;
  Close s st := lift_unit s (Close s.1 st);
  DoAddMessage c msg s st :=
    '(ok, s', st) ← DoAddMessage c msg s.1 st;
    Some (ok, (s', if (ok : bool) then s.2 ++ [msg] else s.2), st);
  State s := State s.1;
  HaveOldMessage s := HaveOldMessage s.1;
  GetOldestMessages s := GetOldestMessages s.1;
  DeleteOldestMessages s := (DeleteOldestMessages s.1, s.2);
  Cron c s st := lift_unit s (Cron c s.1 st);
  Delete s st := Delete s.1 st;
}.

(** ** What a list of stores does with a message *)

(** A store whose life cycle does not fail: its methods are defined, and
    keep [ok]. *)
Class Steady {S : Type} `{StoreOps S} (ignore_case : bool) (ok : S -> Prop) := {
  total_pre : forall s msg, ok s -> is_Some (PreAddMessage ignore_case msg s);
  total_open : forall c s st, ok s -> exists b s' st', Open c s st = Some (b, s', st') /\ ok s';
  total_close : forall s st, ok s -> exists s' st', Close s st = Some (s', st') /\ ok s';
  total_cron : forall c s st, ok s -> exists s' st', Cron c s st = Some (s', st') /\ ok s';
  total_delete : forall s st, ok s -> is_Some (Delete s st);
}.

(** A steady store that takes or refuses any message without failing. *)
Class Total {S : Type} `{StoreOps S} (ignore_case : bool) (ok : S -> Prop) := {
  total_steady :: Steady ignore_case ok;
  total_add : forall c msg s st, ok s -> exists b s' st', DoAddMessage c msg s st = Some (b, s', st') /\ ok s';
}.

Lemma AddMessage_total {S} `{Total S ic ok} c msg s st : ok s ->
  exists b s' st', AddMessage ic c msg s st = Some (b, s', st') /\ ok s'.
Proof.
  intros Hs. unfold AddMessage. destruct (total_pre s msg Hs) as [b ->]. cbn [mbind option_bind].
  destruct b; [by apply (total_add (ok := ok))|by eexists _, _, _].
Qed.

#[export] Instance logged_total {S} `{Total S ic ok} : Total ic (fun s : S * list message => ok s.1).
Proof.
  split; [split|]; intros.
  - unfold PreAddMessage. cbn. by apply (total_pre (ok := ok)).
  - cbn. destruct (total_open (ok := ok) c s.1 st) as (b & s' & st' & -> & Hs); [done|]. cbn. by eexists _, _, _.
  - cbn. destruct (total_close (ok := ok) s.1 st) as (s' & st' & -> & Hs); [done|]. cbn. by eexists _, _.
  - cbn. destruct (total_cron (ok := ok) c s.1 st) as (s' & st' & -> & Hs); [done|]. cbn. by eexists _, _.
  - cbn. by apply (total_delete (ok := ok)).
  - cbn. destruct (total_add (ok := ok) c msg s.1 st) as (b & s' & st' & -> & Hs); [done|]. cbn. by eexists _, _, _.
Qed.

(** A store that can be deleted, whatever the counters are then. *)
Definition deletable {S : Type} `{StoreOps S} (s : S) : Prop := forall st, is_Some (Delete s st).

(** What the storer needs of its store, and a store of those below it: opened
    once, closed once, given messages of some kind.  After it was opened it is
    [ok]; a store that could not be opened may not know its state. *)
Class Serves {S : Type} `{StoreOps S} (ignore_case : bool) (fits : message -> Prop) (fresh ok : S -> Prop) := {
  serves_open : forall c s st, fresh s ->
    exists b s' st', Open c s st = Some (b, s', st') /\ ok s' /\ (b = true -> is_Some (State s'));
  serves_close : forall s st, ok s -> exists s' st', Close s st = Some (s', st') /\ deletable s';
  serves_delete : forall s, ok s -> deletable s;
  serves_add : forall c msg s st, ok s -> fits msg ->
    exists b s' st', AddMessage ignore_case c msg s st = Some (b, s', st') /\ ok s' /\ (is_Some (State s) -> is_Some (State s'));
  serves_cron : forall c s st, ok s ->
    exists s' st', Cron c s st = Some (s', st') /\ ok s' /\ (is_Some (State s) -> is_Some (State s'));
  serves_state : forall s, ok s -> IsOpen s = true -> is_Some (State s);
}.

(** A store that always knows its state. *)
Class Stated {S : Type} `{StoreOps S} (ok : S -> Prop) := stated : forall s, ok s -> is_Some (State s).

(** What a secondary store must promise, so that the buffer store over it is
    defined: it can always be opened, also again, and what it hands back fits. *)
Class Keeps {S : Type} `{StoreOps S} (ignore_case : bool) (fits : message -> Prop) (ok : S -> Prop) := {
  keeps_steady :: Steady ignore_case ok;
  keeps_stated :: Stated ok;
  keeps_open : forall c s st b s' st', ok s -> Open c s st = Some (b, s', st') -> b = true /\ IsOpen s' = true;
  keeps_add : forall c msg s st, ok s -> IsOpen s = true -> fits msg ->
    exists b s' st', DoAddMessage c msg s st = Some (b, s', st') /\ ok s';
  keeps_oldest : forall s st s' st', ok s -> Close s st = Some (s', st') ->
    exists l, GetOldestMessages s' = Some l /\ Forall fits l /\ ok (DeleteOldestMessages s');
}.

(** A store all of whose methods are defined at any time. *)
Lemma total_serves {S} `{Total S ic ok} `{!Stated ok} fits : Serves ic fits ok ok.
Proof.
  split.
  - intros c s st Hs. destruct (total_open (ok := ok) c s st Hs) as (b & s' & st' & E & Hs'). exists b, s', st'.
    split_and!; [done|done|intros _; by apply (stated (ok := ok))].
  - intros s st Hs. destruct (total_close (ok := ok) s st Hs) as (s' & st' & E & Hs'). exists s', st'. split; [done|].
    intros st2. by apply (total_delete (ok := ok)).
  - intros s Hs st. by apply (total_delete (ok := ok)).
  - intros c msg s st Hs _. destruct (AddMessage_total (ok := ok) c msg s st Hs) as (b & s' & st' & E & Hs'). exists b, s', st'.
    split_and!; [done|done|intros _; by apply (stated (ok := ok))].
  - intros c s st Hs. destruct (total_cron (ok := ok) c s st Hs) as (s' & st' & E & Hs'). exists s', st'.
    split_and!; [done|done|intros _; by apply (stated (ok := ok))].
  - intros s Hs _. by apply (stated (ok := ok)).
Qed.

(** A topic of a store that can be matched against any topic. *)
Definition matchable (topic : bytes) : Prop :=
  topic = bs "*" \/ exists toks, parse_glob topic = Some toks /\ forall t, safe_start toks t.

Lemma matchable_pre {S} `{StoreOps S} ic msg (s : S) : matchable (topic_ s) -> is_Some (PreAddMessage ic msg s).
Proof.
  intros Hm. unfold PreAddMessage. destruct (decide (topic_ s = bs "*")) as [|Hne]; [by eexists|].
  destruct Hm as [?|(toks & Ht & Hs)]; [done|].
  destruct (stringmatchlen_right (topic_ s) msg.1 ic toks Ht (Hs _)) as (b & -> & _). by eexists.
Qed.

#[export] Instance NullStore_total ic : Total ic (fun s : NullStore => matchable (null_topic s)).
Proof.
  split; [split|]; intros.
  - by apply matchable_pre.
  - by eexists _, _, _.
  - by eexists _, _.
  - by eexists _, _.
  - by eexists.
  - by eexists _, _, _.
Qed.

#[export] Instance NullStore_stated (ok : NullStore -> Prop) : Stated ok.
Proof. intros s _. by eexists. Qed.

(** The store for all topics. *)
#[export] Instance NullStore_all_total ic : Total ic (fun s : NullStore => null_topic s = bs "*").
Proof.
  split; [split|]; intros.
  - apply matchable_pre. by left.
  - by eexists _, _, _.
  - by eexists _, _.
  - by eexists _, _.
  - by eexists.
  - by eexists _, _, _.
Qed.

(** A logged store records what it accepts, and nothing else. *)
Lemma logged_add {S} `{Total S ic ok} c msg (s : S * list message) st : ok s.1 ->
  exists b s' st', AddMessage ic c msg s st = Some (b, s', st') /\ ok s'.1
    /\ s'.2 = if b : bool then s.2 ++ [msg] else s.2.
Proof.
  intros Hs. unfold AddMessage. destruct (total_pre (ok := fun s : S * list message => ok s.1) s msg Hs) as [b ->].
  cbn [mbind option_bind]. destruct b; [|by eexists _, _, _]. cbn.
  destruct (total_add (ok := ok) c msg s.1 st Hs) as (b & s' & st' & -> & Hok). cbn. by eexists _, _, _.
Qed.

Lemma for_stores_add {S} `{Total S ic ok} c msg (l : list (S * list message)) st : Forall (fun s => ok s.1) l ->
  exists acc l' st', for_stores (AddMessage ic c msg) l st = Some (acc, l', st')
    /\ Forall (fun s => ok s.1) l' /\ length acc = length l
    /\ l'.*2 = zip_with (fun (log : list message) (a : bool) => if a then log ++ [msg] else log) l.*2 acc.
Proof.
  revert st. induction l as [|s l IH]; intros st Hl; [by eexists [], [], _|].
  apply Forall_cons in Hl as [Hs Hl]. destruct (logged_add c msg s st Hs) as (b & s' & st1 & E & Hs' & Hlog).
  destruct (IH st1 Hl) as (acc & l' & st2 & E2 & Hl' & Hlen & Hlogs).
  cbn [for_stores]. rewrite E. cbn [mbind option_bind]. rewrite E2. cbn [mbind option_bind].
  eexists _, _, _. split; [done|]. split; [by constructor|]. split; [cbn; lia|]. cbn. by rewrite Hlog, Hlogs.
Qed.

Lemma count_true_any l : (count_true l >? 0) = existsb id l.
Proof.
  unfold count_true. rewrite Z.gtb_ltb. induction l as [|[] l IH]; cbn; [done| |exact IH].
  by apply Z.ltb_lt.
Qed.

Lemma count_true_all l : (count_true l =? zlen l) = forallb id l.
Proof.
  unfold count_true. induction l as [|b l IH]; cbn [length forallb id]; [done|].
  pose proof (length_filter (fun b => b = true) l) as Hle. destruct b.
  - rewrite filter_cons_True by done. cbn [length andb]. rewrite <- IH. apply Bool.eq_iff_eq_true.
    rewrite !Z.eqb_eq. lia.
  - rewrite filter_cons_False by done. cbn [andb]. apply Z.eqb_neq. lia.
Qed.

(** A multiple store offers each message to every one of its stores exactly once, whatever
    the others answer, and returns true when one of them accepted it, or when all did with success
    "all". *)
Theorem multiple_store_delivers {S} `{Total S ic ok} c msg (m : MultipleStore (S * list message)) st :
  Forall (fun s => ok s.1) (multi_stores m) ->
  exists acc m' st', MultipleStore_DoAddMessage ic c msg m st
      = Some (match success_ m with kAny => existsb id acc | kAll => forallb id acc end, m', st')
    /\ Forall (fun s => ok s.1) (multi_stores m') /\ length acc = length (multi_stores m)
    /\ (multi_stores m').*2
       = zip_with (fun (log : list message) (a : bool) => if a then log ++ [msg] else log) (multi_stores m).*2 acc.
Proof.
  intros Hok. destruct (for_stores_add c msg (multi_stores m) st Hok) as (acc & l' & st' & E & Hl' & Hlen & Hlogs).
  unfold MultipleStore_DoAddMessage. rewrite E. cbn [mbind option_bind]. exists acc. eexists _, st'. split.
  - repeat f_equal. destruct (success_ m); [apply count_true_any|]. rewrite <- Hlen. apply count_true_all.
  - done.
Qed.

(** A priority store puts each message into the first of its stores that accepts it and
    into no other, and returns false only when every store refused it. *)
Theorem priority_store_delivers_once {S} `{Total S ic ok} c msg (p : PriorityStore (S * list message)) st :
  Forall (fun s => ok s.1) (prio_stores p) ->
  exists b p' st', PriorityStore_DoAddMessage ic c msg p st = Some (b, p', st')
    /\ Forall (fun s => ok s.1) (prio_stores p')
    /\ if b : bool
       then exists before s rest before' s', prio_stores p = before ++ s :: rest
              /\ prio_stores p' = before' ++ s' :: rest
              /\ before'.*2 = before.*2 /\ s'.2 = s.2 ++ [msg]
       else (prio_stores p').*2 = (prio_stores p).*2.
Proof.
  intros Hok. unfold PriorityStore_DoAddMessage. destruct p as [t l o]. cbn [prio_stores prio_topic prio_open] in *.
  assert (exists b l' st', first_accepts ic c msg l st = Some (b, l', st') /\ Forall (fun s => ok s.1) l'
    /\ if b : bool
       then exists before s rest before' s', l = before ++ s :: rest /\ l' = before' ++ s' :: rest
              /\ before'.*2 = before.*2 /\ s'.2 = s.2 ++ [msg]
       else l'.*2 = l.*2) as (b & l' & st' & E & Hl' & Hb).
  { clear t o. revert st. induction l as [|s l IH]; intros st; [by eexists _, _, _|].
    apply Forall_cons in Hok as [Hs Hl]. destruct (logged_add c msg s st Hs) as (b & s' & st1 & E & Hs' & Hlog).
    cbn [first_accepts]. rewrite E. cbn [mbind option_bind]. destruct b.
    - eexists _, _, _. split; [done|]. split; [by constructor|]. by exists [], s, l, [], s'.
    - destruct (IH Hl st1) as (b & l' & st2 & E2 & Hl' & Hb). rewrite E2. cbn [mbind option_bind].
      eexists _, _, _. split; [done|]. split; [by constructor|]. destruct b.
      + destruct Hb as (bf & x & rest & bf' & x' & -> & -> & Hbf & Hx).
        exists (s :: bf), x, rest, (s' :: bf'), x'. split_and!; [done..| |done]. cbn. by rewrite Hlog, Hbf.
      + cbn. by rewrite Hlog, Hb. }
  rewrite E. cbn [mbind option_bind]. by eexists _, _, _.
Qed.

(** Two stores for topics of "app.", and one for all. *)
Definition null_logged (topic : bytes) : NullStore * list message := (MkNull topic true, []).
Definition demo_stores : list (NullStore * list message) :=
  [null_logged (bs "app.*"); null_logged (bs "db"); null_logged (bs "*")].
Definition demo_clock : clock := Clock 1000 1000.

Lemma demo_stores_ok : Forall (fun s : NullStore * list message => matchable (null_topic s.1)) demo_stores.
Proof.
  assert (matchable (bs "app.*")) by (right; eexists; split; [reflexivity|intros t; by right]).
  assert (matchable (bs "db")) by (right; eexists; split; [reflexivity|intros t; by right]).
  assert (matchable (bs "*")) by by left.
  by repeat apply List.Forall_cons.
Qed.

Lemma multiple_store_delivers_witness :
  let m := MkMultiple (bs "*") demo_stores kAll true in
  let r := MultipleStore_DoAddMessage false demo_clock (bs "app.web", bs "hello") m stat_zero in
  (exists m' st', r = Some (false, m', st')
     /\ (multi_stores m').*2 = [[(bs "app.web", bs "hello")]; []; [(bs "app.web", bs "hello")]]).
Proof.
  cbv zeta. destruct (multiple_store_delivers (ic := false) demo_clock (bs "app.web", bs "hello")
    (MkMultiple (bs "*") demo_stores kAll true) stat_zero demo_stores_ok) as (acc & m' & st' & E & _ & _ & Hlog).
  set (r := MultipleStore_DoAddMessage _ _ _ _ _) in *. vm_compute in r. subst r. injection E as E1 E2 E3.
  exists m', st'. subst m'. split; [by rewrite E3|]. reflexivity.
Defined.

Lemma priority_store_delivers_once_witness :
  let p := MkPriority (bs "*") (tail demo_stores) true in
  exists p' st', PriorityStore_DoAddMessage false demo_clock (bs "app.web", bs "hello") p stat_zero = Some (true, p', st')
    /\ (prio_stores p').*2 = [[]; [(bs "app.web", bs "hello")]].
Proof.
  cbv zeta. assert (Forall (fun s : NullStore * list message => matchable (null_topic s.1)) (tail demo_stores)) as Hok
    by (pose proof demo_stores_ok as H; by inversion H).
  destruct (priority_store_delivers_once (ic := false) demo_clock (bs "app.web", bs "hello")
    (MkPriority (bs "*") (tail demo_stores) true) stat_zero Hok) as (b & p' & st' & E & _ & _).
  set (r := PriorityStore_DoAddMessage _ _ _ _ _) in *. vm_compute in r. subst r. injection E as E1 E2 E3.
  exists p', st'. subst p' b. split; [by rewrite E3|]. reflexivity.
Defined.

(** ** The buffer store loses nothing silently, with one exception *)

(** What a store must promise to be a secondary store: [buffered] are the
    messages it keeps and has not handed back, up to their order. *)
Class Backing {S : Type} `{StoreOps S} (ignore_case : bool) (ok : S -> Prop)
    (storable : message -> Prop) (buffered : S -> list message) := {
  backing_steady :: Steady ignore_case ok;
  backing_open : forall c s st b s' st', ok s -> Open c s st = Some (b, s', st') ->
    IsOpen s' = true /\ buffered s' ≡ₚ buffered s;
  backing_add : forall c msg s st, ok s -> IsOpen s = true -> storable msg ->
    exists b s' st', DoAddMessage c msg s st = Some (b, s', st') /\ ok s'
      /\ buffered s' ≡ₚ if b : bool then msg :: buffered s else buffered s;
  backing_close : forall s st s' st', ok s -> Close s st = Some (s', st') ->
    IsOpen s' = false /\ buffered s' ≡ₚ buffered s;
  backing_cron : forall c s st s' st', ok s -> Cron c s st = Some (s', st') -> buffered s' ≡ₚ buffered s;
  backing_have : forall s, ok s -> HaveOldMessage s = false -> buffered s = [];
  backing_oldest : forall s, ok s -> IsOpen s = false ->
    exists l, GetOldestMessages s = Some l /\ ok (DeleteOldestMessages s)
      /\ buffered s ≡ₚ l ++ buffered (DeleteOldestMessages s);
}.

(** What makes it empty its files: closing it makes no files, taking the
    oldest file leaves fewer, and a closed store makes none by itself. *)
Class Draining {S : Type} `{StoreOps S} (ok : S -> Prop) (pending : S -> nat) := {
  drain_oldest : forall s st s' st', ok s -> HaveOldMessage s = true -> Close s st = Some (s', st') ->
    (pending (DeleteOldestMessages s') < pending s)%nat /\ IsOpen (DeleteOldestMessages s') = false;
  drain_cron : forall c s st s' st', ok s -> IsOpen s = false -> Cron c s st = Some (s', st') -> pending s' = pending s;
}.

(** What happens to an open buffer store. *)
Inductive bevent : Type := BAdd (c : clock) (msg : message) | BCron (c : clock).

Section conservation.
Context {P S : Type} `{StoreOps P} `{StoreOps S}.
Variable ic : bool.
Variables (ok_p : P -> Prop) (ok_s : S -> Prop) (storable : message -> Prop) (buffered : S -> list message).
Context `{!Total ic ok_p} `{!Backing ic ok_s storable buffered}.

Abbreviation store := (BufferStore (P * list message) S).

(** The queue of messages read back. *)
Definition in_queue (b : store) : list message :=
  match msg_to_transfer_ b with Queue q => q | _ => [] end.

(** Where a message can be: accepted by the primary store, in the queue, or
    in the secondary store. *)
Definition in_system (b : store) : list message :=
  (primary_ b).2 ++ in_queue b ++ buffered (secondary_ b).

Definition bs_ok (b : store) : Prop :=
  buf_open b = true /\ ok_p (primary_ b).1 /\ ok_s (secondary_ b)
  /\ match state_ b, msg_to_transfer_ b with
     | Some kTransfering, Queue _ => True
     | Some kToPrimary, QNull | Some kToSecondary, QNull => True
     | _, _ => False
     end.

Definition bstep (e : bevent) (b : store) (st : Statistic) : option (option bool * store * Statistic) :=
  match e with
  | BAdd c msg => '(r, b, st) ← BufferStore_DoAddMessage ic c msg b st; Some (Some r, b, st)
  | BCron c => '(b, st) ← BufferStore_Cron ic c b st; Some (None, b, st)
  end.

Fixpoint brun (es : list bevent) (b : store) (st : Statistic) : option (list (option bool) * store * Statistic) :=
  match es with
  | [] => Some ([], b, st)
  | e :: es => '(r, b, st) ← bstep e b st; '(rs, b, st) ← brun es b st; Some (r :: rs, b, st)
  end.

(** The messages for which [DoAddMessage] returned true. *)
Fixpoint taken (es : list bevent) (rs : list (option bool)) : list message :=
  match es, rs with
  | BAdd _ msg :: es, Some true :: rs => msg :: taken es rs
  | _ :: es, _ :: rs => taken es rs
  | _, _ => []
  end.

Definition is_cron (e : bevent) : bool := match e with BCron _ => true | _ => false end.
Definition storable_event (e : bevent) : Prop := match e with BAdd _ msg => storable msg | _ => True end.

(** The primary store takes every message. *)
Definition never_refuses : Prop := forall c msg p st r p' st',
  ok_p p -> AddMessage ic c msg p st = Some (r, p', st') -> r = true.

Lemma logged_refuses c msg (p : P * list message) st r p' st' : never_refuses -> ok_p p.1 ->
  AddMessage ic c msg p st = Some (r, p', st') -> r = true.
Proof.
  intros Hn Hp. unfold AddMessage, PreAddMessage. cbn [topic_ logged_ops]. destruct (total_pre (ok := ok_p) p.1 msg Hp) as [b Hb].
  unfold PreAddMessage in Hb. rewrite Hb. cbn [mbind option_bind]. destruct b.
  - cbn. destruct (DoAddMessage c msg p.1 st) as [[[r0 p0] st0]|] eqn:E; cbn; [|done]. intros [= <- <- <-].
    apply (Hn c msg p.1 st r0 p0 st0 Hp). unfold AddMessage, PreAddMessage. rewrite Hb. cbn. exact E.
  - intros [= <- <- <-]. exfalso. enough (false = true) by done. apply (Hn c msg p.1 st false p.1 st Hp).
    unfold AddMessage, PreAddMessage. by rewrite Hb.
Qed.

Lemma send_queue_ok cnt c q (p : P * list message) st : ok_p p.1 ->
  exists q' p' st' lost, send_queue ic cnt c q p st = Some (q', p', st') /\ ok_p p'.1
    /\ p.2 ++ q ≡ₚ p'.2 ++ q' ++ lost /\ (length lost <= 1)%nat /\ (never_refuses -> lost = []).
Proof.
  revert q p st. induction cnt as [|cnt IH]; intros q p st Hp; cbn [send_queue].
  { exists q, p, st, []. rewrite app_nil_r. split_and!; [done..|cbn; lia|done]. }
  destruct q as [|msg q]; [exists [], p, st, []; split_and!; [done..|cbn; lia|done]|].
  destruct (logged_add c msg p st Hp) as (r & p1 & st1 & E & Hp1 & Hlog). rewrite E. cbn [mbind option_bind].
  destruct r.
  - destruct (IH q p1 (stat_unbuffered st1) Hp1) as (q' & p' & st' & lost & E' & Hp' & Hperm & Hlen & Hn).
    exists q', p', st', lost. split_and!; try done. rewrite <- Hperm, Hlog, <- app_assoc. done.
  - exists q, p1, (stat_unbuffered st1), [msg]. split_and!; try done.
    + rewrite Hlog. solve_Permutation.
    + intros Hn. pose proof (logged_refuses _ _ _ _ _ _ _ Hn Hp E). done.
Qed.

Lemma refill_ok q (s : S) st : ok_s s ->
  exists q' s' st', refill_queue q s st = Some (q', s', st') /\ ok_s s' /\ q ++ buffered s ≡ₚ q' ++ buffered s'.
Proof.
  intros Hs. destruct q as [|m q]; cbn [refill_queue]; [|by eexists _, _, _].
  destruct (HaveOldMessage s) eqn:Hh; [|by eexists _, _, _].
  destruct (total_close (ok := ok_s) s st Hs) as (s1 & st1 & E & Hs1). rewrite E. cbn [mbind option_bind].
  destruct (backing_close _ _ _ _ Hs E) as [Hc Hb].
  destruct (backing_oldest s1 Hs1 Hc) as (l & -> & Hd & Hperm). cbn [mbind option_bind].
  eexists _, _, _. split; [done|]. split; [done|]. by rewrite <- Hb.
Qed.

Lemma transfer_ok c (b : store) st : bs_ok b -> state_ b = Some kTransfering ->
  exists b' st' lost, transfer ic c b st = Some (b', st') /\ bs_ok b'
    /\ in_system b ≡ₚ in_system b' ++ lost /\ (length lost <= 1)%nat /\ (never_refuses -> lost = []).
Proof.
  intros (Ho & Hp & Hs & Hx) Hst. rewrite Hst in Hx. unfold transfer, in_system, in_queue.
  destruct (msg_to_transfer_ b) as [| |q] eqn:Eq; try done.
  destruct (send_queue_ok max_msg_per_cron c q (primary_ b) st Hp) as (q1 & p1 & st1 & lost & E1 & Hp1 & Hperm & Hlen & Hn).
  rewrite E1. cbn [mbind option_bind].
  destruct (refill_ok q1 (secondary_ b) st1 Hs) as (q2 & s2 & st2 & E2 & Hs2 & Hb2). rewrite E2. cbn [mbind option_bind].
  assert ((primary_ b).2 ++ q ++ buffered (secondary_ b) ≡ₚ (p1.2 ++ q2 ++ buffered s2) ++ lost) as Hmain.
  { rewrite (app_assoc (primary_ b).2), Hperm, <- Hb2. solve_Permutation. }
  destruct (decide (q2 = [])) as [->|Hne].
  - destruct (HaveOldMessage s2) eqn:Hh.
    + exists (with_state (with_secondary (with_primary b p1) s2) kTransfering (Queue [])), st2, lost. by split_and!.
    + destruct (total_close (ok := ok_s) s2 st2 Hs2) as (s3 & st3 & E3 & Hs3). rewrite E3. cbn [mbind option_bind].
      destruct (backing_close _ _ _ _ Hs2 E3) as [_ Hb3]. eexists _, st3, lost. split; [done|].
      split_and!; try done. cbn. by rewrite Hb3.
  - eexists _, st2, lost. by split_and!.
Qed.

Lemma cron_ok c (b : store) st : bs_ok b ->
  exists b' st' lost, BufferStore_Cron ic c b st = Some (b', st') /\ bs_ok b'
    /\ in_system b ≡ₚ in_system b' ++ lost /\ (length lost <= 1)%nat /\ (never_refuses -> lost = []).
Proof.
  intros Hok. pose proof Hok as (Ho & Hp & Hs & Hx). unfold BufferStore_Cron. rewrite Ho. cbn [negb].
  destruct (state_ b) as [x|] eqn:Ex; [|done]. cbn [mbind option_bind].
  set (xb := if decide _ then _ else _).
  assert (exists x' b1, xb = (x', b1) /\ state_ b1 = Some x' /\ bs_ok b1 /\ in_system b1 = in_system b)
    as (x' & b1 & -> & Ex1 & Hok1 & Hsys1).
  { unfold xb. destruct (decide _) as [[-> Hop]|Hno]; [|by exists x, b].
    destruct (msg_to_transfer_ b) eqn:Eq; try done.
    exists kTransfering, (with_state b kTransfering (Queue [])). split_and!; [done|done|done|].
    unfold in_system, in_queue. by rewrite Eq. }
  assert (exists b2 st2 lost, (if decide (x' = kTransfering) then transfer ic c b1 st else Some (b1, st)) = Some (b2, st2)
    /\ bs_ok b2 /\ in_system b ≡ₚ in_system b2 ++ lost /\ (length lost <= 1)%nat /\ (never_refuses -> lost = []))
    as (b2 & st2 & lost & -> & Hok2 & Hperm & Hlen & Hn).
  { rewrite <- Hsys1. destruct (decide (x' = kTransfering)) as [->|Hne]; [by apply transfer_ok|].
    exists b1, st, []. split_and!; [done..|by rewrite app_nil_r|cbn; lia|done]. }
  cbn [mbind option_bind]. destruct Hok2 as (Ho2 & Hp2 & Hs2 & Hx2).
  destruct (total_cron (ok := fun p : P * list message => ok_p p.1) c (primary_ b2) st2 Hp2) as (p3 & st3 & E3 & Hp3).
  assert (p3.2 = (primary_ b2).2) as Hlog3.
  { cbn in E3. destruct (Cron c (primary_ b2).1 st2) as [[p0 st0]|]; [|done]. by injection E3 as <- <-. }
  rewrite E3. cbn [mbind option_bind].
  destruct (total_cron (ok := ok_s) c (secondary_ b2) st3 Hs2) as (s4 & st4 & E4 & Hs4). rewrite E4. cbn [mbind option_bind].
  pose proof (backing_cron _ _ _ _ _ Hs2 E4) as Hb4.
  exists (with_secondary (with_primary b2 p3) s4), st4, lost. split_and!; try done.
  rewrite Hperm. unfold in_system. cbn. by rewrite Hlog3, Hb4.
Qed.

Lemma add_secondary_ok c msg (b : store) st : bs_ok b -> storable msg ->
  exists r b' st', add_to_secondary ic c msg b st = Some (r, b', st') /\ bs_ok b'
    /\ in_system b' ≡ₚ if r then msg :: in_system b else in_system b.
Proof.
  intros (Ho & Hp & Hs & Hx) Hm. unfold add_to_secondary.
  assert (exists s1 st1, (if negb (IsOpen (secondary_ b)) then
      '(_, s, st) ← Open c (secondary_ b) st; Some (s, st) else Some (secondary_ b, st)) = Some (s1, st1)
    /\ ok_s s1 /\ IsOpen s1 = true /\ buffered s1 ≡ₚ buffered (secondary_ b)) as (s1 & st1 & -> & Hs1 & Ho1 & Hb1).
  { destruct (IsOpen (secondary_ b)) eqn:E; cbn [negb]; [by eexists _, _|].
    destruct (total_open (ok := ok_s) c (secondary_ b) st Hs) as (r & s1 & st1 & E1 & Hs1). rewrite E1.
    destruct (backing_open _ _ _ _ _ _ Hs E1). by eexists _, _. }
  cbn [mbind option_bind]. unfold AddMessage. destruct (total_pre (ok := ok_s) s1 msg Hs1) as [pre ->].
  cbn [mbind option_bind]. destruct pre.
  - destruct (backing_add c msg s1 st1 Hs1 Ho1 Hm) as (r & s2 & st2 & E2 & Hs2 & Hb2). rewrite E2. cbn [mbind option_bind].
    destruct r; eexists _, _, _; (split; [done|]); (split; [done|]); unfold in_system; cbn;
      rewrite Hb2, Hb1; unfold in_queue; cbn; solve_Permutation.
  - eexists _, _, _. split; [done|]. split; [done|]. unfold in_system. cbn. by rewrite Hb1.
Qed.

Lemma add_ok c msg (b : store) st : bs_ok b -> storable msg ->
  exists r b' st', BufferStore_DoAddMessage ic c msg b st = Some (r, b', st') /\ bs_ok b'
    /\ in_system b' ≡ₚ if r then msg :: in_system b else in_system b.
Proof.
  intros Hok Hm. pose proof Hok as (Ho & Hp & Hs & Hx). unfold BufferStore_DoAddMessage.
  destruct (state_ b) as [x|] eqn:Ex; [|done]. cbn [mbind option_bind].
  destruct (decide (x = kToPrimary)) as [->|Hne]; [|by apply add_secondary_ok].
  destruct (msg_to_transfer_ b) as [| |q] eqn:Eq; try done.
  assert (exists ref b1 st1, primary_refuses ic c msg b st = Some (ref, b1, st1) /\ bs_ok b1
    /\ msg_to_transfer_ b1 = QNull /\ secondary_ b1 = secondary_ b
    /\ (primary_ b1).2 = if ref : bool then (primary_ b).2 else (primary_ b).2 ++ [msg])
    as (ref & b1 & st1 & -> & Hok1 & Eq1 & Hs1 & Hlog1).
  { unfold primary_refuses. destruct (IsOpen (primary_ b)); cbn [negb]; [|by exists true, b, st].
    destruct (logged_add c msg (primary_ b) st Hp) as (r & p' & st' & E & Hp' & Hlog). rewrite E. cbn [mbind option_bind].
    exists (negb r), (with_primary b p'), st'. split; [done|]. split.
    - unfold bs_ok. cbn. by rewrite Ex, Eq.
    - split_and!; [done|done|]. cbn. rewrite Hlog. by destruct r. }
  cbn [mbind option_bind]. destruct Hok1 as (Ho1 & Hp1 & Hsok1 & Hx1). destruct ref.
  - destruct (total_open (ok := ok_s) c (secondary_ b1) st1 Hsok1) as (r & s2 & st2 & E2 & Hs2). rewrite E2.
    cbn [mbind option_bind]. destruct (backing_open _ _ _ _ _ _ Hsok1 E2) as [_ Hb2].
    destruct (add_secondary_ok c msg (with_state (with_secondary b1 s2) kToSecondary (msg_to_transfer_ b1)) st2)
      as (r' & b' & st' & E & Hok' & Hperm); [|done|].
    { unfold bs_ok. cbn. by rewrite Eq1. }
    rewrite E. exists r', b', st'. split; [done|]. split; [done|]. rewrite Hperm. unfold in_system, in_queue. cbn.
    rewrite Eq1, Eq, Hlog1. destruct r'; by rewrite Hb2, Hs1.
  - exists true, b1, st1. split; [done|]. split; [done|]. unfold in_system, in_queue.
    rewrite Eq1, Eq, Hlog1, Hs1. solve_Permutation.
Qed.


(** ** The buffer is emptied *)

Section draining.
Context (pending : S -> nat) `{!Draining ok_s pending}.

Lemma send_queue_sends cnt c q (p : P * list message) st q' p' st' :
  send_queue ic cnt c q p st = Some (q', p', st') ->
  (length q' <= length q)%nat /\ (q <> [] -> (0 < cnt)%nat -> (length q' < length q)%nat).
Proof.
  revert q p st. induction cnt as [|cnt IH]; intros q p st; cbn [send_queue].
  { intros [= <- <- <-]. lia. }
  destruct q as [|msg q]; [by intros [= <- <- <-]|].
  destruct (AddMessage ic c msg p st) as [[[r p1] st1]|]; cbn [mbind option_bind]; [|done]. destruct r.
  - intros E. destruct (IH _ _ _ E) as [? _]. cbn [length]. lia.
  - intros [= <- <- <-]. cbn [length]. lia.
Qed.

(** The messages still on their way, and the files. *)
Definition waiting (b : store) : nat := length (in_queue b ++ buffered (secondary_ b)).
Definition before (b' b : store) : Prop :=
  (waiting b' < waiting b)%nat \/ waiting b' = waiting b /\ (pending (secondary_ b') < pending (secondary_ b))%nat.

Lemma transfer_progress c (b : store) st : bs_ok b -> state_ b = Some kTransfering -> never_refuses ->
  exists b' st', transfer ic c b st = Some (b', st') /\
    ((state_ b' = Some kToPrimary /\ buffered (secondary_ b') = [])
     \/ (state_ b' = Some kTransfering
         /\ ((waiting b' < waiting b)%nat
             \/ waiting b' = waiting b /\ (pending (secondary_ b') < pending (secondary_ b))%nat /\ IsOpen (secondary_ b') = false))).
Proof.
  intros (Ho & Hp & Hs & Hx) Hst Hn. rewrite Hst in Hx. unfold transfer, waiting, in_queue.
  destruct (msg_to_transfer_ b) as [| |q] eqn:Eq; try done.
  destruct (send_queue_ok max_msg_per_cron c q (primary_ b) st Hp) as (q1 & p1 & st1 & lost & E1 & Hp1 & _ & _ & _).
  destruct (send_queue_sends _ _ _ _ _ _ _ _ E1) as [L1 L2].
  rewrite E1. cbn [mbind option_bind].
  destruct (refill_ok q1 (secondary_ b) st1 Hs) as (q2 & s2 & st2 & E2 & Hs2 & Hb2). rewrite E2. cbn [mbind option_bind].
  pose proof (Permutation_length Hb2) as Hlen. rewrite !length_app in *.
  assert ((q2 = [] /\ HaveOldMessage s2 = false)
    \/ (length q2 + length (buffered s2) < length q + length (buffered (secondary_ b)))%nat
    \/ (length q2 + length (buffered s2) = length q + length (buffered (secondary_ b)))%nat
       /\ (pending s2 < pending (secondary_ b))%nat /\ IsOpen s2 = false) as Hcase.
  { destruct q as [|m q]; [|right; left; specialize (L2 ltac:(done) ltac:(unfold max_msg_per_cron; lia)); lia].
    assert (q1 = []) as -> by (destruct q1; [done|cbn in L1; lia]). cbn [refill_queue] in E2.
    destruct (HaveOldMessage (secondary_ b)) eqn:Hh; [|left; by injection E2 as <- <- <-].
    destruct (Close (secondary_ b) st1) as [[s' st']|] eqn:Ec; cbn [mbind option_bind] in E2; [|done].
    destruct (GetOldestMessages s'); cbn [mbind option_bind] in E2; [|done]. injection E2 as <- <- <-.
    destruct (drain_oldest (Draining := Draining0) _ _ _ _ Hs Hh Ec). right. right. split; [cbn in *; lia|done]. }
  destruct (decide (q2 = [])) as [->|Hne].
  - destruct (HaveOldMessage s2) eqn:Hh.
    + eexists _, _. split; [done|]. right. split; [done|]. cbn [length] in *. by destruct Hcase as [[_ ?]|?].
    + destruct (total_close (ok := ok_s) s2 st2 Hs2) as (s3 & st3 & E3 & Hs3). rewrite E3. cbn [mbind option_bind].
      destruct (backing_close _ _ _ _ Hs2 E3) as [_ Hb3].
      assert (buffered s3 = []) by (apply Permutation_nil_r; by rewrite Hb3, (backing_have s2 Hs2 Hh)). eexists _, _. split; [done|]. by left.
  - eexists _, _. split; [done|]. right. split; [done|]. rewrite length_app. by destruct Hcase as [[? _]|?].
Qed.
(** It has a message to transfer, or may begin to. *)
Definition transfers (b : store) : Prop :=
  state_ b = Some kTransfering \/ (state_ b = Some kToSecondary /\ IsOpen (primary_ b) = true).

Lemma cron_progress c (b : store) st : bs_ok b -> transfers b -> never_refuses ->
  exists b' st', BufferStore_Cron ic c b st = Some (b', st') /\ bs_ok b' /\ in_system b ≡ₚ in_system b'
    /\ ((state_ b' = Some kToPrimary /\ (primary_ b').2 = in_system b')
        \/ (state_ b' = Some kTransfering /\ before b' b)).
Proof.
  intros Hok Ht Hn. destruct (cron_ok c b st Hok) as (b' & st' & lost & E & Hok' & Hperm & _ & Hlost).
  rewrite (Hlost Hn), app_nil_r in Hperm. exists b', st'. do 3 (split; [done|]).
  unfold BufferStore_Cron in E. pose proof Hok as (Ho & Hp & Hs & Hx). rewrite Ho in E. cbn [negb] in E.
  assert (exists b1, bs_ok b1 /\ state_ b1 = Some kTransfering /\ waiting b1 = waiting b /\ secondary_ b1 = secondary_ b /\
    ('(b2, st2) ← transfer ic c b1 st; '(p, st3) ← Cron c (primary_ b2) st2; '(s, st4) ← Cron c (secondary_ b2) st3;
     Some (with_secondary (with_primary b2 p) s, st4)) = Some (b', st')) as (b1 & Hok1 & Ex1 & Hw1 & Hs1 & E1).
  { destruct Ht as [Ht|[Ht Hop]]; rewrite Ht in E, Hx; cbn [mbind option_bind] in E.
    - exists b. rewrite decide_False in E by (by intros [? _]). by split_and!.
    - rewrite decide_True in E by done. destruct (msg_to_transfer_ b) eqn:Eq; try done.
      exists (with_state b kTransfering (Queue [])). split_and!; try done. unfold waiting, in_queue. by rewrite Eq. }
  destruct (transfer_progress c b1 st Hok1 Ex1 Hn) as (b2 & st2 & E2 & Hcase).
  destruct (transfer_ok c b1 st Hok1 Ex1) as (b2' & st2' & l2 & E2' & Hok2 & _). rewrite E2 in E2'. injection E2' as <- <-.
  rewrite E2 in E1. cbn [mbind option_bind] in E1. destruct Hok2 as (Ho2 & Hp2 & Hs2 & Hx2).
  destruct (Cron c (primary_ b2) st2) as [[p3 st3]|] eqn:E3; cbn [mbind option_bind] in E1; [|done].
  destruct (Cron c (secondary_ b2) st3) as [[s4 st4]|] eqn:E4; cbn [mbind option_bind] in E1; [|done].
  injection E1 as <- <-. pose proof (backing_cron _ _ _ _ _ Hs2 E4) as Hb4.
  destruct Hcase as [[Hst Hnil]|[Hst Hcase]].
  - left. split; [done|]. rewrite Hst in Hx2. unfold in_system, in_queue. cbn.
    destruct (msg_to_transfer_ b2) eqn:Eq; try done. rewrite Hnil in Hb4. apply Permutation_nil_r in Hb4.
    by rewrite Hb4, !app_nil_r.
  - right. split; [done|]. unfold before. rewrite <- Hs1, <- Hw1.
    assert (waiting (with_secondary (with_primary b2 p3) s4) = waiting b2) as ->.
    { unfold waiting, in_queue. cbn. by rewrite !length_app, Hb4. }
    destruct Hcase as [?|(? & ? & Hcl)]; [by left|right]. split; [done|]. cbn.
    by rewrite (drain_cron (Draining := Draining0) _ _ _ _ _ Hs2 Hcl E4).
Qed.

(** The ticks at [clocks n], [clocks (n + 1)], ... *)
Definition ticks (clocks : nat -> clock) (n k : nat) : list bevent := map (fun i => BCron (clocks i)) (seq n k).

End draining.
End conservation.
