(* ===== verification/FileStore.v ===== *)
(** * store/filestore.cc: files per topic, and buffer files

    A [FileStore] is a primary store, which appends each message as a line to
    a file of its topic, or the secondary store of a buffer store, which
    writes topics and contents with their sizes to one file at a time and
    reads the oldest file back.  The files are those of a [FileSystem] that
    nothing else changes. *)

From S2P Require Import Prelude Common Util Files Stores.

(** ** The class *)

Record FileStore {FS : Type} := MkFileStore {
  fs_topic : bytes;
  buffer_type_ : BufferType;
  path_ : bytes;
  name_ : bytes;
  rotate_interval_ : Z;
  last_rotate_ : Z;
  flush_interval_ : Z;
  last_flush_ : Z;
  secondary_file_ : option File;
  topic_file_ : gmap bytes File;
  store_open : bool;
  files : FS;
}.
Arguments FileStore : clear implicits.
Arguments MkFileStore {_}.

Section filestore.
Context {FS : Type} `{FileSystem FS}.
Variable localtime : Z -> tm.

Definition with_files (s : FileStore FS) (f : option File) (tf : gmap bytes File) (fs : FS) : FileStore FS :=
  MkFileStore (fs_topic s) (buffer_type_ s) (path_ s) (name_ s) (rotate_interval_ s) (last_rotate_ s)
    (flush_interval_ s) (last_flush_ s) f tf (store_open s) fs.
Definition with_store_open (s : FileStore FS) (o : bool) : FileStore FS :=
  MkFileStore (fs_topic s) (buffer_type_ s) (path_ s) (name_ s) (rotate_interval_ s) (last_rotate_ s)
    (flush_interval_ s) (last_flush_ s) (secondary_file_ s) (topic_file_ s) o (files s).
Definition with_times (s : FileStore FS) (rotate flush : Z) : FileStore FS :=
  MkFileStore (fs_topic s) (buffer_type_ s) (path_ s) (name_ s) (rotate_interval_ s) rotate
    (flush_interval_ s) flush (secondary_file_ s) (topic_file_ s) (store_open s) (files s).

(** The constructor, from the fields of a [StoreConfig] it uses. *)
Definition buffer_type_of (t : bytes) : BufferType :=
  if decide (t = bs "primary") then kPrimary else if decide (t = bs "secondary") then kSecondary else kNone.

Definition rotate_interval (buffer : BufferType) (rotate : bytes) : Z :=
  let interval :=
    if decide (rotate = bs "daily") then 3600 * 24
    else if decide (rotate = bs "hourly") then 3600
    else default (-1) (ParseTime (cstr rotate)) in
  if decide (buffer = kSecondary /\ rotate = []) then 60 * 10 else interval.

Definition flush_interval (buffer : BufferType) (flush : bytes) : Z :=
  if decide (buffer = kSecondary) then -1 else default (-1) (ParseTime (cstr flush)).

Definition new_FileStore (topic buffer_type path name rotate flush : bytes) (fs : FS) : FileStore FS :=
  let buffer := buffer_type_of buffer_type in
  let path := if decide (last path = Some "/"%char) then path else path ++ bs "/" in
  MkFileStore topic buffer path name (rotate_interval buffer rotate) 0 (flush_interval buffer flush) 0 None ∅ false fs.

(** [for (auto &it : topic_file_) it.second->Close(true)] *)
Definition close_topics (tf : gmap bytes File) (fs : FS) : FS :=
  foldr (fun (x : bytes * File) fs => snd (Files.Close true x.2 fs)) fs (map_to_list tf).

(** [fflush] changes nothing on files whose bytes count as written. *)
Definition FileStore_Flush (s : FileStore FS) : bool :=
  forallb (fun x : bytes * File => Files.Flush x.2) (map_to_list (topic_file_ s)).

Definition FileStore_Close (s : FileStore FS) : FileStore FS :=
  if negb (store_open s) then s
  else
    let s :=
      if decide (buffer_type_ s = kSecondary) then
        let fs := match secondary_file_ s with Some f => snd (Files.Close true f (files s)) | None => files s end in
        with_files s None (topic_file_ s) fs
      else with_files s (secondary_file_ s) ∅ (close_topics (topic_file_ s) (files s)) in
    with_store_open s false.

Definition FileStore_Open (c : clock) (s : FileStore FS) : bool * FileStore FS :=
  let s := with_store_open (if store_open s then FileStore_Close s else s) true in
  let s :=
    if decide (buffer_type_ s = kSecondary) then
      let '(f, fs) := OpenNamed localtime (time_now c) (path_ s) (name_ s) true (bs "kids.buffer") 0 (files s) in
      with_store_open (with_files s f (topic_file_ s) fs) (bool_decide (f <> None))
    else
      let '(ok, fs) := MakePath (FindRoot (path_ s)) (files s) in
      with_store_open (with_files s (secondary_file_ s) (topic_file_ s) fs) ok in
  let s := with_times s (time_now c) (time_now c) in
  (store_open s, s).

(** A message appended to the buffer file: two texts with their sizes. *)
Definition write_buffer (msg : message) (f : File) (fs : FS) : bool * File * FS :=
  let '(ok, f, fs) := Write msg.1 true false f fs in
  if (ok : bool) then Write msg.2 true false f fs else (false, f, fs).

(** A message appended as a line to the file of its topic, which is opened
    when the topic has none; its name has the start of the rotation period. *)
Definition write_topic (c : clock) (msg : message) (s : FileStore FS) : bool * FileStore FS :=
  match topic_file_ s !! msg.1 with
  | Some f =>
      let '(ok, f, fs) := Write msg.2 false true f (files s) in
      (ok, with_files s (secondary_file_ s) (<[msg.1 := f]> (topic_file_ s)) fs)
  | None =>
      let t := if rotate_interval_ s >? 0 then unixtime c - Z.rem (unixtime c) (rotate_interval_ s) else unixtime c in
      let '(f, fs) := OpenNamed localtime (time_now c) (path_ s) (name_ s) false (cstr msg.1) t (files s) in
      match f with
      | None => (false, with_files s (secondary_file_ s) (topic_file_ s) fs)
      | Some f =>
          let '(ok, f, fs) := Write msg.2 false true f fs in
          (ok, with_files s (secondary_file_ s) (<[msg.1 := f]> (topic_file_ s)) fs)
      end
  end.

Definition FileStore_DoAddMessage (c : clock) (msg : message) (s : FileStore FS) (st : Statistic)
  : bool * FileStore FS * Statistic :=
  let '(success, s) :=
    match (if decide (buffer_type_ s = kSecondary) then secondary_file_ s else None) with
    | Some f =>
        let '(ok, f, fs) := write_buffer msg f (files s) in (ok, with_files s (Some f) (topic_file_ s) fs)
    | None => write_topic c msg s
    end in
  let n := zlen msg.2 in
  (success, s,
   if (success : bool) then
     if decide (buffer_type_ s = kSecondary) then stat_buffered st n else stat_stored st n
   else st).

(** [None] is the division by a rotation interval of 0. *)
Definition FileStore_Cron (c : clock) (s : FileStore FS) : option (FileStore FS) :=
  if negb (store_open s) then Some s
  else
    let t := unixtime c in
    (* what Flush returns is only logged *)
    let flush :=
      if negb (flush_interval_ s =? -1) && (t - last_flush_ s >=? flush_interval_ s)
      then with_times s (last_rotate_ s) t else s in
    if rotate_interval_ s =? -1 then Some flush
    else if rotate_interval_ s =? 0 then None
    else if (Z.rem t (rotate_interval_ s) =? 0) && (last_rotate_ s <? t) then Some (snd (FileStore_Open c s))
    else Some flush.

(** A size and that many bytes: [Bad] for a negative size, which is outside
    the model, [Stop] when [File::Read] fails, which ends the loop of
    [GetOldestMessages] at any of its four calls. *)
Inductive sized : Type := Bad | Stop | Got (text rest : bytes).

Definition read_sized (rest : bytes) : sized :=
  match Read rest 4 with
  | None => Stop
  | Some (size, rest) =>
      let size := of_le32 size in
      if size <? 0 then Bad
      else match Read rest size with None => Stop | Some (t, rest) => Got t rest end
  end.

(** The loop over what is left of the file; each round takes some bytes, so
    their number bounds the fuel. *)
Fixpoint read_messages (fuel : nat) (rest : bytes) : option (list message) :=
  match fuel with
  | O => None
  | S fuel =>
      match read_sized rest with
      | Bad => None
      | Stop => Some []
      | Got topic rest =>
          match read_sized rest with
          | Bad => None
          | Stop => Some []
          | Got content rest => l ← read_messages fuel rest; Some ((topic, content) :: l)
          end
      end
  end.

Definition read_file (content : bytes) : option (list message) := read_messages (S (length content)) content.

Definition FileStore_HaveOldMessage (s : FileStore FS) : bool :=
  bool_decide (FindOldestFile (path_ s) (files s) <> []).

Definition FileStore_GetOldestMessages (s : FileStore FS) : option (list message) :=
  let filename := FindOldestFile (path_ s) (files s) in
  if decide (filename = []) then Some []
  else match fs_read (files s) filename with None => Some [] | Some content => read_file content end.

Definition FileStore_DeleteOldestMessages (s : FileStore FS) : FileStore FS :=
  with_files s (secondary_file_ s) (topic_file_ s) (DeleteOldestFile (path_ s) (files s)).
End filestore.

#[export] Instance FileStore_ops {FS} `{FileSystem FS} (localtime : Z -> tm) : StoreOps (FileStore FS) := {
  topic_ := fs_topic;
  Open c s st := let '(b, s) := FileStore_Open localtime c s in Some (b, s, st);
  IsOpen := store_open;
  Close s st := Some (FileStore_Close s, st);
  DoAddMessage c msg s st := Some (FileStore_DoAddMessage localtime c msg s st);
  State _ := Some Free;
  HaveOldMessage := FileStore_HaveOldMessage;
  GetOldestMessages := FileStore_GetOldestMessages;
  DeleteOldestMessages := FileStore_DeleteOldestMessages;
  Cron c s st := s ← FileStore_Cron localtime c s; Some (s, st);
  Delete _ st := Some st;
}.

(** ** Buffer files *)

(** A message as the secondary store writes it. *)
Definition text_record (t : bytes) : bytes := le32 (zlen t) ++ t.
Definition record (m : message) : bytes := text_record m.1 ++ text_record m.2.

Definition small (t : bytes) : Prop := zlen t < 2 ^ 31.

(** The bytes a message takes in a buffer file. *)
Definition record_size (m : message) : nat := 8 + length m.1 + length m.2.

Lemma length_record m : length (record m) = record_size m.
Proof. unfold record, text_record, record_size. rewrite !length_app. cbn. lia. Qed.

(** What is read back from a buffer file of which [k] bytes are left: the
    messages that are complete, up to the first with an empty text. *)
Fixpoint complete (k : nat) (l : list message) : list message :=
  match l with
  | [] => []
  | m :: l =>
      if decide (m.1 = [] \/ m.2 = []) then []
      else if decide (record_size m <= k)%nat then m :: complete (k - record_size m) l else []
  end.

Lemma of_le32_le32 z : 0 <= z < 2 ^ 31 -> of_le32 (le32 z) = z.
Proof.
  intros Hz. unfold of_le32, le32. cbn [foldr]. rewrite !uchar_byte_of_Z.
  rewrite !Z.shiftl_mul_pow2, !Z.shiftr_div_pow2 by lia.
  assert (z mod 256 + (z / 2 ^ 8 mod 256 + (z / 2 ^ 16 mod 256 + (z / 2 ^ 24 mod 256 + 0 * 2 ^ 8) * 2 ^ 8) * 2 ^ 8) * 2 ^ 8 = z) as ->.
  { change (2 ^ 16) with (2 ^ 8 * 2 ^ 8). change (2 ^ 24) with (2 ^ 8 * 2 ^ 8 * 2 ^ 8).
    rewrite <- !Z.div_div by lia. change (2 ^ 8) with 256.
    pose proof (Z.div_mod z 256). pose proof (Z.div_mod (z / 256) 256). pose proof (Z.div_mod (z / 256 / 256) 256).
    pose proof (Z.mod_small (z / 256 / 256 / 256) 256).
    assert (0 <= z / 256 / 256 / 256 < 256) by (rewrite !Z.div_div by lia; split; [apply Z.div_pos; lia|apply Z.div_lt_upper_bound; lia]).
    lia. }
  apply i32_small. unfold in_i32. lia.
Qed.

Lemma Read_short l n : 0 <= n -> zlen l < n -> Read l n = None.
Proof. intros H1 H2. unfold Read. destruct (n =? 0); [done|]. by rewrite (proj2 (Z.ltb_lt _ _)). Qed.

Lemma Read_take l n k : 0 < n <= zlen l ->
  Read (take k l) n = if decide (n <= Z.of_nat k) then Some (take (Z.to_nat n) l, take (k - Z.to_nat n) (drop (Z.to_nat n) l)) else None.
Proof.
  intros Hn. unfold Read. rewrite (proj2 (Z.eqb_neq n 0)) by lia. rewrite length_take.
  destruct (decide _) as [Hk|Hk].
  - rewrite (proj2 (Z.ltb_ge _ _)) by lia. rewrite take_take, skipn_firstn_comm. repeat f_equal; lia.
  - by rewrite (proj2 (Z.ltb_lt _ _)) by lia.
Qed.

(** A text of a truncated file is read whole or not at all. *)
Lemma read_sized_take t rest k : small t ->
  read_sized (take k (text_record t ++ rest)) =
    if decide (t <> [] /\ (length (text_record t) <= k)%nat)
    then Got t (take (k - length (text_record t)) rest) else Stop.
Proof.
  intros Hs. unfold small in Hs. unfold read_sized, text_record. rewrite length_app.
  change (length (le32 (zlen t))) with 4%nat.
  rewrite Read_take by (rewrite !length_app; change (length (le32 (zlen t))) with 4%nat; lia).
  change (Z.to_nat 4) with (length (le32 (zlen t))). rewrite <- app_assoc, take_app_length, drop_app_length.
  change (length (le32 (zlen t))) with 4%nat. destruct (decide (4 <= Z.of_nat k)) as [H4|H4];
    [|by rewrite decide_False by lia].
  rewrite of_le32_le32, (proj2 (Z.ltb_ge _ _)) by lia. destruct (decide (t = [])) as [->|Hne].
  { rewrite decide_False by (intros [? ?]; done). done. }
  assert (0 < zlen t) by (destruct t; [done|cbn; lia]).
  rewrite Read_take by (rewrite length_app; lia). rewrite Nat2Z.id, take_app_length, drop_app_length.
  destruct (decide (zlen t <= Z.of_nat (k - 4))) as [H1|H1].
  - rewrite decide_True by (split; [done|lia]). by replace (k - 4 - length t)%nat with (k - (4 + length t))%nat by lia.
  - by rewrite decide_False by lia.
Qed.

Lemma read_messages_ok fuel k l : Forall (fun m => small m.1 /\ small m.2) l ->
  (length (take k (concat (map record l))) < fuel)%nat ->
  read_messages fuel (take k (concat (map record l))) = Some (complete k l).
Proof.
  revert fuel k. induction l as [|[t c] l IH]; intros fuel k Hl Hf.
  { destruct fuel as [|fuel]; [lia|]. cbn [map concat complete]. by rewrite take_nil. }
  apply Forall_cons in Hl as [[Ht Hc] Hl]. cbn [fst snd] in Ht, Hc.
  destruct fuel as [|fuel]; [lia|]. cbn [read_messages complete map concat fst snd]. rewrite <- length_record.
  change (record (t, c)) with (text_record t ++ text_record c) in *. cbn [map concat] in Hf.
  rewrite <- app_assoc in *. rewrite read_sized_take by done.
  destruct (decide (t = [])) as [->|Htn]; [by rewrite decide_False, decide_True by naive_solver|].
  rewrite length_app. destruct (decide (length (text_record t) <= k)%nat) as [H1|H1].
  2: { rewrite decide_False by naive_solver. destruct (decide (t = [] \/ c = [])); [done|]. by rewrite decide_False by lia. }
  rewrite decide_True by done. rewrite read_sized_take by done.
  destruct (decide (c = [])) as [->|Hcn]; [by rewrite decide_False, decide_True by naive_solver|].
  rewrite (decide_False (P := t = [] \/ c = [])) by naive_solver.
  destruct (decide (length (text_record t) + length (text_record c) <= k)%nat) as [H2|H2].
  2: { by rewrite decide_False by (intros [_ ?]; lia). }
  rewrite decide_True by (split; [done|lia]). rewrite IH; [|done|].
  - cbn [mbind option_bind]. by rewrite Nat.sub_add_distr.
  - rewrite !length_take, !length_app in *. unfold record, text_record in *. cbn [fst snd] in *.
    rewrite !length_app in *. change (length (le32 (zlen t))) with 4%nat in *. change (length (le32 (zlen c))) with 4%nat in *. lia.
Qed.

(** A file that is whole has all its records. *)
Lemma complete_all l k : Forall (fun m : message => m.1 <> [] /\ m.2 <> []) l ->
  (length (concat (map record l)) <= k)%nat -> complete k l = l.
Proof.
  revert k. induction l as [|m l IH]; intros k Hne Hk; [done|]. apply Forall_cons in Hne as [[H1 H2] Hne].
  cbn [complete map concat] in *. rewrite length_app in Hk. rewrite length_record in Hk. rewrite decide_False by naive_solver.
  rewrite decide_True by lia. f_equal. apply IH; [done|lia].
Qed.

(** What a buffer file can keep. *)
Definition storable (m : message) : Prop := (m.1 <> [] /\ m.2 <> []) /\ small m.1 /\ small m.2.

Lemma storable_small m : storable m -> small m.1 /\ small m.2.
Proof. by intros [_ ?]. Qed.

Lemma read_file_records l : Forall storable l -> read_file (concat (map record l)) = Some l.
Proof.
  intros Hl. unfold read_file. set (n := length (concat (map record l))).
  pose proof (firstn_all (concat (map record l))) as E. fold n in E. rewrite <- E at 1.
  rewrite read_messages_ok.
  - rewrite complete_all; [done| |done]. eapply Forall_impl; [exact Hl|]. by intros m [? _].
  - eapply Forall_impl; [exact Hl|]. by intros m [_ ?].
  - rewrite E. fold n. lia.
Qed.

(** Messages written one after the other, until one fails. *)
Fixpoint write_all {FS} `{FileSystem FS} (l : list message) (f : File) (fs : FS) : bool * File * FS :=
  match l with
  | [] => (true, f, fs)
  | m :: l => let '(ok, f, fs) := write_buffer m f fs in if ok : bool then write_all l f fs else (false, f, fs)
  end.

Section written.
Context {FS : Type} `{FileSystemLaws FS}.

(** A message adds its record to the file and nothing to another. *)
Lemma write_buffer_record m f fs c : is_open_ f = true -> fs_read fs (filename_ f) = Some c ->
  exists fs', write_buffer m f fs = (true, f, fs') /\ fs_read fs' (filename_ f) = Some (c ++ record m)
    /\ forall g, g <> filename_ f -> fs_read fs' g = fs_read fs g.
Proof.
  intros Ho Hc. destruct f as [n o]. cbn in *. subst o. unfold write_buffer, Write. cbn [is_open_ filename_].
  destruct (append_read _ _ (le32 (zlen m.1)) _ Hc) as [H1 O1]. destruct (append_read _ _ m.1 _ H1) as [H2 O2].
  destruct (append_read _ _ (le32 (zlen m.2)) _ H2) as [H3 O3]. destruct (append_read _ _ m.2 _ H3) as [H4 O4].
  eexists. split; [done|]. split.
  - rewrite H4. unfold record, text_record. by rewrite <- !app_assoc.
  - intros g Hg. by rewrite O4, O3, O2, O1.
Qed.

Lemma write_all_records l f : is_open_ f = true -> forall fs c, fs_read fs (filename_ f) = Some c ->
  exists fs', write_all l f fs = (true, f, fs') /\ fs_read fs' (filename_ f) = Some (c ++ concat (map record l))
    /\ forall g, g <> filename_ f -> fs_read fs' g = fs_read fs g.
Proof.
  intros Ho. induction l as [|m l IH]; intros fs c Hc; cbn [write_all map concat].
  - exists fs. by rewrite app_nil_r.
  - destruct (write_buffer_record m f fs c Ho Hc) as (fs1 & -> & H1 & O1). destruct (IH _ _ H1) as (fs2 & -> & H2 & O2).
    exists fs2. split; [done|]. split; [by rewrite H2, <- app_assoc|]. intros g Hg. by rewrite O2, O1.
Qed.

(** C30. Messages whose topics and contents are shorter than 2^31 bytes, written one after the
    other to an open and empty buffer file, are all written and change no other file; and the reader
    gives them back, in order, up to the first with an empty topic or content: from the whole file
    all of them when there is none, and from a file of which only the first k bytes are left those
    that are complete in these bytes. *)
Theorem buffer_file_roundtrip l f fs : is_open_ f = true -> fs_read fs (filename_ f) = Some [] ->
  Forall (fun m => small m.1 /\ small m.2) l ->
  exists fs' content, write_all l f fs = (true, f, fs') /\ fs_read fs' (filename_ f) = Some content
    /\ (forall g, g <> filename_ f -> fs_read fs' g = fs_read fs g)
    /\ (forall k, read_file (take k content) = Some (complete k l))
    /\ (Forall (fun m => m.1 <> [] /\ m.2 <> []) l -> read_file content = Some l).
Proof.
  intros Ho Hc Hl. destruct (write_all_records l f Ho fs [] Hc) as (fs' & E & Hr & Hg). exists fs', (concat (map record l)).
  split_and!; [done|done|done| |].
  - intros k. apply read_messages_ok; [done|lia].
  - intros Hne. apply read_file_records. rewrite Forall_forall in *. intros m Hm. by split; [apply Hne|apply Hl].
Qed.
End written.

Lemma buffer_file_roundtrip_witness :
  let l := [(bs "app.web", bs "GET /"); (bs "db", bs "slow query")] in
  let f := MkFile (bs "d/a.kidsbuffer") true in
  let fs := default empty_fs (fs_open_append empty_fs (filename_ f)) in
  exists fs' content, write_all l f fs = (true, f, fs') /\ fs_read fs' (filename_ f) = Some content
    /\ read_file content = Some l /\ read_file (take 30 content) = Some [(bs "app.web", bs "GET /")].
Proof.
  intros l f fs. assert (Forall (fun m : message => small m.1 /\ small m.2) l) as Hs by (apply (bool_decide_unpack _); vm_compute; exact I).
  assert (fs_read fs (filename_ f) = Some []) as Hr by (vm_compute; reflexivity).
  destruct (buffer_file_roundtrip l f fs eq_refl Hr Hs) as (fs' & content & E & Hc & _ & H1 & H2).
  exists fs', content. split; [exact E|]. split; [exact Hc|]. split.
  - apply H2. repeat constructor; done.
  - exact (H1 30%nat).
Defined.
