(* ===== verification/Secondary.v ===== *)
(** * The secondary store of a buffer store

    A [FileStore] made with buffer="secondary" keeps what it is given and hands
    all of it back, file by file: it is a [Backing] of Stores.v.  What it needs
    of the directory it writes to is an interface, [BufferDirectory]. *)

From S2P Require Import Prelude Common Util Glob Files Stores FileStore.

(** ** A directory only the store uses *)

(** The name a buffer file gets ([OpenNamed]). *)
Definition dir_name (localtime : Z -> tm) (now : Z) : bytes :=
  MakeName (bs "[date]-[time].kidsbuffer") (localtime now) (bs "kids.buffer").

Section directory.
Context {FS : Type} `{FileSystem FS}.

(** The directory [path] exists, its files can be opened, read, listed and
    removed, and holds nothing but files: [entries] gives their contents. *)
Class BufferDirectory (localtime : Z -> tm) (path : bytes) (good : FS -> Prop) (entries : FS -> gmap bytes bytes) := {
  dir_exists : forall fs, good fs -> MakePath path fs = (true, fs);
  dir_open : forall fs now, good fs -> exists fs', fs_open_append fs (path ++ dir_name localtime now) = Some fs'
    /\ good fs' /\ entries fs' = <[dir_name localtime now := default [] (entries fs !! dir_name localtime now)]> (entries fs);
  dir_append : forall fs n d c, good fs -> entries fs !! n = Some c ->
    good (fs_append fs (path ++ n) d) /\ entries (fs_append fs (path ++ n) d) = <[n := c ++ d]> (entries fs);
  dir_unlink : forall fs n, good fs -> is_Some (entries fs !! n) ->
    good (fs_unlink fs (path ++ n)) /\ entries (fs_unlink fs (path ++ n)) = delete n (entries fs);
  dir_list : forall fs, good fs -> exists l, fs_readdir fs path = Some l
    /\ forall n, n ∈ l <-> n = bs "." \/ n = bs ".." \/ is_Some (entries fs !! n);
  dir_read : forall fs n c, good fs -> entries fs !! n = Some c -> fs_read fs (path ++ n) = Some c;
  dir_ctime : forall fs n, good fs -> is_Some (entries fs !! n) -> exists t, fs_ctime fs (path ++ n) = Some t /\ t <> -1;
  dir_dots : forall fs, good fs -> entries fs !! bs "." = None /\ entries fs !! bs ".." = None;
  dir_path : path <> [];
}.
End directory.

(** The messages in the files of a directory. *)
Definition decoded (m : gmap bytes bytes) : list message :=
  map_to_list m ≫= fun x : bytes * bytes => default [] (read_file x.2).

Lemma decoded_insert m n c : m !! n = None -> decoded (<[n := c]> m) ≡ₚ default [] (read_file c) ++ decoded m.
Proof. intros Hn. unfold decoded. by rewrite map_to_list_insert. Qed.

Lemma decoded_delete m n c : m !! n = Some c -> decoded m ≡ₚ default [] (read_file c) ++ decoded (delete n m).
Proof.
  intros Hn. rewrite <- decoded_insert with (n := n) by apply lookup_delete_eq. by rewrite insert_delete_id.
Qed.

Lemma decoded_update m n c d : m !! n = Some c ->
  default [] (read_file c) ++ decoded (<[n := d]> m) ≡ₚ default [] (read_file d) ++ decoded m.
Proof.
  intros Hn. rewrite (decoded_delete m n c Hn), <- insert_delete_eq, decoded_insert by apply lookup_delete_eq.
  solve_Permutation.
Qed.

Lemma decoded_empty : decoded ∅ = [].
Proof. unfold decoded. by rewrite map_to_list_empty. Qed.

(** Files that hold whole records of messages of some kind. *)
Definition records_of (P : message -> Prop) (c : bytes) (l : list message) : Prop := Forall P l /\ c = concat (map record l).
Definition all_records (P : message -> Prop) (m : gmap bytes bytes) : Prop := map_Forall (fun _ c => exists l, records_of P c l) m.

Lemma complete_subset k l : complete k l ⊆ l.
Proof.
  revert k. induction l as [|m l IH]; intros k; cbn [complete]; [done|]. repeat case_decide; [set_solver| |set_solver].
  pose proof (IH (k - record_size m)%nat). set_solver.
Qed.

Lemma records_snoc P c l m : records_of P c l -> P m -> records_of P (c ++ record m) (l ++ [m]).
Proof.
  intros [H1 ->] Hm. split; [by apply Forall_app; split; [|constructor]|].
  rewrite map_app, concat_app. cbn. by rewrite app_nil_r.
Qed.

Lemma records_nil P : records_of P [] [].
Proof. by split; [constructor|]. Qed.

(** What a file of records is read as. *)
Lemma records_read P c l : (forall m, P m -> small m.1 /\ small m.2) -> records_of P c l ->
  exists l', read_file c = Some l' /\ Forall P l'.
Proof.
  intros HP [H1 ->]. exists (complete (length (concat (map record l))) l). split.
  - unfold read_file. rewrite <- (firstn_all (concat (map record l))) at 2. apply read_messages_ok.
    + eapply Forall_impl; [exact H1|]. exact HP.
    + rewrite firstn_all. lia.
  - apply Forall_forall. intros m Hm. rewrite Forall_forall in H1. apply H1. by eapply complete_subset.
Qed.

(** ** The store over such a directory *)

Section secondary.
Context {FS : Type} `{FileSystem FS}.
Variables (localtime : Z -> tm) (path : bytes) (good : FS -> Prop) (entries : FS -> gmap bytes bytes).
Context `{BD : !BufferDirectory localtime path good entries}.
Variable ic : bool.
(** The messages it is given. *)
Variable keepable : message -> Prop.
Hypothesis keepable_small : forall m, keepable m -> small m.1 /\ small m.2.

Abbreviation store := (FileStore FS).

Definition held (s : store) : list message := decoded (entries (files s)).

(** What stays true of it: it is the secondary store of a buffer store, its
    directory is good and has only whole records, and when it is open its
    file is one of them. *)
Definition sec_ok (s : store) : Prop :=
  fs_topic s = bs "*" /\ buffer_type_ s = kSecondary /\ path_ s = path /\ rotate_interval_ s <> 0
  /\ good (files s) /\ all_records keepable (entries (files s))
  /\ if store_open s
     then exists n, secondary_file_ s = Some (MkFile (path ++ n) true) /\ is_Some (entries (files s) !! n)
     else True.

Lemma oldest_spec fs l min name : good fs -> (forall n, n ∈ l -> n = bs "." \/ n = bs ".." \/ is_Some (entries fs !! n)) ->
  (exists n, oldest path l min name fs = path ++ n /\ is_Some (entries fs !! n))
  \/ (oldest path l min name fs = name /\ (min = -1 -> forall n, n ∈ l -> n = bs "." \/ n = bs "..")).
Proof.
  intros Hg. revert min name. induction l as [|e l IH]; intros min name Hl; cbn [oldest].
  { right. split; [done|]. set_solver. }
  assert (forall n, n ∈ l -> n = bs "." \/ n = bs ".." \/ is_Some (entries fs !! n)) as Hl' by set_solver.
  destruct (decide (e = bs "." \/ e = bs "..")) as [Hd|Hd].
  { destruct (IH min name Hl') as [?|[? Hm]]; [by left|right]. split; [done|]. intros Hmin n.
    rewrite elem_of_cons. intros [->|?]; [done|by apply Hm]. }
  assert (is_Some (entries fs !! e)) as He by (destruct (Hl e) as [?|[?|?]]; [constructor|tauto..|done]).
  destruct (dir_ctime (BufferDirectory := BD) fs e Hg He) as (t & -> & Ht).
  destruct (_ || _) eqn:Eb.
  - left. destruct (IH t (path ++ e) Hl') as [?|[-> _]]; [done|by exists e].
  - bool_to_prop. destruct (IH min name Hl') as [?|[? _]]; [by left|right]. split; [done|]. lia.
Qed.

(** The oldest file is one of the directory, and none is found only in an
    empty directory. *)
Lemma FindOldestFile_spec fs : good fs ->
  (exists n c, FindOldestFile path fs = path ++ n /\ entries fs !! n = Some c)
  \/ (FindOldestFile path fs = [] /\ entries fs = ∅).
Proof.
  intros Hg. unfold FindOldestFile. destruct (dir_list (BufferDirectory := BD) fs Hg) as (l & -> & Hl).
  destruct (oldest_spec fs l (-1) [] Hg) as [(n & E & c & Hc)|[E Hn]]; [intros n; apply Hl|left; eauto|].
  right. split; [done|]. apply map_empty. intros n. destruct (entries fs !! n) eqn:En; [|done].
  destruct (dir_dots (BufferDirectory := BD) fs Hg) as [D1 D2].
  destruct (Hn eq_refl n) as [->| ->]; [|congruence..]. apply Hl. eauto.
Qed.

Lemma path_file n : path ++ n <> [].
Proof. pose proof (dir_path (BufferDirectory := BD)). by destruct path. Qed.

(** Closing removes at most an empty file. *)
Lemma sec_close s : sec_ok s -> sec_ok (FileStore_Close s) /\ store_open (FileStore_Close s) = false
  /\ held (FileStore_Close s) ≡ₚ held s.
Proof.
  intros Hok. pose proof Hok as (Ht & Hb & Hp & Hr & Hg & Ha & Hf). unfold FileStore_Close.
  destruct (store_open s) eqn:Eo; cbn [negb]; [|done]. rewrite decide_True by done.
  destruct Hf as (n & Hf & c & Hc). rewrite Hf. unfold Files.Close, Files.Remove. cbn [is_open_ negb filename_ snd].
  unfold Size. cbn [filename_]. rewrite (dir_read (BufferDirectory := BD) _ n c) by done.
  rewrite andb_true_r. destruct (_ =? 0) eqn:E0; unfold sec_ok, held; cbn; [|by split_and!].
  bool_to_prop. assert (c = []) as -> by (by destruct c). rewrite decide_False by apply path_file.
  destruct (dir_unlink (BufferDirectory := BD) (files s) n Hg) as [H1 H2]; [by rewrite Hc|].
  split_and!; try done.
  - rewrite H2. by apply map_Forall_delete.
  - rewrite H2. symmetry. exact (decoded_delete _ n [] Hc).
Qed.

(** Opening makes a new file, or goes on with the file of the same second. *)
Lemma sec_open c s : sec_ok s -> exists s', FileStore_Open localtime c s = (true, s') /\ sec_ok s'
  /\ store_open s' = true /\ held s' ≡ₚ held s.
Proof.
  intros Hok0. unfold FileStore_Open.
  assert (exists s1, (if store_open s then FileStore_Close s else s) = s1 /\ sec_ok s1 /\ store_open s1 = false
    /\ held s1 ≡ₚ held s) as (s1 & -> & Hok & Ho & Hh).
  { eexists. split; [done|]. destruct (store_open s) eqn:E; [|done]. destruct (sec_close s Hok0) as (? & ? & ?). done. }
  destruct Hok as (Ht & Hb & Hp & Hr & Hg & Ha & Hf). cbn [buffer_type_ with_store_open]. rewrite decide_True by done.
  unfold OpenNamed. cbn [Z.eqb path_ files with_store_open]. rewrite Hp, (dir_exists (BufferDirectory := BD)) by done.
  set (n := MakeName _ _ _). unfold Files.Open.
  destruct (dir_open (BufferDirectory := BD) (files s1) (time_now c) Hg) as (fs' & E & Hg' & He).
  change (dir_name localtime (time_now c)) with n in E, He. rewrite E. cbn.
  eexists. split; [done|]. split.
  - unfold sec_ok. cbn. split_and!; try done.
    + rewrite He. apply map_Forall_insert_2; [|done]. destruct (entries (files s1) !! n) eqn:En; cbn.
      * by apply (Ha n).
      * exists []. apply records_nil.
    + exists n. split; [done|]. by rewrite He, lookup_insert_eq.
  - split; [done|]. rewrite <- Hh. unfold held. cbn. rewrite He. destruct (entries (files s1) !! n) eqn:En; cbn.
    + by rewrite insert_id.
    + by rewrite decoded_insert.
Qed.

Lemma held_records m n c l msg : m !! n = Some c -> records_of keepable c l -> (forall m, keepable m -> storable m) -> keepable msg ->
  decoded (<[n := c ++ record msg]> m) ≡ₚ msg :: decoded m.
Proof.
  intros Hc [Hl ->] Hst Hm. apply (Permutation_app_inv_l l). pose proof (decoded_update m n _ (concat (map record l) ++ record msg) Hc) as Hp.
  assert (Forall storable l) as Hl' by (by eapply Forall_impl).
  assert (concat (map record l) ++ record msg = concat (map record (l ++ [msg]))) as E.
  { rewrite map_app, concat_app. cbn [map concat]. by rewrite app_nil_r. }
  rewrite E in *. rewrite !read_file_records in Hp by (done || (apply Forall_app; split; [done|constructor; auto])).
  cbn [default] in Hp. rewrite Hp. solve_Permutation.
Qed.

(** A message is appended as one record to the open file. *)
Lemma sec_add c msg s st : sec_ok s -> store_open s = true -> keepable msg ->
  exists s' st', FileStore_DoAddMessage localtime c msg s st = (true, s', st') /\ sec_ok s'
    /\ ((forall m, keepable m -> storable m) -> held s' ≡ₚ msg :: held s).
Proof.
  intros (Ht & Hb & Hp & Hr & Hg & Ha & Hf) Ho Hm. rewrite Ho in Hf. destruct Hf as (n & Hf & c0 & Hc).
  unfold FileStore_DoAddMessage. rewrite !decide_True by done. rewrite Hf. unfold write_buffer, Write. cbn [is_open_ filename_].
  destruct (dir_append (BufferDirectory := BD) _ n (le32 (zlen msg.1)) _ Hg Hc) as [G1 E1].
  set (fs1 := fs_append (files s) _ _) in *.
  assert (entries fs1 !! n = Some (c0 ++ le32 (zlen msg.1))) as L1 by (by rewrite E1, lookup_insert_eq).
  destruct (dir_append (BufferDirectory := BD) _ n msg.1 _ G1 L1) as [G2 E2]. set (fs2 := fs_append fs1 _ _) in *.
  assert (entries fs2 !! n = Some ((c0 ++ le32 (zlen msg.1)) ++ msg.1)) as L2 by (by rewrite E2, lookup_insert_eq).
  destruct (dir_append (BufferDirectory := BD) _ n (le32 (zlen msg.2)) _ G2 L2) as [G3 E3]. set (fs3 := fs_append fs2 _ _) in *.
  assert (entries fs3 !! n = Some (((c0 ++ le32 (zlen msg.1)) ++ msg.1) ++ le32 (zlen msg.2))) as L3 by (by rewrite E3, lookup_insert_eq).
  destruct (dir_append (BufferDirectory := BD) _ n msg.2 _ G3 L3) as [G4 E4]. set (fs4 := fs_append fs3 _ _) in *.
  assert (entries fs4 = <[n := c0 ++ record msg]> (entries (files s))) as E.
  { rewrite E4, E3, E2, E1, !insert_insert_eq. f_equal. unfold record, text_record. by rewrite <- !app_assoc. }
  eexists _, _. split; [done|]. destruct (Ha n c0 Hc) as [l Hl]. unfold sec_ok, held. cbn. rewrite Ho, E. split.
  - split_and!; try done.
    + apply map_Forall_insert_2; [|done]. exists (l ++ [msg]). by apply records_snoc.
    + exists n. split; [done|]. by rewrite lookup_insert_eq.
  - intros Hst. by eapply held_records.
Qed.

(** [Cron] may start a new file. *)
Lemma sec_cron c s : sec_ok s -> exists s', FileStore_Cron localtime c s = Some s' /\ sec_ok s' /\ held s' ≡ₚ held s.
Proof.
  intros Hok. unfold FileStore_Cron. destruct (negb (store_open s)); [by exists s|].
  set (fl := if _ && _ then _ else _).
  assert (sec_ok fl /\ held fl ≡ₚ held s) as [Hok' Hh'] by (unfold fl; destruct (_ && _); done).
  clearbody fl.
  destruct (rotate_interval_ s =? -1); [by exists fl|]. destruct (rotate_interval_ s =? 0) eqn:E0.
  { bool_to_prop. by destruct Hok as (_ & _ & _ & ? & _). }
  destruct (_ && _); [|by exists fl]. destruct (sec_open c s Hok) as (s' & E & ? & _ & ?). exists s'. by rewrite E.
Qed.

Lemma sec_have s : sec_ok s -> FileStore_HaveOldMessage s = false -> held s = [].
Proof.
  intros (Ht & Hb & Hp & Hr & Hg & Ha & Hf). unfold FileStore_HaveOldMessage. rewrite Hp. intros Hn.
  destruct (FindOldestFile_spec (files s) Hg) as [(n & c & E & _)|[_ E]].
  - apply bool_decide_eq_false in Hn. rewrite E in Hn. exfalso. apply Hn, path_file.
  - unfold held. rewrite E. apply decoded_empty.
Qed.

(** A closed store hands back the messages of one file and removes it. *)
Lemma sec_oldest s : sec_ok s -> store_open s = false ->
  exists l, FileStore_GetOldestMessages s = Some l /\ Forall keepable l /\ sec_ok (FileStore_DeleteOldestMessages s)
    /\ held s ≡ₚ l ++ held (FileStore_DeleteOldestMessages s).
Proof.
  intros Hok Ho. pose proof Hok as (Ht & Hb & Hp & Hr & Hg & Ha & Hf).
  unfold FileStore_GetOldestMessages, FileStore_DeleteOldestMessages, DeleteOldestFile. rewrite Hp.
  destruct (FindOldestFile_spec (files s) Hg) as [(n & c & E & Hc)|[E _]]; rewrite E.
  - rewrite !(decide_False (P := path ++ n = [])) by apply path_file.
    rewrite (dir_read (BufferDirectory := BD) _ n c) by done. destruct (Ha n c Hc) as [l0 Hl0].
    destruct (records_read _ _ _ keepable_small Hl0) as (l & Hread & Hl). exists l.
    destruct (dir_unlink (BufferDirectory := BD) (files s) n Hg) as [H1 H2]; [by rewrite Hc|].
    split; [done|]. split; [done|]. unfold sec_ok, held. cbn. rewrite Ho, H2. split_and!; try done.
    + by apply map_Forall_delete.
    + rewrite (decoded_delete _ n c Hc). by rewrite Hread.
  - rewrite !(decide_True (P := [] = [])) by done. exists []. by split_and!.
Qed.

#[local] Instance secondary_ops : StoreOps store := FileStore_ops localtime.

Ltac ops := lazy beta iota delta [Stores.Open Stores.IsOpen Stores.Close Stores.DoAddMessage Stores.Cron secondary_ops FileStore_ops].

#[export] Instance secondary_steady : Steady ic sec_ok.
Proof.
  split.
  - intros s msg (Ht & _). unfold PreAddMessage. cbn [topic_ secondary_ops FileStore_ops]. rewrite decide_True by done. by eexists.
  - intros c s st Hok. ops. destruct (sec_open c s Hok) as (s' & -> & ? & _). by eexists _, _, _.
  - intros s st Hok. ops. destruct (sec_close s Hok) as (? & _). by eexists _, _.
  - intros c s st Hok. ops. destruct (sec_cron c s Hok) as (s' & -> & ? & _). by eexists _, _.
  - intros s st _. by eexists.
Qed.

#[export] Instance secondary_backing : (forall m, keepable m -> storable m) -> Backing ic sec_ok keepable held.
Proof.
  intros Hst. split.
  - apply secondary_steady.
  - intros c s st b s' st' Hok. ops. destruct (sec_open c s Hok) as (s1 & -> & _ & ? & ?). by intros [= <- <- <-].
  - intros c msg s st Hok Ho Hm. ops. destruct (sec_add c msg s st Hok Ho Hm) as (s' & st' & -> & ? & Hh).
    eexists _, _, _. split_and!; [done|done|by apply Hh].
  - intros s st s' st' Hok. ops. intros [= <- <-]. by destruct (sec_close s Hok) as (_ & ? & ?).
  - intros c s st s' st' Hok. ops. destruct (sec_cron c s Hok) as (s1 & -> & _ & ?). by intros [= <- <-].
  - exact sec_have.
  - intros s Hok Ho. destruct (sec_oldest s Hok Ho) as (l & E & _ & ? & ?). by exists l.
Qed.

(** It is also all that a buffer store needs to stay defined, for messages that
    are read back in part. *)
#[export] Instance secondary_keeps : Keeps ic keepable sec_ok.
Proof.
  split.
  - apply secondary_steady.
  - intros s _. by eexists.
  - intros c s st b s' st' Hok. ops. destruct (sec_open c s Hok) as (s1 & -> & _ & ? & _). by intros [= <- <- <-].
  - intros c msg s st Hok Ho Hm. ops. destruct (sec_add c msg s st Hok Ho Hm) as (s' & st' & -> & ? & _). by eexists _, _, _.
  - intros s st s' st' Hok. ops. intros [= <- <-]. destruct (sec_close s Hok) as (Hok' & Ho & _).
    destruct (sec_oldest _ Hok' Ho) as (l & E & Hl & Hd & _). by exists l.
Qed.

(** The number of its files. *)
Definition pending (s : store) : nat := size (entries (files s)).

Lemma sec_close_entries s : sec_ok s -> HaveOldMessage s = true ->
  (pending (FileStore_Close s) < pending s)%nat \/ entries (files (FileStore_Close s)) = entries (files s).
Proof.
  intros (Ht & Hb & Hp & Hr & Hg & Ha & Hf) _. unfold FileStore_Close.
  destruct (store_open s) eqn:Eo; cbn [negb]; [|by right]. rewrite decide_True by done.
  destruct Hf as (n & Hf & c & Hc). rewrite Hf. unfold Files.Close, Files.Remove. cbn [is_open_ negb filename_ snd].
  destruct (_ && _); cbn; [|by right]. rewrite decide_False by apply path_file. left. unfold pending. cbn.
  destruct (dir_unlink (BufferDirectory := BD) (files s) n Hg) as [_ H2]; [by rewrite Hc|].
  rewrite H2, map_size_delete, Hc. cbn. assert (size (entries (files s)) <> 0%nat); [|lia].
  intros H0%map_size_empty_inv. by rewrite H0 in Hc.
Qed.

Lemma sec_delete_entries s : sec_ok s ->
  (pending (FileStore_DeleteOldestMessages s) <= pending s)%nat
  /\ (entries (files s) <> ∅ -> (pending (FileStore_DeleteOldestMessages s) < pending s)%nat).
Proof.
  intros (Ht & Hb & Hp & Hr & Hg & Ha & Hf). unfold FileStore_DeleteOldestMessages, DeleteOldestFile. rewrite Hp.
  unfold pending. cbn. destruct (FindOldestFile_spec (files s) Hg) as [(n & c & E & Hc)|[E He]]; rewrite E.
  - rewrite decide_False by apply path_file.
    destruct (dir_unlink (BufferDirectory := BD) (files s) n Hg) as [_ H2]; [by rewrite Hc|].
    rewrite H2, map_size_delete, Hc. cbn. assert (size (entries (files s)) <> 0%nat); [|lia].
    intros H0%map_size_empty_inv. by rewrite H0 in Hc.
  - by rewrite decide_True by done.
Qed.

#[export] Instance secondary_draining : Draining sec_ok pending.
Proof.
  split.
  - intros s st s' st' Hok Hh. change (Some (FileStore_Close s, st) = Some (s', st') ->
      (pending (FileStore_DeleteOldestMessages s') < pending s)%nat /\ store_open (FileStore_DeleteOldestMessages s') = false).
    intros [= <- <-]. destruct (sec_close s Hok) as (Hok' & Hc & _). split; [|exact Hc].
    destruct (sec_delete_entries _ Hok') as [D1 D2]. destruct (sec_close_entries s Hok Hh) as [?|E]; [lia|].
    unfold pending at 2. rewrite <- E. apply D2. rewrite E. intros He.
    destruct Hok as (_ & _ & Hp & _ & Hg & _). unfold HaveOldMessage, secondary_ops, FileStore_ops, FileStore_HaveOldMessage in Hh.
    rewrite Hp in Hh. apply bool_decide_eq_true in Hh.
    destruct (FindOldestFile_spec (files s) Hg) as [(n & c & _ & Hn)|[E' _]]; [by rewrite He in Hn|done].
  - intros c s st s' st' Hok Ho. ops. change (store_open s = false) in Ho. unfold FileStore_Cron. rewrite Ho. cbn.
    by intros [= <- <-].
Qed.
End secondary.

(** ** One directory in memory *)

(** A file system with the directory /b and files in it. *)
Record dirfs := DirFS { dir_files : gmap bytes bytes }.

Definition on_dir (fs : dirfs) (f : bytes) (k : bytes -> gmap bytes bytes) : dirfs :=
  match name_in (bs "/b/") f with Some n => DirFS (k n) | None => fs end.

#[export] Instance dirfs_ops : FileSystem dirfs := {
  fs_stat fs p := if decide (p = bs "/b" \/ p = bs "/b/") then Some true else None;
  fs_mkdir _ _ := None;
  fs_open_append fs f := match name_in (bs "/b/") f with
    | Some n => Some (DirFS (<[n := default [] (dir_files fs !! n)]> (dir_files fs)))
    | None => None
    end;
  fs_append fs f d := on_dir fs f (fun n => alter (fun c => c ++ d) n (dir_files fs));
  fs_read fs f := n ← name_in (bs "/b/") f; dir_files fs !! n;
  fs_readdir fs p :=
    if decide (p = bs "/b/") then Some (bs "." :: bs ".." :: (map_to_list (dir_files fs)).*1) else None;
  fs_ctime fs f := match name_in (bs "/b/") f with Some n => (fun _ => 7) <$> dir_files fs !! n | None => None end;
  fs_unlink fs f := on_dir fs f (fun n => delete n (dir_files fs));
}.

Definition dirfs_good (fs : dirfs) : Prop :=
  forall n, is_Some (dir_files fs !! n) -> "/"%char ∉ n /\ n <> bs "." /\ n <> bs "..".

(** Two seconds that come in turns. *)
Definition clock_time (t : Z) : tm := if Z.even t then Tm 113 8 5 10 20 30 else Tm 113 8 5 10 20 31.

Lemma name_in_dir n : "/"%char ∉ n -> name_in (bs "/b/") (bs "/b/" ++ n) = Some n.
Proof. intros Hn. unfold name_in. cbn. by rewrite decide_False. Qed.

#[export] Instance dirfs_directory : BufferDirectory clock_time (bs "/b/") dirfs_good dir_files.
Proof.
  assert (forall now, "/"%char ∉ dir_name clock_time now /\ dir_name clock_time now <> bs "."
            /\ dir_name clock_time now <> bs "..") as Hname.
  { intros now. unfold dir_name, clock_time. destruct (Z.even now); apply (bool_decide_unpack _); by vm_compute. }
  split.
  - by intros [fs] Hg.
  - intros fs now Hg. destruct (Hname now) as (N1 & N2 & N3). cbn [fs_open_append dirfs_ops]. rewrite name_in_dir by done.
    eexists. split; [done|]. split; [|done]. intros n. cbn. destruct (decide (n = dir_name clock_time now)) as [->|Hne]; [done|].
    rewrite lookup_insert_ne by done. apply Hg.
  - intros fs n d c Hg Hc. cbn [fs_append dirfs_ops]. unfold on_dir. rewrite name_in_dir by (apply Hg; by eexists). cbn. split.
    + intros k. cbn. rewrite lookup_alter_is_Some. apply Hg.
    + apply map_eq. intros k. destruct (decide (k = n)) as [->|Hne].
      * by rewrite lookup_alter_eq, lookup_insert_eq, Hc.
      * by rewrite lookup_alter_ne, lookup_insert_ne.
  - intros fs n Hg Hc. cbn [fs_unlink dirfs_ops]. unfold on_dir. rewrite name_in_dir by by apply Hg. split; [|done].
    intros k. cbn. rewrite lookup_delete_is_Some. intros [_ ?]. by apply Hg.
  - intros fs Hg. eexists. split; [done|]. intros n. rewrite !elem_of_cons, list_elem_of_fmap. split.
    + intros [?|[?|([k c] & -> & Hk)]]; [tauto..|]. apply elem_of_map_to_list in Hk. right. right. by eexists.
    + intros [?|[?|[c Hc]]]; [tauto..|]. right. right. exists (n, c). split; [done|]. by apply elem_of_map_to_list.
  - intros fs n c Hg Hc. cbn [fs_read dirfs_ops]. rewrite name_in_dir by (apply Hg; by eexists). exact Hc.
  - intros fs n Hg [c Hc]. cbn [fs_ctime dirfs_ops]. rewrite name_in_dir by (apply Hg; by eexists).
    exists 7. by rewrite Hc.
  - intros fs Hg. split; (destruct (dir_files fs !! _) eqn:E; [|done]); destruct (Hg _ (mk_is_Some _ _ E)) as (_ & ? & ?); done.
  - done.
Qed.

(** ** A buffer store on such a directory *)

(** The primary store takes topics of "app."; a file of an earlier run is in
    the directory. *)
Definition earlier_file : bytes := record (bs "app.db", bs "slow").
Definition demo_secondary : FileStore dirfs :=
  new_FileStore (bs "*") (bs "secondary") (bs "/b") [] [] [] (DirFS {[bs "old.kidsbuffer" := earlier_file]}).
Definition demo_buffer : BufferStore (NullStore * list message) (FileStore dirfs) :=
  MkBufferStore (bs "*") (null_logged (bs "app.*")) demo_secondary (Some kToPrimary) QNull true.

Definition demo_bevents : list bevent :=
  let c := demo_clock in
  [BAdd c (bs "app.web", bs "one"); BAdd c (bs "db", bs "two"); BAdd c (bs "app.web", bs "three");
   BCron c; BCron c; BAdd c (bs "app.web", bs "four"); BCron c; BCron c; BCron c].

Lemma demo_buffer_ok : bs_ok (fun s : NullStore => matchable (null_topic s)) (sec_ok (bs "/b/") dirfs_good dir_files storable) demo_buffer.
Proof.
  unfold bs_ok. cbn [buf_open demo_buffer primary_ secondary_ state_ msg_to_transfer_]. split_and!; [done| | |done].
  - right. eexists. split; [reflexivity|]. intros t. right. done.
  - unfold sec_ok. split_and!; [reflexivity|reflexivity|reflexivity|by vm_compute| | |done].
    + intros n [x Hx]. change (({[bs "old.kidsbuffer" := earlier_file]} : gmap bytes bytes) !! n = Some x) in Hx. assert (n = bs "old.kidsbuffer") as -> by (by apply lookup_singleton_Some in Hx as [? _]).
      apply (bool_decide_unpack _). by vm_compute.
    + change (all_records storable {[bs "old.kidsbuffer" := earlier_file]}). apply map_Forall_singleton. exists [(bs "app.db", bs "slow")]. split; [|reflexivity].
      repeat constructor; done.
Qed.

#[local] Instance demo_ops : StoreOps (FileStore dirfs) := FileStore_ops clock_time.


(** A buffer store that has a queue and a file empties both. *)
Definition demo_draining : BufferStore (NullStore * list message) (FileStore dirfs) :=
  MkBufferStore (bs "*") (null_logged (bs "*")) demo_secondary (Some kTransfering) (Queue [(bs "db", bs "queued")]) true.

Lemma demo_draining_ok : bs_ok (fun s : NullStore => null_topic s = bs "*") (sec_ok (bs "/b/") dirfs_good dir_files storable) demo_draining.
Proof.
  destruct demo_buffer_ok as (_ & _ & Hs & _). split_and!; try done.
Qed.

