(* ===== verification/NetworkStore.v ===== *)
(** * store/networkstore.cc: sending messages to another server

    A [NetworkStore] keeps one connection, its [Agent], over which it sends
    each message as a LOG request; the callbacks of the event loop write the
    requests and read the replies.  Buffers are byte sequences whose memory
    does not run out.  The result of connecting, and what [read] and [write]
    return, are arguments; [None] is undefined behaviour. *)

From S2P Require Import Prelude Common Util EventLoop Protocol Client PubSub Worker Demo Stores.

(** ** The class *)

Inductive nproc : Type := NSendRequest | NReadReply.
#[export] Instance nproc_eq_dec : EqDecision nproc.
Proof. solve_decision. Defined.

(** [NetworkStore::Agent]; the back pointer to its store is the argument of
    the loop's callbacks. *)
Record Agent := MkAgent {
  agent_req : bytes;
  agent_sentlen : Z;
  agent_rep : bytes;
  agent_fd : Z;
  agent_active : option Z;
}.

(** [state_] is not initialised by the constructor. *)
Record NetworkStore {EL : Type} := MkNetwork {
  net_topic : bytes;
  net_events : EL;
  agent_ : option Agent;
  last_reconnect_ : Z;
  net_state : option StoreState;
}.
Arguments NetworkStore : clear implicits.
Arguments MkNetwork {_}.

Definition reconnect_interval_ : Z := 5.

Section network.
Context {EL : Type} `{FileEvents EL nproc unit}.
(** [anetTcpConnect] or [anetUnixConnect] to the configured address: a
    descriptor, or nothing for -1. *)
Variable connect : clock -> option Z.

Definition new_NetworkStore (topic : bytes) (el : EL) : NetworkStore EL := MkNetwork topic el None 0 None.

Definition with_agent (s : NetworkStore EL) (a : option Agent) : NetworkStore EL :=
  MkNetwork (net_topic s) (net_events s) a (last_reconnect_ s) (net_state s).
Definition with_net_events (s : NetworkStore EL) (el : EL) : NetworkStore EL :=
  MkNetwork (net_topic s) el (agent_ s) (last_reconnect_ s) (net_state s).
Definition with_net_state (s : NetworkStore EL) (x : StoreState) : NetworkStore EL :=
  MkNetwork (net_topic s) (net_events s) (agent_ s) (last_reconnect_ s) (Some x).

(** [~Agent] *)
Definition delete_agent (fd : Z) (el : EL) : EL := fe_delete (fe_delete el fd AE_READABLE) fd AE_WRITABLE.

(** [Agent::Create]; [last_active_] is not initialised. *)
Definition Agent_Create (fd : Z) (el : EL) : option Agent * EL :=
  match fe_create el fd AE_READABLE NReadReply tt with
  | None => (None, delete_agent fd el)
  | Some el => (Some (MkAgent [] 0 [] fd None), el)
  end.

Definition NetworkStore_IsOpen (s : NetworkStore EL) : bool := bool_decide (is_Some (agent_ s)).

Definition NetworkStore_Close (s : NetworkStore EL) : NetworkStore EL :=
  match agent_ s with
  | None => s
  | Some a => MkNetwork (net_topic s) (delete_agent (agent_fd a) (net_events s)) None (last_reconnect_ s) (Some Free)
  end.

Definition NetworkStore_Open (c : clock) (s : NetworkStore EL) : bool * NetworkStore EL :=
  let s := NetworkStore_Close s in
  let s := MkNetwork (net_topic s) (net_events s) (agent_ s) (unixtime c) (net_state s) in
  match connect c with
  | None => (false, s)
  | Some fd =>
      let '(a, el) := Agent_Create fd (net_events s) in
      let s := with_net_state (with_agent (with_net_events s el) a) Free in
      (NetworkStore_IsOpen s, s)
  end.

(** [Agent::SetWriteEvent]: [None] is [false]. *)
Definition Agent_SetWriteEvent (a : Agent) (el : EL) : option EL :=
  if agent_fd a <=? 0 then None
  else if negb (zlen (agent_req a) =? 0) then Some el
  else fe_create el (agent_fd a) AE_WRITABLE NSendRequest tt.

(** The request [Agent::Log] appends; [%d] prints the length as an int. *)
Definition log_request (msg : message) : bytes :=
  bs "*3" ++ crlf ++ bs "$3" ++ crlf ++ bs "LOG" ++ crlf
  ++ bs "$" ++ ll_text (i32 (zlen msg.1)) ++ crlf ++ msg.1 ++ crlf
  ++ bs "$" ++ ll_text (i32 (zlen msg.2)) ++ crlf ++ msg.2 ++ crlf.

Definition Agent_Log (msg : message) (a : Agent) (el : EL) : Agent * EL :=
  match Agent_SetWriteEvent a el with
  | None => (a, el)
  | Some el =>
      (MkAgent (agent_req a ++ log_request msg) (agent_sentlen a) (agent_rep a) (agent_fd a) (agent_active a), el)
  end.

Definition NetworkStore_DoAddMessage (msg : message) (s : NetworkStore EL) : bool * NetworkStore EL :=
  match agent_ s with
  | None => (false, s)
  | Some a =>
      let '(a, el) := Agent_Log msg a (net_events s) in
      (true, with_net_state (with_agent (with_net_events s el) (Some a)) Sending)
  end.

Definition OnMsgSent (s : NetworkStore EL) : NetworkStore EL := with_net_state s Free.
Definition OnDisconnect (s : NetworkStore EL) : NetworkStore EL := NetworkStore_Close s.

Definition NetworkStore_Cron (c : clock) (s : NetworkStore EL) : NetworkStore EL :=
  if NetworkStore_IsOpen s then s
  else if unixtime c - last_reconnect_ s >=? reconnect_interval_ then snd (NetworkStore_Open c s) else s.

(** ** Replies *)

(** [Agent::ParseReplyBuffer]: [Some None] is [false], [Some (Some rest)] is
    [true] with what is left of [rep_].  The size is unsigned, so that its
    difference with 2 wraps around for a single byte. *)
Definition ParseReplyBuffer (rep : bytes) : option (option bytes) :=
  match strchr rep CR with
  | None => Some None
  | Some newline =>
      if Z.of_nat newline >? u32 (zlen rep - 2) then Some None
      else if (newline + 2 <=? length rep)%nat then Some (Some (drop (newline + 2) rep)) else None
  end.

(** [Agent::ProcessReplyBuffer]: what is left of [rep_], and how many replies
    were taken, for each of which [ProcessResult] calls [OnMsgSent].  A reply
    has at least two bytes, so the length bounds the fuel. *)
Fixpoint reply_loop (fuel : nat) (rep : bytes) (n : nat) : option (bytes * nat) :=
  match rep with
  | [] => Some ([], n)
  | _ =>
      match fuel with
      | O => None
      | S fuel =>
          r ← ParseReplyBuffer rep;
          match r with
          | None => Some (rep, n)
          | Some rest => reply_loop fuel rest (S n)
          end
      end
  end.

Definition ProcessReplyBuffer (a : Agent) (s : NetworkStore EL) : option (NetworkStore EL * nat) :=
  '(rep, n) ← reply_loop (length (agent_rep a)) (agent_rep a) 0;
  let s := with_agent s (Some (MkAgent (agent_req a) (agent_sentlen a) rep (agent_fd a) (agent_active a))) in
  Some (Nat.iter n OnMsgSent s, n).

(** [ReadReply]; also returns how many replies were taken. *)
Definition ReadReply (c : clock) (r : read_result) (s : NetworkStore EL) : option (NetworkStore EL * nat) :=
  match agent_ s with
  | None => None
  | Some a =>
      match r with
      | RError true => Some (s, 0%nat)
      | RError false | REof => Some (OnDisconnect s, 0%nat)
      | RData buf =>
          let a := MkAgent (agent_req a) (agent_sentlen a) (agent_rep a ++ buf) (agent_fd a) (Some (unixtime c)) in
          if zlen (agent_req a) >? KIDS_MAX_QUERYBUF_LEN then Some (OnDisconnect (with_agent s (Some a)), 0%nat)
          else ProcessReplyBuffer a s
      end
  end.

(** [Agent::ToString]; [peer] is what [anetPeerToString] gives.  No flag of an
    agent is ever set, and [last_active_] is read whether it was written or
    not. *)
Definition Agent_ToString (peer : option (bytes * Z)) (c : clock) (a : Agent) (el : EL) : option bytes :=
  active ← agent_active a;
  let '(ip, port) := default (bs "?", 0) peer in
  let emask := if agent_fd a =? -1 then 0 else fe_get el (agent_fd a) in
  Some (bs "addr=" ++ cstr ip ++ bs ":" ++ ll_text port ++ bs " fd=" ++ ll_text (agent_fd a)
    ++ bs " idle=" ++ ll_text (i64 (unixtime c - active)) ++ bs " flags=" ++ flag_letters false false
    ++ bs " qbuf=" ++ ll_text (i32 (zlen (agent_req a))) ++ bs " omem=" ++ ll_text (i32 (zlen (agent_rep a)))
    ++ bs " events=" ++ event_letters emask).

(** ** Requests *)

(** The loop of [SendRequest] on what [write] returns each time: [req_],
    [sentlen_], the bytes written, and the error of the last [write] if it
    failed.  When the list runs out the socket is full. *)
Fixpoint request_send_loop (writes : list write_result) (req : bytes) (sentlen : Z) (out : bytes)
  : bytes * Z * bytes * option bool :=
  if sentlen <? zlen req then
    match writes with
    | [] => (req, sentlen, out, Some true)
    | WError again :: _ => (req, sentlen, out, Some again)
    | Wrote n :: writes =>
        let sent := take n (drop (Z.to_nat sentlen) req) in
        let out := out ++ sent in
        if zlen sent =? 0 then (req, sentlen, out, None)
        else
          let sentlen := sentlen + zlen sent in
          let '(req, sentlen) := if sentlen =? zlen req then ([], 0) else (req, sentlen) in
          if zlen out >? KIDS_MAX_WRITE_PER_EVENT then (req, sentlen, out, None)
          else request_send_loop writes req sentlen out
    end
  else (req, sentlen, out, None).

(** [SendRequest], and the bytes it wrote. *)
Definition SendRequest (writes : list write_result) (s : NetworkStore EL) : option (NetworkStore EL * bytes) :=
  match agent_ s with
  | None => None
  | Some a =>
      let '(req, sentlen, out, err) := request_send_loop writes (agent_req a) (agent_sentlen a) [] in
      let s := with_agent s (Some (MkAgent req sentlen (agent_rep a) (agent_fd a) (agent_active a))) in
      Some (if decide (err = Some false) then OnDisconnect s
            else if sentlen =? zlen req then with_net_events s (fe_delete (net_events s) (agent_fd a) AE_WRITABLE)
            else s, out)
  end.
End network.

#[export] Instance NetworkStore_ops {EL} `{FileEvents EL nproc unit} (connect : clock -> option Z)
  : StoreOps (NetworkStore EL) := {
  topic_ := net_topic;
  Open c s st := let '(b, s) := NetworkStore_Open connect c s in Some (b, s, st);
  IsOpen := NetworkStore_IsOpen;
  Close s st := Some (NetworkStore_Close s, st);
  DoAddMessage _ msg s st := let '(b, s) := NetworkStore_DoAddMessage msg s in Some (b, s, st);
  State := net_state;
  HaveOldMessage _ := false;
  GetOldestMessages _ := Some [];
  DeleteOldestMessages s := s;
  Cron c s st := Some (NetworkStore_Cron connect c s, st);
  Delete _ st := Some st;
}.

(** ** The reply buffer *)

(** A reply: a line without CR or NUL. *)
Definition reply_ok (l : bytes) : Prop := l <> [] /\ CR ∉ l /\ NUL ∉ l.
(** What may remain of a reply that has not arrived whole. *)
Definition partial (t : bytes) : Prop := t = [] \/ exists l, reply_ok l /\ (t = l \/ t = l ++ [CR]).
Definition lines (ls : list bytes) : bytes := concat (map (fun l => l ++ crlf) ls).

Lemma strchr_none l : CR ∉ l -> strchr l CR = None.
Proof.
  induction l as [|x l IH]; intros H; [done|]. apply not_elem_of_cons in H as [? ?]. cbn.
  rewrite decide_False by congruence. destruct (decide _); [done|]. by rewrite IH.
Qed.

Lemma ParseReply_line l rest : reply_ok l -> zlen (l ++ crlf ++ rest) < 2 ^ 32 ->
  ParseReplyBuffer (l ++ crlf ++ rest) = Some (Some rest).
Proof.
  intros (Hne & Hcr & Hn) Hlen. unfold ParseReplyBuffer, crlf in *. cbn [app] in *.
  rewrite strchr_app_here by done. rewrite length_app in *. cbn [length] in *.
  rewrite (u32_small (Z.of_nat (length l + S (S (length rest))) - 2)) by (unfold in_u32; lia).
  rewrite Z.gtb_ltb, (proj2 (Z.ltb_ge _ _)) by lia. rewrite (proj2 (Nat.leb_le _ _)) by lia.
  rewrite drop_app_add'; done.
Qed.

Lemma ParseReply_partial t : partial t -> zlen t < 2 ^ 32 -> ParseReplyBuffer t = Some None.
Proof.
  intros [->|(l & (Hne & Hcr & Hn) & [->| ->])] Hlen; [done| |]; unfold ParseReplyBuffer.
  - by rewrite strchr_none.
  - rewrite strchr_app_here by done. rewrite length_app in *. cbn [length] in *.
    assert (0 < length l)%nat by (destruct l; [done|cbn; lia]).
    rewrite (u32_small (Z.of_nat (length l + 1) - 2)) by (unfold in_u32; lia).
    by rewrite Z.gtb_ltb, (proj2 (Z.ltb_lt _ _)) by lia.
Qed.

(** Every whole reply is taken, once, and what remains stays. *)
Lemma reply_loop_ok fuel ls t n : Forall reply_ok ls -> partial t -> zlen (lines ls ++ t) < 2 ^ 32 ->
  (length (lines ls ++ t) <= fuel)%nat -> reply_loop fuel (lines ls ++ t) n = Some (t, (n + length ls)%nat).
Proof.
  intros Hls Ht. revert fuel n. induction Hls as [|l ls Hl Hls IH]; intros fuel n Hlen Hf.
  - cbn [lines map concat app length] in *. rewrite Nat.add_0_r. destruct t as [|x t]; [by destruct fuel|].
    destruct fuel as [|fuel]; [cbn in Hf; lia|]. cbn [reply_loop]. by rewrite ParseReply_partial.
  - change (lines (l :: ls)) with ((l ++ crlf) ++ lines ls) in *. rewrite <- !app_assoc in *.
    destruct fuel as [|fuel]; [rewrite length_app in Hf; cbn in Hf; lia|].
    assert (exists x y, l ++ crlf ++ lines ls ++ t = x :: y) as (x & y & E)
      by (destruct l; cbn; eauto).
    cbn [reply_loop]. rewrite E, <- E. clear E x y. rewrite ParseReply_line by done. cbn [mbind option_bind].
    rewrite !length_app in Hlen, Hf. cbn in Hlen, Hf. rewrite IH by (rewrite length_app; lia).
    cbn [length]. do 2 f_equal. lia.
Qed.

(** ** The requests on the wire *)

(** The loop writes a beginning of the pending bytes and keeps the rest. *)
Lemma request_send_ok writes req sentlen out req' sentlen' out' err :
  0 <= sentlen <= zlen req -> (sentlen = zlen req -> req = []) ->
  request_send_loop writes req sentlen out = (req', sentlen', out', err) ->
  out' ++ drop (Z.to_nat sentlen') req' = out ++ drop (Z.to_nat sentlen) req
  /\ 0 <= sentlen' <= zlen req' /\ (sentlen' = zlen req' -> req' = []).
Proof.
  revert req sentlen out. induction writes as [|w writes IH]; intros req sentlen out Hs Hz; cbn [request_send_loop].
  { destruct (_ <? _); by intros [= <- <- <- <-]. }
  destruct (sentlen <? zlen req) eqn:Elt; [|by intros [= <- <- <- <-]]. bool_to_prop.
  destruct w as [n|again]; [|by intros [= <- <- <- <-]].
  set (sent := take n (drop (Z.to_nat sentlen) req)).
  destruct (zlen sent =? 0) eqn:E0; bool_to_prop.
  { intros [= <- <- <- <-]. assert (sent = []) as -> by (by destruct sent). by rewrite app_nil_r. }
  assert (zlen sent <= zlen req - sentlen) as Hle.
  { unfold sent. rewrite length_take, length_drop. lia. }
  assert (drop (Z.to_nat sentlen) req = sent ++ drop (Z.to_nat (sentlen + zlen sent)) req) as Hsplit.
  { rewrite <- (take_drop (length sent) (drop (Z.to_nat sentlen) req)) at 1. rewrite drop_drop. f_equal.
    - unfold sent. rewrite length_take. destruct (decide (n <= length (drop (Z.to_nat sentlen) req))%nat).
      + by rewrite Nat.min_l by lia.
      + rewrite Nat.min_r by lia. by rewrite !take_ge by lia.
    - f_equal. lia. }
  destruct (if sentlen + zlen sent =? zlen req then _ else _) as [req1 sentlen1] eqn:E1.
  assert ((out ++ sent) ++ drop (Z.to_nat sentlen1) req1 = out ++ drop (Z.to_nat sentlen) req
    /\ 0 <= sentlen1 <= zlen req1 /\ (sentlen1 = zlen req1 -> req1 = [])) as (H1 & H2 & H3).
  { destruct (_ =? zlen req) eqn:Ez; injection E1 as <- <-; bool_to_prop.
    - rewrite Hsplit, (drop_ge req) by lia. rewrite !app_nil_r. cbn. by split_and!; try lia.
    - rewrite Hsplit, app_assoc. split_and!; [done|lia|lia|lia]. }
  destruct (_ >? KIDS_MAX_WRITE_PER_EVENT).
  - by intros [= <- <- <- <-].
  - intros E. destruct (IH _ _ _ H2 H3 E) as (K1 & K2 & K3). split; [by rewrite K1|done].
Qed.

(** ** A store in use *)

(** What happens to it, in any order: a message, the cron, and the callbacks
    of its descriptor. *)
Inductive nevent : Type :=
| NAdd (msg : message)
| NCron (c : clock)
| NOpen (c : clock)
| NClose
| NWritable (writes : list write_result)
| NReadable (c : clock) (r : read_result).

(** The store, and what happened on its last connection: the bytes written,
    the messages accepted, and the replies taken. *)
Record net_run {EL : Type} := NetRun {
  net : NetworkStore EL;
  wire : bytes;
  accepted : list message;
  answered : nat;
}.
Arguments net_run : clear implicits.
Arguments NetRun {_}.

Section runs.
Context {EL : Type} `{!FileEvents EL nproc unit} `{!FileEventsLaws EL nproc unit}.
Variable connect : clock -> option Z.

(** A connection made by [Open] starts anew. *)
Definition after_open (s : NetworkStore EL) (g : net_run EL) : net_run EL :=
  if NetworkStore_IsOpen s then NetRun s [] [] 0 else NetRun s (wire g) (accepted g) (answered g).

Definition net_step (e : nevent) (g : net_run EL) : option (net_run EL) :=
  match e with
  | NAdd msg =>
      let '(b, s) := NetworkStore_DoAddMessage msg (net g) in
      Some (NetRun s (wire g) (if b : bool then accepted g ++ [msg] else accepted g) (answered g))
  | NCron c => Some (if NetworkStore_IsOpen (net g) then g else after_open (NetworkStore_Cron connect c (net g)) g)
  | NOpen c => Some (after_open (snd (NetworkStore_Open connect c (net g))) g)
  | NClose => Some (NetRun (NetworkStore_Close (net g)) (wire g) (accepted g) (answered g))
  | NWritable writes =>
      '(s, out) ← SendRequest writes (net g); Some (NetRun s (wire g ++ out) (accepted g) (answered g))
  | NReadable c r =>
      '(s, n) ← ReadReply c r (net g); Some (NetRun s (wire g) (accepted g) (answered g + n))
  end.

(** The loop calls back only for a connection, the server sends lines, and
    the descriptors are ones the loop accepts. *)
Definition fd_ok (fd : Z) : Prop := 0 < fd /\ forall (el : EL) m p, is_Some (fe_create el fd m p tt).
Definition net_allowed (e : nevent) (g : net_run EL) : Prop :=
  match e with
  | NCron c | NOpen c => forall fd, connect c = Some fd -> fd_ok fd
  | NWritable _ => is_Some (agent_ (net g))
  | NReadable _ r =>
      exists a, agent_ (net g) = Some a /\
        match r with
        | RData buf => exists ls t, agent_rep a ++ buf = lines ls ++ t /\ Forall reply_ok ls /\ partial t
                         /\ zlen (agent_rep a ++ buf) < 2 ^ 32
        | _ => True
        end
  | _ => True
  end.

Fixpoint net_steps (es : list nevent) (g : net_run EL) : option (net_run EL) :=
  match es with [] => Some g | e :: es => g ← net_step e g; net_steps es g end.
Fixpoint net_all_allowed (es : list nevent) (g : net_run EL) : Prop :=
  match es with
  | [] => True
  | e :: es => net_allowed e g /\ match net_step e g with Some g => net_all_allowed es g | None => True end
  end.

(** What was written and what is pending are the requests of the accepted
    messages; once the connection is gone, what was written is a beginning
    of them. *)
Definition wire_ok (g : net_run EL) : Prop :=
  match agent_ (net g) with
  | Some a => wire g ++ drop (Z.to_nat (agent_sentlen a)) (agent_req a) = concat (map log_request (accepted g))
      /\ (agent_req a <> [] -> Z.land (fe_get (net_events (net g)) (agent_fd a)) AE_WRITABLE <> 0)
      /\ is_Some (net_state (net g))
  | None => exists rest, wire g ++ rest = concat (map log_request (accepted g))
  end.

Definition agent_ok (g : net_run EL) : Prop :=
  match agent_ (net g) with
  | Some a => 0 <= agent_sentlen a <= zlen (agent_req a) /\ (agent_sentlen a = zlen (agent_req a) -> agent_req a = [])
      /\ fd_ok (agent_fd a)
  | None => True
  end.

Lemma Agent_Log_ok msg a (el : EL) : fd_ok (agent_fd a) ->
  (agent_req a <> [] -> Z.land (fe_get el (agent_fd a)) AE_WRITABLE <> 0) ->
  exists el', Agent_Log msg a el
      = (MkAgent (agent_req a ++ log_request msg) (agent_sentlen a) (agent_rep a) (agent_fd a) (agent_active a), el')
    /\ Z.land (fe_get el' (agent_fd a)) AE_WRITABLE <> 0.
Proof.
  intros [Hfd Hc] Hw. unfold Agent_Log, Agent_SetWriteEvent. rewrite (proj2 (Z.leb_gt _ _)) by done.
  destruct (zlen (agent_req a) =? 0) eqn:E; cbn [negb]; bool_to_prop.
  - destruct (Hc el AE_WRITABLE NSendRequest) as [el' He]. rewrite He. exists el'. split; [done|].
    rewrite (fe_create_get el (agent_fd a) AE_WRITABLE NSendRequest tt el' (agent_fd a)) by (done || lia).
    rewrite decide_True by done.
    rewrite Z.land_lor_distr_l. unfold AE_WRITABLE. change (Z.land 2 2) with 2.
    intros [_ ?]%Z.lor_eq_0_iff. lia.
  - exists el. split; [done|]. apply Hw. by destruct (agent_req a).
Qed.

Lemma after_open_ok (s : NetworkStore EL) g :
  match agent_ s with
  | Some a => agent_req a = [] /\ agent_sentlen a = 0 /\ fd_ok (agent_fd a) /\ is_Some (net_state s)
  | None => exists rest, wire g ++ rest = concat (map log_request (accepted g))
  end -> wire_ok (after_open s g) /\ agent_ok (after_open s g).
Proof.
  unfold after_open, NetworkStore_IsOpen, wire_ok, agent_ok. destruct (agent_ s) as [a|] eqn:E.
  - intros (Hr & Hs & Hfd & Hst). rewrite bool_decide_true by by eexists. cbn. rewrite E, Hr, Hs. cbn. naive_solver lia.
  - rewrite bool_decide_false by (by intros [? ?]). cbn. by rewrite E.
Qed.

Lemma Open_fresh c (s : NetworkStore EL) : (forall fd, connect c = Some fd -> fd_ok fd) ->
  match agent_ (snd (NetworkStore_Open connect c s)) with
  | Some a => agent_req a = [] /\ agent_sentlen a = 0 /\ fd_ok (agent_fd a)
      /\ is_Some (net_state (snd (NetworkStore_Open connect c s)))
  | None => True
  end.
Proof.
  intros Hc. unfold NetworkStore_Open, Agent_Create. destruct (connect c) as [fd|] eqn:E.
  - destruct (Hc fd eq_refl) as [Hp Hcr]. destruct (Hcr (net_events (NetworkStore_Close s)) AE_READABLE NReadReply) as [el He].
    cbn [net_events]. rewrite He. cbn. naive_solver.
  - unfold NetworkStore_Close. destruct (agent_ s) eqn:Ea; cbn; [done|]. by rewrite Ea.
Qed.

(** Written bytes are a beginning of the requests in either case. *)
Lemma wire_prefix g : wire_ok g -> exists rest, wire g ++ rest = concat (map log_request (accepted g)).
Proof. unfold wire_ok. destruct (agent_ (net g)); [intros (? & _); by eexists|done]. Qed.

Lemma closed_ok (g : net_run EL) w acc n : (exists rest, w ++ rest = concat (map log_request acc)) ->
  wire_ok (NetRun (NetworkStore_Close (net g)) w acc n) /\ agent_ok (NetRun (NetworkStore_Close (net g)) w acc n).
Proof.
  unfold wire_ok, agent_ok, NetworkStore_Close. cbn. destruct (agent_ (net g)) eqn:E; cbn; [done|]. by rewrite E.
Qed.

Lemma iter_sent n (s : NetworkStore EL) :
  agent_ (Nat.iter n OnMsgSent s) = agent_ s /\ net_events (Nat.iter n OnMsgSent s) = net_events s
  /\ net_state (Nat.iter n OnMsgSent s) = match n with O => net_state s | S _ => Some Free end.
Proof.
  induction n as [|n IH]; [done|]. rewrite Nat.iter_succ. set (x := Nat.iter n OnMsgSent s) in *. clearbody x.
  destruct IH as (H1 & H2 & _). by cbn.
Qed.

Lemma log_request_pos msg : (0 < length (log_request msg))%nat.
Proof. cbn. lia. Qed.

Lemma net_step_ok e g : wire_ok g -> agent_ok g -> net_allowed e g ->
  exists g', net_step e g = Some g' /\ wire_ok g' /\ agent_ok g'.
Proof.
  intros Hw Hok Hal. destruct e as [msg|c|c| |writes|c r]; cbn [net_step].
  - unfold NetworkStore_DoAddMessage. unfold wire_ok, agent_ok in Hw, Hok.
    destruct (agent_ (net g)) as [a|] eqn:Ea.
    + destruct Hw as (W1 & W2 & W3), Hok as (O1 & O2 & O3).
      destruct (Agent_Log_ok msg a (net_events (net g)) O3 W2) as (el & -> & Hel). eexists. split; [done|].
      pose proof (log_request_pos msg) as Hpos. remember (log_request msg) as rq eqn:Erq.
      unfold wire_ok, agent_ok. cbn. rewrite map_app, concat_app, <- W1. cbn [map concat]. rewrite <- Erq, app_nil_r.
      rewrite drop_app_le by lia. rewrite app_assoc. split_and!; try done; rewrite ?length_app; lia.
    + eexists. split; [done|]. unfold wire_ok, agent_ok. cbn. by rewrite Ea.
  - eexists. split; [done|]. destruct (NetworkStore_IsOpen (net g)) eqn:Eo; [done|]. apply after_open_ok.
    unfold NetworkStore_Cron. rewrite Eo. destruct (_ >=? _).
    + pose proof (Open_fresh c (net g) Hal) as Hf. destruct (agent_ (snd _)) eqn:E; [done|]. by apply wire_prefix.
    + unfold NetworkStore_IsOpen in Eo. apply bool_decide_eq_false in Eo.
      destruct (agent_ (net g)) eqn:E; [by destruct Eo; eexists|]. by apply wire_prefix.
  - eexists. split; [done|]. apply after_open_ok. pose proof (Open_fresh c (net g) Hal) as Hf.
    destruct (agent_ (snd _)) eqn:E; [done|]. by apply wire_prefix.
  - eexists. split; [done|]. apply closed_ok. by apply wire_prefix.
  - unfold SendRequest. unfold wire_ok, agent_ok in Hw, Hok. destruct Hal as [a Ea]. rewrite Ea in *.
    destruct Hw as (W1 & W2 & W3), Hok as (O1 & O2 & O3).
    destruct (request_send_loop _ _ _ _) as [[[req sentlen] out] err] eqn:E.
    destruct (request_send_ok _ _ _ _ _ _ _ _ O1 O2 E) as (K1 & K2 & K3). cbn [mbind option_bind app] in *.
    eexists. split; [done|]. destruct (decide (err = Some false)).
    + apply (closed_ok (NetRun _ [] [] 0)). exists (drop (Z.to_nat sentlen) req). by rewrite <- app_assoc, K1.
    + destruct (sentlen =? zlen req) eqn:Ez; bool_to_prop; unfold wire_ok, agent_ok; cbn; rewrite <- app_assoc, K1.
      * split_and!; try done; try lia. by rewrite (K3 Ez).
      * split_and!; try done; try lia. intros Hne. apply W2. intros Hr. rewrite Hr in O1. cbn in O1.
        rewrite Hr in E. destruct writes; cbn in E; rewrite (proj2 (Z.ltb_ge _ _)) in E by (cbn; lia); congruence.
  - destruct Hal as (a & Ea & Hr). unfold ReadReply. rewrite Ea. destruct r as [buf| |[]]; cbn [mbind option_bind].
    + destruct (_ >? _); cbn [mbind option_bind].
      { eexists. split; [done|]. apply (closed_ok (NetRun _ [] [] 0)). by apply wire_prefix. }
      unfold ProcessReplyBuffer. cbn [agent_rep]. destruct Hr as (ls & t & Hl & Hls & Ht & Hlen). rewrite Hl in *.
      rewrite reply_loop_ok by (done || lia). cbn [mbind option_bind]. eexists. split; [done|].
      unfold wire_ok, agent_ok in *. cbn [net wire accepted].
      match goal with |- context [Nat.iter ?n OnMsgSent ?s] => destruct (iter_sent n s) as (-> & -> & ->) end.
      rewrite Ea in *. cbn. destruct Hw as (W1 & W2 & W3). split; [|done]. split_and!; try done. by destruct (length ls); [|eexists].
    + eexists. split; [done|]. apply closed_ok. by apply wire_prefix.
    + eexists. split; [done|]. by destruct g.
    + eexists. split; [done|]. apply closed_ok. by apply wire_prefix.
Qed.
Lemma net_steps_ok es g : wire_ok g -> agent_ok g -> net_all_allowed es g ->
  exists g', net_steps es g = Some g' /\ wire_ok g' /\ agent_ok g'.
Proof.
  revert g. induction es as [|e es IH]; intros g Hw Hok Hal; [by exists g|]. destruct Hal as [Ha Hal].
  destruct (net_step_ok e g Hw Hok Ha) as (g1 & E & Hw1 & Hok1). cbn. rewrite E in *. by apply IH.
Qed.

Lemma net_all_allowed_cons e es g g' : net_step e g = Some g' -> net_allowed e g -> net_all_allowed es g' ->
  net_all_allowed (e :: es) g.
Proof. intros E. cbn. by rewrite E. Qed.

Definition net_start (topic : bytes) (el : EL) : net_run EL := NetRun (new_NetworkStore topic el) [] [] 0.

(** C12. For any sequence of messages, writes, replies, failures, reconnections and cron ticks,
    a network store is defined on every step, what it has written on its connection is a prefix of
    the LOG requests of the messages it logged on it, byte for byte and in order, what is still
    unsent waits in its buffer, and while something waits the write event is set. The loop accepts
    the descriptors that connecting gives, the connection is written and read only while there is
    one, and replies are lines, not empty and without CR and NUL, cut anywhere, of which less than
    2^32 bytes wait; a reply of one byte CR is undefined behaviour (networkstore.cc:98). *)
Theorem network_store_forwards topic (el : EL) es : net_all_allowed es (net_start topic el) ->
  exists g, net_steps es (net_start topic el) = Some g /\
    match agent_ (net g) with
    | Some a => wire g ++ drop (Z.to_nat (agent_sentlen a)) (agent_req a) = concat (map log_request (accepted g))
        /\ (agent_req a <> [] -> Z.land (fe_get (net_events (net g)) (agent_fd a)) AE_WRITABLE <> 0)
        /\ is_Some (net_state (net g))
    | None => exists rest, wire g ++ rest = concat (map log_request (accepted g))
    end.
Proof.
  intros Hal. destruct (net_steps_ok es (net_start topic el)) as (g & E & Hw & _); [by exists []|done|done|].
  by exists g.
Qed.

(** ** One message at a time *)

(** Messages are added only when the store is free. *)
Definition add_when_free (e : nevent) (g : net_run EL) : Prop :=
  match e with NAdd _ => net_state (net g) = Some Free | _ => True end.

(** At most one message of the connection has no reply yet. *)
Definition in_flight_ok (g : net_run EL) : Prop :=
  (length (accepted g) <= S (answered g))%nat
  /\ (is_Some (agent_ (net g)) -> net_state (net g) = Some Free -> (length (accepted g) <= answered g)%nat).

Lemma after_open_in_flight (s : NetworkStore EL) g : in_flight_ok g -> (agent_ s = None -> True) ->
  in_flight_ok (after_open s g).
Proof.
  intros [H1 H2] _. unfold after_open, NetworkStore_IsOpen, in_flight_ok.
  destruct (bool_decide_reflect (is_Some (agent_ s))); cbn; [lia|naive_solver].
Qed.

Lemma closed_in_flight (s : NetworkStore EL) w acc n : (length acc <= S n)%nat ->
  in_flight_ok (NetRun (NetworkStore_Close s) w acc n).
Proof.
  intros Hn. split; [done|]. cbn. unfold NetworkStore_Close. destruct (agent_ s) eqn:E; cbn; rewrite ?E; by intros [? ?].
Qed.

Lemma in_flight_step e g g' : wire_ok g -> agent_ok g -> net_allowed e g -> add_when_free e g -> in_flight_ok g ->
  net_step e g = Some g' -> in_flight_ok g'.
Proof.
  intros Hw Hok Hal Hfree [H1 H2]. destruct e as [msg|c|c| |writes|c r]; cbn [net_step].
  - unfold NetworkStore_DoAddMessage. unfold wire_ok, agent_ok in Hw, Hok.
    destruct (agent_ (net g)) as [a|] eqn:Ea; [|by intros [= <-]; split; cbn; rewrite ?Ea].
    destruct Hw as (_ & W2 & _), Hok as (_ & _ & O3).
    destruct (Agent_Log_ok msg a (net_events (net g)) O3 W2) as (el & -> & _). intros [= <-].
    specialize (H2 ltac:(by eexists) Hfree). split; cbn; [rewrite length_app; cbn; lia|done].
  - destruct (NetworkStore_IsOpen (net g)); intros [= <-]; [done|]. by apply after_open_in_flight.
  - intros [= <-]. by apply after_open_in_flight.
  - intros [= <-]. by apply closed_in_flight.
  - unfold SendRequest. destruct (agent_ (net g)) as [a|] eqn:Ea; [|done].
    destruct (request_send_loop _ _ _ _) as [[[req sentlen] out] err]. cbn [mbind option_bind]. intros [= <-].
    destruct (decide (err = Some false)); [by apply closed_in_flight|].
    specialize (H2 ltac:(by eexists)). destruct (_ =? _); split; cbn; auto.
  - destruct Hal as (a & Ea & Hr). unfold ReadReply. rewrite Ea. destruct r as [buf| |[]]; cbn [mbind option_bind].
    + destruct (_ >? _); cbn [mbind option_bind].
      { intros [= <-]. apply closed_in_flight. lia. }
      unfold ProcessReplyBuffer. cbn [agent_rep]. destruct Hr as (ls & t & Hl & Hls & Ht & Hlen). rewrite Hl in *.
      rewrite reply_loop_ok by (done || lia). cbn [mbind option_bind]. intros [= <-].
      unfold in_flight_ok. cbn [net accepted answered].
      match goal with |- context [Nat.iter ?n OnMsgSent ?s] => destruct (iter_sent n s) as (-> & _ & ->) end.
      specialize (H2 ltac:(by eexists)). cbn. destruct (length ls) as [|k]; cbn in *; split; intros; try lia.
      specialize (H2 ltac:(done)). lia.
    + intros [= <-]. apply closed_in_flight. lia.
    + intros [= <-]. destruct g. by rewrite Nat.add_0_r.
    + intros [= <-]. apply closed_in_flight. lia.
Qed.
End runs.

(** ** The other end *)

(** A log request is a request of the protocol the server parses. *)
Lemma log_request_encode msg : zlen msg.1 < 2 ^ 31 -> zlen msg.2 < 2 ^ 31 ->
  log_request msg = encode [bs "LOG"; msg.1; msg.2].
Proof.
  intros H1 H2. unfold log_request. rewrite !i32_small by (unfold in_i32; lia). unfold encode, bulk.
  cbn [map concat length]. change (ll_text (Z.of_nat 3)) with (bs "3"). change (ll_text (Z.of_nat (length (bs "LOG")))) with (bs "3").
  rewrite app_nil_r. unfold crlf. cbn [bs list_ascii_of_string app].
  repeat (rewrite <- app_assoc; cbn [app]). done.
Qed.

(** What one argument of a request may have at most. *)
Definition forwardable (msg : message) : Prop := zlen msg.1 <= 512 * 1024 * 1024 /\ zlen msg.2 <= 512 * 1024 * 1024.

Section server.
Context {EL M : Type} `{!FileEvents EL fproc cid} `{!FileEventsLaws EL fproc cid} `{!MasterOps M}.
Variable cfg : Config.
Variable unixtime : Z.
Variable env : info_env.
Variable set_begin : gset bytes -> bytes.

(** The master of the server after it was given messages. *)
Definition put_all (wid : nat) (msgs : list message) (m : M) : M :=
  fold_left (fun m (msg : message) => snd (PutMessage m msg.1 msg.2 wid)) msgs m.

Lemma AsyncClose_frame (s : st EL M) : ms (AsyncCloseOnOutputBufferLimitsReached cfg unixtime s) = ms s
  /\ close_after_reply (conn (AsyncCloseOnOutputBufferLimitsReached cfg unixtime s)) = close_after_reply (conn s)
  /\ worker_id_ (wk (AsyncCloseOnOutputBufferLimitsReached cfg unixtime s)) = worker_id_ (wk s).
Proof.
  unfold AsyncCloseOnOutputBufferLimitsReached, CheckOutputBufferLimits. destruct (close_asap (conn s)); [done|].
  repeat (match goal with |- context [if ?b then _ else _] => destruct b end; cbn); unfold FreeClientAsync;
    try case_decide; done.
Qed.

Lemma reply_with_frame text (s : st EL M) : ms (reply_with cfg unixtime text s) = ms s
  /\ close_after_reply (conn (reply_with cfg unixtime text s)) = close_after_reply (conn s)
  /\ worker_id_ (wk (reply_with cfg unixtime text s)) = worker_id_ (wk s).
Proof.
  unfold reply_with. destruct (close_after_reply (conn s)) eqn:Ec; [done|].
  unfold SetWriteEvent. destruct (_ <=? 0); [done|]. destruct (negb _); [done|].
  destruct (fe_create _ _ _ _ _) as [el|]; cbn [mbind option_bind]; [|done].
  match goal with |- context [AsyncCloseOnOutputBufferLimitsReached _ _ ?s] => destruct (AsyncClose_frame s) as (-> & -> & ->) end.
  done.
Qed.

(** A client may log with either command. *)
Definition put_name (name : bytes) : Prop := name = bs "LOG" \/ name = bs "PUBLISH".
Definition put_request (name : bytes) (msg : message) : bytes := encode [name; msg.1; msg.2].

Lemma put_command name topic content (s : st EL M) : put_name name -> close_after_reply (conn s) = false ->
  exists s', ProcessCommand cfg unixtime env set_begin [name; topic; content] s = Some (true, s')
    /\ ms s' = snd (PutMessage (ms s) topic content (worker_id_ (wk s)))
    /\ close_after_reply (conn s') = false /\ worker_id_ (wk s') = worker_id_ (wk s) /\ same_subs s s'.
Proof.
  intros Hn Hc. assert (strcaseeq name (bs "quit") = false /\ strcaseeq name (bs "ping") = false /\ strcaseeq name (bs "info") = false
    /\ strcaseeq name (bs "publish") || strcaseeq name (bs "log") = true) as (Hq & Hp & Hi & Hl) by (by destruct Hn as [-> | ->]).
  unfold ProcessCommand. change (nth 0 [name; topic; content] []) with name. rewrite Hq.
  unfold run_command. change (nth 0 [name; topic; content] []) with name. cbv zeta. rewrite Hp, Hi, Hl.
  cbn [mbind option_bind]. eexists. split; [done|].
  split_and!; [..|apply (same_ProcessLog cfg unixtime [name; topic; content] s)];
    unfold ProcessLog; cbn [on_worker wk ms conn worker_id_ with_stat];
    destruct (PutMessage (ms s) topic content _) as [[|] m] eqn:Ep; unfold ReplyErrorFormat, Reply;
    match goal with |- context [reply_with _ _ ?t ?x] => destruct (reply_with_frame t x) as (H1 & H2 & H3) end;
    cbn [on_conn ms conn wk] in *; cbn [with_last_cmd close_after_reply]; rewrite ?H1, ?H2, ?H3; done.
Qed.

Lemma put_request_pos name msg : exists x y, put_request name msg = x :: y.
Proof. by eexists _, _. Qed.

Lemma put_requests name msgs (s : st EL M) : put_name name -> close_after_reply (conn s) = false ->
  Forall forwardable msgs -> zlen (concat (map (put_request name) msgs)) < 2 ^ 63 ->
  exists s', ProcessRequestBuffer cfg unixtime env set_begin (concat (map (put_request name) msgs)) pstate0 s
      = Some ([], pstate0, s')
    /\ ms s' = put_all (worker_id_ (wk s)) msgs (ms s) /\ close_after_reply (conn s') = false
    /\ same_subs s s'.
Proof.
  intros Hn Hc Hm. unfold ProcessRequestBuffer. set (f := length _). assert (length (concat (map (put_request name) msgs)) <= f)%nat as Hf by done.
  clearbody f. revert f s Hc Hf. induction Hm as [|msg msgs [Ht Hcn] Hm IH]; intros f s Hc Hf Hlen.
  { exists s. split_and!; [by destruct f|done..]. }
  cbn [map concat put_all fold_left] in *. destruct (put_request_pos name msg) as (x & y & E). rewrite length_app in *.
  assert (0 < length (put_request name msg))%nat as Hpos by (rewrite E; cbn; lia). destruct f as [|f]; [lia|].
  cbn [request_loop]. rewrite E, <- app_comm_cons, Hc, app_comm_cons, <- E. clear E x y. change (put_request name msg) with (encode [name; msg.1; msg.2]) in *.
  rewrite parse_encoded; [|split; [cbn; lia|]|rewrite length_app; lia].
  2: { destruct Hn as [-> | ->]; repeat constructor; cbn; done. }
  cbn [argv_]. destruct (put_command name msg.1 msg.2 s Hn Hc) as (s1 & E1 & Hms & Hc1 & Hw & Hss). rewrite E1. cbn [mbind option_bind].
  destruct (IH f s1) as (s' & E' & Hms' & Hc' & Hss'); [done|lia|lia|]. exists s'. rewrite E', Hms', Hms, Hw.
  split_and!; [done|done|done|by etrans].
Qed.

Lemma log_requests msgs : Forall forwardable msgs -> map log_request msgs = map (put_request (bs "LOG")) msgs.
Proof. intros Hm. induction Hm as [|msg msgs [H1 H2] _ IH]; [done|]. cbn [map]. by rewrite IH, log_request_encode by lia. Qed.

Lemma forwarded_requests msgs (s : st EL M) : close_after_reply (conn s) = false ->
  Forall forwardable msgs -> zlen (concat (map log_request msgs)) < 2 ^ 63 ->
  exists s', ProcessRequestBuffer cfg unixtime env set_begin (concat (map log_request msgs)) pstate0 s
      = Some ([], pstate0, s')
    /\ ms s' = put_all (worker_id_ (wk s)) msgs (ms s) /\ close_after_reply (conn s') = false
    /\ same_subs s s'.
Proof. intros Hc Hm. rewrite log_requests by done. apply put_requests; [by left|done..]. Qed.

(** C13. The LOG requests a network store writes are read by the server that receives them as
    exactly the messages they were made from: the request parser and ProcessLog put every message,
    with its topic and content byte for byte and in order, into that server, and nothing is left
    unread. *)
Theorem forwarded_messages_arrive msgs (s : st EL M) : close_after_reply (conn s) = false ->
  Forall forwardable msgs -> zlen (concat (map log_request msgs)) < 2 ^ 63 ->
  exists s', ProcessRequestBuffer cfg unixtime env set_begin (concat (map log_request msgs)) pstate0 s
      = Some ([], pstate0, s')
    /\ ms s' = put_all (worker_id_ (wk s)) msgs (ms s) /\ close_after_reply (conn s') = false.
Proof.
  intros Hc Hm Hl. destruct (forwarded_requests msgs s Hc Hm Hl) as (s' & E & H1 & H2 & _). by exists s'.
Qed.
End server.

(** ** Witnesses *)

(** A connection on descriptor 9 that accepts ten bytes, answers, and then
    accepts the rest. *)
Definition demo_connect (c : clock) : option Z := Some 9.
Definition demo_nevents : list nevent :=
  [NOpen demo_clock; NAdd (bs "app.web", bs "GET /"); NWritable [Wrote 10]; NWritable [Wrote 1000];
   NReadable demo_clock (RData (bs ":1" ++ [CR])); NAdd (bs "db", bs "slow");
   NReadable demo_clock (RData [LF]); NWritable [Wrote 7]].

Lemma demo_half_reply : exists ls t, bs ":1" ++ [CR] = lines ls ++ t /\ Forall reply_ok ls /\ partial t
  /\ zlen (bs ":1" ++ [CR]) < 2 ^ 32.
Proof.
  exists [], (bs ":1" ++ [CR]). split_and!; [reflexivity|constructor| |done].
  right. exists (bs ":1"). split; [|by right]. split_and!; [done|by apply (bool_decide_unpack _); vm_compute..].
Qed.

Lemma demo_whole_reply : exists ls t, (bs ":1" ++ [CR]) ++ [LF] = lines ls ++ t /\ Forall reply_ok ls /\ partial t
  /\ zlen ((bs ":1" ++ [CR]) ++ [LF]) < 2 ^ 32.
Proof.
  exists [bs ":1"], []. split_and!; [reflexivity| |by left|done].
  constructor; [|done]. split_and!; [done|by apply (bool_decide_unpack _); vm_compute..].
Qed.

(** One step of a run that is allowed, whose state is computed. *)
Ltac next_event tac := eapply net_all_allowed_cons; [vm_compute; reflexivity|tac|].

Lemma network_store_forwards_witness :
  exists g, net_steps demo_connect demo_nevents (net_start (bs "*") (∅ : gmap Z Z)) = Some g
    /\ accepted g = [(bs "app.web", bs "GET /"); (bs "db", bs "slow")] /\ answered g = 1%nat
    /\ exists a, agent_ (net g) = Some a
         /\ wire g ++ drop (Z.to_nat (agent_sentlen a)) (agent_req a) = concat (map log_request (accepted g)).
Proof.
  destruct (network_store_forwards demo_connect (bs "*") (∅ : gmap Z Z) demo_nevents) as (g & E & Hg).
  - assert (forall fd, Some 9 = Some fd -> fd_ok (EL := gmap Z Z) fd) as Hfd.
    { intros fd [= <-]. split; [lia|]. intros el m p. by eexists. }
    unfold demo_nevents.
    next_event ltac:(exact Hfd). next_event ltac:(exact I). next_event ltac:(by eexists). next_event ltac:(by eexists).
    next_event ltac:(eexists; split; [reflexivity|exact demo_half_reply]). next_event ltac:(exact I).
    next_event ltac:(eexists; split; [reflexivity|exact demo_whole_reply]). next_event ltac:(by eexists). exact I.
  - exists g. split; [exact E|]. set (r := net_steps _ _ _) in E. vm_compute in r. subst r. injection E as <-.
    split; [reflexivity|]. split; [reflexivity|]. eexists. split; [reflexivity|]. exact (proj1 Hg).
Defined.

Lemma forwarded_messages_arrive_witness :
  exists s, ProcessRequestBuffer demo_cfg 100 demo_env demo_begin
      (concat (map log_request [(bs "app.web", bs "GET /"); (bs "db", bs "slow")])) pstate0 (demo_client_state replied)
      = Some ([], pstate0, s)
    /\ ms s = [(bs "app.web", bs "GET /"); (bs "db", bs "slow")].
Proof.
  destruct (forwarded_messages_arrive demo_cfg 100 demo_env demo_begin [(bs "app.web", bs "GET /"); (bs "db", bs "slow")]
    (demo_client_state replied)) as (s & E & Hms & _).
  - vm_compute. reflexivity.
  - repeat constructor; done.
  - vm_compute. done.
  - exists s. split; [exact E|]. rewrite Hms. vm_compute. reflexivity.
Defined.
