(* ===== verification/Conf.v ===== *)
(** * conf.h, conf.cc: the configuration and its checks

    The structures the parser of the configuration file builds, how each
    setting is stored in them, and the checks before they are used. *)

From S2P Require Import Prelude Common Util.

(** ** Data *)

(** [StoreConfig]: its texts and its stores. *)
Record store_fields := StoreFields {
  sc_type : bytes;
  sc_buffer_type : bytes;
  sc_socket : bytes;
  sc_host : bytes;
  sc_port : bytes;
  sc_path : bytes;
  sc_name : bytes;
  sc_rotate : bytes;
  sc_flush : bytes;
  sc_success : bytes;
  sc_topic : bytes;
}.

Inductive StoreConfig : Type := MkStoreConfig (fields : store_fields) (stores : list StoreConfig).

Definition sc_fields (c : StoreConfig) : store_fields := let 'MkStoreConfig f _ := c in f.
Definition sc_stores (c : StoreConfig) : list StoreConfig := let 'MkStoreConfig _ l := c in l.
Definition map_fields (f : store_fields -> store_fields) (c : StoreConfig) : StoreConfig :=
  MkStoreConfig (f (sc_fields c)) (sc_stores c).

Definition no_fields : store_fields := StoreFields [] [] [] [] [] [] [] [] [] [] [].
Definition new_StoreConfig : StoreConfig := MkStoreConfig no_fields [].

Record KidsConfig := MkKidsConfig {
  kc_listen_socket : bytes;
  kc_listen_host : bytes;
  kc_listen_port : bytes;
  kc_log_level : bytes;
  kc_log_file : bytes;
  kc_max_clients : bytes;
  kc_worker_threads : bytes;
  kc_ignore_case : bytes;
  kc_nlimit : limit_type -> LimitConfig;
  kc_store : option StoreConfig;
}.

Definition new_KidsConfig : KidsConfig := MkKidsConfig [] [] [] [] [] [] [] [] (fun _ => Limit 0 0 0) None.

(** A setting; the grammar gives it at least one value. *)
Record KeyValue := MkKeyValue { kv_key : bytes; kv_value : list bytes }.
Definition kv_first (kv : KeyValue) : bytes := nth 0 (kv_value kv) [].

(** [ParseContext], its [line] apart: whether all went well, the last error
    and the result. *)
Record ParseContext := MkContext { ctx_success : bool; ctx_error : bytes; ctx_conf : option KidsConfig }.
Definition new_ParseContext : ParseContext := MkContext true [] None.

(** [snprintf(ctx->error, 1024, ...)] *)
Definition set_error (text : bytes) (ctx : ParseContext) : ParseContext :=
  MkContext (ctx_success ctx) (take 1023 (cstr text)) (ctx_conf ctx).
Definition failed (text : bytes) (ctx : ParseContext) : ParseContext :=
  MkContext false (take 1023 (cstr text)) (ctx_conf ctx).
Definition with_conf (c : KidsConfig) (ctx : ParseContext) : ParseContext :=
  MkContext (ctx_success ctx) (ctx_error ctx) (Some c).

(** ** Messages (constants.h) *)

Definition ERR_SYNTAX : bytes := bs "Syntax error".
Definition ERR_BAD_CONF_FILE : bytes := bs "Bad or empty config file".
Definition ERR_MULTI_LISTEN_HOST : bytes := bs "Can bind to only ONE listen address".
Definition ERR_MULTI_STORE : bytes := bs "Can specify only ONE store per kids. consider using multiple stor.".
Definition ERR_BAD_ADDR : bytes := bs "Bad address".
Definition ERR_CONF_UNKOWN_STORE_FIELD : bytes := bs "Unkonw store field".
Definition ERR_CONF_UNKOWN_KIDS_FIELD : bytes := bs "Unkonw kids field".
Definition ERR_CONF_AT_LEAST_1 : bytes := bs "You must specify at least one store for multiple/priority store".
Definition ERR_CONF_BUF_1 : bytes := bs "You must specify exactly two store for buffer store".
Definition ERR_CONF_BUF_2 : bytes := bs "You must tell me if the store is primary or secondary for buffer store".
Definition ERR_CONF_UNKOWN_STORE_TYPE : bytes := bs "Unkonw store type".

(** ["%s(%d): %s %s"] *)
Definition field_error (what : bytes) (line : Z) (kv : KeyValue) : bytes :=
  what ++ bs "(" ++ ll2string 127 line ++ bs "): " ++ cstr (kv_key kv) ++ bs " " ++ cstr (kv_first kv).

(** ** Settings *)

Definition with_limit (t : limit_type) (l : LimitConfig) (c : KidsConfig) : KidsConfig :=
  MkKidsConfig (kc_listen_socket c) (kc_listen_host c) (kc_listen_port c) (kc_log_level c) (kc_log_file c)
    (kc_max_clients c) (kc_worker_threads c) (kc_ignore_case c)
    (fun t' => if decide (t' = t) then l else kc_nlimit c t') (kc_store c).

(** The three quantities of nlimit, stored one after the other until one does
    not parse. *)
Definition set_limit (t : limit_type) (hard soft seconds : bytes) (c : KidsConfig) : KidsConfig * bool :=
  let l := kc_nlimit c t in
  match ParseSize (cstr hard) with
  | None => (c, false)
  | Some h =>
      let c := with_limit t (Limit h (soft_limit_bytes l) (soft_limit_seconds l)) c in
      match ParseSize (cstr soft) with
      | None => (c, false)
      | Some s =>
          let c := with_limit t (Limit h s (soft_limit_seconds l)) c in
          match ParseTime (cstr seconds) with
          | None => (c, false)
          | Some n => (with_limit t (Limit h s n) c, true)
          end
      end
  end.

Definition limit_type_of (mode : bytes) : option limit_type :=
  if decide (mode = bs "normal") then Some NLIMIT_NORMAL
  else if decide (mode = bs "pubsub") then Some NLIMIT_PUBSUB
  else if decide (mode = bs "networkstore") then Some NLIMIT_NETWORKSTORE
  else None.

Definition SetKidsConfValue (c : KidsConfig) (kv : KeyValue) (line : Z) (ctx : ParseContext)
  : KidsConfig * ParseContext :=
  let v := kv_first kv in
  let key name := bool_decide (kv_key kv = bs name) in
  let 'MkKidsConfig socket host port level file clients threads case limits store := c in
  if key "level"%string then (MkKidsConfig socket host port v file clients threads case limits store, ctx)
  else if key "file"%string then (MkKidsConfig socket host port level v clients threads case limits store, ctx)
  else if key "socket"%string then (MkKidsConfig v host port level file clients threads case limits store, ctx)
  else if key "host"%string then (MkKidsConfig socket v port level file clients threads case limits store, ctx)
  else if key "port"%string then (MkKidsConfig socket host v level file clients threads case limits store, ctx)
  else if key "max_clients"%string then (MkKidsConfig socket host port level file v threads case limits store, ctx)
  else if key "worker_threads"%string then (MkKidsConfig socket host port level file clients v case limits store, ctx)
  else if key "ignore_case"%string then (MkKidsConfig socket host port level file clients threads v limits store, ctx)
  else if key "nlimit"%string then
    let error c := (c, failed (field_error ERR_CONF_UNKOWN_KIDS_FIELD line kv) ctx) in
    match kv_value kv with
    | [mode; hard; soft; seconds] =>
        match limit_type_of mode with
        | None => error c
        | Some t => let '(c, ok) := set_limit t hard soft seconds c in if ok : bool then (c, ctx) else error c
        end
    | _ => error c
    end
  else (c, ctx).

Definition set_store_field (key v : bytes) (f : store_fields) : option store_fields :=
  let 'StoreFields type buffer socket host port path name rotate flush success topic := f in
  if decide (key = bs "host") then Some (StoreFields type buffer socket v port path name rotate flush success topic)
  else if decide (key = bs "port") then Some (StoreFields type buffer socket host v path name rotate flush success topic)
  else if decide (key = bs "socket") then Some (StoreFields type buffer v host port path name rotate flush success topic)
  else if decide (key = bs "path") then Some (StoreFields type buffer socket host port v name rotate flush success topic)
  else if decide (key = bs "name") then Some (StoreFields type buffer socket host port path v rotate flush success topic)
  else if decide (key = bs "rotate") then Some (StoreFields type buffer socket host port path name v flush success topic)
  else if decide (key = bs "flush") then Some (StoreFields type buffer socket host port path name rotate v success topic)
  else if decide (key = bs "success") then Some (StoreFields type buffer socket host port path name rotate flush v topic)
  else if decide (key = bs "topic") then Some (StoreFields type buffer socket host port path name rotate flush success v)
  else None.

Definition SetStoreConfValue (c : StoreConfig) (kv : KeyValue) (line : Z) (ctx : ParseContext)
  : StoreConfig * ParseContext :=
  match set_store_field (kv_key kv) (kv_first kv) (sc_fields c) with
  | Some f => (MkStoreConfig f (sc_stores c), ctx)
  | None => (c, failed (field_error ERR_CONF_UNKOWN_STORE_FIELD line kv) ctx)
  end.

Definition set_type (type buffer : bytes) (f : store_fields) : store_fields :=
  StoreFields type buffer (sc_socket f) (sc_host f) (sc_port f) (sc_path f) (sc_name f) (sc_rotate f) (sc_flush f)
    (sc_success f) (sc_topic f).
Definition set_topic (topic : bytes) (f : store_fields) : store_fields :=
  StoreFields (sc_type f) (sc_buffer_type f) (sc_socket f) (sc_host f) (sc_port f) (sc_path f) (sc_name f) (sc_rotate f)
    (sc_flush f) (sc_success f) topic.

(** ** Checks *)

(** The kinds of store, by [conf->type]. *)
Inductive store_kind : Type := KMultiple | KPriority | KBuffer | KNetwork | KFile | KNull.
Definition kind_of (type : bytes) : option store_kind :=
  if decide (type = bs "multiple") then Some KMultiple
  else if decide (type = bs "priority") then Some KPriority
  else if decide (type = bs "buffer") then Some KBuffer
  else if decide (type = bs "network") then Some KNetwork
  else if decide (type = bs "file") then Some KFile
  else if decide (type = bs "null") then Some KNull
  else None.

Definition is_buffer_type (t : bytes) (c : StoreConfig) : bool := bool_decide (sc_buffer_type (sc_fields c) = t).

(** [conf->topic] when it is empty *)
Definition default_topic (f : store_fields) : store_fields :=
  if decide (sc_topic f = []) then set_topic (bs "*") f else f.

(** The result, the configuration with what the check changed in it, and the
    context.  A check that fails leaves its message and does not go on. *)
Fixpoint CheckStoreConfig (c : StoreConfig) (ctx : ParseContext) {struct c} : bool * StoreConfig * ParseContext :=
  let 'MkStoreConfig f stores := c in
  let check_all := fix check_all (l : list StoreConfig) (ctx : ParseContext) {struct l}
    : bool * list StoreConfig * ParseContext :=
    match l with
    | [] => (true, [], ctx)
    | c :: l =>
        let '(ok, c, ctx) := CheckStoreConfig c ctx in
        if (ok : bool) then let '(ok, l, ctx) := check_all l ctx in (ok, c :: l, ctx) else (false, c :: l, ctx)
    end in
  let check_two (first second : ParseContext -> bool * StoreConfig * ParseContext) (unchecked : StoreConfig) ctx :=
    let '(ok1, a, ctx) := first ctx in
    if (ok1 : bool) then let '(ok2, b, ctx) := second ctx in (ok2, [a; b], ctx) else (false, [a; unchecked], ctx) in
  let '(ok, stores, ctx) :=
    match kind_of (sc_type f) with
    | Some (KMultiple | KPriority) =>
        match stores with
        | [] => (false, stores, set_error ERR_CONF_AT_LEAST_1 ctx)
        | _ => check_all stores ctx
        end
    | Some KBuffer =>
        match stores with
        | [a; b] =>
            if is_buffer_type (bs "primary") b && is_buffer_type (bs "secondary") a
            then check_two (CheckStoreConfig b) (CheckStoreConfig a) a ctx
            else if negb (is_buffer_type (bs "primary") a && is_buffer_type (bs "secondary") b)
            then (false, stores, set_error ERR_CONF_BUF_2 ctx)
            else check_two (CheckStoreConfig a) (CheckStoreConfig b) b ctx
        | _ => (false, stores, set_error ERR_CONF_BUF_1 ctx)
        end
    | Some KNetwork =>
        if bool_decide (sc_socket f = []) && (bool_decide (sc_host f = []) || bool_decide (sc_port f = []))
        then (false, stores, set_error ERR_BAD_ADDR ctx)
        else (true, stores, ctx)
    | Some (KFile | KNull) => (true, stores, ctx)
    | None => (false, stores, set_error ERR_CONF_UNKOWN_STORE_TYPE ctx)
    end in
  (ok, MkStoreConfig (if (ok : bool) then default_topic f else f) stores, ctx).

Definition with_kc_store (s : option StoreConfig) (c : KidsConfig) : KidsConfig :=
  MkKidsConfig (kc_listen_socket c) (kc_listen_host c) (kc_listen_port c) (kc_log_level c) (kc_log_file c)
    (kc_max_clients c) (kc_worker_threads c) (kc_ignore_case c) (kc_nlimit c) s.

Definition CheckKidsConfig (c : KidsConfig) (ctx : ParseContext) : KidsConfig * ParseContext :=
  match kc_store c with
  | None => (with_kc_store (Some (MkStoreConfig (set_topic (bs "*") (set_type (bs "null") [] no_fields)) [])) c, ctx)
  | Some s =>
      let '(ok, s, ctx) := CheckStoreConfig s ctx in
      (with_kc_store (Some s) c, MkContext ok (ctx_error ctx) (ctx_conf ctx))
  end.

(** [ParseConfigFile] up to the parser: the lines of the file, each with its
    newline; [getline] gives a last line without one, and none after a final
    newline. *)
Fixpoint file_lines (content line : bytes) : bytes :=
  match content with
  | [] => if decide (line = []) then [] else line ++ [LF]
  | c :: content =>
      if decide (c = LF) then line ++ LF :: file_lines content [] else file_lines content (line ++ [c])
  end.

(** ** What a checked configuration is *)

(** A store [Store::Create] can make whole, with its topic. *)
Fixpoint well_formed (c : StoreConfig) : bool :=
  let 'MkStoreConfig f stores := c in
  negb (bool_decide (sc_topic f = [])) &&
  match kind_of (sc_type f) with
  | Some (KMultiple | KPriority) => negb (bool_decide (length stores = 0%nat)) && forallb well_formed stores
  | Some KBuffer =>
      match stores with
      | [a; b] => is_buffer_type (bs "primary") a && is_buffer_type (bs "secondary") b && well_formed a && well_formed b
      | _ => false
      end
  | Some KNetwork => negb (bool_decide (sc_socket f = []) && (bool_decide (sc_host f = []) || bool_decide (sc_port f = [])))
  | Some (KFile | KNull) => true
  | None => false
  end.

(** Induction over a store and those below it. *)
Lemma StoreConfig_rect' (P : StoreConfig -> Prop) :
  (forall f stores, Forall P stores -> P (MkStoreConfig f stores)) -> forall c, P c.
Proof.
  intros H. fix IH 1. intros [f stores]. apply H. induction stores as [|c l IHl]; constructor; [apply IH|exact IHl].
Qed.

(** The check as the model of a list of stores does it. *)
Fixpoint check_all (l : list StoreConfig) (ctx : ParseContext) : bool * list StoreConfig * ParseContext :=
  match l with
  | [] => (true, [], ctx)
  | c :: l =>
      let '(ok, c, ctx) := CheckStoreConfig c ctx in
      if (ok : bool) then let '(ok, l, ctx) := check_all l ctx in (ok, c :: l, ctx) else (false, c :: l, ctx)
  end.

(** What a check does not change: the type, the buffer type and the address. *)
Definition same_kind (c c' : StoreConfig) : Prop :=
  sc_type (sc_fields c') = sc_type (sc_fields c) /\ sc_buffer_type (sc_fields c') = sc_buffer_type (sc_fields c).

Definition check_ok (c : StoreConfig) : Prop :=
  forall ctx, let '(ok, c', ctx') := CheckStoreConfig c ctx in
    same_kind c c' /\ ctx_success ctx' = ctx_success ctx /\ ctx_conf ctx' = ctx_conf ctx
    /\ (if ok then well_formed c' = true /\ ctx_error ctx' = ctx_error ctx else True)
    /\ (well_formed c = true -> ok = true /\ c' = c).

Lemma default_topic_ok f : sc_topic (default_topic f) <> [] /\ sc_type (default_topic f) = sc_type f
  /\ sc_buffer_type (default_topic f) = sc_buffer_type f /\ sc_socket (default_topic f) = sc_socket f
  /\ sc_host (default_topic f) = sc_host f /\ sc_port (default_topic f) = sc_port f
  /\ (sc_topic f <> [] -> default_topic f = f).
Proof. unfold default_topic. case_decide as H; split_and!; try done. Qed.

Lemma check_all_ok l : Forall check_ok l -> forall ctx,
  let '(ok, l', ctx') := check_all l ctx in
    length l' = length l /\ ctx_success ctx' = ctx_success ctx /\ ctx_conf ctx' = ctx_conf ctx
    /\ (if ok then forallb well_formed l' = true /\ ctx_error ctx' = ctx_error ctx else True)
    /\ (forallb well_formed l = true -> ok = true /\ l' = l).
Proof.
  induction 1 as [|c l Hc Hl IH]; intros ctx; cbn [check_all]; [done|].
  specialize (Hc ctx). destruct (CheckStoreConfig c ctx) as [[ok c'] ctx']. destruct Hc as (_ & Hs & Hcf & Hw & Hid).
  destruct ok; cbn.
  - destruct Hw as [Hw He]. specialize (IH ctx'). destruct (check_all l ctx') as [[ok l'] ctx''].
    destruct IH as (Hlen & Hs' & Hcf' & Hw' & Hid'). split_and!; [cbn; lia|congruence|congruence| |].
    + destruct ok; [|done]. destruct Hw' as [Hw1 He1]. cbn. rewrite Hw. split; [done|congruence].
    + intros [H1 H2]%andb_true_iff. destruct (Hid H1) as [_ ->], (Hid' H2) as [-> ->]. done.
  - split_and!; try done. intros [H1 H2]%andb_true_iff. by destruct (Hid H1).
Qed.

(** The check of the stores of a store, by its kind. *)
Definition check_stores (f : store_fields) (stores : list StoreConfig) (ctx : ParseContext)
  : bool * list StoreConfig * ParseContext :=
  match kind_of (sc_type f) with
  | Some (KMultiple | KPriority) =>
      match stores with [] => (false, stores, set_error ERR_CONF_AT_LEAST_1 ctx) | _ => check_all stores ctx end
  | Some KBuffer =>
      match stores with
      | [a; b] =>
          if is_buffer_type (bs "primary") b && is_buffer_type (bs "secondary") a then
            let '(ok1, b', ctx) := CheckStoreConfig b ctx in
            if (ok1 : bool) then let '(ok2, a', ctx) := CheckStoreConfig a ctx in (ok2, [b'; a'], ctx)
            else (false, [b'; a], ctx)
          else if negb (is_buffer_type (bs "primary") a && is_buffer_type (bs "secondary") b)
          then (false, stores, set_error ERR_CONF_BUF_2 ctx)
          else
            let '(ok1, a', ctx) := CheckStoreConfig a ctx in
            if (ok1 : bool) then let '(ok2, b', ctx) := CheckStoreConfig b ctx in (ok2, [a'; b'], ctx)
            else (false, [a'; b], ctx)
      | _ => (false, stores, set_error ERR_CONF_BUF_1 ctx)
      end
  | Some KNetwork =>
      if bool_decide (sc_socket f = []) && (bool_decide (sc_host f = []) || bool_decide (sc_port f = []))
      then (false, stores, set_error ERR_BAD_ADDR ctx)
      else (true, stores, ctx)
  | Some (KFile | KNull) => (true, stores, ctx)
  | None => (false, stores, set_error ERR_CONF_UNKOWN_STORE_TYPE ctx)
  end.

Lemma CheckStoreConfig_eq f stores ctx : CheckStoreConfig (MkStoreConfig f stores) ctx =
  let '(ok, stores, ctx) := check_stores f stores ctx in
  (ok, MkStoreConfig (if (ok : bool) then default_topic f else f) stores, ctx).
Proof. reflexivity. Qed.

(** [well_formed] of a store but for its own topic. *)
Definition well_formed_stores (f : store_fields) (stores : list StoreConfig) : bool :=
  match kind_of (sc_type f) with
  | Some (KMultiple | KPriority) => negb (bool_decide (length stores = 0%nat)) && forallb well_formed stores
  | Some KBuffer =>
      match stores with
      | [a; b] => is_buffer_type (bs "primary") a && is_buffer_type (bs "secondary") b && well_formed a && well_formed b
      | _ => false
      end
  | Some KNetwork => negb (bool_decide (sc_socket f = []) && (bool_decide (sc_host f = []) || bool_decide (sc_port f = [])))
  | Some (KFile | KNull) => true
  | None => false
  end.

Lemma well_formed_eq f stores :
  well_formed (MkStoreConfig f stores) = negb (bool_decide (sc_topic f = [])) && well_formed_stores f stores.
Proof. reflexivity. Qed.

Definition stores_ok (f : store_fields) (stores : list StoreConfig) : Prop :=
  forall ctx, let '(ok, stores', ctx') := check_stores f stores ctx in
    ctx_success ctx' = ctx_success ctx /\ ctx_conf ctx' = ctx_conf ctx
    /\ (if ok then well_formed_stores f stores' = true /\ ctx_error ctx' = ctx_error ctx else True)
    /\ (well_formed_stores f stores = true -> ok = true /\ stores' = stores).

Lemma same_buffer t c c' : same_kind c c' -> is_buffer_type t c' = is_buffer_type t c.
Proof. intros [_ H]. unfold is_buffer_type. by rewrite H. Qed.

(** A store has one buffer type. *)
Lemma buffer_exclusive c : is_buffer_type (bs "primary") c = true -> is_buffer_type (bs "secondary") c = false.
Proof.
  unfold is_buffer_type. intros ->%bool_decide_eq_true. by apply bool_decide_eq_false.
Qed.

(** Two stores checked one after the other. *)
Lemma check_pair_ok f a b : kind_of (sc_type f) = Some KBuffer -> check_ok a -> check_ok b ->
  is_buffer_type (bs "primary") a && is_buffer_type (bs "secondary") b = true -> forall ctx,
  let '(ok, stores', ctx') :=
    let '(ok1, a', ctx) := CheckStoreConfig a ctx in
    if (ok1 : bool) then let '(ok2, b', ctx) := CheckStoreConfig b ctx in (ok2, [a'; b'], ctx) else (false, [a'; b], ctx) in
  ctx_success ctx' = ctx_success ctx /\ ctx_conf ctx' = ctx_conf ctx
  /\ (if ok then well_formed_stores f stores' = true /\ ctx_error ctx' = ctx_error ctx else True)
  /\ (well_formed a && well_formed b = true -> ok = true /\ stores' = [a; b]).
Proof.
  intros Hk Ha Hb Hab ctx. specialize (Ha ctx). destruct (CheckStoreConfig a ctx) as [[ok1 a'] ctx1].
  destruct Ha as (Ka & Sa & Ca & Wa & Ia). apply andb_true_iff in Hab as [H1 H2]. destruct ok1.
  - specialize (Hb ctx1). destruct (CheckStoreConfig b ctx1) as [[ok2 b'] ctx2]. destruct Hb as (Kb & Sb & Cb & Wb & Ib).
    split_and!; [congruence..| |].
    + destruct ok2; [|done]. destruct Wa as [Wa Ea], Wb as [Wb Eb]. unfold well_formed_stores. rewrite Hk.
      rewrite (same_buffer _ _ _ Ka), (same_buffer _ _ _ Kb), H1, H2, Wa, Wb. split; [done|congruence].
    + intros [E1 E2]%andb_true_iff. destruct (Ia E1) as [_ ->], (Ib E2) as [-> ->]. done.
  - split_and!; try done. intros [E1 _]%andb_true_iff. by destruct (Ia E1).
Qed.

Lemma check_stores_ok f stores : Forall check_ok stores -> stores_ok f stores.
Proof.
  intros Hst ctx. unfold check_stores. destruct (kind_of (sc_type f)) as [[]|] eqn:Hk.
  1,2: destruct stores as [|c l];
    [split_and!; try done; unfold well_formed_stores; by rewrite Hk|];
    pose proof (check_all_ok _ Hst ctx) as Hc; destruct (check_all (c :: l) ctx) as [[ok l'] ctx'];
    destruct Hc as (Hlen & Hs & Hcf & Hw & Hid); unfold well_formed_stores; rewrite Hk;
    split_and!; [done..|destruct ok; [|done]; destruct Hw as [-> ?]; rewrite Hlen; by cbn|];
    rewrite bool_decide_false by done; exact Hid.
  - destruct stores as [|a [|b [|]]]; try (split_and!; try done; unfold well_formed_stores; by rewrite Hk).
    apply Forall_cons in Hst as [Ha Hst]. apply Forall_cons in Hst as [Hb _].
    destruct (is_buffer_type (bs "primary") b && is_buffer_type (bs "secondary") a) eqn:E1.
    + pose proof (check_pair_ok f b a Hk Hb Ha E1 ctx) as Hp. destruct (let '(_, _, _) := _ in _) as [[ok l'] ctx'].
      destruct Hp as (H1 & H2 & H3 & _). split_and!; try done. unfold well_formed_stores. rewrite Hk.
      apply andb_true_iff in E1 as [E1 E2]. intros H. apply andb_true_iff in H as [H _]. apply andb_true_iff in H as [H _].
      apply andb_true_iff in H as [H _]. apply buffer_exclusive in H. congruence.
    + destruct (is_buffer_type (bs "primary") a && is_buffer_type (bs "secondary") b) eqn:E2; cbn [negb].
      * pose proof (check_pair_ok f a b Hk Ha Hb E2 ctx) as Hp. destruct (let '(_, _, _) := _ in _) as [[ok l'] ctx'].
        destruct Hp as (H1 & H2 & H3 & H4). split_and!; try done. unfold well_formed_stores. rewrite Hk, E2. exact H4.
      * split_and!; try done. unfold well_formed_stores. by rewrite Hk, E2.
  - unfold well_formed_stores. rewrite Hk. destruct (_ && _) eqn:E; split_and!; try done.
  - split_and!; try done. unfold well_formed_stores. by rewrite Hk.
  - split_and!; try done. unfold well_formed_stores. by rewrite Hk.
  - split_and!; try done. unfold well_formed_stores. by rewrite Hk.
Qed.

Lemma CheckStoreConfig_ok c : check_ok c.
Proof.
  induction c as [f stores Hst] using StoreConfig_rect'. intros ctx. rewrite CheckStoreConfig_eq.
  pose proof (check_stores_ok f stores Hst ctx) as Hs. destruct (check_stores f stores ctx) as [[ok stores'] ctx'].
  destruct Hs as (H1 & H2 & H3 & H4). destruct (default_topic_ok f) as (T1 & T2 & T3 & T4 & T5 & T6 & T7).
  split_and!; try done.
  - destruct ok; cbn; [by split; cbn|done].
  - destruct ok; [|done]. destruct H3 as [H3 ?]. split; [|done]. rewrite well_formed_eq, bool_decide_false by done.
    cbn [negb andb]. unfold well_formed_stores in *. by rewrite T2, T4, T5, T6.
  - rewrite well_formed_eq. intros [Ht Hw]%andb_true_iff. destruct (H4 Hw) as [-> ->]. split; [done|].
    rewrite T7; [done|]. intros Hn. by rewrite Hn in Ht.
Qed.

(** C37. A store configuration that passes the check is well formed (known types, at least one
    store below a multiple or priority store, a primary and then a secondary below a buffer store,
    an address for a network store, a topic everywhere); a well-formed one passes unchanged, so
    checking again changes nothing. *)
Theorem checked_config_well_formed c ctx :
  let '(ok, c', ctx') := CheckStoreConfig c ctx in
  (ok = true -> well_formed c' = true /\ ctx' = ctx)
  /\ (well_formed c = true -> ok = true /\ c' = c)
  /\ (ok = true -> forall ctx2, fst (CheckStoreConfig c' ctx2) = (true, c')).
Proof.
  pose proof (CheckStoreConfig_ok c ctx) as Hc. destruct (CheckStoreConfig c ctx) as [[ok c'] ctx'].
  destruct Hc as (_ & H1 & H2 & H3 & H4). split_and!.
  - intros ->. destruct H3 as [? H3]. split; [done|]. destruct ctx, ctx'. cbn in *. congruence.
  - done.
  - intros -> ctx2. destruct H3 as [Hw _]. pose proof (CheckStoreConfig_ok c' ctx2) as Hc2.
    destruct (CheckStoreConfig c' ctx2) as [[ok2 c2] ctx2']. destruct Hc2 as (_ & _ & _ & _ & H5).
    destruct (H5 Hw) as [-> ->]. done.
Qed.
