(* ===== verification/Parser.v ===== *)
(** * parser.c: the parser of the configuration file

    The LALR(1) parser, with its tables, its stack, its error handling and the
    actions of its rules.  [None] is an [assert] that fails, a read outside a
    table or the stack, a NULL pointer, or a member of the union read as what
    it is not.  What the parser frees is in ParserMemory.v. *)

From S2P Require Import Prelude Common Util Conf.

(** ** Tables *)

Definition YYNOCODE : Z := 22.
Definition YYSTACKDEPTH : nat := 100.
Definition YYNSTATE : Z := 39.
Definition YYNRULE : Z := 26.
Definition YY_ACCEPT_ACTION : Z := YYNSTATE + YYNRULE + 1.
Definition YY_ERROR_ACTION : Z := YYNSTATE + YYNRULE.

Definition YY_ACTTAB_COUNT : Z := 55.
Definition yy_action : list Z := [
  1; 15; 17; 16; 18; 39; 9; 29; 14; 7;
  66; 13; 12; 32; 34; 33; 35; 9; 5; 14;
  8; 9; 13; 12; 10; 25; 4; 12; 20; 21;
  9; 37; 36; 3; 22; 9; 12; 9; 38; 31;
  26; 28; 2; 6; 23; 24; 11; 19; 9; 30;
  67; 67; 67; 67; 27].
Definition yy_lookahead : list Z := [
  10; 11; 12; 13; 14; 0; 1; 14; 3; 16;
  20; 6; 7; 11; 12; 13; 14; 1; 4; 3;
  1; 1; 6; 7; 15; 5; 4; 7; 13; 14;
  1; 1; 2; 18; 5; 1; 7; 1; 1; 5;
  14; 5; 4; 17; 13; 14; 19; 8; 1; 14;
  21; 21; 21; 21; 14].
Definition YY_SHIFT_USE_DFLT : Z := -1.
Definition YY_SHIFT_COUNT : Z := 14.
Definition yy_shift_ofst : list Z := [16; 5; 29; 20; 47; 47; 36; 34; 39; 37; 30; 38; 19; 22; 14].
Definition YY_REDUCE_USE_DFLT : Z := -11.
Definition YY_REDUCE_COUNT : Z := 9.
Definition yy_reduce_ofst : list Z := [-10; 2; 15; 31; 26; -7; 40; 35; 27; 9].
Definition yy_default : list Z := [
  65; 65; 65; 65; 65; 65; 65; 65; 60; 65;
  65; 65; 65; 65; 65; 49; 47; 45; 43; 59;
  63; 61; 58; 64; 62; 57; 55; 56; 54; 52;
  53; 51; 50; 48; 46; 44; 42; 41; 40].

(** The left-hand side of each rule and how many symbols it has on the right. *)
Definition yyRuleInfo : list (Z * nat) := [
  (20, 1%nat); (15, 1%nat); (15, 2%nat); (14, 3%nat); (10, 1%nat); (10, 2%nat); (10, 1%nat); (10, 2%nat); (10, 1%nat); (10, 2%nat);
  (10, 1%nat); (10, 2%nat); (11, 4%nat); (16, 1%nat); (16, 2%nat); (12, 4%nat); (17, 1%nat); (17, 2%nat); (13, 6%nat); (13, 5%nat);
  (19, 1%nat); (19, 0%nat); (18, 1%nat); (18, 2%nat); (18, 1%nat); (18, 2%nat)].

(** The terminals (parser.h). *)
Definition TK_ID : Z := 1.
Definition TK_SEMICOLON : Z := 2.
Definition TK_LOG : Z := 3.
Definition TK_LP : Z := 4.
Definition TK_RP : Z := 5.
Definition TK_LISTEN : Z := 6.
Definition TK_STORE : Z := 7.
Definition TK_BUFFER_TYPE : Z := 8.

Definition tab (l : list Z) (i : Z) : option Z := if i <? 0 then None else l !! Z.to_nat i.

(** ** Data *)

Record Token := MkToken { tk_id : Z; tk_value : bytes }.

(** [YYMINORTYPE]; [yyzero] is [yyzerominor], NULL as any of the pointers. *)
Inductive minor : Type :=
| yyzero
| yy0 (t : option Token)
| yy6 (c : StoreConfig)
| yy25 (kv : KeyValue)
| yy31 (v : list bytes)
| yy32 (c : KidsConfig).

Record yyStackEntry := Entry { stateno : Z; major : Z; minor_ : minor }.

(** The stack, its top first; [yyidx] is one less than its length. *)
Record yyParser := MkParser { yystack : list yyStackEntry; yyerrcnt : Z }.

Definition ParseAlloc : yyParser := MkParser [] (-1).

(** ** Actions *)

Definition yy_find_shift_action (state iLookAhead : Z) : option Z :=
  if state >? YY_SHIFT_COUNT then tab yy_default state
  else
    i ← tab yy_shift_ofst state;
    if i =? YY_SHIFT_USE_DFLT then tab yy_default state
    else if iLookAhead =? YYNOCODE then None
    else
      let i := i + iLookAhead in
      if (i <? 0) || (i >=? YY_ACTTAB_COUNT) then tab yy_default state
      else
        x ← tab yy_lookahead i;
        if negb (x =? iLookAhead) then tab yy_default state else tab yy_action i.

Definition yy_find_reduce_action (state iLookAhead : Z) : option Z :=
  if negb (state <=? YY_REDUCE_COUNT) then None
  else
    i ← tab yy_reduce_ofst state;
    if (i =? YY_REDUCE_USE_DFLT) || (iLookAhead =? YYNOCODE) then None
    else
      let i := i + iLookAhead in
      if (i <? 0) || (i >=? YY_ACTTAB_COUNT) then None
      else x ← tab yy_lookahead i; if x =? iLookAhead then tab yy_action i else None.

(** The pointer to a token, and what it points to. *)
Definition token_ptr (m : minor) : option (option Token) :=
  match m with yyzero => Some None | yy0 t => Some t | _ => None end.
Definition token (m : minor) : option Token := t ← token_ptr m; t.

(** [if (C != NULL) A->buffer_type = C->value; else A->buffer_type.clear();] *)
Definition buffer_value (m : minor) : option bytes :=
  t ← token_ptr m; Some match t with Some t => tk_value t | None => [] end.

Definition copy_listen (a c : KidsConfig) : KidsConfig :=
  MkKidsConfig (kc_listen_socket c) (kc_listen_host c) (kc_listen_port c) (kc_log_level a) (kc_log_file a)
    (kc_max_clients a) (kc_worker_threads a) (kc_ignore_case a) (kc_nlimit a) (kc_store a).
Definition copy_log (a c : KidsConfig) : KidsConfig :=
  MkKidsConfig (kc_listen_socket a) (kc_listen_host a) (kc_listen_port a) (kc_log_level c) (kc_log_file c)
    (kc_max_clients a) (kc_worker_threads a) (kc_ignore_case a) (kc_nlimit a) (kc_store a).

Definition lift32 (r : KidsConfig * ParseContext) : minor * ParseContext := (yy32 r.1, r.2).
Definition lift6 (r : StoreConfig * ParseContext) : minor * ParseContext := (yy6 r.1, r.2).

(** The [switch] of [yy_reduce] on the values of the right-hand side, the last
    symbol first. *)
Definition reduce_action (rule : nat) (rhs : list minor) (line : Z) (ctx : ParseContext)
  : option (minor * ParseContext) :=
  match rule, rhs with
  | 0%nat, [yy32 c] => Some (yyzero, with_conf c ctx)
  | 1%nat, [v] => v ← token v; Some (yy31 [tk_value v], ctx)
  | 2%nat, [v; yy31 l] => v ← token v; Some (yy31 (l ++ [tk_value v]), ctx)
  | 3%nat, [_; yy31 l; k] => k ← token k; Some (yy25 (MkKeyValue (tk_value k) l), ctx)
  | 4%nat, [yy25 kv] => Some (lift32 (SetKidsConfValue new_KidsConfig kv line ctx))
  | (5 | 14 | 17)%nat, [yy25 kv; yy32 c] => Some (lift32 (SetKidsConfValue c kv line ctx))
  | (6 | 10)%nat, [yy32 c] => Some (yy32 c, ctx)
  | 7%nat, [yy32 c; yy32 a] =>
      if negb (bool_decide (kc_listen_socket a = [])) || negb (bool_decide (kc_listen_host a = []))
      then Some (yy32 a, failed ERR_MULTI_LISTEN_HOST ctx)
      else Some (yy32 (copy_listen a c), ctx)
  | 8%nat, [yy6 s] => Some (yy32 (with_kc_store (Some s) new_KidsConfig), ctx)
  | 9%nat, [yy6 s; yy32 a] =>
      match kc_store a with
      | Some _ => Some (yy32 a, failed ERR_MULTI_STORE ctx)
      | None => Some (yy32 (with_kc_store (Some s) a), ctx)
      end
  | 11%nat, [yy32 c; yy32 a] => Some (yy32 (copy_log a c), ctx)
  | (12 | 15)%nat, [_; yy32 c; _; _] => Some (yy32 c, ctx)
  | (13 | 16)%nat, [yy25 kv] => Some (lift32 (SetKidsConfValue new_KidsConfig kv line ctx))
  | 18%nat, [_; yy6 d; _; c; b; _] =>
      b ← token b; c ← buffer_value c;
      Some (yy6 (map_fields (set_type (tk_value b) c) d), ctx)
  | 19%nat, [_; _; c; b; _] =>
      b ← token b; c ← buffer_value c;
      Some (yy6 (map_fields (set_type (tk_value b) c) new_StoreConfig), ctx)
  | 20%nat, [t] => t ← token_ptr t; Some (yy0 t, ctx)
  | 21%nat, [] => Some (yyzero, ctx)
  | 22%nat, [yy25 kv] => Some (lift6 (SetStoreConfValue new_StoreConfig kv line ctx))
  | 23%nat, [yy25 kv; yy6 c] => Some (lift6 (SetStoreConfValue c kv line ctx))
  | 24%nat, [yy6 s] => Some (yy6 (MkStoreConfig no_fields [s]), ctx)
  | 25%nat, [yy6 s; yy6 c] => Some (yy6 (MkStoreConfig (sc_fields c) (sc_stores c ++ [s])), ctx)
  | _, _ => None
  end.

(** ** The driver *)

(** "%s(line: %d)" *)
Definition syntax_text (line : Z) : bytes := ERR_SYNTAX ++ bs "(line: " ++ ll2string 127 line ++ bs ")".

Definition overflow_text (line : Z) : bytes := bs "parse config file stack overflow(" ++ ll2string 127 line ++ bs ")".

(** [yy_shift]; a full stack is emptied. *)
Definition yy_shift (stack : list yyStackEntry) (state maj : Z) (m : minor) (line : Z) (ctx : ParseContext)
  : list yyStackEntry * ParseContext :=
  if (YYSTACKDEPTH <=? length stack)%nat then ([], failed (overflow_text line) ctx)
  else (Entry state maj m :: stack, ctx).

(** [yy_reduce].  Reading [yymsp[-yysize]] needs an entry below those of the
    right-hand side; accepting empties the stack. *)
Definition yy_reduce (stack : list yyStackEntry) (rule : Z) (line : Z) (ctx : ParseContext)
  : option (list yyStackEntry * ParseContext) :=
  '(lhs, n) ← yyRuleInfo !! Z.to_nat rule;
  if negb (n <? length stack)%nat then None
  else
    '(m, ctx) ← reduce_action (Z.to_nat rule) (map minor_ (take n stack)) line ctx;
    let stack := drop n stack in
    below ← head stack;
    act ← yy_find_reduce_action (stateno below) lhs;
    if act <? YYNSTATE then Some (yy_shift stack act lhs m line ctx)
    else if act =? YY_ACCEPT_ACTION then Some ([], ctx)
    else None.

Definition yy_syntax_error (t : option Token) (line : Z) (ctx : ParseContext) : ParseContext :=
  match t with
  | Some t => failed (syntax_text line ++ bs ": " ++ cstr (tk_value t)) ctx
  | None => failed (syntax_text line) ctx
  end.

(** The loop of [Parse]; a token is followed by few reductions, so that a
    constant bounds the fuel. *)
Fixpoint parse_loop (fuel : nat) (stack : list yyStackEntry) (errcnt : Z) (yymajor : Z) (yyminor : option Token)
    (line : Z) (ctx : ParseContext) : option (yyParser * ParseContext) :=
  match fuel with
  | O => None
  | S fuel =>
      top ← head stack;
      act ← yy_find_shift_action (stateno top) yymajor;
      if act <? YYNSTATE then
        if yymajor =? 0 then None
        else
          let '(stack, ctx) := yy_shift stack act yymajor (yy0 yyminor) line ctx in
          Some (MkParser stack (errcnt - 1), ctx)
      else if act <? YYNSTATE + YYNRULE then
        '(stack, ctx) ← yy_reduce stack (act - YYNSTATE) line ctx;
        match stack with
        | [] => Some (MkParser [] errcnt, ctx)
        | _ => parse_loop fuel stack errcnt yymajor yyminor line ctx
        end
      else if act =? YY_ERROR_ACTION then
        let ctx := if errcnt <=? 0 then yy_syntax_error yyminor line ctx else ctx in
        if yymajor =? 0 then Some (MkParser [] 3, failed (syntax_text line) ctx)
        else Some (MkParser stack 3, ctx)
      else None
  end.

Definition parse_fuel : nat := 8.

Definition Parse (yymajor : Z) (yyminor : option Token) (line : Z) (p : yyParser) (ctx : ParseContext)
  : option (yyParser * ParseContext) :=
  let p := match yystack p with [] => MkParser [Entry 0 0 yyzero] (-1) | _ => p end in
  parse_loop parse_fuel (yystack p) (yyerrcnt p) yymajor yyminor line ctx.

(** Tokens one after the other, each with its line. *)
Fixpoint parse_tokens (l : list (Z * option Token * Z)) (p : yyParser) (ctx : ParseContext)
  : option (yyParser * ParseContext) :=
  match l with
  | [] => Some (p, ctx)
  | (maj, t, line) :: l => '(p, ctx) ← Parse maj t line p ctx; parse_tokens l p ctx
  end.

(** ** The automaton of the tables *)

(** The state after a symbol is shifted in a state. *)
Definition edge (b X : Z) : option Z :=
  a ← (if X <? 9 then yy_find_shift_action b X else yy_find_reduce_action b X);
  if a <? YYNSTATE then Some a else None.

Definition all_states : list Z := Z.of_nat <$> seq 0 39.
Definition all_symbols : list Z := Z.of_nat <$> seq 1 20.
Definition incoming (s : Z) : list (Z * Z) :=
  filter (fun x : Z * Z => edge x.1 x.2 = Some s) (list_prod all_states all_symbols).

(** The right-hand sides of the rules, the last symbol first. *)
Definition rule_rhs : list (list Z) := [
  [10]; [1]; [1; 15]; [2; 15; 1]; [14]; [14; 10]; [12]; [12; 10]; [13]; [13; 10];
  [11]; [11; 10]; [5; 16; 4; 3]; [14]; [14; 16]; [5; 17; 4; 6]; [14]; [14; 17]; [5; 18; 4; 19; 1; 7]; [5; 4; 19; 1; 7];
  [8]; []; [14]; [14; 18]; [13]; [13; 18]].

(** Whatever path leads to [s], it ends in the symbols [rhs], and the state
    before them satisfies [k]. *)
Fixpoint pops (rhs : list Z) (s : Z) (k : Z -> bool) : bool :=
  match rhs with
  | [] => k s
  | X :: rhs => negb (s =? 0) && forallb (fun x : Z * Z => (x.2 =? X) && pops rhs x.1 k) (incoming s)
  end.

(** A bound on the reductions before the next shift. *)
Definition rank (s : Z) : nat :=
  if bool_decide (s ∈ [22; 25; 28; 31; 36]) then 2
  else if (s =? 8) || (15 <=? s) then 1 else 0.

(** What a state and a token lead to: a shift of a terminal, an error, or a
    reduction whose right-hand side is on the stack, and whose left-hand side
    can be shifted, or accepts. *)
Definition reducible (s r : Z) : bool :=
  match yyRuleInfo !! Z.to_nat r, rule_rhs !! Z.to_nat r with
  | Some (lhs, n), Some rhs =>
      (length rhs =? n)%nat && (9 <? lhs) &&
      pops rhs s (fun b =>
        match yy_find_reduce_action b lhs with
        | Some a => if a <? YYNSTATE then (0 <=? a) && (rank a <? rank s)%nat && (lhs <=? 20)
                    else (a =? YY_ACCEPT_ACTION) && (r =? 0)
        | None => false
        end)
  | _, _ => false
  end.

Definition action_ok (s la : Z) : bool :=
  match yy_find_shift_action s la with
  | None => false
  | Some a =>
      if a <? YYNSTATE then (0 <=? a) && negb (la =? 0)
      else if a <? YYNSTATE + YYNRULE then reducible s (a - YYNSTATE)
      else a =? YY_ERROR_ACTION
  end.

Definition terminals : list Z := Z.of_nat <$> seq 0 9.

Lemma tables_ok : forallb (fun x : Z * Z => action_ok x.1 x.2) (list_prod all_states terminals) = true.
Proof. vm_compute. reflexivity. Qed.

Lemma in_range_list n m z : Z.of_nat n <= z < Z.of_nat (n + m) -> z ∈ (Z.of_nat <$> seq n m).
Proof.
  intros Hz. apply list_elem_of_fmap. exists (Z.to_nat z). split; [lia|]. apply elem_of_seq. lia.
Qed.

Lemma action_ok_all s la : 0 <= s < 39 -> 0 <= la < 9 -> action_ok s la = true.
Proof.
  intros Hs Hl. pose proof (proj1 (forallb_forall _ _) tables_ok (s, la)) as H. apply H.
  apply in_prod; apply list_elem_of_In, in_range_list; lia.
Qed.

(** ** Stacks *)

(** The value of a symbol. *)
Definition minor_ok (X : Z) (m : minor) : Prop :=
  if bool_decide (X ∈ [1; 8]) then exists t, m = yy0 (Some t)
  else if X <? 9 then True
  else if bool_decide (X ∈ [10; 11; 12; 16; 17]) then exists c, m = yy32 c
  else if bool_decide (X ∈ [13; 18]) then exists c, m = yy6 c
  else if X =? 14 then exists kv, m = yy25 kv
  else if X =? 15 then exists v, m = yy31 v
  else exists t, token_ptr m = Some t.

(** A stack spells a path of the automaton from state 0. *)
Fixpoint path (l : list yyStackEntry) : Prop :=
  match l with
  | [] => False
  | e :: l =>
      match l with
      | [] => stateno e = 0
      | b :: _ => edge (stateno b) (major e) = Some (stateno e) /\ minor_ok (major e) (minor_ e)
          /\ 0 <= stateno e < 39 /\ 1 <= major e <= 20 /\ path l
      end
  end.

Lemma path_state e l : path (e :: l) -> 0 <= stateno e < 39.
Proof. destruct l as [|b l]; cbn; [lia|]. by intros (_ & _ & H & _). Qed.

Lemma pops_ok rhs e l k : path (e :: l) -> pops rhs (stateno e) k = true ->
  exists below rest, drop (length rhs) (e :: l) = below :: rest /\ path (below :: rest) /\ k (stateno below) = true
    /\ map major (take (length rhs) (e :: l)) = rhs
    /\ Forall (fun x => minor_ok (major x) (minor_ x)) (take (length rhs) (e :: l)).
Proof.
  revert e l. induction rhs as [|X rhs IH]; intros e l Hp Hk; cbn [pops length drop take map] in *.
  { by exists e, l. }
  apply andb_true_iff in Hk as [H0 Hk]. destruct l as [|b l]; [bool_to_prop; cbn in Hp; lia|].
  destruct Hp as (He & Hm & Hs & HX & Hp). pose proof (path_state _ _ Hp) as Hb.
  assert ((stateno b, major e) ∈ incoming (stateno e)) as Hin.
  { apply list_elem_of_filter. split; [done|]. apply list_elem_of_In, in_prod; apply list_elem_of_In, in_range_list; lia. }
  pose proof (proj1 (forallb_forall _ _) Hk (stateno b, major e)) as Hx. cbn [fst snd] in Hx.
  specialize (Hx (proj1 (list_elem_of_In _ _) Hin)). apply andb_true_iff in Hx as [Hx Hk']. bool_to_prop. subst X.
  destruct (IH b l Hp Hk') as (below & rest & E & Hp' & Hk2 & Hmaj & Hmin). exists below, rest.
  split_and!; [done|done|done|by rewrite Hmaj|by constructor].
Qed.

(** Takes apart the values of a right-hand side. *)
Ltac open_rhs :=
  repeat match goal with
  | H : map major ?l = [] |- _ => apply map_eq_nil in H; subst l
  | H : map major ?l = _ :: _ |- _ =>
      destruct l as [|[? ? ?] l]; [done|]; cbn [map major] in H; injection H as ? H; subst
  | H : Forall _ (_ :: _) |- _ => apply Forall_cons in H as [? H]
  | H : minor_ok _ _ |- _ => cbn in H; try (destruct H as [? H]; subst)
  end.

(** Finishes the case of one rule. *)
Ltac close_rule :=
  cbn; unfold buffer_value, token;
  repeat match goal with H : token_ptr _ = Some _ |- _ => rewrite H; clear H end; cbn;
  repeat match goal with |- context [if ?b then _ else _] => destruct b end;
  try match goal with |- context [match kc_store ?c with _ => _ end] => destruct (kc_store c) end;
  eexists _, _; (split; [reflexivity|]); (split; [intros ?; cbn; first [done | by eexists]|done]).

Lemma reduce_action_ok r rhs lhs n l line ctx : rule_rhs !! r = Some rhs -> yyRuleInfo !! r = Some (lhs, n) ->
  map major l = rhs -> Forall (fun x => minor_ok (major x) (minor_ x)) l ->
  exists m ctx', reduce_action r (map minor_ l) line ctx = Some (m, ctx')
    /\ (lhs <> 20 -> minor_ok lhs m) /\ (r = 0%nat -> ctx_conf ctx' <> None).
Proof.
  intros Hr Hi Hm Hf.
  do 26 (destruct r as [|r]; [injection Hr as <-; injection Hi as <- <-; open_rhs; solve [close_rule]|]).
  done.
Qed.

(** Success with no result is what must not happen. *)
Definition conf_present (ctx : ParseContext) : Prop := ctx_success ctx = true -> ctx_conf ctx <> None.

Lemma yy_shift_ok stack state maj m line ctx below rest : stack = below :: rest -> path stack ->
  edge (stateno below) maj = Some state -> minor_ok maj m -> 0 <= state < 39 -> 1 <= maj <= 20 ->
  let '(stack', ctx') := yy_shift stack state maj m line ctx in
  (stack' = [] /\ conf_present ctx') \/ (stack' = Entry state maj m :: stack /\ path stack' /\ ctx' = ctx).
Proof.
  intros -> Hp He Hm Hs HX. unfold yy_shift. destruct (_ <=? _)%nat; [by left|right]. by split_and!.
Qed.

Lemma yy_reduce_ok e l r line ctx : path (e :: l) -> 0 <= r -> reducible (stateno e) r = true ->
  exists stack' ctx', yy_reduce (e :: l) r line ctx = Some (stack', ctx') /\
    ((stack' = [] /\ conf_present ctx')
     \/ exists e' l', stack' = e' :: l' /\ path stack' /\ (rank (stateno e') < rank (stateno e))%nat).
Proof.
  intros Hp Hr0 Hred. unfold reducible in Hred. unfold yy_reduce.
  destruct (yyRuleInfo !! Z.to_nat r) as [[lhs n]|] eqn:Hi; [|done].
  destruct (rule_rhs !! Z.to_nat r) as [rhs|] eqn:Hrhs; [|done].
  apply andb_true_iff in Hred as [Hn Hpops]. apply andb_true_iff in Hn as [Hn Hlhs].
  apply Nat.eqb_eq in Hn. bool_to_prop.
  destruct (pops_ok _ _ _ _ Hp Hpops) as (below & rest & Ed & Hp' & Hk & Hmaj & Hmin). rewrite Hn in *.
  destruct (reduce_action_ok _ _ _ _ _ line ctx Hrhs Hi Hmaj Hmin) as (m & ctx1 & Ea & Hm & Hc).
  assert (n < length (e :: l))%nat as Hlen.
  { apply (f_equal length) in Ed. rewrite length_drop in Ed. cbn [length] in *. lia. }
  cbn [mbind option_bind]. rewrite (proj2 (Nat.ltb_lt _ _)) by done. cbn [negb]. rewrite Ea.
  cbn [mbind option_bind]. rewrite Ed. cbn [head mbind option_bind].
  destruct (yy_find_reduce_action (stateno below) lhs) as [a|] eqn:Ef; [|done]. cbn [mbind option_bind].
  destruct (a <? YYNSTATE) eqn:Ea'.
  - apply andb_true_iff in Hk as [Hk H20]. apply andb_true_iff in Hk as [Hk1 Hk2]. apply Nat.ltb_lt in Hk2. bool_to_prop.
    assert (edge (stateno below) lhs = Some a) as Hedge.
    { unfold edge. rewrite (proj2 (Z.ltb_ge lhs 9)) by lia. rewrite Ef. cbn. by rewrite (proj2 (Z.ltb_lt a YYNSTATE)). }
    assert (minor_ok lhs m) as Hmok.
    { apply Hm. intros ->. clear - Ef Ea' Hp'. pose proof (path_state _ _ Hp'). unfold yy_find_reduce_action in Ef.
      assert (exists k, (k < 39)%nat /\ stateno below = Z.of_nat k) as (k & Hk & Ek) by (exists (Z.to_nat (stateno below)); lia).
      rewrite Ek in Ef. do 10 (destruct k as [|k]; [vm_compute in Ef; try done; injection Ef as <-; by vm_compute in Ea'|]).
      by rewrite (proj2 (Z.leb_gt _ _)) in Ef by (unfold YY_REDUCE_COUNT; lia). }
    pose proof (yy_shift_ok (below :: rest) a lhs m line ctx1 below rest eq_refl Hp' Hedge Hmok
      ltac:(unfold YYNSTATE in *; lia) ltac:(lia)) as Hs.
    destruct (yy_shift _ _ _ _ _ _) as [stack' ctx']. exists stack', ctx'. split; [done|].
    destruct Hs as [?|(-> & ? & ->)]; [by left|right]. eexists _, _. by split_and!.
  - apply andb_true_iff in Hk as [Hk Hr]. bool_to_prop. rewrite (proj2 (Z.eqb_eq a YY_ACCEPT_ACTION)) by done.
    eexists _, _. split; [done|]. left. split; [done|]. intros _. apply Hc. lia.
Qed.

(** A token of the lexer: identifiers and buffer types have a text. *)
Definition token_ok (maj : Z) (t : option Token) : Prop := 0 <= maj < 9 /\ (maj ∈ [1; 8] -> t <> None).
Definition parser_ok (p : yyParser) : Prop := yystack p = [] \/ path (yystack p).

Lemma parse_loop_ok fuel e l errcnt maj t line ctx : path (e :: l) -> token_ok maj t ->
  (rank (stateno e) < fuel)%nat ->
  exists p' ctx', parse_loop fuel (e :: l) errcnt maj t line ctx = Some (p', ctx') /\ parser_ok p'
    /\ (maj = 0 -> yystack p' = [] /\ conf_present ctx').
Proof.
  intros Hp [Hmaj Ht] Hf. revert e l ctx Hp Hf. induction fuel as [|fuel IH]; intros e l ctx Hp Hf; [lia|].
  cbn [parse_loop head mbind option_bind]. pose proof (path_state _ _ Hp) as Hs.
  pose proof (action_ok_all (stateno e) maj Hs Hmaj) as Hact. unfold action_ok in Hact.
  destruct (yy_find_shift_action (stateno e) maj) as [a|] eqn:Ea; [|done]. cbn [mbind option_bind].
  destruct (a <? YYNSTATE) eqn:Ea1.
  - apply andb_true_iff in Hact as [Ha0 Hm0]. bool_to_prop. rewrite (proj2 (Z.eqb_neq maj 0)) by done.
    assert (edge (stateno e) maj = Some a) as Hedge.
    { unfold edge. rewrite (proj2 (Z.ltb_lt maj 9)) by lia. rewrite Ea. cbn. by rewrite (proj2 (Z.ltb_lt a YYNSTATE)). }
    assert (minor_ok maj (yy0 t)) as Hmok.
    { unfold minor_ok. case_bool_decide as Hin; [destruct t; [by eexists|by destruct (Ht Hin)]|].
      by rewrite (proj2 (Z.ltb_lt maj 9)) by lia. }
    pose proof (yy_shift_ok (e :: l) a maj (yy0 t) line ctx e l eq_refl Hp Hedge Hmok
      ltac:(unfold YYNSTATE in *; lia) ltac:(lia)) as Hsh.
    destruct (yy_shift _ _ _ _ _ _) as [stack' ctx']. eexists _, _. split; [done|]. split; [|lia].
    destruct Hsh as [[-> _]|(-> & ? & _)]; [by left|by right].
  - destruct (a <? YYNSTATE + YYNRULE) eqn:Ea2.
    + bool_to_prop. destruct (yy_reduce_ok e l (a - YYNSTATE) line ctx Hp ltac:(lia) Hact) as (stack' & ctx' & E & Hcase).
      rewrite E. cbn [mbind option_bind]. destruct Hcase as [[-> Hc]|(e' & l' & -> & Hp' & Hrank)].
      * eexists _, _. split; [done|]. split; [by left|done].
      * apply IH; [done|lia].
    + rewrite Hact. destruct (maj =? 0) eqn:E0; bool_to_prop.
      * eexists _, _. split; [done|]. split; [by left|done].
      * eexists _, _. split; [done|]. split; [by right|done].
Qed.

Lemma rank_bound s : (rank s < parse_fuel)%nat.
Proof. unfold rank, parse_fuel. destruct (bool_decide _); [lia|]. destruct (_ || _); lia. Qed.

Lemma Parse_ok maj t line p ctx : parser_ok p -> token_ok maj t ->
  exists p' ctx', Parse maj t line p ctx = Some (p', ctx') /\ parser_ok p'
    /\ (maj = 0 -> yystack p' = [] /\ conf_present ctx').
Proof.
  intros Hp Ht. unfold Parse. destruct p as [[|e l] errcnt]; cbn [yystack yyerrcnt].
  - apply parse_loop_ok; [done|done|apply rank_bound].
  - destruct Hp as [?|Hp]; [done|]. apply parse_loop_ok; [done|done|apply rank_bound].
Qed.

(** The tokens of a file: none ends the input but the last. *)
Definition tokens_ok (l : list (Z * option Token * Z)) : Prop := Forall (fun x => token_ok x.1.1 x.1.2) l.

Lemma parse_tokens_ok l p ctx : parser_ok p -> tokens_ok l ->
  exists p' ctx', parse_tokens l p ctx = Some (p', ctx') /\ parser_ok p'.
Proof.
  intros Hp Hl. revert p ctx Hp. induction Hl as [|[[maj t] line] l Ht Hl IH]; intros p ctx Hp; [by exists p, ctx|].
  destruct (Parse_ok maj t line p ctx Hp Ht) as (p1 & ctx1 & E & Hp1 & _). cbn [parse_tokens]. rewrite E. cbn [mbind option_bind]. by apply IH.
Qed.
