(* ===== verification/Grammar.v ===== *)
(** * parser.y: the grammar of the configuration file

    The parser of Parser.v is compared with the grammar it was made from: a
    configuration is a tree, its meaning is what the actions of the grammar
    compute on the tree, and the parser gives that meaning to the tokens of
    the tree. *)

From S2P Require Import Prelude Common Util Conf Parser.

(** ** Trees *)

(** A setting has a key and at least one value; a store has a type, perhaps a
    buffer type, and settings and stores. *)
Inductive setting : Type := Setting (key value : bytes) (more : list bytes).
Inductive store_tree : Type := StoreTree (type : bytes) (buffer : option bytes) (body : list (setting + store_tree)).

Inductive conf_item : Type :=
| ISetting (s : setting)
| IListen (first : setting) (rest : list setting)
| ILog (first : setting) (rest : list setting)
| IStore (t : store_tree).

Record config := Config_ { first_item : conf_item; more_items : list conf_item }.

(** Induction over a store and those in it. *)
Definition in_item (P : store_tree -> Prop) (i : setting + store_tree) : Prop :=
  match i with inl _ => True | inr u => P u end.
Lemma store_tree_rect' (P : store_tree -> Prop) :
  (forall type buffer body, Forall (in_item P) body -> P (StoreTree type buffer body)) -> forall t, P t.
Proof.
  intros H. fix IH 1. intros [type buffer body]. apply H.
  induction body as [|[s|u] body IHb]; constructor; [exact I|exact IHb|apply IH|exact IHb].
Qed.

(** ** Tokens *)

Abbreviation token_of := (Z * option Token)%type.
Definition word (t : bytes) : token_of := (TK_ID, Some (MkToken TK_ID t)).
Definition symbol (k : Z) : token_of := (k, None).
(** A keyword comes with a text, which is not used but for buffer types. *)
Definition keyword (k : Z) (t : bytes) : token_of := (k, Some (MkToken k t)).

Definition setting_tokens (s : setting) : list token_of :=
  let 'Setting key value more := s in word key :: word value :: map word more ++ [symbol TK_SEMICOLON].

Fixpoint store_tokens (t : store_tree) : list token_of :=
  let 'StoreTree type buffer body := t in
  [keyword TK_STORE (bs "store"); word type]
  ++ match buffer with Some b => [keyword TK_BUFFER_TYPE b] | None => [] end
  ++ [symbol TK_LP]
  ++ concat (map (fun i => match i with inl s => setting_tokens s | inr u => store_tokens u end) body)
  ++ [symbol TK_RP].

Definition block_tokens (k : token_of) (first : setting) (rest : list setting) : list token_of :=
  [k; symbol TK_LP] ++ setting_tokens first ++ concat (map setting_tokens rest) ++ [symbol TK_RP].

Definition item_tokens (i : conf_item) : list token_of :=
  match i with
  | ISetting s => setting_tokens s
  | IListen first rest => block_tokens (keyword TK_LISTEN (bs "listen")) first rest
  | ILog first rest => block_tokens (keyword TK_LOG (bs "log")) first rest
  | IStore t => store_tokens t
  end.

Definition config_tokens (c : config) : list token_of :=
  item_tokens (first_item c) ++ concat (map item_tokens (more_items c)).

(** ** Meaning *)

(** What a setting does, and whether it is accepted: the line and the context
    only matter for the text of an error. *)
Definition kv_of (s : setting) : KeyValue := let 'Setting key value more := s in MkKeyValue key (value :: more).
Definition set_kids (r : KidsConfig * bool) (s : setting) : KidsConfig * bool :=
  let '(c, ctx) := SetKidsConfValue r.1 (kv_of s) 0 new_ParseContext in (c, r.2 && ctx_success ctx).
Definition set_store (r : StoreConfig * bool) (s : setting) : StoreConfig * bool :=
  let '(c, ctx) := SetStoreConfValue r.1 (kv_of s) 0 new_ParseContext in (c, r.2 && ctx_success ctx).

Definition add_store (c s : StoreConfig) : StoreConfig := MkStoreConfig (sc_fields c) (sc_stores c ++ [s]).

Fixpoint store_meaning (t : store_tree) : StoreConfig * bool :=
  let 'StoreTree type buffer body := t in
  let '(c, ok) := fold_left (fun r i =>
    match i with
    | inl s => set_store r s
    | inr u => let '(s, ok) := store_meaning u in (add_store r.1 s, r.2 && ok)
    end) body (new_StoreConfig, true) in
  (map_fields (set_type type (default [] buffer)) c, ok).

Definition block_meaning (l : list setting) : KidsConfig * bool := fold_left set_kids l (new_KidsConfig, true).

Definition item_meaning (r : KidsConfig * bool) (i : conf_item) : KidsConfig * bool :=
  let '(c, ok) := r in
  match i with
  | ISetting s => set_kids r s
  | IListen first rest =>
      let '(l, ok') := block_meaning (first :: rest) in
      if decide (kc_listen_socket c = [] /\ kc_listen_host c = []) then (copy_listen c l, ok && ok') else (c, false)
  | ILog first rest => let '(l, ok') := block_meaning (first :: rest) in (copy_log c l, ok && ok')
  | IStore t =>
      let '(s, ok') := store_meaning t in
      match kc_store c with
      | None => (with_kc_store (Some s) c, ok && ok')
      | Some _ => (c, false)
      end
  end.

(** A block at the head of the file is the configuration so far, whole. *)
Definition first_meaning (i : conf_item) : KidsConfig * bool :=
  match i with
  | IListen first rest | ILog first rest => block_meaning (first :: rest)
  | ISetting _ | IStore _ => item_meaning (new_KidsConfig, true) i
  end.

Definition config_meaning (c : config) : KidsConfig * bool :=
  fold_left item_meaning (more_items c) (first_meaning (first_item c)).

(** How deep the stores of a store are. *)
Fixpoint height (t : store_tree) : nat :=
  let 'StoreTree _ _ body := t in
  S (list_max (map (fun i => match i with inl _ => 0%nat | inr u => height u end) body)).
Definition item_height (i : conf_item) : nat := match i with IStore t => height t | _ => 0%nat end.

(** ** Running the parser *)

Definition is_token (x : token_of) : Prop := token_ok x.1 x.2.

(** From the stack and the context, over the tokens, on whatever lines they
    are, the parser ends as [Q] says. *)
Definition runs (l : list token_of) (stack : list yyStackEntry) (ctx : ParseContext)
    (Q : list yyStackEntry -> ParseContext -> Prop) : Prop :=
  path stack -> Forall is_token l -> forall lines errcnt, length lines = length l ->
  exists p' ctx', parse_tokens (zip l lines) (MkParser stack errcnt) ctx = Some (p', ctx') /\ Q (yystack p') ctx'.

(** More fuel changes nothing. *)
Lemma parse_loop_more fuel stack errcnt maj t line ctx r :
  parse_loop fuel stack errcnt maj t line ctx = Some r -> parse_loop (S fuel) stack errcnt maj t line ctx = Some r.
Proof.
  revert stack ctx. induction fuel as [|fuel IH]; intros stack ctx; [done|].
  cbn [parse_loop]. destruct (head stack) as [top|]; cbn [mbind option_bind]; [|done].
  destruct (yy_find_shift_action _ _) as [a|]; cbn [mbind option_bind]; [|done].
  destruct (a <? YYNSTATE); [done|]. destruct (a <? YYNSTATE + YYNRULE); [|done].
  destruct (yy_reduce _ _ _ _) as [[[|b l] ctx']|]; cbn [mbind option_bind]; [done|apply IH|done].
Qed.

Lemma parse_tokens_cons x line l e st errcnt ctx :
  parse_tokens ((x, line) :: l) (MkParser (e :: st) errcnt) ctx =
  '(p, ctx) ← parse_loop parse_fuel (e :: st) errcnt x.1 x.2 line ctx; parse_tokens l p ctx.
Proof. by destruct x. Qed.

Lemma path_cons e l : path l -> forall b l', l = b :: l' -> edge (stateno b) (major e) = Some (stateno e) ->
  minor_ok (major e) (minor_ e) -> 0 <= stateno e < 39 -> 1 <= major e <= 20 -> path (e :: l).
Proof. intros Hp b l' ->. by cbn. Qed.

(** A token is shifted. *)
Lemma runs_shift maj t l e st a ctx Q : yy_find_shift_action (stateno e) maj = Some a -> (0 <=? a) && (a <? 39) = true ->
  1 <= maj -> (length (e :: st) < 100)%nat ->
  runs l (Entry a maj (yy0 t) :: e :: st) ctx Q -> runs ((maj, t) :: l) (e :: st) ctx Q.
Proof.
  intros Ha Hr Hm Hlen H Hp Hl lines errcnt Hlines. apply andb_true_iff in Hr as [Hr1 Hr2]. bool_to_prop.
  apply Forall_cons in Hl as [Ht Hl]. destruct Ht as [Hmaj Ht]. cbn in Hmaj, Ht.
  destruct lines as [|line lines]; [done|]. cbn [zip zip_with]. rewrite parse_tokens_cons. cbn [fst snd].
  unfold parse_fuel. cbn [parse_loop head mbind option_bind]. rewrite Ha. cbn [mbind option_bind].
  rewrite (proj2 (Z.ltb_lt a YYNSTATE)) by done. rewrite (proj2 (Z.eqb_neq maj 0)) by lia.
  unfold yy_shift. rewrite (proj2 (Nat.leb_gt _ _)) by exact Hlen. cbn [mbind option_bind].
  apply H; [|done|cbn in *; lia]. eapply path_cons; [done|reflexivity|..]; cbn; [|..|lia|lia].
  - unfold edge. rewrite (proj2 (Z.ltb_lt maj 9)) by lia. rewrite Ha. cbn. by rewrite (proj2 (Z.ltb_lt a YYNSTATE)).
  - unfold minor_ok. case_bool_decide as Hin; [destruct t; [by eexists|by destruct (Ht Hin)]|].
    by rewrite (proj2 (Z.ltb_lt maj 9)) by lia.
Qed.

Lemma edge_goto b lhs a : 9 <= lhs -> edge b lhs = Some a -> yy_find_reduce_action b lhs = Some a /\ a < YYNSTATE.
Proof.
  intros Hl. unfold edge. rewrite (proj2 (Z.ltb_ge lhs 9)) by lia.
  destruct (yy_find_reduce_action b lhs) as [x|]; cbn; [|done]. destruct (x <? YYNSTATE) eqn:E; [|done].
  intros [= ->]. bool_to_prop. done.
Qed.

(** A rule is reduced before the next token is looked at further. *)
Lemma runs_reduce r lhs a e pre below st x l ctx Q :
  head (pre ++ below :: st) = Some e -> yy_find_shift_action (stateno e) x.1 = Some (Z.of_nat r + 39) ->
  yyRuleInfo !! r = Some (lhs, length pre) -> edge (stateno below) lhs = Some a -> 9 <= lhs ->
  (length (below :: st) < 100)%nat ->
  (forall line, exists m ctx', reduce_action r (map minor_ pre) line ctx = Some (m, ctx')
     /\ runs (x :: l) (Entry a lhs m :: below :: st) ctx' Q) ->
  runs (x :: l) (pre ++ below :: st) ctx Q.
Proof.
  intros Hhd Hact Hinfo Hedge Hlhs Hlen H Hp Hl lines errcnt Hlines.
  destruct lines as [|line lines]; [done|]. destruct (H line) as (m & ctx' & Hm & Hruns). clear H.
  assert (is_token x) as [Hx Ht] by (by apply Forall_cons in Hl as [? _]).
  assert (r < 26)%nat as Hr by (change 26%nat with (length yyRuleInfo); by eapply lookup_lt_Some).
  remember (pre ++ below :: st) as stack eqn:Es. destruct stack as [|e' stack]; [done|]. injection Hhd as ->.
  destruct (edge_goto _ _ _ Hlhs Hedge) as [Hgoto Ha].
  assert (yy_reduce (e :: stack) (Z.of_nat r + 39 - YYNSTATE) line ctx = Some (Entry a lhs m :: below :: st, ctx')) as Hred.
  { unfold yy_reduce. replace (Z.to_nat _) with r by (unfold YYNSTATE; lia). rewrite Hinfo. cbn [mbind option_bind].
    rewrite Es, (proj2 (Nat.ltb_lt _ _)) by (rewrite length_app; cbn; lia). cbn [negb].
    rewrite take_app_length, Hm. cbn [mbind option_bind]. rewrite drop_app_length. cbn [head mbind option_bind].
    rewrite Hgoto. cbn [mbind option_bind]. rewrite (proj2 (Z.ltb_lt a YYNSTATE)) by done.
    unfold yy_shift. by rewrite (proj2 (Nat.leb_gt _ _)) by exact Hlen. }
  pose proof (action_ok_all _ _ (path_state _ _ Hp) Hx) as Hok. unfold action_ok in Hok. rewrite Hact in Hok.
  rewrite (proj2 (Z.ltb_ge _ YYNSTATE)) in Hok by (unfold YYNSTATE; lia).
  rewrite (proj2 (Z.ltb_lt _ _)) in Hok by (unfold YYNSTATE, YYNRULE; lia).
  destruct (yy_reduce_ok e stack (Z.of_nat r + 39 - YYNSTATE) line ctx Hp ltac:(unfold YYNSTATE; lia) Hok) as (st2 & ctx2 & E & Hcase).
  rewrite Hred in E. injection E as <- <-. destruct Hcase as [[? _]|(e2 & l2 & [= <- <-] & Hp2 & Hrank)]; [done|].
  destruct (Hruns Hp2 Hl (line :: lines) errcnt Hlines) as (p' & ctx2 & E & HQ).
  exists p', ctx2. split; [|done]. rewrite <- E. cbn [zip zip_with]. rewrite !parse_tokens_cons.
  destruct (parse_loop_ok 7 _ _ errcnt x.1 x.2 line ctx' Hp2 (conj Hx Ht)) as (p3 & ctx3 & E3 & _).
  { pose proof (rank_bound (stateno e)). unfold parse_fuel in *. lia. }
  unfold parse_fuel at 2. rewrite (parse_loop_more 7 _ _ _ _ _ _ _ E3). unfold parse_fuel. rewrite <- E3.
  cbn [parse_loop head mbind option_bind]. rewrite Hact. cbn [mbind option_bind].
  rewrite (proj2 (Z.ltb_ge _ YYNSTATE)) by (unfold YYNSTATE; lia).
  rewrite (proj2 (Z.ltb_lt _ _)) by (unfold YYNSTATE, YYNRULE; lia). rewrite Hred. done.
Qed.

(** A state with nothing to shift reduces whatever comes next. *)
Lemma runs_finish r lhs a e pre below st x l ctx Q : head (pre ++ below :: st) = Some e -> 14 < stateno e ->
  tab yy_default (stateno e) = Some (Z.of_nat r + 39) ->
  yyRuleInfo !! r = Some (lhs, length pre) -> edge (stateno below) lhs = Some a -> 9 <= lhs ->
  (length (below :: st) < 100)%nat ->
  (forall line, exists m ctx', reduce_action r (map minor_ pre) line ctx = Some (m, ctx')
     /\ runs (x :: l) (Entry a lhs m :: below :: st) ctx' Q) ->
  runs (x :: l) (pre ++ below :: st) ctx Q.
Proof.
  intros Hhd Hs Hd. apply (runs_reduce _ _ _ e); [done|]. unfold yy_find_shift_action.
  by rewrite Z.gtb_ltb, (proj2 (Z.ltb_lt _ _)) by (unfold YY_SHIFT_COUNT; lia).
Qed.

(** [shift a]: the token is shifted to [a].  [finish r a pre]: rule [r] takes
    the entries [pre] and goes to [a]. *)
Ltac shift a := eapply (runs_shift _ _ _ _ _ a); [reflexivity|reflexivity|done|cbn [length] in *; lia|].
Ltac finish r lhs a pre :=
  eapply (runs_finish r lhs a _ pre); [..|let line := fresh "line" in intros line];
  [reflexivity|cbn; lia|first [eassumption|reflexivity]|first [eassumption|reflexivity]|first [eassumption|reflexivity|idtac]|done|cbn [length] in *; lia|].

(** The states a symbol can be met in. *)
Definition edges_imply (X Y to : Z) : bool :=
  forallb (fun s => match edge s X with Some _ => bool_decide (yy_find_shift_action s Y = Some to) | None => true end) all_states.

Lemma edges_implied X Y to s a : edges_imply X Y to = true -> 0 <= s < 39 -> edge s X = Some a ->
  yy_find_shift_action s Y = Some to.
Proof.
  intros H Hs Ha. unfold edges_imply in H. rewrite forallb_forall in H. specialize (H s). rewrite Ha in H.
  eapply bool_decide_eq_true, H, list_elem_of_In, in_range_list. lia.
Qed.

Lemma runs_path l e st ctx Q : (0 <= stateno e < 39 -> runs l (e :: st) ctx Q) -> runs l (e :: st) ctx Q.
Proof. intros H Hp. apply H; [|done]. by apply (path_state _ st). Qed.

(** The values of a setting, after the first. *)
Lemma runs_values more : forall vs b k l st ctx Q, (length st + 3 <= 99)%nat ->
  (forall vs', vs' = vs ++ more ->
     runs l (Entry 10 15 (yy31 vs') :: Entry 9 1 (yy0 (Some k)) :: b :: st) ctx Q) ->
  l <> [] ->
  runs (map word more ++ l) (Entry 10 15 (yy31 vs) :: Entry 9 1 (yy0 (Some k)) :: b :: st) ctx Q.
Proof.
  induction more as [|v more IH]; intros vs b k l st ctx Q Hlen H Hl; cbn [map app].
  { apply H. by rewrite app_nil_r. }
  unfold word at 1. shift 37.
  destruct (map word more ++ l) as [|x rest] eqn:E.
  { destruct more; [by subst|done]. }
  finish 2%nat 15 10 [Entry 37 TK_ID (yy0 (Some (MkToken TK_ID v))); Entry 10 15 (yy31 vs)].
  eexists _, _. split; [reflexivity|]. cbn [tk_value]. rewrite <- E. apply IH; [done| |done].
  intros vs' ->. apply H. by rewrite <- app_assoc.
Qed.

Lemma runs_setting s a e st x l ctx Q : edge (stateno e) 14 = Some a -> (length (e :: st) + 3 <= 100)%nat ->
  runs (x :: l) (Entry a 14 (yy25 (kv_of s)) :: e :: st) ctx Q ->
  runs (setting_tokens s ++ x :: l) (e :: st) ctx Q.
Proof.
  intros He Hlen H. destruct s as [key value more]. unfold setting_tokens.
  replace ((word key :: word value :: map word more ++ [symbol TK_SEMICOLON]) ++ x :: l)
    with (word key :: word value :: map word more ++ symbol TK_SEMICOLON :: x :: l) by (cbn; by rewrite <- app_assoc).
  apply runs_path. intros Hs. unfold word at 1.
  eapply (runs_shift _ _ _ _ _ 9); [by apply (edges_implied 14 TK_ID 9 _ a)|reflexivity|done|cbn [length] in *; lia|].
  unfold word at 1. shift 38.
  destruct (map word more ++ symbol TK_SEMICOLON :: x :: l) as [|y rest] eqn:E; [by destruct more|].
  finish 1%nat 15 10 [Entry 38 TK_ID (yy0 (Some (MkToken TK_ID value)))].
  eexists _, _. split; [reflexivity|]. rewrite <- E. apply runs_values; [cbn [length] in *; lia| |done].
  intros vs ->. cbn [tk_value]. unfold symbol at 1. shift 36.
  finish 3%nat 14 a [Entry 36 TK_SEMICOLON (yy0 None); Entry 10 15 (yy31 ([value] ++ more)); Entry 9 TK_ID (yy0 (Some (MkToken TK_ID key)))].
  eexists _, _. split; [reflexivity|]. exact H.
Qed.

(** ** Contexts *)

(** No configuration yet; [b] tells whether there was an error, whose text is
    then the message. *)
Definition agrees (ctx : ParseContext) (b : bool) : Prop :=
  ctx_success ctx = b /\ ctx_conf ctx = None /\ (b = true -> ctx_error ctx = []).

Lemma agrees_failed ctx b text : agrees ctx b -> agrees (failed text ctx) false.
Proof. intros (? & ? & ?). by split_and!. Qed.

Lemma agrees_and ctx ctx' b ok : agrees ctx b -> (if ok : bool then ctx' = ctx else exists text, ctx' = failed text ctx) ->
  agrees ctx' (b && ok).
Proof.
  intros H. destruct ok; [intros ->; by rewrite andb_true_r|intros [text ->]]. rewrite andb_false_r. by eapply agrees_failed.
Qed.

Lemma set_kids_ctx r s line ctx : let '(c, ctx') := SetKidsConfValue r.1 (kv_of s) line ctx in
  exists ok, set_kids r s = (c, r.2 && ok) /\ if ok : bool then ctx' = ctx else exists text, ctx' = failed text ctx.
Proof.
  unfold set_kids, SetKidsConfValue. destruct r as [[] b]. cbn [fst snd].
  repeat match goal with |- context [if bool_decide ?p then _ else _] => destruct (bool_decide p) end;
    try (exists true; split; done).
  destruct (kv_value (kv_of s)) as [|? [|? [|? [|? [|]]]]]; try (exists false; split; [done|by eexists]).
  destruct (limit_type_of _); [|exists false; split; [done|by eexists]].
  destruct (set_limit _ _ _ _) as [c []]; [by exists true|exists false; split; [done|by eexists]].
Qed.

Lemma set_store_ctx r s line ctx : let '(c, ctx') := SetStoreConfValue r.1 (kv_of s) line ctx in
  exists ok, set_store r s = (c, r.2 && ok) /\ if ok : bool then ctx' = ctx else exists text, ctx' = failed text ctx.
Proof.
  unfold set_store, SetStoreConfValue. destruct r as [c b]. cbn [fst snd].
  destruct (set_store_field _ _ _); [by exists true|exists false; split; [done|by eexists]].
Qed.

(** What an action that sets a value leaves behind. *)
Lemma set_kids_step r s line ctx : agrees ctx r.2 ->
  exists ctx', SetKidsConfValue r.1 (kv_of s) line ctx = ((set_kids r s).1, ctx') /\ agrees ctx' (set_kids r s).2.
Proof.
  intros H. pose proof (set_kids_ctx r s line ctx) as Hs. destruct (SetKidsConfValue _ _ _ _) as [c ctx'].
  destruct Hs as (ok & -> & Hok). exists ctx'. split; [done|]. cbn. by eapply agrees_and.
Qed.
Lemma set_store_step r s line ctx : agrees ctx r.2 ->
  exists ctx', SetStoreConfValue r.1 (kv_of s) line ctx = ((set_store r s).1, ctx') /\ agrees ctx' (set_store r s).2.
Proof.
  intros H. pose proof (set_store_ctx r s line ctx) as Hs. destruct (SetStoreConfValue _ _ _ _) as [c ctx'].
  destruct Hs as (ok & -> & Hok). exists ctx'. split; [done|]. cbn. by eapply agrees_and.
Qed.

(** ** Stores *)

Definition body_meaning (r : StoreConfig * bool) (i : setting + store_tree) : StoreConfig * bool :=
  match i with
  | inl s => set_store r s
  | inr u => let '(s, ok) := store_meaning u in (add_store r.1 s, r.2 && ok)
  end.
Definition body_tokens (body : list (setting + store_tree)) : list token_of :=
  concat (map (fun i => match i with inl s => setting_tokens s | inr u => store_tokens u end) body).
Definition with_type (type : bytes) (buffer : option bytes) (r : StoreConfig * bool) : StoreConfig * bool :=
  (map_fields (set_type type (default [] buffer)) r.1, r.2).

Lemma store_meaning_eq type buffer body : store_meaning (StoreTree type buffer body)
  = with_type type buffer (fold_left body_meaning body (new_StoreConfig, true)).
Proof.
  cbn [store_meaning]. unfold with_type. change (fun r i => _) with body_meaning. by destruct (fold_left _ _ _).
Qed.

(** The flag of the meaning of a sequence starts from that of what precedes it. *)
Lemma body_flag body c b : fold_left body_meaning body (c, b)
  = ((fold_left body_meaning body (c, true)).1, b && (fold_left body_meaning body (c, true)).2).
Proof.
  revert c b. induction body as [|i body IH]; intros c b; cbn [fold_left]; [cbn; by rewrite andb_true_r|].
  assert (exists c' ok, forall b, body_meaning (c, b) i = (c', b && ok)) as (c' & ok & Hi).
  { destruct i as [s|u]; cbn.
    - unfold set_store. cbn [fst snd]. destruct (SetStoreConfValue _ _ _ _) as [c' ctx]. by eexists _, _.
    - destruct (store_meaning u) as [s ok]. by eexists _, _. }
  rewrite !Hi, (IH c' (b && ok)), (IH c' (true && ok)). cbn [fst snd]. by rewrite andb_assoc.
Qed.

(** What the parser does with the tokens of a store. *)
Definition store_runs (t : store_tree) : Prop := forall e a st x l ctx b Q,
  edge (stateno e) 13 = Some a -> (length (e :: st) + 5 * height t + 3 <= 100)%nat -> agrees ctx b ->
  (forall ctx', agrees ctx' (b && (store_meaning t).2) ->
     runs (x :: l) (Entry a 13 (yy6 (store_meaning t).1) :: e :: st) ctx' Q) ->
  runs (store_tokens t ++ x :: l) (e :: st) ctx Q.

Definition item_size (i : setting + store_tree) : nat := match i with inl _ => 0%nat | inr u => height u end.

(** What is in a store: the first, then the next ones. *)
Lemma runs_body_first i e b st x l ctx Q : in_item store_runs i ->
  (length (e :: st) + 5 * item_size i + 3 <= 100)%nat -> agrees ctx b -> stateno e = 2 ->
  (forall ctx', agrees ctx' (body_meaning (new_StoreConfig, b) i).2 ->
     runs (x :: l) (Entry 3 18 (yy6 (body_meaning (new_StoreConfig, b) i).1) :: e :: st) ctx' Q) ->
  runs (match i with inl s => setting_tokens s | inr u => store_tokens u end ++ x :: l) (e :: st) ctx Q.
Proof.
  intros Hi Hlen Hctx He H. destruct e as [n X m]. cbn [stateno] in He. subst n. destruct i as [s|u].
  - apply (runs_setting s 21); [reflexivity|cbn [length item_size] in *; lia|].
    finish 22%nat 18 3 [Entry 21 14 (yy25 (kv_of s))].
    destruct (set_store_step (new_StoreConfig, b) s line ctx Hctx) as (ctx' & E & Hctx').
    eexists _, _. split; [cbn [map minor_ reduce_action]; cbn [fst] in E; rewrite E; reflexivity|]. by apply H.
  - apply (Hi (Entry 2 X m) 20 st x l ctx b); [reflexivity|cbn [length item_size] in *; lia|done|]. intros ctx' Hctx'.
    finish 24%nat 18 3 [Entry 20 13 (yy6 (store_meaning u).1)].
    eexists _, _. split; [reflexivity|]. cbn [body_meaning] in H. destruct (store_meaning u) as [s ok]. by apply H.
Qed.

Lemma runs_body_more i e c b st x l ctx Q : in_item store_runs i ->
  (length (e :: st) + 5 * item_size i + 4 <= 100)%nat -> agrees ctx b -> stateno e = 2 ->
  (forall ctx', agrees ctx' (body_meaning (c, b) i).2 ->
     runs (x :: l) (Entry 3 18 (yy6 (body_meaning (c, b) i).1) :: e :: st) ctx' Q) ->
  runs (match i with inl s => setting_tokens s | inr u => store_tokens u end ++ x :: l)
    (Entry 3 18 (yy6 c) :: e :: st) ctx Q.
Proof.
  intros Hi Hlen Hctx He H. destruct e as [n X m]. cbn [stateno] in He. subst n. destruct i as [s|u].
  - apply (runs_setting s 24); [reflexivity|cbn [length item_size] in *; lia|].
    finish 23%nat 18 3 [Entry 24 14 (yy25 (kv_of s)); Entry 3 18 (yy6 c)].
    destruct (set_store_step (c, b) s line ctx Hctx) as (ctx' & E & Hctx').
    eexists _, _. split; [cbn [map minor_ reduce_action]; cbn [fst] in E; rewrite E; reflexivity|]. by apply H.
  - apply (Hi (Entry 3 18 (yy6 c)) 23 (Entry 2 X m :: st) x l ctx b);
      [reflexivity|cbn [length item_size] in *; lia|done|]. intros ctx' Hctx'.
    finish 25%nat 18 3 [Entry 23 13 (yy6 (store_meaning u).1); Entry 3 18 (yy6 c)].
    eexists _, _. split; [reflexivity|]. cbn [body_meaning fst snd] in H. destruct (store_meaning u) as [s ok]. by apply H.
Qed.

Lemma body_tokens_cons i body l : body_tokens (i :: body) ++ l
  = match i with inl s => setting_tokens s | inr u => store_tokens u end ++ body_tokens body ++ l.
Proof. unfold body_tokens. cbn [map concat]. by rewrite <- app_assoc. Qed.

Lemma app_cons_head {A} (l : list A) x r : exists y l', l ++ x :: r = y :: l'.
Proof. destruct l as [|y l]; [by exists x, r|by exists y, (l ++ x :: r)]. Qed.

Lemma runs_body body n : Forall (in_item store_runs) body -> Forall (fun i => item_size i <= n)%nat body ->
  forall c b e st x l ctx Q, (length (e :: st) + 5 * n + 4 <= 100)%nat -> agrees ctx b -> stateno e = 2 ->
  (forall ctx', agrees ctx' (fold_left body_meaning body (c, b)).2 ->
     runs (x :: l) (Entry 3 18 (yy6 (fold_left body_meaning body (c, b)).1) :: e :: st) ctx' Q) ->
  runs (body_tokens body ++ x :: l) (Entry 3 18 (yy6 c) :: e :: st) ctx Q.
Proof.
  induction 1 as [|i body Hi Hbody IH]; intros Hn c b e st x l ctx Q Hlen Hctx He H; [by apply H|].
  apply Forall_cons in Hn as [Hn1 Hn]. rewrite body_tokens_cons.
  destruct (app_cons_head (body_tokens body) x l) as (y & l' & E). rewrite E.
  apply (runs_body_more i e c b); [done|cbn [length] in *; lia|done|done|]. intros ctx' Hctx'. rewrite <- E.
  cbn [fold_left] in H. destruct (body_meaning (c, b) i) as [c' b'] eqn:Ei. cbn [fst snd] in *.
  by apply (IH Hn c' b').
Qed.

Lemma item_sizes body type buffer : Forall (fun i => item_size i <= height (StoreTree type buffer body) - 1)%nat body.
Proof.
  assert (height (StoreTree type buffer body) - 1 = list_max (map item_size body))%nat as -> by (cbn; by rewrite Nat.sub_0_r).
  induction body as [|i body IH]; cbn [map];
    change (list_max (?x :: ?l)) with (Nat.max x (list_max l)); constructor; [lia|].
  eapply Forall_impl; [exact IH|]. intros. cbn beta in *. lia.
Qed.

(** The rule that ends a store depends on whether there is anything in it. *)
Lemma runs_store t : store_runs t.
Proof.
  induction t as [type buffer body IH] using store_tree_rect'. intros e a st x l ctx b Q He Hlen Hctx H.
  rewrite store_meaning_eq in H. cbn [with_type fst snd] in H.
  assert (forall ctx', agrees ctx' (fold_left body_meaning body (new_StoreConfig, b)).2 ->
    runs (x :: l) (Entry a 13 (yy6 (map_fields (set_type type (default [] buffer))
      (fold_left body_meaning body (new_StoreConfig, b)).1)) :: e :: st) ctx' Q) as H'.
  { rewrite body_flag. exact H. }
  clear H. rename H' into H. pose proof (item_sizes body type buffer) as Hsize. set (h := height _) in *.
  assert (1 <= h)%nat as Hh by (subst h; cbn; lia). clearbody h.
  apply runs_path. intros Hs. cbn [store_tokens]. change (concat _) with (body_tokens body).
  rewrite <- !app_assoc. cbn [app]. unfold keyword at 1.
  eapply (runs_shift _ _ _ _ _ 12); [by apply (edges_implied 13 TK_STORE 12 _ a)|reflexivity|done|cbn [length] in *; lia|].
  unfold word at 1. shift 8. set (ID := Entry 8 _ _). set (KW := Entry 12 _ _).
  assert (forall m, buffer_value m = Some (default [] buffer) ->
    runs (symbol TK_LP :: body_tokens body ++ symbol TK_RP :: x :: l) (Entry 11 19 m :: ID :: KW :: e :: st) ctx Q) as Hbody.
  { intros m Hm. unfold symbol at 1. shift 2. set (LP := Entry 2 _ _).
    destruct body as [|i body].
    - unfold body_tokens. cbn [map concat app]. unfold symbol. shift 22.
      finish 19%nat 13 a [Entry 22 TK_RP (yy0 None); LP; Entry 11 19 m; ID; KW].
      eexists _, _. split; [cbn; rewrite Hm; reflexivity|]. by apply H.
    - apply Forall_cons in IH as [Hi IH]. apply Forall_cons in Hsize as [Hsi Hsize]. rewrite body_tokens_cons.
      destruct (app_cons_head (body_tokens body) (symbol TK_RP) (x :: l)) as (y & l' & E). rewrite E.
      apply (runs_body_first i _ b); [done|cbn [length] in *; lia|done|done|]. intros ctx1 Hctx1. rewrite <- E.
      cbn [fold_left] in H. destruct (body_meaning (new_StoreConfig, b) i) as [c1 b1] eqn:E1. cbn [fst snd] in *.
      apply (runs_body body (h - 1) IH Hsize c1 b1); [cbn [length] in *; lia|done|done|]. intros ctx2 Hctx2.
      unfold symbol. shift 25. set (c2 := (fold_left body_meaning body (c1, b1)).1) in *.
      finish 18%nat 13 a [Entry 25 TK_RP (yy0 None); Entry 3 18 (yy6 c2); LP; Entry 11 19 m; ID; KW].
      eexists _, _. split; [cbn; rewrite Hm; reflexivity|]. by apply H. }
  destruct buffer as [t|]; cbn [app].
  - unfold keyword. shift 19. finish 20%nat 19 11 [Entry 19 TK_BUFFER_TYPE (yy0 (Some (MkToken TK_BUFFER_TYPE t)))].
    eexists _, _. split; [reflexivity|]. by apply Hbody.
  - eapply (runs_reduce 21%nat 19 11 _ []); [..|intros line]; [reflexivity|reflexivity|reflexivity|reflexivity|done|cbn [length] in *; lia|].
    eexists _, _. split; [reflexivity|]. by apply Hbody.
Qed.

(** ** Blocks *)

Lemma kids_flag l c b : fold_left set_kids l (c, b)
  = ((fold_left set_kids l (c, true)).1, b && (fold_left set_kids l (c, true)).2).
Proof.
  revert c b. induction l as [|s l IH]; intros c b; cbn [fold_left]; [cbn; by rewrite andb_true_r|].
  unfold set_kids at 2 4 6. cbn [fst snd]. destruct (SetKidsConfValue _ _ _ _) as [c' ctx].
  rewrite (IH c' (b && _)), (IH c' (true && _)). cbn [fst snd]. by rewrite andb_assoc.
Qed.

Section block.
(** The keyword and the state after it, the state after the brace and after
    the settings, the nonterminal of the settings, where a setting leads from
    those states, the rules, the state after the closing brace and the
    nonterminal of the block. *)
Variables (kw kstate open inside X one more : Z) (rule_one rule_more rule_close : nat) (close lhs : Z).
Hypotheses (Hkw : 1 <= kw < 9) (HkwID : negb (bool_decide (kw ∈ [1; 8])) = true).
Hypotheses (Hopen : yy_find_shift_action kstate TK_LP = Some open) (Hopen' : (0 <=? open) && (open <? 39) = true).
Hypotheses (Hone : edge open 14 = Some one) (Hmore : edge inside 14 = Some more) (Hin : edge open X = Some inside).
Hypotheses (Hclose : yy_find_shift_action inside TK_RP = Some close) (Hclose' : (14 <? close) && (close <? 39) = true).
Hypotheses (HX : 9 <= X) (Hlhs : 9 <= lhs) (Hone' : 14 < one) (Hmore' : 14 < more).
Hypotheses (Eone : tab yy_default one = Some (Z.of_nat rule_one + 39)) (Emore : tab yy_default more = Some (Z.of_nat rule_more + 39))
  (Eclose : tab yy_default close = Some (Z.of_nat rule_close + 39)).
Hypotheses (Rone : yyRuleInfo !! rule_one = Some (X, 1%nat)) (Rmore : yyRuleInfo !! rule_more = Some (X, 2%nat))
  (Rclose : yyRuleInfo !! rule_close = Some (lhs, 4%nat)).
Hypotheses (Aone : forall kv line ctx, reduce_action rule_one [yy25 kv] line ctx = Some (lift32 (SetKidsConfValue new_KidsConfig kv line ctx)))
  (Amore : forall kv c line ctx, reduce_action rule_more [yy25 kv; yy32 c] line ctx = Some (lift32 (SetKidsConfValue c kv line ctx)))
  (Aclose : forall a c d e line ctx, reduce_action rule_close [a; yy32 c; d; e] line ctx = Some (yy32 c, ctx)).

Lemma runs_block_more rest : forall r o st x l ctx Q, (length (o :: st) + 4 <= 100)%nat -> agrees ctx r.2 -> stateno o = open ->
  (forall ctx', agrees ctx' (fold_left set_kids rest r).2 ->
     runs (x :: l) (Entry inside X (yy32 (fold_left set_kids rest r).1) :: o :: st) ctx' Q) ->
  runs (concat (map setting_tokens rest) ++ x :: l) (Entry inside X (yy32 r.1) :: o :: st) ctx Q.
Proof.
  induction rest as [|s rest IH]; intros r o st x l ctx Q Hlen Hctx Ho H; [by apply H|]. cbn [map concat].
  rewrite <- app_assoc. destruct (app_cons_head (concat (map setting_tokens rest)) x l) as (y & l' & E). rewrite E.
  apply (runs_setting s more); [done|cbn [length] in *; lia|].
  finish rule_more X inside [Entry more 14 (yy25 (kv_of s)); Entry inside X (yy32 r.1)].
  { by rewrite Ho. }
  destruct (set_kids_step r s line ctx Hctx) as (ctx' & Es & Hctx').
  eexists _, _. split; [cbn [map minor_]; rewrite Amore, Es; reflexivity|]. cbn [fst snd]. rewrite <- E. by apply IH.
Qed.

Lemma runs_block first rest text e a st x l ctx b Q : edge (stateno e) lhs = Some a ->
  yy_find_shift_action (stateno e) kw = Some kstate -> (0 <=? kstate) && (kstate <? 39) = true ->
  (length (e :: st) + 6 <= 100)%nat -> agrees ctx b ->
  (forall ctx', agrees ctx' (b && (block_meaning (first :: rest)).2) ->
     runs (x :: l) (Entry a lhs (yy32 (block_meaning (first :: rest)).1) :: e :: st) ctx' Q) ->
  runs (block_tokens (keyword kw text) first rest ++ x :: l) (e :: st) ctx Q.
Proof.
  intros He Hk Hk' Hlen Hctx H. unfold block_tokens. rewrite <- !app_assoc. cbn [app]. unfold keyword.
  apply (runs_shift _ _ _ _ _ kstate); [done|done|lia|cbn [length] in *; lia|].
  unfold symbol at 1. apply (runs_shift _ _ _ _ _ open); [done|done|done|cbn [length] in *; lia|].
  set (KW := Entry kstate _ _). set (LP := Entry open _ _).
  destruct (app_cons_head (concat (map setting_tokens rest)) (symbol TK_RP) (x :: l)) as (y & l' & E). rewrite E.
  apply (runs_setting first one); [done|cbn [length] in *; lia|].
  finish rule_one X inside [Entry one 14 (yy25 (kv_of first))].
  destruct (set_kids_step (new_KidsConfig, b) first line ctx Hctx) as (ctx' & Es & Hctx'). cbn [fst] in Es.
  eexists _, _. split; [cbn [map minor_]; rewrite Aone, Es; reflexivity|]. cbn [fst snd]. rewrite <- E.
  apply runs_block_more; [cbn [length] in *; lia|done|done|].
  intros ctx2 Hctx2. unfold symbol. pose proof Hclose' as Hc. apply andb_true_iff in Hc as [Hc1 Hc2]. bool_to_prop.
  apply (runs_shift _ _ _ _ _ close); [done|apply andb_true_iff; split; [apply Z.leb_le|apply Z.ltb_lt]; lia|done|cbn [length] in *; lia|].
  rename line into line0. set (c := (fold_left set_kids rest _).1).
  finish rule_close lhs a [Entry close TK_RP (yy0 None); Entry inside X (yy32 c); LP; KW].
  eexists _, _. split; [cbn [map minor_]; rewrite Aclose; reflexivity|].
  assert (fold_left set_kids rest (set_kids (new_KidsConfig, b) first) = (c, b && (block_meaning (first :: rest)).2)
    /\ (block_meaning (first :: rest)).1 = c) as [Ef Ec].
  { pose proof (kids_flag (first :: rest) new_KidsConfig b) as Hf. cbn [fold_left] in Hf. subst c. unfold block_meaning. cbn [fold_left].
    rewrite Hf. cbn. done. }
  rewrite Ec in H. apply H. by rewrite Ef in Hctx2.
Qed.
End block.

(** The two blocks: the states are those of the tables. *)
Ltac block_facts := try done; try reflexivity.
Lemma runs_listen first rest e a st x l ctx b Q : edge (stateno e) 12 = Some a -> 0 <= stateno e < 39 ->
  (length (e :: st) + 6 <= 100)%nat -> agrees ctx b ->
  (forall ctx', agrees ctx' (b && (block_meaning (first :: rest)).2) ->
     runs (x :: l) (Entry a 12 (yy32 (block_meaning (first :: rest)).1) :: e :: st) ctx' Q) ->
  runs (block_tokens (keyword TK_LISTEN (bs "listen")) first rest ++ x :: l) (e :: st) ctx Q.
Proof.
  intros He Hs. apply (runs_block TK_LISTEN 13 4 6 17 26 27 16 17 15 28 12); block_facts.
  by apply (edges_implied 12 TK_LISTEN 13 _ a).
Qed.
Lemma runs_log first rest e a st x l ctx b Q : edge (stateno e) 11 = Some a -> 0 <= stateno e < 39 ->
  (length (e :: st) + 6 <= 100)%nat -> agrees ctx b ->
  (forall ctx', agrees ctx' (b && (block_meaning (first :: rest)).2) ->
     runs (x :: l) (Entry a 11 (yy32 (block_meaning (first :: rest)).1) :: e :: st) ctx' Q) ->
  runs (block_tokens (keyword TK_LOG (bs "log")) first rest ++ x :: l) (e :: st) ctx Q.
Proof.
  intros He Hs. apply (runs_block TK_LOG 14 5 7 16 29 30 13 14 12 31 11); block_facts.
  by apply (edges_implied 11 TK_LOG 14 _ a).
Qed.

(** ** The file *)

Definition bottom : yyStackEntry := Entry 0 0 yyzero.
Definition conf_entry (c : KidsConfig) : yyStackEntry := Entry 1 10 (yy32 c).

Lemma runs_first_item i x l ctx Q : (item_height i <= 19)%nat -> agrees ctx true ->
  (forall ctx', agrees ctx' (first_meaning i).2 -> runs (x :: l) [conf_entry (first_meaning i).1; bottom] ctx' Q) ->
  runs (item_tokens i ++ x :: l) [bottom] ctx Q.
Proof.
  intros Hh Hctx H. destruct i as [s|first rest|first rest|t]; cbn [item_tokens first_meaning item_height] in *.
  - apply (runs_setting s 18); [reflexivity|cbn; lia|]. finish 4%nat 10 1 [Entry 18 14 (yy25 (kv_of s))].
    destruct (set_kids_step (new_KidsConfig, true) s line ctx Hctx) as (ctx' & E & Hctx'). cbn [fst] in E.
    eexists _, _. split; [cbn [map minor_ reduce_action]; rewrite E; reflexivity|]. by apply H.
  - eapply runs_listen; [reflexivity|cbn; lia|cbn; lia|eassumption|]. intros ctx' Hctx'.
    finish 6%nat 10 1 [Entry 17 12 (yy32 (block_meaning (first :: rest)).1)]. eexists _, _. split; [reflexivity|]. by apply H.
  - eapply runs_log; [reflexivity|cbn; lia|cbn; lia|eassumption|]. intros ctx' Hctx'.
    finish 10%nat 10 1 [Entry 15 11 (yy32 (block_meaning (first :: rest)).1)]. eexists _, _. split; [reflexivity|]. by apply H.
  - eapply runs_store; [reflexivity|cbn; lia|eassumption|]. intros ctx' Hctx'.
    finish 8%nat 10 1 [Entry 16 13 (yy6 (store_meaning t).1)]. eexists _, _. split; [reflexivity|].
    cbn [item_meaning] in H. destruct (store_meaning t) as [c ok]. by apply H.
Qed.

Lemma runs_next_item i r x l ctx Q : (item_height i <= 19)%nat -> agrees ctx r.2 ->
  (forall ctx', agrees ctx' (item_meaning r i).2 -> runs (x :: l) [conf_entry (item_meaning r i).1; bottom] ctx' Q) ->
  runs (item_tokens i ++ x :: l) [conf_entry r.1; bottom] ctx Q.
Proof.
  intros Hh Hctx H. destruct r as [c b]. destruct i as [s|first rest|first rest|t]; cbn [item_tokens item_height item_meaning fst snd] in *.
  - apply (runs_setting s 35); [reflexivity|cbn; lia|]. finish 5%nat 10 1 [Entry 35 14 (yy25 (kv_of s)); conf_entry c].
    destruct (set_kids_step (c, b) s line ctx Hctx) as (ctx' & E & Hctx'). cbn [fst] in E.
    eexists _, _. split; [cbn [map minor_ reduce_action conf_entry]; rewrite E; reflexivity|]. by apply H.
  - eapply runs_listen; [reflexivity|cbn; lia|cbn; lia|eassumption|]. intros ctx' Hctx'.
    destruct (block_meaning (first :: rest)) as [lc ok]. cbn [fst snd] in *.
    finish 7%nat 10 1 [Entry 34 12 (yy32 lc); conf_entry c]. cbn [map minor_ reduce_action conf_entry].
    destruct (decide _) as [[E1 E2]|Hn] in H.
    + rewrite !bool_decide_true by done. eexists _, _. split; [reflexivity|]. by apply H.
    + case_bool_decide; [case_bool_decide; [by destruct Hn|]|];
        (eexists _, _; split; [reflexivity|]; apply H; by eapply agrees_failed).
  - eapply runs_log; [reflexivity|cbn; lia|cbn; lia|eassumption|]. intros ctx' Hctx'.
    destruct (block_meaning (first :: rest)) as [lc ok]. cbn [fst snd] in *.
    finish 11%nat 10 1 [Entry 32 11 (yy32 lc); conf_entry c]. eexists _, _. split; [reflexivity|]. by apply H.
  - eapply runs_store; [reflexivity|cbn; lia|eassumption|]. intros ctx' Hctx'.
    destruct (store_meaning t) as [sc ok]. cbn [fst snd] in *.
    finish 9%nat 10 1 [Entry 33 13 (yy6 sc); conf_entry c]. cbn [map minor_ reduce_action conf_entry].
    destruct (kc_store c); (eexists _, _; split; [reflexivity|]; apply H); [by eapply agrees_failed|done].
Qed.

(** The end of the file accepts. *)
Lemma runs_end c ctx : runs [(0, None)] [conf_entry c; bottom] ctx (fun st ctx' => st = [] /\ ctx' = with_conf c ctx).
Proof.
  intros _ _ [|line [|]] errcnt; [done| |done]. intros _. cbn [zip zip_with]. rewrite parse_tokens_cons.
  eexists _, _. split; [reflexivity|]. done.
Qed.

Lemma runs_items items : forall r ctx, Forall (fun i => item_height i <= 19)%nat items -> agrees ctx r.2 ->
  runs (concat (map item_tokens items) ++ [(0, None)]) [conf_entry r.1; bottom] ctx
    (fun st ctx' => st = [] /\ exists ctx1, ctx' = with_conf (fold_left item_meaning items r).1 ctx1
       /\ agrees ctx1 (fold_left item_meaning items r).2).
Proof.
  induction items as [|i items IH]; intros r ctx Hh Hctx; cbn [map concat app fold_left].
  - intros Hp Hl lines errcnt Hlen. destruct (runs_end r.1 ctx Hp Hl lines errcnt Hlen) as (p & ctx' & E & E1 & E2).
    exists p, ctx'. split_and!; [done..|]. by exists ctx.
  - apply Forall_cons in Hh as [Hi Hh]. rewrite <- app_assoc.
    destruct (app_cons_head (concat (map item_tokens items)) (0, None) []) as (y & l' & E). rewrite E.
    apply runs_next_item; [done|done|]. intros ctx' Hctx'. rewrite <- E. by apply IH.
Qed.

Lemma with_text_ok k t : 0 <= k < 9 -> is_token (k, Some t).
Proof. by split. Qed.
Lemma symbol_ok k : 0 <= k < 9 -> k <> 1 -> k <> 8 -> is_token (symbol k).
Proof. intros Hk H1 H8. split; [done|]. cbn. intros [?|[?|?%not_elem_of_nil]%elem_of_cons]%elem_of_cons; done. Qed.

(** The tokens of a sequence are valid when each one's are. *)
Ltac valid_tokens :=
  rewrite ?Forall_app;
  repeat match goal with
  | |- _ /\ _ => split
  | |- Forall is_token [] => by constructor
  | |- Forall is_token (_ :: _) => apply Forall_cons_2; [first [by apply symbol_ok | by apply with_text_ok]|]
  end.

Lemma setting_valid s : Forall is_token (setting_tokens s).
Proof.
  destruct s as [k v more]. unfold setting_tokens. do 2 (apply Forall_cons_2; [by apply with_text_ok|]). valid_tokens.
  apply Forall_fmap, Forall_forall. intros x _. by apply with_text_ok.
Qed.
Lemma settings_valid l : Forall is_token (concat (map setting_tokens l)).
Proof. apply Forall_concat, Forall_fmap, Forall_forall. intros s _. apply setting_valid. Qed.

Lemma store_valid t : Forall is_token (store_tokens t).
Proof.
  induction t as [type buffer body IH] using store_tree_rect'. cbn [store_tokens]. valid_tokens.
  - destruct buffer; valid_tokens.
  - apply Forall_concat, Forall_fmap. eapply Forall_impl; [exact IH|]. intros [s|u] Hu; [apply setting_valid|apply Hu].
Qed.

Lemma item_valid i : Forall is_token (item_tokens i).
Proof.
  destruct i as [s|first rest|first rest|t]; cbn [item_tokens]; [apply setting_valid| | |apply store_valid].
  all: unfold block_tokens; valid_tokens; [apply setting_valid|apply settings_valid].
Qed.

Lemma tokens_valid c : Forall is_token (config_tokens c ++ [(0, None)]).
Proof.
  unfold config_tokens. valid_tokens; [apply item_valid|].
  apply Forall_concat, Forall_fmap, Forall_forall. intros i _. apply item_valid.
Qed.

Lemma parser_meaning c lines :
  Forall (fun i => item_height i <= 19)%nat (first_item c :: more_items c) ->
  length lines = S (length (config_tokens c)) ->
  exists p' text,
    parse_tokens (zip (config_tokens c ++ [(0, None)]) lines) ParseAlloc new_ParseContext
      = Some (p', MkContext (config_meaning c).2 text (Some (config_meaning c).1))
    /\ yystack p' = [] /\ ((config_meaning c).2 = true -> text = []).
Proof.
  intros Hh Hlen. apply Forall_cons in Hh as [Hi Hh].
  assert (runs (config_tokens c ++ [(0, None)]) [bottom] new_ParseContext
    (fun st ctx' => st = [] /\ exists ctx1, ctx' = with_conf (config_meaning c).1 ctx1 /\ agrees ctx1 (config_meaning c).2)) as H.
  { unfold config_tokens. rewrite <- app_assoc.
    destruct (app_cons_head (concat (map item_tokens (more_items c))) (0, None) []) as (y & l' & E). rewrite E.
    apply runs_first_item; [done|done|]. intros ctx' Hctx'. rewrite <- E. by apply runs_items. }
  destruct (H eq_refl (tokens_valid c) lines (-1)) as (p' & ctx' & E & Ep & ctx1 & -> & Hs & Hc & He).
  { rewrite length_app. cbn. lia. }
  exists p', (ctx_error ctx1). split_and!; [|done|done]. unfold with_conf in E. rewrite Hs in E. rewrite <- E.
  destruct (config_tokens c ++ [(0, None)]) as [|x l] eqn:Ec; [by destruct (config_tokens c)|].
  destruct lines as [|line lines]; [done|]. reflexivity.
Qed.

(** The table-driven parser computes the meaning of a configuration by the grammar: on the
    tokens of a configuration tree with stores nested at most 19 deep it ends with an empty stack
    and the configuration, and the success, of the meaning, with no message when it succeeds. *)
Theorem parser_computes_meaning c lines :
  Forall (fun i => item_height i <= 19)%nat (first_item c :: more_items c) ->
  length lines = S (length (config_tokens c)) ->
  exists p' text,
    parse_tokens (zip (config_tokens c ++ [(0, None)]) lines) ParseAlloc new_ParseContext
      = Some (p', MkContext (config_meaning c).2 text (Some (config_meaning c).1))
    /\ yystack p' = [] /\ ((config_meaning c).2 = true -> text = []).
Proof. apply parser_meaning. Qed.

(** ** An example *)

Definition setting_of (key value : string) : setting := Setting (bs key) (bs value) [].

(** samples/agent.conf *)
Definition agent_conf : config := Config_
  (ISetting (setting_of "ignore_case" "on"))
  [ISetting (Setting (bs "nlimit") (bs "pubsub") [bs "32MB"; bs "16MB"; bs "10min"]);
   ISetting (setting_of "worker_threads" "1");
   ILog (setting_of "level" "info") [setting_of "file" "/var/log/kids.log"];
   IListen (setting_of "host" "127.0.0.1") [setting_of "port" "3388"; setting_of "socket" "/var/run/kids.sock"];
   IStore (StoreTree (bs "buffer") None [
     inr (StoreTree (bs "network") (Some (bs "primary")) [inl (setting_of "host" "10.0.0.1"); inl (setting_of "port" "3388")]);
     inr (StoreTree (bs "file") (Some (bs "secondary")) [inl (setting_of "path" "/data/data/kidsbuf"); inl (setting_of "rotate" "5min")])])].

Definition agent_lines : list Z := Z.of_nat <$> seq 1 (S (length (config_tokens agent_conf))).

Lemma parser_computes_meaning_witness :
  (config_meaning agent_conf).2 = true
  /\ (option_map (fun s => sc_path (sc_fields (nth 1 (sc_stores s) new_StoreConfig))) (kc_store (config_meaning agent_conf).1)
      = Some (bs "/data/data/kidsbuf"))
  /\ kc_nlimit (config_meaning agent_conf).1 NLIMIT_PUBSUB = Limit (32 * 1024 * 1024) (16 * 1024 * 1024) 600
  /\ exists p' text,
    parse_tokens (zip (config_tokens agent_conf ++ [(0, None)]) agent_lines) ParseAlloc new_ParseContext
      = Some (p', MkContext (config_meaning agent_conf).2 text (Some (config_meaning agent_conf).1))
    /\ yystack p' = [] /\ ((config_meaning agent_conf).2 = true -> text = []).
Proof.
  split_and!; [by vm_compute..|]. apply (parser_computes_meaning agent_conf agent_lines).
  - repeat constructor; vm_compute; lia.
  - by vm_compute.
Defined.
