(* ===== verification/Meaning.v ===== *)
(** * What the text of a configuration says

    The meaning of Grammar.v is computed with the functions of conf.cc.  Here
    it is said without them: the last value given to a setting counts, a store
    has the settings and the stores of its block, and a configuration is
    refused for one of a few reasons.  The two agree. *)

From S2P Require Import Prelude Common Util Conf Parser Grammar.

(** ** Settings *)

Definition key_of (s : setting) : bytes := let 'Setting key _ _ := s in key.
Definition first_value (s : setting) : bytes := let 'Setting _ value _ := s in value.

(** The first value of the last setting of a key, the empty text without one. *)
Definition last_setting (key : bytes) (l : list setting) : bytes :=
  default [] (last (first_value <$> filter (fun s => key_of s = key) l)).

(** ** Stores *)

Definition own_settings (body : list (setting + store_tree)) : list setting :=
  omap (fun i => match i with inl s => Some s | inr _ => None end) body.
Definition own_stores (body : list (setting + store_tree)) : list store_tree :=
  omap (fun i => match i with inl _ => None | inr u => Some u end) body.

(** The settings of a store that are kept as they are, and where. *)
Definition text_keys : list (bytes * (store_fields -> bytes)) :=
  [(bs "host", sc_host); (bs "port", sc_port); (bs "socket", sc_socket); (bs "path", sc_path); (bs "name", sc_name);
   (bs "rotate", sc_rotate); (bs "flush", sc_flush); (bs "success", sc_success)].
Definition store_key (key : bytes) : bool := bool_decide (key ∈ bs "topic" :: text_keys.*1).

Fixpoint keys_known (t : store_tree) : bool :=
  let 'StoreTree _ _ body := t in
  forallb (fun i => match i with inl s => store_key (key_of s) | inr u => keys_known u end) body.

(** The types whose stores are made; below other stores they are not read. *)
Definition combines (type : bytes) : bool := bool_decide (type ∈ [bs "multiple"; bs "priority"; bs "buffer"]).

(** The block of a store describes a store.  The two stores of a buffer store
    may be given in either order. *)
Inductive describes : store_tree -> StoreConfig -> Prop :=
| Describes type buffer body f order stores :
    sc_type f = type -> sc_buffer_type f = default [] buffer ->
    Forall (fun x => x.2 f = last_setting x.1 (own_settings body)) text_keys ->
    sc_topic f = (if decide (last_setting (bs "topic") (own_settings body) = []) then bs "*"
                  else last_setting (bs "topic") (own_settings body)) ->
    order = own_stores body \/ type = bs "buffer" /\ order = reverse (own_stores body) ->
    (combines type = true -> Forall2 describes order stores) ->
    describes (StoreTree type buffer body) (MkStoreConfig f stores).

(** ** The file *)

Definition text_settings : list (bytes * (KidsConfig -> bytes)) :=
  [(bs "level", kc_log_level); (bs "file", kc_log_file); (bs "socket", kc_listen_socket); (bs "host", kc_listen_host);
   (bs "port", kc_listen_port); (bs "max_clients", kc_max_clients); (bs "worker_threads", kc_worker_threads);
   (bs "ignore_case", kc_ignore_case)].

(** The values an item gives to a setting: a listen block always gives the
    address, whole, and a log block the level and the file; the block the file
    begins with gives every setting in it. *)
Definition assigned (key : bytes) (i : conf_item) : list bytes :=
  match i with
  | ISetting s => if decide (key_of s = key) then [first_value s] else []
  | IListen first rest => if decide (key ∈ [bs "socket"; bs "host"; bs "port"]) then [last_setting key (first :: rest)] else []
  | ILog first rest => if decide (key ∈ [bs "level"; bs "file"]) then [last_setting key (first :: rest)] else []
  | IStore _ => []
  end.
Definition first_assigned (key : bytes) (i : conf_item) : list bytes :=
  match i with IListen first rest | ILog first rest => [last_setting key (first :: rest)] | _ => assigned key i end.
Definition value_of (key : bytes) (first : conf_item) (rest : list conf_item) : bytes :=
  default [] (last (first_assigned key first ++ concat (assigned key <$> rest))).

(** A setting of nlimit. *)
Definition limit_of (s : setting) : option (limit_type * LimitConfig) :=
  match s with
  | Setting key mode [hard; soft; seconds] =>
      if decide (key = bs "nlimit") then
        t ← limit_type_of mode; h ← ParseSize (cstr hard); s ← ParseSize (cstr soft); n ← ParseTime (cstr seconds);
        Some (t, Limit h s n)
      else None
  | _ => None
  end.
Definition limits_of (i : conf_item) : list setting := match i with ISetting s => [s] | _ => [] end.
Definition first_limits (i : conf_item) : list setting :=
  match i with IListen first rest | ILog first rest => first :: rest | _ => limits_of i end.
Definition last_limit (t : limit_type) (l : list setting) : LimitConfig :=
  default (Limit 0 0 0) (last (omap (fun s => x ← limit_of s; if decide (x.1 = t) then Some x.2 else None) l)).

Definition stores_in (i : conf_item) : list store_tree := match i with IStore t => [t] | _ => [] end.
Definition settings_in (i : conf_item) : list setting :=
  match i with ISetting s => [s] | IListen first rest | ILog first rest => first :: rest | IStore _ => [] end.

Definition setting_ok (s : setting) : Prop := key_of s = bs "nlimit" -> is_Some (limit_of s).

(** Why a configuration is refused, but for the check of its store: a limit
    that cannot be read, a setting no store has, two stores, a second address. *)
Definition settings_valid (first : conf_item) (rest : list conf_item) : Prop :=
  Forall setting_ok (settings_in first ++ concat (settings_in <$> rest))
  /\ Forall (fun t => keys_known t = true) (stores_in first ++ concat (stores_in <$> rest))
  /\ (length (stores_in first ++ concat (stores_in <$> rest)) <= 1)%nat
  /\ (forall k a l, rest !! k = Some (IListen a l) ->
        value_of (bs "socket") first (take k rest) = [] /\ value_of (bs "host") first (take k rest) = []).

Definition stores_of (f : config) : list store_tree := stores_in (first_item f) ++ concat (stores_in <$> more_items f).
Definition valid (f : config) : Prop :=
  settings_valid (first_item f) (more_items f)
  /\ Forall (fun t => exists c, describes t c /\ well_formed c = true) (stores_of f).

Definition settings_said (first : conf_item) (rest : list conf_item) (c : KidsConfig) : Prop :=
  Forall (fun x => x.2 c = value_of x.1 first rest) text_settings
  /\ (forall t, kc_nlimit c t = last_limit t (first_limits first ++ concat (limits_of <$> rest))).

(** What a configuration that is not refused says. *)
Definition says (f : config) (c : KidsConfig) : Prop :=
  settings_said (first_item f) (more_items f) c
  /\ exists s, kc_store c = Some s /\ well_formed s = true
       /\ match stores_of f with
          | [] => s = MkStoreConfig (set_topic (bs "*") (set_type (bs "null") [] no_fields)) []
          | t :: _ => describes t s
          end.

(** ** Stores: the two meanings agree *)

Lemma last_setting_snoc key l s :
  last_setting key (l ++ [s]) = if decide (key_of s = key) then first_value s else last_setting key l.
Proof.
  unfold last_setting. rewrite filter_app, fmap_app, filter_cons, filter_nil. case_decide as H.
  - cbn [fmap list_fmap]. by rewrite last_snoc.
  - by rewrite app_nil_r.
Qed.

(** A setting changes its own field and no other. *)
Lemma set_store_field_text key v f f' : set_store_field key v f = Some f' ->
  store_key key = true /\ sc_type f' = sc_type f /\ sc_buffer_type f' = sc_buffer_type f
  /\ Forall (fun x => x.2 f' = if decide (key = x.1) then v else x.2 f) ((bs "topic", sc_topic) :: text_keys).
Proof.
  destruct f. unfold set_store_field. intros H.
  repeat (destruct (decide (key = _)) as [->|]; [injection H as <-; split_and!; [reflexivity..|]; repeat constructor|]). done.
Qed.

Lemma set_store_field_unknown key v f : set_store_field key v f = None -> store_key key = false.
Proof.
  destruct f. unfold set_store_field. intros H. repeat (destruct (decide (key = _)); [done|]).
  apply bool_decide_eq_false. cbn. set_solver.
Qed.

(** What the body of a store makes of its fields. *)
Definition body_says (body : list (setting + store_tree)) (c : StoreConfig) : Prop :=
  sc_type (sc_fields c) = [] /\ sc_buffer_type (sc_fields c) = []
  /\ Forall (fun x => x.2 (sc_fields c) = last_setting x.1 (own_settings body)) ((bs "topic", sc_topic) :: text_keys)
  /\ sc_stores c = (fun u => (store_meaning u).1) <$> own_stores body.

Lemma own_settings_snoc body i : own_settings (body ++ [i]) = own_settings body ++ match i with inl s => [s] | inr _ => [] end.
Proof. unfold own_settings. rewrite omap_app. by destruct i. Qed.
Lemma own_stores_snoc body i : own_stores (body ++ [i]) = own_stores body ++ match i with inl _ => [] | inr u => [u] end.
Proof. unfold own_stores. rewrite omap_app. by destruct i. Qed.

Lemma body_said body : Forall (in_item (fun u => (store_meaning u).2 = keys_known u)) body ->
  let '(c, ok) := fold_left body_meaning body (new_StoreConfig, true) in
  ok = forallb (fun i => match i with inl s => store_key (key_of s) | inr u => keys_known u end) body
  /\ (ok = true -> body_says body c).
Proof.
  induction body as [|i body IH] using rev_ind; intros Hb.
  - split; [done|]. intros _. split_and!; [done..| |done]. repeat constructor.
  - apply Forall_app in Hb as [Hb Hi]. apply Forall_cons in Hi as [Hi _]. specialize (IH Hb).
    rewrite fold_left_app, forallb_app. destruct (fold_left body_meaning body _) as [c ok]. destruct IH as [<- IH].
    cbn [fold_left forallb]. rewrite andb_true_r. destruct i as [[key v more]|u]; cbn [body_meaning in_item key_of] in *.
    + unfold set_store, SetStoreConfValue. cbn [fst snd kv_of kv_key]. change (kv_first _) with v.
      destruct (set_store_field key v (sc_fields c)) as [f|] eqn:E; cbn [ctx_success new_ParseContext failed].
      * destruct (set_store_field_text _ _ _ _ E) as (-> & Ht & Hbt & Hx). split; [done|]. intros [-> _]%andb_true_iff.
        destruct (IH eq_refl) as (H1 & H2 & H3 & H4). split_and!; cbn [sc_fields sc_stores]; [congruence..| |].
        -- rewrite own_settings_snoc. rewrite Forall_forall in Hx, H3 |- *. intros x Hin.
           rewrite (Hx x Hin), (H3 x Hin), last_setting_snoc. done.
        -- by rewrite own_stores_snoc, app_nil_r.
      * rewrite (set_store_field_unknown _ _ _ E), andb_false_r. by split.
    + rewrite <- Hi. destruct (store_meaning u) as [s ok'] eqn:Eu. cbn [fst snd]. split; [done|].
      intros [-> _]%andb_true_iff. destruct (IH eq_refl) as (H1 & H2 & H3 & H4).
      split_and!; cbn [add_store sc_fields sc_stores]; [done..| |].
      * by rewrite own_settings_snoc, app_nil_r.
      * rewrite own_stores_snoc, fmap_app, <- H4. cbn. by rewrite Eu.
Qed.

Lemma keys_meaning t : (store_meaning t).2 = keys_known t.
Proof.
  induction t as [type buffer body Hb] using store_tree_rect'. rewrite store_meaning_eq. pose proof (body_said body Hb) as H.
  destruct (fold_left _ _ _) as [c ok]. by destruct H as [-> _].
Qed.

Lemma store_said type buffer body : keys_known (StoreTree type buffer body) = true ->
  let c := (store_meaning (StoreTree type buffer body)).1 in
  sc_type (sc_fields c) = type /\ sc_buffer_type (sc_fields c) = default [] buffer
  /\ Forall (fun x => x.2 (sc_fields c) = last_setting x.1 (own_settings body)) text_keys
  /\ sc_topic (sc_fields c) = last_setting (bs "topic") (own_settings body)
  /\ sc_stores c = (fun u => (store_meaning u).1) <$> own_stores body
  /\ Forall (fun u => keys_known u = true) (own_stores body).
Proof.
  intros Hk. assert (Forall (in_item (fun u => (store_meaning u).2 = keys_known u)) body) as Hb
    by (apply Forall_forall; intros [] _; [done|apply keys_meaning]).
  rewrite store_meaning_eq. pose proof (body_said body Hb) as H. destruct (fold_left _ _ _) as [[f l] ok].
  destruct H as [-> H]. destruct (H Hk) as (_ & _ & H3 & H4). apply Forall_cons in H3 as [Ht Hx]. cbn in Ht, H4 |- *.
  split_and!; [done..| |done|done|].
  - unfold text_keys in *. repeat (apply Forall_cons in Hx as [? Hx]). repeat constructor; assumption.
  - apply Forall_forall. intros u ([s|u'] & Hin & Hu)%list_elem_of_omap; [done|]. injection Hu as ->.
    cbn in Hk. rewrite forallb_forall in Hk. apply (Hk (inr u)). by apply list_elem_of_In.
Qed.

(** A store that passes its check, and what it is after it. *)
Definition passes (c c' : StoreConfig) : Prop := exists ctx ctx', CheckStoreConfig c ctx = (true, c', ctx').

Lemma check_all_passes l : forall ctx l' ctx', check_all l ctx = (true, l', ctx') -> Forall2 passes l l'.
Proof.
  induction l as [|c l IH]; intros ctx l' ctx'; cbn [check_all]; [by intros [= <- _]|].
  destruct (CheckStoreConfig c ctx) as [[[] c'] ctx1] eqn:Ec; [|done].
  destruct (check_all l ctx1) as [[[] l1] ctx2] eqn:El; [|done]. intros [= <- _]. constructor; [by eexists _, _|by eapply IH].
Qed.

Lemma combines_kind type : combines type = true ->
  kind_of type = Some KMultiple \/ kind_of type = Some KPriority \/ kind_of type = Some KBuffer /\ type = bs "buffer".
Proof.
  intros H%bool_decide_eq_true. repeat (apply elem_of_cons in H as [->|H]); [by left|by right; left|by right; right|].
  by apply elem_of_nil in H.
Qed.

Lemma check_stores_passes f stores ctx stores' ctx' : check_stores f stores ctx = (true, stores', ctx') ->
  combines (sc_type f) = true ->
  exists order, (order = stores \/ sc_type f = bs "buffer" /\ order = reverse stores) /\ Forall2 passes order stores'.
Proof.
  unfold check_stores. intros H [Hk|[Hk|[Hk Hb]]]%combines_kind; rewrite Hk in H.
  1,2: destruct stores as [|c l]; [done|]; eexists; split; [by left|]; by eapply check_all_passes.
  destruct stores as [|a [|b []]]; try done. destruct (_ && _).
  - destruct (CheckStoreConfig b ctx) as [[[] b'] ctx1] eqn:E1; [|done].
    destruct (CheckStoreConfig a ctx1) as [[[] a'] ctx2] eqn:E2; [|done]. injection H as <- _.
    exists [b; a]. split; [by right|]. repeat constructor; by eexists _, _.
  - destruct (negb _); [done|]. destruct (CheckStoreConfig a ctx) as [[[] a'] ctx1] eqn:E1; [|done].
    destruct (CheckStoreConfig b ctx1) as [[[] b'] ctx2] eqn:E2; [|done]. injection H as <- _.
    exists [a; b]. split; [by left|]. repeat constructor; by eexists _, _.
Qed.

Lemma Forall2_with {A B} (P : A -> Prop) (R R' : A -> B -> Prop) l l' :
  Forall P l -> (forall a b, P a -> R a b -> R' a b) -> Forall2 R l l' -> Forall2 R' l l'.
Proof. intros HP HR H. induction H; decompose_Forall_hyps; constructor; eauto. Qed.

Lemma Forall_both {A} (P Q : A -> Prop) l : Forall P l -> Forall Q l -> Forall (fun x => P x /\ Q x) l.
Proof. intros HP HQ. by apply Forall_and. Qed.

Lemma own_stores_items (P : store_tree -> Prop) body : Forall (in_item P) body -> Forall P (own_stores body).
Proof.
  intros H. apply Forall_forall. intros u ([s|u'] & Hin & Hu)%list_elem_of_omap; [done|]. injection Hu as ->.
  rewrite Forall_forall in H. by apply (H (inr u)).
Qed.

Lemma in_order {P : store_tree -> Prop} {type : bytes} order l :
  Forall P l -> order = l \/ type = bs "buffer" /\ order = reverse l -> Forall P order.
Proof. intros H [->|[_ ->]]; [done|by rewrite Forall_reverse]. Qed.

Lemma default_topic_text f l : Forall (fun x => x.2 f = last_setting x.1 l) text_keys ->
  Forall (fun x => x.2 (default_topic f) = last_setting x.1 l) text_keys.
Proof.
  unfold default_topic. case_decide; [|done]. unfold text_keys. intros Hx.
  repeat (apply Forall_cons in Hx as [? Hx]). repeat constructor; assumption.
Qed.

(** What passes is what the block describes. *)
Lemma passes_describes t : keys_known t = true -> forall c, passes (store_meaning t).1 c -> describes t c.
Proof.
  induction t as [type buffer body IH%own_stores_items] using store_tree_rect'. intros Hk c (ctx & ctx' & E).
  destruct (store_said type buffer body Hk) as (Ht & Hbt & Hx & Htop & Hst & Hks).
  destruct (store_meaning (StoreTree type buffer body)).1 as [f stores]. cbn [sc_fields sc_stores] in *.
  rewrite CheckStoreConfig_eq in E. destruct (check_stores f stores ctx) as [[[] stores'] ctx1] eqn:Es; [|done].
  injection E as <- _.
  assert (combines type = true -> exists order,
    (order = own_stores body \/ type = bs "buffer" /\ order = reverse (own_stores body)) /\ Forall2 describes order stores') as Hc.
  { intros Hc. rewrite <- Ht in Hc. destruct (check_stores_passes _ _ _ _ _ Es Hc) as (order & Ho & HF).
    rewrite Ht, Hst, <- fmap_reverse in Ho.
    assert (exists o, order = (fun u => (store_meaning u).1) <$> o
      /\ (o = own_stores body \/ type = bs "buffer" /\ o = reverse (own_stores body))) as (o & -> & Ho').
    { destruct Ho as [->|[Hb ->]]; eexists; (split; [done|]); [by left|by right]. }
    exists o. split; [done|]. rewrite Forall2_fmap_l in HF.
    pose proof (in_order o _ (Forall_both _ _ _ IH Hks) Ho') as Hall.
    eapply Forall2_with; [exact Hall| |exact HF]. intros u c [H1 H2]. by apply H1. }
  destruct (default_topic_ok f) as (_ & T2 & T3 & _).
  assert (exists order, (order = own_stores body \/ type = bs "buffer" /\ order = reverse (own_stores body))
    /\ (combines type = true -> Forall2 describes order stores')) as (order & Ho & HF).
  { destruct (decide (combines type = true)) as [Hct|Hct]; [|exists (own_stores body); by split; [left|]].
    destruct (Hc Hct) as (order & Ho & HF). by exists order. }
  apply (Describes _ _ _ _ order); [by rewrite T2|by rewrite T3|by apply default_topic_text| |done|done].
  unfold default_topic. rewrite Htop. by case_decide.
Qed.

(** What the block describes passes, if it is well formed. *)
Lemma describes_kind t c : keys_known t = true -> describes t c ->
  sc_type (sc_fields c) = sc_type (sc_fields (store_meaning t).1)
  /\ sc_buffer_type (sc_fields c) = sc_buffer_type (sc_fields (store_meaning t).1)
  /\ sc_socket (sc_fields c) = sc_socket (sc_fields (store_meaning t).1)
  /\ sc_host (sc_fields c) = sc_host (sc_fields (store_meaning t).1)
  /\ sc_port (sc_fields c) = sc_port (sc_fields (store_meaning t).1).
Proof.
  intros Hk Hd. destruct Hd as [type buffer body f order stores Ht Hb Hx _ _ _]. destruct (store_said type buffer body Hk) as (Ht' & Hb' & Hx' & _).
  unfold text_keys in Hx, Hx'. decompose_Forall_hyps. split_and!; congruence.
Qed.

Lemma check_all_true l : Forall (fun c => forall ctx, (CheckStoreConfig c ctx).1.1 = true) l -> forall ctx, (check_all l ctx).1.1 = true.
Proof.
  induction 1 as [|c l Hc Hl IH]; intros ctx; cbn [check_all]; [done|]. specialize (Hc ctx).
  destruct (CheckStoreConfig c ctx) as [[ok c'] ctx']. cbn in Hc. subst ok. specialize (IH ctx').
  by destruct (check_all l ctx') as [[ok l'] ctx2].
Qed.

Lemma kind_combines type k : kind_of type = Some k -> match k with KMultiple | KPriority | KBuffer => combines type = true | _ => True end.
Proof. unfold kind_of. repeat (case_decide; [subst; intros [= <-]; by vm_compute|]). done. Qed.

(** The configurations of described stores pass the check. *)
Definition will_pass (u : store_tree) (c : StoreConfig) : Prop :=
  is_buffer_type (bs "primary") (store_meaning u).1 = is_buffer_type (bs "primary") c
  /\ is_buffer_type (bs "secondary") (store_meaning u).1 = is_buffer_type (bs "secondary") c
  /\ (well_formed c = true -> forall ctx, (CheckStoreConfig (store_meaning u).1 ctx).1.1 = true).

Lemma all_will_pass us cs : Forall2 will_pass us cs -> forallb well_formed cs = true ->
  Forall (fun c => forall ctx, (CheckStoreConfig c ctx).1.1 = true) ((fun u => (store_meaning u).1) <$> us).
Proof. induction 1 as [|u c us cs (_ & _ & H) _ IH]; [constructor|]. intros [H1 H2]%andb_true_iff. constructor; auto. Qed.

(** The two stores of a buffer store, found in either order. *)
Lemma pair_will_pass f body order a b : Forall2 will_pass order [a; b] ->
  order = own_stores body \/ sc_type f = bs "buffer" /\ order = reverse (own_stores body) ->
  kind_of (sc_type f) = Some KBuffer ->
  is_buffer_type (bs "primary") a && is_buffer_type (bs "secondary") b && well_formed a && well_formed b = true ->
  forall ctx, (check_stores f ((fun u => (store_meaning u).1) <$> own_stores body) ctx).1.1 = true.
Proof.
  intros HF Ho Hk [[[Ha Hb]%andb_true_iff Hwa]%andb_true_iff Hwb]%andb_true_iff ctx.
  apply Forall2_cons_inv_r in HF as (u & l & (Hpa & Hsa & Hca) & HF & ->).
  apply Forall2_cons_inv_r in HF as (v & l' & (Hpb & Hsb & Hcb) & HF & ->). apply Forall2_nil_inv_r in HF as ->.
  specialize (Hca Hwa). specialize (Hcb Hwb). rewrite Ha in Hpa. rewrite Hb in Hsb.
  assert (own_stores body = [u; v] \/ own_stores body = [v; u]) as Hown.
  { destruct Ho as [<-|[_ Ho]]; [by left|right]. by rewrite <- (reverse_involutive (own_stores body)), <- Ho. }
  pose proof (buffer_exclusive _ Hpa) as Hxa.
  assert (forall x y ctx, (forall ctx, (CheckStoreConfig x ctx).1.1 = true) -> (forall ctx, (CheckStoreConfig y ctx).1.1 = true) ->
    (let '(ok1, x', ctx) := CheckStoreConfig x ctx in
     if (ok1 : bool) then let '(ok2, y', ctx) := CheckStoreConfig y ctx in (ok2, [x'; y'], ctx) else (false, [x'; y], ctx)).1.1 = true) as Hpair.
  { intros x y ctx' Hx Hy. specialize (Hx ctx'). destruct (CheckStoreConfig x ctx') as [[ok x'] ctx1]. cbn in Hx. subst ok.
    specialize (Hy ctx1). by destruct (CheckStoreConfig y ctx1) as [[ok y'] ctx2]. }
  unfold check_stores. rewrite Hk. destruct Hown as [-> | ->]; cbn [fmap list_fmap].
  - rewrite Hxa, andb_false_r, Hpa, Hsb. cbn [andb negb]. by apply Hpair.
  - rewrite Hpa, Hsb. cbn [andb]. by apply Hpair.
Qed.

Lemma described_passes t c : keys_known t = true -> describes t c -> well_formed c = true ->
  forall ctx, (CheckStoreConfig (store_meaning t).1 ctx).1.1 = true.
Proof.
  revert c. induction t as [type buffer body IH%own_stores_items] using store_tree_rect'. intros c Hk Hd Hw ctx.
  destruct (describes_kind _ _ Hk Hd) as (Et & _ & Es & Eh & Ep).
  destruct (store_said type buffer body Hk) as (_ & _ & _ & _ & Hst & Hks).
  inversion Hd as [? ? ? f order stores Hft _ _ _ Ho HF]; subst. rewrite well_formed_eq in Hw. apply andb_true_iff in Hw as [_ Hw].
  destruct (store_meaning _).1 as [f0 l0]. cbn [sc_fields sc_stores] in *. subst l0. rewrite CheckStoreConfig_eq.
  assert (combines (sc_type f) = true -> Forall2 will_pass order stores) as HF'.
  { intros Hc. pose proof (in_order order _ (Forall_both _ _ _ IH Hks) Ho) as Hall.
    eapply Forall2_with; [exact Hall| |exact (HF Hc)]. intros u c [H1 H2] H3. destruct (describes_kind _ _ H2 H3) as (_ & Hb & _).
    unfold will_pass, is_buffer_type. rewrite Hb. split_and!; [done..|]. by apply H1. }
  enough ((check_stores f0 ((fun u => (store_meaning u).1) <$> own_stores body) ctx).1.1 = true) as H
    by (destruct (check_stores _ _ _) as [[ok l] ctx']; exact H).
  unfold well_formed_stores in Hw. destruct (kind_of (sc_type f)) as [k|] eqn:Ek; [|done]. pose proof (kind_combines _ _ Ek) as Hc.
  destruct k.
  1,2: specialize (HF' Hc); apply andb_true_iff in Hw as [Hlen Hws]; pose proof (all_will_pass _ _ HF' Hws) as Hall;
    destruct Ho as [->|[Hb _]]; [|by rewrite Hb in Ek]; apply Forall2_length in HF'; unfold check_stores; rewrite <- Et, Ek;
    destruct (own_stores body) as [|u us]; [by destruct stores|]; by apply check_all_true.
  - destruct stores as [|a [|b []]]; try done. rewrite Et in *. by apply (pair_will_pass f0 body order a b (HF' Hc)).
  - unfold check_stores. rewrite <- Et, Ek, <- Es, <- Eh, <- Ep. by destruct (_ && _).
  - unfold check_stores. by rewrite <- Et, Ek.
  - unfold check_stores. by rewrite <- Et, Ek.
Qed.

(** ** The file: the two meanings agree *)

Lemma last_limit_snoc t l s : last_limit t (l ++ [s])
  = match limit_of s with Some (t', x) => if decide (t' = t) then x else last_limit t l | None => last_limit t l end.
Proof.
  unfold last_limit. rewrite omap_app. cbn [omap list_omap]. destruct (limit_of s) as [[t' x]|]; cbn [mbind option_bind fst snd].
  - case_decide; [by rewrite last_snoc|by rewrite app_nil_r].
  - by rewrite app_nil_r.
Qed.

(** What a setting leaves of the limits. *)
Definition limits_after (s : setting) (limits : limit_type -> LimitConfig) (t : limit_type) : LimitConfig :=
  match limit_of s with Some (t', x) => if decide (t' = t) then x else limits t | None => limits t end.

Lemma set_limit_ok mode hard soft seconds c t : limit_type_of mode = Some t ->
  let '(c', ok) := set_limit t hard soft seconds c in
  (ok = true <-> is_Some (limit_of (Setting (bs "nlimit") mode [hard; soft; seconds]))) /\ kc_store c' = kc_store c
  /\ Forall (fun x => x.2 c' = x.2 c) text_settings
  /\ (ok = true -> forall t', kc_nlimit c' t' = limits_after (Setting (bs "nlimit") mode [hard; soft; seconds]) (kc_nlimit c) t').
Proof.
  intros Ht. unfold set_limit, limits_after, limit_of. rewrite decide_True, Ht by done. cbn [mbind option_bind].
  assert (forall l c, Forall (fun x => x.2 (with_limit t l c) = x.2 c) text_settings) as Htext by (intros; by repeat constructor).
  assert (forall (l : LimitConfig) c c', Forall (fun x => x.2 c' = x.2 c) text_settings ->
    Forall (fun x => x.2 (with_limit t l c') = x.2 c) text_settings) as Hmore.
  { intros l c1 c2 H. rewrite Forall_forall in H |- *. intros x Hx. rewrite <- (H x Hx). specialize (Htext l c2).
    rewrite Forall_forall in Htext. by apply Htext. }
  destruct (ParseSize (cstr hard)); cbn [mbind option_bind].
  2: { split; [split; [done|by intros []]|]. split; [done|]. split; [by repeat constructor|done]. }
  destruct (ParseSize (cstr soft)); cbn [mbind option_bind].
  2: { split; [split; [done|by intros []]|]. split; [done|]. split; [by apply Htext|done]. }
  destruct (ParseTime (cstr seconds)); cbn [mbind option_bind].
  2: { split; [split; [done|by intros []]|]. split; [done|]. split; [by apply Hmore, Htext|done]. }
  split_and!; [split; [by eexists|done]|done|by apply Hmore, Hmore, Htext|].
  intros _ t'. cbn. repeat case_decide; congruence.
Qed.

(** A setting at the top of the file or in a block is refused, or changes its
    own field and no other. *)
Lemma set_kids_ok c b s : let '(c', ok) := set_kids (c, b) s in
  (ok = true <-> b = true /\ setting_ok s) /\ kc_store c' = kc_store c
  /\ (ok = true -> Forall (fun x => x.2 c' = if decide (key_of s = x.1) then first_value s else x.2 c) text_settings
       /\ forall t, kc_nlimit c' t = limits_after s (kc_nlimit c) t).
Proof.
  destruct s as [key v more]. unfold set_kids, SetKidsConfValue, setting_ok, kv_of. cbn [fst snd kv_key kv_value key_of first_value].
  change (kv_first _) with v. destruct (decide (key = bs "nlimit")) as [->|Hn].
  - repeat (rewrite bool_decide_false by done). rewrite bool_decide_true by done. destruct c as [socket host port level file clients threads case limits store].
    set (c := MkKidsConfig _ _ _ _ _ _ _ _ _ _).
    assert (~ is_Some (limit_of (Setting (bs "nlimit") v more)) -> forall text,
      let '(c', ok) := let '(c1, ctx) := (c, failed text new_ParseContext) in (c1, b && ctx_success ctx) in
      (ok = true <-> b = true /\ (bs "nlimit" = bs "nlimit" -> is_Some (limit_of (Setting (bs "nlimit") v more)))) /\ kc_store c' = kc_store c
      /\ (ok = true -> Forall (fun x => x.2 c' = if decide (bs "nlimit" = x.1) then v else x.2 c) text_settings
       /\ forall t, kc_nlimit c' t = limits_after (Setting (bs "nlimit") v more) (kc_nlimit c) t)) as Herr.
    { intros H text. cbn [ctx_success failed]. rewrite andb_false_r. split_and!; [|done|done]. split; [done|]. intros [_ Hs]. by destruct H, Hs. }
    destruct more as [|hard [|soft [|seconds []]]]; try (apply Herr; by intros []).
    destruct (limit_type_of v) as [t|] eqn:Et.
    2: { apply Herr. unfold limit_of. rewrite decide_True, Et by done. by intros []. }
    pose proof (set_limit_ok v hard soft seconds c t Et) as H. destruct (set_limit t hard soft seconds c) as [c' ok].
    destruct H as (H1 & H2 & H3 & H4). destruct ok; cbn [ctx_success failed new_ParseContext].
    + rewrite andb_true_r. split_and!; [|done|].
      * split; [intros ->; split; [done|intros _; by apply H1]|by intros []].
      * intros _. split; [|by apply H4]. unfold text_settings in *. repeat (apply Forall_cons in H3 as [? H3]). by repeat constructor.
    + rewrite andb_false_r. split_and!; [|done|done]. split; [done|]. intros [_ Hs]. by apply H1, Hs.
  - assert (limits_after (Setting key v more) (kc_nlimit c) = kc_nlimit c) as Hl.
    { unfold limits_after, limit_of. destruct more as [|? [|? [|? []]]]; try done. by rewrite decide_False. }
    destruct c as [socket host port level file clients threads case limits store].
    repeat (case_bool_decide; [subst; cbn [ctx_success new_ParseContext]; rewrite andb_true_r;
      split_and!; [split; [by split|by intros []]|done|intros _; split; [by repeat constructor|by rewrite Hl]]|]).
    rewrite bool_decide_false by done. cbn [ctx_success new_ParseContext]. rewrite andb_true_r.
    split; [by split; [|intros []]|]. split; [done|]. intros _. split; [|by rewrite Hl].
    unfold text_settings. repeat (constructor; [cbn [fst snd]; by rewrite decide_False|]). constructor.
Qed.

(** The settings of a block. *)
Definition block_said (l : list setting) (c : KidsConfig) : Prop :=
  Forall (fun x => x.2 c = last_setting x.1 l) text_settings /\ (forall t, kc_nlimit c t = last_limit t l) /\ kc_store c = None.

Lemma text_set (P Q : bytes -> (KidsConfig -> bytes) -> Prop) :
  Forall (fun x => P x.1 x.2) text_settings -> (forall k g, P k g -> Q k g) -> Forall (fun x => Q x.1 x.2) text_settings.
Proof. intros H HPQ. eapply Forall_impl; [exact H|]. intros x. apply HPQ. Qed.

Lemma block_said_ok l : let '(c, ok) := block_meaning l in (ok = true <-> Forall setting_ok l) /\ (ok = true -> block_said l c).
Proof.
  unfold block_meaning. induction l as [|s l IH] using rev_ind.
  - split; [done|]. intros _. split; [by repeat constructor|by split].
  - rewrite fold_left_app. cbn [fold_left]. destruct (fold_left set_kids l _) as [c b]. destruct IH as [Hb IH].
    pose proof (set_kids_ok c b s) as H. destruct (set_kids (c, b) s) as [c' ok]. destruct H as (Hok & Hst & H).
    rewrite Forall_app, Forall_singleton, <- Hb. split; [done|]. intros Hk. destruct (H Hk) as [Htext Hlim].
    destruct (IH (proj1 (proj1 Hok Hk))) as (H1 & H2 & H3). split_and!; [|intros t|congruence].
    + rewrite Forall_forall in Htext, H1 |- *. intros x Hx. by rewrite (Htext x Hx), (H1 x Hx), last_setting_snoc.
    + by rewrite Hlim, last_limit_snoc, <- H2.
Qed.

(** The whole file, item by item. *)
Definition tracks (first : conf_item) (rest : list conf_item) (r : KidsConfig * bool) : Prop :=
  (r.2 = true <-> settings_valid first rest)
  /\ (r.2 = true -> settings_said first rest r.1
       /\ kc_store r.1 = (fun t => (store_meaning t).1) <$> head (stores_in first ++ concat (stores_in <$> rest))).

Lemma value_of_snoc key first rest i : value_of key first (rest ++ [i])
  = match last (assigned key i) with Some v => v | None => value_of key first rest end.
Proof.
  unfold value_of. rewrite fmap_app, concat_app, app_assoc. cbn. rewrite app_nil_r, last_app. by destruct (last (assigned key i)).
Qed.

Lemma concat_snoc {A} (f : conf_item -> list A) rest i : concat (f <$> (rest ++ [i])) = concat (f <$> rest) ++ f i.
Proof. rewrite fmap_app, concat_app. cbn. by rewrite app_nil_r. Qed.

(** What an item must satisfy after those before it. *)
Definition item_valid (first : conf_item) (rest : list conf_item) (i : conf_item) : Prop :=
  Forall setting_ok (settings_in i)
  /\ match i with
     | IListen _ _ => value_of (bs "socket") first rest = [] /\ value_of (bs "host") first rest = []
     | IStore t => keys_known t = true /\ stores_in first ++ concat (stores_in <$> rest) = []
     | _ => True
     end.

Lemma settings_valid_snoc first rest i : settings_valid first (rest ++ [i]) <-> settings_valid first rest /\ item_valid first rest i.
Proof.
  unfold settings_valid, item_valid. rewrite !concat_snoc, !app_assoc, !(Forall_app _ _ (_ i)), length_app.
  assert ((forall k a l, (rest ++ [i]) !! k = Some (IListen a l) ->
      value_of (bs "socket") first (take k (rest ++ [i])) = [] /\ value_of (bs "host") first (take k (rest ++ [i])) = [])
    <-> (forall k a l, rest !! k = Some (IListen a l) ->
          value_of (bs "socket") first (take k rest) = [] /\ value_of (bs "host") first (take k rest) = [])
        /\ match i with IListen _ _ => value_of (bs "socket") first rest = [] /\ value_of (bs "host") first rest = [] | _ => True end) as ->.
  { split.
    - intros H. split.
      + intros k a l Hk. pose proof (lookup_lt_Some _ _ _ Hk) as Hlt. rewrite <- (take_app_le rest [i] k) by lia.
        apply (H k a l). by apply lookup_app_l_Some.
      + destruct i as [|a l| |]; [done| |done..]. rewrite <- (take_app_length rest [IListen a l]).
        apply (H (length rest) a l). by rewrite lookup_app_r, Nat.sub_diag by done.
    - intros [H Hi] k a l [Hk|[Hle Hk]]%lookup_app_Some.
      + pose proof (lookup_lt_Some _ _ _ Hk) as Hlt. rewrite take_app_le by lia. by eapply H.
      + apply list_lookup_singleton_Some in Hk as [Hk ->]. assert (k = length rest) as -> by lia. by rewrite take_app_length. }
  destruct i as [s|a l|a l|t]; cbn [stores_in length]; rewrite ?Nat.add_0_r, ?Forall_nil, ?Forall_singleton; try tauto.
  rewrite <- length_zero_iff_nil. intuition lia.
Qed.

Lemma tracks_snoc first rest r i : tracks first rest r -> tracks first (rest ++ [i]) (item_meaning r i).
Proof.
  destruct r as [c b]. unfold tracks. rewrite settings_valid_snoc, concat_snoc. cbn [fst snd]. intros [<- H]. unfold item_valid.
  assert (forall c' b', (b' = true -> b = true) ->
    Forall (fun x => x.2 c' = match last (assigned x.1 i) with Some v => v | None => x.2 c end) text_settings ->
    (forall t, kc_nlimit c' t = match limits_of i with [s] => limits_after s (kc_nlimit c) t | _ => kc_nlimit c t end) ->
    b' = true -> settings_said first (rest ++ [i]) c') as Hsaid.
  { intros c' b' Hb Ht Hl Hb'. destruct (H (Hb Hb')) as [[H1 H2] _]. split.
    - rewrite Forall_forall in Ht, H1 |- *. intros x Hx. by rewrite (Ht x Hx), (H1 x Hx), value_of_snoc.
    - intros t. rewrite Hl, concat_snoc, app_assoc. destruct i; cbn [limits_of]; rewrite ?app_nil_r; try apply H2.
      rewrite last_limit_snoc, <- H2. done. }
  destruct i as [s|a l|a l|t]; cbn [item_meaning settings_in stores_in limits_of assigned] in *; rewrite ?app_nil_r.
  - pose proof (set_kids_ok c b s) as Hs. destruct (set_kids (c, b) s) as [c' b']. destruct Hs as (H1 & H2 & H3). cbn [fst snd].
    rewrite Forall_singleton. split; [rewrite H1; tauto|]. intros Hb'. destruct (proj1 H1 Hb') as [Hb _].
    rewrite H2. destruct (H3 Hb') as [Ht Hl]. split; [|by apply H]. apply (Hsaid c' b'); [by rewrite H1; intros []| |done|done].
    eapply Forall_impl; [exact Ht|]. intros x ->. by case_decide.
  - pose proof (block_said_ok (a :: l)) as Hbl. destruct (block_meaning (a :: l)) as [lc ok']. destruct Hbl as [Hok Hl].
    assert (b = true -> value_of (bs "socket") first rest = kc_listen_socket c /\ value_of (bs "host") first rest = kc_listen_host c) as Hadr.
    { intros Hb. destruct (H Hb) as [[Ht _] _]. unfold text_settings in Ht. by decompose_Forall_hyps. }
    destruct (decide _) as [Hd|Hd]; cbn [fst snd].
    + rewrite andb_true_iff, Hok. split; [split; [|tauto]|].
      { intros [Hb ?]. destruct (Hadr Hb) as [-> ->]. tauto. }
      intros [Hb Hl']. split; [|by apply H]. apply (Hsaid _ (b && ok')); [by intros [? _]%andb_true_iff| |done|].
      2: { apply andb_true_iff. by rewrite Hok. }
      destruct (Hl (proj2 Hok Hl')) as (Ht & _ & _). destruct c, lc. unfold text_settings in *.
      repeat (apply Forall_cons in Ht as [? Ht]). by repeat constructor.
    + split; [|done]. split; [done|]. intros (Hb & _ & Hv). destruct (Hadr Hb) as [E1 E2]. rewrite E1, E2 in Hv. by destruct Hd.
  - pose proof (block_said_ok (a :: l)) as Hbl. destruct (block_meaning (a :: l)) as [lc ok']. destruct Hbl as [Hok Hl]. cbn [fst snd].
    rewrite andb_true_iff, Hok. split; [tauto|]. intros [Hb Hl']. split; [|by apply H].
    apply (Hsaid _ (b && ok')); [by intros [? _]%andb_true_iff| |done|by apply andb_true_iff; rewrite Hok].
    destruct (Hl (proj2 Hok Hl')) as (Ht & _ & _). destruct c, lc. unfold text_settings in *.
    repeat (apply Forall_cons in Ht as [? Ht]). by repeat constructor.
  - pose proof (keys_meaning t) as Hk. destruct (store_meaning t) as [s ok'] eqn:Et. cbn [snd] in Hk. subst ok'.
    rewrite app_assoc. destruct (stores_in first ++ concat (stores_in <$> rest)) as [|u us] eqn:Es; cbn [head fmap option_fmap app].
    + destruct (kc_store c) as [s0|] eqn:Ec; cbn [fst snd].
      { split; [|done]. split; [done|]. intros (Hb & _). destruct (H Hb) as [_ Hst]. done. }
      rewrite andb_true_iff. split; [rewrite Forall_nil; tauto|]. intros [Hb Hk]. split; [|cbn; by rewrite Et].
      apply (Hsaid _ (b && keys_known t)); [by intros [? _]%andb_true_iff| |by destruct c|by apply andb_true_iff].
      destruct c. by repeat constructor.
    + destruct (kc_store c) as [s0|] eqn:Ec; cbn [fst snd].
      { split; [|done]. split; [done|]. by intros (_ & _ & _ & ?). }
      assert (b = false) as -> by (destruct b; [destruct (H eq_refl) as [_ Hst]|]; done).
      split; [|done]. split; [done|]. by intros (? & _).
Qed.

Lemma tracks_first i : tracks i [] (first_meaning i).
Proof.
  assert (settings_valid i [] <-> Forall setting_ok (settings_in i) /\ Forall (fun t => keys_known t = true) (stores_in i)) as Hv.
  { unfold settings_valid. cbn [fmap list_fmap concat]. rewrite !app_nil_r. split; [tauto|]. intros [H1 H2]. split_and!; [done..| |done].
    destruct i; cbn; lia. }
  unfold tracks. rewrite Hv. unfold settings_said, value_of. cbn [fmap list_fmap concat]. rewrite !app_nil_r.
  destruct i as [s|a l|a l|t]; cbn [first_meaning settings_in stores_in first_limits first_assigned limits_of].
  - cbn [item_meaning]. pose proof (set_kids_ok new_KidsConfig true s) as H. destruct (set_kids _ s) as [c b]. destruct H as (H1 & H2 & H3).
    cbn [fst snd]. rewrite H1, Forall_singleton, Forall_nil. split; [tauto|]. intros Hb. destruct (H3 (proj2 H1 Hb)) as [Ht Hl].
    split; [|done]. split; [|intros t; rewrite Hl; symmetry; apply (last_limit_snoc t [] s)].
    assert (Forall (fun x => x.2 new_KidsConfig = []) text_settings) as Hnew by (by repeat constructor).
    rewrite Forall_forall in Ht, Hnew |- *. intros x Hx. rewrite (Ht x Hx), (Hnew x Hx). cbn [assigned]. rewrite app_nil_r. by case_decide.
  - pose proof (block_said_ok (a :: l)) as H. destruct (block_meaning _) as [c b]. destruct H as [H1 H2]. cbn [fst snd].
    rewrite H1, Forall_nil. split; [tauto|]. intros Hb. destruct (H2 (proj2 H1 Hb)) as (Ht & Hl & Hst). by split_and!.
  - pose proof (block_said_ok (a :: l)) as H. destruct (block_meaning _) as [c b]. destruct H as [H1 H2]. cbn [fst snd].
    rewrite H1, Forall_nil. split; [tauto|]. intros Hb. destruct (H2 (proj2 H1 Hb)) as (Ht & Hl & Hst). by split_and!.
  - cbn [item_meaning]. pose proof (keys_meaning t) as Hk. destruct (store_meaning t) as [s ok'] eqn:Et. cbn [snd] in Hk. subst ok'.
    cbn [kc_store new_KidsConfig fst snd andb head fmap option_fmap option_map]. rewrite Forall_nil, Forall_singleton. split; [tauto|]. intros _.
    split; [|by rewrite Et]. split; [by repeat constructor|done].
Qed.

Lemma config_tracks f : tracks (first_item f) (more_items f) (config_meaning f).
Proof.
  unfold config_meaning. induction (more_items f) as [|i l IH] using rev_ind; [apply tracks_first|].
  rewrite fold_left_app. by apply tracks_snoc.
Qed.

(** What is computed for a file is what it says, checked. *)
Lemma meaning_says f : let '(c, ok) := config_meaning f in
  (valid f <-> ok = true /\ (CheckKidsConfig c (MkContext true [] (Some c))).2.(ctx_success) = true)
  /\ (valid f -> says f (CheckKidsConfig c (MkContext true [] (Some c))).1).
Proof.
  pose proof (config_tracks f) as H. destruct (config_meaning f) as [c ok]. destruct H as [Hok H]. cbn [fst snd] in *.
  unfold valid. rewrite <- Hok. destruct ok; [|split; [by split; intros []|by intros []]].
  destruct (H eq_refl) as [[Ht Hl] Hst]. fold (stores_of f) in Hst.
  assert (forall s, Forall (fun x => x.2 (with_kc_store s c) = value_of x.1 (first_item f) (more_items f)) text_settings) as Ht'.
  { intros s. unfold text_settings in *. repeat (apply Forall_cons in Ht as [? Ht]). by repeat constructor. }
  pose proof (proj1 Hok eq_refl) as (_ & Hk & Hone & _). fold (stores_of f) in Hk, Hone.
  unfold CheckKidsConfig, says. rewrite Hst. destruct (stores_of f) as [|t us]; cbn [head fmap option_fmap option_map].
  - split; [cbn; rewrite Forall_nil; tauto|]. intros _. cbn [fst snd ctx_success]. split; [by split; [apply Ht'|apply Hl]|].
    by eexists.
  - destruct us; [|cbn in Hone; lia]. apply Forall_cons in Hk as [Hk _]. rewrite Forall_singleton.
    set (ctx := MkContext _ _ _). pose proof (CheckStoreConfig_ok (store_meaning t).1 ctx) as Hc.
    pose proof (passes_describes t Hk) as Hp. pose proof (described_passes t) as Hd.
    destruct (CheckStoreConfig (store_meaning t).1 ctx) as [[ok s] ctx'] eqn:Ec. destruct Hc as (_ & _ & _ & Hw & _). cbn [fst snd ctx_success].
    assert ((exists c, describes t c /\ well_formed c = true) -> ok = true) as Hex.
    { intros (c' & H1 & H2). specialize (Hd c' Hk H1 H2 ctx). by rewrite Ec in Hd. }
    assert (ok = true -> describes t s /\ well_formed s = true) as Hok'.
    { intros ->. split; [apply Hp; by eexists _, _|apply Hw]. }
    split; [split; [intros [_ ?]; by split; [|apply Hex]|intros [_ Hs]; split; [done|]; exists s; by apply Hok']|].
    intros [_ Hs]. destruct (Hok' (Hex Hs)) as [H1 H2]. split; [by split; [apply Ht'|apply Hl]|]. by exists s.
Qed.
