(* ===== verification/Lexer.v ===== *)
(** * lexer.c: the scanner of the configuration file, and [ParseConfig]

    The tables and the driver that ragel generates from lexer.rl, the actions
    of the tokens, and the function that runs the scanner and the parser over
    a text and checks the result.  [None] is a read outside a table or the
    text, a NULL pointer that is used, an [assert], or fuel that runs out. *)

From S2P Require Import Prelude Common Util Conf Parser Grammar.

(** ** Tables *)

Definition conf_lexer_actions : list Z := [
  0; 1; 1; 1; 3; 1; 4; 1; 5; 1; 14; 1; 15; 1; 16; 1; 17; 1; 19; 1;
  20; 1; 21; 1; 22; 1; 23; 1; 24; 1; 25; 1; 26; 2; 0; 18; 2; 0; 19; 2;
  2; 18; 2; 2; 19; 2; 5; 6; 2; 5; 7; 2; 5; 8; 2; 5; 9; 2; 5; 10;
  2; 5; 11; 2; 5; 12; 2; 5; 13].
Definition conf_lexer_key_offsets : list Z := [
  0; 0; 3; 3; 5; 8; 8; 33; 34; 42; 53; 61; 71; 72; 83; 86; 94; 105; 117; 127;
  137; 147; 157; 167; 177; 187; 197; 207; 217; 227; 239; 249; 259; 269; 279; 289; 299; 309; 319; 329].
Definition conf_lexer_trans_keys : list Z := [
  34; 92; 96; 10; 13; 39; 92; 96; 9; 10; 13; 32; 34; 35; 39; 58; 59; 76; 80; 83;
  108; 112; 115; 123; 125; 33; 43; 45; 48; 49; 57; 63; 126; 10; 124; 126; 33; 43; 45; 58;
  63; 122; 34; 92; 96; 124; 126; 33; 43; 45; 58; 63; 122; 124; 126; 33; 43; 45; 58; 63;
  122; 10; 13; 124; 126; 33; 43; 45; 58; 63; 122; 10; 39; 92; 96; 124; 126; 33; 43; 45;
  58; 63; 122; 39; 92; 96; 124; 126; 33; 43; 45; 58; 63; 122; 58; 124; 126; 33; 43; 45;
  47; 48; 57; 63; 122; 73; 79; 105; 111; 124; 126; 33; 43; 45; 58; 63; 122; 83; 115; 124;
  126; 33; 43; 45; 58; 63; 122; 84; 116; 124; 126; 33; 43; 45; 58; 63; 122; 69; 101; 124;
  126; 33; 43; 45; 58; 63; 122; 78; 110; 124; 126; 33; 43; 45; 58; 63; 122; 71; 103; 124;
  126; 33; 43; 45; 58; 63; 122; 82; 114; 124; 126; 33; 43; 45; 58; 63; 122; 73; 105; 124;
  126; 33; 43; 45; 58; 63; 122; 77; 109; 124; 126; 33; 43; 45; 58; 63; 122; 65; 97; 124;
  126; 33; 43; 45; 58; 63; 122; 82; 114; 124; 126; 33; 43; 45; 58; 63; 122; 89; 121; 124;
  126; 33; 43; 45; 58; 63; 122; 69; 84; 101; 116; 124; 126; 33; 43; 45; 58; 63; 122; 67;
  99; 124; 126; 33; 43; 45; 58; 63; 122; 79; 111; 124; 126; 33; 43; 45; 58; 63; 122; 78;
  110; 124; 126; 33; 43; 45; 58; 63; 122; 68; 100; 124; 126; 33; 43; 45; 58; 63; 122; 65;
  97; 124; 126; 33; 43; 45; 58; 63; 122; 82; 114; 124; 126; 33; 43; 45; 58; 63; 122; 89;
  121; 124; 126; 33; 43; 45; 58; 63; 122; 79; 111; 124; 126; 33; 43; 45; 58; 63; 122; 82;
  114; 124; 126; 33; 43; 45; 58; 63; 122; 69; 101; 124; 126; 33; 43; 45; 58; 63; 122; 0].
Definition conf_lexer_single_lengths : list Z := [
  0; 3; 0; 2; 3; 0; 17; 1; 2; 5; 2; 4; 1; 5; 3; 2; 3; 6; 4; 4;
  4; 4; 4; 4; 4; 4; 4; 4; 4; 6; 4; 4; 4; 4; 4; 4; 4; 4; 4; 4].
Definition conf_lexer_range_lengths : list Z := [
  0; 0; 0; 0; 0; 0; 4; 0; 3; 3; 3; 3; 0; 3; 0; 3; 4; 3; 3; 3;
  3; 3; 3; 3; 3; 3; 3; 3; 3; 3; 3; 3; 3; 3; 3; 3; 3; 3; 3; 3].
Definition conf_lexer_index_offsets : list Z := [
  0; 0; 4; 5; 8; 12; 13; 35; 37; 43; 52; 58; 66; 68; 77; 81; 87; 95; 105; 113;
  121; 129; 137; 145; 153; 161; 169; 177; 185; 193; 203; 211; 219; 227; 235; 243; 251; 259; 267; 275].
Definition conf_lexer_indicies : list Z := [
  2; 3; 0; 1; 1; 5; 6; 4; 9; 10; 7; 8; 8; 11; 13; 14; 11; 16; 17; 18;
  15; 20; 21; 22; 23; 21; 22; 23; 24; 25; 15; 15; 19; 15; 12; 27; 26; 15; 15; 15;
  15; 15; 7; 29; 30; 15; 16; 16; 16; 16; 16; 1; 16; 16; 16; 16; 16; 1; 5; 6;
  17; 17; 17; 17; 17; 4; 32; 31; 33; 34; 15; 18; 18; 18; 18; 18; 8; 9; 10; 35;
  8; 18; 18; 18; 18; 18; 8; 15; 15; 15; 15; 15; 19; 15; 36; 37; 38; 37; 38; 15;
  15; 15; 15; 15; 28; 39; 39; 15; 15; 15; 15; 15; 28; 40; 40; 15; 15; 15; 15; 15;
  28; 41; 41; 15; 15; 15; 15; 15; 28; 42; 42; 15; 15; 15; 15; 15; 28; 43; 43; 15;
  15; 15; 15; 15; 28; 44; 44; 15; 15; 15; 15; 15; 28; 45; 45; 15; 15; 15; 15; 15;
  28; 46; 46; 15; 15; 15; 15; 15; 28; 47; 47; 15; 15; 15; 15; 15; 28; 48; 48; 15;
  15; 15; 15; 15; 28; 49; 49; 15; 15; 15; 15; 15; 28; 50; 51; 50; 51; 15; 15; 15;
  15; 15; 28; 52; 52; 15; 15; 15; 15; 15; 28; 53; 53; 15; 15; 15; 15; 15; 28; 54;
  54; 15; 15; 15; 15; 15; 28; 55; 55; 15; 15; 15; 15; 15; 28; 56; 56; 15; 15; 15;
  15; 15; 28; 57; 57; 15; 15; 15; 15; 15; 28; 58; 58; 15; 15; 15; 15; 15; 28; 59;
  59; 15; 15; 15; 15; 15; 28; 60; 60; 15; 15; 15; 15; 15; 28; 61; 61; 15; 15; 15;
  15; 15; 28; 0].
Definition conf_lexer_trans_targs : list Z := [
  6; 1; 6; 2; 3; 6; 12; 6; 4; 14; 5; 6; 0; 6; 7; 8; 9; 11; 13; 16;
  6; 17; 23; 29; 6; 6; 6; 6; 6; 8; 10; 6; 6; 13; 15; 6; 6; 18; 22; 19;
  20; 21; 8; 8; 24; 25; 26; 27; 28; 8; 30; 37; 31; 32; 33; 34; 35; 36; 8; 38;
  39; 8].
Definition conf_lexer_trans_actions : list Z := [
  29; 0; 15; 0; 0; 33; 1; 31; 0; 63; 0; 17; 0; 36; 1; 66; 7; 7; 66; 0;
  13; 0; 0; 0; 9; 11; 27; 42; 23; 60; 7; 25; 39; 63; 66; 21; 19; 0; 0; 0;
  0; 0; 45; 51; 0; 0; 0; 0; 0; 54; 0; 0; 0; 0; 0; 0; 0; 0; 57; 0;
  0; 48].
Definition conf_lexer_to_state_actions : list Z := [
  0; 0; 0; 0; 0; 0; 3; 0; 0; 0; 0; 0; 0; 0; 0; 0; 0; 0; 0; 0;
  0; 0; 0; 0; 0; 0; 0; 0; 0; 0; 0; 0; 0; 0; 0; 0; 0; 0; 0; 0].
Definition conf_lexer_from_state_actions : list Z := [
  0; 0; 0; 0; 0; 0; 5; 0; 0; 0; 0; 0; 0; 0; 0; 0; 0; 0; 0; 0;
  0; 0; 0; 0; 0; 0; 0; 0; 0; 0; 0; 0; 0; 0; 0; 0; 0; 0; 0; 0].
Definition conf_lexer_eof_trans : list Z := [
  0; 1; 1; 1; 8; 8; 0; 27; 8; 29; 29; 29; 32; 8; 36; 29; 37; 29; 29; 29;
  29; 29; 29; 29; 29; 29; 29; 29; 29; 29; 29; 29; 29; 29; 29; 29; 29; 29; 29; 29].

Definition conf_lexer_start : Z := 6.
Definition conf_lexer_first_final : Z := 6.

(** ** The scanner *)

(** The variables of [ParseConfig]: the state, the position and those of the
    token, as offsets, None being NULL; [ctx->line]; the parser and the rest of
    the context. *)
Record Lexer := MkLexer {
  cs : Z;
  p : Z;
  ts : option Z;
  te : option Z;
  act : Z;
  line : Z;
  parser : yyParser;
  ctx : ParseContext;
}.

Definition at_pos (x : Z) (l : Lexer) : Lexer := MkLexer (cs l) x (ts l) (te l) (act l) (line l) (parser l) (ctx l).
Definition in_state (s : Z) (l : Lexer) : Lexer := MkLexer s (p l) (ts l) (te l) (act l) (line l) (parser l) (ctx l).
Definition set_ts (x : option Z) (l : Lexer) : Lexer := MkLexer (cs l) (p l) x (te l) (act l) (line l) (parser l) (ctx l).
Definition set_te (x : Z) (l : Lexer) : Lexer := MkLexer (cs l) (p l) (ts l) (Some x) (act l) (line l) (parser l) (ctx l).
Definition set_act (x : Z) (l : Lexer) : Lexer := MkLexer (cs l) (p l) (ts l) (te l) x (line l) (parser l) (ctx l).
Definition set_line (x : Z) (l : Lexer) : Lexer := MkLexer (cs l) (p l) (ts l) (te l) (act l) x (parser l) (ctx l).
Definition set_parser (y : yyParser) (c : ParseContext) (l : Lexer) : Lexer :=
  MkLexer (cs l) (p l) (ts l) (te l) (act l) (line l) y c.

Section scanner.
Variable str : bytes.
Definition pe : Z := Z.of_nat (length str).

(** [*p], a signed char. *)
Definition char_at (i : Z) : option Z := if i <? 0 then None else schar <$> str !! Z.to_nat i.

(** [Token(id, s, e)] *)
Definition slice (s e : Z) : bytes := take (Z.to_nat (e - s)) (drop (Z.to_nat s) str).
Definition new_Token (id : Z) (s e : option Z) : option Token :=
  s ← s; e ← e;
  if (0 <=? s) && (e <=? pe) then Some (MkToken id (slice s e)) else None.

Definition parse (maj : Z) (tk : option Token) (l : Lexer) : option Lexer :=
  '(y, c) ← Parse maj tk (line l) (parser l) (ctx l); Some (set_parser y c l).

(** The macros of conf.cc. *)
Definition KEYWORD (id : Z) (l : Lexer) : option Lexer := tk ← new_Token id (ts l) (te l); parse id (Some tk) l.
Definition ID (l : Lexer) : option Lexer := KEYWORD TK_ID l.
Definition SYMBOL (id : Z) (l : Lexer) : option Lexer := parse id None l.

(** [te = p+1;], [te = p;p--;] and [p = ((te))-1;] *)
Definition end_here (l : Lexer) : Lexer := set_te (p l + 1) l.
Definition end_before (l : Lexer) : Lexer := at_pos (p l - 1) (set_te (p l) l).
Definition back_up (l : Lexer) : option Lexer := e ← te l; Some (at_pos (e - 1) l).

(** The action of a number, of a transition. *)
Definition exec_action (a : Z) (l : Lexer) : option Lexer :=
  match a with
  | 0 | 1 => Some (set_line (line l + 1) l)
  | 2 => Some (set_line (line l - 1) l)
  | 5 => Some (end_here l)
  | 6 => Some (set_act 2 l)
  | 7 => Some (set_act 3 l)
  | 8 => Some (set_act 4 l)
  | 9 => Some (set_act 5 l)
  | 10 => Some (set_act 6 l)
  | 11 => Some (set_act 10 l)
  | 12 => Some (set_act 11 l)
  | 13 => Some (set_act 12 l)
  | 14 => SYMBOL TK_LP (end_here l)
  | 15 => SYMBOL TK_RP (end_here l)
  | 16 => SYMBOL TK_SEMICOLON (end_here l)
  | 17 => ID (end_here l)
  | 18 | 19 => Some (end_here l)
  | 20 | 21 | 22 => ID (end_before l)
  | 23 | 24 => Some (end_before l)
  | 25 => l ← back_up l; ID l
  | 26 =>
      match act l with
      | 2 => l ← back_up l; KEYWORD TK_LISTEN l
      | 3 => l ← back_up l; KEYWORD TK_STORE l
      | 4 => l ← back_up l; KEYWORD TK_LOG l
      | 5 | 6 => l ← back_up l; KEYWORD TK_BUFFER_TYPE l
      | 10 | 11 | 12 => l ← back_up l; ID l
      | _ => Some l
      end
  | _ => Some l
  end.

(** The numbers at an offset of the table of actions, their count first. *)
Definition acts_at (offset : Z) : option (list Z) :=
  n ← tab conf_lexer_actions offset;
  mapM (fun i => tab conf_lexer_actions (offset + 1 + Z.of_nat i)) (seq 0 (Z.to_nat n)).

Fixpoint exec_actions (acts : list Z) (l : Lexer) : option Lexer :=
  match acts with
  | [] => Some l
  | a :: acts => l ← exec_action a l; exec_actions acts l
  end.

(** The actions on entering and leaving a state: 3 and 4 only. *)
Definition from_state (l : Lexer) : option Lexer :=
  acts ← (o ← tab conf_lexer_from_state_actions (cs l); acts_at o);
  Some (if bool_decide (4 ∈ acts) then set_ts (Some (p l)) l else l).
Definition to_state (l : Lexer) : option Lexer :=
  acts ← (o ← tab conf_lexer_to_state_actions (cs l); acts_at o);
  Some (if bool_decide (3 ∈ acts) then set_ts None l else l).

(** The binary searches among the single keys and among the ranges of a
    state, from [_lower] to [_upper], offsets from [_keys]: the offset found,
    or that nothing is.  [c] is the character. *)
Fixpoint search_single (fuel : nat) (keys : Z) (c lower upper : Z) : option (option Z) :=
  match fuel with
  | O => None
  | S fuel =>
      if upper <? lower then Some None
      else
        let mid := lower + Z.shiftr (upper - lower) 1 in
        k ← tab conf_lexer_trans_keys (keys + mid);
        if c <? k then search_single fuel keys c lower (mid - 1)
        else if c >? k then search_single fuel keys c (mid + 1) upper
        else Some (Some mid)
  end.

Fixpoint search_range (fuel : nat) (keys : Z) (c lower upper : Z) : option (option Z) :=
  match fuel with
  | O => None
  | S fuel =>
      if upper <? lower then Some None
      else
        let mid := lower + Z.land (Z.shiftr (upper - lower) 1) (-2) in
        k0 ← tab conf_lexer_trans_keys (keys + mid);
        k1 ← tab conf_lexer_trans_keys (keys + mid + 1);
        if c <? k0 then search_range fuel keys c lower (mid - 2)
        else if c >? k1 then search_range fuel keys c (mid + 2) upper
        else Some (Some mid)
  end.

(** No state has more than 17 keys. *)
Definition search_fuel : nat := 18.

(** [_trans] for a character in a state. *)
Definition find_trans (s c : Z) : option Z :=
  keys ← tab conf_lexer_key_offsets s;
  trans ← tab conf_lexer_index_offsets s;
  klen ← tab conf_lexer_single_lengths s;
  single ← (if klen >? 0 then search_single search_fuel keys c 0 (klen - 1) else Some None);
  i ← match single with
      | Some mid => Some (trans + mid)
      | None =>
          let keys := keys + klen in
          let trans := trans + klen in
          rlen ← tab conf_lexer_range_lengths s;
          range ← (if rlen >? 0 then search_range search_fuel keys c 0 (Z.shiftl rlen 1 - 2) else Some None);
          Some match range with Some mid => trans + Z.shiftr mid 1 | None => trans + rlen end
      end;
  tab conf_lexer_indicies i.

(** The actions of a transition; offset 0 is for none. *)
Definition trans_acts (trans : Z) : option (list Z) :=
  o ← tab conf_lexer_trans_actions trans;
  if o =? 0 then Some [] else acts_at o.

(** From [_eof_trans] to the test at [_again]. *)
Definition take_trans (trans : Z) (l : Lexer) : option Lexer :=
  s ← tab conf_lexer_trans_targs trans;
  acts ← trans_acts trans;
  l ← exec_actions acts (in_state s l);
  to_state l.

(** One turn of the loop, from [_resume] or [_test_eof]; [inl]: the scanner
    stops there. *)
Definition lex_step (l : Lexer) : option (Lexer + Lexer) :=
  let continue l := if cs l =? 0 then inl l else inr (at_pos (p l + 1) l) in
  if p l =? pe then
    e ← tab conf_lexer_eof_trans (cs l);
    if e >? 0 then continue <$> take_trans (e - 1) l else Some (inl l)
  else
    l ← from_state l;
    c ← char_at (p l);
    trans ← find_trans (cs l) c;
    continue <$> take_trans trans l.

Fixpoint lex_run (fuel : nat) (l : Lexer) : option Lexer :=
  match fuel with
  | O => None
  | S fuel =>
      r ← lex_step l;
      match r with inl l => Some l | inr l => lex_run fuel l end
  end.

Definition new_Lexer : Lexer := MkLexer conf_lexer_start 0 None None 0 0 ParseAlloc new_ParseContext.

(** A text is scanned from each of its positions at most. *)
Definition lex_fuel : nat := S (length str) * S (S (length str)).

Definition ParseConfig : option ParseContext :=
  match str with
  | [] => Some (failed ERR_BAD_CONF_FILE new_ParseContext)
  | _ =>
      l ← lex_run lex_fuel new_Lexer;
      c ← (if cs l <? conf_lexer_first_final then Some (failed (syntax_text (line l)) (ctx l))
           else '(_, c) ← Parse 0 None (line l) (parser l) (ctx l); Some c);
      if ctx_success c then
        conf ← ctx_conf c;
        let '(conf, c) := CheckKidsConfig conf c in Some (with_conf conf c)
      else Some c
  end.
End scanner.

(** [ParseConfigFile] *)
Definition ParseConfigFile (content : bytes) : option ParseContext := ParseConfig (file_lines content []).

(** ** What the tables are checked for *)

(** The states that a transition may leave for the end of the token that was
    recorded last. *)
Definition need_end (s : Z) : bool := bool_decide (s ∈ [1; 2; 3; 4; 5; 8; 9; 10; 11; 13; 14; 15]).
(** The states where the kind of the token recorded last is known. *)
Definition need_act (s : Z) : bool := bool_decide (s ∈ [4; 5; 8; 13; 14; 15]).
Definition known_act (a : Z) : bool := bool_decide (a ∈ [2; 3; 4; 5; 6; 10; 11; 12]).
Definition sets_act (a : Z) : bool := (6 <=? a) && (a <=? 13).
Definition counter (a : Z) : bool := (0 <=? a) && (a <=? 2).
Definition inner (a : Z) : bool := counter a || (5 <=? a) && (a <=? 13).

(** A transition to the initial state ends a token, beyond where it started;
    another one goes on, and records an end where it must.  At the end of the
    text there are only transitions that end a token before it. *)
Definition ender_ok (eof : bool) (s e : Z) : bool :=
  (14 <=? e) && (e <=? 26) && (if 25 <=? e then need_end s else true) && (if 26 <=? e then need_act s else true)
  && (if 20 <=? e then negb (s =? 6) else negb eof).
Definition trans_ok (eof : bool) (s t : Z) : bool :=
  match tab conf_lexer_trans_targs t, trans_acts t with
  | Some s', Some acts =>
      if s' =? 6 then
        match acts with
        | [e] => ender_ok eof s e
        | [a; e] => counter a && ender_ok eof s e
        | _ => false
        end
      else negb eof && (0 <=? s') && (s' <? 40) && forallb inner acts
        && (if need_end s' then need_end s || bool_decide (5 ∈ acts) else true)
        && (if need_act s' then need_act s || existsb sets_act acts else true)
  | _, _ => false
  end.

Definition lexer_states : list Z := Z.of_nat <$> seq 1 39.
Definition chars : list Z := (fun n => Z.of_nat n - 128) <$> seq 0 256.

Lemma chars_ok : forallb (fun x : Z * Z => match find_trans x.1 x.2 with Some t => trans_ok false x.1 t | None => false end)
  (list_prod lexer_states chars) = true.
Proof. vm_compute. reflexivity. Qed.

(** Only the initial state may be left for the end of the text. *)
Definition eof_ok (s : Z) : bool :=
  match tab conf_lexer_eof_trans s with Some e => if e >? 0 then trans_ok true s (e - 1) else s =? 6 | None => false end.
Lemma eofs_ok : forallb eof_ok lexer_states = true.
Proof. vm_compute. reflexivity. Qed.

(** The initial state is the one with actions when it is entered and left. *)
Lemma state_actions : forallb (fun s =>
    bool_decide ((o ← tab conf_lexer_from_state_actions s; acts_at o) = Some (if s =? 6 then [4] else []))
    && bool_decide ((o ← tab conf_lexer_to_state_actions s; acts_at o) = Some (if s =? 6 then [3] else [])))
  (0 :: lexer_states) = true.
Proof. vm_compute. reflexivity. Qed.

Lemma in_states s : 1 <= s < 40 -> s ∈ lexer_states.
Proof. intros. apply in_range_list. lia. Qed.

Lemma trans_ok_char s c : 1 <= s < 40 -> -128 <= c < 128 -> exists t, find_trans s c = Some t /\ trans_ok false s t = true.
Proof.
  intros Hs Hc. pose proof chars_ok as H. rewrite forallb_forall in H. specialize (H (s, c)).
  cbn [fst snd] in H. destruct (find_trans s c) as [t|].
  - exists t. split; [done|]. apply H, in_prod; apply list_elem_of_In; [by apply in_states|].
    apply list_elem_of_fmap. exists (Z.to_nat (c + 128)). split; [lia|]. apply elem_of_seq. lia.
  - discriminate H. apply in_prod; apply list_elem_of_In; [by apply in_states|].
    apply list_elem_of_fmap. exists (Z.to_nat (c + 128)). split; [lia|]. apply elem_of_seq. lia.
Qed.

Lemma eof_ok_state s : 1 <= s < 40 -> eof_ok s = true.
Proof.
  intros Hs. pose proof eofs_ok as H. rewrite forallb_forall in H. by apply H, list_elem_of_In, in_states.
Qed.

Lemma from_state_eq l : 1 <= cs l < 40 -> from_state l = Some (if cs l =? 6 then set_ts (Some (p l)) l else l).
Proof.
  intros Hs. pose proof state_actions as H. rewrite forallb_forall in H. specialize (H (cs l)).
  rewrite andb_true_iff, !bool_decide_eq_true in H. destruct H as [H _].
  { right. by apply list_elem_of_In, in_states. }
  unfold from_state. rewrite H. cbn [mbind option_bind]. by destruct (cs l =? 6).
Qed.

Lemma to_state_eq l : 0 <= cs l < 40 -> to_state l = Some (if cs l =? 6 then set_ts None l else l).
Proof.
  intros Hs. pose proof state_actions as H. rewrite forallb_forall in H. specialize (H (cs l)).
  rewrite andb_true_iff, !bool_decide_eq_true in H. destruct H as [_ H].
  { destruct (decide (cs l = 0)) as [->|]; [by left|right]. apply list_elem_of_In, in_states. lia. }
  unfold to_state. rewrite H. cbn [mbind option_bind]. by destruct (cs l =? 6).
Qed.

(** ** A scan never fails *)

Section scan.
Variable str : bytes.
Let size := pe str.

Lemma char_at_ok i : 0 <= i < size -> exists c, char_at str i = Some c /\ -128 <= c < 128.
Proof.
  intros Hi. unfold char_at. rewrite (proj2 (Z.ltb_ge _ _)) by lia.
  destruct (lookup_lt_is_Some_2 str (Z.to_nat i)) as [x Hx]; [unfold size, pe in Hi; lia|].
  rewrite Hx. cbn. eexists. split; [done|]. pose proof (uchar_range x). unfold schar.
  destruct (Z.ltb_spec (uchar x) 128); lia.
Qed.

(** Before each turn of the loop. *)
Definition inv (l : Lexer) : Prop :=
  1 <= cs l < 40 /\ 0 <= p l <= size /\ parser_ok (parser l) /\
  (cs l <> 6 -> exists t, ts l = Some t /\ 0 <= t < p l
     /\ (need_end (cs l) = true -> exists e, te l = Some e /\ t < e <= p l)
     /\ (need_act (cs l) = true -> known_act (act l) = true)).

(** Where the token began. *)
Definition base (l : Lexer) : Z := if cs l =? 6 then p l else default 0 (ts l).
Definition measure (l : Lexer) : Z := (size - base l) * (size + 2) + (size - p l).

Lemma parse_ok maj tk l : parser_ok (parser l) -> token_ok maj tk ->
  exists y c, parse maj tk l = Some (set_parser y c l) /\ parser_ok y.
Proof.
  intros Hp Ht. destruct (Parse_ok maj tk (line l) _ (ctx l) Hp Ht) as (y & c & E & Hy & _).
  exists y, c. unfold parse. by rewrite E.
Qed.

Lemma KEYWORD_ok id l t e : parser_ok (parser l) -> ts l = Some t -> te l = Some e -> 0 <= t -> e <= size -> 0 <= id < 9 ->
  exists y c, KEYWORD str id l = Some (set_parser y c l) /\ parser_ok y.
Proof.
  intros Hp Ht He Ht0 Hes Hid. unfold KEYWORD, new_Token. rewrite Ht, He. cbn [mbind option_bind].
  rewrite (proj2 (Z.leb_le _ _)), (proj2 (Z.leb_le _ _)) by done. cbn [andb mbind option_bind]. by apply parse_ok.
Qed.

Lemma act_cases l : known_act (act l) = true ->
  exists id, 0 <= id < 9 /\ exec_action str 26 l = (l ← back_up l; KEYWORD str id l).
Proof.
  unfold known_act. rewrite bool_decide_eq_true, !elem_of_cons. cbn [exec_action].
  intros H. repeat destruct H as [->|H]; [eexists; (split; [|reflexivity]); done..|]. by apply not_elem_of_nil in H.
Qed.

(** What the last action of a token does: it goes on after the token. *)
Lemma ender_step eof e s l t : ender_ok eof s e = true -> parser_ok (parser l) -> ts l = Some t -> 0 <= t <= p l -> p l <= size ->
  (eof = false -> p l < size) -> (s <> 6 -> t < p l) ->
  (need_end s = true -> exists x, te l = Some x /\ t < x <= p l) -> (need_act s = true -> known_act (act l) = true) ->
  exists l', exec_action str e l = Some l' /\ cs l' = cs l /\ parser_ok (parser l') /\ t < p l' + 1 <= size.
Proof.
  intros He Hp Ht Htp Hps Heof Hs Hneed Hact. unfold ender_ok in He. rewrite !andb_true_iff in He.
  destruct He as [[[[H14 H26] Hn] Ha] H20]. bool_to_prop.
  destruct (Z.leb_spec 20 e) as [Hge|Hlt].
  - apply negb_true_iff, Z.eqb_neq in H20. specialize (Hs H20). destruct (Z.leb_spec 25 e) as [H25|H25].
    + destruct (Hneed Hn) as (x & Hx & Htx).
      assert (forall id, 0 <= id < 9 -> exists l', (l ← back_up l; KEYWORD str id l) = Some l' /\ cs l' = cs l
        /\ parser_ok (parser l') /\ t < p l' + 1 <= size) as Hkey.
      { intros id Hid. unfold back_up. rewrite Hx. cbn [mbind option_bind].
        destruct (KEYWORD_ok id (at_pos (x - 1) l) t x Hp Ht Hx ltac:(lia) ltac:(lia) Hid) as (y & c & E & Hy).
        exists (set_parser y c (at_pos (x - 1) l)). split_and!; [done|done|done|cbn; lia|cbn; lia]. }
      assert (e = 25 \/ e = 26) as [->| ->] by lia; [by apply (Hkey TK_ID)|].
      destruct (act_cases l (Hact Ha)) as (id & Hid & ->). by apply Hkey.
    + destruct (KEYWORD_ok TK_ID (end_before l) t (p l) Hp Ht eq_refl ltac:(lia) ltac:(lia) ltac:(done)) as (y & c & E & Hy).
      assert (e = 20 \/ e = 21 \/ e = 22 \/ e = 23 \/ e = 24) as Hcase by lia.
      destruct Hcase as [->|[->|[->|[->| ->]]]]; cbn [exec_action];
        first [exists (set_parser y c (end_before l)); split_and!; [done|done|done|cbn; lia|cbn; lia]
              |exists (end_before l); split_and!; [done|done|done|cbn; lia|cbn; lia]].
  - apply negb_true_iff in H20. specialize (Heof H20).
    assert (forall maj, 2 <= maj < 8 -> exists l', SYMBOL maj (end_here l) = Some l' /\ cs l' = cs l
      /\ parser_ok (parser l') /\ t < p l' + 1 <= size) as Hsym.
    { intros maj Hm. destruct (parse_ok maj None (end_here l) Hp) as (y & c & E & Hy).
      { split; [lia|]. intros Hin. apply elem_of_cons in Hin as [?|[?|Hin]%elem_of_cons]; [lia|lia|by apply not_elem_of_nil in Hin]. }
      exists (set_parser y c (end_here l)). split_and!; [done|done|done|cbn; lia|cbn; lia]. }
    destruct (KEYWORD_ok TK_ID (end_here l) t (p l + 1) Hp Ht eq_refl ltac:(lia) ltac:(lia) ltac:(done)) as (y & c & E & Hy).
    assert (e = 14 \/ e = 15 \/ e = 16 \/ e = 17 \/ e = 18 \/ e = 19) as Hcase by lia.
    destruct Hcase as [->|[->|[->|[->|[->| ->]]]]]; cbn [exec_action]; try (by apply Hsym);
      first [exists (set_parser y c (end_here l)); split_and!; [done|done|done|cbn; lia|cbn; lia]
            |exists (end_here l); split_and!; [done|done|done|cbn; lia|cbn; lia]].
Qed.

(** The actions inside a token. *)
Lemma counter_step a l : counter a = true -> exists n, exec_action str a l = Some (set_line n l).
Proof.
  unfold counter. rewrite andb_true_iff. intros [H1 H2]. bool_to_prop.
  assert (a = 0 \/ a = 1 \/ a = 2) as [->|[->| ->]] by lia; cbn; by eexists.
Qed.

Lemma inner_steps acts : forall l, forallb inner acts = true ->
  exists l', exec_actions str acts l = Some l' /\ cs l' = cs l /\ p l' = p l /\ ts l' = ts l /\ parser l' = parser l
    /\ te l' = (if bool_decide (5 ∈ acts) then Some (p l + 1) else te l)
    /\ (if existsb sets_act acts then known_act (act l') = true else act l' = act l).
Proof.
  induction acts as [|a acts IH]; intros l Ha; cbn [exec_actions]; [by exists l|]. cbn [forallb] in Ha.
  apply andb_true_iff in Ha as [Ha Hacts].
  assert (exists l1, exec_action str a l = Some l1 /\ cs l1 = cs l /\ p l1 = p l /\ ts l1 = ts l /\ parser l1 = parser l
    /\ te l1 = (if a =? 5 then Some (p l + 1) else te l)
    /\ if sets_act a then known_act (act l1) = true else act l1 = act l) as (l1 & E & H1 & H2 & H3 & H4 & H5 & H6).
  { unfold inner in Ha. apply orb_true_iff in Ha as [Ha|Ha].
    - destruct (counter_step a l Ha) as [n E]. exists (set_line n l). unfold counter in Ha.
      apply andb_true_iff in Ha as [Hx Hy]. bool_to_prop. rewrite (proj2 (Z.eqb_neq a 5)) by lia.
      unfold sets_act. rewrite (proj2 (Z.leb_gt 6 a)) by lia. done.
    - apply andb_true_iff in Ha as [Hx Hy]. bool_to_prop.
      assert (a = 5 \/ a = 6 \/ a = 7 \/ a = 8 \/ a = 9 \/ a = 10 \/ a = 11 \/ a = 12 \/ a = 13) as Hcase by lia.
      repeat destruct Hcase as [->|Hcase]; [..|subst a]; eexists; by split_and!. }
  destruct (IH l1 Hacts) as (l' & E' & H1' & H2' & H3' & H4' & H5' & H6'). exists l'. rewrite E. cbn [mbind option_bind existsb].
  split_and!; [done|congruence..| |].
  2: { destruct (existsb sets_act acts); [by rewrite orb_true_r|]. rewrite orb_false_r. destruct (sets_act a); congruence. }
  rewrite H5', H2, H5. destruct (Z.eqb_spec a 5) as [->|Hn].
  - rewrite (bool_decide_true (5 ∈ 5 :: acts)) by (by left). by case_bool_decide.
  - case_bool_decide as Hin; [by rewrite bool_decide_true by (by right)|]. rewrite bool_decide_false; [done|].
    intros [?|?]%elem_of_cons; [lia|done].
Qed.

Lemma exec_one a l : exec_actions str [a] l = exec_action str a l.
Proof. cbn [exec_actions]. by destruct (exec_action str a l). Qed.

(** A transition from a state where the token has begun. *)
Lemma take_trans_ok eof trans l t : trans_ok eof (cs l) trans = true -> 1 <= cs l < 40 -> parser_ok (parser l) ->
  ts l = Some t -> 0 <= t <= p l -> p l <= size -> (eof = false -> p l < size) -> (cs l <> 6 -> t < p l) ->
  (need_end (cs l) = true -> exists x, te l = Some x /\ t < x <= p l) -> (need_act (cs l) = true -> known_act (act l) = true) ->
  exists l', take_trans str trans l = Some l' /\ parser_ok (parser l') /\
    (cs l' = 0 \/ inv (at_pos (p l' + 1) l') /\ (if cs l' =? 6 then t < p l' + 1 else ts l' = Some t /\ p l' = p l)).
Proof.
  intros Htr Hcs Hp Ht Htp Hps Heof Hs Hneed Hact. unfold trans_ok in Htr. unfold take_trans.
  destruct (tab conf_lexer_trans_targs trans) as [s'|]; [|done]. destruct (trans_acts trans) as [acts|]; [|done].
  cbn [mbind option_bind]. destruct (Z.eqb_spec s' 6) as [->|Hs'].
  - assert (exists e m, ender_ok eof (cs l) e = true /\ parser m = parser l /\ ts m = ts l /\ te m = te l /\ p m = p l /\ cs m = 6 /\ act m = act l
      /\ exec_actions str acts (in_state 6 l) = exec_action str e m) as (e & m & He & M1 & M2 & M3 & M4 & M5 & M6 & E).
    { destruct acts as [|a [|e [|]]]; [done| | |done].
      - exists a, (in_state 6 l). split_and!; try done. apply exec_one.
      - apply andb_true_iff in Htr as [Ha He]. destruct (counter_step a (in_state 6 l) Ha) as [n En].
        exists e, (set_line n (in_state 6 l)). split_and!; try done. cbn [exec_actions]. rewrite En. apply exec_one. }
    destruct (ender_step eof e (cs l) m t He) as (l' & E' & Hcs' & Hp' & Hpos);
      rewrite ?M1, ?M2, ?M3, ?M4, ?M6; try done.
    rewrite E, E'. cbn [mbind option_bind]. rewrite to_state_eq by lia. rewrite Hcs', M5. cbn [Z.eqb Pos.eqb].
    exists (set_ts None l'). split_and!; [done|done|right]. cbn. rewrite Hcs', M5. cbn. split; [|lia].
    split_and!; cbn; [lia|lia|lia|lia|done|by rewrite Hcs', M5].
  - rewrite !andb_true_iff in Htr. destruct Htr as [[[[[Heof' H0] H40] Hin] Hnd] Hna]. bool_to_prop.
    specialize (Heof Heof').
    destruct (inner_steps acts (in_state s' l) Hin) as (l' & E & Hcs' & Hpl & Htl & Hpar & Hte & Hal). cbn in Hcs', Hpl, Htl, Hpar, Hte, Hal.
    rewrite E. cbn [mbind option_bind]. rewrite to_state_eq by lia. rewrite Hcs', (proj2 (Z.eqb_neq s' 6)) by done.
    exists l'. split_and!; [done|congruence|]. destruct (decide (s' = 0)) as [->|]; [by left|right].
    rewrite Hcs', (proj2 (Z.eqb_neq s' 6)) by done. split; [|split; congruence].
    split_and!; cbn; [lia|lia|lia|lia|congruence|]. intros _. exists t. split_and!; [congruence|lia|lia| |].
    2: { rewrite Hcs'. intros Hn. rewrite Hn in Hna. destruct (existsb sets_act acts); [done|].
         rewrite orb_false_r in Hna. rewrite Hal. by apply Hact. }
    rewrite Hcs'. intros Hn. rewrite Hn in Hnd. rewrite Hte. case_bool_decide as H5.
    + exists (p l + 1). split; [done|lia].
    + rewrite orb_false_r in Hnd. destruct (Hneed Hnd) as (x & Hx & ?). exists x. split; [done|lia].
Qed.

Lemma measure_decreases l l' t : 0 <= base l -> base l = t -> p l <= size -> inv l' ->
  (if cs l' =? 6 then t < p l' else ts l' = Some t /\ p l' = p l + 1) -> 0 <= measure l' < measure l.
Proof.
  intros Hb <- Hps (Hcs & Hp & _ & Hts) H. unfold measure. set (b := base l) in *. clearbody b. unfold base.
  destruct (cs l' =? 6) eqn:E; bool_to_prop.
  - assert ((size - p l') * (size + 2) <= (size - b - 1) * (size + 2)) by (apply Z.mul_le_mono_nonneg_r; lia).
    assert (0 <= (size - p l') * (size + 2)) by (apply Z.mul_nonneg_nonneg; lia). lia.
  - destruct H as [H1 H2]. rewrite H1. cbn [default]. destruct (Hts E) as (t & Et & Ht & _). simplify_eq.
    assert (0 <= (size - b) * (size + 2)) by (apply Z.mul_nonneg_nonneg; lia). unfold id. lia.
Qed.

Lemma lex_step_ok l : inv l -> exists r, lex_step str l = Some r /\ match r with
  | inl l' => parser_ok (parser l')
  | inr l' => inv l' /\ 0 <= measure l' < measure l
  end.
Proof.
  intros (Hcs & Hpos & Hpar & Htok). unfold lex_step. fold size.
  assert (0 <= base l /\ (cs l <> 6 -> ts l = Some (base l) /\ base l < p l
    /\ (need_end (cs l) = true -> exists e, te l = Some e /\ base l < e <= p l)
    /\ (need_act (cs l) = true -> known_act (act l) = true))) as [Hb Hb'].
  { unfold base. destruct (Z.eqb_spec (cs l) 6) as [E|Hn]; [by split; [lia|]|].
    destruct (Htok Hn) as (t & Et & Ht & Hne & Hna). rewrite Et. cbn. split; [lia|]. intros _. split_and!; [done|lia|done|done]. }
  assert (forall eof trans l1, cs l1 = cs l -> p l1 = p l -> parser l1 = parser l -> te l1 = te l -> ts l1 = Some (base l) -> act l1 = act l ->
      trans_ok eof (cs l) trans = true -> (eof = false -> p l < size) ->
      exists r, ((fun l => if cs l =? 0 then inl l else inr (at_pos (p l + 1) l)) <$> take_trans str trans l1) = Some r /\ match r with
        | inl l' => parser_ok (parser l')
        | inr l' => inv l' /\ 0 <= measure l' < measure l
        end) as Htake.
  { intros eof trans l1 E1 E2 E3 E4 E5 E6 Htr Heof.
    destruct (take_trans_ok eof trans l1 (base l)) as (l' & E & Hp' & Hcase); rewrite ?E1, ?E2, ?E3, ?E4, ?E6; try done.
    - split; [done|]. destruct (Z.eqb_spec (cs l) 6) as [Ec|Hn]; [unfold base; rewrite Ec; cbn; lia|]. by destruct (Hb' Hn) as (_ & ? & _); lia.
    - lia.
    - intros Hn. by destruct (Hb' Hn) as (_ & ? & _).
    - intros Hn. destruct (decide (cs l = 6)) as [Ec|Hn']; [by rewrite Ec in Hn|]. by apply (Hb' Hn').
    - intros Hn. destruct (decide (cs l = 6)) as [Ec|Hn']; [by rewrite Ec in Hn|]. by apply (Hb' Hn').
    - rewrite E. cbn. destruct (Z.eqb_spec (cs l') 0) as [E0|Hn0]; [by eexists|].
      eexists. split; [done|]. destruct Hcase as [?|[Hinv Hcase]]; [done|]. split; [done|].
      apply (measure_decreases _ _ (base l)); try done; [lia|]. cbn. destruct (cs l' =? 6); [lia|]. destruct Hcase. split; [done|lia]. }
  destruct (Z.eqb_spec (p l) size) as [Ep|Hnp].
  - destruct (decide (cs l = 6)) as [Ec|Hn]; [rewrite Ec; by eexists|].
    pose proof (eof_ok_state _ Hcs) as He. unfold eof_ok in He. destruct (tab conf_lexer_eof_trans (cs l)) as [e|]; [|done].
    cbn [mbind option_bind]. destruct (e >? 0); [|by eexists].
    apply (Htake true); try done. by destruct (Hb' Hn).
  - rewrite from_state_eq by done. cbn [mbind option_bind].
    set (l1 := if cs l =? 6 then set_ts (Some (p l)) l else l).
    assert (cs l1 = cs l /\ p l1 = p l /\ parser l1 = parser l /\ te l1 = te l /\ ts l1 = Some (base l) /\ act l1 = act l) as (E1 & E2 & E3 & E4 & E5 & E6).
    { subst l1. destruct (Z.eqb_spec (cs l) 6) as [E|Hn]; [by unfold base; rewrite E|]. split_and!; try done. by apply Hb'. }
    clearbody l1. destruct (char_at_ok (p l1)) as (c & Ec & Hc); [lia|]. rewrite Ec. cbn [mbind option_bind].
    destruct (trans_ok_char (cs l1) c) as (trans & Etr & Htr); [lia|done|]. rewrite Etr. cbn [mbind option_bind].
    apply (Htake false); try done; [by rewrite <- E1|lia].
Qed.

Lemma lex_run_ok fuel : forall l, inv l -> measure l < Z.of_nat fuel ->
  exists l', lex_run str fuel l = Some l' /\ parser_ok (parser l').
Proof.
  induction fuel as [|fuel IH]; intros l Hl Hm.
  { destruct (lex_step_ok l Hl) as (r & _ & H). destruct Hl as ((? & ?) & ? & _ & Hts).
    assert (base l <= size).
    { unfold base. destruct (Z.eqb_spec (cs l) 6) as [|Hn]; [lia|]. destruct (Hts Hn) as (t & -> & ? & _). cbn. lia. }
    assert (0 <= (size - base l) * (size + 2)) by (apply Z.mul_nonneg_nonneg; lia). unfold measure in Hm. lia. }
  cbn [lex_run]. destruct (lex_step_ok l Hl) as (r & -> & Hr). cbn [mbind option_bind].
  destruct r as [l'|l']; [by exists l'|]. destruct Hr as [Hi Hr]. apply IH; [done|lia].
Qed.

Lemma lex_run_more fuel : forall l r, lex_run str fuel l = Some r -> lex_run str (S fuel) l = Some r.
Proof.
  induction fuel as [|fuel IH]; intros l r; [done|]. intros H. change (lex_run str (S fuel) l) with
    (r ← lex_step str l; match r with inl l => Some l | inr l => lex_run str fuel l end) in H.
  change (lex_run str (S (S fuel)) l) with
    (r ← lex_step str l; match r with inl l => Some l | inr l => lex_run str (S fuel) l end).
  destruct (lex_step str l) as [[l'|l']|]; cbn [mbind option_bind] in *; [done|by apply IH|done].
Qed.

Lemma lex_run_total l : inv l -> measure l <= (size + 1) * (size + 2) - 1 ->
  exists l', lex_run str (lex_fuel str) l = Some l' /\ parser_ok (parser l').
Proof.
  intros Hi Hm. apply lex_run_ok; [done|]. unfold lex_fuel. unfold size, pe in *. lia.
Qed.
End scan.

(** ** The whole *)

Lemma ParseConfig_ok str : exists c, ParseConfig str = Some c /\
  (ctx_success c = true -> exists conf store, ctx_conf c = Some conf /\ kc_store conf = Some store /\ well_formed store = true).
Proof.
  unfold ParseConfig. destruct str as [|x l]; [by eexists|]. set (str := x :: l) in *.
  destruct (lex_run_total str new_Lexer) as (m & -> & Hm).
  { split_and!; [done|done|cbn; done|unfold pe; cbn; lia|by left|done]. }
  { unfold measure, base. cbn. lia. }
  cbn [mbind option_bind].
  assert (exists c, (if cs m <? conf_lexer_first_final then Some (failed (syntax_text (line m)) (ctx m))
    else '(_, c) ← Parse 0 None (line m) (parser m) (ctx m); Some c) = Some c /\ conf_present c) as (c & -> & Hc).
  { destruct (cs m <? conf_lexer_first_final); [by eexists|].
    destruct (Parse_ok 0 None (line m) (parser m) (ctx m) Hm) as (y & c & -> & _ & Hc).
    - split; [lia|]. rewrite !elem_of_cons. intros [?|[?|?%not_elem_of_nil]]; done.
    - cbn. exists c. by split; [|apply Hc]. }
  cbn [mbind option_bind]. destruct (ctx_success c) eqn:Es; [|by exists c; rewrite Es].
  specialize (Hc Es). destruct (ctx_conf c) as [conf|]; [|done]. cbn [mbind option_bind].
  unfold CheckKidsConfig. destruct (kc_store conf) as [s|] eqn:Ek.
  - pose proof (CheckStoreConfig_ok s c) as Hs. destruct (CheckStoreConfig s c) as [[ok s'] c'].
    destruct Hs as (_ & _ & _ & Hw & _). eexists. split; [done|]. cbn. intros ->. destruct Hw as [Hw _]. by eexists _, _.
  - eexists. split; [done|]. cbn. intros _. by eexists _, _.
Qed.

(** C38. On every text the scanner and the parser end without undefined behaviour, inside their
    tables, their stack and the text, and when they report success there is a configuration with a
    well-formed store. *)
Theorem ParseConfig_total content : exists c, ParseConfigFile content = Some c /\
  (ctx_success c = true -> exists conf store, ctx_conf c = Some conf /\ kc_store conf = Some store /\ well_formed store = true).
Proof. apply ParseConfig_ok. Qed.
