(* ===== verification/ParserMemory.v ===== *)
(** * parser.c: the memory of the parser

    The parser of Parser.v on the heap: tokens, values, settings and
    configurations are objects that the actions allocate, read and delete
    through the pointers of the stack, with the destructors that lemon
    generated.  Reading or deleting an object that is not there any more, or is
    of another class, is undefined ([None]); addresses are never used again, so
    that a pointer that dangles is always seen.

    The pointers compute the values of Parser.v, nothing is deleted twice or
    read after it was deleted, and of a file that is accepted only its
    configuration is left, which [delete ctx] frees. *)

From S2P Require Import Prelude Common Util Conf Parser Lexer.

(** ** The heap *)

Abbreviation ptr := positive.

(** [OKidsConfig] has the fields of a configuration, its store apart. *)
Inductive object : Type :=
| OToken (t : Token)
| OValues (l : list bytes)
| OKeyValue (kv : KeyValue)
| OStoreConfig (f : store_fields) (stores : list ptr)
| OKidsConfig (c : KidsConfig) (store : option ptr).

Record memory := Memory { objects : gmap ptr object; unused : ptr }.

Definition M (A : Type) : Type := memory -> option (A * memory).
#[export] Instance memory_ret : MRet M := fun A x m => Some (x, m).
#[export] Instance memory_bind : MBind M := fun A B f c m => '(x, m) ← c m; f x m.

Definition undefined {A} : M A := fun _ => None.
Definition lift {A} (o : option A) : M A := fun m => a ← o; Some (a, m).

Definition new (o : object) : M ptr := fun m => Some (unused m, Memory (<[unused m := o]> (objects m)) (Pos.succ (unused m))).

(** What a pointer points to, as an object of the class that [cast] takes. *)
Definition get {A} (cast : object -> option A) (p : option ptr) : M A := fun m => q ← p; o ← objects m !! q; x ← cast o; Some (x, m).
Definition set (p : option ptr) (o : object) : M unit := fun m =>
  q ← p; _ ← objects m !! q; Some (tt, Memory (<[q := o]> (objects m)) (unused m)).
Definition release (p : ptr) : M unit := fun m =>
  _ ← objects m !! p; Some (tt, Memory (delete p (objects m)) (unused m)).

Definition as_token (o : object) : option Token := match o with OToken t => Some t | _ => None end.
Definition as_values (o : object) : option (list bytes) := match o with OValues l => Some l | _ => None end.
Definition as_keyvalue (o : object) : option KeyValue := match o with OKeyValue kv => Some kv | _ => None end.
Definition as_store (o : object) : option (store_fields * list ptr) :=
  match o with OStoreConfig f l => Some (f, l) | _ => None end.
Definition as_kids (o : object) : option (KidsConfig * option ptr) :=
  match o with OKidsConfig c s => Some (c, s) | _ => None end.

(** [delete] of an object without a destructor of its own. *)
Definition delete_plain {A} (cast : object -> option A) (p : option ptr) : M unit :=
  match p with None => mret tt | Some q => get cast p ;; release q end.

(** [~StoreConfig] deletes the stores first. *)
Fixpoint delete_stores (fuel : nat) (l : list ptr) : M unit :=
  match fuel, l with
  | _, [] => mret tt
  | O, _ => undefined
  | S fuel, p :: l =>
      '(_, stores) ← get as_store (Some p);
      delete_stores fuel stores ;; release p ;; delete_stores fuel l
  end.

(** As much fuel as there are objects. *)
Definition delete_store (p : option ptr) : M unit :=
  match p with None => mret tt | Some p => fun m => delete_stores (size (objects m)) [p] m end.
Definition delete_kids (p : option ptr) : M unit :=
  match p with
  | None => mret tt
  | Some q => '(_, s) ← get as_kids p; delete_store s ;; release q
  end.

(** ** The context and the stack *)

(** [ParseContext] with its configuration behind a pointer. *)
Record context := Context { cx : ParseContext; cx_conf : option ptr }.
Definition new_context : context := Context new_ParseContext None.
Definition failing (text : bytes) (c : context) : context := Context (failed text (cx c)) (cx_conf c).

Record entry := Slot { slot_state : Z; slot_major : Z; slot_ptr : option ptr }.
Record parser := Machine { slots : list entry; errcnt_ : Z }.

(** ** Destructors *)

Definition yy_destructor (maj : Z) (p : option ptr) : M unit :=
  if (1 <=? maj) && (maj <=? 8) then delete_plain as_token p else mret tt.
Definition yy_pop_parser_stack (e : entry) : M unit := yy_destructor (slot_major e) (slot_ptr e).
Fixpoint pop_all (l : list entry) : M unit :=
  match l with [] => mret tt | e :: l => yy_pop_parser_stack e ;; pop_all l end.

(** ** Actions *)

Definition SetKidsConf (c kv : option ptr) (line : Z) (x : context) : M context :=
  '(k, s) ← get as_kids c; v ← get as_keyvalue kv;
  let '(k, e) := SetKidsConfValue k v line (cx x) in
  set c (OKidsConfig k s) ;; mret (Context e (cx_conf x)).

Definition SetStoreConf (c kv : option ptr) (line : Z) (x : context) : M context :=
  '(f, l) ← get as_store c; v ← get as_keyvalue kv;
  let '(s, e) := SetStoreConfValue (MkStoreConfig f []) v line (cx x) in
  set c (OStoreConfig (sc_fields s) l) ;; mret (Context e (cx_conf x)).

(** [conf] and what it is made of; the pointers of the right-hand side, the
    last symbol first. *)
Definition reduce_conf (rule : nat) (rhs : list (option ptr)) (line : Z) (x : context) : M (option ptr * context) :=
  match rule, rhs with
  | 0%nat, [c] => mret (None, Context (cx x) c)
  | 1%nat, [v] => t ← get as_token v; p ← new (OValues [tk_value t]); delete_plain as_token v ;; mret (Some p, x)
  | 2%nat, [v; l] =>
      t ← get as_token v; vs ← get as_values l; set l (OValues (vs ++ [tk_value t])) ;;
      delete_plain as_token v ;; mret (l, x)
  | 3%nat, [s; l; k] =>
      t ← get as_token k; vs ← get as_values l; p ← new (OKeyValue (MkKeyValue (tk_value t) vs));
      delete_plain as_token k ;; delete_plain as_values l ;; yy_destructor TK_SEMICOLON s ;; mret (Some p, x)
  | 4%nat, [kv] =>
      p ← new (OKidsConfig new_KidsConfig None); x ← SetKidsConf (Some p) kv line x;
      delete_plain as_keyvalue kv ;; mret (Some p, x)
  | (5 | 14 | 17)%nat, [kv; c] => x ← SetKidsConf c kv line x; delete_plain as_keyvalue kv ;; mret (c, x)
  | (6 | 10)%nat, [c] => mret (c, x)
  | 7%nat, [c; a] =>
      '(ka, s) ← get as_kids a;
      x ← (if negb (bool_decide (kc_listen_socket ka = [])) || negb (bool_decide (kc_listen_host ka = []))
           then mret (failing ERR_MULTI_LISTEN_HOST x)
           else '(kc, _) ← get as_kids c; set a (OKidsConfig (copy_listen ka kc) s) ;; mret x);
      delete_kids c ;; mret (a, x)
  | 8%nat, [s] => p ← new (OKidsConfig new_KidsConfig s); mret (Some p, x)
  | 9%nat, [s; a] =>
      '(ka, t) ← get as_kids a;
      match t with
      | Some _ => delete_store s ;; mret (a, failing ERR_MULTI_STORE x)
      | None => set a (OKidsConfig ka s) ;; mret (a, x)
      end
  | 11%nat, [c; a] =>
      '(ka, s) ← get as_kids a; '(kc, _) ← get as_kids c;
      set a (OKidsConfig (copy_log ka kc) s) ;; delete_kids c ;; mret (a, x)
  | _, _ => undefined
  end.

(** [log] and [listen]. *)
Definition reduce_block (rule : nat) (rhs : list (option ptr)) (line : Z) (x : context) : M (option ptr * context) :=
  match rule, rhs with
  | 12%nat, [r; c; l; k] => yy_destructor TK_LOG k ;; yy_destructor TK_LP l ;; yy_destructor TK_RP r ;; mret (c, x)
  | 15%nat, [r; c; l; k] => yy_destructor TK_LISTEN k ;; yy_destructor TK_LP l ;; yy_destructor TK_RP r ;; mret (c, x)
  | (13 | 16)%nat, [kv] =>
      p ← new (OKidsConfig new_KidsConfig None); x ← SetKidsConf (Some p) kv line x;
      delete_plain as_keyvalue kv ;; mret (Some p, x)
  | _, _ => undefined
  end.

(** [if (C != NULL) A->buffer_type = C->value; else A->buffer_type.clear();] *)
Definition buffer_text (c : option ptr) : M bytes :=
  match c with None => mret [] | Some _ => t ← get as_token c; mret (tk_value t) end.

(** [store] and what it is made of. *)
Definition reduce_store (rule : nat) (rhs : list (option ptr)) (line : Z) (x : context) : M (option ptr * context) :=
  match rule, rhs with
  | 18%nat, [r; d; l; c; b; k] =>
      '(f, stores) ← get as_store d; t ← get as_token b; v ← buffer_text c;
      set d (OStoreConfig (set_type (tk_value t) v f) stores) ;;
      delete_plain as_token b ;; delete_plain as_token c ;;
      yy_destructor TK_STORE k ;; yy_destructor TK_LP l ;; yy_destructor TK_RP r ;; mret (d, x)
  | 19%nat, [r; l; c; b; k] =>
      t ← get as_token b; v ← buffer_text c; p ← new (OStoreConfig (set_type (tk_value t) v no_fields) []);
      delete_plain as_token b ;; delete_plain as_token c ;;
      yy_destructor TK_STORE k ;; yy_destructor TK_LP l ;; yy_destructor TK_RP r ;; mret (Some p, x)
  | 20%nat, [t] => mret (t, x)
  | 21%nat, [] => mret (None, x)
  | 22%nat, [kv] =>
      p ← new (OStoreConfig no_fields []); x ← SetStoreConf (Some p) kv line x;
      delete_plain as_keyvalue kv ;; mret (Some p, x)
  | 23%nat, [kv; c] => x ← SetStoreConf c kv line x; delete_plain as_keyvalue kv ;; mret (c, x)
  | 24%nat, [Some s] => p ← new (OStoreConfig no_fields [s]); mret (Some p, x)
  | 25%nat, [Some s; c] => '(f, l) ← get as_store c; set c (OStoreConfig f (l ++ [s])) ;; mret (c, x)
  | _, _ => undefined
  end.

Definition reduce (rule : nat) (rhs : list (option ptr)) (line : Z) (x : context) : M (option ptr * context) :=
  if (rule <? 12)%nat || (rule =? 14)%nat || (rule =? 17)%nat then reduce_conf rule rhs line x
  else if (rule <? 18)%nat then reduce_block rule rhs line x else reduce_store rule rhs line x.

(** ** The driver *)

(** A full stack is emptied, and what was to be shifted is lost. *)
Definition yyStackOverflow (stack : list entry) (line : Z) (x : context) : M (list entry * context) :=
  pop_all stack ;; mret ([], failing (overflow_text line) x).

Definition yy_shift (stack : list entry) (state maj : Z) (p : option ptr) (line : Z) (x : context) : M (list entry * context) :=
  if (YYSTACKDEPTH <=? length stack)%nat then yyStackOverflow stack line x
  else mret (Slot state maj p :: stack, x).

(** Accepting empties the stack too. *)
Definition yy_accept (stack : list entry) (x : context) : M (list entry * context) := pop_all stack ;; mret ([], x).

Definition yy_reduce (stack : list entry) (rule : Z) (line : Z) (x : context) : M (list entry * context) :=
  '(lhs, n) ← lift (yyRuleInfo !! Z.to_nat rule);
  '(p, x) ← reduce (Z.to_nat rule) (map slot_ptr (take n stack)) line x;
  let stack := drop n stack in
  below ← lift (head stack);
  act ← lift (yy_find_reduce_action (slot_state below) lhs);
  if act <? YYNSTATE then yy_shift stack act lhs p line x
  else if act =? YY_ACCEPT_ACTION then yy_accept stack x
  else undefined.

Definition yy_syntax_error (p : option ptr) (line : Z) (x : context) : M context :=
  match p with
  | Some _ => t ← get as_token p; mret (failing (syntax_text line ++ bs ": " ++ cstr (tk_value t)) x)
  | None => mret (failing (syntax_text line) x)
  end.

Definition yy_parse_failed (stack : list entry) (line : Z) (x : context) : M context :=
  pop_all stack ;; mret (failing (syntax_text line) x).

Fixpoint parse_loop (fuel : nat) (stack : list entry) (errcnt : Z) (yymajor : Z) (yyminor : option ptr) (line : Z) (x : context)
  : M (parser * context) :=
  match fuel with
  | O => undefined
  | S fuel =>
      top ← lift (head stack);
      act ← lift (yy_find_shift_action (slot_state top) yymajor);
      if act <? YYNSTATE then
        if yymajor =? 0 then undefined
        else '(stack, x) ← yy_shift stack act yymajor yyminor line x; mret (Machine stack (errcnt - 1), x)
      else if act <? YYNSTATE + YYNRULE then
        '(stack, x) ← yy_reduce stack (act - YYNSTATE) line x;
        match stack with
        | [] => mret (Machine [] errcnt, x)
        | _ => parse_loop fuel stack errcnt yymajor yyminor line x
        end
      else if act =? YY_ERROR_ACTION then
        x ← (if errcnt <=? 0 then yy_syntax_error yyminor line x else mret x);
        yy_destructor yymajor yyminor ;;
        if yymajor =? 0 then x ← yy_parse_failed stack line x; mret (Machine [] 3, x)
        else mret (Machine stack 3, x)
      else undefined
  end.

Definition Parse (yymajor : Z) (yyminor : option ptr) (line : Z) (p : parser) (x : context) : M (parser * context) :=
  let p := match slots p with [] => Machine [Slot 0 0 None] (-1) | _ => p end in
  parse_loop parse_fuel (slots p) (errcnt_ p) yymajor yyminor line x.

Definition ParseFree (p : parser) : M unit := pop_all (slots p).

(** ** A file *)

Definition new_token (t : option Token) : M (option ptr) :=
  match t with None => mret None | Some t => p ← new (OToken t); mret (Some p) end.

(** The scanner makes each token and gives it to the parser. *)
Fixpoint parse_all (l : list (Z * option Token * Z)) (p : parser) (x : context) : M (parser * context) :=
  match l with
  | [] => mret (p, x)
  | (maj, t, line) :: l => q ← new_token t; '(p, x) ← Parse maj q line p x; parse_all l p x
  end.

(** What [ParseConfig] does with the tokens of a file; [ends] tells whether the
    text ended after a whole token. *)
Definition parse_file (l : list (Z * option Token * Z)) (ends : bool) (line : Z) : M context :=
  '(p, x) ← parse_all l (Machine [] (-1)) new_context;
  '(p, x) ← (if ends then Parse 0 None line p x else mret (p, failing (syntax_text line) x));
  ParseFree p ;; mret x.

(** [delete ctx] *)
Definition delete_context (x : context) : M unit := delete_kids (cx_conf x).

(** The same on values. *)
Definition parse_values (l : list (Z * option Token * Z)) (ends : bool) (line : Z) : option ParseContext :=
  '(p, c) ← parse_tokens l ParseAlloc new_ParseContext;
  if ends then '(_, c) ← Parser.Parse 0 None line p c; Some c else Some (failed (syntax_text line) c).

(** ** What is on the heap *)

Abbreviation cell := (ptr * object)%type.

(** The heap is exactly these objects. *)
Definition holds (m : memory) (c : list cell) : Prop :=
  map_to_list (objects m) ≡ₚ c /\ forall p, is_Some (objects m !! p) -> (p < unused m)%positive.

(** [x] is defined where the heap is [c]. *)
Definition wp {A} (x : M A) (c : list cell) (Q : A -> list cell -> Prop) : Prop :=
  forall m, holds m c -> exists a m' c', x m = Some (a, m') /\ holds m' c' /\ Q a c'.

Lemma holds_perm m c c' : c ≡ₚ c' -> holds m c -> holds m c'.
Proof. intros E [H1 H2]. split; [by rewrite H1|done]. Qed.

Lemma holds_lookup m p o c : holds m ((p, o) :: c) -> objects m !! p = Some o.
Proof. intros [H _]. apply elem_of_map_to_list. rewrite H. by left. Qed.

Lemma holds_delete m p o c : holds m ((p, o) :: c) -> map_to_list (delete p (objects m)) ≡ₚ c.
Proof.
  intros Hm. pose proof (holds_lookup _ _ _ _ Hm) as Hp. destruct Hm as [Hm _]. apply (Permutation.Permutation_cons_inv (a := (p, o))).
  by rewrite <- Hm, map_to_list_delete.
Qed.

Lemma wp_perm {A} (x : M A) c c' Q : c ≡ₚ c' -> wp x c' Q -> wp x c Q.
Proof. intros E H m Hm. apply H. by eapply holds_perm. Qed.

Lemma heap_wp_mono {A} (x : M A) c (Q Q' : A -> list cell -> Prop) : (forall a c', Q a c' -> Q' a c') -> wp x c Q -> wp x c Q'.
Proof. intros HQ H m Hm. destruct (H m Hm) as (a & m' & c' & E & Hm' & Ha). exists a, m', c'. eauto. Qed.

Lemma heap_wp_ret {A} (a : A) c (Q : A -> list cell -> Prop) : Q a c -> wp (mret a) c Q.
Proof. intros HQ m Hm. by exists a, m, c. Qed.

Lemma heap_wp_bind {A B} (x : M A) (f : A -> M B) c Q : wp x c (fun a c' => wp (f a) c' Q) -> wp (x ≫= f) c Q.
Proof.
  intros H m Hm. destruct (H m Hm) as (a & m1 & c1 & E & Hm1 & Hf). destruct (Hf m1 Hm1) as (b & m2 & c2 & E2 & Hm2 & HQ).
  exists b, m2, c2. split; [|done]. unfold mbind, memory_bind. rewrite E. exact E2.
Qed.

Lemma heap_wp_lift {A} (o : option A) a c Q : o = Some a -> Q a c -> wp (lift o) c Q.
Proof. intros -> HQ m Hm. by exists a, m, c. Qed.

Lemma wp_new o c (Q : ptr -> list cell -> Prop) : (forall p, Q p ((p, o) :: c)) -> wp (new o) c Q.
Proof.
  intros HQ m [Hm Hu]. exists (unused m). eexists _, _. split; [reflexivity|]. split; [|apply HQ].
  assert (objects m !! unused m = None) as Hn.
  { apply eq_None_not_Some. intros Hs. specialize (Hu _ Hs). lia. }
  split; cbn; [by rewrite map_to_list_insert, Hm|]. intros p Hp. destruct (decide (p = unused m)) as [->|Hne]; [lia|].
  rewrite lookup_insert_ne in Hp by done. specialize (Hu _ Hp). lia.
Qed.

Lemma wp_get {A} (cast : object -> option A) p o a c c' Q : c ≡ₚ (p, o) :: c' -> cast o = Some a -> Q a c -> wp (get cast (Some p)) c Q.
Proof.
  intros E Ha HQ m Hm. exists a, m, c. split; [|done]. unfold get. cbn [mbind option_bind].
  rewrite (holds_lookup m p o c') by (by eapply holds_perm). cbn [mbind option_bind]. by rewrite Ha.
Qed.

Lemma wp_set p o o' c c' Q : c ≡ₚ (p, o) :: c' -> Q tt ((p, o') :: c') -> wp (set (Some p) o') c Q.
Proof.
  intros E HQ m Hm. apply (holds_perm _ _ _ E) in Hm. pose proof (holds_lookup _ _ _ _ Hm) as Hp. eexists tt, _, _.
  split; [unfold set; cbn [mbind option_bind]; by rewrite Hp|]. split; [|exact HQ]. split; cbn.
  - rewrite <- (insert_delete_id _ _ _ Hp) at 1. rewrite insert_insert, decide_True by done.
    rewrite map_to_list_insert by apply lookup_delete_eq. by rewrite (holds_delete _ _ _ _ Hm).
  - intros q Hq. apply (proj2 Hm). destruct (decide (q = p)) as [->|Hne]; [by rewrite Hp|]. by rewrite lookup_insert_ne in Hq.
Qed.

Lemma wp_release p o c c' Q : c ≡ₚ (p, o) :: c' -> Q tt c' -> wp (release p) c Q.
Proof.
  intros E HQ m Hm. apply (holds_perm _ _ _ E) in Hm. pose proof (holds_lookup _ _ _ _ Hm) as Hp. eexists tt, _, _.
  split; [unfold release; by rewrite Hp|]. split; [|exact HQ]. split; cbn; [by eapply holds_delete|].
  intros q Hq. apply (proj2 Hm). destruct (decide (q = p)) as [->|Hne]; [by rewrite lookup_delete_eq in Hq; destruct Hq|].
  by rewrite lookup_delete_ne in Hq.
Qed.

Lemma wp_delete_plain {A} (cast : object -> option A) p o a c c' Q : c ≡ₚ (p, o) :: c' -> cast o = Some a -> Q tt c' ->
  wp (delete_plain cast (Some p)) c Q.
Proof. intros E Ha HQ. cbn [delete_plain]. apply heap_wp_bind. eapply wp_get; [exact E|exact Ha|]. by eapply wp_release. Qed.

(** ** What the pointers of a stack stand for *)

Inductive store : Type := StoreAt (p : ptr) (f : store_fields) (l : list store).

Definition store_ptr (s : store) : ptr := let 'StoreAt p _ _ := s in p.
Fixpoint store_value (s : store) : StoreConfig := let 'StoreAt _ f l := s in MkStoreConfig f (map store_value l).
Fixpoint store_cells (s : store) : list cell :=
  let 'StoreAt p f l := s in (p, OStoreConfig f (map store_ptr l)) :: concat (map store_cells l).

Inductive item : Type :=
| INull
| IToken (t : option (ptr * Token))
| IValues (p : ptr) (l : list bytes)
| IKeyValue (p : ptr) (kv : KeyValue)
| IStore (s : store)
| IKids (p : ptr) (c : KidsConfig) (s : option store).

Definition item_value (i : item) : minor :=
  match i with
  | INull => yyzero
  | IToken t => yy0 (snd <$> t)
  | IValues _ l => yy31 l
  | IKeyValue _ kv => yy25 kv
  | IStore s => yy6 (store_value s)
  | IKids _ c s => yy32 (with_kc_store (store_value <$> s) c)
  end.

Definition store_addr (s : option store) : option ptr := match s with Some s => Some (store_ptr s) | None => None end.

Definition item_ptr (i : item) : option ptr :=
  match i with
  | INull | IToken None => None
  | IToken (Some (p, _)) => Some p
  | IValues p _ | IKeyValue p _ | IKids p _ _ => Some p
  | IStore s => Some (store_ptr s)
  end.

Definition stores_cells (s : option store) : list cell := match s with Some s => store_cells s | None => [] end.
Definition item_cells (i : item) : list cell :=
  match i with
  | INull | IToken None => []
  | IToken (Some (p, t)) => [(p, OToken t)]
  | IValues p l => [(p, OValues l)]
  | IKeyValue p kv => [(p, OKeyValue kv)]
  | IStore s => store_cells s
  | IKids p c s => (p, OKidsConfig c (store_addr s)) :: stores_cells s
  end.

(** Deleting a tree of stores deletes each of them. *)
Lemma wp_delete_stores fuel : forall (l : list store) c R Q, (length (concat (map store_cells l)) <= fuel)%nat ->
  c ≡ₚ concat (map store_cells l) ++ R -> (forall c', c' ≡ₚ R -> Q tt c') -> wp (delete_stores fuel (map store_ptr l)) c Q.
Proof.
  induction fuel as [|fuel IH]; intros l c R Q Hf Hc HQ.
  - destruct l as [|[p f k] l]; [|cbn in Hf; lia]. apply heap_wp_ret. apply HQ. by rewrite Hc.
  - destruct l as [|[p f k] l]; [apply heap_wp_ret; apply HQ; by rewrite Hc|]. cbn [map store_ptr delete_stores store_cells concat] in *.
    cbn [length app] in Hf, Hc. rewrite length_app in Hf.
    apply heap_wp_bind. eapply wp_get; [exact Hc|reflexivity|]. cbn beta iota. apply heap_wp_bind.
    apply (IH k _ ((p, OStoreConfig f (map store_ptr k)) :: concat (map store_cells l) ++ R)); [lia| |].
    { rewrite Hc. solve_Permutation. }
    intros c1 Hc1. apply heap_wp_bind. eapply wp_release; [exact Hc1|]. apply (IH l _ R); [lia|done|exact HQ].
Qed.

Lemma wp_delete_store (s : option store) c R Q : c ≡ₚ stores_cells s ++ R -> (forall c', c' ≡ₚ R -> Q tt c') ->
  wp (delete_store (store_addr s)) c Q.
Proof.
  intros Hc HQ. destruct s as [s|]; cbn [store_addr delete_store]; [|apply heap_wp_ret, HQ; exact Hc].
  intros m Hm. refine (wp_delete_stores _ [s] c R Q _ _ HQ m Hm); cbn [map concat]; rewrite app_nil_r; [|exact Hc].
  destruct Hm as [Hm _]. apply Permutation_length in Hm. rewrite length_map_to_list in Hm. rewrite Hm, Hc, length_app. cbn. lia.
Qed.

Lemma wp_delete_kids p k (s : option store) c c' R Q : c ≡ₚ (p, OKidsConfig k (store_addr s)) :: c' -> c' ≡ₚ stores_cells s ++ R ->
  (forall c', c' ≡ₚ R -> Q tt c') -> wp (delete_kids (Some p)) c Q.
Proof.
  intros Hc Hc' HQ. cbn [delete_kids]. apply heap_wp_bind. eapply wp_get; [exact Hc|reflexivity|]. cbn beta iota. apply heap_wp_bind.
  eapply (wp_delete_store s _ ((p, OKidsConfig k (store_addr s)) :: R)); [rewrite Hc, Hc'; solve_Permutation|].
  intros c1 Hc1. eapply wp_release; [exact Hc1|]. by apply HQ.
Qed.

(** ** The actions compute the values *)

(** Finding a cell, or a tree, among those of the heap. *)
Lemma own_here {A} (l c : list A) : l ++ c ≡ₚ l ++ c.
Proof. done. Qed.
Lemma own_cell {A} (x : A) c : x :: c ≡ₚ [x] ++ c.
Proof. done. Qed.
Lemma own_next {A} (l c c' : list A) y : c ≡ₚ l ++ c' -> y :: c ≡ₚ l ++ y :: c'.
Proof. intros ->. solve_Permutation. Qed.
Lemma own_app {A} (l k c c' : list A) : c ≡ₚ l ++ c' -> k ++ c ≡ₚ l ++ (k ++ c').
Proof. intros ->. solve_Permutation. Qed.

Ltac find_cells := first [apply own_cell | apply own_here | apply own_next; find_cells | apply own_app; find_cells].
Ltac own :=
  cbn [app];
  lazymatch goal with
  | |- _ ≡ₚ ?x :: ?c => change (x :: c) with ([x] ++ c); find_cells
  | |- _ => find_cells
  end.

Lemma wp_SetKidsConf p k s q kv line x c c' Q : c ≡ₚ (p, OKidsConfig k s) :: (q, OKeyValue kv) :: c' ->
  (let '(k', e) := SetKidsConfValue k kv line (cx x) in
   Q (Context e (cx_conf x)) ((p, OKidsConfig k' s) :: (q, OKeyValue kv) :: c')) -> wp (SetKidsConf (Some p) (Some q) line x) c Q.
Proof.
  intros E HQ. unfold SetKidsConf. apply heap_wp_bind. eapply wp_get; [exact E|reflexivity|]. cbn beta iota.
  apply heap_wp_bind. eapply wp_get; [rewrite E; own|reflexivity|]. cbn beta.
  destruct (SetKidsConfValue k kv line (cx x)) as [k' e]. apply heap_wp_bind. eapply wp_set; [exact E|]. by apply heap_wp_ret.
Qed.

Lemma wp_SetStoreConf p f l q kv line x c c' Q : c ≡ₚ (p, OStoreConfig f l) :: (q, OKeyValue kv) :: c' ->
  (let '(s, e) := SetStoreConfValue (MkStoreConfig f []) kv line (cx x) in
   Q (Context e (cx_conf x)) ((p, OStoreConfig (sc_fields s) l) :: (q, OKeyValue kv) :: c')) -> wp (SetStoreConf (Some p) (Some q) line x) c Q.
Proof.
  intros E HQ. unfold SetStoreConf. apply heap_wp_bind. eapply wp_get; [exact E|reflexivity|]. cbn beta iota.
  apply heap_wp_bind. eapply wp_get; [rewrite E; own|reflexivity|]. cbn beta.
  destruct (SetStoreConfValue _ kv line (cx x)) as [k' e]. apply heap_wp_bind. eapply wp_set; [exact E|]. by apply heap_wp_ret.
Qed.

(** A setting does not touch the store of a configuration, nor the stores in a
    store. *)
Lemma set_limit_store t hard soft seconds c s :
  set_limit t hard soft seconds (with_kc_store s c) = let '(c, ok) := set_limit t hard soft seconds c in (with_kc_store s c, ok).
Proof. unfold set_limit. by repeat (case_match; simplify_eq/=). Qed.

Lemma SetKidsConfValue_store c s kv line ctx :
  SetKidsConfValue (with_kc_store s c) kv line ctx = let '(c, e) := SetKidsConfValue c kv line ctx in (with_kc_store s c, e).
Proof.
  destruct c as [c1 c2 c3 c4 c5 c6 c7 c8 lim st]. unfold SetKidsConfValue, with_kc_store at 1. cbn [kc_listen_socket kc_listen_host kc_listen_port
    kc_log_level kc_log_file kc_max_clients kc_worker_threads kc_ignore_case kc_nlimit].
  repeat (case_bool_decide; [done|]). case_bool_decide; [|done].
  destruct (kv_value kv) as [|mode [|hard [|soft [|seconds [|]]]]]; try done. destruct (limit_type_of mode); [|done].
  rewrite set_limit_store. destruct (set_limit _ _ _ _ _) as [c ok]. by destruct ok.
Qed.

Lemma SetStoreConfValue_stores f l kv line ctx : SetStoreConfValue (MkStoreConfig f l) kv line ctx =
  let '(s, e) := SetStoreConfValue (MkStoreConfig f []) kv line ctx in (MkStoreConfig (sc_fields s) l, e).
Proof. unfold SetStoreConfValue. cbn [sc_fields sc_stores]. by destruct (set_store_field _ _ _). Qed.

(** A terminal on the stack holds a token, or none. *)
Definition terminal (X : Z) (i : item) : Prop := 1 <= X <= 8 -> exists t, i = IToken t.

Definition computes (R : list cell) (x : context) (v : minor) (ctx : ParseContext) (r : option ptr * context) (c : list cell) : Prop :=
  exists i, item_value i = v /\ item_ptr i = r.1 /\ r.2 = Context ctx (cx_conf x) /\ c ≡ₚ item_cells i ++ R.

Lemma computes_perm R x v ctx r c d : c ≡ₚ d -> computes R x v ctx r d -> computes R x v ctx r c.
Proof. intros E (i & H1 & H2 & H3 & H4). exists i. by rewrite E. Qed.

Lemma kept_store k s t : with_kc_store s (with_kc_store t k) = with_kc_store s k.
Proof. done. Qed.
Lemma kept_socket c s : kc_listen_socket (with_kc_store s c) = kc_listen_socket c.
Proof. done. Qed.
Lemma kept_host c s : kc_listen_host (with_kc_store s c) = kc_listen_host c.
Proof. done. Qed.
Lemma kept_new kv line ctx c e : SetKidsConfValue new_KidsConfig kv line ctx = (c, e) -> with_kc_store None c = c.
Proof.
  intros E. pose proof (SetKidsConfValue_store new_KidsConfig None kv line ctx) as E'. change (with_kc_store None new_KidsConfig) with new_KidsConfig in E'.
  rewrite E in E'. by injection E' as <-.
Qed.

Ltac on_values Hv := cbn [reduce_action item_value map mbind option_bind token token_ptr buffer_value fmap option_fmap option_map snd] in Hv.
Ltac open_items Hv :=
  repeat match goal with
  | H : Forall2 _ (_ :: _) _ |- _ => apply Forall2_cons_inv_l in H as (? & ? & ? & H & ->)
  | H : Forall2 _ [] _ |- _ => apply Forall2_nil_inv_l in H as ->
  end;
  repeat match goal with H : terminal _ _ |- _ => first [destruct (H ltac:(lia)) as [? ->]; clear H | clear H] end;
  repeat match goal with
  | i : item |- _ => destruct i; on_values Hv; try discriminate Hv
  | t : option (ptr * Token) |- _ => destruct t as [[? ?]|]; on_values Hv; try discriminate Hv
  end;
  rewrite ?kept_socket, ?kept_host, ?SetKidsConfValue_store in Hv.

(** A step of an action. *)
Ltac wp_step :=
  cbn beta iota delta [cx cx_conf yy_destructor Z.leb Z.compare Pos.compare Pos.compare_cont andb TK_ID TK_SEMICOLON TK_LOG TK_LP TK_RP TK_LISTEN TK_STORE];
  lazymatch goal with
  | |- wp (mbind _ _) _ _ => apply heap_wp_bind
  | |- wp (mret _) _ _ => apply heap_wp_ret
  | |- wp (new _) _ _ => apply wp_new; intros ?
  | |- wp (get as_store (Some (store_ptr ?s))) _ _ => is_var s; destruct s as [? ? ?]; cbn [store_ptr store_cells app]; rewrite <- ?app_assoc
  | |- wp (SetStoreConf (Some (store_ptr ?s)) _ _ _) _ _ => is_var s; destruct s as [? ? ?]; cbn [store_ptr store_cells app]; rewrite <- ?app_assoc
  | |- wp (get _ (Some _)) _ _ => eapply wp_get; [own|reflexivity|]
  | |- wp (set (Some _) _) _ _ => eapply wp_set; [own|]
  | |- wp (release _) _ _ => eapply wp_release; [own|]
  | |- wp (delete_plain _ (Some _)) _ _ => eapply wp_delete_plain; [own|reflexivity|]
  | |- wp (delete_plain _ None) _ _ => apply heap_wp_ret
  | |- wp (delete_kids (Some _)) _ _ => eapply wp_delete_kids; [own|own|intros ? ?]
  | |- wp (delete_store (Some (store_ptr ?s))) _ _ => eapply (wp_delete_store (Some s)); [cbn [stores_cells]; own|intros ? ?]
  | |- wp (buffer_text None) _ _ => apply heap_wp_ret
  | |- wp (buffer_text (Some _)) _ _ => apply heap_wp_bind
  | |- wp (SetKidsConf (Some _) (Some _) _ _) _ _ => eapply wp_SetKidsConf; [own|]
  | |- wp (SetStoreConf (Some _) (Some _) _ _) _ _ => eapply wp_SetStoreConf; [own|]
  | |- wp (match store_addr ?s with _ => _ end) _ _ => destruct s as [?|]; cbn [store_addr]
  | |- wp (if ?b then _ else _) _ _ => destruct b eqn:?
  | |- let '(_, _) := ?r in _ => destruct r as [? ?] eqn:?
  end.

(** The item of the left-hand side. *)
Ltac is_item i :=
  exists i; split; [first [reflexivity | cbn; f_equal; by eapply kept_new | cbn; rewrite ?map_app; reflexivity]|split; [reflexivity|split; [reflexivity|
    cbn [item_cells stores_cells store_addr store_cells app]; rewrite ?map_app, ?concat_app; cbn [map concat]; rewrite ?app_nil_r; solve_Permutation]]].
Ltac close_action Hv :=
  cbn [fmap option_fmap option_map kc_store with_kc_store store_value map_fields sc_fields sc_stores lift32 lift6 fst snd] in Hv;
  apply (inj Some) in Hv; apply pair_equal_spec in Hv as [<- <-];
  cbn [fst snd]; try match goal with H : ?c ≡ₚ _ |- computes _ _ _ _ _ ?c => eapply computes_perm; [exact H|] end;
  lazymatch goal with
  | |- computes _ _ (yy31 ?l) _ (Some ?p, _) _ => is_item (IValues p l)
  | |- computes _ _ (yy25 ?kv) _ (Some ?p, _) _ => is_item (IKeyValue p kv)
  | |- computes _ _ yyzero _ _ _ => is_item INull
  | |- computes _ _ (yy0 None) _ _ _ => is_item (IToken None)
  | |- computes _ _ (yy0 (Some ?t)) _ (Some ?p, _) _ => is_item (IToken (Some (p, t)))
  | |- computes _ _ (yy6 (store_value ?s)) _ (Some (store_ptr ?s), _) _ => is_item (IStore s)
  | |- computes _ _ _ _ (Some ?p, _) ?c =>
      match c with
      | context [(p, OKidsConfig ?k (store_addr ?s))] => is_item (IKids p k s)
      | context [(p, OKidsConfig ?k None)] => is_item (IKids p k None)
      | context [(p, OKidsConfig ?k (Some (store_ptr ?s)))] => is_item (IKids p k (Some s))
      | context [(p, OStoreConfig ?f (map store_ptr ?l))] => is_item (IStore (StoreAt p f l))
      | context [(p, OStoreConfig ?f [])] => is_item (IStore (StoreAt p f []))
      | context [(p, OStoreConfig ?f [store_ptr ?s])] => is_item (IStore (StoreAt p f [s]))
      | context [(p, OStoreConfig ?f (map store_ptr ?l ++ [store_ptr ?s]))] => is_item (IStore (StoreAt p f (l ++ [s])))
      end
  end.
Ltac action Hv :=
  open_items Hv; cbn [map item_ptr concat item_cells app reduce_conf reduce_block reduce_store];
  repeat match goal with |- context [StoreAt ?p ?f ?l] => change (store_ptr (StoreAt p f l)) with p; progress cbn [store_cells app] end;
  rewrite ?app_nil_r, <- ?app_assoc; cbn [app];
  repeat wp_step; close_action Hv.

Lemma reduce_conf_ok r rhs l line x R v ctx : rule_rhs !! r = Some rhs -> Forall2 terminal rhs l ->
  (r < 12)%nat \/ r = 14%nat \/ r = 17%nat -> r <> 0%nat ->
  reduce_action r (map item_value l) line (cx x) = Some (v, ctx) ->
  wp (reduce_conf r (map item_ptr l) line x) (concat (map item_cells l) ++ R) (computes R x v ctx).
Proof.
  destruct x as [e conf]; cbn [cx] in *; intros Hr Hl Hn H0 Hv.
  do 18 (try (destruct r as [|r]; [first [done | exfalso; lia | injection Hr as <-; action Hv]|])). exfalso; lia.
Qed.

Lemma reduce_block_ok r rhs l line x R v ctx : rule_rhs !! r = Some rhs -> Forall2 terminal rhs l ->
  (12 <= r < 18)%nat -> r <> 14%nat -> r <> 17%nat ->
  reduce_action r (map item_value l) line (cx x) = Some (v, ctx) ->
  wp (reduce_block r (map item_ptr l) line x) (concat (map item_cells l) ++ R) (computes R x v ctx).
Proof.
  destruct x as [e conf]; cbn [cx] in *; intros Hr Hl Hn H14 H17 Hv.
  do 18 (try (destruct r as [|r]; [first [done | exfalso; lia | injection Hr as <-; action Hv]|])). exfalso; lia.
Qed.

Ltac store_setting Hv :=
  try match type of Hv with context [SetStoreConfValue (store_value ?s)] => destruct s; cbn [store_value] in Hv end;
  unfold new_StoreConfig in Hv; try rewrite SetStoreConfValue_stores in Hv.

Lemma reduce_store_ok r rhs l line x R v ctx : rule_rhs !! r = Some rhs -> Forall2 terminal rhs l -> (18 <= r)%nat ->
  reduce_action r (map item_value l) line (cx x) = Some (v, ctx) ->
  wp (reduce_store r (map item_ptr l) line x) (concat (map item_cells l) ++ R) (computes R x v ctx).
Proof.
  destruct x as [e conf]; cbn [cx] in *; intros Hr Hl Hn Hv.
  do 26 (try (destruct r as [|r]; [first [exfalso; lia | injection Hr as <-; open_items Hv; store_setting Hv; action Hv]|])). done.
Qed.

(** ** A stack and the stack of values it stands for *)

Record slot := At { at_state : Z; at_major : Z; at_item : item }.
Definition vals (g : list slot) : list yyStackEntry := map (fun x => Entry (at_state x) (at_major x) (item_value (at_item x))) g.
Definition mach (g : list slot) : list entry := map (fun x => Slot (at_state x) (at_major x) (item_ptr (at_item x))) g.
Definition cells (g : list slot) : list cell := concat (map (fun x => item_cells (at_item x)) g).
Definition terms (g : list slot) : Prop := Forall (fun x => terminal (at_major x) (at_item x)) g.

(** What emptying a stack loses: the destructors are for terminals. *)
Definition lost (g : list slot) : list cell :=
  concat (map (fun x => if (1 <=? at_major x) && (at_major x <=? 8) then [] else item_cells (at_item x)) g).

Lemma wp_destructor X i c c' Q : terminal X i -> c ≡ₚ item_cells i ++ c' ->
  (forall d, d ≡ₚ (if (1 <=? X) && (X <=? 8) then [] else item_cells i) ++ c' -> Q tt d) -> wp (yy_destructor X (item_ptr i)) c Q.
Proof.
  intros Ht Hc HQ. unfold yy_destructor. destruct ((1 <=? X) && (X <=? 8)) eqn:EX; [|by apply heap_wp_ret, HQ].
  apply andb_true_iff in EX as [E1 E2]. bool_to_prop. destruct (Ht ltac:(lia)) as [t ->]. destruct t as [[p t]|]; cbn in *.
  - eapply wp_delete_plain; [exact Hc|reflexivity|by apply HQ].
  - by apply heap_wp_ret, HQ.
Qed.

Lemma wp_pop_all g : forall c R Q, terms g -> c ≡ₚ cells g ++ R -> (forall d, d ≡ₚ lost g ++ R -> Q tt d) -> wp (pop_all (mach g)) c Q.
Proof.
  induction g as [|x g IH]; intros c R Q Hg Hc HQ; [by apply heap_wp_ret, HQ|]. apply Forall_cons in Hg as [Hx Hg].
  cbn [mach map pop_all]. apply heap_wp_bind. unfold yy_pop_parser_stack. cbn [slot_major slot_ptr].
  eapply (wp_destructor _ (at_item x) _ (cells g ++ R)); [exact Hx|by rewrite Hc; unfold cells; cbn; rewrite app_assoc|].
  intros d Hd. eapply (IH _ ((if (1 <=? at_major x) && (at_major x <=? 8) then [] else item_cells (at_item x)) ++ R)); [done|rewrite Hd; solve_Permutation|].
  intros d' Hd'. apply HQ. rewrite Hd'. unfold lost. cbn. solve_Permutation.
Qed.

(** The configuration of a context. *)
Definition conf_ptr (k : option item) : option ptr := k ≫= item_ptr.
Definition conf_value (k : option item) : option KidsConfig := match k with Some (IKids _ c s) => Some (with_kc_store (store_value <$> s) c) | _ => None end.
Definition conf_cells (k : option item) : list cell := match k with Some i => item_cells i | None => [] end.
Definition is_conf (k : option item) : Prop := match k with Some (IKids _ _ _) | None => True | _ => False end.

(** A context agrees with the one of the values, and with [k] on the heap. *)
Definition agrees (k : option item) (ctx : ParseContext) (x : context) : Prop :=
  x = Context (MkContext (ctx_success ctx) (ctx_error ctx) None) (conf_ptr k) /\ ctx_conf ctx = conf_value k /\ is_conf k.

(** The bottom of a stack that is not empty. *)
Definition bottom : slot := At 0 0 INull.
Definition based (g : list slot) : Prop := g = [] \/ last g = Some bottom.

(** A parser stands for one on values; [L] is what was lost, nothing as long as
    all goes well. *)
Definition stands (k : option item) (R : list cell) (st : list yyStackEntry) (ctx : ParseContext) (l : list entry) (x : context) (c : list cell) : Prop :=
  exists g L, l = mach g /\ st = vals g /\ terms g /\ based g /\ agrees k ctx x /\ c ≡ₚ cells g ++ conf_cells k ++ L ++ R
    /\ (ctx_success ctx = true -> L = []).

Lemma agrees_refused k text ctx x : agrees k ctx x -> agrees k (failed text ctx) (failing text x).
Proof. intros (-> & H & H'). by split_and!. Qed.

Lemma length_mach g : length (mach g) = length (vals g).
Proof. unfold mach, vals. by rewrite !length_map. Qed.

Lemma yy_shift_same g state maj i line k ctx x c R : terms g -> last g = Some bottom -> terminal maj i -> agrees k ctx x ->
  c ≡ₚ item_cells i ++ cells g ++ conf_cells k ++ R ->
  wp (yy_shift (mach g) state maj (item_ptr i) line x) c
    (fun r c => let '(st, ctx') := Parser.yy_shift (vals g) state maj (item_value i) line ctx in stands k R st ctx' r.1 r.2 c).
Proof.
  intros Hg Hlast Hi Hx Hc. unfold yy_shift, Parser.yy_shift. rewrite length_mach. destruct (_ <=? _)%nat.
  - unfold yyStackOverflow. apply heap_wp_bind. apply (wp_pop_all g _ (item_cells i ++ conf_cells k ++ R)); [done|rewrite Hc; solve_Permutation|].
    intros d Hd. apply heap_wp_ret. exists [], (lost g ++ item_cells i). split_and!; [done..|constructor|by left|by apply agrees_refused| |done].
    rewrite Hd. cbn. solve_Permutation.
  - apply heap_wp_ret. exists (At state maj i :: g), []. split_and!; [done..|by constructor|right; by destruct g|done| |done].
    rewrite Hc. unfold cells. cbn. solve_Permutation.
Qed.

(** No rule but the first touches the configuration of the context, and none
    forgets a failure. *)
Definition follows (ctx ctx' : ParseContext) : Prop :=
  ctx_conf ctx' = ctx_conf ctx /\ (ctx_success ctx' = true -> ctx_success ctx = true).

Lemma SetKidsConfValue_ctx c kv line ctx : follows ctx (SetKidsConfValue c kv line ctx).2.
Proof.
  destruct c as [c1 c2 c3 c4 c5 c6 c7 c8 lim st]. unfold SetKidsConfValue. repeat (case_bool_decide; [done|]). case_bool_decide; [|done].
  destruct (kv_value kv) as [|mode [|hard [|soft [|seconds [|]]]]]; try done. destruct (limit_type_of mode); [|done].
  destruct (set_limit _ _ _ _ _) as [c ok]. by destruct ok.
Qed.
Lemma SetStoreConfValue_ctx c kv line ctx : follows ctx (SetStoreConfValue c kv line ctx).2.
Proof. unfold SetStoreConfValue. by destruct (set_store_field _ _ _). Qed.

Lemma reduce_action_ctx r rhs line ctx v ctx' : reduce_action r rhs line ctx = Some (v, ctx') -> r <> 0%nat -> follows ctx ctx'.
Proof.
  intros E H0. do 26 (try (destruct r as [|r]; [|])). all: try done.
  all: cbn [reduce_action] in E; repeat (case_match; try discriminate E; subst).
  all: repeat match goal with H : _ ≫= _ = Some _ |- _ => apply bind_Some in H as (? & ? & H) end.
  all: apply (inj Some) in E; try (unfold lift32, lift6 in E); apply pair_equal_spec in E as [_ <-]; try done.
  all: first [apply SetKidsConfValue_ctx | apply SetStoreConfValue_ctx].
Qed.

(** ** The driver computes the values *)

(** Only at the end of the input the first rule is reduced, and only the
    bottom of the stack is below what it leaves. *)
Lemma only_end_accepts : forallb (fun x : Z * Z => negb (bool_decide (yy_find_shift_action x.1 x.2 = Some YYNSTATE)))
  (list_prod all_states (Z.of_nat <$> seq 1 8)) = true.
Proof. vm_compute. reflexivity. Qed.
Lemma nothing_enters_start : incoming 0 = [].
Proof. vm_compute. reflexivity. Qed.
Lemma only_start_accepts : forallb (fun s => (s =? 0) || bool_decide (yy_find_reduce_action s 20 = None)) all_states = true.
Proof. vm_compute. reflexivity. Qed.

Lemma reduce_not_first s maj a : 0 <= s < 39 -> 1 <= maj <= 8 -> yy_find_shift_action s maj = Some a -> a <> YYNSTATE.
Proof.
  intros Hs Hm E ->. pose proof (proj1 (forallb_forall _ _) only_end_accepts (s, maj)) as H. cbn [fst snd] in H.
  rewrite E, bool_decide_true in H by done. discriminate H. apply list_elem_of_In. apply list_elem_of_In, in_prod; apply list_elem_of_In, in_range_list; lia.
Qed.

Lemma accept_at_bottom e l a : path (e :: l) -> yy_find_reduce_action (stateno e) 20 = Some a -> a = YY_ACCEPT_ACTION /\ l = [].
Proof.
  intros Hp E. pose proof (path_state _ _ Hp) as Hs. pose proof (proj1 (forallb_forall _ _) only_start_accepts (stateno e)) as H.
  cbn beta in H. rewrite E, bool_decide_false, orb_false_r in H by done. specialize (H ltac:(apply list_elem_of_In, in_range_list; lia)). bool_to_prop.
  rewrite H in E. vm_compute in E. split; [by injection E as <-|].
  destruct l as [|b l]; [done|]. exfalso. cbn [path] in Hp. destruct Hp as (He & _ & _ & HX & Hp). pose proof (path_state _ _ Hp) as Hb.
  assert ((stateno b, major e) ∈ incoming 0) as Hin; [|rewrite nothing_enters_start in Hin; inversion Hin].
  apply list_elem_of_filter. split; [cbn; by rewrite He, H|]. apply list_elem_of_In, in_prod; apply list_elem_of_In, in_range_list; lia.
Qed.

Lemma vals_take n g : take n (vals g) = vals (take n g).
Proof. unfold vals. by rewrite <- firstn_map. Qed.
Lemma vals_drop n g : drop n (vals g) = vals (drop n g).
Proof. unfold vals. by rewrite <- skipn_map. Qed.
Lemma mach_take n g : take n (mach g) = mach (take n g).
Proof. unfold mach. by rewrite <- firstn_map. Qed.
Lemma mach_drop n g : drop n (mach g) = mach (drop n g).
Proof. unfold mach. by rewrite <- skipn_map. Qed.
Lemma cells_split n g : cells g = cells (take n g) ++ cells (drop n g).
Proof. unfold cells. by rewrite <- concat_app, <- map_app, take_drop. Qed.

Lemma reduce_ok r rhs l line ctx x R v ctx' : rule_rhs !! r = Some rhs -> Forall2 terminal rhs l -> r <> 0%nat -> agrees None ctx x ->
  reduce_action r (map item_value l) line ctx = Some (v, ctx') ->
  wp (reduce r (map item_ptr l) line x) (concat (map item_cells l) ++ R)
    (fun p c => exists i, item_value i = v /\ item_ptr i = p.1 /\ agrees None ctx' p.2 /\ c ≡ₚ item_cells i ++ R).
Proof.
  intros Hr Hl H0 (-> & Hc & _) E. destruct (reduce_action_ctx _ _ _ _ _ _ E H0) as [Hc' _]. destruct ctx as [s e k]. cbn [ctx_success ctx_error ctx_conf] in *.
  subst k. apply heap_wp_mono with (Q := computes R (Context (MkContext s e None) None) v ctx'); [|unfold reduce].
  { intros [p x] c (i & H1 & H2 & H3 & H4). exists i. split_and!; [done|done| |done]. cbn [fst snd] in *. split_and!; [|done|done].
    rewrite H3. destruct ctx' as [s' e' k']. cbn in *. by subst k'. }
  destruct ((r <? 12)%nat || (r =? 14)%nat || (r =? 17)%nat) eqn:E1; [|destruct (r <? 18)%nat eqn:E2].
  - apply reduce_conf_ok with (rhs := rhs); [done..| |done|done]. apply orb_true_iff in E1 as [[E1|E1]%orb_true_iff|E1].
    + left. by apply Nat.ltb_lt.
    + right. left. by apply Nat.eqb_eq.
    + right. right. by apply Nat.eqb_eq.
  - apply orb_false_iff in E1 as [[E1 E3]%orb_false_iff E4]. apply Nat.ltb_ge in E1. apply Nat.ltb_lt in E2.
    apply Nat.eqb_neq in E3. apply Nat.eqb_neq in E4. by apply reduce_block_ok with (rhs := rhs).
  - apply Nat.ltb_ge in E2. by apply reduce_store_ok with (rhs := rhs).
Qed.

(** The first rule hands the configuration over. *)
Lemma reduce_first_ok (l : list item) line ctx x c v ctx' : length l = 1%nat -> agrees None ctx x ->
  reduce_action 0 (map item_value l) line ctx = Some (v, ctx') ->
  wp (reduce 0 (map item_ptr l) line x) c
    (fun p d => d = c /\ exists k, p.1 = None /\ v = yyzero /\ agrees (Some k) ctx' p.2 /\ concat (map item_cells l) = conf_cells (Some k)).
Proof.
  intros Hl (-> & Hc & _) E. destruct l as [|i [|]]; [done| |done]. destruct i as [|t|p k|p k|s|p k s]; try discriminate E.
  cbn [reduce_action map item_value] in E. apply (inj Some) in E. apply pair_equal_spec in E as [<- <-].
  apply heap_wp_ret. split; [done|]. exists (IKids p k s). split; [done|]. split; [done|]. split; [|apply app_nil_r]. by split_and!.
Qed.

Lemma last_drop_cons n (g : list slot) b rest : drop n g = b :: rest -> last (b :: rest) = last g.
Proof. intros E. pose proof (take_drop n g) as H. rewrite E in H. by rewrite <- H, last_app_cons. Qed.

Lemma terms_app g n : terms g -> terms (take n g) /\ terms (drop n g).
Proof. intros H. by split; [apply Forall_take|apply Forall_drop]. Qed.

Lemma rhs_terminal g rhs : terms g -> map major (vals g) = rhs -> Forall2 terminal rhs (map at_item g).
Proof. intros Hg <-. induction Hg as [|x g Hx Hg IH]; cbn; by constructor. Qed.

Lemma minors g : map minor_ (vals g) = map item_value (map at_item g).
Proof. unfold vals. by rewrite !map_map. Qed.
Lemma pointers g : map slot_ptr (mach g) = map item_ptr (map at_item g).
Proof. unfold mach. by rewrite !map_map. Qed.
Lemma cells_items g : cells g = concat (map item_cells (map at_item g)).
Proof. unfold cells. by rewrite map_map. Qed.

(** What a reduction on values that is defined consists of. *)
Lemma reduce_parts g e l r line ctx st' ctx' : vals g = e :: l -> path (e :: l) -> terms g -> reducible (stateno e) r = true ->
  Parser.yy_reduce (vals g) r line ctx = Some (st', ctx') ->
  exists rhs lhs n b rest m ctx1 a, yyRuleInfo !! Z.to_nat r = Some (lhs, n) /\ rule_rhs !! Z.to_nat r = Some rhs
    /\ drop n g = b :: rest /\ path (vals (b :: rest)) /\ Forall2 terminal rhs (map at_item (take n g)) /\ 9 < lhs
    /\ reduce_action (Z.to_nat r) (map item_value (map at_item (take n g))) line ctx = Some (m, ctx1)
    /\ yy_find_reduce_action (at_state b) lhs = Some a
    /\ (if a <? YYNSTATE then Parser.yy_shift (vals (b :: rest)) a lhs m line ctx1 = (st', ctx')
        else a = YY_ACCEPT_ACTION /\ r = 0 /\ st' = [] /\ ctx' = ctx1).
Proof.
  intros Hv Hp Hg Hred E. unfold reducible in Hred. unfold Parser.yy_reduce in E.
  destruct (yyRuleInfo !! Z.to_nat r) as [[lhs n]|] eqn:Hi; [|done].
  destruct (rule_rhs !! Z.to_nat r) as [rhs|] eqn:Hrhs; [|done].
  apply andb_true_iff in Hred as [Hn Hpops]. apply andb_true_iff in Hn as [Hn Hlhs]. apply Nat.eqb_eq in Hn. bool_to_prop.
  destruct (pops_ok _ _ _ _ Hp Hpops) as (below & rest & Ed & Hp' & Hk & Hmaj & _). rewrite <- Hv, Hn in *.
  cbn [mbind option_bind] in E. destruct (negb _); [done|]. rewrite vals_take, minors in *.
  apply bind_Some in E as ([m ctx1] & Ea & E). rewrite Ed in E. cbn [head mbind option_bind] in E.
  apply bind_Some in E as (a & Ef & E). rewrite Ef in Hk. destruct (terms_app g n Hg) as [Ht Hd].
  pose proof (rhs_terminal _ _ Ht Hmaj) as Hterm. rewrite vals_drop in Ed.
  destruct (drop n g) as [|b rest'] eqn:Edg; [done|]. injection Ed as Hbelow Hrest. subst below rest.
  exists rhs, lhs, n, b, rest', m, ctx1, a. split_and!; try done. destruct (a <? YYNSTATE); [by injection E|].
  apply andb_true_iff in Hk as [Hk Hr]. bool_to_prop. rewrite (proj2 (Z.eqb_eq _ _) Hk) in E. by injection E as <- <-.
Qed.

Lemma yy_reduce_same g e l r line ctx x c R st' ctx' : vals g = e :: l -> path (e :: l) -> terms g -> last g = Some bottom ->
  reducible (stateno e) r = true -> Z.to_nat r <> 0%nat -> agrees None ctx x -> c ≡ₚ cells g ++ R ->
  Parser.yy_reduce (vals g) r line ctx = Some (st', ctx') ->
  wp (yy_reduce (mach g) r line x) c (fun p => stands None R st' ctx' p.1 p.2).
Proof.
  intros Hv Hp Hg Hlast Hred Hr Hx Hc E.
  destruct (reduce_parts _ _ _ _ _ _ _ _ Hv Hp Hg Hred E) as (rhs & lhs & n & b & rest & m & ctx1 & a & Hi & Hrhs & Ed & Hp' & Ht & Hlhs & Ea & Ef & Ha).
  destruct (terms_app g n Hg) as [_ Hd]. rewrite Ed in Hd. unfold yy_reduce. apply heap_wp_bind. eapply heap_wp_lift; [exact Hi|]. cbn beta iota.
  rewrite mach_take, mach_drop, pointers, Ed. apply heap_wp_bind. apply (wp_perm _ _ (concat (map item_cells (map at_item (take n g))) ++ cells (b :: rest) ++ R)).
  { rewrite Hc, (cells_split n g), Ed, <- cells_items. solve_Permutation. }
  eapply heap_wp_mono; [|exact (reduce_ok _ _ _ _ _ _ _ _ _ Hrhs Ht Hr Hx Ea)]. intros [p x1] d (i & <- & Hp1 & Hx1 & Hd1). cbn [fst snd] in *. subst p.
  apply heap_wp_bind. eapply heap_wp_lift; [reflexivity|]. apply heap_wp_bind. eapply heap_wp_lift; [exact Ef|].
  destruct (a <? YYNSTATE) eqn:Ea1; [|destruct Ha as (_ & -> & _); done].
  eapply heap_wp_mono; [|apply (yy_shift_same (b :: rest) a lhs i line None ctx1 x1 d R); [done|by rewrite (last_drop_cons _ _ _ _ Ed)|intros ?; lia|done|exact Hd1]].
  intros [st x2] d'. rewrite Ha. by intros H.
Qed.

(** The configuration is on the heap when it is accepted, and nothing else of
    the stack. *)
Lemma yy_accept_same g e l line ctx x c R st' ctx' : vals g = e :: l -> path (e :: l) -> terms g -> last g = Some bottom -> reducible (stateno e) 0 = true ->
  agrees None ctx x -> c ≡ₚ cells g ++ R -> Parser.yy_reduce (vals g) 0 line ctx = Some (st', ctx') ->
  wp (yy_reduce (mach g) 0 line x) c (fun p d => st' = [] /\ exists k, stands (Some k) R st' ctx' p.1 p.2 d).
Proof.
  intros Hv Hp Hg Hlast Hred Hx Hc E.
  destruct (reduce_parts _ _ _ _ _ _ _ _ Hv Hp Hg Hred E) as (rhs & lhs & n & b & rest & m & ctx1 & a & Hi & Hrhs & Ed & Hp' & Ht & Hlhs & Ea & Ef & Ha).
  injection Hi as <- <-. injection Hrhs as <-. destruct (accept_at_bottom _ _ _ Hp' Ef) as [-> Hrest]. apply map_eq_nil in Hrest as ->.
  destruct Ha as (_ & _ & -> & ->). destruct (terms_app g 1 Hg) as [_ Hd]. rewrite Ed in Hd.
  unfold yy_reduce. apply heap_wp_bind. eapply heap_wp_lift; [reflexivity|]. cbn beta iota. rewrite mach_take, mach_drop, pointers, Ed.
  apply heap_wp_bind. eapply heap_wp_mono; [|apply (reduce_first_ok _ line ctx x c m ctx1); [|exact Hx|exact Ea]].
  2: { apply Forall2_length in Ht. by rewrite <- Ht. }
  intros [p x1] d (-> & k & _ & _ & Hx1 & Hk). cbn [fst snd] in *. apply heap_wp_bind. eapply heap_wp_lift; [reflexivity|].
  apply heap_wp_bind. eapply heap_wp_lift; [exact Ef|]. cbn beta. change (YY_ACCEPT_ACTION <? YYNSTATE) with false. cbn match. rewrite Z.eqb_refl.
  unfold yy_accept. apply heap_wp_bind. apply (wp_pop_all [b] _ (conf_cells (Some k) ++ R)); [done| |].
  { rewrite Hc, (cells_split 1 g), Ed, cells_items, Hk. solve_Permutation. }
  intros d Hd'. apply heap_wp_ret. split; [done|]. pose proof (last_drop_cons _ _ _ _ Ed) as Hb. rewrite Hlast in Hb. injection Hb as ->.
  exists k, [], []. split_and!; [done..|constructor|by left|done|exact Hd'|done].
Qed.

(** Failures are not forgotten. *)
Lemma yy_reduce_fails g e l r line ctx st' ctx' : vals g = e :: l -> path (e :: l) -> terms g -> reducible (stateno e) r = true ->
  Parser.yy_reduce (vals g) r line ctx = Some (st', ctx') -> ctx_success ctx' = true -> ctx_success ctx = true.
Proof.
  intros Hv Hp Hg Hred E Hs.
  destruct (reduce_parts _ _ _ _ _ _ _ _ Hv Hp Hg Hred E) as (rhs & lhs & n & b & rest & m & ctx1 & a & _ & _ & _ & _ & _ & _ & Ea & _ & Ha).
  assert (ctx_success ctx1 = true) as H1.
  { destruct (a <? YYNSTATE); [|by destruct Ha as (_ & _ & _ & ->)]. unfold Parser.yy_shift in Ha. destruct (_ <=? _)%nat; injection Ha as <- <-; done. }
  destruct (decide (Z.to_nat r = 0%nat)) as [H0|H0]; [|by apply (reduce_action_ctx _ _ _ _ _ _ Ea H0)].
  rewrite H0 in Ea. destruct (map _ _) as [|[] [|]]; try discriminate Ea. cbn [reduce_action] in Ea. apply (inj Some) in Ea.
  apply pair_equal_spec in Ea as [_ <-]. exact H1.
Qed.

(** A reduction empties the stack of values when it accepts, or overflows. *)
Lemma yy_reduce_overflows g e l r line ctx ctx' : vals g = e :: l -> path (e :: l) -> terms g -> reducible (stateno e) r = true -> Z.to_nat r <> 0%nat ->
  Parser.yy_reduce (vals g) r line ctx = Some ([], ctx') -> ctx_success ctx' = false.
Proof.
  intros Hv Hp Hg Hred Hr E.
  destruct (reduce_parts _ _ _ _ _ _ _ _ Hv Hp Hg Hred E) as (rhs & lhs & n & b & rest & m & ctx1 & a & _ & _ & _ & _ & _ & _ & _ & _ & Ha).
  destruct (a <? YYNSTATE); [|destruct Ha as (_ & -> & _); done]. unfold Parser.yy_shift in Ha.
  destruct (_ <=? _)%nat; [by injection Ha as <-|discriminate Ha].
Qed.

Lemma stands_more k R L st ctx ctx' l x c : stands k (L ++ R) st ctx' l x c -> (ctx_success ctx = true -> L = []) ->
  (ctx_success ctx' = true -> ctx_success ctx = true) -> stands k R st ctx' l x c.
Proof.
  intros (g & L' & H1 & H2 & H3 & H4 & H5 & H6 & H7) HL Hs. exists g, (L' ++ L). split_and!; try done.
  - rewrite H6. solve_Permutation.
  - intros Hc. by rewrite (H7 Hc), (HL (Hs Hc)).
Qed.

Lemma yy_syntax_error_same (tok : option (ptr * Token)) line ctx x c R : agrees None ctx x -> c ≡ₚ item_cells (IToken tok) ++ R ->
  wp (yy_syntax_error (item_ptr (IToken tok)) line x) c
    (fun x' d => d = c /\ agrees None (Parser.yy_syntax_error (snd <$> tok) line ctx) x').
Proof.
  intros Hx Hc. destruct tok as [[p t]|]; cbn [item_ptr yy_syntax_error fmap option_fmap option_map snd Parser.yy_syntax_error].
  - apply heap_wp_bind. eapply wp_get; [exact Hc|reflexivity|]. apply heap_wp_ret. split; [done|by apply agrees_refused].
  - apply heap_wp_ret. split; [done|by apply agrees_refused].
Qed.

(** One symbol of the input: [k] is the configuration that its end gives. *)
Section symbol.
Variables (maj : Z) (tok : option (ptr * Token)) (line : Z).
Hypothesis maj_range : 0 <= maj < 9.
Hypothesis end_alone : maj = 0 -> tok = None.
Notation token := (item_cells (IToken tok)).

Definition parsed (vp : yyParser) (ctx : ParseContext) (r : parser * context) (c : list cell) : Prop :=
  exists k, (maj <> 0 -> k = None) /\ errcnt_ r.1 = yyerrcnt vp /\ stands k [] (yystack vp) ctx (slots r.1) r.2 c.

Lemma shift_same g e l a errcnt ctx x c L : vals g = e :: l -> terms g -> last g = Some bottom -> agrees None ctx x ->
  c ≡ₚ token ++ cells g ++ L -> (ctx_success ctx = true -> L = []) ->
  wp ('(stack, x) ← yy_shift (mach g) a maj (item_ptr (IToken tok)) line x; mret (Machine stack (errcnt - 1), x)) c
    (fun r c => let '(st, ctx') := Parser.yy_shift (vals g) a maj (yy0 (snd <$> tok)) line ctx in parsed (MkParser st (errcnt - 1)) ctx' r c).
Proof.
  intros Hv Hg Hlast Hx Hc HL. apply heap_wp_bind.
  eapply heap_wp_mono; [|apply (yy_shift_same g a maj (IToken tok) line None ctx x c L); [done|done|by intros _; exists tok|done|exact Hc]].
  intros [st' x'] d. cbn [item_value fst snd]. unfold Parser.yy_shift. destruct (_ <=? _)%nat; intros H; apply heap_wp_ret; exists None; split_and!; try done.
  all: eapply (stands_more _ _ L _ ctx); [by rewrite app_nil_r|done|done].
Qed.

Lemma error_same g e l errcnt ctx x c L : vals g = e :: l -> terms g -> last g = Some bottom -> agrees None ctx x ->
  c ≡ₚ token ++ cells g ++ L -> (ctx_success ctx = true -> L = []) ->
  wp (x ← (if errcnt <=? 0 then yy_syntax_error (item_ptr (IToken tok)) line x else mret x);
      yy_destructor maj (item_ptr (IToken tok)) ;;
      if maj =? 0 then x ← yy_parse_failed (mach g) line x; mret (Machine [] 3, x) else mret (Machine (mach g) 3, x)) c
    (fun r c =>
      let ctx := if errcnt <=? 0 then Parser.yy_syntax_error (snd <$> tok) line ctx else ctx in
      if maj =? 0 then parsed (MkParser [] 3) (failed (syntax_text line) ctx) r c else parsed (MkParser (vals g) 3) ctx r c).
Proof.
  intros Hv Hg Hlast Hx Hc HL. apply heap_wp_bind.
  apply heap_wp_mono with (Q := fun x' d => d = c /\ agrees None (if errcnt <=? 0 then Parser.yy_syntax_error (snd <$> tok) line ctx else ctx) x').
  2: { destruct (errcnt <=? 0); [by eapply yy_syntax_error_same|by apply heap_wp_ret]. }
  intros x1 d (-> & Hx1). set (ctx1 := if errcnt <=? 0 then _ else _) in *.
  assert (ctx_success ctx1 = true -> ctx_success ctx = true) as Hs.
  { unfold ctx1. destruct (errcnt <=? 0); [|done]. destruct tok as [[p t]|]; done. }
  apply heap_wp_bind. apply (wp_destructor _ (IToken tok) _ (cells g ++ L)); [by intros _; exists tok|exact Hc|]. intros d Hd.
  assert (d ≡ₚ cells g ++ L) as Hd'.
  { rewrite Hd. destruct (decide (maj = 0)) as [H0|H0]; [by rewrite (end_alone H0), H0|].
    rewrite (proj2 (Z.leb_le 1 maj)), (proj2 (Z.leb_le maj 8)) by lia. done. }
  destruct (maj =? 0) eqn:E0; bool_to_prop.
  - apply heap_wp_bind. unfold yy_parse_failed. apply heap_wp_bind. apply (wp_pop_all g _ L); [done|done|]. intros d' Hd2. apply heap_wp_ret, heap_wp_ret.
    exists None. split_and!; [done..|]. exists [], (lost g ++ L). split_and!; [done..|constructor|by left|by apply agrees_refused| |done].
    rewrite Hd2. cbn. solve_Permutation.
  - apply heap_wp_ret. exists None. split_and!; [done..|]. exists g, L. split_and!; [done..|by right|done| |intros ?; by apply HL, Hs].
    rewrite Hd'. cbn. solve_Permutation.
Qed.

Lemma head_same g e : head (vals g) = Some e -> exists b, head (mach g) = Some b /\ slot_state b = stateno e.
Proof. destruct g as [|x g]; [done|]. intros [= <-]. by eexists. Qed.

Lemma parse_loop_same fuel errcnt vp' ctx' : forall g e l ctx x c L, vals g = e :: l -> path (e :: l) -> terms g -> last g = Some bottom ->
  agrees None ctx x -> c ≡ₚ token ++ cells g ++ L -> (ctx_success ctx = true -> L = []) ->
  Parser.parse_loop fuel (vals g) errcnt maj (snd <$> tok) line ctx = Some (vp', ctx') ->
  wp (parse_loop fuel (mach g) errcnt maj (item_ptr (IToken tok)) line x) c (parsed vp' ctx').
Proof.
  induction fuel as [|fuel IH]; intros g e l ctx x c L Hv Hp Hg Hlast Hx Hc HL E; [done|]. cbn [Parser.parse_loop parse_loop] in *.
  apply bind_Some in E as (top & Htop & E). destruct (head_same _ _ Htop) as (b & Hb & Es). rewrite Hv in Htop. injection Htop as <-.
  pose proof (path_state _ _ Hp) as Hs. pose proof (action_ok_all _ maj Hs maj_range) as Hact. unfold action_ok in Hact.
  apply bind_Some in E as (a & Ea & E). rewrite Ea in Hact. rewrite <- Es in Ea.
  apply heap_wp_bind. eapply heap_wp_lift; [exact Hb|]. apply heap_wp_bind. eapply heap_wp_lift; [exact Ea|]. rewrite Es in Ea.
  destruct (a <? YYNSTATE) eqn:Ea1; [|destruct (a <? YYNSTATE + YYNRULE) eqn:Ea2].
  - destruct (maj =? 0); [done|]. eapply heap_wp_mono; [|by eapply (shift_same g e l)]. intros r d.
    destruct (Parser.yy_shift _ _ _ _ _ _) as [st' ctx1]. by injection E as <- <-.
  - bool_to_prop. apply bind_Some in E as ([st1 ctx1] & Er & E). apply heap_wp_bind. rewrite <- Hv in Hp.
    pose proof (yy_reduce_fails g e l _ line ctx st1 ctx1 Hv ltac:(by rewrite <- Hv) Hg Hact Er) as Hfail.
    destruct (decide (Z.to_nat (a - YYNSTATE) = 0%nat)) as [H0|H0].
    + assert (maj = 0) as Hm0 by (destruct (decide (maj = 0)); [done|]; exfalso; apply (reduce_not_first _ maj a Hs ltac:(lia) Ea); lia).
      assert (a = YYNSTATE) as -> by lia. rewrite Z.sub_diag in *.
      eapply heap_wp_mono; [|apply (yy_accept_same g e l line ctx x c (token ++ L) st1 ctx1); try done; [by rewrite <- Hv|rewrite Hc; solve_Permutation]].
      intros [st x1] d (-> & k & Hst). cbn [fst snd] in Hst. injection E as <- <-. rewrite (end_alone Hm0) in Hst. pose proof Hst as (g1 & _ & -> & Hg1 & _).
      destruct g1; [|done]. apply heap_wp_ret. exists (Some k). split; [done|]. split; [done|].
      eapply (stands_more _ _ L _ ctx); [rewrite app_nil_r; exact Hst|done|done].
    + eapply heap_wp_mono; [|apply (yy_reduce_same g e l _ line ctx x c (token ++ L) st1 ctx1); try done; [by rewrite <- Hv|rewrite Hc; solve_Permutation]].
      intros [st x1] d (g1 & L1 & H1 & H2 & Hg1 & Hb1 & Hx1 & Hd1 & HL1). cbn [fst snd] in *. subst st st1. cbn [conf_cells app] in Hd1.
      destruct g1 as [|b1 g1].
      * injection E as <- <-. apply heap_wp_ret. exists None. split_and!; [done..|]. exists [], (L1 ++ token ++ L).
        split_and!; [done..|by left|done|rewrite Hd1; cbn; solve_Permutation|]. intros H. exfalso.
        pose proof (yy_reduce_overflows g e l _ line ctx ctx1 Hv ltac:(by rewrite <- Hv) Hg Hact H0 Er). congruence.
      * destruct (yy_reduce_ok e l (a - YYNSTATE) line ctx ltac:(by rewrite <- Hv) ltac:(lia) Hact) as (st2 & ctx2 & Er2 & Hcase).
        rewrite <- Hv, Er in Er2. injection Er2 as <- <-. destruct Hcase as [[? _]|(e' & l' & Hv1 & Hp1 & _)]; [done|].
        cbn [mach map] in *. apply (IH (b1 :: g1) e' l' ctx1 x1 d (L1 ++ L)); try done; [by rewrite <- Hv1|by destruct Hb1|rewrite Hd1; solve_Permutation|].
        intros H. by rewrite (HL1 H), (HL (Hfail H)).
  - destruct (a =? YY_ERROR_ACTION) eqn:Ea3; [|done]. eapply heap_wp_mono; [|by eapply (error_same g e l errcnt)]. intros r d. cbv zeta.
    destruct (maj =? 0); by injection E as <- <-.
Qed.
End symbol.

Lemma Parse_same maj tok line p vp vp' ctx ctx' x c d : token_ok maj (snd <$> tok) -> (maj = 0 -> tok = None) -> parser_ok vp ->
  errcnt_ p = yyerrcnt vp -> stands None [] (yystack vp) ctx (slots p) x d -> c ≡ₚ item_cells (IToken tok) ++ d ->
  Parser.Parse maj (snd <$> tok) line vp ctx = Some (vp', ctx') ->
  wp (Parse maj (item_ptr (IToken tok)) line p x) c (parsed maj vp' ctx').
Proof.
  intros [Hm _] H0 Hp Hn (g & L & Hl & Hv & Hg & Hb & Hx & Hd & HL) Hc E. destruct p as [sl n], vp as [st vn]. cbn in Hn, Hl, Hv. subst sl st n.
  cbn [conf_cells app] in Hd. rewrite app_nil_r in Hd.
  unfold Parse, Parser.Parse in *. destruct g as [|b g]; cbn [yystack slots yyerrcnt errcnt_ vals mach map] in *.
  - apply (parse_loop_same maj tok line Hm H0 parse_fuel (-1) vp' ctx' [bottom] (Entry 0 0 yyzero) [] ctx x c L); try done.
    + constructor; [intros ?; cbn in *; lia|constructor].
    + by rewrite Hc, Hd.
  - destruct Hp as [?|Hp]; [done|]. cbn [yystack] in Hp. destruct Hb as [?|Hb]; [done|].
    apply (parse_loop_same maj tok line Hm H0 parse_fuel vn vp' ctx' (b :: g) _ _ ctx x c L eq_refl); try done.
    by rewrite Hc, Hd.
Qed.

(** Tokens as the scanner makes them. *)
Definition scanned (l : list (Z * option Token * Z)) : Prop := Forall (fun x => x.1.1 <> 0 /\ token_ok x.1.1 x.1.2) l.

Lemma wp_new_token t c Q : (forall tok, snd <$> tok = t -> Q (item_ptr (IToken tok)) (item_cells (IToken tok) ++ c)) -> wp (new_token t) c Q.
Proof.
  intros HQ. destruct t as [t|]; cbn [new_token]; [|by apply heap_wp_ret, (HQ None)].
  apply heap_wp_bind, wp_new. intros p. by apply heap_wp_ret, (HQ (Some (p, t))).
Qed.

Lemma parse_all_same l : forall p vp ctx x c, scanned l -> parser_ok vp -> errcnt_ p = yyerrcnt vp ->
  stands None [] (yystack vp) ctx (slots p) x c ->
  exists vp' ctx', parse_tokens l vp ctx = Some (vp', ctx') /\ parser_ok vp' /\
    wp (parse_all l p x) c (fun r d => errcnt_ r.1 = yyerrcnt vp' /\ stands None [] (yystack vp') ctx' (slots r.1) r.2 d).
Proof.
  induction l as [|[[maj t] line] l IH]; intros p vp ctx x c Hl Hp Hn Hs; [exists vp, ctx; split_and!; [done..|by apply heap_wp_ret]|].
  apply Forall_cons in Hl as [[H0 Ht] Hl]. cbn [fst snd] in *. destruct (Parse_ok maj t line vp ctx Hp Ht) as (vp1 & ctx1 & E & Hp1 & _).
  destruct (parse_tokens_ok l vp1 ctx1 Hp1) as (vp2 & ctx2 & E2 & Hp2); [by eapply Forall_impl; [exact Hl|intros ? []]|].
  exists vp2, ctx2. cbn [parse_tokens parse_all]. rewrite E. cbn [mbind option_bind]. split; [exact E2|]. split; [exact Hp2|].
  apply heap_wp_bind, wp_new_token. intros tok <-. apply heap_wp_bind.
  eapply heap_wp_mono; [|eapply (Parse_same maj tok line p vp vp1 ctx ctx1 x _ c); try done].
  intros [p1 x1] d (k & Hk & Hn1 & Hs1). rewrite (Hk H0) in Hs1. cbn [fst snd] in *.
  destruct (IH p1 vp1 ctx1 x1 d Hl Hp1 Hn1 Hs1) as (vp3 & ctx3 & E3 & _ & Hw). rewrite E2 in E3. by injection E3 as <- <-.
Qed.

Lemma end_token : token_ok 0 None.
Proof. split; [lia|]. intros H. exfalso. rewrite !elem_of_cons, elem_of_nil in H. lia. Qed.

(** What a whole file leaves. *)
Lemma parse_file_same l ends line : scanned l -> exists ctx, parse_values l ends line = Some ctx /\
  wp (parse_file l ends line) [] (fun x c => exists k L, agrees k ctx x /\ c ≡ₚ conf_cells k ++ L /\ (ctx_success ctx = true -> L = [])).
Proof.
  intros Hl. destruct (parse_all_same l (Machine [] (-1)) ParseAlloc new_ParseContext new_context [] Hl) as (vp & ctx & E & Hp & Hw).
  { by left. } { done. } { exists [], []. split_and!; try done; [constructor|by left]. }
  unfold parse_values, parse_file. rewrite E. cbn [mbind option_bind]. destruct ends.
  - destruct (Parse_ok 0 None line vp ctx Hp) as (vp1 & ctx1 & E1 & _ & Hend); [exact end_token|].
    destruct (Hend eq_refl) as [Hempty _]. rewrite E1. cbn [mbind option_bind]. exists ctx1. split; [done|].
    apply heap_wp_bind. eapply heap_wp_mono; [|exact Hw]. intros [p x] d [Hn Hs]. cbn [fst snd] in *. apply heap_wp_bind.
    eapply heap_wp_mono; [|eapply (Parse_same 0 None line p vp vp1 ctx ctx1 x d d end_token)]; try done.
    intros [p1 x1] d1 (k & _ & _ & g & L & Hg1 & Hg2 & _ & _ & Hx & Hd & HL). cbn [fst snd] in *. rewrite Hempty in Hg2.
    destruct g; [|done]. apply heap_wp_bind. unfold ParseFree. rewrite Hg1. apply heap_wp_ret, heap_wp_ret. exists k, L.
    split_and!; [done| |done]. rewrite Hd. cbn. by rewrite app_nil_r.
  - exists (failed (syntax_text line) ctx). split; [done|]. apply heap_wp_bind. eapply heap_wp_mono; [|exact Hw].
    intros [p x] d [_ (g & L & Hg1 & _ & Hg & _ & Hx & Hd & _)]. cbn [fst snd] in *. apply heap_wp_bind, heap_wp_ret. apply heap_wp_bind. unfold ParseFree. rewrite Hg1.
    apply (wp_pop_all g _ L); [done|by rewrite Hd; cbn; rewrite app_nil_r|]. intros d' Hd'. apply heap_wp_ret. exists None, (lost g ++ L).
    split_and!; [by apply agrees_refused|by rewrite Hd'|done].
Qed.

(** ** Reading the configuration back *)

Fixpoint load_store (fuel : nat) (h : gmap ptr object) (p : ptr) : option StoreConfig :=
  match fuel with
  | O => None
  | S fuel => o ← h !! p; '(f, l) ← as_store o; l ← mapM (load_store fuel h) l; Some (MkStoreConfig f l)
  end.

(** The configuration that a pointer leads to. *)
Definition load_conf (h : gmap ptr object) (p : option ptr) : option KidsConfig :=
  p ← p; o ← h !! p; '(c, s) ← as_kids o;
  match s with
  | None => Some (with_kc_store None c)
  | Some s => t ← load_store (size h) h s; Some (with_kc_store (Some t) c)
  end.

Definition contains (h : gmap ptr object) (c : list cell) : Prop := Forall (fun x => h !! x.1 = Some x.2) c.

Lemma load_store_ok h fuel : forall s, (length (store_cells s) <= fuel)%nat -> contains h (store_cells s) ->
  load_store fuel h (store_ptr s) = Some (store_value s).
Proof.
  induction fuel as [|fuel IH]; intros [p f l] Hf Hc; cbn [store_cells length store_ptr load_store store_value] in *; [lia|].
  apply Forall_cons in Hc as [Hp Hc]. cbn [fst snd] in Hp. rewrite Hp. cbn [mbind option_bind as_store].
  assert (mapM (load_store fuel h) (map store_ptr l) = Some (map store_value l)) as ->; [|done].
  apply le_S_n in Hf. clear Hp. induction l as [|s l IHl]; [done|]. cbn [map concat] in *. apply Forall_app in Hc as [Hs Hc]. rewrite length_app in Hf.
  cbn [mapM]. rewrite (IH s); [|lia|done]. cbn [mbind option_bind]. by rewrite IHl by (done || lia).
Qed.

Lemma holds_contains m c d : holds m (c ++ d) -> contains (objects m) c.
Proof.
  intros [Hm _]. apply Forall_forall. intros [p o] Hin. apply elem_of_map_to_list. rewrite Hm. apply elem_of_app. by left.
Qed.

Lemma load_conf_ok m k ctx x L : holds m (conf_cells k ++ L) -> agrees k ctx x -> load_conf (objects m) (cx_conf x) = ctx_conf ctx.
Proof.
  intros Hm (-> & Hc & Hk). rewrite Hc. pose proof (holds_contains _ _ _ Hm) as Hin. destruct k as [[| | | | |p c s]|]; try done.
  cbn [conf_cells item_cells conf_value cx_conf conf_ptr mbind option_bind item_ptr load_conf] in *. apply Forall_cons in Hin as [Hp Hin].
  cbn [fst snd] in Hp. unfold load_conf. cbn [mbind option_bind]. rewrite Hp. cbn [mbind option_bind as_kids].
  destruct s as [s|]; cbn [store_addr stores_cells] in *; [|done]. rewrite load_store_ok; [done| |done].
  destruct Hm as [Hm _]. apply Permutation_length in Hm. rewrite length_map_to_list in Hm. cbn [length app] in Hm. rewrite length_app in Hm. lia.
Qed.

Lemma delete_context_ok k ctx x L : agrees k ctx x -> wp (delete_context x) (conf_cells k ++ L) (fun _ c => c ≡ₚ L).
Proof.
  intros (-> & _ & Hk). unfold delete_context. cbn [cx_conf]. destruct k as [[| | | | |p c s]|]; try done; [|by apply heap_wp_ret].
  cbn [conf_cells item_cells conf_ptr mbind option_bind item_ptr app]. by eapply (wp_delete_kids p c s); [done|done|].
Qed.

(** ** The tokens of a text *)

(** The parser of a scanner has read some tokens that were scanned. *)
Definition has_read (l : Lexer) : Prop :=
  exists tokens, scanned tokens /\ parse_tokens tokens ParseAlloc new_ParseContext = Some (Lexer.parser l, ctx l).

Lemma parse_tokens_snoc l x y c y' c' : parse_tokens l y c = Some (y', c') ->
  parse_tokens (l ++ [x]) y c = Parser.Parse x.1.1 x.1.2 x.2 y' c'.
Proof.
  revert y c. induction l as [|[[k t] ln] l IH]; intros y c E; cbn [app parse_tokens] in *.
  - injection E as <- <-. destruct x as [[k t] ln]. cbn [fst snd]. by destruct (Parser.Parse _ _ _ _ _) as [[? ?]|].
  - apply bind_Some in E as ([y1 c1] & E1 & E). rewrite E1. cbn [mbind option_bind]. by apply IH.
Qed.

Lemma parse_reads maj tk l l' : maj <> 0 -> token_ok maj tk -> parse maj tk l = Some l' -> has_read l -> has_read l'.
Proof.
  intros H0 Ht E (tokens & Hs & Er). unfold parse in E. apply bind_Some in E as ([y c] & E & [= <-]).
  exists (tokens ++ [(maj, tk, line l)]). split; [by apply Forall_app; split; [|constructor]|].
  rewrite (parse_tokens_snoc _ _ _ _ _ _ Er). exact E.
Qed.

Lemma symbol_reads id l l' : 2 <= id <= 7 -> SYMBOL id l = Some l' -> has_read l -> has_read l'.
Proof.
  intros Hid. apply parse_reads; [lia|]. split; [lia|]. intros H. exfalso. rewrite !elem_of_cons, elem_of_nil in H. lia.
Qed.

Lemma keyword_reads str id l l' : 1 <= id <= 8 -> KEYWORD str id l = Some l' -> has_read l -> has_read l'.
Proof. intros Hid (tk & _ & E)%bind_Some. apply (parse_reads id (Some tk)); [lia| |exact E]. split; [lia|intros _; discriminate]. Qed.

Lemma back_up_reads l l' : back_up l = Some l' -> has_read l -> has_read l'.
Proof. by intros (e & _ & [= <-])%bind_Some. Qed.

Lemma exec_action_reads str a l l' : exec_action str a l = Some l' -> has_read l -> has_read l'.
Proof.
  intros E Hl. unfold exec_action, ID in E. repeat (case_match; try (injection E as <-; exact Hl)).
  all: repeat match goal with H : _ ≫= _ = Some _ |- _ => apply bind_Some in H as (? & ? & H) end.
  all: first [eapply symbol_reads; [|exact E|exact Hl] | eapply keyword_reads; [|exact E|first [exact Hl | by eapply back_up_reads]]].
  all: split; vm_compute; discriminate.
Qed.
Lemma exec_actions_read str acts : forall l l', exec_actions str acts l = Some l' -> has_read l -> has_read l'.
Proof.
  induction acts as [|a acts IH]; intros l l' E Hl; [by injection E as <-|]. cbn [exec_actions] in E.
  apply bind_Some in E as (l1 & E1 & E). eapply IH; [exact E|]. by eapply exec_action_reads.
Qed.

Lemma take_trans_reads str t l l' : take_trans str t l = Some l' -> has_read l -> has_read l'.
Proof.
  intros (s & _ & (acts & _ & (l1 & E & (acts' & _ & [= <-])%bind_Some)%bind_Some)%bind_Some)%bind_Some Hl.
  pose proof (exec_actions_read _ _ _ _ E Hl) as H. by case_bool_decide.
Qed.

Lemma lex_step_reads str l r : lex_step str l = Some r -> has_read l -> has_read (match r with inl l => l | inr l => l end).
Proof.
  intros E Hl. unfold lex_step in E. destruct (p l =? pe str).
  - apply bind_Some in E as (e & _ & E). destruct (e >? 0); [|by injection E as <-].
    apply fmap_Some in E as (l1 & E & ->). pose proof (take_trans_reads _ _ _ _ E Hl) as H. by destruct (cs l1 =? 0).
  - apply bind_Some in E as (l0 & (acts & _ & [= <-])%bind_Some & E). apply bind_Some in E as (ch & _ & E). apply bind_Some in E as (t & _ & E).
    apply fmap_Some in E as (l1 & E & ->). apply take_trans_reads in E; [by destruct (cs l1 =? 0)|by case_bool_decide].
Qed.

Lemma lex_run_reads str fuel : forall l l', lex_run str fuel l = Some l' -> has_read l -> has_read l'.
Proof.
  induction fuel as [|fuel IH]; intros l l' E Hl; [done|]. cbn [lex_run] in E. apply bind_Some in E as (r & E1 & E).
  pose proof (lex_step_reads _ _ _ E1 Hl) as H. destruct r as [l1|l1]; [by injection E as <-|by eapply IH].
Qed.

(** The check of a configuration that was parsed. *)
Definition checked (c : ParseContext) : option ParseContext :=
  if ctx_success c then conf ← ctx_conf c; let '(conf, c) := CheckKidsConfig conf c in Some (with_conf conf c) else Some c.

(** [ParseConfig] checks what the parser makes of some tokens that were
    scanned. *)
Lemma ParseConfig_scanned str : str <> [] ->
  exists l ends line c, scanned l /\ parse_values l ends line = Some c /\ ParseConfig str = checked c.
Proof.
  intros Hne. destruct (ParseConfig_ok str) as (c0 & E & _). unfold ParseConfig in *. destruct str as [|ch str]; [done|].
  set (text := ch :: str) in *. destruct (lex_run text (lex_fuel text) new_Lexer) as [l|] eqn:El; [|done]. cbn [mbind option_bind] in *.
  destruct (lex_run_reads _ _ _ _ El) as (tokens & Hs & Er); [by exists []; split; [constructor|]|].
  destruct (cs l <? conf_lexer_first_final).
  - exists tokens, false, (line l), (failed (syntax_text (line l)) (ctx l)). split_and!; [done| |done]. unfold parse_values. by rewrite Er.
  - destruct (Parser.Parse 0 None (line l) (Lexer.parser l) (ctx l)) as [[y c]|] eqn:Ep; [|done].
    exists tokens, true, (line l), c. split_and!; [done| |done]. unfold parse_values. rewrite Er. cbn [mbind option_bind]. by rewrite Ep.
Qed.

(** ** The memory of the parser is safe *)

Definition no_memory : memory := Memory ∅ 1.

(** C11. On the heap the parser computes what it computes on values: for all tokens it is
    defined, so that no object is read or deleted after it was deleted; its outcome, its error text
    and the configuration behind its pointer are those of the parser on values; and of a file that
    is accepted nothing is left once its context is deleted. *)
Theorem parser_memory_safe l ends line : scanned l ->
  exists ctx x m, parse_values l ends line = Some ctx /\ parse_file l ends line no_memory = Some (x, m)
    /\ ctx_success (cx x) = ctx_success ctx /\ ctx_error (cx x) = ctx_error ctx /\ load_conf (objects m) (cx_conf x) = ctx_conf ctx
    /\ exists m', delete_context x m = Some (tt, m') /\ (ctx_success ctx = true -> objects m' = ∅).
Proof.
  intros Hl. destruct (parse_file_same l ends line Hl) as (ctx & E & Hw).
  destruct (Hw no_memory) as (x & m & c & E' & Hm & k & L & Hx & Hc & HL).
  { split; cbn; [by rewrite map_to_list_empty|]. intros p [o Ho]. by rewrite lookup_empty in Ho. }
  exists ctx, x, m. split; [done|]. split; [done|]. apply (holds_perm _ _ _ Hc) in Hm.
  destruct (delete_context_ok k ctx x L Hx m Hm) as ([] & m' & c' & Ed & Hm' & Hc').
  split; [by destruct Hx as [-> _]|]. split; [by destruct Hx as [-> _]|]. split; [by eapply load_conf_ok|].
  exists m'. split; [done|]. intros Hs. rewrite (HL Hs) in Hc'. destruct Hm' as [Hm' _]. rewrite Hc' in Hm'.
  apply map_to_list_empty_iff. by apply Permutation_nil_r.
Qed.

(** A server that keeps messages in a buffer, and the same with a semicolon
    missing. *)
Definition file_tokens (semicolon : bool) : list (Z * option Token * Z) :=
  let word t := (TK_ID, Some (MkToken TK_ID (bs t)), 1) in
  [(TK_STORE, Some (MkToken TK_STORE (bs "store")), 1); word "buffer"%string; (TK_LP, None, 1);
   (TK_STORE, Some (MkToken TK_STORE (bs "store")), 2); word "network"%string; (TK_BUFFER_TYPE, Some (MkToken TK_BUFFER_TYPE (bs "primary")), 2);
   (TK_LP, None, 2); word "host"%string; word "10.0.0.1"%string] ++ (if semicolon then [(TK_SEMICOLON, None, 2)] else [])
  ++ [(TK_RP, None, 2); (TK_RP, None, 3)].

Lemma scanned_test l : forallb (fun x : Z * option Token * Z => (1 <=? x.1.1) && (x.1.1 <? 9) &&
    (negb (bool_decide (x.1.1 ∈ [1; 8])) || match x.1.2 with Some _ => true | None => false end)) l = true -> scanned l.
Proof.
  intros H. apply Forall_forall. intros [[maj t] line] Hin. pose proof (proj1 (forallb_forall _ _) H _ (proj1 (list_elem_of_In _ _) Hin)) as Hx.
  cbn [fst snd] in *. apply andb_true_iff in Hx as [Hx Ht]. apply andb_true_iff in Hx as [H1 H2]. bool_to_prop. split; [lia|]. split; [lia|].
  intros H8 ->. by rewrite bool_decide_true in Ht.
Qed.

Lemma file_tokens_scanned b : scanned (file_tokens b).
Proof. apply scanned_test. destruct b; reflexivity. Qed.

(** How many objects a parse leaves, and how many are left after [delete ctx]. *)
Definition objects_left (l : list (Z * option Token * Z)) : option (nat * nat) :=
  '(x, m) ← parse_file l true 3 no_memory; '(_, m') ← delete_context x m; Some (size (objects m), size (objects m')).

(** A file that is refused loses the values that were being put together, and
    the token of a buffer type. *)
Example refused_file_leaks : objects_left (file_tokens false) = Some (2%nat, 2%nat).
Proof. vm_compute. reflexivity. Qed.
Example accepted_file_left : objects_left (file_tokens true) = Some (3%nat, 0%nat).
Proof. vm_compute. reflexivity. Qed.

Lemma parser_memory_safe_witness : exists ctx x m, parse_values (file_tokens true) true 3 = Some ctx
  /\ parse_file (file_tokens true) true 3 no_memory = Some (x, m) /\ size (objects m) = 3%nat /\ ctx_success ctx = true
  /\ load_conf (objects m) (cx_conf x) = ctx_conf ctx /\ exists m', delete_context x m = Some (tt, m') /\ objects m' = ∅.
Proof.
  destruct (parser_memory_safe (file_tokens true) true 3 (file_tokens_scanned true)) as (ctx & x & m & Ev & Em & _ & _ & Hl & m' & Ed & Hm').
  assert (ctx_success ctx = true) as Hs.
  { assert (ctx_success <$> parse_values (file_tokens true) true 3 = Some true) as H by (vm_compute; reflexivity). rewrite Ev in H. by injection H. }
  exists ctx, x, m. split; [done|]. split; [done|]. split; [|split; [done|split; [done|exists m'; split; [done|by apply Hm']]]].
  pose proof accepted_file_left as H. unfold objects_left in H. rewrite Em in H. cbn [mbind option_bind] in H. rewrite Ed in H.
  cbn [mbind option_bind] in H. by injection H.
Defined.
