(* ===== verification/ParserTrace.v ===== *)
(** * parser.c: the trace of the parser

    A debug build of the parser writes what it does to the stream that
    [ParseTrace] sets: the tokens it is given, each shift with the symbols of
    the stack, each reduction with its rule, and what it pops.  The functions
    here are those of Parser.v with these lines; tracing reads the tables of
    names within their bounds and changes nothing else. *)

From S2P Require Import Prelude Common Util Conf Parser.

(** ** Names *)

Definition yyTokenName : list bytes := map bs
  ["$"; "ID"; "SEMICOLON"; "LOG"; "LP"; "RP"; "LISTEN"; "STORE"; "BUFFER_TYPE"; "error"; "conf"; "log"; "listen"; "store";
   "keyvalue"; "value"; "log_conf"; "listen_conf"; "store_conf"; "buffer_type"; "main"]%string.

Definition yyRuleName : list bytes := map bs
  ["main ::= conf"; "value ::= ID"; "value ::= value ID"; "keyvalue ::= ID value SEMICOLON"; "conf ::= keyvalue";
   "conf ::= conf keyvalue"; "conf ::= listen"; "conf ::= conf listen"; "conf ::= store"; "conf ::= conf store";
   "conf ::= log"; "conf ::= conf log"; "log ::= LOG LP log_conf RP"; "log_conf ::= keyvalue"; "log_conf ::= log_conf keyvalue";
   "listen ::= LISTEN LP listen_conf RP"; "listen_conf ::= keyvalue"; "listen_conf ::= listen_conf keyvalue";
   "store ::= STORE ID buffer_type LP store_conf RP"; "store ::= STORE ID buffer_type LP RP"; "buffer_type ::= BUFFER_TYPE";
   "buffer_type ::="; "store_conf ::= keyvalue"; "store_conf ::= store_conf keyvalue"; "store_conf ::= store";
   "store_conf ::= store_conf store"]%string.

Definition token_name (X : Z) : option bytes := if X <? 0 then None else yyTokenName !! Z.to_nat X.

(** A rule as the names of its symbols. *)
Definition rule_text (lhs : Z) (rhs : list Z) : option bytes :=
  l ← token_name lhs; r ← mapM token_name (rev rhs); Some (l ++ bs " ::=" ++ concat (map (fun x => bs " " ++ x) r)).

(** The rules as they are named are the rules of the tables. *)
Lemma rule_names_ok : zip_with (fun i rhs => rule_text i.1 rhs) yyRuleInfo rule_rhs = map Some yyRuleName.
Proof. vm_compute. reflexivity. Qed.

(** ** Output *)

(** [None] is a read outside the table of names. *)
Definition traced (A : Type) : Type := option (A * bytes).
#[export] Instance traced_ret : MRet traced := fun A a => Some (a, []).
#[export] Instance traced_bind : MBind traced := fun A B f x =>
  match x with
  | None => None
  | Some (a, out) => match f a with None => None | Some (b, out') => Some (b, out ++ out') end
  end.

Definition silent {A} (x : option A) : traced A := match x with Some a => Some (a, []) | None => None end.

(** [ParseTrace]: a stream and the prompt, or neither. *)
Definition ParseTrace (TraceFILE : bool) (zTracePrompt : option bytes) : option bytes := if TraceFILE then zTracePrompt else None.

Section trace.
(** [yyTracePrompt], while [yyTraceFILE] is set. *)
Variable yyTracePrompt : option bytes.

Definition say (text : option bytes) : traced unit :=
  match yyTracePrompt with
  | None => mret tt
  | Some prompt => match text with Some t => Some (tt, prompt ++ t ++ [LF]) | None => None end
  end.

Definition popping (e : yyStackEntry) : option bytes := n ← token_name (major e); Some (bs "Popping " ++ n).
(** The loop of [yy_pop_parser_stack] until the stack is empty. *)
Fixpoint pop_all (stack : list yyStackEntry) : traced unit :=
  match stack with [] => mret tt | e :: stack => say (popping e) ;; pop_all stack end.

(** The symbols above the first entry, from the bottom. *)
Definition stack_line (stack : list yyStackEntry) : option bytes :=
  l ← mapM (fun e => token_name (major e)) (tail (rev stack)); Some (bs "Stack:" ++ concat (map (fun x => bs " " ++ x) l)).

Definition yy_shift_t (stack : list yyStackEntry) (state maj : Z) (m : minor) (line : Z) (ctx : ParseContext)
  : traced (list yyStackEntry * ParseContext) :=
  if (YYSTACKDEPTH <=? length stack)%nat then
    say (Some (bs "Stack Overflow!")) ;; pop_all stack ;; mret ([], failed (overflow_text line) ctx)
  else
    let stack' := Entry state maj m :: stack in
    (match stack with
     | [] => mret tt
     | _ => say (Some (bs "Shift " ++ ll_text state)) ;; say (stack_line stack')
     end) ;;
    mret (stack', ctx).

Definition yy_reduce_t (stack : list yyStackEntry) (rule : Z) (line : Z) (ctx : ParseContext)
  : traced (list yyStackEntry * ParseContext) :=
  (match yyRuleName !! Z.to_nat rule with Some n => say (Some (bs "Reduce [" ++ n ++ bs "].")) | None => mret tt end) ;;
  '(lhs, n) ← silent (yyRuleInfo !! Z.to_nat rule);
  if negb (n <? length stack)%nat then None
  else
    '(m, ctx) ← silent (reduce_action (Z.to_nat rule) (map minor_ (take n stack)) line ctx);
    let stack := drop n stack in
    below ← silent (head stack);
    act ← silent (yy_find_reduce_action (stateno below) lhs);
    if act <? YYNSTATE then yy_shift_t stack act lhs m line ctx
    else if act =? YY_ACCEPT_ACTION then say (Some (bs "Accept!")) ;; pop_all stack ;; mret ([], ctx)
    else None.

Fixpoint parse_loop_t (fuel : nat) (stack : list yyStackEntry) (errcnt : Z) (yymajor : Z) (yyminor : option Token)
    (line : Z) (ctx : ParseContext) : traced (yyParser * ParseContext) :=
  match fuel with
  | O => None
  | S fuel =>
      top ← silent (head stack);
      act ← silent (yy_find_shift_action (stateno top) yymajor);
      if act <? YYNSTATE then
        if yymajor =? 0 then None
        else
          '(stack, ctx) ← yy_shift_t stack act yymajor (yy0 yyminor) line ctx;
          mret (MkParser stack (errcnt - 1), ctx)
      else if act <? YYNSTATE + YYNRULE then
        '(stack, ctx) ← yy_reduce_t stack (act - YYNSTATE) line ctx;
        match stack with
        | [] => mret (MkParser [] errcnt, ctx)
        | _ => parse_loop_t fuel stack errcnt yymajor yyminor line ctx
        end
      else if act =? YY_ERROR_ACTION then
        say (Some (bs "Syntax Error!")) ;;
        let ctx := if errcnt <=? 0 then yy_syntax_error yyminor line ctx else ctx in
        if yymajor =? 0 then
          say (Some (bs "Fail!")) ;; pop_all stack ;; mret (MkParser [] 3, failed (syntax_text line) ctx)
        else mret (MkParser stack 3, ctx)
      else None
  end.

Definition input_line (yymajor : Z) : option bytes := n ← token_name yymajor; Some (bs "Input " ++ n).

Definition Parse_t (yymajor : Z) (yyminor : option Token) (line : Z) (p : yyParser) (ctx : ParseContext)
  : traced (yyParser * ParseContext) :=
  let p := match yystack p with [] => MkParser [Entry 0 0 yyzero] (-1) | _ => p end in
  say (input_line yymajor) ;;
  parse_loop_t parse_fuel (yystack p) (yyerrcnt p) yymajor yyminor line ctx.

Fixpoint parse_tokens_t (l : list (Z * option Token * Z)) (p : yyParser) (ctx : ParseContext) : traced (yyParser * ParseContext) :=
  match l with
  | [] => mret (p, ctx)
  | (maj, t, line) :: l => '(p, ctx) ← Parse_t maj t line p ctx; parse_tokens_t l p ctx
  end.

(** [ParseFree] *)
Definition ParseFree_t (p : yyParser) : traced unit := pop_all (yystack p).

(** ** Tracing changes nothing *)

Definition erase {A} (x : traced A) : option A := fst <$> x.

Lemma erase_bind {A B} (x : traced A) (f : A -> traced B) : erase (x ≫= f) = (a ← erase x; erase (f a)).
Proof. destruct x as [[a out]|]; [|done]. unfold erase. cbn. by destruct (f a) as [[b out']|]. Qed.

Lemma erase_silent {A} (x : option A) : erase (silent x) = x.
Proof. by destruct x. Qed.

Definition named (X : Z) : Prop := 0 <= X < 21.
Definition stack_named (l : list yyStackEntry) : Prop := Forall (fun e => named (major e)) l.

Lemma named_name X : named X -> exists n, token_name X = Some n.
Proof.
  intros HX. unfold token_name. rewrite (proj2 (Z.ltb_ge X 0)) by (unfold named in HX; lia).
  destruct (lookup_lt_is_Some_2 yyTokenName (Z.to_nat X)) as [n Hn]; [|by exists n].
  change (length yyTokenName) with 21%nat. unfold named in HX. lia.
Qed.

Lemma erase_say text t : text = Some t -> erase (say text) = Some tt.
Proof. intros ->. unfold say. by destruct yyTracePrompt. Qed.

Lemma erase_pop stack : stack_named stack -> erase (pop_all stack) = Some tt.
Proof.
  induction 1 as [|e l He Hl IH]; [done|]. cbn [pop_all]. rewrite erase_bind. destruct (named_name _ He) as [n Hn].
  erewrite erase_say by (unfold popping; by rewrite Hn). cbn. exact IH.
Qed.

Lemma stack_line_ok stack : stack_named stack -> exists t, stack_line stack = Some t.
Proof.
  intros Hs. unfold stack_line. assert (Forall (fun e => named (major e)) (tail (rev stack))) as Ht.
  { apply Forall_rev in Hs. destruct Hs; [constructor|done]. }
  assert (exists l, mapM (fun e => token_name (major e)) (tail (rev stack)) = Some l) as [l ->]; [|by eexists].
  apply mapM_is_Some. eapply Forall_impl; [exact Ht|]. intros e He. cbn. destruct (named_name _ He) as [n ->]. by eexists.
Qed.

Lemma erase_shift stack state maj m line ctx : stack_named stack -> named maj ->
  erase (yy_shift_t stack state maj m line ctx) = Some (yy_shift stack state maj m line ctx).
Proof.
  intros Hs Hm. unfold yy_shift_t, yy_shift. destruct (_ <=? _)%nat.
  - rewrite erase_bind. erewrite erase_say by done. cbn [mbind option_bind]. by rewrite erase_bind, erase_pop.
  - rewrite erase_bind. destruct (stack_line_ok (Entry state maj m :: stack)) as [t Ht]; [by constructor|].
    destruct stack as [|e l]; [done|]. rewrite erase_bind, (erase_say _ _ eq_refl). cbn [mbind option_bind]. by rewrite (erase_say _ _ Ht).
Qed.

Lemma lhs_named r lhs n : yyRuleInfo !! r = Some (lhs, n) -> named lhs.
Proof.
  intros Hr. assert (Forall (fun i : Z * nat => named i.1) yyRuleInfo) as H by (repeat constructor; done).
  exact (proj1 (Forall_lookup _ _) H r _ Hr).
Qed.

Lemma shift_named stack state maj m line ctx : stack_named stack -> named maj -> stack_named (yy_shift stack state maj m line ctx).1.
Proof. intros Hs Hm. unfold yy_shift. destruct (_ <=? _)%nat; cbn; by constructor. Qed.

Lemma erase_reduce stack r line ctx : stack_named stack ->
  erase (yy_reduce_t stack r line ctx) = yy_reduce stack r line ctx
  /\ forall s c, yy_reduce stack r line ctx = Some (s, c) -> stack_named s.
Proof.
  intros Hs. unfold yy_reduce_t, yy_reduce. rewrite erase_bind.
  assert (erase (match yyRuleName !! Z.to_nat r with Some n => say (Some (bs "Reduce [" ++ n ++ bs "].")) | None => mret tt end) = Some tt) as ->.
  { destruct (yyRuleName !! Z.to_nat r); [by erewrite erase_say|done]. }
  cbn [mbind option_bind]. rewrite erase_bind, erase_silent. destruct (yyRuleInfo !! Z.to_nat r) as [[lhs n]|] eqn:Hi; [|done].
  cbn [mbind option_bind]. destruct (negb _); [done|]. rewrite erase_bind, erase_silent.
  destruct (reduce_action _ _ _ _) as [[m ctx1]|]; [|done]. cbn [mbind option_bind]. rewrite erase_bind, erase_silent.
  assert (stack_named (drop n stack)) as Hd by (by apply Forall_drop).
  destruct (head (drop n stack)) as [below|]; [|done]. cbn [mbind option_bind]. rewrite erase_bind, erase_silent.
  destruct (yy_find_reduce_action _ _) as [a|]; [|done]. cbn [mbind option_bind].
  pose proof (lhs_named _ _ _ Hi) as Hl. destruct (a <? YYNSTATE).
  - rewrite erase_shift by done. split; [done|]. intros s c [= E]. pose proof (shift_named (drop n stack) a lhs m line ctx1 Hd Hl) as H.
    by rewrite E in H.
  - destruct (a =? YY_ACCEPT_ACTION); [|done]. rewrite erase_bind. erewrite erase_say by done. cbn [mbind option_bind].
    rewrite erase_bind, erase_pop by done. split; [done|]. intros s c [= <- _]. constructor.
Qed.

Lemma erase_loop fuel errcnt maj t line : named maj -> forall stack ctx, stack_named stack ->
  erase (parse_loop_t fuel stack errcnt maj t line ctx) = parse_loop fuel stack errcnt maj t line ctx
  /\ forall p c, parse_loop fuel stack errcnt maj t line ctx = Some (p, c) -> stack_named (yystack p).
Proof.
  intros Hm. induction fuel as [|fuel IH]; intros stack ctx Hs; [done|]. cbn [parse_loop_t parse_loop]. rewrite erase_bind, erase_silent.
  destruct (head stack) as [top|]; [|done]. cbn [mbind option_bind]. rewrite erase_bind, erase_silent.
  destruct (yy_find_shift_action _ _) as [a|]; [|done]. cbn [mbind option_bind]. destruct (a <? YYNSTATE).
  - destruct (maj =? 0); [done|]. rewrite erase_bind, erase_shift by done. cbn [mbind option_bind].
    pose proof (shift_named stack a maj (yy0 t) line ctx Hs Hm) as H. destruct (yy_shift _ _ _ _ _ _) as [s c]. split; [done|].
    by intros p c' [= <- _].
  - destruct (a <? YYNSTATE + YYNRULE).
    + rewrite erase_bind. destruct (erase_reduce stack (a - YYNSTATE) line ctx Hs) as [E Hr]. rewrite E.
      destruct (yy_reduce _ _ _ _) as [[s c]|]; [|done]. cbn [mbind option_bind]. specialize (Hr s c eq_refl).
      destruct s as [|e s]; [|by apply IH]. split; [done|]. intros p c' [= <- _]. constructor.
    + destruct (a =? YY_ERROR_ACTION); [|done]. rewrite erase_bind. erewrite erase_say by done. cbn [mbind option_bind].
      destruct (maj =? 0).
      * rewrite erase_bind. erewrite erase_say by done. cbn [mbind option_bind]. rewrite erase_bind, erase_pop by done.
        split; [done|]. intros p c' [= <- _]. constructor.
      * split; [done|]. by intros p c' [= <- _].
Qed.

Lemma erase_Parse maj t line p ctx : named maj -> stack_named (yystack p) ->
  erase (Parse_t maj t line p ctx) = Parse maj t line p ctx /\ forall p' c, Parse maj t line p ctx = Some (p', c) -> stack_named (yystack p').
Proof.
  intros Hm Hp. unfold Parse_t, Parse. rewrite erase_bind. destruct (named_name _ Hm) as [n Hn].
  erewrite erase_say by (unfold input_line; by rewrite Hn). cbn [mbind option_bind]. apply erase_loop; [done|].
  destruct (yystack p) as [|e l] eqn:E; [by repeat constructor|]. by rewrite E.
Qed.

(** Whether it is on or off, tracing any tokens reads the names of tokens and
    rules within their tables and leaves what the parser does as it is. *)
Theorem trace_transparent l ctx : Forall (fun x : Z * option Token * Z => named x.1.1) l ->
  erase (parse_tokens_t l ParseAlloc ctx) = parse_tokens l ParseAlloc ctx.
Proof.
  assert (stack_named (yystack ParseAlloc)) as Hp by constructor. revert Hp. generalize ParseAlloc as p. intros p Hp Hl.
  revert p ctx Hp. induction Hl as [|[[maj t] line] l Ht Hl IH]; intros p ctx Hp; [done|]. cbn [parse_tokens_t parse_tokens].
  destruct (erase_Parse maj t line p ctx Ht Hp) as [E Hn]. rewrite erase_bind, E.
  destruct (Parse maj t line p ctx) as [[p' c]|]; [|done]. cbn [mbind option_bind]. by apply IH, (Hn p' c).
Qed.
End trace.
Arguments erase {_}.

(** [a b;] at the end of the input. *)
Definition traced_tokens : list (Z * option Token * Z) :=
  [(TK_ID, Some (MkToken TK_ID (bs "a")), 1); (TK_ID, Some (MkToken TK_ID (bs "b")), 1); (TK_SEMICOLON, None, 1); (0, None, 1)].

Definition trace_lines (l : list string) : bytes := concat (map (fun s => bs "> " ++ bs s ++ [LF]) l).

Example trace_example : option_map snd (parse_tokens_t (ParseTrace true (Some (bs "> "))) traced_tokens ParseAlloc new_ParseContext) = Some (trace_lines
  ["Input ID"; "Shift 9"; "Stack: ID"; "Input ID"; "Shift 38"; "Stack: ID ID"; "Input SEMICOLON"; "Reduce [value ::= ID]."; "Shift 10";
   "Stack: ID value"; "Shift 36"; "Stack: ID value SEMICOLON"; "Input $"; "Reduce [keyvalue ::= ID value SEMICOLON]."; "Shift 18";
   "Stack: keyvalue"; "Reduce [conf ::= keyvalue]."; "Shift 1"; "Stack: conf"; "Reduce [main ::= conf]."; "Accept!"; "Popping $"])%string.
Proof. vm_compute. reflexivity. Qed.

Lemma trace_transparent_witness :
  erase (parse_tokens_t (Some (bs "> ")) traced_tokens ParseAlloc new_ParseContext) = parse_tokens traced_tokens ParseAlloc new_ParseContext.
Proof. apply trace_transparent. unfold traced_tokens. repeat constructor; cbn; done. Defined.
