(* ===== verification/Layout.v ===== *)
(** * lexer.rl: what the scanner makes of a text

    A text is a sequence of pieces: words, quoted or not, keywords, symbols,
    blanks, newlines and comments.  Whatever the layout, the scanner gives the
    parser the tokens of the pieces, so that [ParseConfig] on the text of a
    configuration gives the meaning of the configuration, checked, which is what
    the configuration says (Meaning.v). *)

From S2P Require Import Prelude Common Util Conf Parser Grammar Meaning Lexer.

(** ** Pieces *)

(** [print - noise - [,<>=;{}]] *)
Definition word_char (c : Z) : bool :=
  (33 <=? c) && (c <=? 126) && negb (bool_decide (c ∈ [44; 59; 60; 61; 62; 123; 125])).

Definition keywords : list (bytes * Z) := [
  (bs "listen", TK_LISTEN); (bs "store", TK_STORE); (bs "log", TK_LOG);
  (bs "primary", TK_BUFFER_TYPE); (bs "secondary", TK_BUFFER_TYPE)].
Definition keyword_of (w : bytes) : option Z := (fun x => x.2.2) <$> list_find (fun x => x.1 = map tolower w) keywords.

(** A word does not begin as a quoted one or a comment does. *)
Definition plain (w : bytes) : bool :=
  match w with
  | [] => false
  | c :: _ => negb (bool_decide (schar c ∈ [34; 35; 39])) && forallb (fun c => word_char (schar c)) w
  end.

Inductive piece : Type :=
| PWord (w : bytes)
| PQuoted (w : bytes)
| PSymbol (k : Z)
| PBlank (tab : bool)
| PNewline
| PComment (text : bytes).

Definition quote : ascii := "034"%char.
Definition symbol_char (k : Z) : ascii :=
  if k =? TK_LP then "{"%char else if k =? TK_RP then "}"%char else ";"%char.

Definition piece_text (x : piece) : bytes :=
  match x with
  | PWord w => w
  | PQuoted w => quote :: w ++ [quote]
  | PSymbol k => [symbol_char k]
  | PBlank tab => [if tab : bool then "009"%char else " "%char]
  | PNewline => [LF]
  | PComment t => "#"%char :: t ++ [LF]
  end.

Definition piece_ok (x : piece) : bool :=
  match x with
  | PWord w => plain w
  | PQuoted w => forallb (fun c => negb (bool_decide (schar c ∈ [34; 92; 96]))) w
  | PSymbol k => bool_decide (k ∈ [TK_LP; TK_RP; TK_SEMICOLON])
  | PBlank _ | PNewline => true
  | PComment t => forallb (fun c => negb (bool_decide (schar c ∈ [10; 13]))) t
  end.

Definition is_word (x : piece) : bool := match x with PWord _ | PQuoted _ => true | _ => false end.
(** What may follow a word. *)
Definition separates (x : piece) : bool := match x with PSymbol _ | PBlank _ | PNewline => true | _ => false end.
Fixpoint laid_out (l : list piece) : bool :=
  match l with
  | [] => true
  | x :: l =>
      piece_ok x && (if is_word x then match l with [] => true | y :: _ => separates y end else true) && laid_out l
  end.

Definition text (l : list piece) : bytes := concat (map piece_text l).

(** The token of a piece, and the lines of the tokens. *)
Definition piece_token (x : piece) : option token_of :=
  match x with
  | PWord w => let k := default TK_ID (keyword_of w) in Some (k, Some (MkToken k w))
  | PQuoted w => Some (word (quote :: w ++ [quote]))
  | PSymbol k => Some (symbol k)
  | _ => None
  end.
Definition tokens (l : list piece) : list token_of := omap piece_token l.

Definition next_line (ln : Z) (x : piece) : Z := match x with PNewline | PComment _ => ln + 1 | _ => ln end.
Fixpoint token_lines (ln : Z) (l : list piece) : list Z :=
  match l with
  | [] => []
  | x :: l => match piece_token x with Some _ => [ln] | None => [] end ++ token_lines (next_line ln x) l
  end.

(** ** One character *)

(** Where a state goes on a character, and the actions. *)
Definition next (s c : Z) : option (Z * list Z) :=
  t ← find_trans s c; s' ← tab conf_lexer_trans_targs t; acts ← trans_acts t; Some (s', acts).

(** The states inside a word.  What the proofs need of the tables is checked
    for every state and every character. *)
Definition word_states : list Z := 8 :: (Z.of_nat <$> seq 16 24).
Definition all_bytes : bytes := ascii_of_nat <$> seq 0 256.
Definition ends_word (s : Z) : list Z := [if s =? 8 then 26 else if s =? 16 then 20 else 22].

(** A word, so far, leads to a state and an [act]. *)
Definition act_of (a : Z) : Z := if a <=? 10 then a - 4 else a - 1.
Definition word_step (r : Z * Z) (ch : ascii) : Z * Z :=
  match next r.1 (schar ch) with
  | Some (s', [_; a]) => (s', act_of a)
  | Some (s', _) => (s', r.2)
  | None => r
  end.

(** The text that leads to a state of a keyword, and the keyword of an [act],
    in lower case. *)
Definition text_of (s : Z) : option bytes :=
  if s =? 6 then Some []
  else if (17 <=? s) && (s <=? 21) then Some (take (Z.to_nat (s - 16)) (bs "listen"))
  else if s =? 22 then Some (bs "lo")
  else if (23 <=? s) && (s <=? 28) then Some (take (Z.to_nat (s - 22)) (bs "primary"))
  else if (29 <=? s) && (s <=? 36) then Some (take (Z.to_nat (s - 28)) (bs "secondary"))
  else if (37 <=? s) && (s <=? 39) then Some (take (Z.to_nat (s - 35)) (bs "store"))
  else None.
Definition act_text (a : Z) : option bytes :=
  match a with
  | 2 => Some (bs "listen") | 3 => Some (bs "store") | 4 => Some (bs "log")
  | 5 => Some (bs "primary") | 6 => Some (bs "secondary") | _ => None
  end.

Definition extends (s : Z) (ch : ascii) (t : option bytes) : bool :=
  match text_of s with Some w => bool_decide (t = Some (w ++ [tolower ch])) | None => false end.
Definition in_word_ok (s : Z) (ch : ascii) : bool :=
  match next s (schar ch) with
  | Some (s', []) => (16 <=? s') && (s' <? 40) && ((s' =? 16) || extends s ch (text_of s'))
  | Some (s', [b; a]) =>
      (s' =? 8) && (b =? 5) && ((a =? 13) || (6 <=? a) && (a <=? 10) && extends s ch (act_text (act_of a)))
  | _ => false
  end && bool_decide (next s (schar (tolower ch)) = next s (schar ch)).
Definition word_step_ok (s : Z) (ch : ascii) : bool :=
  if word_char (schar ch) then in_word_ok s ch else bool_decide (next s (schar ch) = Some (6, ends_word s)).
Definition starts_word (ch : ascii) : bool := word_char (schar ch) && negb (bool_decide (schar ch ∈ [34; 35; 39])).

Lemma word_steps : forallb (fun x => word_step_ok x.1 x.2) (list_prod word_states all_bytes) = true.
Proof. vm_compute. reflexivity. Qed.
Lemma start_steps : forallb (fun ch => implb (starts_word ch) (in_word_ok 6 ch)) all_bytes = true.
Proof. vm_compute. reflexivity. Qed.

(** At the end of the text. *)
Definition next_eof (s : Z) : option (Z * list Z) :=
  e ← tab conf_lexer_eof_trans s;
  if e >? 0 then s' ← tab conf_lexer_trans_targs (e - 1); acts ← trans_acts (e - 1); Some (s', acts) else None.
Lemma word_eofs : forallb (fun s => bool_decide (next_eof s = Some (6, ends_word s))) word_states = true.
Proof. vm_compute. reflexivity. Qed.

(** Comments and quoted words. *)
Definition comment_step_ok (s : Z) (ch : ascii) : bool :=
  bool_decide (schar ch ∈ [10; 13]) || match next s (schar ch) with
  | Some (s', acts) => bool_decide (s' ∈ [3; 11]) && bool_decide (acts = [] \/ acts = [5])
  | None => false
  end.
Definition quoted_step_ok (s : Z) (ch : ascii) : bool :=
  bool_decide (schar ch ∈ [34; 92; 96]) || match next s (schar ch) with
  | Some (s', acts) => bool_decide (s' ∈ [1; 9]) && bool_decide (acts = [] \/ acts = [5])
  | None => false
  end.
Lemma comment_steps : forallb (fun x => comment_step_ok x.1 x.2) (list_prod [3; 11] all_bytes) = true.
Proof. vm_compute. reflexivity. Qed.
Lemma quoted_steps : forallb (fun x => quoted_step_ok x.1 x.2) (list_prod [1; 9] all_bytes) = true.
Proof. vm_compute. reflexivity. Qed.

(** ** Kinds of words *)

Lemma in_all_bytes ch : In ch all_bytes.
Proof.
  apply list_elem_of_In, list_elem_of_fmap. exists (nat_of_ascii ch). split; [by rewrite ascii_nat_embedding|].
  apply elem_of_seq. pose proof (nat_ascii_bounded ch). lia.
Qed.

(** Looks one entry of a checked table up. *)
Lemma checked {A} (f : A * ascii -> bool) l s ch :
  forallb f (list_prod l all_bytes) = true -> s ∈ l -> f (s, ch) = true.
Proof. rewrite forallb_forall. intros H Hs. apply H, in_prod; [by apply list_elem_of_In|apply in_all_bytes]. Qed.

Lemma in_word_ok_at s ch : s ∈ 6 :: word_states -> word_char (schar ch) = true -> (s = 6 -> starts_word ch = true) ->
  in_word_ok s ch = true.
Proof.
  intros [->|Hs]%elem_of_cons Hc H6.
  - pose proof start_steps as H. rewrite forallb_forall in H. specialize (H ch (in_all_bytes ch)).
    exact (proj1 (implb_true_iff _ _) H (H6 eq_refl)).
  - pose proof (checked _ _ s ch word_steps Hs) as H. unfold word_step_ok in H. cbn [fst snd] in H. rewrite Hc in H. exact H.
Qed.

(** What is known of the text read when the state and the [act] are these. *)
Definition read_so_far (w : bytes) (r : Z * Z) : Prop :=
  r.1 ∈ 6 :: word_states /\
  if r.1 =? 6 then w = []
  else if r.1 =? 8 then r.2 = 12 \/ 2 <= r.2 <= 6 /\ act_text r.2 = Some (map tolower w)
  else r.1 = 16 \/ text_of r.1 = Some (map tolower w).

Lemma word_state s : s ∈ word_states <-> s = 8 \/ 16 <= s < 40.
Proof.
  unfold word_states. rewrite elem_of_cons, list_elem_of_fmap. split.
  - intros [->|(n & -> & Hn)]; [by left|]. apply elem_of_seq in Hn. right. lia.
  - intros [->|Hs]; [by left|right]. exists (Z.to_nat s). split; [lia|]. apply elem_of_seq. lia.
Qed.

Lemma extends_read w r ch t : read_so_far w r -> extends r.1 ch t = true -> t = Some (map tolower (w ++ [ch])).
Proof.
  intros [_ Hr]. unfold extends. destruct (text_of r.1) as [x|] eqn:E; [|done]. intros ->%bool_decide_eq_true.
  rewrite map_app. revert Hr. destruct (Z.eqb_spec r.1 6) as [E6|_].
  { intros ->. rewrite E6 in E. by injection E as <-. }
  destruct (Z.eqb_spec r.1 8) as [E8|_]; [by rewrite E8 in E|]. intros [E16|[= ->]]; [by rewrite E16 in E|done].
Qed.

Lemma word_step_read w r ch : read_so_far w r -> word_char (schar ch) = true -> (r.1 = 6 -> starts_word ch = true) ->
  read_so_far (w ++ [ch]) (word_step r ch) /\ (word_step r ch).1 ∈ word_states
  /\ exists acts, next r.1 (schar ch) = Some ((word_step r ch).1, acts) /\
     (acts = [] /\ 16 <= (word_step r ch).1 < 40 /\ (word_step r ch).2 = r.2
      \/ (word_step r ch).1 = 8 /\ exists a, acts = [5; a] /\ (a = 13 \/ 6 <= a <= 10) /\ (word_step r ch).2 = act_of a).
Proof.
  intros Hr Hc H6. pose proof (in_word_ok_at _ _ (proj1 Hr) Hc H6) as H. unfold in_word_ok in H.
  apply andb_true_iff in H as [H _]. unfold word_step. destruct (next r.1 (schar ch)) as [[s' acts]|]; [|done].
  destruct acts as [|b [|a [|]]]; try done; rewrite !andb_true_iff, ?orb_true_iff, ?andb_true_iff in H; cbn [fst snd].
  - destruct H as [[H1 H2] H3]. bool_to_prop. assert (s' ∈ word_states) as Hw by (apply word_state; lia).
    split_and!; [split; [by right|]|done|exists []; split; [done|left; by split_and!]].
    cbn [fst snd]. rewrite (proj2 (Z.eqb_neq s' 6)), (proj2 (Z.eqb_neq s' 8)) by lia.
    destruct H3 as [->%Z.eqb_eq|H3]; [by left|right]. by eapply extends_read.
  - destruct H as [[H1 H2] H3]. bool_to_prop. subst s' b. assert (8 ∈ word_states) as Hw by by left.
    assert (a = 13 \/ 6 <= a <= 10 /\ extends r.1 ch (act_text (act_of a)) = true) as Ha.
    { destruct H3 as [->%Z.eqb_eq|[[]]]; [by left|right]. bool_to_prop. by split. }
    split_and!; [split; [by right|]|done|exists [5; a]; split; [done|right; split; [done|exists a; split_and!; [done|tauto|done]]]].
    cbn [fst snd Z.eqb Pos.eqb]. destruct Ha as [->|[Ha Hx]]; [by left|right].
    assert (2 <= act_of a <= 6) as Hb by (unfold act_of; rewrite (proj2 (Z.leb_le a 10)) by lia; lia).
    split; [done|]. by eapply extends_read.
Qed.

Definition read_word (w : bytes) (r : Z * Z) : Z * Z := fold_left word_step w r.

Lemma read_word_cons c w r : read_word (c :: w) r = read_word w (word_step r c).
Proof. reflexivity. Qed.

Lemma read_word_ok w2 : forall w1 r, w1 <> [] -> read_so_far w1 r -> forallb (fun c => word_char (schar c)) w2 = true ->
  read_so_far (w1 ++ w2) (read_word w2 r).
Proof.
  induction w2 as [|ch w2 IH]; intros w1 r Hn Hr Hc; [by rewrite app_nil_r|]. cbn [forallb] in Hc.
  apply andb_true_iff in Hc as [Hc1 Hc]. cbn [read_word fold_left]. rewrite cons_middle, app_assoc. apply IH; [by destruct w1| |done].
  apply word_step_read; [done|done|]. intros E. destruct Hr as [_ Hr]. by rewrite E in Hr.
Qed.

(** What a word is at its end. *)
Definition id_of (r : Z * Z) : Z :=
  if r.1 =? 8 then match r.2 with 2 => TK_LISTEN | 3 => TK_STORE | 4 => TK_LOG | 5 | 6 => TK_BUFFER_TYPE | _ => TK_ID end
  else TK_ID.

Lemma word_step_lower r ch : r.1 ∈ 6 :: word_states -> word_char (schar ch) = true -> (r.1 = 6 -> starts_word ch = true) ->
  word_step r (tolower ch) = word_step r ch.
Proof.
  intros Hs Hc H6. pose proof (in_word_ok_at _ _ Hs Hc H6) as H. unfold in_word_ok in H.
  apply andb_true_iff in H as [_ H%bool_decide_eq_true]. unfold word_step. by rewrite H.
Qed.

Lemma read_word_lower w2 : forall w1 r, read_so_far w1 r -> w1 <> [] \/ (exists c, head w2 = Some c /\ starts_word c = true) ->
  forallb (fun c => word_char (schar c)) w2 = true -> read_word (map tolower w2) r = read_word w2 r.
Proof.
  induction w2 as [|ch w2 IH]; intros w1 r Hr Hn Hc; [done|]. cbn [forallb] in Hc. apply andb_true_iff in Hc as [Hc1 Hc].
  assert (r.1 = 6 -> starts_word ch = true) as H6.
  { intros E. destruct Hn as [Hn|(c & [= ->] & ?)]; [|done]. destruct Hr as [_ Hr]. by rewrite E in Hr. }
  cbn [read_word map fold_left]. rewrite word_step_lower; [|apply Hr|done|done].
  apply (IH (w1 ++ [ch])); [by apply word_step_read|left; by destruct w1|done].
Qed.

Lemma act_text_keyword a t : act_text a = Some t -> exists k, (t, k) ∈ keywords.
Proof.
  intros H. unfold act_text in H. repeat case_match; try done; injection H as <-; unfold keywords;
    eexists; rewrite !elem_of_cons; cbn; eauto 10.
Qed.

Lemma word_kind w act : plain w = true -> id_of (read_word w (6, act)) = default TK_ID (keyword_of w).
Proof.
  intros Hp. destruct w as [|c w]; [done|]. unfold plain in Hp. apply andb_true_iff in Hp as [Hc Hw].
  assert (starts_word c = true) as Hst.
  { unfold starts_word. rewrite Hc. cbn [forallb] in Hw. by apply andb_true_iff in Hw as [-> _]. }
  assert (read_so_far [] (6, act)) as H0 by (split; [by left|done]).
  unfold keyword_of. destruct (list_find _ keywords) as [[i [k id]]|] eqn:E; cbn [fmap option_fmap option_map default from_option Datatypes.id snd].
  - apply list_find_Some in E as (Hi & Hk & _). cbn [fst] in Hk.
    rewrite <- (read_word_lower (c :: w) [] (6, act) H0); [|right; by exists c|done]. rewrite <- Hk.
    apply list_elem_of_lookup_2 in Hi. unfold keywords in Hi. rewrite !elem_of_cons in Hi. clear - Hi.
    destruct Hi as [Hi|[Hi|[Hi|[Hi|[Hi|Hi]]]]]; [injection Hi as Hk Hid; rewrite Hk, Hid; vm_compute; reflexivity..|by apply not_elem_of_nil in Hi].
  - cbn [forallb] in Hw. apply andb_true_iff in Hw as [Hc1 Hw].
    destruct (read_word_ok w [c] (word_step (6, act) c)) as [_ H]; [done|by apply (word_step_read [])|done|].
    rewrite read_word_cons. set (r := read_word w _) in *. clearbody r.
    unfold id_of. destruct (Z.eqb_spec r.1 8) as [E8|]; [|done]. rewrite E8 in H. cbn [Z.eqb Pos.eqb] in H.
    destruct H as [->|[_ Ht]]; [done|]. exfalso. rewrite list_find_None, Forall_forall in E.
    destruct (act_text_keyword _ _ Ht) as [k Hk]. by apply (E _ Hk).
Qed.

(** ** Scanning a piece *)

Section pieces.
Variable str : bytes.

Definition lexes (l : Lexer) (Q : Lexer -> Prop) : Prop := exists fuel r, lex_run str fuel l = Some r /\ Q r.

Lemma lexes_step l l' Q : lex_step str l = Some (inr l') -> lexes l' Q -> lexes l Q.
Proof. intros E (fuel & r & H & HQ). exists (S fuel), r. cbn [lex_run]. by rewrite E. Qed.

Definition go_on (l : Lexer) : Lexer + Lexer := if cs l =? 0 then inl l else inr (at_pos (p l + 1) l).

Lemma lex_char s i t e a ln y c ch s' acts : 1 <= s < 40 -> str !! i = Some ch -> next s (schar ch) = Some (s', acts) ->
  lex_step str (MkLexer s (Z.of_nat i) t e a ln y c)
  = go_on <$> (l ← exec_actions str acts (MkLexer s' (Z.of_nat i) (if s =? 6 then Some (Z.of_nat i) else t) e a ln y c);
               to_state l).
Proof.
  intros Hs Hch Hn. unfold lex_step. pose proof (lookup_lt_Some _ _ _ Hch) as Hi. cbn [p cs].
  rewrite (proj2 (Z.eqb_neq _ _)) by (unfold pe; lia). rewrite from_state_eq by done. cbn [cs p mbind option_bind].
  set (l1 := if s =? 6 then _ else _).
  assert (l1 = MkLexer s (Z.of_nat i) (if s =? 6 then Some (Z.of_nat i) else t) e a ln y c) as -> by (subst l1; by destruct (s =? 6)).
  cbn [p cs]. unfold char_at. rewrite (proj2 (Z.ltb_ge _ _)) by lia. rewrite Nat2Z.id, Hch. cbn [fmap option_fmap option_map mbind option_bind].
  unfold next in Hn. destruct (find_trans s (schar ch)) as [trans|]; [|done]. cbn [mbind option_bind] in *.
  unfold take_trans. destruct (tab conf_lexer_trans_targs trans) as [x|]; [|done]. cbn [mbind option_bind] in *.
  destruct (trans_acts trans) as [acts'|]; [|done]. cbn [mbind option_bind] in *. injection Hn as -> ->. reflexivity.
Qed.

(** Inside a token. *)
Lemma lexes_inner s i t e a ln y c ch s' acts e' a' Q : 1 <= s < 40 -> str !! i = Some ch ->
  next s (schar ch) = Some (s', acts) -> 1 <= s' < 40 -> s' <> 6 ->
  exec_actions str acts (MkLexer s' (Z.of_nat i) (if s =? 6 then Some (Z.of_nat i) else t) e a ln y c)
    = Some (MkLexer s' (Z.of_nat i) (if s =? 6 then Some (Z.of_nat i) else t) e' a' ln y c) ->
  lexes (MkLexer s' (Z.of_nat (S i)) (if s =? 6 then Some (Z.of_nat i) else t) e' a' ln y c) Q ->
  lexes (MkLexer s (Z.of_nat i) t e a ln y c) Q.
Proof.
  intros Hs Hch Hn Hs' H6 He H. eapply lexes_step; [|exact H]. rewrite (lex_char _ _ _ _ _ _ _ _ _ _ _ Hs Hch Hn), He.
  cbn [mbind option_bind]. rewrite to_state_eq by (cbn; lia). cbn [cs]. rewrite (proj2 (Z.eqb_neq s' 6)) by done.
  cbn. unfold go_on. cbn. rewrite (proj2 (Z.eqb_neq s' 0)) by lia. unfold at_pos. cbn. do 3 f_equal. lia.
Qed.

(** At the end of one, after its last character or before the next. *)
Lemma lexes_end s i t e a ln y c ch acts x e' a' ln' y' c' Q : 1 <= s < 40 -> str !! i = Some ch ->
  next s (schar ch) = Some (6, acts) ->
  exec_actions str acts (MkLexer 6 (Z.of_nat i) (if s =? 6 then Some (Z.of_nat i) else t) e a ln y c)
    = Some (MkLexer 6 (Z.of_nat x - 1) (if s =? 6 then Some (Z.of_nat i) else t) e' a' ln' y' c') ->
  lexes (MkLexer 6 (Z.of_nat x) None e' a' ln' y' c') Q ->
  lexes (MkLexer s (Z.of_nat i) t e a ln y c) Q.
Proof.
  intros Hs Hch Hn He H. eapply lexes_step; [|exact H]. rewrite (lex_char _ _ _ _ _ _ _ _ _ _ _ Hs Hch Hn), He.
  cbn [mbind option_bind]. rewrite to_state_eq by (cbn; lia). cbn. unfold go_on, at_pos. cbn. do 3 f_equal. lia.
Qed.

Lemma drop_head i ch (l : bytes) : drop i str = ch :: l -> str !! i = Some ch /\ drop (S i) str = l.
Proof.
  intros H. split.
  - rewrite <- (Nat.add_0_r i), <- lookup_drop, H. reflexivity.
  - change (S i) with (1 + i)%nat. rewrite Nat.add_comm, <- drop_drop, H. reflexivity.
Qed.

(** *** Words *)

(** The end of a word that has been read up to [i]. *)
Definition word_ended (i : nat) : Prop :=
  i = length str \/ exists ch, str !! i = Some ch /\ word_char (schar ch) = false.

Definition word_done (r : Z * Z) (e : option Z) (i : nat) : Prop :=
  r.1 ∈ word_states /\ (r.1 = 8 -> e = Some (Z.of_nat i) /\ known_act r.2 = true).

Lemma exec_end_word s i t e a ln y c y' c' : word_done (s, a) e i -> (t < i)%nat -> (i <= length str)%nat ->
  Parse (id_of (s, a)) (Some (MkToken (id_of (s, a)) (take (i - t) (drop t str)))) ln y c = Some (y', c') ->
  exec_actions str (ends_word s) (MkLexer 6 (Z.of_nat i) (Some (Z.of_nat t)) e a ln y c)
    = Some (MkLexer 6 (Z.of_nat i - 1) (Some (Z.of_nat t)) (Some (Z.of_nat i)) a ln y' c').
Proof.
  intros [Hs H8] Ht Hi HP. unfold ends_word. rewrite exec_one. cbn [fst snd] in *.
  assert (forall id, id = id_of (s, a) -> KEYWORD str id
    (MkLexer 6 (Z.of_nat i - 1) (Some (Z.of_nat t)) (Some (Z.of_nat i)) a ln y c)
    = Some (MkLexer 6 (Z.of_nat i - 1) (Some (Z.of_nat t)) (Some (Z.of_nat i)) a ln y' c')) as Hk.
  { intros id ->. unfold KEYWORD, new_Token. cbn [ts te mbind option_bind].
    rewrite (proj2 (Z.leb_le 0 _)) by lia. rewrite (proj2 (Z.leb_le _ (pe str))) by (unfold pe; lia). cbn [andb mbind option_bind].
    unfold slice, parse. cbn [line parser ctx]. replace (Z.to_nat (Z.of_nat i - Z.of_nat t)) with (i - t)%nat by lia.
    rewrite Nat2Z.id, HP. reflexivity. }
  unfold id_of in Hk. cbn [fst snd] in Hk. destruct (Z.eqb_spec s 8) as [->|Hn].
  - destruct (H8 eq_refl) as [-> Ha]. unfold known_act in Ha. rewrite bool_decide_eq_true, !elem_of_cons in Ha.
    destruct Ha as [->|[->|[->|[->|[->|[->|[->|[->|Ha]]]]]]]]; [by apply Hk..|by apply not_elem_of_nil in Ha].
  - destruct (Z.eqb_spec s 16) as [->|]; by apply (Hk TK_ID).
Qed.

Lemma word_end_next s ch : s ∈ word_states -> word_char (schar ch) = false -> next s (schar ch) = Some (6, ends_word s).
Proof.
  intros Hs Hc. pose proof (checked _ _ s ch word_steps Hs) as H. unfold word_step_ok in H. cbn [fst snd] in H.
  rewrite Hc in H. by apply bool_decide_eq_true in H.
Qed.

Lemma word_eof s i t e a ln y c : s ∈ word_states -> i = length str ->
  lex_step str (MkLexer s (Z.of_nat i) t e a ln y c)
  = go_on <$> (l ← exec_actions str (ends_word s) (MkLexer 6 (Z.of_nat i) t e a ln y c); to_state l).
Proof.
  intros Hs ->. pose proof word_eofs as H. rewrite forallb_forall in H. specialize (H s (proj1 (list_elem_of_In _ _) Hs)).
  apply bool_decide_eq_true in H. unfold next_eof in H. unfold lex_step. cbn [p cs].
  rewrite (proj2 (Z.eqb_eq _ _)) by done. destruct (tab conf_lexer_eof_trans s) as [x|]; [|done]. cbn [mbind option_bind] in *.
  destruct (x >? 0); [|done]. unfold take_trans. destruct (tab conf_lexer_trans_targs (x - 1)) as [s'|]; [|done].
  cbn [mbind option_bind] in *. destruct (trans_acts (x - 1)); [|done]. cbn [mbind option_bind] in *.
  injection H as -> ->. reflexivity.
Qed.

Lemma lexes_word_end s i t e a ln y c y' c' Q : word_done (s, a) e i -> (t < i)%nat -> (i <= length str)%nat -> word_ended i ->
  Parse (id_of (s, a)) (Some (MkToken (id_of (s, a)) (take (i - t) (drop t str)))) ln y c = Some (y', c') ->
  lexes (MkLexer 6 (Z.of_nat i) None (Some (Z.of_nat i)) a ln y' c') Q ->
  lexes (MkLexer s (Z.of_nat i) (Some (Z.of_nat t)) e a ln y c) Q.
Proof.
  intros Hd Ht Hi Hend HP H. pose proof (exec_end_word _ _ _ _ _ _ _ _ _ _ Hd Ht Hi HP) as He.
  assert (s ∈ word_states) as Hs by apply Hd. assert (1 <= s < 40 /\ (s =? 6) = false) as [Hs1 Hs6].
  { apply word_state in Hs. split; [lia|]. apply Z.eqb_neq. lia. }
  destruct Hend as [E|(ch & Hch & Hc)].
  - eapply lexes_step; [|exact H]. rewrite word_eof by done. rewrite He. cbn [mbind option_bind].
    rewrite to_state_eq by (cbn; lia). cbn. unfold go_on, at_pos. cbn. do 3 f_equal. lia.
  - eapply (lexes_end _ _ _ _ _ _ _ _ ch (ends_word s)); [done|done|by apply word_end_next| |exact H]. rewrite Hs6. exact He.
Qed.

Lemma exec_record s i t e a ln y c b : b = 13 \/ 6 <= b <= 10 ->
  exec_actions str [5; b] (MkLexer s (Z.of_nat i) t e a ln y c)
    = Some (MkLexer s (Z.of_nat i) t (Some (Z.of_nat (S i))) (act_of b) ln y c) /\ known_act (act_of b) = true.
Proof.
  intros Hb. replace (Z.of_nat (S i)) with (Z.of_nat i + 1) by lia.
  assert (b = 6 \/ b = 7 \/ b = 8 \/ b = 9 \/ b = 10 \/ b = 13) as [->|[->|[->|[->|[->| ->]]]]] by lia; done.
Qed.

(** One more character of a word. *)
Lemma lexes_word_char w r i t e ln y c ch Q : read_so_far w r -> str !! i = Some ch -> word_char (schar ch) = true ->
  (r.1 = 6 -> starts_word ch = true) ->
  (forall e', word_done (word_step r ch) e' (S i) ->
     lexes (MkLexer (word_step r ch).1 (Z.of_nat (S i)) (if r.1 =? 6 then Some (Z.of_nat i) else t) e' (word_step r ch).2 ln y c) Q) ->
  lexes (MkLexer r.1 (Z.of_nat i) t e r.2 ln y c) Q.
Proof.
  intros Hr Hch Hc H6 H. destruct (word_step_read w r ch Hr Hc H6) as (_ & Hw & acts & Hn & Hacts).
  assert (1 <= r.1 < 40) as Hs.
  { destruct Hr as [Hr _]. apply elem_of_cons in Hr as [->|Hr]; [lia|]. apply word_state in Hr. lia. }
  assert (1 <= (word_step r ch).1 < 40 /\ (word_step r ch).1 <> 6) as [Hs' Hs6] by (apply word_state in Hw; lia).
  destruct Hacts as [(-> & Hlt & E2)|(E8 & b & -> & Hb & E2)].
  - eapply (lexes_inner _ _ _ _ _ _ _ _ _ _ []); [done|done|done|done|done|reflexivity|]. rewrite <- E2. apply H. split; [done|lia].
  - destruct (exec_record (word_step r ch).1 i (if r.1 =? 6 then Some (Z.of_nat i) else t) e r.2 ln y c b Hb) as [E Ha].
    eapply lexes_inner; [done|done|done|done|done|exact E|]. rewrite <- E2. apply H. split; [done|]. intros _. by rewrite E2.
Qed.

Lemma lexes_word_chars w2 : forall w1 r i t e ln y c rest Q, read_so_far w1 r -> w1 <> [] -> r.1 <> 6 -> word_done r e i ->
  drop i str = w2 ++ rest -> forallb (fun c => word_char (schar c)) w2 = true ->
  (forall e', word_done (read_word w2 r) e' (i + length w2) ->
     lexes (MkLexer (read_word w2 r).1 (Z.of_nat (i + length w2)) (Some t) e' (read_word w2 r).2 ln y c) Q) ->
  lexes (MkLexer r.1 (Z.of_nat i) (Some t) e r.2 ln y c) Q.
Proof.
  induction w2 as [|ch w2 IH]; intros w1 r i t e ln y c rest Q Hr Hn H6 Hd Hdrop Hc H.
  { cbn [length read_word fold_left] in H. rewrite Nat.add_0_r in H. by apply H. }
  cbn [forallb] in Hc. apply andb_true_iff in Hc as [Hc1 Hc]. destruct (drop_head _ _ _ Hdrop) as [Hch Hdrop'].
  eapply lexes_word_char; [done|done|done|done|]. rewrite (proj2 (Z.eqb_neq r.1 6)) by done. intros e' Hd'.
  destruct (word_step_read w1 r ch Hr Hc1) as (Hr' & Hw & _); [done|].
  eapply (IH (w1 ++ [ch])); [done|by destruct w1|apply word_state in Hw; lia|done|exact Hdrop'|done|].
  cbn [length] in H. replace (i + S (length w2))%nat with (S i + length w2)%nat in H by lia. rewrite read_word_cons in H. exact H.
Qed.

(** A whole word. *)
Lemma lexes_word w i t e a ln y c y' c' rest Q : plain w = true -> drop i str = w ++ rest ->
  word_ended (i + length w) -> (i + length w <= length str)%nat ->
  Parse (default TK_ID (keyword_of w)) (Some (MkToken (default TK_ID (keyword_of w)) w)) ln y c = Some (y', c') ->
  (forall t e a, lexes (MkLexer 6 (Z.of_nat (i + length w)) t e a ln y' c') Q) ->
  lexes (MkLexer 6 (Z.of_nat i) t e a ln y c) Q.
Proof.
  intros Hp Hdrop Hend Hlen HP H. rewrite <- (word_kind w a Hp) in HP. destruct w as [|ch w]; [done|].
  pose proof Hp as Hp'. unfold plain in Hp'. apply andb_true_iff in Hp' as [Hq Hc]. cbn [forallb] in Hc.
  apply andb_true_iff in Hc as [Hc1 Hc]. assert (starts_word ch = true) as Hst by (unfold starts_word; by rewrite Hc1).
  assert (read_so_far [] (6, a)) as H0 by (split; [by left|done]).
  destruct (drop_head _ _ _ Hdrop) as [Hch Hdrop'].
  apply (lexes_word_char [] (6, a) i t e ln y c ch Q H0 Hch Hc1 (fun _ => Hst)). intros e1 Hd1.
  destruct (word_step_read [] (6, a) ch H0 Hc1 (fun _ => Hst)) as (Hr1 & Hw1 & _). rewrite read_word_cons in HP.
  set (r1 := word_step (6, a) ch) in *. clearbody r1.
  assert (r1.1 <> 6) as H6 by (apply word_state in Hw1; lia).
  change (if (6, a).1 =? 6 then Some (Z.of_nat i) else t) with (Some (Z.of_nat i)).
  eapply (lexes_word_chars w ([] ++ [ch])); [exact Hr1|done|done|done|exact Hdrop'|done|]. intros e2 Hd2.
  destruct (read_word w r1) as [s2 a2]. cbn [fst snd]. replace (S i + length w)%nat with (i + length (ch :: w))%nat in * by (cbn; lia).
  eapply lexes_word_end; [exact Hd2|cbn; lia|done|done| |apply H].
  replace (take _ (drop i str)) with (ch :: w); [exact HP|].
  rewrite Hdrop. replace (_ - _)%nat with (length (ch :: w)) by lia. by rewrite take_app_length.
Qed.

(** *** Quoted words *)

Lemma exec_mark acts s i t e a ln y c : acts = [] \/ acts = [5] -> exists e',
  exec_actions str acts (MkLexer s (Z.of_nat i) t e a ln y c) = Some (MkLexer s (Z.of_nat i) t e' a ln y c).
Proof. intros [-> | ->]; by eexists. Qed.

Lemma lexes_run_of (S : list Z) (f : ascii -> bool) w :
  (forall s ch, s ∈ S -> f ch = true -> exists s' acts, next s (schar ch) = Some (s', acts) /\ s' ∈ S /\ (acts = [] \/ acts = [5])) ->
  (forall s, s ∈ S -> 1 <= s < 40 /\ s <> 6) ->
  forall s i t e a ln y c rest Q, s ∈ S -> drop i str = w ++ rest -> forallb f w = true ->
  (forall s e, s ∈ S -> lexes (MkLexer s (Z.of_nat (i + length w)) t e a ln y c) Q) ->
  lexes (MkLexer s (Z.of_nat i) t e a ln y c) Q.
Proof.
  intros Hstep HS. induction w as [|ch w IH]; intros s i t e a ln y c rest Q Hs Hdrop Hf H.
  { cbn [length] in H. rewrite Nat.add_0_r in H. by apply H. }
  cbn [forallb] in Hf. apply andb_true_iff in Hf as [Hf1 Hf]. destruct (drop_head _ _ _ Hdrop) as [Hch Hdrop'].
  destruct (Hstep s ch Hs Hf1) as (s' & acts & Hn & Hs' & Hacts).
  destruct (exec_mark acts s' i t e a ln y c Hacts) as [e' He]. destruct (HS s Hs) as [H1 H2], (HS s' Hs') as [H3 H4].
  eapply lexes_inner; [exact H1|exact Hch|exact Hn|exact H3|exact H4| |].
  - rewrite (proj2 (Z.eqb_neq s 6)) by done. exact He.
  - rewrite (proj2 (Z.eqb_neq s 6)) by done. eapply (IH s'); [done|exact Hdrop'|done|]. intros s2 e2 Hs2.
    replace (Datatypes.S i + length w)%nat with (i + length (ch :: w))%nat by (cbn; lia). by apply H.
Qed.

Lemma mark_state (s : Z) (S : list Z) acts :
  bool_decide (s ∈ S) && bool_decide (acts = [] \/ acts = [5]) = true -> s ∈ S /\ (acts = [] \/ acts = [5]).
Proof. by rewrite andb_true_iff, !bool_decide_eq_true. Qed.

Lemma quoted_step s ch : s ∈ [1; 9] -> negb (bool_decide (schar ch ∈ [34; 92; 96])) = true ->
  exists s' acts, next s (schar ch) = Some (s', acts) /\ s' ∈ [1; 9] /\ (acts = [] \/ acts = [5]).
Proof.
  intros Hs Hc. pose proof (checked _ _ s ch quoted_steps Hs) as H. unfold quoted_step_ok in H. cbn [fst snd] in H.
  apply negb_true_iff in Hc. rewrite Hc in H. cbn [orb] in H. destruct (next s (schar ch)) as [[s' acts]|]; [|done].
  exists s', acts. split; [done|]. by apply mark_state.
Qed.
Lemma comment_step s ch : s ∈ [3; 11] -> negb (bool_decide (schar ch ∈ [10; 13])) = true ->
  exists s' acts, next s (schar ch) = Some (s', acts) /\ s' ∈ [3; 11] /\ (acts = [] \/ acts = [5]).
Proof.
  intros Hs Hc. pose proof (checked _ _ s ch comment_steps Hs) as H. unfold comment_step_ok in H. cbn [fst snd] in H.
  apply negb_true_iff in Hc. rewrite Hc in H. cbn [orb] in H. destruct (next s (schar ch)) as [[s' acts]|]; [|done].
  exists s', acts. split; [done|]. by apply mark_state.
Qed.

Lemma in_pair_range s a b : s ∈ [a; b] -> 1 <= a < 40 -> a <> 6 -> 1 <= b < 40 -> b <> 6 -> 1 <= s < 40 /\ s <> 6.
Proof. rewrite !elem_of_cons. intros [->|[->|?%not_elem_of_nil]]; done. Qed.

(** The character after some that were read. *)
Lemma drop_after i w ch rest : drop i str = w ++ ch :: rest -> str !! (i + length w)%nat = Some ch.
Proof. intros H. rewrite <- lookup_drop, H. by apply list_lookup_middle. Qed.

Lemma lexes_quoted w i t e a ln y c y' c' rest Q : piece_ok (PQuoted w) = true ->
  drop i str = piece_text (PQuoted w) ++ rest -> word_ended (i + length (piece_text (PQuoted w))) ->
  (i + length (piece_text (PQuoted w)) <= length str)%nat ->
  Parse TK_ID (Some (MkToken TK_ID (piece_text (PQuoted w)))) ln y c = Some (y', c') ->
  (forall t e a, lexes (MkLexer 6 (Z.of_nat (i + length (piece_text (PQuoted w)))) t e a ln y' c') Q) ->
  lexes (MkLexer 6 (Z.of_nat i) t e a ln y c) Q.
Proof.
  intros Hok Hdrop Hend Hlen HP H. set (q := piece_text (PQuoted w)) in *.
  assert (drop i str = quote :: w ++ quote :: rest) as Hd by (rewrite Hdrop; subst q; cbn; by rewrite <- app_assoc).
  assert (length q = length w + 2)%nat as Hq by (subst q; cbn; rewrite length_app; cbn; lia).
  destruct (drop_head _ _ _ Hd) as [Hch Hd'].
  eapply (lexes_inner 6 i t e a ln y c quote 9 [5]); [done|done|reflexivity|done|done|reflexivity|]. cbn [Z.eqb Pos.eqb].
  eapply (lexes_run_of [1; 9] _ w quoted_step); [intros s Hs; by eapply in_pair_range|by right; left|exact Hd'|exact Hok|].
  intros s e2 Hs. pose proof (drop_after _ _ _ _ Hd') as Hch2. rewrite !elem_of_cons in Hs.
  assert (take (S (S i + length w) - i) (drop i str) = q) as Htk.
  { rewrite Hdrop. replace (S (S i + length w) - i)%nat with (length q) by lia. by rewrite take_app_length. }
  destruct Hs as [->|[->|?%not_elem_of_nil]]; [| |done].
  - eapply (lexes_end 1 _ _ _ _ _ _ _ quote [17] (S (S i + length w))); [done|exact Hch2|reflexivity| |].
    + cbn [exec_actions exec_action Z.eqb Pos.eqb]. unfold ID, KEYWORD, new_Token, end_here, set_te. cbn [ts te p cs act line parser ctx mbind option_bind].
      rewrite (proj2 (Z.leb_le 0 _)) by lia. rewrite (proj2 (Z.leb_le _ (pe str))) by (unfold pe; lia). cbn [andb mbind option_bind].
      unfold parse, slice. cbn [line parser ctx]. replace (Z.to_nat _) with (S (S i + length w) - i)%nat by lia.
      rewrite Nat2Z.id, Htk, HP. cbn [mbind option_bind]. unfold set_parser. cbn [cs p ts te act line]. do 2 f_equal. lia.
    + replace (S (S i + length w)) with (i + length q)%nat by lia. apply H.
  - eapply (lexes_inner 9 _ _ _ _ _ _ _ quote 8 [5; 11] (Some (Z.of_nat (S i + length w) + 1)) 10);
      [done|exact Hch2|reflexivity|done|done|reflexivity|]. cbn [Z.eqb Pos.eqb].
    eapply (lexes_word_end 8 (S (S i + length w)) i); [| | | | |].
    + split; [by left|]. cbn [snd]. intros _. split; [f_equal; lia|done].
    + lia.
    + lia.
    + by replace (S (S i + length w)) with (i + length q)%nat by lia.
    + rewrite Htk. exact HP.
    + replace (S (S i + length w)) with (i + length q)%nat by lia. apply H.
Qed.

(** *** Pieces without a token, and symbols *)

Lemma lexes_comment w i t e a ln y c rest Q : piece_ok (PComment w) = true ->
  drop i str = piece_text (PComment w) ++ rest ->
  (forall t e a, lexes (MkLexer 6 (Z.of_nat (i + length (piece_text (PComment w)))) t e a (ln + 1) y c) Q) ->
  lexes (MkLexer 6 (Z.of_nat i) t e a ln y c) Q.
Proof.
  intros Hok Hdrop H. set (q := piece_text (PComment w)) in *.
  assert (drop i str = "#"%char :: w ++ LF :: rest) as Hd by (rewrite Hdrop; subst q; cbn; by rewrite <- app_assoc).
  assert (length q = length w + 2)%nat as Hq by (subst q; cbn; rewrite length_app; cbn; lia).
  destruct (drop_head _ _ _ Hd) as [Hch Hd'].
  eapply (lexes_inner 6 i t e a ln y c "#"%char 11 [5]); [done|done|reflexivity|done|done|reflexivity|]. cbn [Z.eqb Pos.eqb].
  eapply (lexes_run_of [3; 11] _ w comment_step); [intros s Hs; by eapply in_pair_range|by right; left|exact Hd'|exact Hok|].
  intros s e2 Hs. pose proof (drop_after _ _ _ _ Hd') as Hch2.
  assert (1 <= s < 40 /\ (s =? 6) = false /\ next s (schar LF) = Some (6, [0; 18])) as (H1 & H6 & Hn).
  { rewrite !elem_of_cons in Hs. destruct Hs as [->|[->|?%not_elem_of_nil]]; done. }
  eapply (lexes_end s _ _ _ _ _ _ _ LF [0; 18] (S (S i + length w))); [done|exact Hch2|exact Hn| |].
  - rewrite H6. cbn [exec_actions exec_action mbind option_bind]. unfold end_here, set_te, set_line. cbn [cs p ts te act line parser ctx].
    do 2 f_equal. lia.
  - replace (S (S i + length w)) with (i + length q)%nat by lia. apply H.
Qed.

(** A piece of one character. *)
Lemma lexes_single i t e a ln y c ch rest acts ln' y' c' Q : drop i str = ch :: rest -> next 6 (schar ch) = Some (6, acts) ->
  (exists e', exec_actions str acts (MkLexer 6 (Z.of_nat i) (Some (Z.of_nat i)) e a ln y c)
    = Some (MkLexer 6 (Z.of_nat i) (Some (Z.of_nat i)) e' a ln' y' c')) ->
  (forall t e a, lexes (MkLexer 6 (Z.of_nat (i + 1)) t e a ln' y' c') Q) ->
  lexes (MkLexer 6 (Z.of_nat i) t e a ln y c) Q.
Proof.
  intros Hd Hn [e' He] H. destruct (drop_head _ _ _ Hd) as [Hch _].
  eapply (lexes_end 6 _ _ _ _ _ _ _ ch acts (i + 1)); [done|exact Hch|exact Hn| |apply H].
  cbn [Z.eqb Pos.eqb]. rewrite He. do 2 f_equal. lia.
Qed.

Lemma exec_symbol (k b : Z) i e a ln y c y' c' :
  exec_action str b (MkLexer 6 (Z.of_nat i) (Some (Z.of_nat i)) e a ln y c)
    = SYMBOL k (end_here (MkLexer 6 (Z.of_nat i) (Some (Z.of_nat i)) e a ln y c)) ->
  Parse k None ln y c = Some (y', c') ->
  exists e', exec_actions str [b] (MkLexer 6 (Z.of_nat i) (Some (Z.of_nat i)) e a ln y c)
    = Some (MkLexer 6 (Z.of_nat i) (Some (Z.of_nat i)) e' a ln y' c').
Proof.
  intros Hb HP. rewrite exec_one, Hb. unfold SYMBOL, parse. cbn [line parser ctx end_here set_te]. rewrite HP. by eexists.
Qed.

(** Any piece: its token goes to the parser, and its lines are counted. *)
Lemma lexes_piece x i t e a ln y c y' c' rest Q : piece_ok x = true -> drop i str = piece_text x ++ rest ->
  (is_word x = true -> word_ended (i + length (piece_text x))) ->
  match piece_token x with
  | Some (k, tk) => Parse k tk ln y c = Some (y', c')
  | None => y' = y /\ c' = c
  end ->
  (forall t e a, lexes (MkLexer 6 (Z.of_nat (i + length (piece_text x))) t e a (next_line ln x) y' c') Q) ->
  lexes (MkLexer 6 (Z.of_nat i) t e a ln y c) Q.
Proof.
  intros Hok Hd Hend HP H.
  assert (i + length (piece_text x) <= length str \/ piece_text x = [])%nat as Hlen.
  { apply (f_equal length) in Hd. rewrite length_drop, length_app in Hd. destruct (piece_text x); [by right|left]. cbn [length] in *. lia. }
  destruct x as [w|w|k|tab| |w]; cbn [piece_token next_line] in *.
  - eapply (lexes_word w); [exact Hok|exact Hd|by apply Hend|destruct Hlen as [?|E]; [done|cbn in E; by subst w]|exact HP|exact H].
  - eapply lexes_quoted; [exact Hok|exact Hd|by apply Hend|by destruct Hlen|exact HP|exact H].
  - cbn [piece_ok piece_text app length symbol] in *. rewrite bool_decide_eq_true, !elem_of_cons in Hok.
    destruct Hok as [->|[->|[->|?%not_elem_of_nil]]]; [| | |done];
      (eapply lexes_single; [exact Hd|reflexivity| |exact H]; eapply exec_symbol; [reflexivity|exact HP]).
  - destruct HP as [-> ->]. cbn [piece_text app length] in *.
    eapply (lexes_single _ _ _ _ _ _ _ _ _ [19]); [exact Hd|by destruct tab|by eexists|exact H].
  - destruct HP as [-> ->]. eapply (lexes_single _ _ _ _ _ _ _ _ _ [0; 19]); [exact Hd|reflexivity|by eexists|exact H].
  - destruct HP as [-> ->]. eapply lexes_comment; [exact Hok|exact Hd|exact H].
Qed.

(** All pieces. *)
Lemma lexes_pieces l : forall i t e a ln y c y' c' Q, laid_out l = true -> drop i str = text l -> (i + length (text l) = length str)%nat ->
  parse_tokens (zip (tokens l) (token_lines ln l)) y c = Some (y', c') ->
  (forall t e a ln, lexes (MkLexer 6 (Z.of_nat (length str)) t e a ln y' c') Q) ->
  lexes (MkLexer 6 (Z.of_nat i) t e a ln y c) Q.
Proof.
  induction l as [|x l IH]; intros i t e a ln y c y' c' Q Hok Hd Hlen HP H.
  { cbn in Hlen, HP. injection HP as -> ->. replace i with (length str) by lia. apply H. }
  cbn [laid_out] in Hok. apply andb_true_iff in Hok as [Hok Hl]. apply andb_true_iff in Hok as [Hx Hsep].
  unfold text in Hd, Hlen. cbn [map concat] in Hd, Hlen. fold (text l) in Hd, Hlen. rewrite length_app in Hlen.
  assert (is_word x = true -> word_ended (i + length (piece_text x))) as Hend.
  { intros Hw. rewrite Hw in Hsep. destruct l as [|z l]; [left; cbn in Hlen; lia|right].
    unfold text in Hd. cbn [map concat] in Hd. cbn [laid_out] in Hl. apply andb_true_iff in Hl as [Hz _].
    apply andb_true_iff in Hz as [Hz _]. destruct z as [| |k|tab| |]; try done.
    - cbn [piece_text app] in Hd. exists (symbol_char k). split; [by eapply drop_after|].
      cbn [piece_ok] in Hz. rewrite bool_decide_eq_true, !elem_of_cons in Hz. destruct Hz as [->|[->|[->|?%not_elem_of_nil]]]; done.
    - cbn [piece_text app] in Hd. eexists. split; [by eapply drop_after|by destruct tab].
    - cbn [piece_text app] in Hd. eexists. split; [by eapply drop_after|done]. }
  assert (drop (i + length (piece_text x)) str = text l) as Hd'.
  { by rewrite <- drop_drop, Hd, drop_app_length. }
  unfold tokens in HP. cbn [omap list_omap token_lines] in HP. fold (tokens l) in HP.
  destruct (piece_token x) as [[k tk]|] eqn:Ek.
  - cbn [app zip zip_with parse_tokens] in HP. destruct (Parse k tk ln y c) as [[y1 c1]|] eqn:E1; [|done]. cbn [mbind option_bind] in HP.
    eapply (lexes_piece x i t e a ln y c y1 c1); [done|exact Hd|done|by rewrite Ek|]. intros t1 e1 a1.
    eapply IH; [done|done|lia|exact HP|done].
  - eapply (lexes_piece x i t e a ln y c y c); [done|exact Hd|done|by rewrite Ek|]. intros t1 e1 a1.
    eapply IH; [done|done|lia|exact HP|done].
Qed.

(** The scan of the whole text. *)
Lemma scan_pieces l y c : laid_out l = true -> str = text l -> 
  parse_tokens (zip (tokens l) (token_lines 0 l)) ParseAlloc new_ParseContext = Some (y, c) ->
  exists m, lex_run str (lex_fuel str) new_Lexer = Some m /\ cs m = 6 /\ parser m = y /\ ctx m = c.
Proof.
  intros Hok Hs HP.
  destruct (lexes_pieces l 0 None None 0 0 ParseAlloc new_ParseContext y c
    (fun m => cs m = 6 /\ parser m = y /\ ctx m = c) Hok) as (fuel & r & E & Hr); [done|by rewrite Hs|done| |].
  { intros t e a ln. exists 1%nat, (MkLexer 6 (Z.of_nat (length str)) t e a ln y c). split; [|by split_and!]. cbn [lex_run]. unfold lex_step. cbn [p cs].
    rewrite (proj2 (Z.eqb_eq _ _)) by done. reflexivity. }
  destruct (lex_run_total str new_Lexer) as (m & Em & _).
  { split; [done|]. split; [cbn; unfold pe; lia|]. split; [by left|done]. }
  { unfold measure, base, pe. cbn. lia. }
  exists m. split; [done|]. assert (m = r) as ->; [|done].
  assert (forall k f l0 x, lex_run str f l0 = Some x -> lex_run str (k + f) l0 = Some x) as Hmore.
  { induction k as [|k IHk]; intros f l0 x Hf; [done|]. by apply lex_run_more, IHk. }
  change (MkLexer 6 (Z.of_nat 0) None None 0 0 ParseAlloc new_ParseContext) with new_Lexer in E.
  pose proof (Hmore fuel _ _ _ Em) as H1. pose proof (Hmore (lex_fuel str) _ _ _ E) as H2. rewrite Nat.add_comm in H2. congruence.
Qed.
End pieces.

(** ** The file *)

(** [CheckKidsConfig], in the end, on a meaning. *)
Definition checked_meaning (r : KidsConfig * bool) (c : ParseContext) : Prop :=
  if r.2 then
    let '(conf, c') := CheckKidsConfig r.1 (MkContext true [] (Some r.1)) in c = with_conf conf c'
  else ctx_success c = false /\ ctx_conf c = Some r.1.

Lemma token_lines_length l : forall ln, length (token_lines ln l) = length (tokens l).
Proof.
  unfold tokens. induction l as [|x l IH]; intros ln; [done|]. cbn [token_lines omap list_omap]. rewrite length_app, IH.
  by destruct (piece_token x).
Qed.

Lemma parse_tokens_app l1 l2 y c : parse_tokens (l1 ++ l2) y c = '(y, c) ← parse_tokens l1 y c; parse_tokens l2 y c.
Proof.
  revert y c. induction l1 as [|[[k t] ln] l1 IH]; intros y c; [done|]. cbn [app parse_tokens].
  destruct (Parse k t ln y c) as [[y1 c1]|]; cbn [mbind option_bind]; [apply IH|done].
Qed.

Lemma ParseConfig_scan str y c : str <> [] -> (exists m, lex_run str (lex_fuel str) new_Lexer = Some m /\ cs m = 6 /\ parser m = y /\ ctx m = c) ->
  exists ln, ParseConfig str = '(_, c) ← Parse 0 None ln y c;
    if ctx_success c then conf ← ctx_conf c; let '(conf, c) := CheckKidsConfig conf c in Some (with_conf conf c) else Some c.
Proof.
  intros Hn (m & E & Hcs & <- & <-). exists (line m). unfold ParseConfig. destruct str as [|ch s]; [done|]. rewrite E.
  cbn [mbind option_bind]. rewrite Hcs. cbn [Z.ltb Z.compare Pos.compare Pos.compare_cont conf_lexer_first_final].
  by destruct (Parse 0 None (line m) (parser m) (ctx m)) as [[y c]|].
Qed.

Lemma ParseConfig_pieces f l : laid_out l = true -> tokens l = config_tokens f ->
  Forall (fun i => item_height i <= 19)%nat (first_item f :: more_items f) ->
  exists c, ParseConfig (text l) = Some c /\ checked_meaning (config_meaning f) c.
Proof.
  intros Hok Ht Hh. pose proof (tokens_valid f) as Hv. apply Forall_app in Hv as [Hv _].
  assert (text l <> []) as Hne.
  { destruct l as [|x l]; [|by destruct x as [[|? ?]| | | | |]; unfold text; cbn].
    unfold tokens in Ht. cbn in Ht. destruct f as [[[]| | |[]] m]; done. }
  destruct (parse_tokens_ok (zip (config_tokens f) (token_lines 0 l)) ParseAlloc new_ParseContext) as (y & c & E & _); [by left| |].
  { apply Forall_forall. intros [x ln] Hx. apply elem_of_zip_l in Hx. rewrite Forall_forall in Hv. by apply Hv. }
  destruct (ParseConfig_scan (text l) y c Hne) as [ln ->].
  { apply (scan_pieces _ l); [done|done|]. by rewrite Ht. }
  destruct (parser_meaning f (token_lines 0 l ++ [ln]) Hh) as (p' & txt & E' & _ & Htxt).
  { rewrite length_app, token_lines_length, Ht. cbn. lia. }
  rewrite zip_with_app in E' by (by rewrite token_lines_length, Ht). rewrite parse_tokens_app, E in E'. cbn [mbind option_bind zip zip_with] in E'.
  cbn [parse_tokens] in E'. destruct (Parse 0 None ln y c) as [[y2 c2]|]; [|done]. cbn [mbind option_bind] in *. injection E' as _ ->.
  unfold checked_meaning. destruct (config_meaning f) as [conf ok]. cbn [fst snd ctx_success ctx_conf mbind option_bind] in *.
  destruct ok; [rewrite (Htxt eq_refl)|by eexists]. destruct (CheckKidsConfig conf _) as [conf' c']. by eexists.
Qed.

(** C10. However the text of a configuration is laid out (blanks, newlines and comments between
    its words, words quoted or not; the quotes of a word stay in its value), with stores nested at
    most 19 deep, scanning and parsing it accepts it exactly if it is valid: every nlimit has a mode
    and three quantities, no store has a setting stores do not have, there is one store at most, a
    listen block comes before any other address, and its store describes a well-formed one. And then
    the configuration says what the text says: each setting has the first value it was given last
    (so that of several topics of a store the last counts), a log block gives the level and the file
    and a listen block the address, but the block the file begins with every setting in it, each
    limit is the last of its mode, and the store has the stores of its block with the primary store
    of a buffer store first, a topic that is not given is "*", and without a store there is a null
    store. *)
Theorem ParseConfig_layout f l : laid_out l = true -> tokens l = config_tokens f ->
  Forall (fun i => item_height i <= 19)%nat (first_item f :: more_items f) ->
  exists c, ParseConfig (text l) = Some c /\ (ctx_success c = true <-> valid f)
    /\ (valid f -> exists conf, ctx_conf c = Some conf /\ says f conf).
Proof.
  intros Hok Ht Hh. destruct (ParseConfig_pieces f l Hok Ht Hh) as (c & E & Hc). exists c. split; [done|].
  pose proof (meaning_says f) as Hm. unfold checked_meaning in Hc. destruct (config_meaning f) as [conf ok]. cbn [fst snd] in Hc.
  destruct Hm as [Hv Hs]. destruct ok.
  2: { destruct Hc as [-> _]. assert (~ valid f) as Hn by (rewrite Hv; by intros []). by split. }
  destruct (CheckKidsConfig conf _) as [conf' c']. subst c. cbn in *. split; [rewrite Hv; tauto|].
  intros H. exists conf'. split; [done|]. by apply Hs.
Qed.

(** ** An example: samples/agent.conf, with a comment and an address *)

Definition agent_pieces : list piece :=
  let w s := PWord (bs s) in let sp := PBlank false in let tab := PBlank true in
  let semi := PSymbol TK_SEMICOLON in let lb := PSymbol TK_LP in let rb := PSymbol TK_RP in let nl := PNewline in
  [PComment (bs " agent"); w "ignore_case"; sp; w "on"; semi; nl;
   w "nlimit"; sp; w "pubsub"; sp; w "32MB"; sp; w "16MB"; sp; w "10min"; semi; nl;
   w "worker_threads"; sp; w "1"; semi; nl;
   w "log"; sp; lb; nl; sp; w "level"; sp; w "info"; semi; nl; tab; w "file"; sp; w "/var/log/kids.log"; semi; nl; rb; nl;
   w "listen"; sp; lb; w "host"; sp; w "127.0.0.1"; semi; w "port"; tab; w "3388"; semi; w "socket"; sp; w "/var/run/kids.sock"; semi; rb; nl;
   w "store"; sp; w "buffer"; sp; lb; nl;
   w "store"; sp; w "network"; sp; w "primary"; sp; lb; w "host"; sp; w "10.0.0.1"; semi; w "port"; sp; w "3388"; semi; rb; nl;
   w "store"; sp; w "file"; sp; w "secondary"; lb; w "path"; sp; w "/data/data/kidsbuf"; semi; w "rotate"; sp; w "5min"; semi; rb; nl; rb]%string.

Lemma agent_accepted : ctx_success <$> ParseConfig (text agent_pieces) = Some true.
Proof. by vm_compute. Qed.

Lemma ParseConfig_layout_witness :
  take 24 (text agent_pieces) = bs "# agent" ++ [LF] ++ bs "ignore_case on;" ++ [LF]
  /\ exists c conf, ParseConfig (text agent_pieces) = Some c /\ ctx_conf c = Some conf /\ says agent_conf conf.
Proof.
  split; [by vm_compute|]. destruct (ParseConfig_layout agent_conf agent_pieces) as (c & E & Hok & Hs).
  - by vm_compute.
  - by vm_compute.
  - repeat constructor; vm_compute; lia.
  - pose proof agent_accepted as H. rewrite E in H. injection H as H. destruct (Hs (proj1 Hok H)) as (conf & Hc & Hsay).
    exists c, conf. split; [exact E|]. split; [exact Hc|exact Hsay].
Defined.

(** Of several topics of a store the last one counts, although doc/store.md
    gives a null store three of them. *)
Example last_topic_counts :
  (c ← ParseConfig (bs "store null { topic kids.ignoretopic1; topic test.debug; topic debug.*; }");
   conf ← ctx_conf c; s ← kc_store conf; Some (sc_topic (sc_fields s))) = Some (bs "debug.*").
Proof. by vm_compute. Qed.
