(* ===== verification/Creation.v ===== *)
(** * store/store.cc: the stores a configuration asks for

    [Store::Create] and the constructors it calls.  A store is a tree: file,
    network and null stores at the leaves, stores of stores above, at most as
    deep as a bound; its operations are those of what it is, so that the
    instances of the stores are the virtual dispatch. *)

From S2P Require Import Prelude Common Util Glob Conf Parser Grammar Lexer Layout EventLoop Files Stores FileStore NetworkStore.

(** ** Any store *)

(** A store of one more level. *)
Inductive store_above (L T : Type) : Type :=
| SLeaf (l : L)
| SMultiple (m : MultipleStore T)
| SPriority (p : PriorityStore T)
| SBuffer (b : BufferStore T T).
Arguments SLeaf {_ _}.
Arguments SMultiple {_ _}.
Arguments SPriority {_ _}.
Arguments SBuffer {_ _}.

(** Where a network store connects: [socket_], or [host_] and [port_]. *)
Inductive address : Type :=
| Unix (socket : bytes)
| Tcp (host : bytes) (port : Z).

(** A store that is not made of stores. *)
Inductive leaf (FS EL : Type) : Type :=
| LNull (s : NullStore)
| LFile (s : FileStore FS)
| LNetwork (a : address) (s : NetworkStore EL).
Arguments LNull {_ _}.
Arguments LFile {_ _}.
Arguments LNetwork {_ _}.

(** Results whose state is wrapped. *)
Definition wrap {A B C : Type} (f : A -> B) (r : option (C * A * Statistic)) : option (C * B * Statistic) :=
  '(x, s, st) ← r; Some (x, f s, st).
Definition wrap_unit {A B : Type} (f : A -> B) (r : option (A * Statistic)) : option (B * Statistic) :=
  '(s, st) ← r; Some (f s, st).

(** What an object of a class is: its own class with its methods, and how it
    is one of the other. *)
Record object (T : Type) : Type := Object {
  own_class : Type;
  methods : StoreOps own_class;
  self : own_class;
  as_base : own_class -> T;
}.
Arguments Object {_ _}.
Arguments own_class {_}.
Arguments methods {_}.
Arguments self {_}.
Arguments as_base {_}.

(** Virtual dispatch: each method is that of the object's own class. *)
Definition virtual {T} (what : T -> object T) : StoreOps T := {|
  topic_ s := topic_ (StoreOps := methods (what s)) (self (what s));
  Open c s st := let o := what s in wrap (as_base o) (Open (StoreOps := methods o) c (self o) st);
  IsOpen s := IsOpen (StoreOps := methods (what s)) (self (what s));
  Close s st := let o := what s in wrap_unit (as_base o) (Close (StoreOps := methods o) (self o) st);
  DoAddMessage c msg s st := let o := what s in wrap (as_base o) (DoAddMessage (StoreOps := methods o) c msg (self o) st);
  State s := State (StoreOps := methods (what s)) (self (what s));
  HaveOldMessage s := HaveOldMessage (StoreOps := methods (what s)) (self (what s));
  GetOldestMessages s := GetOldestMessages (StoreOps := methods (what s)) (self (what s));
  DeleteOldestMessages s := let o := what s in as_base o (DeleteOldestMessages (StoreOps := methods o) (self o));
  Cron c s st := let o := what s in wrap_unit (as_base o) (Cron (StoreOps := methods o) c (self o) st);
  Delete s st := Delete (StoreOps := methods (what s)) (self (what s)) st;
|}.

#[export] Instance leaf_ops {FS EL} `{FileSystem FS} `{FileEvents EL nproc unit} (localtime : Z -> tm)
    (connect : address -> clock -> option Z) : StoreOps (leaf FS EL) := virtual (fun s =>
  match s with
  | LNull x => Object NullStore_ops x LNull
  | LFile x => Object (FileStore_ops localtime) x LFile
  | LNetwork a x => Object (NetworkStore_ops (connect a)) x (LNetwork a)
  end).

Definition above_ops {L T} (leaf_methods : StoreOps L) (below : StoreOps T) (ic : bool) : StoreOps (store_above L T) :=
  virtual (fun s =>
  match s with
  | SLeaf x => Object leaf_methods x SLeaf
  | SMultiple x => Object (@MultipleStore_ops T below ic) x SMultiple
  | SPriority x => Object (@PriorityStore_ops T below ic) x SPriority
  | SBuffer x => Object (@BufferStore_ops T T below below ic) x SBuffer
  end).

(** Stores with at most [n] stores of stores above a leaf. *)
Fixpoint Store (L : Type) (n : nat) : Type :=
  match n with O => L | S n => store_above L (Store L n) end.

#[export] Instance Store_ops {L} (leaf_methods : StoreOps L) (ic : bool) : forall n, StoreOps (Store L n) :=
  fix ops n := match n return StoreOps (Store L n) with
    | O => leaf_methods
    | S n => above_ops leaf_methods (ops n) ic
    end.

(** ** The constructors *)

Section create.
Context {FS EL : Type}.
(** What a new store finds: the files, and the event loop. *)
Variables (fs : FS) (el : EL).

(** [atoi]: [strtol], which stops at the bounds of a [long], as an [int]. *)
Fixpoint digits_value (s : bytes) (n : Z) : Z :=
  match s with
  | c :: s => if isdigit c then digits_value s (10 * n + (uchar c - 48)) else n
  | [] => n
  end.
Fixpoint atoi (s : bytes) : Z :=
  match s with
  | c :: rest =>
      if isspace c then atoi rest
      else
        let n := if decide (c = "-"%char) then - digits_value rest 0
                 else if decide (c = "+"%char) then digits_value rest 0 else digits_value s 0 in
        i32 (Z.max (- 2 ^ 63) (Z.min (2 ^ 63 - 1) n))
  | [] => 0
  end.

(** The address the constructor of [NetworkStore] keeps, if there is one. *)
Definition address_of (f : store_fields) : option address :=
  if decide (sc_socket f <> []) then Some (Unix (sc_socket f))
  else if decide (sc_host f <> [] /\ sc_port f <> []) then Some (Tcp (sc_host f) (atoi (cstr (sc_port f))))
  else None.

(** Without an address, [port_] is not initialised; [path_.back()] of an empty
    string is undefined. *)
Definition new_leaf (f : store_fields) : option (option (leaf FS EL)) :=
  match kind_of (sc_type f) with
  | Some KNetwork => a ← address_of f; Some (Some (LNetwork a (new_NetworkStore (sc_topic f) el)))
  | Some KFile =>
      if decide (sc_path f = []) then None
      else Some (Some (LFile (new_FileStore (sc_topic f) (sc_buffer_type f) (sc_path f) (sc_name f) (sc_rotate f) (sc_flush f) fs)))
  | Some KNull => Some (Some (LNull (MkNull (sc_topic f) false)))
  | _ => Some None
  end.

Definition success_type (success : bytes) : SuccessType := if decide (success = bs "all") then kAll else kAny.

(** [stores_.push_back] of each store that is not NULL; one that is NULL is
    left out. *)
Fixpoint create_all {T} (create : StoreConfig -> option (option T)) (l : list StoreConfig) : option (list T) :=
  match l with
  | [] => Some []
  | c :: l => s ← create c; rest ← create_all create l; Some match s with Some s => s :: rest | None => rest end
  end.

Definition new_MultipleStore {T} (create : StoreConfig -> option (option T)) (f : store_fields) (stores : list StoreConfig)
  : option (MultipleStore T) :=
  l ← create_all create stores; Some (MkMultiple (sc_topic f) l (success_type (sc_success f)) false).

Definition new_PriorityStore {T} (create : StoreConfig -> option (option T)) (f : store_fields) (stores : list StoreConfig)
  : option (PriorityStore T) :=
  l ← create_all create stores; Some (MkPriority (sc_topic f) l false).

(** The first two stores of the list; a store that is not there or is NULL is
    undefined, for the constructor does not test it. *)
Definition new_BufferStore {T} (create : StoreConfig -> option (option T)) (f : store_fields) (stores : list StoreConfig)
  : option (BufferStore T T) :=
  match stores with
  | a :: b :: _ =>
      p ← (r ← create a; r);
      s ← (r ← create b; r);
      Some (MkBufferStore (sc_topic f) p s None QNull false)
  | _ => None
  end.

(** [Store::Create]: [Some None] is NULL; [None] is what is undefined (a store
    of the list that is not there, a NULL store in a buffer store, which it
    does not test) or deeper than the bound. *)
Fixpoint Create (n : nat) (c : StoreConfig) : option (option (Store (leaf FS EL) n)) :=
  let 'MkStoreConfig f stores := c in
  match n return option (option (Store (leaf FS EL) n)) with
  | O => match kind_of (sc_type f) with Some (KMultiple | KPriority | KBuffer) => None | _ => new_leaf f end
  | S n =>
      match kind_of (sc_type f) with
      | Some KMultiple =>
          m ← new_MultipleStore (Create n) f stores; Some (Some (SMultiple m))
      | Some KPriority =>
          p ← new_PriorityStore (Create n) f stores; Some (Some (SPriority p))
      | Some KBuffer =>
          b ← new_BufferStore (Create n) f stores; Some (Some (SBuffer b))
      | _ => s ← new_leaf f; Some (option_map SLeaf s)
      end
  end.
End create.

(** The fields of [Master] the constructor takes from the configuration. *)
Definition master_config (conf : KidsConfig) : Config :=
  MkConfig (atoi (cstr (kc_worker_threads conf))) (kc_listen_socket conf) (kc_listen_host conf)
    (atoi (cstr (kc_listen_port conf))) (bool_decide (kc_ignore_case conf = bs "on"))
    (atoi (cstr (kc_max_clients conf))) (kc_nlimit conf) 1000000.

(** ** A checked configuration is created whole *)

(** How many levels of stores there are above the lowest. *)
Fixpoint levels (c : StoreConfig) : nat :=
  let 'MkStoreConfig _ stores := c in match stores with [] => 0%nat | _ => S (list_max (map levels stores)) end.

(** Every file store has a path. *)
Fixpoint paths_given (c : StoreConfig) : bool :=
  let 'MkStoreConfig f stores := c in
  match kind_of (sc_type f) with
  | Some KFile => negb (bool_decide (sc_path f = []))
  | Some (KMultiple | KPriority | KBuffer) => forallb paths_given stores
  | _ => true
  end.

Section mirrors.
Context {FS EL : Type}.
Variables (fs : FS) (el : EL).

Definition leaf_mirrors (f : store_fields) (s : leaf FS EL) : Prop :=
  match kind_of (sc_type f), s with
  | Some KNetwork, LNetwork a x => address_of f = Some a /\ x = new_NetworkStore (sc_topic f) el
  | Some KFile, LFile x =>
      x = new_FileStore (sc_topic f) (sc_buffer_type f) (sc_path f) (sc_name f) (sc_rotate f) (sc_flush f) fs
  | Some KNull, LNull x => x = MkNull (sc_topic f) false
  | _, _ => False
  end.

(** A store is the one a configuration describes: of its kind, with its
    topic, closed, and over the stores of its stores, none left out, in order,
    the primary before the secondary. *)
Fixpoint mirrors (n : nat) (c : StoreConfig) : Store (leaf FS EL) n -> Prop :=
  match n return Store (leaf FS EL) n -> Prop with
  | O => leaf_mirrors (sc_fields c)
  | S n => fun s =>
      let f := sc_fields c in
      match kind_of (sc_type f), s with
      | Some KMultiple, SMultiple m =>
          multi_topic m = sc_topic f /\ multi_open m = false
          /\ (success_ m = kAll <-> sc_success f = bs "all") /\ Forall2 (mirrors n) (sc_stores c) (multi_stores m)
      | Some KPriority, SPriority p =>
          prio_topic p = sc_topic f /\ prio_open p = false /\ Forall2 (mirrors n) (sc_stores c) (prio_stores p)
      | Some KBuffer, SBuffer b =>
          buf_topic b = sc_topic f /\ buf_open b = false /\ msg_to_transfer_ b = QNull
          /\ exists p s, sc_stores c = [p; s] /\ is_buffer_type (bs "primary") p = true /\ is_buffer_type (bs "secondary") s = true
               /\ mirrors n p (primary_ b) /\ mirrors n s (secondary_ b)
      | Some (KMultiple | KPriority | KBuffer), _ => False
      | _, SLeaf s => leaf_mirrors f s
      | _, _ => False
      end
  end.

Lemma new_leaf_mirrors f k : kind_of (sc_type f) = Some k -> (k = KNetwork \/ k = KFile \/ k = KNull) ->
  well_formed_stores f [] = true -> (k = KFile -> sc_path f <> []) ->
  exists s, new_leaf fs el f = Some (Some s) /\ leaf_mirrors f s.
Proof.
  intros Hk Hcase Hw Hpath. unfold new_leaf, leaf_mirrors. unfold well_formed_stores in Hw. rewrite Hk in *.
  destruct Hcase as [->|[->| ->]].
  - assert (is_Some (address_of f)) as [a Ha].
    { unfold address_of. destruct (decide (sc_socket f <> [])) as [|Hs]; [by eexists|].
      destruct (decide (sc_host f <> [] /\ sc_port f <> [])) as [|Hn]; [by eexists|]. exfalso.
      apply dec_stable in Hs. rewrite Hs in Hw. rewrite (bool_decide_true (_ = [])) in Hw by done. cbn in Hw.
      apply negb_true_iff, orb_false_iff in Hw as [H1%bool_decide_eq_false H2%bool_decide_eq_false]. by apply Hn. }
    rewrite Ha. by eexists.
  - destruct (decide (sc_path f = [])) as [E|]; [by destruct (Hpath eq_refl)|]. by eexists.
  - by eexists.
Qed.

Lemma create_all_ok n l : Forall (fun c => exists s, Create fs el n c = Some (Some s) /\ mirrors n c s) l ->
  exists ss, create_all (Create fs el n) l = Some ss /\ Forall2 (mirrors n) l ss.
Proof.
  induction 1 as [|c l (s & E & Hs) _ (ss & El & Hl)]; [by exists []|].
  exists (s :: ss). cbn [create_all]. rewrite E. cbn [mbind option_bind]. rewrite El. cbn. split; [done|by constructor].
Qed.

Lemma levels_below c l m : c ∈ l -> (list_max (map levels l) <= m)%nat -> (levels c <= m)%nat.
Proof.
  intros Hc Hm. induction l as [|d l IH]; [by apply not_elem_of_nil in Hc|].
  change (list_max (map levels (d :: l))) with (Nat.max (levels d) (list_max (map levels l))) in Hm.
  apply elem_of_cons in Hc as [->|Hc]; [lia|]. apply IH; [done|lia].
Qed.

Lemma Create_ok n : forall c, well_formed c = true -> paths_given c = true -> (levels c <= n)%nat ->
  exists s, Create fs el n c = Some (Some s) /\ mirrors n c s.
Proof.
  induction n as [|n IH]; intros [f stores] Hw Hp Hl; rewrite well_formed_eq in Hw; apply andb_true_iff in Hw as [_ Hw].
  - destruct stores as [|c l]; [|cbn in Hl; lia]. cbn [Create mirrors sc_fields] in *. cbn [paths_given] in Hp.
    unfold well_formed_stores in Hw. destruct (kind_of (sc_type f)) as [[]|] eqn:Hk; try done;
      (eapply new_leaf_mirrors; [exact Hk|tauto|unfold well_formed_stores; by rewrite Hk|intros ?; try done]).
    by apply negb_true_iff, bool_decide_eq_false in Hp.
  - assert (forall c, c ∈ stores -> well_formed c = true -> paths_given c = true ->
      exists s, Create fs el n c = Some (Some s) /\ mirrors n c s) as Hsub.
    { intros c Hc Hwc Hpc. apply IH; [done|done|]. destruct stores as [|d l]; [by apply not_elem_of_nil in Hc|].
      cbn [levels] in Hl. eapply levels_below; [exact Hc|lia]. }
    cbn [Create mirrors sc_fields sc_stores paths_given] in *. unfold well_formed_stores in Hw.
    destruct (kind_of (sc_type f)) as [[]|] eqn:Hk; [| | | | | |done].
    1,2: apply andb_true_iff in Hw as [_ Hw];
      destruct (create_all_ok n stores) as (ss & E & Hss);
      [apply Forall_forall; intros c Hc; apply Hsub; [done|by eapply forallb_forall, list_elem_of_In|by eapply forallb_forall, list_elem_of_In]|];
      unfold new_MultipleStore, new_PriorityStore; rewrite E; cbn [mbind option_bind]; eexists; (split; [reflexivity|]); cbn; split_and!; try done.
    { unfold success_type. by case_decide. }
    + destruct stores as [|a [|b [|]]]; try done. rewrite !andb_true_iff in Hw. destruct Hw as [[[Ha Hb] Hwa] Hwb].
      cbn [forallb] in Hp. rewrite !andb_true_iff in Hp. destruct Hp as (Hpa & Hpb & _).
      destruct (Hsub a) as (p & Ep & Hmp); [by left|done|done|]. destruct (Hsub b) as (s & Es & Hms); [by right; left|done|done|].
      unfold new_BufferStore. rewrite Ep. cbn [mbind option_bind]. rewrite Es. cbn [mbind option_bind]. eexists. split; [reflexivity|]. cbn.
      split_and!; try done. by exists a, b.
    + destruct (new_leaf_mirrors f KNetwork) as (s & E & Hs); [done|tauto|unfold well_formed_stores; by rewrite Hk|done|].
      rewrite E. cbn. by eexists.
    + destruct (new_leaf_mirrors f KFile) as (s & E & Hs); [done|tauto|unfold well_formed_stores; by rewrite Hk| |].
      { intros _. by apply negb_true_iff, bool_decide_eq_false in Hp. }
      rewrite E. cbn. by eexists.
    + destruct (new_leaf_mirrors f KNull) as (s & E & Hs); [done|tauto|unfold well_formed_stores; by rewrite Hk|done|].
      rewrite E. cbn. by eexists.
Qed.
End mirrors.

(** ** From the file to the store *)

(** C36. When a configuration file is accepted and its file stores have a path, Store::Create
    makes a store that mirrors the configuration: the same tree, each node of the configured kind
    over the same topic, a buffer store with its primary and secondary store in their places, and
    every leaf with its settings. *)
Theorem configured_store_created {FS EL} (fs : FS) (el : EL) content c :
  ParseConfigFile content = Some c -> ctx_success c = true ->
  exists conf store, ctx_conf c = Some conf /\ kc_store conf = Some store
    /\ (paths_given store = true -> forall n, (levels store <= n)%nat ->
        exists s, Create fs el n store = Some (Some s) /\ mirrors fs el n store s).
Proof.
  intros E Hs. destruct (ParseConfig_ok (file_lines content [])) as (c' & E' & Hc). unfold ParseConfigFile in E.
  rewrite E' in E. injection E as <-. destruct (Hc Hs) as (conf & store & H1 & H2 & Hw).
  exists conf, store. split_and!; [done|done|]. intros Hp n Hn. by apply Create_ok.
Qed.

(** samples/agent.conf *)
Definition agent_text : bytes := text agent_pieces.
Definition agent_context : ParseContext := default new_ParseContext (ParseConfigFile agent_text).

Lemma configured_store_created_witness :
  exists conf store, ctx_conf agent_context = Some conf /\ kc_store conf = Some store
    /\ sc_type (sc_fields store) = bs "buffer"
    /\ exists s : Store (leaf unit unit) 1, Create tt tt 1 store = Some (Some s) /\ mirrors tt tt 1 store s.
Proof.
  destruct (configured_store_created tt tt agent_text agent_context) as (conf & store & H1 & H2 & H3).
  - unfold agent_context. destruct (ParseConfigFile agent_text) eqn:E; [done|]. by vm_compute in E.
  - by vm_compute.
  - exists conf, store. split_and!; [done|done| |].
    + assert (option_map (fun s => sc_type (sc_fields s)) (ctx_conf agent_context ≫= kc_store) = Some (bs "buffer")) as Ht by by vm_compute.
      rewrite H1 in Ht. cbn [mbind option_bind] in Ht. rewrite H2 in Ht. by injection Ht.
    + apply H3.
      * assert (option_map paths_given (ctx_conf agent_context ≫= kc_store) = Some true) as Ht by by vm_compute.
        rewrite H1 in Ht. cbn [mbind option_bind] in Ht. rewrite H2 in Ht. by injection Ht.
      * assert (option_map levels (ctx_conf agent_context ≫= kc_store) = Some 1%nat) as Ht by by vm_compute.
        rewrite H1 in Ht. cbn [mbind option_bind] in Ht. rewrite H2 in Ht. injection Ht as Ht. by rewrite Ht.
Defined.
