(* ===== verification/Serving.v ===== *)
(** * What every store promises to the storer

    The stores of store/ as instances of [Serves] and [Keeps] (Stores.v): once
    opened, each of their methods is defined and they stay so, whatever the
    connections and the files below them do.  The stores of stores promise it
    when their stores do, so that it holds of any tree of them (Configured.v). *)

From S2P Require Import Prelude Common Util Glob EventLoop Files Stores FileStore NetworkStore.

(** ** A method of each store of a list *)

Section lists.
Context {S : Type} `{StoreOps S}.

Lemma for_stores_ok (P Q : S -> Prop) f : (forall s st, P s -> exists b s' st', f s st = Some (b, s', st') /\ Q s') ->
  forall l st, Forall P l -> exists bs l' st', for_stores f l st = Some (bs, l', st') /\ Forall Q l'.
Proof.
  intros Hf l. induction l as [|s l IH]; intros st Hl; cbn [for_stores]; [by eexists _, _, _|].
  apply Forall_cons in Hl as [Hs Hl]. destruct (Hf s st Hs) as (b & s' & st1 & -> & Hs'). cbn [mbind option_bind].
  destruct (IH st1 Hl) as (bs & l' & st2 & -> & Hl'). eexists _, _, _. split; [done|by constructor].
Qed.

Lemma unit_call_ok (P Q : S -> Prop) f : (forall s st, P s -> exists s' st', f s st = Some (s', st') /\ Q s') ->
  forall s st, P s -> exists b s' st', unit_call f s st = Some (b, s', st') /\ Q s'.
Proof. intros Hf s st Hs. unfold unit_call. destruct (Hf s st Hs) as (s' & st' & -> & ?). by eexists _, _, _. Qed.

Context {ic : bool} {fits : message -> Prop} {fresh ok : S -> Prop}.
Context `{!Serves ic fits fresh ok} `{!Stated ok}.

Lemma State_all_stated l : Forall ok l -> is_Some (State_all l).
Proof.
  induction 1 as [|s l Hs Hl IH]; cbn [State_all]; [by eexists|]. destruct (stated (ok := ok) s Hs) as [x ->]. cbn [mbind option_bind].
  case_decide; [by eexists|done].
Qed.

Lemma Close_all_ok l st : Forall ok l -> exists l' st', Close_all l st = Some (l', st') /\ Forall deletable l'.
Proof.
  intros Hl. unfold Close_all. destruct (for_stores_ok ok deletable (unit_call Close)) with (l := l) (st := st)
    as (bs & l' & st' & -> & Hl'); [|done|by eexists _, _].
  apply unit_call_ok. intros s st1 Hs. exact (serves_close (ok := ok) s st1 Hs).
Qed.

Lemma Delete_all_ok (l : list S) : Forall deletable l -> forall st, is_Some (Delete_all l st).
Proof.
  induction 1 as [|s l Hs Hl IH]; intros st; cbn [Delete_all]; [by eexists|]. destruct (Hs st) as [st1 ->]. apply IH.
Qed.

Lemma all_deletable l : Forall ok l -> Forall deletable l.
Proof. intros Hl. eapply Forall_impl; [exact Hl|]. intros s. apply serves_delete. Qed.

Lemma Cron_all_ok c l st : Forall ok l -> exists l' st', Cron_all c l st = Some (l', st') /\ Forall ok l'.
Proof.
  intros Hl. unfold Cron_all. destruct (for_stores_ok ok ok (unit_call (Cron c))) with (l := l) (st := st)
    as (bs & l' & st' & -> & Hl'); [|done|by eexists _, _].
  apply unit_call_ok. intros s st1 Hs. destruct (serves_cron (ok := ok) c s st1 Hs) as (s' & st' & E & ? & _). by exists s', st'.
Qed.

Lemma Open_each_ok c l st : Forall fresh l -> exists bs l' st', for_stores (Open c) l st = Some (bs, l', st') /\ Forall ok l'.
Proof.
  apply for_stores_ok. intros s st1 Hs. destruct (serves_open (fresh := fresh) c s st1 Hs) as (b & s' & st' & E & ? & _). by exists b, s', st'.
Qed.

Lemma AddMessage_each_ok c msg l st : fits msg -> Forall ok l ->
  exists bs l' st', for_stores (AddMessage ic c msg) l st = Some (bs, l', st') /\ Forall ok l'.
Proof.
  intros Hm. apply for_stores_ok. intros s st1 Hs. destruct (serves_add (ok := ok) c msg s st1 Hs Hm) as (b & s' & st' & E & ? & _).
  by exists b, s', st'.
Qed.

Lemma first_accepts_ok c msg l : fits msg -> forall st, Forall ok l ->
  exists b l' st', first_accepts ic c msg l st = Some (b, l', st') /\ Forall ok l'.
Proof.
  intros Hm. induction l as [|s l IH]; intros st Hl; cbn [first_accepts]; [by eexists _, _, _|].
  apply Forall_cons in Hl as [Hs Hl]. destruct (serves_add (ok := ok) c msg s st Hs Hm) as (b & s' & st1 & -> & Hs' & _).
  cbn [mbind option_bind]. destruct b; [eexists _, _, _; split; [done|by constructor]|].
  destruct (IH st1 Hl) as (b & l' & st2 & -> & Hl'). eexists _, _, _. split; [done|by constructor].
Qed.
End lists.

(** A message that is offered: the topic first. *)
Lemma serves_offer {S : Type} `{StoreOps S} ic (ok : S -> Prop) c msg s st : matchable (topic_ s) -> ok s ->
  (exists b s' st', DoAddMessage c msg s st = Some (b, s', st') /\ ok s' /\ (is_Some (State s) -> is_Some (State s'))) ->
  exists b s' st', AddMessage ic c msg s st = Some (b, s', st') /\ ok s' /\ (is_Some (State s) -> is_Some (State s')).
Proof.
  intros Hm Hs Hadd. unfold AddMessage. destruct (matchable_pre ic msg s Hm) as [b ->]. cbn [mbind option_bind].
  destruct b; [done|]. by exists false, s, st.
Qed.

(** ** Stores of stores *)

Section above.
Context {S : Type} `{StoreOps S} {ic : bool} {fits : message -> Prop}.
Variables fresh ok : S -> Prop.
Context `{!Serves ic fits fresh ok} `{!Stated ok}.

Definition multi_fresh (m : MultipleStore S) : Prop := matchable (multi_topic m) /\ multi_open m = false /\ Forall fresh (multi_stores m).
Definition multi_ok (m : MultipleStore S) : Prop := matchable (multi_topic m) /\ Forall ok (multi_stores m).

#[export] Instance multi_stated : Stated (H := MultipleStore_ops ic) multi_ok.
Proof. intros m [_ Hl]. by apply State_all_stated. Qed.

Lemma multi_close_ok m st : multi_ok m -> exists m' st', MultipleStore_Close m st = Some (m', st')
  /\ multi_open m' = false /\ Forall deletable (multi_stores m').
Proof.
  intros [Ht Hl]. unfold MultipleStore_Close. destruct (multi_open m) eqn:Eo; cbn [negb].
  - destruct (Close_all_ok (multi_stores m) st Hl) as (l' & st' & -> & Hl'). by eexists _, _.
  - exists m, st. split_and!; [done|done|]. by apply all_deletable.
Qed.

#[export] Instance multi_serves : Serves (H := MultipleStore_ops ic) ic fits multi_fresh multi_ok.
Proof.
  split.
  - intros c m st (Ht & Ho & Hl). cbn [Open MultipleStore_ops]. unfold MultipleStore_Open. rewrite Ho. cbn [mbind option_bind].
    destruct (Open_each_ok c (multi_stores m) st Hl) as (bs & l' & st' & -> & Hl'). eexists _, _, _.
    split_and!; [done|done|]. intros _. by apply State_all_stated.
  - intros m st Hm. destruct (multi_close_ok m st Hm) as (m' & st' & E & Ho & Hl). exists m', st'. split; [exact E|]. intros st2.
    cbn [Delete MultipleStore_ops]. unfold MultipleStore_Delete, MultipleStore_Close. rewrite Ho. by apply Delete_all_ok.
  - intros m Hm st. destruct (multi_close_ok m st Hm) as (m' & st' & E & _ & Hl). cbn [Delete MultipleStore_ops].
    unfold MultipleStore_Delete. rewrite E. by apply Delete_all_ok.
  - intros c msg m st Hok Hm. apply serves_offer; [apply Hok|done|]. destruct Hok as [Ht Hl].
    cbn [DoAddMessage MultipleStore_ops]. unfold MultipleStore_DoAddMessage.
    destruct (AddMessage_each_ok c msg (multi_stores m) st Hm Hl) as (bs & l' & st' & -> & Hl'). eexists _, _, _.
    split_and!; [done|done|]. intros _. by apply State_all_stated.
  - intros c m st [Ht Hl]. cbn [Cron MultipleStore_ops]. unfold MultipleStore_Cron. destruct (multi_open m) eqn:Eo; cbn [negb].
    + destruct (Cron_all_ok c (multi_stores m) st Hl) as (l' & st' & -> & Hl'). eexists _, _.
      split_and!; [done|done|]. intros _. by apply State_all_stated.
    + by eexists _, _.
  - intros m Hok _. by apply (stated (ok := multi_ok)).
Qed.

Definition prio_fresh (p : PriorityStore S) : Prop := matchable (prio_topic p) /\ prio_open p = false /\ Forall fresh (prio_stores p).
Definition prio_ok (p : PriorityStore S) : Prop := matchable (prio_topic p) /\ Forall ok (prio_stores p).

#[export] Instance prio_stated : Stated (H := PriorityStore_ops ic) prio_ok.
Proof. intros p [_ Hl]. by apply State_all_stated. Qed.

Lemma prio_close_ok p st : prio_ok p -> exists p' st', PriorityStore_Close p st = Some (p', st')
  /\ prio_open p' = false /\ Forall deletable (prio_stores p').
Proof.
  intros [Ht Hl]. unfold PriorityStore_Close. destruct (prio_open p) eqn:Eo; cbn [negb].
  - destruct (Close_all_ok (prio_stores p) st Hl) as (l' & st' & -> & Hl'). by eexists _, _.
  - exists p, st. split_and!; [done|done|]. by apply all_deletable.
Qed.

#[export] Instance prio_serves : Serves (H := PriorityStore_ops ic) ic fits prio_fresh prio_ok.
Proof.
  split.
  - intros c p st (Ht & Ho & Hl). cbn [Open PriorityStore_ops]. unfold PriorityStore_Open. rewrite Ho. cbn [mbind option_bind].
    destruct (Open_each_ok c (prio_stores p) st Hl) as (bs & l' & st' & -> & Hl'). eexists _, _, _.
    split_and!; [done|done|]. intros _. by apply State_all_stated.
  - intros p st Hp. destruct (prio_close_ok p st Hp) as (p' & st' & E & Ho & Hl). exists p', st'. split; [exact E|]. intros st2.
    cbn [Delete PriorityStore_ops]. unfold PriorityStore_Delete, PriorityStore_Close. rewrite Ho. by apply Delete_all_ok.
  - intros p Hp st. destruct (prio_close_ok p st Hp) as (p' & st' & E & _ & Hl). cbn [Delete PriorityStore_ops].
    unfold PriorityStore_Delete. rewrite E. by apply Delete_all_ok.
  - intros c msg p st Hok Hm. apply serves_offer; [apply Hok|done|]. destruct Hok as [Ht Hl].
    cbn [DoAddMessage PriorityStore_ops]. unfold PriorityStore_DoAddMessage.
    destruct (first_accepts_ok c msg (prio_stores p) Hm st Hl) as (b & l' & st' & -> & Hl'). eexists _, _, _.
    split_and!; [done|done|]. intros _. by apply State_all_stated.
  - intros c p st [Ht Hl]. cbn [Cron PriorityStore_ops]. unfold PriorityStore_Cron. destruct (prio_open p) eqn:Eo; cbn [negb].
    + destruct (Cron_all_ok c (prio_stores p) st Hl) as (l' & st' & -> & Hl'). eexists _, _.
      split_and!; [done|done|]. intros _. by apply State_all_stated.
    + by eexists _, _.
  - intros p Hok _. by apply (stated (ok := prio_ok)).
Qed.
End above.

(** ** A buffer store *)

Section buffer.
Context {P S : Type} `{StoreOps P} `{StoreOps S} {ic : bool} {fits : message -> Prop}.
Variables (fresh_p ok_p : P -> Prop) (ok_s : S -> Prop).
Context `{!Serves ic fits fresh_p ok_p} `{!Keeps ic fits ok_s}.

Definition buffer_fresh (b : BufferStore P S) : Prop :=
  matchable (buf_topic b) /\ buf_open b = false /\ msg_to_transfer_ b = QNull /\ fresh_p (primary_ b) /\ ok_s (secondary_ b).

(** The primary store knows its state whenever [State] asks it; a queue is
    never one that was deleted. *)
Definition buffer_ok (b : BufferStore P S) : Prop :=
  matchable (buf_topic b) /\ buf_open b = true /\ ok_p (primary_ b) /\ ok_s (secondary_ b)
  /\ exists x, state_ b = Some x /\ (x <> kToSecondary -> is_Some (State (primary_ b)))
       /\ match msg_to_transfer_ b with QNull => x <> kTransfering | QDangling => False | Queue q => Forall fits q end.

Abbreviation store := (BufferStore P S).

#[export] Instance buffer_stated : Stated (H := BufferStore_ops ic) buffer_ok.
Proof.
  intros b (_ & _ & _ & Hs & x & Hx & Hp & _). cbn [State BufferStore_ops]. unfold BufferStore_State. rewrite Hx. cbn [mbind option_bind].
  case_decide as Ex; [apply Hp; by rewrite Ex|by apply (stated (ok := ok_s))].
Qed.

Lemma secondary_accepts c msg s st : ok_s s -> IsOpen s = true -> fits msg ->
  exists b s' st', AddMessage ic c msg s st = Some (b, s', st') /\ ok_s s'.
Proof.
  intros Hs Ho Hm. unfold AddMessage. destruct (total_pre (ok := ok_s) s msg Hs) as [b ->]. cbn [mbind option_bind].
  destruct b; [by apply (keeps_add (ok := ok_s))|by eexists _, _, _].
Qed.

(** The second half of [DoAddMessage] changes the secondary store only. *)
Lemma add_to_secondary_ok c msg (b : store) st : fits msg -> ok_s (secondary_ b) ->
  exists r s' st', add_to_secondary ic c msg b st = Some (r, with_secondary b s', st') /\ ok_s s'.
Proof.
  intros Hm Hs. unfold add_to_secondary.
  assert (exists s1 st1, (if negb (IsOpen (secondary_ b)) then '(_, s, st) ← Open c (secondary_ b) st; Some (s, st) else Some (secondary_ b, st))
    = Some (s1, st1) /\ ok_s s1 /\ IsOpen s1 = true) as (s1 & st1 & -> & Hs1 & Ho1).
  { destruct (IsOpen (secondary_ b)) eqn:Eo; cbn [negb]; [by eexists _, _|].
    destruct (total_open (ok := ok_s) c (secondary_ b) st Hs) as (o & s1 & st1 & E & Hs1). rewrite E. cbn [mbind option_bind].
    destruct (keeps_open _ _ _ _ _ _ Hs E) as [_ Ho]. by eexists _, _. }
  cbn [mbind option_bind]. destruct (secondary_accepts c msg s1 st1 Hs1 Ho1 Hm) as (r & s2 & st2 & -> & Hs2). cbn [mbind option_bind].
  destruct r; by eexists _, s2, _.
Qed.

Lemma primary_refuses_ok c msg (b : store) st : fits msg -> ok_p (primary_ b) ->
  exists r p' st', primary_refuses ic c msg b st = Some (r, with_primary b p', st') /\ ok_p p'
    /\ (is_Some (State (primary_ b)) -> is_Some (State p')).
Proof.
  intros Hm Hp. unfold primary_refuses. destruct (IsOpen (primary_ b)); cbn [negb].
  - destruct (serves_add (ok := ok_p) c msg (primary_ b) st Hp Hm) as (r & p' & st' & -> & Hp' & Hst). cbn [mbind option_bind].
    by eexists _, p', _.
  - eexists _, (primary_ b), _. split_and!; [by destruct b|done|done].
Qed.

Lemma send_queue_serves c n : forall q p st, Forall fits q -> ok_p p ->
  exists q' p' st', send_queue ic n c q p st = Some (q', p', st') /\ Forall fits q' /\ ok_p p' /\ (is_Some (State p) -> is_Some (State p')).
Proof.
  induction n as [|n IH]; intros q p st Hq Hp; [by eexists _, _, _|]. destruct q as [|m q]; [by eexists _, _, _|]. cbn [send_queue].
  apply Forall_cons in Hq as [Hm Hq]. destruct (serves_add (ok := ok_p) c m p st Hp Hm) as (r & p1 & st1 & -> & Hp1 & Hs1).
  cbn [mbind option_bind]. destruct r; [|by eexists _, _, _].
  destruct (IH q p1 (stat_unbuffered st1) Hq Hp1) as (q' & p' & st' & E & ? & ? & ?). exists q', p', st'. split_and!; auto.
Qed.

Lemma refill_queue_ok q (s : S) st : Forall fits q -> ok_s s ->
  exists q' s' st', refill_queue q s st = Some (q', s', st') /\ Forall fits q' /\ ok_s s'.
Proof.
  intros Hq Hs. unfold refill_queue. destruct q; [|by eexists _, _, _]. destruct (HaveOldMessage s); [|by eexists _, _, _].
  destruct (total_close (ok := ok_s) s st Hs) as (s1 & st1 & E & _). rewrite E. cbn [mbind option_bind].
  destruct (keeps_oldest _ _ _ _ Hs E) as (l & -> & Hl & Hd). by eexists _, _, _.
Qed.

(** [Cron] while it transfers: it goes on, or is done. *)
Lemma transfer_serves c (b : store) q st : Forall fits q -> msg_to_transfer_ b = Queue q -> matchable (buf_topic b) -> buf_open b = true ->
  ok_p (primary_ b) -> is_Some (State (primary_ b)) -> ok_s (secondary_ b) ->
  exists b' st', transfer ic c b st = Some (b', st') /\ buffer_ok b'.
Proof.
  intros Hq Eq Ht Ho Hp Hx Hs. unfold transfer. rewrite Eq.
  destruct (send_queue_serves c max_msg_per_cron q (primary_ b) st Hq Hp) as (q1 & p1 & st1 & -> & Hq1 & Hp1 & Hx1). cbn [mbind option_bind].
  destruct (refill_queue_ok q1 (secondary_ b) st1 Hq1 Hs) as (q2 & s2 & st2 & -> & Hq2 & Hs2). cbn [mbind option_bind].
  destruct (decide (q2 = [])) as [->|_]; [destruct (HaveOldMessage s2)|].
  - eexists _, _. split; [done|]. split_and!; cbn; try done. exists kTransfering. by split_and!; auto.
  - destruct (total_close (ok := ok_s) s2 st2 Hs2) as (s3 & st3 & -> & Hs3). cbn [mbind option_bind].
    eexists _, _. split; [done|]. split_and!; cbn; try done. exists kToPrimary. by split_and!; auto.
  - eexists _, _. split; [done|]. split_and!; cbn; try done. exists kTransfering. by split_and!; auto.
Qed.

Lemma buffer_open_ok c (b : store) st : buffer_fresh b ->
  exists r b' st', BufferStore_Open c b st = Some (r, b', st') /\ buffer_ok b'.
Proof.
  intros (Ht & Ho & Hq & Hp & Hs). unfold BufferStore_Open. rewrite Ho. cbn [mbind option_bind primary_ with_open].
  destruct (serves_open (fresh := fresh_p) c (primary_ b) st Hp) as (r & p & st1 & -> & Hp1 & Hx). cbn [mbind option_bind].
  cbn [secondary_ with_primary with_open msg_to_transfer_]. destruct r.
  - destruct (HaveOldMessage (secondary_ b)); eexists _, _, _; (split; [done|]); split_and!; cbn; try done; (eexists; split; [done|]).
    + split; [auto|constructor].
    + rewrite Hq. by split; [auto|].
  - destruct (total_open (ok := ok_s) c (secondary_ b) st1 Hs) as (r & s & st2 & E & Hs2). rewrite E. cbn [mbind option_bind].
    destruct (keeps_open _ _ _ _ _ _ Hs E) as [-> _]. eexists _, _, _. split; [done|]. split_and!; cbn; try done.
    exists kToSecondary. rewrite Hq. by split_and!.
Qed.

Lemma buffer_close_ok (b : store) st : buffer_ok b -> exists b' st', BufferStore_Close b st = Some (b', st')
  /\ buf_open b' = false /\ deletable (primary_ b') /\ deletable (secondary_ b').
Proof.
  intros (Ht & Ho & Hp & Hs & x & Hx & _ & Hq). unfold BufferStore_Close. rewrite Ho. cbn [negb].
  destruct (serves_close (ok := ok_p) (primary_ b) st Hp) as (p1 & st1 & -> & Hp1). cbn [mbind option_bind].
  destruct (total_close (ok := ok_s) (secondary_ b) st1 Hs) as (s1 & st2 & -> & Hs1). cbn [mbind option_bind msg_to_transfer_ with_secondary with_primary].
  assert (deletable s1) as Hd by (intros st3; by apply (total_delete (ok := ok_s))).
  destruct (msg_to_transfer_ b) as [| |[|m l]]; [by eexists _, _|done|by eexists _, _|by eexists _, _].
Qed.

Lemma buffer_deletable (b : store) : deletable (primary_ b) -> deletable (secondary_ b) -> forall b0 st st1,
  BufferStore_Close b0 st = Some (b, st1) -> is_Some (BufferStore_Delete b0 st).
Proof.
  intros Hp Hs b0 st st1 E. unfold BufferStore_Delete. rewrite E. cbn [mbind option_bind]. destruct (Hp st1) as [st2 ->]. apply Hs.
Qed.

Lemma buffer_add_ok c msg (b : store) st : fits msg -> buffer_ok b ->
  exists r b' st', BufferStore_DoAddMessage ic c msg b st = Some (r, b', st') /\ buffer_ok b'.
Proof.
  intros Hm (Ht & Ho & Hp & Hs & x & Hx & Hxp & Hq). unfold BufferStore_DoAddMessage. rewrite Hx. cbn [mbind option_bind].
  destruct (decide (x = kToPrimary)) as [->|Hne].
  - destruct (primary_refuses_ok c msg b st Hm Hp) as (r & p & st1 & -> & Hp1 & Hx1). cbn [mbind option_bind]. destruct r.
    + cbn [secondary_ with_primary]. destruct (total_open (ok := ok_s) c (secondary_ b) st1 Hs) as (o & s & st2 & -> & Hs2). cbn [mbind option_bind].
      destruct (add_to_secondary_ok c msg (with_state (with_secondary (with_primary b p) s) kToSecondary (msg_to_transfer_ (with_primary b p))) st2 Hm Hs2)
        as (r & s' & st3 & -> & Hs3).
      eexists _, _, _. split; [done|]. split_and!; cbn; try done. exists kToSecondary. split_and!; try done. by destruct (msg_to_transfer_ b).
    + eexists _, _, _. split; [done|]. split_and!; cbn; try done. exists kToPrimary. split_and!; auto.
  - destruct (add_to_secondary_ok c msg b st Hm Hs) as (r & s' & st3 & -> & Hs3). eexists _, _, _. split; [done|].
    split_and!; cbn; try done. by exists x.
Qed.

Lemma buffer_cron_ok c (b : store) st : buffer_ok b ->
  exists b' st', BufferStore_Cron ic c b st = Some (b', st') /\ buffer_ok b'.
Proof.
  intros Hok. pose proof Hok as (Ht & Ho & Hp & Hs & x & Hx & Hxp & Hq). unfold BufferStore_Cron. rewrite Ho, Hx. cbn [negb mbind option_bind].
  assert (exists b1 st1, (let '(x, b) := if decide (x = kToSecondary /\ IsOpen (primary_ b) = true)
                   then (kTransfering, with_state b kTransfering (Queue [])) else (x, b) in
    if decide (x = kTransfering) then transfer ic c b st else Some (b, st)) = Some (b1, st1) /\ buffer_ok b1) as (b1 & st1 & E1 & Hok1).
  { case_decide as Hd.
    - destruct Hd as [-> Hopen]. rewrite decide_True by done.
      apply (transfer_serves c (with_state b kTransfering (Queue [])) [] st); try done. by apply (serves_state (ok := ok_p)).
    - destruct (decide (x = kTransfering)) as [->|Hne]; [|by exists b, st].
      destruct (msg_to_transfer_ b) as [| |q] eqn:Eq; [done|done|]. apply (transfer_serves c b q st); try done. by apply Hxp. }
  destruct (if decide (x = kToSecondary /\ IsOpen (primary_ b) = true) then _ else _) as [x1 b2]. cbn zeta. rewrite E1. cbn [mbind option_bind].
  destruct Hok1 as (Ht1 & Ho1 & Hp1 & Hs1 & y & Hy & Hyp & Hq1).
  destruct (serves_cron (ok := ok_p) c (primary_ b1) st1 Hp1) as (p2 & st2 & -> & Hp2 & Hx2). cbn [mbind option_bind].
  destruct (total_cron (ok := ok_s) c (secondary_ b1) st2 Hs1) as (s2 & st3 & -> & Hs2). cbn [mbind option_bind].
  eexists _, _. split; [done|]. split_and!; cbn; try done. exists y. by split_and!; auto.
Qed.

#[export] Instance buffer_serves : Serves (H := BufferStore_ops ic) ic fits buffer_fresh buffer_ok.
Proof.
  assert (forall b, buffer_ok b -> is_Some (State (StoreOps := BufferStore_ops ic) b)) as Hst by apply buffer_stated.
  split.
  - intros c b st Hb. destruct (buffer_open_ok c b st Hb) as (r & b' & st' & E & Hb'). exists r, b', st'. split_and!; auto.
  - intros b st Hb. destruct (buffer_close_ok b st Hb) as (b' & st' & E & Ho & Hp & Hs). exists b', st'. split; [exact E|].
    intros st2. apply (buffer_deletable b' Hp Hs b' st2 st2). unfold BufferStore_Close. by rewrite Ho.
  - intros b Hb st. destruct (buffer_close_ok b st Hb) as (b' & st' & E & _ & Hp & Hs). exact (buffer_deletable b' Hp Hs b st st' E).
  - intros c msg b st Hb Hm. apply serves_offer; [apply Hb|done|].
    destruct (buffer_add_ok c msg b st Hm Hb) as (r & b' & st' & E & Hb'). exists r, b', st'. split_and!; auto.
  - intros c b st Hb. destruct (buffer_cron_ok c b st Hb) as (b' & st' & E & Hb'). exists b', st'. split_and!; auto.
  - intros b Hb _. by apply Hst.
Qed.
End buffer.

(** ** Stores that reach outside *)

Section file.
Context {FS : Type} `{FileSystem FS}.
Variable localtime : Z -> tm.

(** Whatever happens to its files, a file store is defined, unless it rotates
    them every 0 seconds. *)
Definition file_ok (s : FileStore FS) : Prop := matchable (fs_topic s) /\ rotate_interval_ s <> 0.

(** Its methods leave its topic and its interval. *)
Definition file_same (s s' : FileStore FS) : Prop := fs_topic s' = fs_topic s /\ rotate_interval_ s' = rotate_interval_ s.

Lemma file_same_ok s s' : file_same s s' -> file_ok s -> file_ok s'.
Proof. by intros [H1 H2]; unfold file_ok; rewrite H1, H2. Qed.

Lemma FileStore_Close_same s : file_same s (FileStore_Close s).
Proof. unfold FileStore_Close. destruct (negb _); [done|]. by case_decide. Qed.

Lemma FileStore_Open_same c s : file_same s (FileStore_Open localtime c s).2.
Proof.
  unfold FileStore_Open. set (s1 := if store_open s then _ else s).
  assert (file_same s s1) as Hs by (subst s1; destruct (store_open s); [apply FileStore_Close_same|done]). clearbody s1.
  case_decide; [destruct (OpenNamed _ _ _ _ _ _ _ _)|destruct (MakePath _ _)]; exact Hs.
Qed.

Lemma FileStore_DoAddMessage_same c msg s st : file_same s (FileStore_DoAddMessage localtime c msg s st).1.2.
Proof.
  unfold FileStore_DoAddMessage.
  assert (file_same s (write_topic localtime c msg s).2) as Ht.
  { unfold write_topic. destruct (topic_file_ s !! msg.1); [by destruct (Write _ _ _ _ _) as [[]]|].
    destruct (OpenNamed _ _ _ _ _ _ _ _) as [[f|] fs]; [|done]. by destruct (Write _ _ _ _ _) as [[]]. }
  case_decide; [destruct (secondary_file_ s)|].
  - by destruct (write_buffer _ _ _) as [[]].
  - by destruct (write_topic _ _ _ _).
  - by destruct (write_topic _ _ _ _).
Qed.

#[export] Instance file_total ic : Total (H := FileStore_ops localtime) ic file_ok.
Proof.
  split; [split|].
  - intros s msg [Hm _]. by apply matchable_pre.
  - intros c s st Hs. cbn [Open FileStore_ops]. pose proof (FileStore_Open_same c s) as Hsame.
    destruct (FileStore_Open localtime c s) as [b s']. eexists _, _, _. split; [done|]. by eapply file_same_ok.
  - intros s st Hs. eexists _, _. split; [done|]. eapply file_same_ok; [apply FileStore_Close_same|done].
  - intros c s st Hs. cbn [Cron FileStore_ops]. unfold FileStore_Cron. destruct (negb (store_open s)); [by eexists _, _|].
    set (fl := if _ && _ then with_times _ _ _ else s). assert (file_ok fl) as Hfl by (by subst fl; destruct (_ && _)). clearbody fl.
    destruct (rotate_interval_ s =? -1); [by eexists _, _|].
    rewrite (proj2 (Z.eqb_neq (rotate_interval_ s) 0)) by apply Hs. destruct (_ && _); [|by eexists _, _].
    eexists _, _. split; [done|]. eapply file_same_ok; [apply FileStore_Open_same|done].
  - intros s st _. by eexists.
  - intros c msg s st Hs. cbn [DoAddMessage FileStore_ops]. pose proof (FileStore_DoAddMessage_same c msg s st) as Hsame.
    destruct (FileStore_DoAddMessage localtime c msg s st) as [[b s'] st']. eexists _, _, _. split; [done|]. by eapply file_same_ok.
Qed.

#[export] Instance file_stated : Stated (H := FileStore_ops localtime) file_ok.
Proof. intros s _. by eexists. Qed.

#[export] Instance file_serves ic fits : Serves (H := FileStore_ops localtime) ic fits file_ok file_ok.
Proof. apply total_serves. Qed.
End file.

Section network.
Context {EL : Type} `{FileEvents EL nproc unit}.
Variable connect : clock -> option Z.

(** A network store does not know its state before it first connected. *)
Definition network_ok (s : NetworkStore EL) : Prop :=
  matchable (net_topic s) /\ (NetworkStore_IsOpen s = true -> is_Some (net_state s)).

(** What it may lose by closing is only its agent. *)
Definition net_kept (s s' : NetworkStore EL) : Prop :=
  net_topic s' = net_topic s /\ (is_Some (net_state s) -> is_Some (net_state s')).

Lemma NetworkStore_Close_kept s : net_kept s (NetworkStore_Close s) /\ NetworkStore_IsOpen (NetworkStore_Close s) = false.
Proof. unfold NetworkStore_Close, net_kept, NetworkStore_IsOpen. destruct (agent_ s) eqn:Ea; cbn; [by split_and!; eauto|]. by rewrite Ea. Qed.

Lemma NetworkStore_Open_kept c s : net_kept s (NetworkStore_Open connect c s).2
  /\ NetworkStore_IsOpen (NetworkStore_Open connect c s).2 = (NetworkStore_Open connect c s).1
  /\ ((NetworkStore_Open connect c s).1 = true -> is_Some (net_state (NetworkStore_Open connect c s).2)).
Proof.
  unfold NetworkStore_Open. destruct (NetworkStore_Close_kept s) as [[Ht Hs] Hc]. destruct (connect c) as [fd|].
  - destruct (Agent_Create _ _) as [a el]. unfold net_kept. cbn. split_and!; eauto.
  - cbn. split_and!; try done. 
Qed.

Lemma net_kept_ok s s' : net_kept s s' -> (NetworkStore_IsOpen s' = true -> is_Some (net_state s')) -> network_ok s -> network_ok s'.
Proof. intros [Ht _] Hs [Hm _]. by split; [rewrite Ht|]. Qed.

#[export] Instance network_serves ic fits : Serves (H := NetworkStore_ops connect) ic fits network_ok network_ok.
Proof.
  split.
  - intros c s st Hs. cbn [Open NetworkStore_ops]. destruct (NetworkStore_Open_kept c s) as (Hk & Ho & Hst).
    destruct (NetworkStore_Open connect c s) as [b s']. cbn [fst snd] in *. exists b, s', st. split_and!; [done| |done].
    apply (net_kept_ok s); [done|by rewrite Ho|done].
  - intros s st _. eexists _, _. split; [done|]. intros st2. by eexists.
  - intros s _ st. by eexists.
  - intros c msg s st Hs _. apply serves_offer; [apply Hs|done|]. cbn [DoAddMessage NetworkStore_ops State].
    unfold NetworkStore_DoAddMessage. destruct (agent_ s) as [a|]; [|by exists false, s, st].
    destruct (Agent_Log _ _ _) as [a' el]. eexists _, _, _. split_and!; [done| |cbn; eauto]. destruct Hs as [Hm _]. split; [done|cbn; eauto].
  - intros c s st Hs. cbn [Cron NetworkStore_ops State]. unfold NetworkStore_Cron. destruct (NetworkStore_IsOpen s) eqn:Eo; [by exists s, st|].
    destruct (_ >=? _); [|by exists s, st]. destruct (NetworkStore_Open_kept c s) as (Hk & Ho & Hst).
    eexists _, _. split_and!; [done| |apply Hk]. apply (net_kept_ok s); [done|by rewrite Ho|done].
  - intros s [_ Hs]. exact Hs.
Qed.

(** The callbacks of its connection keep the promise (see [net_step]): they are
    called while there is one, so that the state is known. *)
Definition network_stated (s : NetworkStore EL) : Prop := network_ok s /\ is_Some (net_state s).

Lemma OnDisconnect_ok s : network_stated s -> network_stated (OnDisconnect s).
Proof.
  intros [Hs Hx]. destruct (NetworkStore_Close_kept s) as [Hk Hc]. split; [|by apply Hk].
  apply (net_kept_ok s); [done| |done]. unfold OnDisconnect. by rewrite Hc.
Qed.

Lemma connected_stated s a : network_ok s -> agent_ s = Some a -> forall a', network_stated (with_agent s a').
Proof.
  intros [Ht Hs] Ha a'. assert (is_Some (net_state s)) as Hx by (apply Hs; unfold NetworkStore_IsOpen; by rewrite Ha). by split; [split|].
Qed.

Lemma SendRequest_ok writes s s' out : network_ok s -> SendRequest writes s = Some (s', out) -> network_stated s'.
Proof.
  intros Hs. unfold SendRequest. destruct (agent_ s) as [a|] eqn:Ea; [|done].
  destruct (request_send_loop _ _ _ _) as [[[req sentlen] o] err]. intros [= <- <-].
  set (s1 := with_agent s _). pose proof (connected_stated s a Hs Ea _ : network_stated s1) as H1. clearbody s1.
  case_decide; [by apply OnDisconnect_ok|]. by destruct (_ =? _).
Qed.

Lemma ReadReply_ok c r s s' k : network_ok s -> ReadReply c r s = Some (s', k) -> network_stated s'.
Proof.
  intros Hs. unfold ReadReply. destruct (agent_ s) as [a|] eqn:Ea; [|done]. pose proof (connected_stated s a Hs Ea) as Hx.
  assert (network_stated s) as H0 by (split; [done|by apply (Hx None)]).
  destruct r as [buf| |[]]; [|intros [= <- <-]; by apply OnDisconnect_ok|by intros [= <- <-]|intros [= <- <-]; by apply OnDisconnect_ok].
  destruct (_ >? _); [intros [= <- <-]; by apply OnDisconnect_ok|].
  unfold ProcessReplyBuffer. intros ([rep n] & _ & [= <- <-])%bind_Some.
  match goal with |- network_stated (Nat.iter n OnMsgSent ?s1) => assert (network_stated s1) as H1 by apply Hx end.
  induction n as [|n IH]; [done|]. rewrite Nat.iter_succ. destruct IH as [[Ht _] _]. split; [split; [done|]|]; cbn; eauto.
Qed.
End network.
