(* ===== verification/Storer.v ===== *)
(** * storer.cc: the thread that stores messages

    The storer takes messages from its cursor of the queue, one per notice,
    when its store is free, and counts those the store refuses; its timer runs
    that of the store and replaces the store after a new configuration.  The
    queue is that of MsgQueue.v, shared with the other threads; the store is
    any instance of [StoreOps]. *)

From S2P Require Import Prelude Common Glob Conf EventLoop Client Worker Demo MsgQueue Stores NetworkStore.

(** ** The class *)

(** [conf_loaded_] is the atomic flag. *)
Record Storer {S : Type} := MkStorer {
  store_ : S;
  stat_ : Statistic;
  conf_loaded_ : bool;
  conf_ : StoreConfig;
}.
Arguments Storer : clear implicits.
Arguments MkStorer {_}.

(** What became of a notice. *)
Inductive taken : Type :=
| Busy
| NoNotice
| WrongNotice
| Offered (msg : message) (stored : bool).

Section storer.
Context {S : Type} `{StoreOps S}.
Variable ignore_case : bool.
(** The storer's place among the consumers of the queue. *)
Variable consumer : nat.
(** [Store::Create], which finds the files of the moment; nothing for NULL. *)
Variable create : clock -> StoreConfig -> option S.

(** [Storer::Create]; the descriptors and the timer are left out. *)
Definition Storer_Create (c : clock) (conf : StoreConfig) (st : Statistic) : option (Storer S) :=
  s ← create c conf;
  '(_, s, st) ← Open c s st;
  Some (MkStorer s st true conf).

(** A notice, whose byte is read or not.  A NULL topic or content is not
    dereferenced by a store that stays defined: the sentinel is never the next
    message. *)
Definition StoreMessage (c : clock) (byte_read : bool) (q : sys) (t : Storer S) : option (sys * Storer S * taken) :=
  x ← State (store_ t);
  if decide (x = Free) then
    if negb byte_read then Some (q, t, NoNotice)
    else
      cur ← cursors q !! consumer;
      '(_, msg) ← MQNext (smem q) cur;
      q ← step q (ENext consumer);
      match msg with
      | None => Some (q, t, WrongNotice)
      | Some (Some topic, Some content) =>
          '(ok, s, st) ← AddMessage ignore_case c (topic, content) (store_ t) (stat_ t);
          let st := if ok : bool then st else stat_dropped st in
          Some (q, MkStorer s st (conf_loaded_ t) (conf_ t), Offered (topic, content) ok)
      | Some _ => None
      end
  else Some (q, t, Busy).

Definition RefreshConfig (conf : StoreConfig) (t : Storer S) : Storer S := MkStorer (store_ t) (stat_ t) false conf.

Definition IfConfigRefreshed (t : Storer S) : bool * Storer S :=
  (negb (conf_loaded_ t), MkStorer (store_ t) (stat_ t) true (conf_ t)).

(** [delete store_] runs the virtual destructor. *)
Definition DoConfigReload (c : clock) (t : Storer S) : option (Storer S) :=
  st ← Delete (store_ t) (stat_ t);
  s ← create c (conf_ t);
  '(_, s, st) ← Open c s st;
  Some (MkStorer s st (conf_loaded_ t) (conf_ t)).

(** What [~Storer] does with its store. *)
Definition delete_store_ (t : Storer S) : option Statistic := '(s, st) ← Close (store_ t) (stat_ t); Delete s st.

Definition Storer_Cron (c : clock) (t : Storer S) : option (Storer S) :=
  '(s, st) ← Cron c (store_ t) (stat_ t);
  let t := MkStorer s st (conf_loaded_ t) (conf_ t) in
  let '(refreshed, t) := IfConfigRefreshed t in
  if refreshed : bool then DoConfigReload c t else Some t.

(** ** The storer and the other threads *)

(** The other threads use the queue and bring a configuration; the callbacks
    of the store's own descriptors change it. *)
Inductive sevent : Type :=
| SQueue (e : event)
| SNotice (c : clock) (byte_read : bool)
| SCron (c : clock)
| SRefresh (conf : StoreConfig)
| SCallback (f : S -> option S).

(** What was offered to the store, in order, with its answers. *)
Record srun := SRun { squeue : sys; sstorer : Storer S; offered : list (message * bool) }.

Definition note (x : taken) (l : list (message * bool)) : list (message * bool) :=
  match x with Offered m b => l ++ [(m, b)] | _ => l end.

Definition sstep (e : sevent) (r : srun) : option srun :=
  match e with
  | SQueue e => q ← step (squeue r) e; Some (SRun q (sstorer r) (offered r))
  | SNotice c b =>
      '(q, t, x) ← StoreMessage c b (squeue r) (sstorer r); Some (SRun q t (note x (offered r)))
  | SCron c => t ← Storer_Cron c (sstorer r); Some (SRun (squeue r) t (offered r))
  | SRefresh conf => Some (SRun (squeue r) (RefreshConfig conf (sstorer r)) (offered r))
  | SCallback f =>
      let t := sstorer r in
      s ← f (store_ t); Some (SRun (squeue r) (MkStorer s (stat_ t) (conf_loaded_ t) (conf_ t)) (offered r))
  end.

Fixpoint ssteps (es : list sevent) (r : srun) : option srun :=
  match es with [] => Some r | e :: es => r ← sstep e r; ssteps es r end.
End storer.
Arguments sevent : clear implicits.
Arguments srun : clear implicits.
Arguments SQueue {_}.
Arguments SNotice {_}.
Arguments SCron {_}.
Arguments SRefresh {_}.
Arguments SCallback {_}.
Arguments SRun {_}.
Arguments squeue {_}.
Arguments sstorer {_}.
Arguments offered {_}.

(** ** Messages are offered in the order of the queue *)

(** What a consumer was given is a beginning of what was pushed. *)
Lemma inv_prefix n q i l : sys_inv n q -> received q !! i = Some l ->
  l = deliver <$> take (length l) (pushed q) /\ (length l <= length (pushed q))%nat.
Proof.
  intros (b & ns & pos & [Hn Ht Hl Hp Hc Hr Hph]) Hrec. rewrite Hr, list_lookup_fmap in Hrec.
  destruct (pos !! i) as [j|] eqn:Ei; [|done]. injection Hrec as <-. rewrite Forall_lookup in Hp. specialize (Hp _ _ Ei). cbn in Hp.
  rewrite length_fmap, length_take, Nat.min_l by lia. split; [done|lia].
Qed.

(** What it is given next is a message. *)
Lemma next_delivered n q q' i l m : sys_inv n q -> sys_inv n q' -> pushed q' = pushed q ->
  received q !! i = Some l -> received q' !! i = Some (l ++ [m]) -> exists e, m = deliver e.
Proof.
  intros _ Hq' _ _ Hr'. destruct (inv_prefix _ _ _ _ Hq' Hr') as [Hpre _].
  assert (last (l ++ [m]) = Some m) as Hlast by apply last_snoc. rewrite Hpre, fmap_last in Hlast.
  destruct (last (take _ (pushed q'))) as [e|]; [|done]. injection Hlast as <-. by exists e.
Qed.

(** The other threads leave what a consumer was given. *)
Lemma queue_step_keeps n i e q : (i < n)%nat -> e <> ENext i -> sys_inv n q ->
  exists q', step q e = Some q' /\ sys_inv n q'
    /\ pushed q' = pushed q ++ match e with EPush t c => [(t, c)] | _ => [] end /\ received q' !! i = received q !! i.
Proof.
  intros Hn He Hq. destruct e as [t m|j|].
  - destruct (inv_push n _ t m Hq) as (q' & E & Hq' & Hp & Hr). exists q'. by rewrite Hr.
  - rewrite app_nil_r. assert (j <> i) as Hj by congruence. destruct (decide (j < n)%nat) as [Hlt|Hge].
    + destruct (inv_received n _ j Hq Hlt) as (l & cur & Hl & Hcur & _).
      destruct (inv_next n _ _ _ _ Hq Hcur Hl) as (c' & msg & q' & _ & E & Hq' & Hp & Hres). exists q'. split_and!; try done.
      destruct (decide _) in Hres; [destruct Hres as (m & _ & ->)|by destruct Hres as [_ ->]]. by rewrite list_lookup_insert_ne.
    + assert (cursors q !! j = None) as E.
      { destruct Hq as (bb & ns & pos & [? ? Hl ? Hcc ? ?]). rewrite Hcc. unfold positions. rewrite list_lookup_fmap.
        rewrite (proj2 (lookup_ge_None pos j)) by lia. done. }
      cbn [step]. rewrite E. by exists q.
  - rewrite app_nil_r. destruct (inv_gc n _ ltac:(lia) Hq) as (q' & E & Hq' & Hp & Hr). exists q'. by rewrite Hr.
Qed.

(** A store that leaves the count of dropped messages to the storer. *)
Class Uncounted {S : Type} `{StoreOps S} (fresh ok : S -> Prop) := {
  uncounted_open : forall c s st b s' st', fresh s -> Open c s st = Some (b, s', st') -> msg_drop st' = msg_drop st;
  uncounted_delete : forall s st st', ok s -> Delete s st = Some st' -> msg_drop st' = msg_drop st;
  uncounted_add : forall c msg s st b s' st', ok s -> DoAddMessage c msg s st = Some (b, s', st') -> msg_drop st' = msg_drop st;
  uncounted_cron : forall c s st s' st', ok s -> Cron c s st = Some (s', st') -> msg_drop st' = msg_drop st;
}.

Definition refused (l : list (message * bool)) : Z := zlen (filter (fun x : message * bool => x.2 = false) l).

Lemma refused_snoc l m b : refused (l ++ [(m, b)]) = refused l + if b : bool then 0 else 1.
Proof. unfold refused. rewrite filter_app, length_app, filter_cons, filter_nil. destruct b; case_decide; done || (cbn [length]; lia). Qed.

Section order.
Context {S : Type} `{StoreOps S}.
Variables (ic : bool) (consumer n : nat) (create : clock -> StoreConfig -> option S).
Variables (fits : message -> Prop) (fresh ok : S -> Prop) (conf_ok : StoreConfig -> Prop).
Context `{!Serves ic fits fresh ok} `{!Stated ok}.
Hypothesis Hn : (consumer < n)%nat.
Hypothesis Hcreate : forall c conf, conf_ok conf -> exists s, create c conf = Some s /\ fresh s.

Definition sallowed (e : sevent S) : Prop :=
  match e with
  | SQueue e => e <> ENext consumer /\ match e with EPush topic content => fits (topic, content) | _ => True end
  | SRefresh conf => conf_ok conf
  | SCallback f => forall s, ok s -> exists s', f s = Some s' /\ ok s'
  | SNotice _ _ | SCron _ => True
  end.

(** [drop0] is the count when the storer began. *)
Definition storer_inv (drop0 : Z) (r : srun S) : Prop :=
  sys_inv n (squeue r) /\ Forall fits (pushed (squeue r)) /\ ok (store_ (sstorer r)) /\ conf_ok (conf_ (sstorer r))
  /\ received (squeue r) !! consumer = Some (deliver <$> (offered r).*1)
  /\ (Uncounted fresh ok -> u64 (msg_drop (stat_ (sstorer r))) = u64 (drop0 + refused (offered r))).

(** The counters of a store that leaves [msg_drop] alone. *)
Definition keeps_drop (st st' : Statistic) : Prop := Uncounted fresh ok -> msg_drop st' = msg_drop st.

Lemma reload_ok c (t : Storer S) : ok (store_ t) -> conf_ok (conf_ t) ->
  exists t', DoConfigReload create c t = Some t' /\ ok (store_ t') /\ conf_ t' = conf_ t /\ keeps_drop (stat_ t) (stat_ t').
Proof.
  intros Hs Hc. unfold DoConfigReload. destruct (serves_delete (ok := ok) (store_ t) Hs (stat_ t)) as [st1 E1].
  rewrite E1. cbn [mbind option_bind]. destruct (Hcreate c _ Hc) as (s2 & -> & Hs2). cbn [mbind option_bind].
  destruct (serves_open (fresh := fresh) c s2 st1 Hs2) as (b & s3 & st3 & E3 & Hs3 & _). rewrite E3. cbn [mbind option_bind].
  eexists. split_and!; [done|done|done|]. intros HU. cbn. rewrite (uncounted_open _ _ _ _ _ _ Hs2 E3). exact (uncounted_delete _ _ _ Hs E1).
Qed.

Lemma delete_store_ok (t : Storer S) : ok (store_ t) -> is_Some (delete_store_ t).
Proof. intros Hs. unfold delete_store_. destruct (serves_close (ok := ok) (store_ t) (stat_ t) Hs) as (s & st & -> & Hd). apply Hd. Qed.

Lemma storer_cron_ok c (t : Storer S) : ok (store_ t) -> conf_ok (conf_ t) ->
  exists t', Storer_Cron create c t = Some t' /\ ok (store_ t') /\ conf_ t' = conf_ t /\ keeps_drop (stat_ t) (stat_ t').
Proof.
  intros Hs Hc. unfold Storer_Cron. destruct (serves_cron (ok := ok) c (store_ t) (stat_ t) Hs) as (s1 & st1 & E1 & Hs1 & _).
  rewrite E1. cbn [mbind option_bind]. assert (keeps_drop (stat_ t) st1) as Hd by (intros HU; exact (uncounted_cron _ _ _ _ _ Hs E1)).
  cbn [IfConfigRefreshed store_ stat_ conf_loaded_ conf_]. destruct (conf_loaded_ t); cbn [negb].
  - by eexists.
  - destruct (reload_ok c (MkStorer s1 st1 true (conf_ t)) Hs1 Hc) as (t' & E & H1 & H2 & H3). exists t'.
    split_and!; [done|done|done|]. intros HU. by rewrite (H3 HU), <- (Hd HU).
Qed.

Lemma add_uncounted c msg s st b s' st' : ok s -> AddMessage ic c msg s st = Some (b, s', st') -> keeps_drop st st'.
Proof.
  intros Hs. unfold AddMessage. destruct (PreAddMessage ic msg s) as [[]|]; cbn [mbind option_bind]; [|by intros [= _ _ <-]|done].
  intros E HU. exact (uncounted_add _ _ _ _ _ _ _ Hs E).
Qed.

(** A notice that is read while the store is free takes the next message. *)
Lemma notice_ok c byte_read drop0 r : storer_inv drop0 r ->
  exists q t x, StoreMessage ic consumer c byte_read (squeue r) (sstorer r) = Some (q, t, x)
    /\ storer_inv drop0 (SRun q t (note x (offered r))) /\ pushed q = pushed (squeue r)
    /\ (byte_read = true -> State (store_ (sstorer r)) = Some Free -> forall m, pushed (squeue r) !! length (offered r) = Some m ->
         exists b, x = Offered m b).
Proof.
  intros (Hq & Hfit & Hs & Hc & Hrec & Hdrop). unfold StoreMessage. destruct (stated (ok := ok) _ Hs) as [x Hx]. rewrite Hx. cbn [mbind option_bind].
  destruct (decide (x = Free)) as [->|Hnf].
  2: { eexists _, _, _. split; [done|]. split_and!; try done. congruence. }
  destruct byte_read; cbn [negb]; [|by eexists _, _, _].
  destruct (inv_received n _ _ Hq Hn) as (l & cur & Hl & Hcur & _). rewrite Hrec in Hl. injection Hl as <-.
  destruct (inv_next n _ _ _ _ Hq Hcur Hrec) as (c' & msg & q' & Enext & Estep & Hq' & Hpush & Hres).
  rewrite Hcur. cbn [mbind option_bind]. rewrite Enext. cbn [mbind option_bind]. rewrite Estep. cbn [mbind option_bind].
  rewrite !length_fmap in Hres. destruct (decide (length (offered r) < length (pushed (squeue r)))%nat) as [Hlt|Hge] in Hres.
  - destruct Hres as (m & -> & Hrec'). destruct (lookup_lt_is_Some_2 _ _ Hlt) as [[topic content] Hm].
    assert (received q' !! consumer = Some ((deliver <$> (offered r).*1) ++ [m])) as Hr'.
    { rewrite Hrec'. apply list_lookup_insert_eq. by eapply lookup_lt_Some. }
    destruct (inv_prefix _ _ _ _ Hq' Hr') as [Hpre _]. destruct (inv_prefix _ _ _ _ Hq Hrec) as [Hpre0 _].
    rewrite Hpush, length_app, !length_fmap, Nat.add_1_r in Hpre. rewrite !length_fmap in Hpre0.
    rewrite (take_S_r _ _ _ Hm), fmap_app in Hpre. rewrite Hpre0 in Hpre. apply app_inv_head in Hpre. injection Hpre as ->.
    cbn [deliver fst snd]. destruct (serves_add (ok := ok) c (topic, content) (store_ (sstorer r)) (stat_ (sstorer r)) Hs)
      as (b & s' & st' & Eadd & Hs' & _); [by eapply Forall_lookup_1|]. rewrite Eadd. cbn [mbind option_bind].
    eexists _, _, _. split; [done|]. split; [|split; [done|]].
    + split_and!; cbn; [done|by rewrite Hpush|done|done|by rewrite Hr', map_app, fmap_app|]. intros HU. specialize (Hdrop HU).
      rewrite refused_snoc. pose proof (add_uncounted _ _ _ _ _ _ _ Hs Eadd HU) as Hd.
      destruct b; cbn; [by rewrite Hd, Z.add_0_r|]. unfold u64 in *. rewrite Zmod_mod, Hd, <- Zplus_mod_idemp_l, Hdrop, Zplus_mod_idemp_l.
      f_equal. lia.
    + intros _ _ m Hm'. rewrite Hm in Hm'. injection Hm' as <-. by eexists.
  - destruct Hres as [-> Hrec']. eexists _, _, _. split; [done|]. split; [|split; [done|]].
    + split_and!; cbn; [done|by rewrite Hpush|done|done|by rewrite Hrec'|done].
    + intros _ _ m Hm. apply lookup_lt_Some in Hm. lia.
Qed.

Lemma sstep_ok e drop0 r : sallowed e -> storer_inv drop0 r ->
  exists r', sstep ic consumer create e r = Some r' /\ storer_inv drop0 r'
    /\ pushed (squeue r') = pushed (squeue r) ++ match e with SQueue (EPush t c) => [(t, c)] | _ => [] end.
Proof.
  intros Ha Hinv. pose proof Hinv as (Hq & Hfit & Hs & Hc & Hrec & Hdrop). destruct e as [e|c b|c|conf|f]; cbn [sstep]; rewrite ?app_nil_r.
  - destruct Ha as [Ha Hf]. destruct (queue_step_keeps n consumer e (squeue r) Hn Ha Hq) as (q & E & Hq' & Hp & Hr). rewrite E. cbn [mbind option_bind].
    eexists. split_and!; [done| |done]. split_and!; cbn; try done; [|by rewrite Hr].
    rewrite Hp. apply Forall_app. split; [done|]. destruct e; try constructor; done.
  - destruct (notice_ok c b drop0 r Hinv) as (q & t & x & E & Hinv' & Hp & _). rewrite E. cbn [mbind option_bind]. by eexists.
  - destruct (storer_cron_ok c (sstorer r) Hs Hc) as (t' & E & H1 & H2 & H3). rewrite E. cbn [mbind option_bind].
    eexists. split_and!; [done| |done]. split_and!; cbn; [done|done|done|by rewrite H2|done|]. intros HU. rewrite (H3 HU). auto.
  - eexists. split_and!; [done| |done]. by split_and!.
  - destruct (Ha _ Hs) as (s' & -> & Hs'). cbn [mbind option_bind]. eexists. split_and!; [done| |done]. by split_and!.
Qed.

Definition spushes (es : list (sevent S)) : list message :=
  omap (fun e => match e with SQueue (EPush t c) => Some (t, c) | _ => None end) es.

Lemma ssteps_ok es : forall drop0 r, Forall sallowed es -> storer_inv drop0 r ->
  exists r', ssteps ic consumer create es r = Some r' /\ storer_inv drop0 r' /\ pushed (squeue r') = pushed (squeue r) ++ spushes es.
Proof.
  induction es as [|e es IH]; intros drop0 r Ha Hinv; [exists r; cbn; by rewrite app_nil_r|].
  apply Forall_cons in Ha as [Ha Has]. destruct (sstep_ok e drop0 r Ha Hinv) as (r1 & E1 & H1 & P1).
  destruct (IH drop0 r1 Has H1) as (r2 & E2 & H2 & P2). exists r2. cbn [ssteps]. rewrite E1. cbn [mbind option_bind].
  split_and!; [done|done|]. rewrite P2, P1, <- app_assoc. unfold spushes. cbn [omap list_omap]. by destruct e as [[]| | | |].
Qed.

Lemma deliver_inj (l1 l2 : list message) : deliver <$> l1 = deliver <$> l2 -> l1 = l2.
Proof. apply list_fmap_eq_inj. intros [] [] [= -> ->]. done. Qed.
End order.

(** C8. Over a store that keeps the promises of the class Serves (its operations are defined on
    the messages that fit and keep its invariant) and always knows its state, which a network store
    that never connected does not (networkstore.cc leaves it uninitialised), whose configurations
    can be created and whose own callbacks keep its invariant: for any sequence of pushes of
    messages that fit, collections, reads by other consumers, notices, cron ticks and such
    configurations, the storer is defined on every step, offers the pushed messages to its store in
    order, each once, counts in msg_drop exactly those the store refused if the store itself counts
    none, and while its store is free the next notice offers the next message, also after the store
    was replaced. *)
Theorem storer_offers_in_order {S} `{StoreOps S} ic consumer n create fits (fresh ok : S -> Prop) conf_ok
    `{!Serves ic fits fresh ok} `{!Stated ok} c0 conf0 st0 es :
  (consumer < n)%nat -> (forall c conf, conf_ok conf -> exists s, create c conf = Some s /\ fresh s) -> conf_ok conf0 ->
  Forall (sallowed consumer fits ok conf_ok) es ->
  exists t r, Storer_Create create c0 conf0 st0 = Some t
    /\ ssteps ic consumer create es (SRun (init n) t []) = Some r
    /\ (offered r).*1 = take (length (offered r)) (spushes es)
    /\ (Uncounted fresh ok -> u64 (msg_drop (stat_ (sstorer r))) = u64 (msg_drop st0 + refused (offered r)))
    /\ (State (store_ (sstorer r)) = Some Free -> forall m, spushes es !! length (offered r) = Some m -> forall c,
         exists r' b, sstep ic consumer create (SNotice c true) r = Some r' /\ offered r' = offered r ++ [(m, b)]).
Proof.
  intros Hn Hcreate Hc0 Hall. unfold Storer_Create. destruct (Hcreate c0 _ Hc0) as (s0 & -> & Hs0). cbn [mbind option_bind].
  destruct (serves_open (fresh := fresh) c0 s0 st0 Hs0) as (b & s1 & st1 & E1 & Hs1 & _). rewrite E1. cbn [mbind option_bind].
  set (t := MkStorer s1 st1 true conf0). exists t.
  destruct (ssteps_ok ic consumer n create fits fresh ok conf_ok Hn Hcreate es (msg_drop st0) (SRun (init n) t [])) as (r & E & Hinv & Hp); [done| |].
  { split_and!; cbn; [apply init_inv|constructor|done|done|by apply lookup_replicate_2|].
    intros HU. by rewrite (uncounted_open _ _ _ _ _ _ Hs0 E1), Z.add_0_r. }
  cbn [squeue init pushed app] in Hp. exists r. split_and!; [done|done| | |].
  - destruct Hinv as (Hq & _ & _ & _ & Hrec & _). destruct (inv_prefix _ _ _ _ Hq Hrec) as [Hpre _].
    rewrite !length_fmap, Hp in Hpre. by apply deliver_inj.
  - by destruct Hinv as (_ & _ & _ & _ & _ & ?).
  - intros Hfree m Hm c. destruct (notice_ok ic consumer n fits fresh ok conf_ok Hn c true _ _ Hinv) as (q & t' & x & Ex & _ & _ & Hx).
    rewrite Hp in Hx. destruct (Hx eq_refl Hfree m Hm) as [b' ->]. cbn [sstep]. rewrite Ex. cbn [mbind option_bind]. by eexists _, b'.
Qed.

(** ** Over a network store: one message at a time *)

Section network.
Context {EL : Type} `{!FileEvents EL nproc unit} `{!FileEventsLaws EL nproc unit}.
Variables (connect : clock -> option Z) (ic : bool) (consumer n : nat) (create : clock -> StoreConfig -> option (NetworkStore EL)).

(** The callbacks of the connection are the store's. *)
Inductive wire_event : Type :=
| WQueue (e : event)
| WNotice (c : clock) (byte_read : bool)
| WCron (c : clock)
| WWritable (writes : list write_result)
| WReadable (c : clock) (r : read_result).

(** The queue, the storer, what was offered, and what happened on the last
    connection (see [net_run]). *)
Record wrun := WRun {
  wqueue : sys;
  wstorer : Storer (NetworkStore EL);
  woffered : list (message * bool);
  wire_ : bytes;
  accepted_ : list message;
  answered_ : nat;
}.

Definition connection (w : wrun) : net_run EL := NetRun (store_ (wstorer w)) (wire_ w) (accepted_ w) (answered_ w).
Definition with_connection (w : wrun) (g : net_run EL) : wrun :=
  let t := wstorer w in
  WRun (wqueue w) (MkStorer (net g) (stat_ t) (conf_loaded_ t) (conf_ t)) (woffered w) (wire g) (accepted g) (answered g).

Definition wire_step (e : wire_event) (w : wrun) : option wrun :=
  match e with
  | WQueue e => q ← step (wqueue w) e; Some (WRun q (wstorer w) (woffered w) (wire_ w) (accepted_ w) (answered_ w))
  | WNotice c b =>
      '(q, t, x) ← StoreMessage (H := NetworkStore_ops connect) ic consumer c b (wqueue w) (wstorer w);
      Some (WRun q t (note x (woffered w)) (wire_ w)
              (match x with Offered m true => accepted_ w ++ [m] | _ => accepted_ w end) (answered_ w))
  | WCron c =>
      t ← Storer_Cron (H := NetworkStore_ops connect) create c (wstorer w);
      Some (if negb (NetworkStore_IsOpen (store_ (wstorer w))) && NetworkStore_IsOpen (store_ t)
            then WRun (wqueue w) t (woffered w) [] [] 0
            else WRun (wqueue w) t (woffered w) (wire_ w) (accepted_ w) (answered_ w))
  | WWritable writes => g ← net_step connect (NWritable writes) (connection w); Some (with_connection w g)
  | WReadable c r => g ← net_step connect (NReadable c r) (connection w); Some (with_connection w g)
  end.

Fixpoint wire_steps (es : list wire_event) (w : wrun) : option wrun :=
  match es with [] => Some w | e :: es => w ← wire_step e w; wire_steps es w end.

Definition wire_event_allowed (e : wire_event) (w : wrun) : Prop :=
  match e with
  | WQueue e => e <> ENext consumer
  | WNotice _ _ => True
  | WCron c => net_allowed connect (NCron c) (connection w)
  | WWritable writes => net_allowed connect (NWritable writes) (connection w)
  | WReadable c r => net_allowed connect (NReadable c r) (connection w)
  end.
Fixpoint wall_allowed (es : list wire_event) (w : wrun) : Prop :=
  match es with
  | [] => True
  | e :: es => wire_event_allowed e w /\ match wire_step e w with Some w => wall_allowed es w | None => True end
  end.

Lemma wall_allowed_cons e es w w' : wire_step e w = Some w' -> wire_event_allowed e w -> wall_allowed es w' -> wall_allowed (e :: es) w.
Proof. intros E. cbn. by rewrite E. Qed.

Definition stored (l : list (message * bool)) : list message := (filter (fun x : message * bool => x.2 = true) l).*1.

Definition winv (w : wrun) : Prop :=
  sys_inv n (wqueue w) /\ matchable (net_topic (store_ (wstorer w))) /\ conf_loaded_ (wstorer w) = true
  /\ wire_ok (connection w) /\ agent_ok (connection w) /\ in_flight_ok (connection w)
  /\ is_Some (net_state (store_ (wstorer w)))
  /\ received (wqueue w) !! consumer = Some (deliver <$> (woffered w).*1)
  /\ accepted_ w `suffix_of` stored (woffered w).

Lemma net_after_open (s : NetworkStore EL) g : net (after_open s g) = s.
Proof. unfold after_open. by destruct (NetworkStore_IsOpen s). Qed.

(** No callback changes the topic, or forgets the state. *)
Lemma net_step_keeps e g g' : net_step connect e g = Some g' ->
  net_topic (net g') = net_topic (net g) /\ (is_Some (net_state (net g)) -> is_Some (net_state (net g'))).
Proof.
  assert (forall s s0 : NetworkStore EL, net_topic s = net_topic s0 -> net_state s = net_state s0 ->
    net_topic (OnDisconnect s) = net_topic s0 /\ (is_Some (net_state s0) -> is_Some (net_state (OnDisconnect s)))) as Hclose.
  { intros s s0 <- <-. unfold OnDisconnect, NetworkStore_Close. destruct (agent_ s); cbn; [split; [done|by eexists]|done]. }
  assert (forall c (s : NetworkStore EL), net_topic (snd (NetworkStore_Open connect c s)) = net_topic s
    /\ (is_Some (net_state s) -> is_Some (net_state (snd (NetworkStore_Open connect c s))))) as Hopen.
  { intros c s. unfold NetworkStore_Open. destruct (Hclose s s eq_refl eq_refl) as [H1 H2]. destruct (connect c); [|by split].
    destruct (Agent_Create _ _) as [a el]. cbn. split; [done|by eexists]. }
  assert (forall s : NetworkStore EL, forall k, net_topic (Nat.iter k OnMsgSent s) = net_topic s) as Hiter.
  { intros s k. induction k as [|k IH]; [done|]. by rewrite Nat.iter_succ. }
  destruct e as [msg|c|c| |writes|c r]; cbn [net_step].
  - unfold NetworkStore_DoAddMessage. destruct (agent_ (net g)) as [a0|]; [|by intros [= <-]].
    destruct (Agent_Log _ _ _) as [a el]. intros [= <-]. cbn. split; [done|by eexists].
  - intros [= <-]. destruct (NetworkStore_IsOpen (net g)) eqn:Eo; [done|]. rewrite net_after_open. unfold NetworkStore_Cron. rewrite Eo.
    destruct (_ >=? _); [apply Hopen|done].
  - intros [= <-]. rewrite net_after_open. apply Hopen.
  - intros [= <-]. by apply Hclose.
  - unfold SendRequest. destruct (agent_ (net g)) as [a|]; [|done].
    destruct (request_send_loop _ _ _ _) as [[[req sentlen] out] err]. cbn [mbind option_bind]. intros [= <-].
    cbn [net]. destruct (decide (err = Some false)).
    + by apply Hclose.
    + by destruct (_ =? _).
  - unfold ReadReply. destruct (agent_ (net g)) as [a|] eqn:Ea; [|done]. destruct r as [buf| |[]]; cbn [mbind option_bind].
    + destruct (_ >? _); cbn [mbind option_bind]; [intros [= <-]; by apply Hclose|].
      unfold ProcessReplyBuffer. destruct (reply_loop _ _ _) as [[rep k]|]; [|done]. cbn [mbind option_bind]. intros [= <-].
      cbn [net]. match goal with |- context [Nat.iter k OnMsgSent ?s] => set (s0 := s) end. rewrite Hiter.
      destruct (iter_sent k s0) as (_ & _ & ->). split; [done|]. destruct k; [done|by eexists].
    + intros [= <-]. by apply Hclose.
    + by intros [= <-].
    + intros [= <-]. by apply Hclose.
Qed.

(** The storer's notice is an [NAdd] of the store at most. *)
Lemma wnotice_ok c b w : (consumer < n)%nat -> winv w -> exists w', wire_step (WNotice c b) w = Some w' /\ winv w'.
Proof.
  intros Hn (Hq & Htop & Hl & Hw & Ha & Hf & Hst & Hrec & Hsuf). cbn [wire_step]. unfold StoreMessage. cbn [State NetworkStore_ops].
  destruct Hst as [x Hx]. rewrite Hx. cbn [mbind option_bind]. destruct w as [q t off wi acc ans]. cbn [wqueue wstorer woffered wire_ accepted_ answered_] in *.
  destruct (decide (x = Free)) as [->|Hnf]; [|eexists; split; [done|]; split_and!; try done; by eexists].
  destruct b; cbn [negb]; [|eexists; split; [done|]; split_and!; try done; by eexists].
  destruct (inv_received n _ _ Hq Hn) as (l & cur & Hl' & Hcur & _). rewrite Hrec in Hl'. injection Hl' as <-.
  destruct (inv_next n _ _ _ _ Hq Hcur Hrec) as (c' & msg & q' & Enext & Estep & Hq' & Hpush & Hres).
  rewrite Hcur. cbn [mbind option_bind]. rewrite Enext. cbn [mbind option_bind]. rewrite Estep. cbn [mbind option_bind].
  rewrite !length_fmap in Hres. destruct (decide (length off < length (pushed q))%nat) as [Hlt|Hge] in Hres.
  2: { destruct Hres as [-> Hrec']. eexists. split; [done|]. split_and!; try done. cbn. by rewrite Hrec'. }
  destruct Hres as (m & -> & Hrec'). assert (received q' !! consumer = Some ((deliver <$> off.*1) ++ [m])) as Hr'.
  { rewrite Hrec'. apply list_lookup_insert_eq. by eapply lookup_lt_Some. }
  destruct (next_delivered n q q' consumer _ m Hq Hq' Hpush Hrec Hr') as [[topic content] ->].
  cbn [deliver fst snd]. unfold AddMessage. destruct (matchable_pre (H := NetworkStore_ops connect) ic (topic, content) (store_ t) Htop) as [b ->]. cbn [mbind option_bind].
  destruct b.
  - cbn [DoAddMessage NetworkStore_ops].
    pose proof (net_step_ok connect (NAdd (topic, content)) _ Hw Ha I) as (g' & Eg & Hw' & Ha').
    pose proof (in_flight_step connect (NAdd (topic, content)) _ _ Hw Ha I Hx Hf Eg) as Hf'.
    pose proof (net_step_keeps _ _ _ Eg) as [Ht' Hs']. cbn [net_step connection net store_ wstorer] in Eg, Ht', Hs'.
    destruct (NetworkStore_DoAddMessage (topic, content) (store_ t)) as [b s'] eqn:Ed. injection Eg as <-. cbn [mbind option_bind].
    eexists. split; [done|]. unfold winv, connection. cbn. cbn in Ht', Hs'.
    split_and!; [done|by rewrite Ht'|done| | | |apply Hs'; by eexists|by rewrite Hr', map_app, fmap_app|].
    1-3: by destruct b.
    unfold stored in *. rewrite filter_app, fmap_app. rewrite (filter_cons _ (_, b)), filter_nil. cbn [snd].
    destruct b; case_decide; try done; cbn; [by apply suffix_snoc|by rewrite app_nil_r].
  - eexists. split; [done|]. unfold winv, connection. cbn. split_and!; try done; try (by eexists); try (by rewrite Hr', map_app, fmap_app).
    unfold stored in *. rewrite filter_app, fmap_app. rewrite (filter_cons _ (_, false)), filter_nil. cbn [snd].
    case_decide; [done|]. cbn. by rewrite app_nil_r.
Qed.

Lemma wnotice_pushed c b w w' : winv w -> wire_step (WNotice c b) w = Some w' -> pushed (wqueue w') = pushed (wqueue w).
Proof.
  intros (Hq & _). cbn [wire_step]. unfold StoreMessage. destruct (State _) as [x|]; cbn [mbind option_bind]; [|done].
  destruct (decide (x = Free)); [|by intros [= <-]]. destruct b; cbn [negb]; [|by intros [= <-]].
  destruct (cursors (wqueue w) !! consumer) as [cur|] eqn:Ec; cbn [mbind option_bind]; [|done].
  destruct (MQNext _ _) as [[c' msg]|] eqn:En; cbn [mbind option_bind]; [|done]. cbn [step]. rewrite Ec, En. cbn [mbind option_bind].
  destruct msg as [[[topic|] [content|]]|]; try done; [|by intros [= <-]].
  destruct (AddMessage _ _ _ _ _) as [[[ok s] st]|]; cbn [mbind option_bind]; [|done]. by intros [= <-].
Qed.

Lemma wqueue_ok e w : (consumer < n)%nat -> e <> ENext consumer -> winv w ->
  exists w', wire_step (WQueue e) w = Some w' /\ winv w'
    /\ pushed (wqueue w') = pushed (wqueue w) ++ match e with EPush t c => [(t, c)] | _ => [] end.
Proof.
  intros Hn He (Hq & Hrest). cbn [wire_step].
  destruct (queue_step_keeps n consumer e (wqueue w) Hn He Hq) as (q & E & Hq' & Hp & Hr). rewrite E. cbn [mbind option_bind].
  eexists. split; [done|]. split; [|done]. split; [done|]. cbn. by rewrite Hr.
Qed.

(** The callbacks and the timer are steps of the store alone. *)
Lemma wconnection_ok e w g' : winv w -> net_allowed connect e (connection w) ->
  match e with NAdd _ => False | _ => True end -> net_step connect e (connection w) = Some g' ->
  accepted g' = accepted_ w \/ accepted g' = [] -> winv (with_connection w g').
Proof.
  intros (Hq & Htop & Hl & Hw & Ha & Hf & Hst & Hrec & Hsuf) Hal Hna E Hacc.
  destruct (net_step_ok connect e _ Hw Ha Hal) as (g1 & E1 & Hw1 & Ha1). rewrite E in E1. injection E1 as <-.
  assert (in_flight_ok g') as Hf' by (eapply (in_flight_step connect e); [exact Hw|exact Ha|exact Hal|by destruct e|exact Hf|exact E]).
  destruct (net_step_keeps _ _ _ E) as [Ht Hs]. cbn [connection net] in Ht, Hs. destruct g' as [s wi acc ans].
  split_and!; cbn in *; try done; [by rewrite Ht|by apply Hs|]. destruct Hacc as [->| ->]; [done|apply suffix_nil].
Qed.

Lemma wcron_ok c w : winv w -> net_allowed connect (NCron c) (connection w) ->
  exists w', wire_step (WCron c) w = Some w' /\ winv w' /\ wqueue w' = wqueue w /\ woffered w' = woffered w.
Proof.
  intros Hinv Hal. pose proof Hinv as (_ & _ & Hl & _). cbn [wire_step]. unfold Storer_Cron. cbn [Cron NetworkStore_ops mbind option_bind].
  unfold IfConfigRefreshed. cbn [store_ stat_ conf_loaded_ conf_]. rewrite Hl. cbn [negb].
  set (s' := NetworkStore_Cron connect c (store_ (wstorer w))).
  assert (exists g', net_step connect (NCron c) (connection w) = Some g' /\ net g' = s'
    /\ (if negb (NetworkStore_IsOpen (store_ (wstorer w))) && NetworkStore_IsOpen s'
        then wire g' = [] /\ accepted g' = [] /\ answered g' = 0%nat
        else wire g' = wire_ w /\ accepted g' = accepted_ w /\ answered g' = answered_ w)) as (g' & E & Hnet & Hg).
  { cbn [net_step]. eexists. split; [done|]. cbn [connection net]. subst s'.
    destruct (NetworkStore_IsOpen (store_ (wstorer w))) eqn:Eo; cbn [negb andb].
    - unfold NetworkStore_Cron. rewrite Eo. done.
    - rewrite net_after_open. split; [done|]. unfold after_open. destruct (NetworkStore_IsOpen (NetworkStore_Cron _ _ _)); done. }
  assert (winv (with_connection w g')) as Hw'.
  { eapply wconnection_ok; [done|exact Hal|done|exact E|]. destruct (negb _ && _); destruct Hg as (_ & -> & _); [by right|by left]. }
  exists (with_connection w g'). split_and!; [|done..]. unfold with_connection. rewrite Hnet, Hl.
  cbn [mbind option_bind store_]. destruct (negb _ && _); by destruct Hg as (-> & -> & ->).
Qed.

Lemma wire_step_ok e w : (consumer < n)%nat -> winv w -> wire_event_allowed e w ->
  exists w', wire_step e w = Some w' /\ winv w'
    /\ pushed (wqueue w') = pushed (wqueue w) ++ match e with WQueue (EPush t c) => [(t, c)] | _ => [] end.
Proof.
  intros Hn Hinv Hal. destruct e as [e|c b|c|writes|c r]; cbn [wire_event_allowed] in Hal.
  - by apply wqueue_ok.
  - destruct (wnotice_ok c b w Hn Hinv) as (w' & E & Hinv'). exists w'. split_and!; [done|done|]. rewrite app_nil_r.
    by eapply wnotice_pushed.
  - destruct (wcron_ok c w Hinv Hal) as (w' & E & Hinv' & Hq & _). exists w'. split_and!; [done|done|]. by rewrite Hq, app_nil_r.
  - cbn [wire_step]. pose proof Hinv as (_ & _ & _ & Hw & Ha & _).
    destruct (net_step_ok connect (NWritable writes) _ Hw Ha Hal) as (g & E & _). rewrite E. cbn [mbind option_bind]. eexists. split; [done|].
    split; [|cbn; by rewrite app_nil_r]. eapply wconnection_ok; [done|exact Hal|done|exact E|]. left.
    cbn [net_step] in E. destruct (SendRequest _ _) as [[s out]|]; [|done]. by injection E as <-.
  - cbn [wire_step]. pose proof Hinv as (_ & _ & _ & Hw & Ha & _).
    destruct (net_step_ok connect (NReadable c r) _ Hw Ha Hal) as (g & E & _). rewrite E. cbn [mbind option_bind]. eexists. split; [done|].
    split; [|cbn; by rewrite app_nil_r]. eapply wconnection_ok; [done|exact Hal|done|exact E|]. left.
    cbn [net_step] in E. destruct (ReadReply _ _ _) as [[s k]|]; [|done]. by injection E as <-.
Qed.

Definition wpushes (es : list wire_event) : list message :=
  omap (fun e => match e with WQueue (EPush t c) => Some (t, c) | _ => None end) es.

Lemma wire_steps_ok es : forall w, (consumer < n)%nat -> winv w -> wall_allowed es w ->
  exists w', wire_steps es w = Some w' /\ winv w' /\ pushed (wqueue w') = pushed (wqueue w) ++ wpushes es.
Proof.
  induction es as [|e es IH]; intros w Hn Hinv Hal; [exists w; cbn; by rewrite app_nil_r|]. destruct Hal as [Ha Hal].
  destruct (wire_step_ok e w Hn Hinv Ha) as (w1 & E1 & H1 & P1). rewrite E1 in Hal.
  destruct (IH w1 Hn H1 Hal) as (w2 & E2 & H2 & P2). exists w2. cbn [wire_steps]. rewrite E1. cbn [mbind option_bind].
  split_and!; [done|done|]. rewrite P2, P1, <- app_assoc. unfold wpushes. cbn [omap list_omap]. by destruct e as [[]| | | |].
Qed.
End network.

Arguments wrun : clear implicits.

Section network_property.
Context {EL : Type} `{!FileEvents EL nproc unit} `{!FileEventsLaws EL nproc unit}.

(** A storer whose store connected when it was created. *)
Definition wstart (n : nat) (t : Storer (NetworkStore EL)) : wrun EL := WRun (init n) t [] [] [] 0.

(** C9. Let a storer be created over a network store that connects at once, on a descriptor its
    loop accepts, with a topic that parses as a pattern; and let its connection write, reply, fail
    and be made again by the cron at any moment, with replies that are lines, not empty and without
    CR and NUL, cut anywhere, while the configuration stays. Then the storer stays defined and
    offers the pushed messages in order; and on the present connection it has written a prefix of
    the LOG requests of the messages logged on it, in order and in full one after another, and at
    most one more of them than replies have come. *)
Theorem storer_sends_one_at_a_time (connect : clock -> option Z) ic consumer n (create : clock -> StoreConfig -> option (NetworkStore EL))
    c0 conf0 st0 topic (el : EL) fd es :
  (consumer < n)%nat -> create c0 conf0 = Some (new_NetworkStore topic el) -> matchable topic ->
  connect c0 = Some fd -> fd_ok (EL := EL) fd ->
  exists t, Storer_Create (H := NetworkStore_ops connect) create c0 conf0 st0 = Some t
    /\ (wall_allowed connect ic consumer create es (wstart n t) ->
        exists w, wire_steps connect ic consumer create es (wstart n t) = Some w
          /\ (woffered w).*1 = take (length (woffered w)) (wpushes es)
          /\ (accepted_ w) `suffix_of` stored (woffered w)
          /\ (exists rest, wire_ w ++ rest = concat (map log_request (accepted_ w)))
          /\ (length (accepted_ w) <= S (answered_ w))%nat).
Proof.
  intros Hn Hcreate Hm Hconn Hfd. unfold Storer_Create. rewrite Hcreate. cbn [mbind option_bind Open NetworkStore_ops].
  unfold NetworkStore_Open, NetworkStore_Close. cbn [agent_ new_NetworkStore net_events net_topic net_state].
  rewrite Hconn. unfold Agent_Create. destruct (proj2 Hfd el AE_READABLE NReadReply) as [el' Hel]. rewrite Hel. cbn [mbind option_bind].
  set (t := MkStorer _ _ _ _). exists t. split; [done|]. intros Hal.
  destruct (wire_steps_ok connect ic consumer n create es (wstart n t) Hn) as (w & E & Hinv & Hp); [|exact Hal|].
  - subst t. split_and!; cbn; [apply init_inv|done|done| | | |by eexists|by apply lookup_replicate_2|done].
    + split_and!; done || by eexists.
    + split_and!; done || by apply Hfd.
    + split; cbn; lia.
  - exists w. destruct Hinv as (Hq & _ & _ & Hw & _ & [Hf _] & _ & Hrec & Hsuf). split_and!; try done.
    + cbn [wstart wqueue init pushed app] in Hp. destruct (inv_prefix _ _ _ _ Hq Hrec) as [Hpre _].
      rewrite !length_fmap, Hp in Hpre. by apply deliver_inj.
    + by apply (wire_prefix (connection w)).
Qed.
End network_property.

(** ** Examples *)

#[export] Instance NullStore_uncounted (fresh ok : NullStore -> Prop) : Uncounted fresh ok.
Proof. by split; [intros c s st b s' st' _ [= _ _ <-]|intros s st st' _ [= <-]|intros c m s st b s' st' _ [= _ _ <-]|intros c s st s' st' _ [= _ <-]]. Qed.

#[export] Instance NullStore_serves ic (fits : message -> Prop) :
  Serves ic fits (fun s : NullStore => matchable (null_topic s)) (fun s => matchable (null_topic s)).
Proof. apply total_serves. Qed.

(** A null store for the topics of a pattern; worker 0 also reads. *)
Definition null_create (_ : clock) (conf : StoreConfig) : option NullStore := Some (MkNull (sc_topic (sc_fields conf)) false).
Definition null_conf (topic : bytes) : StoreConfig := MkStoreConfig (set_topic topic (set_type (bs "null") [] no_fields)) [].
Definition demo_sevents : list (sevent NullStore) :=
  [SQueue (EPush (bs "app.web") (bs "GET /")); SQueue (EPush (bs "db") (bs "slow")); SNotice demo_clock true; SQueue EGc;
   SNotice demo_clock false; SNotice demo_clock true; SRefresh (null_conf (bs "db")); SCron demo_clock; SQueue (ENext 0);
   SNotice demo_clock true; SQueue (EPush (bs "db") (bs "slower"))].

Lemma null_conf_matchable topic conf : conf = null_conf topic -> matchable topic -> matchable (sc_topic (sc_fields conf)).
Proof. by intros ->. Qed.

Lemma demo_topics : matchable (bs "app.*") /\ matchable (bs "db").
Proof. split; (right; eexists; split; [reflexivity|intros t; by right]). Qed.

Lemma storer_offers_in_order_witness :
  exists t r, Storer_Create null_create demo_clock (null_conf (bs "app.*")) stat_zero = Some t
    /\ ssteps false 1 null_create demo_sevents (SRun (init 2) t []) = Some r
    /\ offered r = [((bs "app.web", bs "GET /"), true); ((bs "db", bs "slow"), false)]
    /\ msg_drop (stat_ (sstorer r)) = 1
    /\ exists r' b, sstep false 1 null_create (SNotice demo_clock true) r = Some r'
         /\ offered r' = offered r ++ [((bs "db", bs "slower"), b)].
Proof.
  destruct (storer_offers_in_order false 1 2 null_create (fun _ => True) (fun s => matchable (null_topic s)) (fun s => matchable (null_topic s))
    (fun conf => matchable (sc_topic (sc_fields conf))) demo_clock (null_conf (bs "app.*")) stat_zero demo_sevents)
    as (t & r & E1 & E2 & _ & Hdrop & Hnext).
  - lia.
  - intros c conf Hc. by eexists.
  - apply demo_topics.
  - unfold demo_sevents. repeat (apply Forall_cons_2; [first [exact I|split; [discriminate|exact I]|apply demo_topics]|]). by apply Forall_nil_2.
  - exists t, r. split; [exact E1|]. split; [exact E2|].
    set (x := Storer_Create _ _ _ _) in E1. vm_compute in x. subst x. injection E1 as <-.
    set (x := ssteps _ _ _ _ _) in E2. vm_compute in x. subst x. injection E2 as <-.
    split; [reflexivity|]. split; [reflexivity|]. apply Hnext; reflexivity.
Defined.

(** A network store whose connection, on descriptor 9, was just made: it is
    offered one message, is busy until the reply, and takes the next. *)
Definition net_create (_ : clock) (_ : StoreConfig) : option (NetworkStore (gmap Z Z)) := Some (new_NetworkStore (bs "*") ∅).
Definition demo_wevents : list wire_event :=
  [WQueue (EPush (bs "app.web") (bs "GET /")); WQueue (EPush (bs "db") (bs "slow")); WNotice demo_clock true;
   WNotice demo_clock true; WWritable [Wrote 1000]; WCron demo_clock; WReadable demo_clock (RData (bs ":1" ++ [CR; LF]));
   WNotice demo_clock true; WWritable [Wrote 5]].

Lemma demo_reply : exists ls t, [] ++ bs ":1" ++ [CR; LF] = lines ls ++ t /\ Forall reply_ok ls /\ partial t
  /\ zlen ([] ++ bs ":1" ++ [CR; LF]) < 2 ^ 32.
Proof. exact demo_whole_reply. Qed.

Ltac next_wevent tac := eapply wall_allowed_cons; [vm_compute; reflexivity|tac|].

Lemma storer_sends_one_at_a_time_witness :
  let create := net_create in
  exists t w, Storer_Create (H := NetworkStore_ops demo_connect) create demo_clock (null_conf (bs "*")) stat_zero = Some t
    /\ wire_steps demo_connect false 1 create demo_wevents (wstart 2 t) = Some w
    /\ accepted_ w = [(bs "app.web", bs "GET /"); (bs "db", bs "slow")] /\ answered_ w = 1%nat
    /\ (length (accepted_ w) <= S (answered_ w))%nat.
Proof.
  cbv zeta. assert (fd_ok (EL := gmap Z Z) 9) as Hfd by (split; [lia|intros el m p; by eexists]).
  destruct (storer_sends_one_at_a_time demo_connect false 1 2 net_create demo_clock (null_conf (bs "*")) stat_zero (bs "*") ∅ 9 demo_wevents)
    as (t & E & Hall); [lia|done|by left|done|exact Hfd|].
  exists t. set (x := Storer_Create _ _ _ _) in E. vm_compute in x. subst x. injection E as <-.
  destruct Hall as (w & Ew & _ & _ & _ & Hlen).
  - unfold demo_wevents.
    next_wevent ltac:(discriminate). next_wevent ltac:(discriminate). next_wevent ltac:(exact I). next_wevent ltac:(exact I).
    next_wevent ltac:(by eexists). next_wevent ltac:(intros fd [= <-]; exact Hfd).
    next_wevent ltac:(eexists; split; [reflexivity|exact demo_reply]). next_wevent ltac:(exact I). next_wevent ltac:(by eexists). exact I.
  - exists w. split; [reflexivity|]. split; [exact Ew|].
    set (x := wire_steps _ _ _ _ _ _) in Ew. vm_compute in x. subst x. injection Ew as <-.
    split_and!; [reflexivity|reflexivity|exact Hlen].
Defined.
