(* ===== verification/System.v ===== *)
(** * The server: the master, the workers and the storer together

    The threads share the master: its queue, its notifications and its
    connection counts.  A step of the system is one callback of one thread,
    run to its end, with the calls it makes to the master; the interleavings
    inside such calls are those of MsgQueue.v and Master.v, of whose actions
    the master's functions are composed here.  The store is any instance of
    [StoreOps]. *)

From S2P Require Import Prelude Common Util Glob EventLoop Protocol Client PubSub Worker Demo MsgQueue Master.
From S2P Require Import Conf Stores NetworkStore Storer.

(** ** What a step of a worker leaves *)

Section worker_frame.
Context {EL M : Type} `{!FileEvents EL fproc cid} `{!FileEventsLaws EL fproc cid} `{!MasterOps M}.
Variable cfg : Config.
Variable unixtime : Z.
Variable env : info_env.
Variable set_begin : gset bytes -> bytes.
Variable peer_ip : Z -> bytes.
Notation wstate := (wstate EL M).
Notation st := (st EL M).

(** A worker keeps its number, only calls the master as itself, and its
    clients keep their descriptors. *)
Record wframe (ws ws' : wstate) : Prop := {
  wf_id : worker_id_ (core ws') = worker_id_ (core ws);
  wf_master : rtc (master_move (worker_id_ (core ws))) (wms ws) (wms ws');
  wf_fds c cl' : objs ws' !! c = Some cl' -> exists cl, objs ws !! c = Some cl /\ fd_ (self cl') = fd_ (self cl);
}.

#[local] Instance wframe_preorder : PreOrder wframe.
Proof.
  split.
  - intros ws. split; [done|done|by intros c cl ?; exists cl].
  - intros w1 w2 w3 [I1 M1 F1] [I2 M2 F2]. rewrite I1 in M2. split; [congruence|by etrans|].
    intros c cl' (cl & H & E)%F2. apply F1 in H as (cl0 & H & E0). exists cl0. split; [done|congruence].
Qed.

(** Changing one client and the rest of the worker. *)
Lemma wframe_client (ws : wstate) c cl cl' w m : objs ws !! c = Some cl -> fd_ (self cl') = fd_ (self cl) ->
  worker_id_ w = worker_id_ (core ws) -> rtc (master_move (worker_id_ (core ws))) (wms ws) m ->
  wframe ws (WState w (<[c := cl']> (objs ws)) m).
Proof.
  intros Hc Hfd Hid Hm. split; [done|done|]. intros c' cl1. cbn. rewrite lookup_insert_Some.
  intros [[<- <-]|[_ H]]; eauto.
Qed.

Lemma wframe_core (ws : wstate) w m : worker_id_ w = worker_id_ (core ws) ->
  rtc (master_move (worker_id_ (core ws))) (wms ws) m -> wframe ws (WState w (objs ws) m).
Proof. intros Hid Hm. split; [done|done|by intros c cl ?; exists cl]. Qed.

Lemma on_client_wframe c f (ws ws' : wstate) : (forall s s', f s = Some s' -> frame s s') ->
  on_client c f ws = Some ws' -> wframe ws ws'.
Proof.
  intros Hf. unfold on_client. destruct (objs ws !! c) as [cl|] eqn:E; [|done]. cbn [mbind option_bind].
  intros (s & [Hfd _ _ _ Hid _ _ _ _ _ Hm]%Hf & [= <-])%bind_Some. by eapply wframe_client.
Qed.

Lemma delete_client_wframe c (ws ws' : wstate) : delete_client cfg unixtime set_begin peer_ip c ws = Some ws' -> wframe ws ws'.
Proof.
  unfold delete_client. destruct (objs ws !! c) as [cl|] eqn:E; [|done]. cbn [mbind option_bind]. unfold destroy.
  set (s1 := if _ =? 0 then _ else _).
  assert (worker_id_ (wk s1) = worker_id_ (core ws) /\ rtc (master_move (worker_id_ (core ws))) (wms ws) (ms s1)) as [I1 M1].
  { subst s1. destruct (max_clients cfg =? 0); cbn; (split; [done|]); [done|]. apply rtc_once, move_remove. }
  clearbody s1. intros (s & (s2 & H1 & H2)%bind_Some & [= <-])%bind_Some.
  apply frame_UnsubscribeAllTopics in H1. apply frame_UnsubscribeAllPatterns in H2.
  destruct (transitivity H1 H2) as [_ _ _ _ I2 _ _ _ _ _ M2]. rewrite I1 in *.
  split; cbn; [congruence|by etrans|]. intros c' cl' [_ ?]%lookup_delete_Some. eauto.
Qed.

Lemma FreeClient_wframe c (ws ws' : wstate) : FreeClient cfg unixtime set_begin peer_ip c ws = Some ws' -> wframe ws ws'.
Proof.
  unfold FreeClient. case_decide; [|by intros [= <-]]. intros H1%delete_client_wframe. etrans; [|exact H1].
  by apply wframe_core.
Qed.

Lemma delete_all_wframe l : forall ws ws' : wstate, delete_all cfg unixtime set_begin peer_ip l ws = Some ws' -> wframe ws ws'.
Proof.
  induction l as [|c l IH]; intros ws ws'; cbn [delete_all]; [by intros [= <-]|].
  intros (ws1 & H1%delete_client_wframe & H2%IH)%bind_Some. by etrans.
Qed.

Lemma Cron_wframe (ws ws' : wstate) : Worker.Cron cfg unixtime set_begin peer_ip ws = Some ws' -> wframe ws ws'.
Proof.
  unfold Worker.Cron, FreeClientsInAsyncFreeQueue. intros (ws1 & (ws2 & H1%delete_all_wframe & [= <-])%bind_Some & [= <-])%bind_Some.
  etrans; [exact H1|]. by apply (wframe_core ws2).
Qed.

Lemma ReadRequest_wframe ok r c (ws ws' : wstate) : worker_ok ws ->
  ReadRequest cfg unixtime env set_begin peer_ip ok r c ws = Some ws' -> wframe ws ws'.
Proof.
  intros [Hcore _]. unfold ReadRequest. destruct r as [buf| |[]]; [|apply FreeClient_wframe|by intros [= <-]|apply FreeClient_wframe].
  destruct ok; cbn [negb]; [|apply FreeClient_wframe].
  destruct (objs ws !! c) as [cl|] eqn:E; [|done]. pose proof (wo_clients _ Hcore _ _ E) as [_ _ Hps _]. cbn [mbind option_bind]. destruct (_ >? _).
  - intros H1%FreeClient_wframe. etrans; [|exact H1]. by eapply wframe_client.
  - intros ([[req ps] s] & H1 & [= <-])%bind_Some. unfold ProcessRequestBuffer in H1. apply frame_request_loop in H1; [|exact Hps].
    destruct H1 as [Hfd _ _ _ Hid _ _ _ _ _ Hm]. by eapply wframe_client.
Qed.

Lemma send_loop_fd writes : forall c out, fd_ (send_loop writes c out).1.1 = fd_ c.
Proof.
  induction writes as [|[n|again] writes IH]; intros c out; cbn [send_loop]; repeat (case_match; try done). by rewrite IH.
Qed.

Lemma SendReply_wframe writes c (ws ws' : wstate) out :
  SendReply cfg unixtime set_begin peer_ip writes c ws = Some (ws', out) -> wframe ws ws'.
Proof.
  unfold SendReply. destruct (objs ws !! c) as [cl|] eqn:E; [|done]. cbn [mbind option_bind].
  pose proof (send_loop_fd writes (self cl) []) as Hfd. destruct (send_loop writes (self cl) []) as [[conn o] err]. cbn in Hfd.
  assert (forall conn' w, fd_ conn' = fd_ conn -> worker_id_ w = worker_id_ (core ws) ->
    wframe ws (WState w (<[c := MkClient (req_ cl) (parsing cl) conn']> (objs ws)) (wms ws))) as Hput.
  { intros conn1 w Hc Hi. apply (wframe_client _ _ cl); [done|cbn; congruence|done|done]. }
  case_bool_decide; [intros (w & H1%FreeClient_wframe & [= <- <-])%bind_Some; etrans; [|exact H1]; by apply Hput|].
  set (conn' := if _ >? 0 then _ else _). assert (fd_ conn' = fd_ conn) as Hfd' by (subst conn'; by case_match).
  clearbody conn'. destruct (_ >=? _); [|intros [= <- <-]; by apply Hput].
  destruct (close_after_reply conn'); [|intros [= <- <-]; by apply Hput].
  intros (w & H1%FreeClient_wframe & [= <- <-])%bind_Some. etrans; [|exact H1]; by apply Hput.
Qed.

Lemma count_out_wframe traffic (ws : wstate) : wframe ws (count_out traffic ws).
Proof. by apply wframe_core. Qed.

Lemma PublishMessage_wframe msg (ws ws' : wstate) : PublishMessage cfg unixtime msg ws = Some ws' -> wframe ws ws'.
Proof.
  unfold PublishMessage. destruct msg as [[topic content]|]; [|by intros [= <-]].
  intros (ws1 & H1 & H2)%bind_Some. transitivity ws1.
  - revert H1. generalize (default [] (clients_by_topic_ (core ws) !! topic)) as l. intros l. revert ws.
    induction l as [|c l IH]; intros ws; cbn [publish_topic]; [by intros [= <-]|].
    intros (ws2 & H1 & H2'%IH)%bind_Some. etrans; [apply count_out_wframe|]. etrans; [|exact H2'].
    eapply on_client_wframe; [|exact H1]. intros s s' [= <-]. apply frame_ReceiveMessage.
  - revert H2. generalize (pubsub_patterns_ (core ws1)) as l. intros l. clear H1. revert ws1.
    induction l as [|[p c] l IH]; intros ws1; cbn [publish_patterns]; [by intros [= <-]|].
    destruct (stringmatchlen _ _ _) as [[]| |]; [|apply IH|done|done].
    intros (ws2 & H1 & H2'%IH)%bind_Some. etrans; [apply count_out_wframe|]. etrans; [|exact H2'].
    eapply on_client_wframe; [|exact H1]. intros s s' [= <-]. apply frame_ReceivePatternMessage.
Qed.

(** A new client comes with its descriptor. *)
Lemma GetNewConnection_wframe sfd (ws ws' : wstate) : GetNewConnection cfg unixtime set_begin peer_ip sfd ws = Some ws' ->
  worker_id_ (core ws') = worker_id_ (core ws)
  /\ rtc (master_move (worker_id_ (core ws))) (wms ws) (wms ws')
  /\ forall c cl', objs ws' !! c = Some cl' ->
       fd_ (self cl') = sfd \/ exists cl, objs ws !! c = Some cl /\ fd_ (self cl') = fd_ (self cl).
Proof.
  rewrite GetNewConnection_eq. cbv zeta. destruct (fe_create _ _ _ _ _) as [el|].
  - intros [= <-]. cbn. split_and!; [done|done|]. intros c cl'. rewrite lookup_insert_Some. intros [[_ <-]|[_ H]]; [by left|eauto].
  - intros [Hid Hm Hf]%delete_client_wframe. cbn in *. split_and!; [done|done|]. intros c cl' (cl & H & E)%Hf.
    cbn in H. rewrite lookup_insert_Some in H. destruct H as [[_ <-]|[_ H]]; [by left|eauto].
Qed.
End worker_frame.

(** ** State *)

(** The fields of a [Master] that its threads share.  [net_] holds the queue,
    with, for each worker and the storer, [msg_wait_to_notify_] and what is
    unread in its socket pairs. *)
Record master := MkMaster {
  net_ : nstate;
  connected_clients_ : gmap bytes Z;
  last_thread_ : Z;
  mstat_ : Statistic;
  (** SIGTERM was raised *)
  terminated_ : bool;
  (** the static variables of [Cron] *)
  rates_ : rates;
}.

(** A worker with its clients, the descriptors other threads gave it and the
    notices of them. *)
Record thread {EL : Type} := Thread {
  tcore : worker EL;
  tclients : gmap cid client;
  conn_queue_ : list Z;
  conn_wait_to_notify_ : nat;
  conn_pipe_ : nat;
}.
Arguments thread : clear implicits.
Arguments Thread {EL}.

(** [offered_] is what was offered to the store, with its answers. *)
Record server {EL S : Type} := Server {
  smaster : master;
  threads : list (thread EL);
  storer_ : Storer S;
  offered_ : list (message * bool);
}.
Arguments server : clear implicits.
Arguments Server {EL S}.

(** The facts of the moment a callback runs at. *)
Record moment := Moment { now : Z; facts : info_env; peer_ip : Z -> bytes }.

(** ** The functions of the master that other threads call *)

Section master.
Variable cfg : Config.
(** What a socket pair holds unread. *)
Variable capacity : nat.

Definition workers : nat := Z.to_nat (worker_threads cfg).
Definition do := nstep workers (queue_limit cfg) capacity.
Definition do_all := nrun workers (queue_limit cfg) capacity.

Definition with_net (m : master) (s : nstate) : master :=
  MkMaster s (connected_clients_ m) (last_thread_ m) (mstat_ m) (terminated_ m) (rates_ m).
Definition with_connected (m : master) (c : gmap bytes Z) : master :=
  MkMaster (net_ m) c (last_thread_ m) (mstat_ m) (terminated_ m) (rates_ m).

(** The loop of [Worker::NotifyNewMessage] writes a byte for each waiting
    notice until the socket is full, when every further write fails. *)
Fixpoint notify_consumers (i : nat) (consumers : list nat) (s : nstate) : option nstate :=
  match consumers with
  | [] => Some s
  | c :: consumers => s ← do_all s (replicate (wait_ s c i) (AWrite i c)); notify_consumers i consumers s
  end.

(** [Master::NotifyNewMessage]: the workers, then the storer. *)
Definition NotifyNewMessage (i : nat) (s : nstate) : option nstate := notify_consumers i (seq 0 (S workers)) s.

(** [Master::PutMessage]; an undefined state of the master is [None]. *)
Definition put_message (m : option master) (topic content : bytes) (i : nat) : bool * option master :=
  match m with
  | None => (false, None)
  | Some m =>
      match do (net_ m) (ATest i topic content) with
      | None => (false, None)
      | Some s =>
          match put_ s i with
          | PAdmitted _ _ =>
              (true, s ← do s (APush i);
                     s ← do_all s (replicate (S workers) (AAdd i));
                     s ← NotifyNewMessage i s; Some (with_net m s))
          | _ => (false, Some (MkMaster s (connected_clients_ m) (last_thread_ m) (stat_dropped (mstat_ m)) (terminated_ m) (rates_ m)))
          end
      end
  end.

Definition server_master : MasterOps (option master) := {|
  PutMessage := put_message;
  Client.RemoveClient m ip := m ← m; Some (with_connected m (Master.RemoveClient cfg ip (connected_clients_ m)));
  Terminate m := m ← m; Some (MkMaster (net_ m) (connected_clients_ m) (last_thread_ m) (mstat_ m) true (rates_ m));
  master_stat m := from_option mstat_ stat_zero m;
|}.
End master.

(** ** The callbacks of the threads *)

Section server.
Context {EL S : Type} `{!FileEvents EL fproc cid} `{!StoreOps S}.
Variable cfg : Config.
Variable capacity : nat.
Variable set_begin : gset bytes -> bytes.
Variable create : clock -> StoreConfig -> option S.
#[local] Hint Extern 0 (MasterOps (option master)) => exact (server_master cfg capacity) : typeclass_instances.

Notation server := (server EL S).
Notation thread := (thread EL).
Notation workers := (workers cfg).

(** A callback of worker [i]. *)
Definition on_thread (i : nat) (f : wstate EL (option master) -> option (wstate EL (option master))) (sv : server)
  : option server :=
  t ← threads sv !! i;
  ws ← f (WState (tcore t) (tclients t) (Some (smaster sv)));
  m ← wms ws;
  Some (Server m (<[i := Thread (core ws) (objs ws) (conn_queue_ t) (conn_wait_to_notify_ t) (conn_pipe_ t)]> (threads sv))
          (storer_ sv) (offered_ sv)).

Definition worker_event (m : moment) (e : wevent) : wstate EL (option master) -> option (wstate EL (option master)) :=
  wstep cfg (now m) (facts m) set_begin (peer_ip m) e.

(** The loop of [PutNewConnection]: what waits and what is unread. *)
Fixpoint write_notices (wait pipe : nat) : nat * nat :=
  match wait with
  | O => (O, pipe)
  | Datatypes.S k => if decide (pipe < capacity)%nat then write_notices k (Datatypes.S pipe) else (wait, pipe)
  end.

Definition PutNewConnection (sfd : Z) (t : thread) : thread :=
  let '(wait, pipe) := write_notices (Datatypes.S (conn_wait_to_notify_ t)) (conn_pipe_ t) in
  Thread (tcore t) (tclients t) (conn_queue_ t ++ [sfd]) wait pipe.

(** [Master::AssignNewConnection]; [workers_] is indexed by [last_thread_]. *)
Definition assign_connection (fd : Z) (sv : server) : option server :=
  let m := smaster sv in
  let last := AssignNewConnection cfg (last_thread_ m) in
  t ← (if last <? 0 then None else threads sv !! Z.to_nat last);
  Some (Server (MkMaster (net_ m) (connected_clients_ m) last (mstat_ m) (terminated_ m) (rates_ m))
          (<[Z.to_nat last := PutNewConnection fd t]> (threads sv)) (storer_ sv) (offered_ sv)).

(** The address is looked at before the result of accepting: [ip] is what the
    buffer holds then, also when accepting failed.  What is closed, the
    descriptor or -1, is no part of this state; the descriptors are in
    Startup. *)
Definition AcceptTcpHandler (accepted : option Z) (ip : bytes) (sv : server) : option server :=
  let '(ok, connected) := ShouldAccept cfg ip (connected_clients_ (smaster sv)) in
  let sv := Server (with_connected (smaster sv) connected) (threads sv) (storer_ sv) (offered_ sv) in
  match accepted with
  | Some fd => if ok : bool then assign_connection fd sv else Some sv
  | None => Some sv
  end.

Definition AcceptUnixHandler (accepted : option Z) (sv : server) : option server :=
  match accepted with Some fd => assign_connection fd sv | None => Some sv end.

(** [Worker::GetNewConnection]: [front] and [pop_front] of an empty queue are
    undefined. *)
Definition take_connection (i : nat) (m : moment) (sv : server) : option server :=
  t ← threads sv !! i;
  match conn_pipe_ t with
  | O => Some sv
  | Datatypes.S pipe =>
      match conn_queue_ t with
      | [] => None
      | sfd :: queue =>
          on_thread i (worker_event m (EvNew sfd))
            (Server (smaster sv) (<[i := Thread (tcore t) (tclients t) queue (conn_wait_to_notify_ t) pipe]> (threads sv))
               (storer_ sv) (offered_ sv))
      end
  end.

(** [Worker::PublishMessage]: a notice of worker [j] is read, [MQNext] gives a
    message, whose NULL fields would be dereferenced. *)
Definition worker_notice (i j : nat) (m : moment) (sv : server) : option server :=
  let s := net_ (smaster sv) in
  match pipe_ s i j with
  | O => Some sv
  | Datatypes.S _ =>
      cur ← cursors (queue_ s) !! i;
      '(_, msg) ← MQNext (smem (queue_ s)) cur;
      s ← do cfg capacity s (ATake i j);
      let sv := Server (with_net (smaster sv) s) (threads sv) (storer_ sv) (offered_ sv) in
      match msg with
      | None => Some sv
      | Some (Some topic, Some content) => on_thread i (worker_event m (EvPublish (Some (topic, content)))) sv
      | Some _ => None
      end
  end.

(** [Worker::Cron], which also notifies. *)
Definition worker_cron (i : nat) (m : moment) (sv : server) : option server :=
  sv ← on_thread i (worker_event m EvCron) sv;
  s ← NotifyNewMessage cfg capacity i (net_ (smaster sv));
  Some (Server (with_net (smaster sv) s) (threads sv) (storer_ sv) (offered_ sv)).

(** [Storer::StoreMessage] for a notice of worker [j]; a busy storer does not
    read it. *)
Definition storer_notice (j : nat) (c : clock) (sv : server) : option server :=
  let s := net_ (smaster sv) in
  '(q, t, x) ← StoreMessage (ignore_case cfg) workers c (negb (bool_decide (pipe_ s workers j = O))) (queue_ s) (storer_ sv);
  let s := match x with
           | Busy | NoNotice => s
           | WrongNotice | Offered _ _ =>
               NState q (wait_ s) (upd2 (pipe_ s) workers j (pred (pipe_ s workers j))) (put_ s) (dropped_ s)
                 (match x with WrongNotice => Datatypes.S (wrong_ s) | _ => wrong_ s end)
           end in
  Some (Server (with_net (smaster sv) s) (threads sv) t (note x (offered_ sv))).

(** [Master::Cron] after the collection: the statistics of the threads become
    those of the master. *)
Definition report (time : Z) (sv : server) : server :=
  let m := smaster sv in
  let q := smem (queue_ (net_ m)) in
  let '(stat, r) := cron_stat (map (fun t => Client.stat_ (tcore t)) (threads sv) ++ [Storer.stat_ (storer_ sv)])
                      (mstat_ m) (rates_ m) time (MQSize q) (MQMemoryUsage q) in
  Server (MkMaster (net_ m) (connected_clients_ m) (last_thread_ m) stat (terminated_ m) r) (threads sv) (storer_ sv) (offered_ sv).

(** A step of [Master::Cron]: the collection takes several, and ends in the
    section of [MQFreeOldMessages] under the lock. *)
Definition master_cron (time : Z) (sv : server) : option server :=
  s ← do cfg capacity (net_ (smaster sv)) AGc;
  let sv' := Server (with_net (smaster sv) s) (threads sv) (storer_ sv) (offered_ sv) in
  Some (match phase (queue_ (net_ (smaster sv))) with Finish _ _ => report time sv' | _ => sv' end).

Definition on_storer (f : Storer S -> option (Storer S)) (sv : server) : option server :=
  t ← f (storer_ sv); Some (Server (smaster sv) (threads sv) t (offered_ sv)).

Inductive callback : Type :=
| AcceptTcp (accepted : option Z) (ip : bytes)
| AcceptUnix (accepted : option Z)
| TakeConnection (i : nat) (m : moment)
| ReadClient (i : nat) (m : moment) (append_ok : bool) (r : read_result) (c : cid)
| WriteClient (i : nat) (m : moment) (writes : list write_result) (c : cid)
| WorkerNotice (i j : nat) (m : moment)
| WorkerCron (i : nat) (m : moment)
| StorerNotice (j : nat) (c : clock)
| StorerCron (c : clock)
| Reload (conf : StoreConfig)
| StoreCallback (f : S -> option S)
| MasterCron (time : Z).

Definition run_callback (e : callback) (sv : server) : option server :=
  match e with
  | AcceptTcp accepted ip => AcceptTcpHandler accepted ip sv
  | AcceptUnix accepted => AcceptUnixHandler accepted sv
  | TakeConnection i m => take_connection i m sv
  | ReadClient i m ok r c => on_thread i (worker_event m (EvRead ok r c)) sv
  | WriteClient i m writes c => on_thread i (worker_event m (EvWrite writes c)) sv
  | WorkerNotice i j m => worker_notice i j m sv
  | WorkerCron i m => worker_cron i m sv
  | StorerNotice j c => storer_notice j c sv
  | StorerCron c => on_storer (Storer_Cron create c) sv
  | Reload conf => on_storer (fun t => Some (RefreshConfig conf t)) sv
  | StoreCallback f =>
      on_storer (fun t => s ← f (store_ t); Some (MkStorer s (stat_ t) (conf_loaded_ t) (conf_ t))) sv
  | MasterCron time => master_cron time sv
  end.

Fixpoint run_callbacks (es : list callback) (sv : server) : option server :=
  match es with [] => Some sv | e :: es => sv ← run_callback e sv; run_callbacks es sv end.

(** [Master::Create] after the sockets and the threads were made, with a storer
    and a loop for each worker. *)
Definition new_server (t : Storer S) (loop : nat -> EL) (start : Statistic) : server :=
  Server (MkMaster (ninit workers) ∅ (-1) start false (Rates 0 0 0 0 0))
    ((fun i => Thread (Worker _ i (loop i) stat_zero [] [] ∅ []) ∅ [] O O) <$> seq 0 workers) t [].
End server.

(** ** The master's functions keep its notifications exact *)

Section master_calls.
Variable cfg : Config.
Variable capacity : nat.
Notation n := (workers cfg).
Notation do := (do cfg capacity).
Notation do_all := (do_all cfg capacity).
#[local] Hint Extern 0 (MasterOps (option master)) => exact (server_master cfg capacity) : typeclass_instances.

(** Between two callbacks no worker is inside [PutMessage]. *)
Definition net_ok (s : nstate) : Prop := notify_inv n s /\ forall i, put_ s i = POut.

(** What a consumer was given, and what was pushed, after [s]. *)
Definition same_queue (s s' : nstate) : Prop := queue_ s' = queue_ s /\ pipe_ s' = pipe_ s.

Lemma adds_ok i cs : forall s s', put_ s i = PAdding cs -> NoDup cs ->
  do_all s (replicate (length cs) (AAdd i)) = Some s' ->
  (cs <> [] -> put_ s' i = POut) /\ (forall j, j <> i -> put_ s' j = put_ s j) /\ same_queue s s'
  /\ forall c j, wait_ s' c j = (wait_ s c j + if decide (c ∈ cs /\ j = i) then 1 else 0)%nat.
Proof.
  unfold do_all. induction cs as [|c cs IH]; intros s s' Hp Hnd H.
  { cbn in H. injection H as <-. split_and!; [done|done|done|]. intros c j. rewrite decide_False by (intros [?%not_elem_of_nil _]; done). lia. }
  apply NoDup_cons in Hnd as [Hc Hnd]. cbn [length replicate nrun] in H. cbn [nstep] in H. rewrite Hp in H. cbn [mbind option_bind] in H.
  set (s1 := NState _ _ _ _ _ _) in H. destruct cs as [|c2 cs].
  - cbn in H. injection H as <-. subst s1. cbn. unfold upd1, upd2. split_and!; [by rewrite decide_True|by intros j ?; rewrite decide_False|done|].
    intros c' j. destruct (decide (c' = c /\ j = i)) as [[-> ->]|Hn];
      [rewrite decide_True by (split; [by left|done])|rewrite decide_False by (rewrite list_elem_of_singleton; tauto)]; lia.
  - assert (put_ s1 i = PAdding (c2 :: cs)) as Hp1.
    { subst s1. cbn [put_]. unfold upd1. rewrite decide_True by done. by rewrite decide_False. }
    destruct (IH s1 s' Hp1 Hnd H) as (H1 & H2 & [H3 H4] & H5). split_and!.
    + intros _. by apply H1.
    + intros j Hj. rewrite H2 by done. subst s1. cbn [put_]. unfold upd1. by rewrite decide_False.
    + split; [by rewrite H3|by rewrite H4].
    + intros c' j. rewrite H5. subst s1. cbn [wait_]. unfold upd2. 
      destruct (decide (c' = c /\ j = i)) as [[-> ->]|Hn].
      * rewrite decide_False by tauto. rewrite decide_True by (split; [by left|done]). lia.
      * destruct (decide (c' ∈ c2 :: cs /\ j = i)) as [[Hin ->]|Hni].
        -- rewrite decide_True by (split; [by right|done]). lia.
        -- rewrite decide_False by (rewrite (elem_of_cons (c2 :: cs)); tauto). lia.
Qed.

(** The writes of [NotifyNewMessage] leave the queue and the workers' places. *)
Definition notified (i : nat) (cs : list nat) (s s' : nstate) : Prop :=
  queue_ s' = queue_ s /\ put_ s' = put_ s
  /\ (forall c j, c ∉ cs \/ j <> i -> pipe_ s' c j = pipe_ s c j)
  /\ (forall c, c ∈ cs -> wait_ s c i = 1%nat -> (pipe_ s c i < capacity)%nat -> pipe_ s' c i = S (pipe_ s c i)).

Lemma write_once i c s s' : do s (AWrite i c) = Some s' ->
  queue_ s' = queue_ s /\ put_ s' = put_ s /\ (forall c' j, c' <> c \/ j <> i -> pipe_ s' c' j = pipe_ s c' j /\ wait_ s' c' j = wait_ s c' j).
Proof.
  unfold System.do. cbn [nstep]. destruct (wait_ s c i); [by intros [= <-]|]. case_decide; [|by intros [= <-]]. intros [= <-]. cbn.
  split_and!; [done|done|]. intros c' j Hne. unfold upd2. by rewrite !decide_False by tauto.
Qed.

Lemma writes_ok i c k : forall s s', do_all s (replicate k (AWrite i c)) = Some s' ->
  queue_ s' = queue_ s /\ put_ s' = put_ s /\ (forall c' j, c' <> c \/ j <> i -> pipe_ s' c' j = pipe_ s c' j /\ wait_ s' c' j = wait_ s c' j).
Proof.
  induction k as [|k IH]; intros s s'; cbn [replicate]; [by intros [= <-]|].
  unfold do_all. cbn [nrun]. intros (s1 & (Q1 & P1 & W1)%write_once & H2)%bind_Some. apply IH in H2 as (Q2 & P2 & W2).
  split_and!; [congruence|congruence|]. intros c' j Hne. destruct (W1 c' j Hne), (W2 c' j Hne). split; congruence.
Qed.

Lemma notify_consumers_ok i cs : forall s, NoDup cs -> notify_inv n s -> (i < n)%nat ->
  exists s', notify_consumers cfg capacity i cs s = Some s' /\ notify_inv n s' /\ notified i cs s s'.
Proof.
  induction cs as [|c cs IH]; intros s Hnd Hs Hi; cbn [notify_consumers].
  { exists s. unfold notified. split_and!; try done. by intros c ?%not_elem_of_nil. }
  apply NoDup_cons in Hnd as [Hc Hnd].
  assert (exists s1, do_all s (replicate (wait_ s c i) (AWrite i c)) = Some s1 /\ notify_inv n s1) as (s1 & E1 & H1).
  { generalize (wait_ s c i) as k. intros k. clear -Hs Hi. revert s Hs. induction k as [|k IH]; intros s Hs; [by exists s|].
    destruct (step_write n (queue_limit cfg) capacity s i c Hs Hi) as (s1 & E & H1). destruct (IH s1 H1) as (s2 & E2 & H2).
    exists s2. split; [|done]. unfold do_all. cbn [replicate nrun]. by rewrite E. }
  rewrite E1. cbn [mbind option_bind]. destruct (IH s1 Hnd H1 Hi) as (s2 & E2 & H2 & Q2 & P2 & W2 & D2).
  exists s2. split; [done|]. split; [done|]. pose proof (writes_ok _ _ _ _ _ E1) as (Q1 & P1 & W1).
  split_and!; [congruence|congruence| |].
  - intros c' j Hne. rewrite W2 by (rewrite not_elem_of_cons in Hne; tauto). apply W1. rewrite not_elem_of_cons in Hne. tauto.
  - intros c' [->|Hin]%elem_of_cons Hw Hp.
    + rewrite W2 by by left. rewrite Hw in E1. unfold do_all in E1. cbn [replicate nrun nstep] in E1. rewrite Hw in E1.
      rewrite decide_True in E1 by done. cbn in E1. injection E1 as <-. cbn. unfold upd2. by rewrite decide_True.
    + assert (c' <> c) as Hne by (intros ->; done). destruct (W1 c' i) as [Ep Ew]; [by left|].
      rewrite D2; [by rewrite Ep|done|by rewrite Ew|by rewrite Ep].
Qed.

Lemma NotifyNewMessage_ok i s : net_ok s -> (i < n)%nat ->
  exists s', NotifyNewMessage cfg capacity i s = Some s' /\ net_ok s' /\ notified i (seq 0 (S n)) s s'.
Proof.
  intros [Hs Hp] Hi. unfold NotifyNewMessage. destruct (notify_consumers_ok i (seq 0 (S n)) s) as (s' & E & H & HN);
    [apply NoDup_seq|done|done|]. exists s'. split_and!; try done. split; [done|]. destruct HN as (_ & -> & _). done.
Qed.

(** The messages that a call of [PutMessage] adds to the queue. *)
Definition put_effect (ok : bool) (topic content : bytes) (s s' : nstate) : Prop :=
  received (queue_ s') = received (queue_ s)
  /\ pushed (queue_ s') = pushed (queue_ s) ++ (if ok then [(topic, content)] else []).

Lemma put_message_ok m topic content i : net_ok (net_ m) -> (i < n)%nat ->
  exists ok m', put_message cfg capacity (Some m) topic content i = (ok, Some m')
    /\ ok = negb (MQSize (smem (queue_ (net_ m))) >=? queue_limit cfg)
    /\ net_ok (net_ m') /\ connected_clients_ m' = connected_clients_ m /\ last_thread_ m' = last_thread_ m
    /\ put_effect ok topic content (net_ m) (net_ m')
    /\ (ok = true -> forall c, (c <= n)%nat -> wait_ (net_ m) c i = O -> (pipe_ (net_ m) c i < capacity)%nat ->
         pipe_ (net_ m') c i = S (pipe_ (net_ m) c i)).
Proof.
  intros [Hs Hp] Hi. unfold put_message, put_effect.
  destruct (notify_step n (queue_limit cfg) capacity (net_ m) (ATest i topic content) Hs Hi) as (s1 & E1 & H1).
  unfold System.do. rewrite E1. cbn [nstep] in E1. rewrite Hp in E1.
  destruct (MQSize _ >=? _) eqn:Esz; injection E1 as <-; cbn [put_ negb] in *.
  { rewrite Hp. eexists _, _. split_and!; try done. cbn. by rewrite app_nil_r. }
  assert (upd1 (put_ (net_ m)) i (PAdmitted topic content) i = PAdmitted topic content) as Eput by (unfold upd1; by rewrite decide_True).
  rewrite Eput. set (s1 := NState _ _ _ _ _ _) in *.
  assert (put_ s1 i = PAdmitted topic content) as Hp1 by exact Eput.
  destruct (step_push n (queue_limit cfg) capacity s1 i topic content H1 Hi Hp1) as (s2 & E2 & H2). rewrite E2. cbn [mbind option_bind].
  destruct (inv_push _ _ topic content (ni_queue _ _ Hs)) as (q & Eq & _ & Epu & Ere).
  cbn [nstep] in E2. rewrite Hp1 in E2. subst s1. cbn [queue_] in E2. rewrite Eq in E2. cbn [mbind option_bind] in E2.
  injection E2 as <-. cbn [wait_ pipe_ put_ dropped_ wrong_] in *. set (s2 := NState q _ _ _ _ _) in *.
  assert (put_ s2 i = PAdding (seq 0 (S n))) as Hp2.
  { subst s2. cbn [put_]. unfold upd1 at 1. by rewrite decide_True. }
  assert (exists s3, do_all s2 (replicate (S n) (AAdd i)) = Some s3 /\ notify_inv n s3) as (s3 & E3 & H3).
  { apply nrun_inv; [done|]. apply Forall_replicate. exact Hi. }
  rewrite E3. cbn [mbind option_bind]. 
  assert (do_all s2 (replicate (length (seq 0 (S n))) (AAdd i)) = Some s3) as E3' by (by rewrite length_seq).
  destruct (adds_ok i _ _ _ Hp2 (NoDup_seq 0 (S n)) E3') as (A1 & A2 & [A3 A4] & A5).
  assert (net_ok s3) as Hok3.
  { split; [done|]. intros j. destruct (decide (j = i)) as [->|Hj]; [by apply A1|]. rewrite A2 by done. subst s2. cbn [put_].
    unfold upd1. by rewrite !decide_False. }
  destruct (NotifyNewMessage_ok i s3 Hok3 Hi) as (s4 & E4 & H4 & Q4 & P4 & W4 & D4). rewrite E4. cbn [mbind option_bind].
  eexists true, _. split_and!; try done; cbn [net_ with_net].
  - by rewrite Q4, A3.
  - rewrite Q4, A3. exact Epu.
  - intros _ c Hc Hw Hpipe. assert (c ∈ seq 0 (S n)) as Hin by (apply elem_of_seq; lia).
    rewrite D4; [by rewrite A4|done| |by rewrite A4]. rewrite A5. subst s2. cbn [wait_]. rewrite Hw, decide_True by done. done.
Qed.

(** The queue has only messages that came as requests. *)
Record master_ok (m : master) : Prop := {
  mo_net : net_ok (net_ m);
  mo_last : -1 <= last_thread_ m < worker_threads cfg;
  mo_short : Forall short_message (pushed (queue_ (net_ m)));
}.

(** What the calls of worker [i] leave of the master. *)
Lemma moves_ok i m m2 : (i < n)%nat -> rtc (master_move i) (Some m) m2 -> master_ok m ->
  exists m', m2 = Some m' /\ master_ok m' /\ received (queue_ (net_ m')) = received (queue_ (net_ m))
    /\ pushed (queue_ (net_ m)) `prefix_of` pushed (queue_ (net_ m')).
Proof.
  intros Hi Hr. remember (Some m) as m1 eqn:E. revert m E. induction Hr as [m1|m1 m2 m3 Hm _ IH]; intros m -> [Hn Hl Hsh]; [by exists m|].
  assert (exists m', m2 = Some m' /\ master_ok m' /\ received (queue_ (net_ m')) = received (queue_ (net_ m))
    /\ pushed (queue_ (net_ m)) `prefix_of` pushed (queue_ (net_ m'))) as (m' & -> & H1 & R1 & P1).
  { inversion Hm as [? topic content Hfit E1 E2|? ip E1 E2|? E1 E2]; subst.
    - change (PutMessage (Some m) topic content i) with (put_message cfg capacity (Some m) topic content i).
      destruct (put_message_ok m topic content i Hn Hi) as (ok & m' & E & _ & H1 & _ & E2 & [R1 P1] & _).
      exists m'. rewrite E, R1, P1. split_and!; [done|split; [done|by rewrite E2|]|done|by apply prefix_app_r].
      rewrite P1. apply Forall_app. split; [done|]. by destruct ok; constructor.
    - by eexists.
    - by eexists. }
  destruct (IH m' eq_refl H1) as (m3' & -> & H2 & R2 & P2). exists m3'. split_and!; [done|done|congruence|by etrans].
Qed.

(** A notice that is read brings the next message of the queue. *)
Lemma take_ok s c j k : net_ok s -> (c <= n)%nat -> (j < n)%nat -> pipe_ s c j = S k ->
  exists l cur c' msg s', received (queue_ s) !! c = Some l /\ pushed (queue_ s) !! length l = Some msg
    /\ cursors (queue_ s) !! c = Some cur /\ MQNext (smem (queue_ s)) cur = Some (c', Some (deliver msg))
    /\ step (queue_ s) (ENext c) = Some (queue_ s')
    /\ do s (ATake c j) = Some s' /\ net_ok s' /\ pushed (queue_ s') = pushed (queue_ s)
    /\ received (queue_ s') = <[c := l ++ [deliver msg]]> (received (queue_ s))
    /\ s' = NState (queue_ s') (wait_ s) (upd2 (pipe_ s) c j k) (put_ s) (dropped_ s) (wrong_ s).
Proof.
  intros [Hs Hp] Hc Hj Ek. destruct (step_take n (queue_limit cfg) capacity s c j Hs Hj Hc) as (s' & E & Hs').
  destruct (inv_received _ _ c (ni_queue _ _ Hs)) as (l & cur & Hl & Hcur & _); [lia|].
  destruct (inv_next _ _ _ _ _ (ni_queue _ _ Hs) Hcur Hl) as (c' & msg & q & En & Es & Hq & Epu & Hd).
  unfold System.do. pose proof E as E1. cbn [nstep] in E1. rewrite Ek, Hcur in E1. cbn [mbind option_bind] in E1.
  rewrite En in E1. cbn [mbind option_bind] in E1. rewrite Es in E1. cbn [mbind option_bind] in E1. injection E1 as <-.
  destruct (decide _) as [Hlt|_] in Hd; destruct Hd as [m Hr]; [|by pose proof (ni_wrong _ _ Hs'); subst msg].
  destruct Hr as [-> Hr].
  assert (received q !! c = Some (l ++ [m])) as Hl'.
  { rewrite Hr. apply list_lookup_insert_eq. by eapply lookup_lt_Some. }
  destruct (inv_prefix _ _ _ _ Hq Hl') as [Hpre _]. destruct (inv_prefix _ _ _ _ (ni_queue _ _ Hs) Hl) as [Hpre0 _].
  destruct (lookup_lt_is_Some_2 _ _ Hlt) as [e He].
  rewrite length_app, Epu, Nat.add_1_r, (take_S_r _ _ _ He), fmap_app, <- Hpre0 in Hpre. apply app_inv_head in Hpre. injection Hpre as ->.
  exists l, cur, c', e, (NState q (wait_ s) (upd2 (pipe_ s) c j k) (put_ s) (dropped_ s) (wrong_ s)).
  by split_and!.
Qed.
End master_calls.

(** ** The invariant of the server *)

Section invariant.
Context {EL S : Type} `{!FileEvents EL fproc cid} `{!FileEventsLaws EL fproc cid} `{!StoreOps S}.
Variable cfg : Config.
Variable capacity : nat.
Variable set_begin : gset bytes -> bytes.
Variable create : clock -> StoreConfig -> option S.
Variables (fresh ok : S -> Prop) (conf_ok : StoreConfig -> Prop).
Context `{!Serves (ignore_case cfg) short_message fresh ok} `{!Stated ok}.
Hypothesis set_begin_in : forall X, X <> ∅ -> set_begin X ∈ X.
Hypothesis Hcreate : forall c conf, conf_ok conf -> exists s, create c conf = Some s /\ fresh s.
#[local] Hint Extern 0 (MasterOps (option master)) => exact (server_master cfg capacity) : typeclass_instances.

Notation server := (server EL S).
Notation thread := (thread EL).
Notation n := (workers cfg).
Notation run := (run_callback cfg capacity set_begin create).
Notation wstate := (wstate EL (option master)).

(** A worker, with the master as it is. *)
Definition worker_of (sv : server) (t : thread) : wstate := WState (tcore t) (tclients t) (Some (smaster sv)).

(** The descriptors of connections that a thread holds. *)
Definition owns (t : thread) (fd : Z) : Prop :=
  fd ∈ conn_queue_ t \/ exists c cl, tclients t !! c = Some cl /\ fd_ (self cl) = fd.

Record thread_ok (i : nat) (t : thread) : Prop := {
  to_id : worker_id_ (tcore t) = i;
  to_worker m : worker_ok (WState (tcore t) (tclients t) m : wstate);
  to_queue : NoDup (conn_queue_ t);
  to_positive fd : fd ∈ conn_queue_ t -> 0 < fd;
  to_apart c cl : tclients t !! c = Some cl -> fd_ (self cl) ∉ conn_queue_ t;
  to_notices : length (conn_queue_ t) = (conn_wait_to_notify_ t + conn_pipe_ t)%nat;
}.

Record server_ok (sv : server) : Prop := {
  so_master : master_ok cfg (smaster sv);
  so_count : length (threads sv) = n;
  so_threads i t : threads sv !! i = Some t -> thread_ok i t;
  so_fds i j ti tj fd : threads sv !! i = Some ti -> threads sv !! j = Some tj ->
    owns ti fd -> owns tj fd -> i = j;
  so_storer : ok (store_ (storer_ sv)) /\ conf_ok (conf_ (storer_ sv))
    /\ received (queue_ (net_ (smaster sv))) !! n = Some (deliver <$> (offered_ sv).*1);
}.

Lemma worker_ok_any (w : worker EL) o (m m' : option master) : worker_ok (WState w o m) -> worker_ok (WState w o m').
Proof. intros [[? ? ?] [? ? ?]]. by split; split. Qed.

(** Threads may not change but for one, which takes descriptors nobody holds. *)
Lemma replace_thread sv i t t' m : server_ok sv -> threads sv !! i = Some t -> thread_ok i t' -> master_ok cfg m ->
  received (queue_ (net_ m)) !! n = received (queue_ (net_ (smaster sv))) !! n ->
  (forall fd, owns t' fd -> owns t fd \/ forall j tj, threads sv !! j = Some tj -> ~ owns tj fd) ->
  server_ok (Server m (<[i := t']> (threads sv)) (storer_ sv) (offered_ sv)).
Proof.
  intros [Hm Hc Ht Hf (H1 & H2 & H3)] Hi Ht' Hm' Hr Hown. split; cbn; [done|by rewrite length_insert| | |].
  - intros j tj. rewrite list_lookup_insert_Some. intros [(<- & <- & _)|[_ H]]; [done|by apply Ht].
  - intros j k tj tk fd. rewrite !list_lookup_insert_Some.
    intros [(<- & <- & _)|[Hj Htj]] [(<- & <- & _)|[Hk Htk]] Oj Ok; [done| | |by eapply Hf].
    + destruct (Hown _ Oj) as [O|O]; [by eapply Hf|by destruct (O _ _ Htk)].
    + destruct (Hown _ Ok) as [O|O]; [by eapply Hf|by destruct (O _ _ Htj)].
  - by rewrite Hr.
Qed.

(** A callback of a worker that stays well formed; [new] is the descriptor of a
    new client. *)
Lemma on_thread_ok sv i t f ws' new : server_ok sv -> threads sv !! i = Some t ->
  f (worker_of sv t) = Some ws' -> worker_ok ws' ->
  worker_id_ (core ws') = worker_id_ (tcore t) ->
  rtc (master_move (worker_id_ (tcore t))) (Some (smaster sv)) (wms ws') ->
  (forall c cl', objs ws' !! c = Some cl' ->
     new = Some (fd_ (self cl')) \/ exists cl, tclients t !! c = Some cl /\ fd_ (self cl') = fd_ (self cl)) ->
  (forall fd, new = Some fd -> forall j tj, threads sv !! j = Some tj -> ~ owns tj fd) ->
  exists m', wms ws' = Some m' /\ on_thread i f sv = Some (Server m'
      (<[i := Thread (core ws') (objs ws') (conn_queue_ t) (conn_wait_to_notify_ t) (conn_pipe_ t)]> (threads sv))
      (storer_ sv) (offered_ sv))
    /\ server_ok (Server m'
      (<[i := Thread (core ws') (objs ws') (conn_queue_ t) (conn_wait_to_notify_ t) (conn_pipe_ t)]> (threads sv))
      (storer_ sv) (offered_ sv))
    /\ pushed (queue_ (net_ (smaster sv))) `prefix_of` pushed (queue_ (net_ m')).
Proof.
  intros Hsv Hi Hf Hok Hid Hm Hfds Hnew. pose proof (so_threads _ Hsv _ _ Hi) as [T1 T2 T3 T4 T5 T6].
  assert (i < n)%nat as Hlt by (rewrite <- (so_count _ Hsv); by eapply lookup_lt_Some).
  rewrite T1 in *. destruct (moves_ok cfg capacity i _ _ Hlt Hm (so_master _ Hsv)) as (m' & E & Hm' & R & P).
  exists m'. split; [done|]. split.
  { unfold on_thread. rewrite Hi. cbn [mbind option_bind]. unfold worker_of in Hf. rewrite Hf. cbn [mbind option_bind]. by rewrite E. }
  split; [|done]. eapply replace_thread; [done|done| |done|by rewrite R|].
  - split; cbn; [done| |done|done| |done].
    + intros m. destruct ws' as [w o m0]. by eapply worker_ok_any.
    + intros c cl' Hc Hin. destruct (Hfds _ _ Hc) as [->|(cl & Hcl & Hfd)].
      * by eapply (Hnew _ eq_refl); [exact Hi|left].
      * rewrite Hfd in Hin. by eapply T5.
  - intros fd [Hin|(c & cl' & Hc & <-)]; [left; by left|]. cbn in Hc.
    destruct (Hfds _ _ Hc) as [E1|(cl & Hcl & Hfd)]; [right; by apply Hnew|].
    left. right. exists c, cl. split; [done|congruence].
Qed.

(** *** The callbacks *)

Lemma worker_event_ok m e (ws : wstate) : worker_ok ws -> allowed e ws -> (forall sfd, e <> EvNew sfd) ->
  exists ws', worker_event cfg capacity set_begin m e ws = Some ws' /\ worker_ok ws' /\ wframe ws ws'.
Proof.
  intros Hok Ha Hne. unfold worker_event.
  destruct (wstep_ok_of cfg (now m) (facts m) set_begin (peer_ip m) set_begin_in e ws Hok Ha) as (ws' & E & Hok').
  exists ws'. split; [exact E|]. split; [done|]. destruct e as [sfd|okr r c|writes c|msg|]; cbn [wstep] in E.
  - by destruct (Hne sfd).
  - by eapply ReadRequest_wframe.
  - apply fmap_Some in E as ([ws1 out] & E & ->). by eapply SendReply_wframe.
  - by eapply PublishMessage_wframe.
  - by eapply Cron_wframe.
Qed.

(** What a worker's own callbacks leave of the server. *)
Lemma own_event_ok sv i t m e : server_ok sv -> threads sv !! i = Some t -> allowed e (worker_of sv t) ->
  (forall sfd, e <> EvNew sfd) ->
  exists ws' sv', worker_event cfg capacity set_begin m e (worker_of sv t) = Some ws'
    /\ on_thread i (worker_event cfg capacity set_begin m e) sv = Some sv' /\ server_ok sv'
    /\ threads sv' = <[i := Thread (core ws') (objs ws') (conn_queue_ t) (conn_wait_to_notify_ t) (conn_pipe_ t)]> (threads sv)
    /\ wms ws' = Some (smaster sv')
    /\ pushed (queue_ (net_ (smaster sv))) `prefix_of` pushed (queue_ (net_ (smaster sv'))).
Proof.
  intros Hsv Hi Ha Hne. pose proof (so_threads _ Hsv _ _ Hi) as [_ T2 _ _ _ _].
  destruct (worker_event_ok m e (worker_of sv t) (T2 _) Ha Hne) as (ws' & E & Hok & [I M F]).
  destruct (on_thread_ok sv i t (worker_event cfg capacity set_begin m e) ws' None Hsv Hi E Hok I M) as (m' & Em & Eo & Hs & Hp);
    [by right; apply F|done|]. eexists ws', _. by split_and!.
Qed.

Lemma take_connection_ok sv i m : server_ok sv -> (i < n)%nat ->
  exists sv', take_connection cfg capacity set_begin i m sv = Some sv' /\ server_ok sv'
    /\ pushed (queue_ (net_ (smaster sv))) `prefix_of` pushed (queue_ (net_ (smaster sv'))).
Proof.
  intros Hsv Hi. destruct (lookup_lt_is_Some_2 (threads sv) i) as [t Ht]; [by rewrite (so_count _ Hsv)|].
  unfold take_connection. rewrite Ht. cbn [mbind option_bind]. pose proof (so_threads _ Hsv _ _ Ht) as [T1 T2 T3 T4 T5 T6].
  destruct (conn_pipe_ t) as [|pipe] eqn:Ep; [by exists sv|].
  destruct (conn_queue_ t) as [|sfd queue] eqn:Eq; [cbn in T6; lia|].
  apply NoDup_cons in T3 as [Hq T3].
  set (t1 := Thread (tcore t) (tclients t) queue (conn_wait_to_notify_ t) pipe).
  set (sv1 := Server _ _ _ _).
  assert (thread_ok i t1) as Ht1.
  { split; cbn; [done|done|done| | |].
    - intros fd Hin. apply T4. by right.
    - intros c cl Hc Hin. eapply T5; [done|]. by right.
    - cbn in T6. lia. }
  assert (server_ok sv1) as Hsv1.
  { eapply replace_thread; [done|exact Ht|done|exact (so_master _ Hsv)|done|].
    intros fd [Hin|Hc]; left; [left; rewrite Eq; by right|by right]. }
  assert (threads sv1 !! i = Some t1) as Hi1 by (apply list_lookup_insert_eq; by rewrite (so_count _ Hsv)).
  assert (forall j tj, threads sv1 !! j = Some tj -> ~ owns tj sfd) as Hfree.
  { intros j tj Hj O. assert (owns t sfd) as O1 by (left; rewrite Eq; by left).
    cbn in Hj. apply list_lookup_insert_Some in Hj as [(<- & <- & _)|[Hne Hj]].
    - destruct O as [Hin|(c & cl & Hc & E)]; [done|]. apply (T5 _ _ Hc). rewrite E. by left.
    - apply Hne. exact (so_fds _ Hsv _ _ _ _ _ Ht Hj O1 O). }
  assert (allowed (EvNew sfd) (worker_of sv1 t1)) as Ha.
  { split; [apply T4; by left|]. intros c cl Hc E. apply (Hfree _ _ Hi1). right. by exists c, cl. }
  unfold worker_event.
  destruct (wstep_ok_of cfg (now m) (facts m) set_begin (peer_ip m) set_begin_in (EvNew sfd) (worker_of sv1 t1))
    as (ws' & E & Hok'); [apply Ht1|done|].
  destruct (GetNewConnection_wframe _ _ _ _ _ _ _ E) as (I & M & F).
  destruct (on_thread_ok sv1 i t1 (worker_event cfg capacity set_begin m (EvNew sfd)) ws' (Some sfd) Hsv1 Hi1 E Hok' I M)
    as (m' & Em & Eo & Hs & Hpre).
  - intros c cl' [->|?]%F; [by left|by right].
  - by intros fd [= <-].
  - eexists. split_and!; [exact Eo|exact Hs|exact Hpre].
Qed.

(** The queue and the notifications may move under the threads as long as the
    storer's place in the queue does not. *)
Lemma with_net_ok sv s : server_ok sv -> net_ok cfg s -> pushed (queue_ s) = pushed (queue_ (net_ (smaster sv))) ->
  received (queue_ s) !! n = received (queue_ (net_ (smaster sv))) !! n ->
  server_ok (Server (with_net (smaster sv) s) (threads sv) (storer_ sv) (offered_ sv)).
Proof.
  intros [[Hn Hl Hsh] Hc Ht Hf (H1 & H2 & H3)] Hs Hp Hr. split; cbn; [split; cbn; [done|done|by rewrite Hp]|done|done|done|]. by rewrite Hr.
Qed.

(** The message a worker publishes next can be matched: its topic is not empty
    and the patterns of the worker's clients parse. *)
Definition next_publishable (i : nat) (sv : server) : Prop :=
  forall t l msg, threads sv !! i = Some t -> received (queue_ (net_ (smaster sv))) !! i = Some l ->
    pushed (queue_ (net_ (smaster sv))) !! length l = Some msg -> fst msg <> [] /\ parseable (worker_of sv t).

Lemma worker_notice_reads sv i j m t k : server_ok sv -> threads sv !! i = Some t -> (j < n)%nat ->
  next_publishable i sv -> pipe_ (net_ (smaster sv)) i j = Datatypes.S k ->
  exists l msg s ws' sv', received (queue_ (net_ (smaster sv))) !! i = Some l
    /\ pushed (queue_ (net_ (smaster sv))) !! length l = Some msg
    /\ PublishMessage cfg (now m) (Some msg) (WState (tcore t) (tclients t) (Some (with_net (smaster sv) s)) : wstate) = Some ws'
    /\ worker_notice cfg capacity set_begin i j m sv = Some sv' /\ server_ok sv'
    /\ threads sv' = <[i := Thread (core ws') (objs ws') (conn_queue_ t) (conn_wait_to_notify_ t) (conn_pipe_ t)]> (threads sv)
    /\ pushed (queue_ (net_ (smaster sv))) `prefix_of` pushed (queue_ (net_ (smaster sv'))).
Proof.
  intros Hsv Hi Hj Hpub Ek. assert (i < n)%nat as Hlt by (rewrite <- (so_count _ Hsv); by eapply lookup_lt_Some).
  destruct (take_ok cfg capacity (net_ (smaster sv)) i j k (mo_net _ _ (so_master _ Hsv))) as
    (l & cur & c' & msg & s' & Hl & Hmsg & Hcur & En & Es & E & Hn' & Hp & Hr & _); [lia|done|done|].
  set (sv1 := Server (with_net (smaster sv) s') (threads sv) (storer_ sv) (offered_ sv)).
  assert (server_ok sv1) as Hsv1 by (apply with_net_ok; [done|done|done|]; by rewrite Hr, list_lookup_insert_ne by lia).
  destruct (Hpub t l msg Hi Hl Hmsg) as [Ht Hparse]. destruct msg as [topic content].
  destruct (own_event_ok sv1 i t m (EvPublish (Some (topic, content)))) as (ws' & sv' & E1 & Eo & Hs & Et & _ & Hpre); [done|done|by split|done|].
  exists l, (topic, content), s', ws', sv'. split_and!; [done|done|exact E1| |done|done|by rewrite <- Hp].
  unfold worker_notice. rewrite Ek, Hcur. cbn [mbind option_bind]. rewrite En. cbn [mbind option_bind]. rewrite E. exact Eo.
Qed.

Lemma worker_notice_ok sv i j m : server_ok sv -> (i < n)%nat -> (j < n)%nat -> next_publishable i sv ->
  exists sv', worker_notice cfg capacity set_begin i j m sv = Some sv' /\ server_ok sv'
    /\ pushed (queue_ (net_ (smaster sv))) `prefix_of` pushed (queue_ (net_ (smaster sv'))).
Proof.
  intros Hsv Hi Hj Hpub. destruct (lookup_lt_is_Some_2 (threads sv) i) as [t Ht]; [by rewrite (so_count _ Hsv)|].
  destruct (pipe_ (net_ (smaster sv)) i j) as [|k] eqn:Ek.
  - exists sv. unfold worker_notice. by rewrite Ek.
  - destruct (worker_notice_reads sv i j m t k) as (? & ? & ? & ? & sv' & _ & _ & _ & ? & ? & _ & ?); [done..|]. by exists sv'.
Qed.

Lemma worker_cron_ok sv i m : server_ok sv -> (i < n)%nat ->
  exists sv', worker_cron cfg capacity set_begin i m sv = Some sv' /\ server_ok sv'
    /\ pushed (queue_ (net_ (smaster sv))) `prefix_of` pushed (queue_ (net_ (smaster sv'))).
Proof.
  intros Hsv Hi. destruct (lookup_lt_is_Some_2 (threads sv) i) as [t Ht]; [by rewrite (so_count _ Hsv)|].
  destruct (own_event_ok sv i t m EvCron Hsv Ht I) as (ws' & sv1 & _ & E & Hsv1 & _ & _ & Hpre); [done|].
  unfold worker_cron. rewrite E. cbn [mbind option_bind].
  destruct (NotifyNewMessage_ok cfg capacity i (net_ (smaster sv1)) (mo_net _ _ (so_master _ Hsv1)) Hi) as (s & Es & Hs & Hq & _).
  rewrite Es. cbn [mbind option_bind]. eexists. split; [done|]. split; [by apply with_net_ok; rewrite ?Hq|]. cbn. by rewrite Hq.
Qed.

(** A storer with any count of refused messages. *)
Lemma storer_inv_of sv : server_ok sv -> exists drop0,
  storer_inv n (Datatypes.S n) short_message fresh ok conf_ok drop0 (SRun (queue_ (net_ (smaster sv))) (storer_ sv) (offered_ sv)).
Proof.
  intros [[[Hn _] _ Hsh] _ _ _ (H1 & H2 & H3)]. exists (msg_drop (stat_ (storer_ sv)) - refused (offered_ sv)).
  split_and!; cbn; [apply Hn|done|done|done|done|]. by rewrite Z.sub_add.
Qed.

Lemma storer_notice_ok sv j c : server_ok sv -> (j < n)%nat ->
  exists sv', storer_notice cfg j c sv = Some sv' /\ server_ok sv'
    /\ pushed (queue_ (net_ (smaster sv'))) = pushed (queue_ (net_ (smaster sv))).
Proof.
  intros Hsv Hj. destruct (storer_inv_of sv Hsv) as [drop0 Hinv]. unfold storer_notice.
  set (byte := negb _). assert (n < Datatypes.S n)%nat as Hn by lia.
  destruct (notice_ok (ignore_case cfg) n (Datatypes.S n) short_message fresh ok conf_ok Hn c byte drop0 _ Hinv) as (q & t & x & E & (Hq & Hfit & Hs & Hc & Hrec & _) & Hp & _).
  cbn [squeue sstorer offered] in *. rewrite E. cbn [mbind option_bind].
  assert (forall s, net_ok cfg s -> queue_ s = q -> server_ok (Server (with_net (smaster sv) s) (threads sv) t (note x (offered_ sv)))) as Hput.
  { intros s Hnet <-. destruct Hsv as [[_ Hl _] Hcount Ht Hf _]. split; cbn; [by split|done|done|done|by split_and!]. }
  pose proof (mo_net _ _ (so_master _ Hsv)) as Hnet. unfold StoreMessage in E. destruct (State _) as [x0|]; [|done]. cbn [mbind option_bind] in E.
  destruct (decide (x0 = Free)) as [_|_].
  2: { injection E as <- <- <-. eexists. split_and!; [done|by apply Hput|done]. }
  destruct (pipe_ (net_ (smaster sv)) n j) as [|k] eqn:Ek.
  { subst byte. rewrite bool_decide_true in E by done. injection E as <- <- <-. eexists. split_and!; [done|by apply Hput|done]. }
  subst byte. rewrite bool_decide_false in E by done. cbn [negb] in E.
  destruct (take_ok cfg capacity _ n j k Hnet ltac:(lia) Hj Ek) as (l & cur & c' & msg & s' & _ & _ & Hcur & En & Es & _ & Hn' & _ & _ & Es').
  rewrite Hcur in E. cbn [mbind option_bind] in E. rewrite En in E. cbn [mbind option_bind] in E. rewrite Es in E. cbn [mbind option_bind deliver] in E.
  apply bind_Some in E as ([[b s1] st1] & _ & [= <- <- <-]).
  eexists. split; [done|]. cbn [pred]. rewrite <- Es'. split; [by apply Hput|exact Hp].
Qed.

Lemma on_storer_ok sv f t' : server_ok sv -> f (storer_ sv) = Some t' -> ok (store_ t') -> conf_ok (conf_ t') ->
  on_storer f sv = Some (Server (smaster sv) (threads sv) t' (offered_ sv))
  /\ server_ok (Server (smaster sv) (threads sv) t' (offered_ sv)).
Proof.
  intros [Hm Hc Ht Hf (H1 & H2 & H3)] E Ho Hconf. unfold on_storer. rewrite E. split; [done|]. split; cbn; try done.
Qed.

(** The loop of writes moves notices from those that wait to the socket. *)
Lemma write_notices_sum wait : forall pipe, let '(w, p) := write_notices capacity wait pipe in (w + p = wait + pipe)%nat.
Proof.
  induction wait as [|k IH]; intros pipe; cbn [write_notices]; [done|]. case_decide; [|done].
  specialize (IH (Datatypes.S pipe)). destruct (write_notices _ _ _). lia.
Qed.

Lemma assign_connection_ok sv fd : 0 < worker_threads cfg -> server_ok sv -> 0 < fd ->
  (forall j tj, threads sv !! j = Some tj -> ~ owns tj fd) ->
  exists sv', assign_connection cfg capacity fd sv = Some sv' /\ server_ok sv'
    /\ pushed (queue_ (net_ (smaster sv'))) = pushed (queue_ (net_ (smaster sv))).
Proof.
  intros Hw Hsv Hfd Hfree. pose proof (so_master _ Hsv) as [Hn Hl Hsh]. unfold assign_connection, AssignNewConnection.
  rewrite Z.rem_mod_nonneg by lia. set (last := (_ + 1) mod _).
  assert (0 <= last < worker_threads cfg) as Hlast by (apply Z.mod_pos_bound; lia). clearbody last.
  rewrite (proj2 (Z.ltb_ge _ _)) by lia.
  assert (Z.to_nat last < n)%nat as Hlt by (unfold workers; lia).
  destruct (lookup_lt_is_Some_2 (threads sv) (Z.to_nat last)) as [t Ht]; [by rewrite (so_count _ Hsv)|].
  rewrite Ht. cbn [mbind option_bind]. eexists. split; [done|]. split; [|done].
  pose proof (so_threads _ Hsv _ _ Ht) as [T1 T2 T3 T4 T5 T6]. unfold PutNewConnection.
  pose proof (write_notices_sum (Datatypes.S (conn_wait_to_notify_ t)) (conn_pipe_ t)) as Hsum.
  destruct (write_notices _ _ _) as [wait pipe].
  assert (fd ∉ conn_queue_ t) as Hfresh by (intros Hin; eapply Hfree; [exact Ht|by left]).
  eapply replace_thread; [done|done| |by split; [|cbn; lia|]|done|].
  - split; cbn; [done|done| | | |rewrite length_app; cbn; lia].
    + apply NoDup_app. split_and!; [done|by intros x Hx ->%list_elem_of_singleton|apply NoDup_singleton].
    + intros x [Hx| ->%list_elem_of_singleton]%elem_of_app; [by apply T4|done].
    + intros c cl Hc [Hx|Hx%list_elem_of_singleton]%elem_of_app; [by eapply T5|]. eapply Hfree; [exact Ht|right]. by exists c, cl.
  - intros x [[Hx| ->%list_elem_of_singleton]%elem_of_app|Hx]; [left; by left|by right|left; by right].
Qed.

Lemma master_report_ok time sv : server_ok sv -> server_ok (report time sv) /\ net_ (smaster (report time sv)) = net_ (smaster sv).
Proof.
  intros [[Hn Hl Hsh] ? ? ? ?]. unfold report. destruct (cron_stat _ _ _ _ _ _) as [stat r]. split; [by split|done].
Qed.

Lemma master_cron_ok time sv : server_ok sv -> exists sv', master_cron cfg capacity time sv = Some sv' /\ server_ok sv'
  /\ pushed (queue_ (net_ (smaster sv))) `prefix_of` pushed (queue_ (net_ (smaster sv'))).
Proof.
  intros Hsv. destruct (so_master _ Hsv) as [[Hn Hp] Hl Hsh]. unfold master_cron.
  destruct (notify_step n (queue_limit cfg) capacity _ AGc Hn I) as (s & E & Hs). unfold System.do. rewrite E. cbn [mbind option_bind].
  cbn [nstep] in E. destruct (inv_gc (Datatypes.S n) _ (Nat.lt_0_succ n) (ni_queue _ _ Hn)) as (q & Eq & _ & Epu & Ere).
  rewrite Eq in E. injection E as <-. set (sv' := Server _ _ _ _).
  assert (server_ok sv') as Hsv' by (apply with_net_ok; [done|by split|exact Epu|cbn; by rewrite Ere]).
  eexists. split; [done|]. destruct (master_report_ok time sv' Hsv') as [Hr En].
  destruct (phase _); (split; [done|]); rewrite ?En; cbn; by rewrite Epu.
Qed.

(** When the loops can call a callback: an accepted descriptor is new, events
    are those of existing clients, and the stores' own callbacks and the new
    configurations are good. *)
Definition callback_ok (e : callback) (sv : server) : Prop :=
  match e with
  | AcceptTcp (Some fd) _ | AcceptUnix (Some fd) => 0 < fd /\ forall j tj, threads sv !! j = Some tj -> ~ owns tj fd
  | AcceptTcp None _ | AcceptUnix None => True
  | TakeConnection i _ | WorkerCron i _ => (i < n)%nat
  | ReadClient i _ _ _ c | WriteClient i _ _ c => exists t, threads sv !! i = Some t /\ is_Some (tclients t !! c)
  | WorkerNotice i j _ => (i < n)%nat /\ (j < n)%nat /\ next_publishable i sv
  | StorerNotice j _ => (j < n)%nat
  | StorerCron _ | MasterCron _ => True
  | Reload conf => conf_ok conf
  | StoreCallback f => exists s, f (store_ (storer_ sv)) = Some s /\ ok s
  end.

Lemma run_callback_ok e sv : 0 < worker_threads cfg -> server_ok sv -> callback_ok e sv ->
  exists sv', run e sv = Some sv' /\ server_ok sv'
    /\ pushed (queue_ (net_ (smaster sv))) `prefix_of` pushed (queue_ (net_ (smaster sv'))).
Proof.
  intros Hw Hsv Ha.
  assert (forall sv' : server, server_ok sv' -> exists sv'', Some sv' = Some sv'' /\ server_ok sv''
    /\ pushed (queue_ (net_ (smaster sv'))) `prefix_of` pushed (queue_ (net_ (smaster sv'')))) as Hstay by (intros sv' ?; by exists sv').
  destruct e as [[fd|] ip|[fd|]|i m|i m okr r c|i m writes c|i j m|i m|j c|c|conf|f|time]; cbn [run_callback callback_ok] in *.
  - unfold AcceptTcpHandler. destruct (ShouldAccept _ _ _) as [b connected].
    set (sv1 := Server _ _ _ _). assert (server_ok sv1) as Hsv1 by (destruct Hsv as [[? ? ?] ? ? ? ?]; by split).
    destruct b; [|by apply (Hstay sv1)]. destruct Ha as [Hfd Hfree].
    destruct (assign_connection_ok sv1 fd Hw Hsv1 Hfd Hfree) as (sv' & E & H & P). exists sv'. by rewrite P.
  - unfold AcceptTcpHandler. destruct (ShouldAccept _ _ _) as [b connected].
    set (sv1 := Server _ _ _ _). assert (server_ok sv1) as Hsv1 by (destruct Hsv as [[? ? ?] ? ? ? ?]; by split). by apply (Hstay sv1).
  - destruct Ha as [Hfd Hfree]. destruct (assign_connection_ok sv fd Hw Hsv Hfd Hfree) as (sv' & E & H & P). exists sv'. by rewrite P.
  - by apply Hstay.
  - by apply take_connection_ok.
  - destruct Ha as (t & Ht & Hc). destruct (own_event_ok sv i t m (EvRead okr r c)) as (? & sv' & _ & ? & ? & _ & _ & ?); [done..|by exists sv'].
  - destruct Ha as (t & Ht & Hc). destruct (own_event_ok sv i t m (EvWrite writes c)) as (? & sv' & _ & ? & ? & _ & _ & ?); [done..|by exists sv'].
  - destruct Ha as (Hi & Hj & Hp). by apply worker_notice_ok.
  - by apply worker_cron_ok.
  - destruct (storer_notice_ok sv j c Hsv Ha) as (sv' & E & H & P). exists sv'. by rewrite P.
  - destruct (so_storer _ Hsv) as (H1 & H2 & _).
    destruct (storer_cron_ok (ignore_case cfg) create short_message fresh ok conf_ok Hcreate c (storer_ sv) H1 H2) as (t' & E & H3 & H4 & _).
    destruct (on_storer_ok sv _ t' Hsv E H3) as [Eo Ho]; [by rewrite H4|]. eexists. by split_and!.
  - destruct (so_storer _ Hsv) as (H1 & H2 & _).
    destruct (on_storer_ok sv (fun t => Some (RefreshConfig conf t)) _ Hsv eq_refl H1 Ha) as [Eo Ho]. eexists. by split_and!.
  - destruct (so_storer _ Hsv) as (H1 & H2 & _).
    destruct Ha as (s & E & Hs). set (t' := MkStorer s (stat_ (storer_ sv)) (conf_loaded_ (storer_ sv)) (conf_ (storer_ sv))).
    destruct (on_storer_ok sv (fun t => s ← f (store_ t); Some (MkStorer s (stat_ t) (conf_loaded_ t) (conf_ t))) t' Hsv) as [Eo Ho];
      [by rewrite E|done|done|]. eexists. by split_and!.
  - by apply master_cron_ok.
Qed.

(** The callbacks of a run are called when they can be. *)
Fixpoint callbacks_ok (es : list callback) (sv : server) : Prop :=
  match es with
  | [] => True
  | e :: es => callback_ok e sv /\ match run e sv with Some sv => callbacks_ok es sv | None => True end
  end.

Lemma callbacks_ok_app es1 es2 : forall sv, callbacks_ok es1 sv ->
  (forall sv', run_callbacks cfg capacity set_begin create es1 sv = Some sv' -> callbacks_ok es2 sv') -> callbacks_ok (es1 ++ es2) sv.
Proof.
  induction es1 as [|e es1 IH]; intros sv H1 H2; [by apply H2|]. destruct H1 as [He H1]. split; [exact He|].
  cbn [run_callbacks] in H2. destruct (run e sv) as [sv1|]; [|done]. by apply IH.
Qed.

Lemma run_callbacks_ok es : forall sv, 0 < worker_threads cfg -> server_ok sv -> callbacks_ok es sv ->
  exists sv', run_callbacks cfg capacity set_begin create es sv = Some sv' /\ server_ok sv'
    /\ pushed (queue_ (net_ (smaster sv))) `prefix_of` pushed (queue_ (net_ (smaster sv'))).
Proof.
  induction es as [|e es IH]; intros sv Hw Hsv Ha; [by exists sv|]. destruct Ha as [Ha Has].
  destruct (run_callback_ok e sv Hw Hsv Ha) as (sv1 & E & H1 & P1). rewrite E in Has.
  destruct (IH sv1 Hw H1 Has) as (sv2 & E2 & H2 & P2). exists sv2. cbn [run_callbacks]. rewrite E. split_and!; [done|done|by etrans].
Qed.

Lemma new_server_ok (t : Storer S) loop start : 0 < worker_threads cfg -> ok (store_ t) -> conf_ok (conf_ t) ->
  server_ok (new_server cfg t loop start).
Proof using FileEventsLaws0.
  clear Hcreate Stated0 Serves0 create set_begin_in set_begin StoreOps0.
  intros Hw Hok Hconf. split; cbn -[seq ninit].
  - split; [split; [apply ninit_inv|done]|cbn; lia|constructor].
  - by rewrite length_fmap, length_seq.
  - intros i th. rewrite list_lookup_fmap, fmap_Some. intros (k & Hk & ->). apply lookup_seq in Hk as [-> _].
    split; cbn; try done; [|apply NoDup_nil_2|by intros ? ?%not_elem_of_nil].
    intros m. split; split; cbn; try done.
    + split; cbn; [by intros ??; rewrite lookup_empty|by intros ??; rewrite lookup_empty| |constructor|].
      * intros x c. unfold topics_of. cbn. rewrite !lookup_empty. cbn. set_solver.
      * intros p c. unfold patterns_of. cbn. rewrite !lookup_empty. cbn. set_solver.
    + constructor.
    + intros c. rewrite lookup_empty. split; [set_solver|by intros [? ?]].
  - intros i j ti tj fd. rewrite !list_lookup_fmap, !fmap_Some. intros (k & _ & ->) _ [[]%not_elem_of_nil|(c & cl & Hc & _)].
    cbn in Hc. by rewrite lookup_empty in Hc.
  - split_and!; [done|done|]. by apply lookup_replicate_2; lia.
Qed.
End invariant.
