(* ===== verification/Delivery.v ===== *)
(** * From LOG to the subscribers

    Runs of the whole server of System.v: whatever its threads do, in any
    order, it stays well formed, and a message that one client logs reaches the
    subscribers of every worker. *)

From S2P Require Import Prelude Common Util Glob EventLoop Protocol Client PubSub Worker Demo MsgQueue Master.
From S2P Require Import Conf Stores NetworkStore Storer System.

Section delivery.
Context {EL S : Type} `{!FileEvents EL fproc cid} `{!FileEventsLaws EL fproc cid} `{!StoreOps S}.
Variable cfg : Config.
Variable capacity : nat.
Variable set_begin : gset bytes -> bytes.
Variable create : clock -> StoreConfig -> option S.
Variables (fresh ok : S -> Prop) (conf_ok : StoreConfig -> Prop).
Context `{!Serves (ignore_case cfg) short_message fresh ok} `{!Stated ok}.
Hypothesis set_begin_in : forall X, X <> ∅ -> set_begin X ∈ X.
Hypothesis Hcreate : forall c conf, conf_ok conf -> exists s, create c conf = Some s /\ fresh s.
(** The loop has room for every descriptor. *)
Hypothesis Hregistered : forall (el : EL) fd m p (d : cid), 0 < fd -> fe_create el fd m p d <> None.
#[local] Hint Extern 0 (MasterOps (option master)) => exact (server_master cfg capacity) : typeclass_instances.

Notation server := (server EL S).
Notation callback := (callback (S := S)).
Notation n := (workers cfg).
Notation run := (run_callback cfg capacity set_begin create).
Notation server_ok := (server_ok (EL := EL) cfg ok conf_ok).
Notation queue_of sv := (queue_ (net_ (smaster sv))).

(** ** Nothing is pending for a consumer that was given every message *)

Lemma sum_workers_zero f i : sum_workers n f = O -> (i < n)%nat -> f i = O.
Proof.
  unfold sum_workers. intros H Hi. assert (i ∈ seq 0 n) as Hin by (apply elem_of_seq; lia). revert H Hin.
  induction (seq 0 n) as [|x l IH]; [by intros _ ?%not_elem_of_nil|]. cbn. intros H [->|Hin]%elem_of_cons; [lia|]. apply IH; [lia|done].
Qed.

Lemma caught_up s c i l : net_ok cfg s -> (c <= n)%nat -> (i < n)%nat -> received (queue_ s) !! c = Some l ->
  length l = length (pushed (queue_ s)) -> wait_ s c i = O /\ pipe_ s c i = O.
Proof.
  intros [Hs _] Hc Hi Hl Hlen. pose proof (ni_count _ _ Hs c Hc) as Hcount. unfold unread in Hcount. rewrite Hl in Hcount.
  cbn in Hcount. injection Hcount as Hcount. assert (announced n s c = O) as Hz by lia.
  apply (sum_workers_zero _ i) in Hz; [|done]. unfold debt in Hz. lia.
Qed.

(** ** A client logs a message *)

Lemma read_log sv i t a cl m topic content : server_ok sv -> threads sv !! i = Some t -> tclients t !! a = Some cl ->
  req_ cl = [] -> parsing cl = pstate0 -> close_after_reply (self cl) = false -> forwardable (topic, content) ->
  zlen (encode [bs "LOG"; topic; content]) <= KIDS_MAX_QUERYBUF_LEN ->
  exists ws', worker_event cfg capacity set_begin m (EvRead true (RData (encode [bs "LOG"; topic; content])) a) (worker_of sv t) = Some ws'
    /\ wms ws' = snd (put_message cfg capacity (Some (smaster sv)) topic content i)
    /\ pubsub_patterns_ (core ws') = pubsub_patterns_ (tcore t).
Proof.
  intros Hsv Ht Ha Hreq Hps Hclose Hfw Hlen. pose proof (so_threads _ _ _ _ Hsv _ _ Ht) as [Hid _ _ _ _ _].
  unfold worker_event, wstep, ReadRequest, worker_of. cbn [negb objs]. rewrite Ha. cbn [mbind option_bind].
  rewrite Hreq, Hps, app_nil_l. rewrite Z.gtb_ltb, (proj2 (Z.ltb_ge _ _)) by done.
  set (s0 := St _ _ _). pose proof Hfw as [H1 H2]. cbn [fst snd] in H1, H2.
  destruct (forwarded_requests cfg (now m) (facts m) set_begin [(topic, content)] s0) as (s' & E & Hms & _ & Hss).
  { exact Hclose. }
  { by constructor. }
  { cbn [map concat]. rewrite app_nil_r, log_request_encode by (cbn; lia). unfold KIDS_MAX_QUERYBUF_LEN in Hlen. cbn [fst snd]. lia. }
  cbn [map concat] in E. rewrite app_nil_r, log_request_encode in E by (cbn; lia). cbn [fst snd] in E. rewrite E. cbn [mbind option_bind].
  eexists. split; [done|]. cbn [wms core]. split; [|by destruct Hss as (_ & _ & -> & _)].
  rewrite Hms, <- Hid. done.
Qed.

(** What a client has got of a message, in frames. *)
Definition got (topic content : bytes) (cl cl' : client) : Prop :=
  exists ps, NoDup ps
    /\ (forall p, p ∈ ps <-> p ∈ sub_patterns_ (self cl)
          /\ exists toks, parse_glob p = Some toks /\ gmatch (ignore_case cfg) toks topic)
    /\ rep_ (self cl') = rep_ (self cl)
         ++ (if decide (topic ∈ sub_topics_ (self cl)) then encode [bs "message"; topic; content] else [])
         ++ concat ((fun p => encode [bs "pmessage"; p; topic; content]) <$> ps).

(** The queue takes the message, and each worker that had every message before
    has one notice of it, from the worker of the client. *)
Lemma logged_is_noticed sv i t a cl m topic content : 0 < worker_threads cfg -> (0 < capacity)%nat ->
  server_ok sv -> threads sv !! i = Some t -> tclients t !! a = Some cl ->
  req_ cl = [] -> parsing cl = pstate0 -> close_after_reply (self cl) = false -> forwardable (topic, content) ->
  zlen (encode [bs "LOG"; topic; content]) <= KIDS_MAX_QUERYBUF_LEN ->
  MQSize (smem (queue_of sv)) < queue_limit cfg ->
  exists sv1, run (ReadClient i m true (RData (encode [bs "LOG"; topic; content])) a) sv = Some sv1 /\ server_ok sv1
    /\ pushed (queue_of sv1) = pushed (queue_of sv) ++ [(topic, content)]
    /\ received (queue_of sv1) = received (queue_of sv)
    /\ (forall w, w <> i -> threads sv1 !! w = threads sv !! w)
    /\ (exists t1, threads sv1 !! i = Some t1 /\ pubsub_patterns_ (tcore t1) = pubsub_patterns_ (tcore t))
    /\ forall w l, (w <= n)%nat -> received (queue_of sv) !! w = Some l -> length l = length (pushed (queue_of sv)) ->
         pipe_ (net_ (smaster sv1)) w i = 1%nat.
Proof.
  intros Hw Hcap Hsv Ht Ha Hreq Hps Hclose Hfw Hlen Hsize.
  assert (i < n)%nat as Hi by (rewrite <- (so_count _ _ _ _ Hsv); by eapply lookup_lt_Some).
  destruct (read_log sv i t a cl m topic content Hsv Ht Ha Hreq Hps Hclose Hfw Hlen) as (ws & E & Hms & Hpat).
  destruct (own_event_ok cfg capacity set_begin ok conf_ok set_begin_in sv i t m _ Hsv Ht
    (ltac:(by eexists) : allowed (EvRead true (RData (encode [bs "LOG"; topic; content])) a) (worker_of sv t)))
    as (ws' & sv1 & E' & Er & Hs & Eth & Ems & _); [done|].
  rewrite E in E'. injection E' as <-.
  destruct (put_message_ok cfg capacity (smaster sv) topic content i (mo_net _ _ (so_master _ _ _ _ Hsv)) Hi)
    as (b & m' & Eput & Hb & _ & _ & _ & [R P] & Hpipe).
  rewrite Eput in Hms. cbn [snd] in Hms. rewrite Hms in Ems. injection Ems as ->.
  rewrite Z.geb_leb, (proj2 (Z.leb_gt _ _)) in Hb by done. cbn in Hb. subst b.
  exists sv1. split_and!; [exact Er|done|done|done| | |].
  - intros w Hne. rewrite Eth. by rewrite list_lookup_insert_ne.
  - eexists. rewrite Eth, list_lookup_insert_eq by (by eapply lookup_lt_Some). split; [done|]. exact Hpat.
  - intros w l Hwn Hl Hall. destruct (caught_up _ w i l (mo_net _ _ (so_master _ _ _ _ Hsv)) Hwn Hi Hl Hall) as [W0 P0].
    rewrite Hpipe, P0 by (done || lia). done.
Qed.

Lemma notice_delivers sv i w t m topic content l : server_ok sv -> threads sv !! w = Some t -> (i < n)%nat ->
  pipe_ (net_ (smaster sv)) w i = 1%nat -> received (queue_of sv) !! w = Some l ->
  pushed (queue_of sv) !! length l = Some (topic, content) -> topic <> [] -> parseable (worker_of sv t) ->
  exists sv2 t2, run (WorkerNotice w i m) sv = Some sv2 /\ server_ok sv2 /\ threads sv2 !! w = Some t2
    /\ forall c cl, tclients t !! c = Some cl -> accepting (self cl) ->
         exists cl', tclients t2 !! c = Some cl' /\ got topic content cl cl'.
Proof.
  intros Hsv Ht Hi Hpipe Hl Hmsg Htopic Hparse.
  destruct (worker_notice_reads cfg capacity set_begin ok conf_ok set_begin_in sv w i m t 0 Hsv Ht Hi) as
    (l' & msg & s & ws' & sv2 & Hl' & Hmsg' & Hpub & E & Hsv2 & Eth & _).
  { intros t' l' msg Ht' Hl' Hmsg'. rewrite Ht in Ht'. rewrite Hl in Hl'. injection Ht' as <-. injection Hl' as <-.
    rewrite Hmsg in Hmsg'. injection Hmsg' as <-. done. }
  { done. }
  rewrite Hl in Hl'. injection Hl' as <-. rewrite Hmsg in Hmsg'. injection Hmsg' as <-.
  eexists sv2, _. split_and!; [exact E|done|rewrite Eth; apply list_lookup_insert_eq; by eapply lookup_lt_Some|].
  intros c cl Hc Hacc.
  destruct (PublishMessage_delivers cfg (now m) Hregistered topic content (WState (tcore t) (tclients t) (Some (with_net (smaster sv) s))))
    as (ws2 & E2 & _ & Hd).
  { by apply (so_threads _ _ _ _ Hsv _ _ Ht). }
  { done. }
  { exact Hparse. }
  rewrite Hpub in E2. injection E2 as <-. destruct (Hd c cl Hc Hacc) as (cl' & ps & H1 & H2 & H3 & H4).
  exists cl'. split; [done|]. by exists ps.
Qed.

(** C1. In a server with at least one worker, and a store that keeps the promises of the class
    Serves and always knows its state, whose parts are in their invariants, let a client of any
    worker, idle (its parser has read nothing of a request) and not about to be closed, send a LOG
    request with a topic that is not empty, a topic and a content of at most 512 MB and in all no
    more than the query buffer takes, while the queue is below its limit. Then the master queues the
    message and a notice goes at once to every worker that has received every message before; and
    when such a worker, whose patterns all parse, reads it, each of its clients whose connection
    accepts output gets exactly the frames its subscriptions ask for: one for the topic and one for
    each pattern that matches. The pair of sockets of a notice has room for one, and the loops
    accept every descriptor. *)
Theorem logged_message_reaches_subscribers sv i t a cl m1 m2 topic content w tw lw :
  0 < worker_threads cfg -> (0 < capacity)%nat -> server_ok sv ->
  threads sv !! i = Some t -> tclients t !! a = Some cl ->
  req_ cl = [] -> parsing cl = pstate0 -> close_after_reply (self cl) = false ->
  topic <> [] -> forwardable (topic, content) -> zlen (encode [bs "LOG"; topic; content]) <= KIDS_MAX_QUERYBUF_LEN ->
  MQSize (smem (queue_of sv)) < queue_limit cfg ->
  threads sv !! w = Some tw -> parseable (worker_of sv tw) ->
  received (queue_of sv) !! w = Some lw -> length lw = length (pushed (queue_of sv)) ->
  exists sv1 tw1 sv2 tw2,
    run (ReadClient i m1 true (RData (encode [bs "LOG"; topic; content])) a) sv = Some sv1
    /\ pushed (queue_of sv1) = pushed (queue_of sv) ++ [(topic, content)]
    /\ threads sv1 !! w = Some tw1 /\ (w <> i -> tw1 = tw)
    /\ run (WorkerNotice w i m2) sv1 = Some sv2 /\ server_ok sv2 /\ threads sv2 !! w = Some tw2
    /\ forall c cl, tclients tw1 !! c = Some cl -> accepting (self cl) ->
         exists cl', tclients tw2 !! c = Some cl' /\ got topic content cl cl'.
Proof.
  intros Hw Hcap Hsv Ht Ha Hreq Hps Hclose Htopic Hfw Hlen Hsize Htw Hparse Hlw Hall.
  destruct (logged_is_noticed sv i t a cl m1 topic content) as (sv1 & E1 & Hsv1 & P1 & R1 & Hother & (t1 & Ht1 & Hpat) & Hpipe); [done..|].
  assert (i < n)%nat as Hi by (rewrite <- (so_count _ _ _ _ Hsv); by eapply lookup_lt_Some).
  assert (w < n)%nat as Hwn by (rewrite <- (so_count _ _ _ _ Hsv); by eapply lookup_lt_Some).
  assert (exists tw1, threads sv1 !! w = Some tw1 /\ (w <> i -> tw1 = tw) /\ pubsub_patterns_ (tcore tw1) = pubsub_patterns_ (tcore tw))
    as (tw1 & Htw1 & Hsame & Hpat1).
  { destruct (decide (w = i)) as [->|Hne].
    - rewrite Ht in Htw. injection Htw as <-. by exists t1.
    - exists tw. by rewrite Hother. }
  destruct (notice_delivers sv1 i w tw1 m2 topic content lw) as (sv2 & tw2 & E2 & Hsv2 & Htw2 & Hd); try done.
  { eapply Hpipe; [lia|done|done]. }
  { by rewrite R1. }
  { rewrite P1, Hall. by apply list_lookup_middle. }
  { intros p c. cbn. rewrite Hpat1. apply Hparse. }
  by exists sv1, tw1, sv2, tw2.
Qed.

(** What consumer [c] has received is the first messages, in order; the rest is
    announced to it. *)
Definition reads_in_order (sv : server) (c : nat) : Prop :=
  exists l, received (queue_of sv) !! c = Some (deliver <$> l)
    /\ l = take (length l) (pushed (queue_of sv))
    /\ length (pushed (queue_of sv)) = (length l + announced n (net_ (smaster sv)) c)%nat.

(** Whatever callbacks the threads of a new server run, in any order, all are defined; every
    worker stays well formed; no descriptor belongs to two threads; every worker and the storer have
    received the first messages of the queue, in order and without a wrong notice, and what is
    missing is announced to them; and the storer offered the messages to its store in order. *)
Theorem server_safe (t : Storer S) loop start es :
  0 < worker_threads cfg -> ok (store_ t) -> conf_ok (conf_ t) ->
  callbacks_ok cfg capacity set_begin create ok conf_ok es (new_server cfg t loop start) ->
  exists sv, run_callbacks cfg capacity set_begin create es (new_server cfg t loop start) = Some sv
    /\ (forall i t, threads sv !! i = Some t -> worker_ok (worker_of sv t))
    /\ (forall i j ti tj fd, threads sv !! i = Some ti -> threads sv !! j = Some tj -> owns ti fd -> owns tj fd -> i = j)
    /\ wrong_ (net_ (smaster sv)) = O
    /\ (forall c, (c <= n)%nat -> reads_in_order sv c)
    /\ (offered_ sv).*1 = take (length (offered_ sv)) (pushed (queue_of sv)).
Proof.
  intros Hw Hok Hconf Hes.
  destruct (run_callbacks_ok cfg capacity set_begin create fresh ok conf_ok set_begin_in Hcreate es (new_server cfg t loop start) Hw)
    as (sv & E & Hsv & _); [by apply new_server_ok|done|].
  exists sv. pose proof (so_master _ _ _ _ Hsv) as [[Hn _] _ _].
  assert (forall c l, (c <= n)%nat -> received (queue_of sv) !! c = Some l -> l = deliver <$> take (length l) (pushed (queue_of sv))
    /\ (length l <= length (pushed (queue_of sv)))%nat) as Hpre by (intros c l _; exact (inv_prefix (Datatypes.S n) _ c l (ni_queue _ _ Hn))).
  split_and!; [done| | |by apply (ni_wrong _ _ Hn)| |].
  - intros i ti Hi. by apply (so_threads _ _ _ _ Hsv _ _ Hi).
  - apply (so_fds _ _ _ _ Hsv).
  - intros c Hc. destruct (inv_received _ _ c (ni_queue _ _ Hn)) as (l & cur & Hl & _ & Hle); [lia|].
    destruct (Hpre c l Hc Hl) as [El _]. exists (take (length l) (pushed (queue_of sv))). rewrite length_take, Nat.min_l by done.
    split_and!; [by rewrite <- El|done|]. pose proof (ni_count _ _ Hn c Hc) as Hcount. unfold unread in Hcount. rewrite Hl in Hcount.
    cbn in Hcount. injection Hcount as Hcount. lia.
  - destruct (so_storer _ _ _ _ Hsv) as (_ & _ & Hrec). destruct (Hpre n _ (Nat.le_refl _) Hrec) as [E1 _].
    rewrite !length_fmap in E1. by apply deliver_inj.
Qed.

(** ** A test of when callbacks can be called *)

Definition held (t : thread EL) : list Z := conn_queue_ t ++ ((fun x => fd_ (self x.2)) <$> map_to_list (tclients t)).

Lemma owns_held (t : thread EL) fd : owns t fd -> fd ∈ held t.
Proof.
  intros [Hin|(c & cl & Hc & <-)]; apply elem_of_app; [by left|right]. apply list_elem_of_fmap.
  exists (c, cl). split; [done|]. by apply elem_of_map_to_list.
Qed.

Definition publishable (i : nat) (sv : server) : bool :=
  match threads sv !! i, received (queue_of sv) !! i with
  | Some t, Some l =>
      match pushed (queue_of sv) !! length l with
      | Some msg => negb (bool_decide (fst msg = [])) && forallb (fun x => bool_decide (is_Some (parse_glob x.1))) (pubsub_patterns_ (tcore t))
      | None => true
      end
  | _, _ => true
  end.

(** It knows nothing of the callbacks of a store and of new configurations. *)
Definition callback_test (e : callback) (sv : server) : bool :=
  match e with
  | AcceptTcp (Some fd) _ | AcceptUnix (Some fd) => (0 <? fd) && forallb (fun t => bool_decide (fd ∉ held t)) (threads sv)
  | AcceptTcp None _ | AcceptUnix None | StorerCron _ | MasterCron _ => true
  | TakeConnection i _ | WorkerCron i _ | StorerNotice i _ => bool_decide (i < n)%nat
  | ReadClient i _ _ _ c | WriteClient i _ _ c =>
      match threads sv !! i with Some t => bool_decide (is_Some (tclients t !! c)) | None => false end
  | WorkerNotice i j _ => bool_decide (i < n)%nat && bool_decide (j < n)%nat && publishable i sv
  | Reload _ | StoreCallback _ => false
  end.

Fixpoint callbacks_test (es : list callback) (sv : server) : bool :=
  match es with
  | [] => true
  | e :: es => callback_test e sv && match run e sv with Some sv => callbacks_test es sv | None => true end
  end.

Lemma callback_test_ok e sv : callback_test e sv = true -> callback_ok (EL := EL) cfg ok conf_ok e sv.
Proof.
  assert (forall fd, (0 <? fd) && forallb (fun t => bool_decide (fd ∉ held t)) (threads sv) = true ->
    0 < fd /\ forall j tj, threads sv !! j = Some tj -> ~ owns tj fd) as Hnew.
  { intros fd [Hfd Hall]%andb_true_iff. split; [by apply Z.ltb_lt|]. intros j tj Hj O. apply list_elem_of_lookup_2 in Hj.
    rewrite forallb_forall in Hall. apply list_elem_of_In, Hall, bool_decide_eq_true in Hj. by apply Hj, owns_held. }
  destruct e as [[fd|] ip|[fd|]|i m|i m okr r c|i m writes c|i j m|i m|j c|c|conf|f|]; cbn [callback_test callback_ok]; auto;
    rewrite ?andb_true_iff, ?bool_decide_eq_true; try done.
  - destruct (threads sv !! i) as [t|] eqn:Et; [|done]. intros Hc%bool_decide_eq_true. by exists t.
  - destruct (threads sv !! i) as [t|] eqn:Et; [|done]. intros Hc%bool_decide_eq_true. by exists t.
  - intros [[Hi Hj] Hp]. split_and!; [done|done|]. intros t l msg Ht Hl Hmsg. unfold publishable in Hp.
    rewrite Ht, Hl, Hmsg in Hp. apply andb_true_iff in Hp as [Htopic Hparse]. split.
    + by apply negb_true_iff, bool_decide_eq_false in Htopic.
    + intros p c Hin. rewrite forallb_forall in Hparse. apply list_elem_of_In, Hparse in Hin. by apply bool_decide_eq_true in Hin.
Qed.

Lemma callbacks_test_ok es : forall sv, callbacks_test es sv = true ->
  callbacks_ok (EL := EL) cfg capacity set_begin create ok conf_ok es sv.
Proof.
  induction es as [|e es IH]; intros sv; cbn [callbacks_test callbacks_ok]; [done|]. intros [He Hes]%andb_true_iff.
  split; [by apply callback_test_ok|]. destruct (run_callback _ _ _ _ e sv); [by apply IH|done].
Qed.
End delivery.

(** ** A server with two workers

    Two clients connect, on descriptors 7 and 8; the one of worker 1 subscribes
    to a topic and to a pattern, and that of worker 0 logs a message. *)

Definition two_cfg : Config := MkConfig 2 [] (bs "0.0.0.0") 3388 false 10 (fun _ => Limit 0 0 0) 1000000.
Definition two_start : server (gmap Z Z) NullStore :=
  new_server two_cfg (MkStorer (MkNull (bs "app.*") false) stat_zero true (null_conf (bs "app.*"))) (fun _ => ∅) stat_zero.
Definition two_moment : moment := Moment 100 demo_env (fun _ => bs "127.0.0.1").
Definition two_requests : bytes := encode [bs "SUBSCRIBE"; bs "app.web"] ++ encode [bs "PSUBSCRIBE"; bs "app.*"].
Definition two_log : bytes := encode [bs "LOG"; bs "app.web"; bs "GET /"].

Notation two_run := (run_callback two_cfg 4 demo_begin null_create).
Notation two_runs := (run_callbacks two_cfg 4 demo_begin null_create).
Notation two_ok := (server_ok two_cfg (fun s => matchable (null_topic s)) (fun conf => matchable (sc_topic (sc_fields conf)))).
Notation two_callbacks_ok := (callbacks_ok two_cfg 4 demo_begin null_create (fun s => matchable (null_topic s))
  (fun conf => matchable (sc_topic (sc_fields conf)))).

(** Up to the subscriptions, and after them. *)
Definition two_before : list (callback (S := NullStore)) :=
  [AcceptTcp (Some 7) (bs "10.0.0.1"); AcceptTcp (Some 8) (bs "10.0.0.2"); TakeConnection 0 two_moment; TakeConnection 1 two_moment;
   ReadClient 1 two_moment true (RData two_requests) 1; WriteClient 1 two_moment [Wrote 1000] 1].
Definition two_after : list (callback (S := NullStore)) :=
  [ReadClient 0 two_moment true (RData two_log) 1; WorkerNotice 1 0 two_moment; StorerNotice 0 demo_clock; MasterCron 1000;
   WorkerNotice 0 0 two_moment; WorkerCron 0 two_moment; StorerCron demo_clock].

Definition two_state (es : list (callback (S := NullStore))) : server (gmap Z Z) NullStore := default two_start (two_runs es two_start).


Lemma two_before_runs : two_callbacks_ok two_before two_start.
Proof. apply callbacks_test_ok. vm_compute. reflexivity. Qed.

Lemma two_create_ok c conf : matchable (sc_topic (sc_fields conf)) ->
  exists s, null_create c conf = Some s /\ matchable (null_topic s).
Proof. intros Hc. by eexists. Qed.

Lemma two_before_ok : two_ok (two_state two_before).
Proof.
  destruct (run_callbacks_ok two_cfg 4 demo_begin null_create (fun s => matchable (null_topic s)) (fun s => matchable (null_topic s))
    (fun conf => matchable (sc_topic (sc_fields conf))) demo_begin_in two_create_ok
    two_before two_start eq_refl) as (sv & E & Hsv & _).
  - apply new_server_ok; [done|apply demo_topics|apply demo_topics].
  - exact two_before_runs.
  - unfold two_state. by rewrite E.
Qed.

Lemma server_safe_witness : exists sv, two_runs (two_before ++ two_after) two_start = Some sv
  /\ wrong_ (net_ (smaster sv)) = O /\ (offered_ sv).*1 = [(bs "app.web", bs "GET /")]
  /\ exists t cl, threads sv !! 1%nat = Some t /\ worker_ok (worker_of sv t) /\ tclients t !! 1%positive = Some cl
      /\ rep_ (self cl) = encode [bs "message"; bs "app.web"; bs "GET /"] ++ encode [bs "pmessage"; bs "app.*"; bs "app.web"; bs "GET /"].
Proof.
  destruct (server_safe two_cfg 4 demo_begin null_create (fun s => matchable (null_topic s)) (fun s => matchable (null_topic s))
    (fun conf => matchable (sc_topic (sc_fields conf))) demo_begin_in two_create_ok
    (MkStorer (MkNull (bs "app.*") false) stat_zero true (null_conf (bs "app.*"))) (fun _ => ∅) stat_zero (two_before ++ two_after))
    as (sv & E & Hok & _ & Hwrong & _ & Hoff).
  - done.
  - apply demo_topics.
  - apply demo_topics.
  - apply callbacks_test_ok. vm_compute. reflexivity.
  - exists sv. split; [exact E|]. split; [exact Hwrong|].
    assert (sv = two_state (two_before ++ two_after)) as -> by (unfold two_state, two_start; by rewrite E).
    split; [vm_compute; reflexivity|].
    destruct (threads (two_state (two_before ++ two_after)) !! 1%nat) as [t|] eqn:Et; [|exfalso; revert Et; vm_compute; discriminate].
    destruct (tclients t !! 1%positive) as [cl|] eqn:Ec; [|exfalso; revert Ec; vm_compute in Et; injection Et as <-; vm_compute; discriminate].
    exists t, cl. split; [done|]. split; [by eapply Hok|]. split; [done|].
    vm_compute in Et. injection Et as <-. vm_compute in Ec. injection Ec as <-. vm_compute. reflexivity.
Defined.

Lemma logged_message_reaches_subscribers_witness : exists sv1 tw1 sv2 tw2 cl cl',
  two_run (ReadClient 0 two_moment true (RData two_log) 1) (two_state two_before) = Some sv1
  /\ threads sv1 !! 1%nat = Some tw1 /\ two_run (WorkerNotice 1 0 two_moment) sv1 = Some sv2 /\ threads sv2 !! 1%nat = Some tw2
  /\ tclients tw1 !! 1%positive = Some cl /\ sub_topics_ (self cl) = {[bs "app.web"]}
  /\ tclients tw2 !! 1%positive = Some cl' /\ got two_cfg (bs "app.web") (bs "GET /") cl cl'.
Proof.
  destruct (threads (two_state two_before) !! 0%nat) as [t0|] eqn:E0; [|exfalso; revert E0; vm_compute; discriminate].
  destruct (threads (two_state two_before) !! 1%nat) as [t1|] eqn:E1; [|exfalso; revert E1; vm_compute; discriminate].
  pose proof E0 as F0. pose proof E1 as F1. vm_compute in F0. vm_compute in F1. injection F0 as F0. injection F1 as F1.
  destruct (tclients t0 !! 1%positive) as [a|] eqn:Ea; [|exfalso; revert Ea; rewrite <- F0; vm_compute; discriminate].
  destruct (tclients t1 !! 1%positive) as [c|] eqn:Ec; [|exfalso; revert Ec; rewrite <- F1; vm_compute; discriminate].
  pose proof Ea as Fa. pose proof Ec as Fc. rewrite <- F0 in Fa. rewrite <- F1 in Fc. vm_compute in Fa. vm_compute in Fc.
  injection Fa as Fa. injection Fc as Fc.
  destruct (logged_message_reaches_subscribers two_cfg 4 demo_begin null_create (fun s => matchable (null_topic s))
    (fun conf => matchable (sc_topic (sc_fields conf))) demo_begin_in demo_registered
    (two_state two_before) 0 t0 1%positive a two_moment two_moment (bs "app.web") (bs "GET /") 1 t1 [])
    as (sv1 & tw1 & sv2 & tw2 & R1 & _ & T1 & Hsame & R2 & _ & T2 & Hd).
  1: reflexivity. 1: lia. 1: exact two_before_ok. 1: exact E0. 1: exact Ea. 1-3: by rewrite <- Fa.
  1: done. 1: split; vm_compute; discriminate. 1: vm_compute; discriminate. 1: vm_compute; reflexivity. 1: exact E1.
  1: { intros p q. rewrite <- F1. cbn. rewrite list_elem_of_singleton. intros [= -> ->]. eexists. vm_compute. reflexivity. }
  1-2: vm_compute; reflexivity.
  assert (tw1 = t1) as -> by (by apply Hsame).
  destruct (Hd 1%positive c Ec) as (cl' & H1 & H2); [rewrite <- Fc; split_and!; vm_compute; reflexivity|].
  exists sv1, t1, sv2, tw2, c, cl'. split_and!; [exact R1|exact T1|exact R2|exact T2|exact Ec| |exact H1|exact H2].
  rewrite <- Fc. vm_compute. reflexivity.
Defined.
