(* ===== verification/Configured.v ===== *)
(** * A server with the store its configuration asks for

    [Store::Create] (Creation.v) gives a tree of stores; the virtual dispatch
    over such a tree keeps what the stores of its nodes promise (Serving.v).
    With it the server of System.v runs on an accepted configuration file, with
    no store left abstract. *)

From S2P Require Import Prelude Common Util Glob Conf Parser Lexer EventLoop Protocol Client PubSub Worker Demo MsgQueue Master.
From S2P Require Import Files Stores FileStore Secondary NetworkStore Creation Serving Storer System Delivery.

(** ** Virtual dispatch keeps the promises *)

Section virtual.
Context {T : Type}.
Variable what : T -> object T.

(** A state of the object's class is an object of that class. *)
Definition faithful (o : object T) : Prop := forall x, what (as_base o x) = Object (methods o) x (as_base o).

(** What an object promises by the methods of its class, said of it as one of
    the other class. *)
Record object_serves (ic : bool) (fits : message -> Prop) (fresh ok : T -> Prop) (s : T) : Prop := {
  os_self : as_base (what s) (self (what s)) = s;
  os_what : faithful (what s);
  os_serves : exists fr k, Serves (H := methods (what s)) ic fits fr k
    /\ (fresh s -> fr (self (what s))) /\ (ok s -> k (self (what s))) /\ forall x, k x -> ok (as_base (what s) x);
}.

Record object_keeps (ic : bool) (fits : message -> Prop) (ok : T -> Prop) (s : T) : Prop := {
  ok_self : as_base (what s) (self (what s)) = s;
  ok_what : faithful (what s);
  ok_keeps : exists k, Keeps (H := methods (what s)) ic fits k /\ k (self (what s)) /\ forall x, k x -> ok (as_base (what s) x);
}.

Lemma virtual_serves ic fits (fresh ok : T -> Prop) :
  (forall s, fresh s \/ ok s -> object_serves ic fits fresh ok s) ->
  Serves (H := virtual what) ic fits fresh ok.
Proof.
  intros Hobj.
  assert (forall s, State (StoreOps := virtual what) s = State (StoreOps := methods (what s)) (self (what s))) as Hstate by done.
  split.
  - intros c s st Hs. destruct (Hobj s (or_introl Hs)) as [Es Hwhat (fr & k & HS & Hf & _ & Hk)].
    cbn [Open virtual]. destruct (serves_open (Serves := HS) c (self (what s)) st (Hf Hs)) as (b & x & st' & -> & Hx & Hst).
    exists b, (as_base (what s) x), st'. split_and!; [done|by apply Hk|]. rewrite Hstate, Hwhat. exact Hst.
  - intros s st Hs. destruct (Hobj s (or_intror Hs)) as [Es Hwhat (fr & k & HS & _ & Hok & Hk)].
    cbn [Close virtual]. destruct (serves_close (Serves := HS) (self (what s)) st (Hok Hs)) as (x & st' & -> & Hd). eexists _, _. split; [done|].
    intros st2. cbn [Delete virtual]. rewrite Hwhat. apply Hd.
  - intros s Hs st. destruct (Hobj s (or_intror Hs)) as [Es Hwhat (fr & k & HS & _ & Hok & Hk)].
    cbn [Delete virtual]. exact (serves_delete (Serves := HS) (self (what s)) (Hok Hs) st).
  - intros c msg s st Hs Hm. destruct (Hobj s (or_intror Hs)) as [Es Hwhat (fr & k & HS & _ & Hok & Hk)].
    destruct (serves_add (Serves := HS) c msg (self (what s)) st (Hok Hs) Hm) as (b & x & st' & E & Hx & Hst).
    exists b, (as_base (what s) x), st'. split_and!; [|by apply Hk|rewrite !Hstate, Hwhat; exact Hst].
    unfold AddMessage, PreAddMessage in *. cbn [topic_ DoAddMessage virtual].
    destruct (if decide (topic_ (self (what s)) = bs "*") then _ else _) as [[]|]; cbn [mbind option_bind] in *; [by rewrite E| |done].
    injection E as <- <- <-. by rewrite Es.
  - intros c s st Hs. destruct (Hobj s (or_intror Hs)) as [Es Hwhat (fr & k & HS & _ & Hok & Hk)].
    cbn [Cron virtual]. destruct (serves_cron (Serves := HS) c (self (what s)) st (Hok Hs)) as (x & st' & -> & Hx & Hst).
    exists (as_base (what s) x), st'. split_and!; [done|by apply Hk|rewrite !Hstate, Hwhat; exact Hst].
  - intros s Hs Ho. destruct (Hobj s (or_intror Hs)) as [Es Hwhat (fr & k & HS & _ & Hok & Hk)].
    rewrite Hstate. by apply (serves_state (Serves := HS)); [apply Hok|].
Qed.

Lemma virtual_pre ic msg s : PreAddMessage (H := virtual what) ic msg s = PreAddMessage (H := methods (what s)) ic msg (self (what s)).
Proof. done. Qed.

Lemma virtual_keeps ic fits (ok : T -> Prop) : (forall s, ok s -> object_keeps ic fits ok s) -> Keeps (H := virtual what) ic fits ok.
Proof.
  intros Hobj. split; [split| | | |].
  - intros s msg Hs. destruct (Hobj s Hs) as [_ _ (k & HK & Hok & _)]. rewrite virtual_pre. by apply (total_pre (Steady := keeps_steady (Keeps := HK))).
  - intros c s st Hs. destruct (Hobj s Hs) as [_ _ (k & HK & Hok & Hk)]. cbn [Open virtual].
    destruct (total_open (Steady := keeps_steady (Keeps := HK)) c (self (what s)) st Hok) as (b & x & st' & -> & Hx). eexists _, _, _. split; [done|by apply Hk].
  - intros s st Hs. destruct (Hobj s Hs) as [_ _ (k & HK & Hok & Hk)]. cbn [Close virtual].
    destruct (total_close (Steady := keeps_steady (Keeps := HK)) (self (what s)) st Hok) as (x & st' & -> & Hx). eexists _, _. split; [done|by apply Hk].
  - intros c s st Hs. destruct (Hobj s Hs) as [_ _ (k & HK & Hok & Hk)]. cbn [Cron virtual].
    destruct (total_cron (Steady := keeps_steady (Keeps := HK)) c (self (what s)) st Hok) as (x & st' & -> & Hx). eexists _, _. split; [done|by apply Hk].
  - intros s st Hs. destruct (Hobj s Hs) as [_ _ (k & HK & Hok & _)]. cbn [Delete virtual].
    exact (total_delete (Steady := keeps_steady (Keeps := HK)) (self (what s)) st Hok).
  - intros s Hs. destruct (Hobj s Hs) as [_ _ (k & HK & Hok & _)]. cbn [State virtual]. by apply (keeps_stated (Keeps := HK)).
  - intros c s st b s' st' Hs. destruct (Hobj s Hs) as [_ Hwhat (k & HK & Hok & _)]. cbn [Open IsOpen virtual].
    intros ([[b1 x] st1] & E & [= <- <- <-])%bind_Some. rewrite Hwhat. exact (keeps_open (Keeps := HK) _ _ _ _ _ _ Hok E).
  - intros c msg s st Hs Ho Hm. destruct (Hobj s Hs) as [_ _ (k & HK & Hok & Hk)]. cbn [DoAddMessage virtual].
    destruct (keeps_add (Keeps := HK) c msg (self (what s)) st Hok Ho Hm) as (b & x & st' & -> & Hx). eexists _, _, _. split; [done|by apply Hk].
  - intros s st s' st' Hs. destruct (Hobj s Hs) as [_ Hwhat (k & HK & Hok & Hk)]. cbn [Close GetOldestMessages DeleteOldestMessages virtual].
    intros ([x st1] & E & [= <- <-])%bind_Some. rewrite Hwhat. cbn [self methods as_base].
    destruct (keeps_oldest (Keeps := HK) _ _ _ _ Hok E) as (l & El & Hl & Hx). exists l. split_and!; [done|done|by apply Hk].
Qed.
End virtual.

(** ** Trees of stores *)

(** What several kinds of stores of a class promise. *)
Lemma keeps_union {S : Type} `{StoreOps S} ic fits (kinds : (S -> Prop) -> Prop) : (forall ok, kinds ok -> Keeps ic fits ok) ->
  Keeps ic fits (fun s => exists ok, kinds ok /\ ok s).
Proof.
  intros HK. split; [split| | | |].
  - intros s msg (ok & Hk & Hs). specialize (HK _ Hk). by apply (total_pre (ok := ok)).
  - intros c s st (ok & Hk & Hs). specialize (HK _ Hk). destruct (total_open (ok := ok) c s st Hs) as (b & s' & st' & E & ?).
    exists b, s', st'. split; [done|]. by exists ok.
  - intros s st (ok & Hk & Hs). specialize (HK _ Hk). destruct (total_close (ok := ok) s st Hs) as (s' & st' & E & ?).
    exists s', st'. split; [done|]. by exists ok.
  - intros c s st (ok & Hk & Hs). specialize (HK _ Hk). destruct (total_cron (ok := ok) c s st Hs) as (s' & st' & E & ?).
    exists s', st'. split; [done|]. by exists ok.
  - intros s st (ok & Hk & Hs). specialize (HK _ Hk). by apply (total_delete (ok := ok)).
  - intros s (ok & Hk & Hs). specialize (HK _ Hk). by apply (keeps_stated (Keeps := HK)).
  - intros c s st b s' st' (ok & Hk & Hs) E. specialize (HK _ Hk). exact (keeps_open (Keeps := HK) _ _ _ _ _ _ Hs E).
  - intros c msg s st (ok & Hk & Hs) Ho Hm. specialize (HK _ Hk).
    destruct (keeps_add (Keeps := HK) c msg s st Hs Ho Hm) as (b & s' & st' & E & ?). exists b, s', st'. split; [done|]. by exists ok.
  - intros s st s' st' (ok & Hk & Hs) E. specialize (HK _ Hk).
    destruct (keeps_oldest (Keeps := HK) _ _ _ _ Hs E) as (l & ? & ? & ?). exists l. split_and!; [done|done|by exists ok].
Qed.

Section tree.
Context {FS EL : Type} `{FileSystem FS} `{FileEvents EL nproc unit}.
Variables (localtime : Z -> tm) (connect : address -> clock -> option Z) (ic : bool) (fits : message -> Prop).
Hypothesis fits_small : forall m, fits m -> small m.1 /\ small m.2.

Notation leaf := (leaf FS EL).
Notation tree := (Store leaf).
#[local] Instance tree_methods n : StoreOps (tree n) := Store_ops (leaf_ops localtime connect) ic n.

(** A network store may not know its state, so that it is only let to where it
    is not asked before it connected: in [front] of a buffer. *)
Definition leaf_ok (front : bool) (s : leaf) : Prop :=
  match s with
  | LNull x => matchable (null_topic x)
  | LFile x => file_ok x
  | LNetwork _ x => front = true /\ network_ok x
  end.

(** The secondary stores over a directory of their own. *)
Definition directory_kinds (ok : FileStore FS -> Prop) : Prop :=
  exists path good entries, BufferDirectory localtime path good entries /\ ok = sec_ok path good entries fits.
Definition leaf_keeps (s : leaf) : Prop :=
  match s with LFile x => exists ok, directory_kinds ok /\ ok x | _ => False end.

Fixpoint tree_keeps (n : nat) : tree n -> Prop :=
  match n return tree n -> Prop with
  | O => leaf_keeps
  | S n => fun s => match s with SLeaf s => leaf_keeps s | _ => False end
  end.

Fixpoint tree_fresh (front : bool) (n : nat) : tree n -> Prop :=
  match n return tree n -> Prop with
  | O => leaf_ok front
  | S n => fun s =>
      match s with
      | SLeaf s => leaf_ok front s
      | SMultiple m => multi_fresh (tree_fresh false n) m
      | SPriority p => prio_fresh (tree_fresh false n) p
      | SBuffer b => buffer_fresh (tree_fresh true n) (tree_keeps n) b
      end
  end.

Fixpoint tree_ok (front : bool) (n : nat) : tree n -> Prop :=
  match n return tree n -> Prop with
  | O => leaf_ok front
  | S n => fun s =>
      match s with
      | SLeaf s => leaf_ok front s
      | SMultiple m => multi_ok (tree_ok false n) m
      | SPriority p => prio_ok (tree_ok false n) p
      | SBuffer b => buffer_ok (H := tree_methods n) (fits := fits) (tree_ok true n) (tree_keeps n) b
      end
  end.

#[local] Instance directory_keeps : Keeps (H := FileStore_ops localtime) ic fits (fun s => exists ok, directory_kinds ok /\ ok s).
Proof.
  apply (keeps_union (H := FileStore_ops localtime)). intros ok (path & good & entries & BD & ->). by apply secondary_keeps.
Qed.

#[local] Instance leaf_serves front : Serves (H := leaf_ops localtime connect) ic fits (leaf_ok front) (leaf_ok front).
Proof.
  apply virtual_serves. intros s Hs. assert (leaf_ok front s) as Hok by tauto. clear Hs. split; [by destruct s|by destruct s|].
  destruct s as [x|x|a x].
  - exists (fun x => matchable (null_topic x)), (fun x => matchable (null_topic x)). by split; [apply NullStore_serves|].
  - exists file_ok, file_ok. by split; [apply file_serves|].
  - exists network_ok, network_ok. destruct Hok as [-> Hx]. split; [apply network_serves|]. by split_and!.
Qed.

#[local] Instance leaf_keeps_instance : Keeps (H := leaf_ops localtime connect) ic fits leaf_keeps.
Proof.
  apply virtual_keeps. intros s Hs. split; [by destruct s|by destruct s|]. destruct s as [x|x|a x]; [done| |done].
  exists (fun x => exists ok, directory_kinds ok /\ ok x). by split; [apply directory_keeps|].
Qed.

Lemma leaf_stated : Stated (H := leaf_ops localtime connect) (leaf_ok false).
Proof. intros [x|x|a x] Hs; [by eexists|by eexists|]. by destruct Hs. Qed.

(** Every tree promises what its stores do. *)
Lemma tree_promises n : (forall front, Serves (H := tree_methods n) ic fits (tree_fresh front n) (tree_ok front n))
  /\ Stated (H := tree_methods n) (tree_ok false n) /\ Keeps (H := tree_methods n) ic fits (tree_keeps n).
Proof.
  induction n as [|n (IHs & IHst & IHk)]; [split_and!; [exact leaf_serves|exact leaf_stated|exact leaf_keeps_instance]|].
  split_and!.
  - intros front. apply virtual_serves. intros s Hs. split; [by destruct s|by destruct s|]. destruct s as [s|m|p|b].
    + exists (leaf_ok front), (leaf_ok front). by split; [apply leaf_serves|].
    + exists (multi_fresh (tree_fresh false n)), (multi_ok (tree_ok false n)). split; [by apply (multi_serves (H := tree_methods n))|done].
    + exists (prio_fresh (tree_fresh false n)), (prio_ok (tree_ok false n)). split; [by apply (prio_serves (H := tree_methods n))|done].
    + exists (buffer_fresh (tree_fresh true n) (tree_keeps n)), (buffer_ok (H := tree_methods n) (fits := fits) (tree_ok true n) (tree_keeps n)).
      split; [|done].
      exact (buffer_serves (H := tree_methods n) (H0 := tree_methods n) (ic := ic) (fits := fits) (tree_fresh true n) (tree_ok true n)
        (tree_keeps n) (Serves0 := IHs true) (Keeps0 := IHk)).
  - intros s Hs. destruct s as [s|m|p|b].
    + by apply leaf_stated.
    + by apply (multi_stated (H := tree_methods n) (tree_ok false n)).
    + by apply (prio_stated (H := tree_methods n) (tree_ok false n)).
    + exact (buffer_stated (H := tree_methods n) (H0 := tree_methods n) (ic := ic) (fits := fits) (tree_ok true n) (tree_keeps n) (Keeps0 := IHk) b Hs).
  - apply virtual_keeps. intros s Hs. split; [by destruct s|by destruct s|]. destruct s as [s|m|p|b]; [|done..].
    exists leaf_keeps. by split; [apply leaf_keeps_instance|].
Qed.
End tree.

(** ** What a configuration must ask for *)

Section configured.
Context {FS EL : Type} `{FileSystem FS} `{FileEvents EL nproc unit}.
Variables (localtime : Z -> tm) (connect : address -> clock -> option Z) (ic : bool) (fits : message -> Prop).
Notation leaf := (leaf FS EL).

(** The constructor appends the slash. *)
Definition store_path (path : bytes) : bytes := if decide (last path = Some "/"%char) then path else path ++ bs "/".

Definition rotates (f : store_fields) : Prop := rotate_interval (buffer_type_of (sc_buffer_type f)) (sc_rotate f) <> 0.

(** The directory of a secondary store is its own, and what is in it was
    written by one. *)
Definition secondary_servable (fs : FS) (c : StoreConfig) : Prop :=
  let f := sc_fields c in
  kind_of (sc_type f) = Some KFile /\ sc_buffer_type f = bs "secondary" /\ sc_topic f = bs "*" /\ rotates f
  /\ exists good entries, BufferDirectory localtime (store_path (sc_path f)) good entries /\ good fs /\ all_records fits (entries fs).

(** Topics that can be matched, files not rotated every 0 seconds, a network
    store only in [front] of a buffer, and a directory for each buffer. *)
Fixpoint servable (fs : FS) (front : bool) (c : StoreConfig) : Prop :=
  let 'MkStoreConfig f stores := c in
  matchable (sc_topic f) /\
  match kind_of (sc_type f) with
  | Some KNull => True
  | Some KFile => rotates f
  | Some KNetwork => front = true
  | Some (KMultiple | KPriority) => foldr (fun c all => servable fs false c /\ all) True stores
  | Some KBuffer => match stores with [p; s] => servable fs true p /\ secondary_servable fs s | _ => False end
  | None => False
  end.

Lemma servable_all fs l : foldr (fun c all => servable fs false c /\ all) True l <-> Forall (servable fs false) l.
Proof. induction l as [|c l IH]; cbn; [by split|]. by rewrite Forall_cons, IH. Qed.

Notation tree_fresh := (tree_fresh localtime fits).

Lemma new_file_secondary fs (el : EL) c (x : leaf) : secondary_servable fs c -> leaf_mirrors fs el (sc_fields c) x -> leaf_keeps localtime fits x.
Proof.
  intros (Hk & Hb & Ht & Hr & good & entries & BD & Hg & Ha) Hm. unfold leaf_mirrors in Hm. rewrite Hk in Hm.
  destruct x as [x|x|a x]; [done| |done]. subst x. eexists. split; [by exists (store_path (sc_path (sc_fields c))), good, entries|].
  unfold rotates in Hr. rewrite Hb in *. by split_and!.
Qed.

Lemma secondary_fresh fs (el : EL) n c (s : Store leaf n) : secondary_servable fs c -> mirrors fs el n c s -> tree_keeps localtime fits n s.
Proof.
  intros Hs Hm. destruct n as [|n]; [by eapply new_file_secondary|]. pose proof Hs as [Hk _]. cbn [mirrors] in Hm. rewrite Hk in Hm.
  destruct s as [x|m|q|y]; try done. by eapply new_file_secondary.
Qed.

Lemma leaf_mirrors_ok fs (el : EL) front f (x : leaf) : matchable (sc_topic f) ->
  match kind_of (sc_type f) with Some KNull => True | Some KFile => rotates f | Some KNetwork => front = true | _ => False end ->
  leaf_mirrors fs el f x -> leaf_ok front x.
Proof.
  intros Ht. unfold leaf_mirrors. destruct (kind_of (sc_type f)) as [[]|]; try done; destruct x as [x|x|a x]; try done.
  - intros -> [_ ->]. by split_and!.
  - intros Hr ->. by split.
  - by intros _ ->.
Qed.

(** The store made for such a configuration can be opened. *)
Lemma mirrors_fresh fs (el : EL) n : forall front c (s : Store leaf n), servable fs front c -> mirrors fs el n c s -> tree_fresh front n s.
Proof.
  induction n as [|n IH]; intros front [f stores] s [Ht Hs] Hm; cbn [mirrors sc_fields] in Hm.
  - eapply leaf_mirrors_ok; [done| |exact Hm]. unfold leaf_mirrors in Hm. by destruct (kind_of (sc_type f)) as [[]|].
  - cbn [sc_stores] in Hm. assert (forall l, Forall2 (mirrors fs el n) stores l -> foldr (fun c all => servable fs false c /\ all) True stores ->
      Forall (tree_fresh false n) l) as Hall.
    { intros l Hl Hf. apply servable_all in Hf. clear Hs Hm. induction Hl as [|c x cs l Hc Hl IHl]; [constructor|].
      apply Forall_cons in Hf as [Hc' Hf]. constructor; [by eapply IH|by apply IHl]. }
    destruct (kind_of (sc_type f)) as [[]|] eqn:Hk; [| | | | | |done].
    + destruct s as [s|m|p|b]; try done. destruct Hm as (E1 & E2 & _ & Hl). rewrite <- E1 in Ht. split; [exact Ht|split; [done|by apply Hall]].
    + destruct s as [s|m|p|b]; try done. destruct Hm as (E1 & E2 & Hl). rewrite <- E1 in Ht. split; [exact Ht|split; [done|by apply Hall]].
    + destruct s as [s|m|p|b]; try done. destruct Hm as (E1 & E2 & E3 & p & s & -> & _ & _ & Hp & Hsec). destruct Hs as [Hsp Hss].
      rewrite <- E1 in Ht. split; [exact Ht|]. do 2 (split; [done|]). split; [by eapply IH|].
      by eapply secondary_fresh.
    + destruct s as [s|m|p|b]; try done. eapply leaf_mirrors_ok; [done| |exact Hm]. by rewrite Hk.
    + destruct s as [s|m|p|b]; try done. eapply leaf_mirrors_ok; [done| |exact Hm]. by rewrite Hk.
    + destruct s as [s|m|p|b]; try done. eapply leaf_mirrors_ok; [done| |exact Hm]. by rewrite Hk.
Qed.
End configured.

(** ** Callbacks of the connections of a tree *)

Section callbacks.
Context {FS EL : Type} `{FileSystem FS} `{FileEvents EL nproc unit}.
Variables (localtime : Z -> tm) (connect : address -> clock -> option Z) (ic : bool) (fits : message -> Prop).
Hypothesis fits_small : forall m, fits m -> small m.1 /\ small m.2.
Notation leaf := (leaf FS EL).
Notation tree := (Store leaf).
Notation tree_ok := (tree_ok localtime connect ic fits).
#[local] Instance tree_store n : StoreOps (tree n) := Store_ops (leaf_ops localtime connect) ic n.

Definition on_leaf (f : NetworkStore EL -> option (NetworkStore EL)) (s : leaf) : option leaf :=
  match s with LNetwork a x => x ← f x; Some (LNetwork a x) | _ => None end.

(** A callback of the network store that [path] leads to. *)
Fixpoint on_network (path : list nat) (f : NetworkStore EL -> option (NetworkStore EL)) (n : nat) {struct n} : tree n -> option (tree n) :=
  match n return tree n -> option (tree n) with
  | O => on_leaf f
  | S n => fun s =>
      match s, path with
      | SLeaf x, _ => x ← on_leaf f x; Some (SLeaf x)
      | SMultiple m, i :: path =>
          x ← multi_stores m !! i; x ← on_network path f n x;
          Some (SMultiple (MkMultiple (multi_topic m) (<[i := x]> (multi_stores m)) (success_ m) (multi_open m)))
      | SPriority p, i :: path =>
          x ← prio_stores p !! i; x ← on_network path f n x;
          Some (SPriority (MkPriority (prio_topic p) (<[i := x]> (prio_stores p)) (prio_open p)))
      | SBuffer b, O :: path => x ← on_network path f n (primary_ b); Some (SBuffer (with_primary b x))
      | _, _ => None
      end
  end.

Definition keeps_network (f : NetworkStore EL -> option (NetworkStore EL)) : Prop :=
  forall x x', network_ok x -> f x = Some x' -> network_stated x'.

Lemma on_leaf_ok f front (s s' : leaf) : keeps_network f -> leaf_ok front s -> on_leaf f s = Some s' ->
  leaf_ok front s' /\ is_Some (State (StoreOps := leaf_ops localtime connect) s').
Proof.
  intros Hf. destruct s as [x|x|a x]; [done..|]. intros [-> Hx] (x' & E & [= <-])%bind_Some.
  destruct (Hf x x' Hx E) as [H1 H2]. by split.
Qed.

Lemma on_network_ok f : keeps_network f -> forall n path front (s s' : tree n), tree_ok front n s ->
  on_network path f n s = Some s' -> tree_ok front n s' /\ is_Some (State s').
Proof.
  intros Hf n. induction n as [|n IH]; intros path front s s' Hs; [exact (on_leaf_ok f front s s' Hf Hs)|].
  destruct (tree_promises localtime connect ic fits fits_small n) as (_ & Hst & _).
  destruct s as [x|m|p|b]; cbn [on_network].
  - intros (x' & E & [= <-])%bind_Some. exact (on_leaf_ok f front x x' Hf Hs E).
  - destruct path as [|i path]; [done|]. intros (x & Hi & (x' & E & [= <-])%bind_Some)%bind_Some. destruct Hs as [Ht Hl].
    assert (multi_ok (tree_ok false n) (MkMultiple (multi_topic m) (<[i := x']> (multi_stores m)) (success_ m) (multi_open m))) as Hok.
    { split; [done|]. apply Forall_insert; [done|]. eapply IH; [|exact E]. by eapply Forall_lookup_1. }
    split; [exact Hok|]. by apply (multi_stated (H := tree_store n) (ic := ic) (tree_ok false n)).
  - destruct path as [|i path]; [done|]. intros (x & Hi & (x' & E & [= <-])%bind_Some)%bind_Some. destruct Hs as [Ht Hl].
    assert (prio_ok (tree_ok false n) (MkPriority (prio_topic p) (<[i := x']> (prio_stores p)) (prio_open p))) as Hok.
    { split; [done|]. apply Forall_insert; [done|]. eapply IH; [|exact E]. by eapply Forall_lookup_1. }
    split; [exact Hok|]. by apply (prio_stated (H := tree_store n) (ic := ic) (tree_ok false n)).
  - destruct path as [|[|i] path]; [done| |done]. intros (x' & E & [= <-])%bind_Some.
    destruct Hs as (Ht & Ho & Hp & Hk & x & Hx & _ & Hq). destruct (IH _ _ _ _ Hp E) as [Hp' Hx'].
    assert (buffer_ok (H := tree_store n) (fits := fits) (tree_ok true n) (tree_keeps localtime fits n) (with_primary b x')) as Hok.
    { split_and!; try done. by exists x. }
    split; [exact Hok|]. destruct (tree_promises localtime connect ic fits fits_small n) as (_ & _ & HK).
    by apply (buffer_stated (H := tree_store n) (H0 := tree_store n) (ic := ic) (tree_ok true n) (tree_keeps localtime fits n)).
Qed.

(** What the loop of the storer calls for a connection. *)
Definition on_send (path : list nat) (writes : list write_result) (n : nat) : tree n -> option (tree n) :=
  on_network path (fun x => '(x, _) ← SendRequest writes x; Some x) n.
Definition on_reply (path : list nat) (c : clock) (r : read_result) (n : nat) : tree n -> option (tree n) :=
  on_network path (fun x => '(x, _) ← ReadReply c r x; Some x) n.

Lemma on_send_ok path writes n (s s' : tree n) : tree_ok false n s -> on_send path writes n s = Some s' -> tree_ok false n s'.
Proof.
  intros Hs E. eapply on_network_ok; [|exact Hs|exact E]. intros x x' Hx ([x1 out] & E1 & [= <-])%bind_Some. by eapply SendRequest_ok.
Qed.

Lemma on_reply_ok path c r n (s s' : tree n) : tree_ok false n s -> on_reply path c r n s = Some s' -> tree_ok false n s'.
Proof.
  intros Hs E. eapply on_network_ok; [|exact Hs|exact E]. intros x x' Hx ([x1 k] & E1 & [= <-])%bind_Some. by eapply ReadReply_ok.
Qed.
End callbacks.

(** ** The server *)

Section safe.
Context {FS EL WL : Type} `{FileSystem FS} `{FileEvents EL nproc unit} `{!FileEvents WL fproc cid} `{!FileEventsLaws WL fproc cid}.
Variables (localtime : Z -> tm) (connect : address -> clock -> option Z).
(** What a store finds that is made at some time. *)
Variables (fs_at : clock -> FS) (el_at : clock -> EL).
Variables (capacity : nat) (set_begin : gset bytes -> bytes).
Hypothesis set_begin_in : forall X, X <> ∅ -> set_begin X ∈ X.
(** The deepest tree. *)
Variable depth : nat.
Notation leaf := (leaf FS EL).
Notation tree := (Store leaf depth).

(** [Store::Create] of [DoConfigReload] and [Storer::Create]. *)
Definition create_store (c : clock) (conf : StoreConfig) : option tree := r ← Create (fs_at c) (el_at c) depth conf; r.

(** A configuration that can be run. *)
Definition runnable (conf : StoreConfig) : Prop :=
  well_formed conf = true /\ paths_given conf = true /\ (levels conf <= depth)%nat
  /\ forall c, servable localtime short_message (fs_at c) false conf.

Lemma short_small m : short_message m -> small m.1 /\ small m.2.
Proof. unfold short_message, short, small. lia. Qed.

Lemma create_store_fresh c conf : runnable conf ->
  exists s, create_store c conf = Some s /\ tree_fresh localtime short_message false depth s.
Proof.
  intros (Hw & Hp & Hl & Hs). destruct (Create_ok (fs_at c) (el_at c) depth conf Hw Hp Hl) as (s & E & Hm).
  exists s. unfold create_store. rewrite E. split; [done|]. by eapply mirrors_fresh.
Qed.

(** The operations of a tree, and what they keep, by the case of letters. *)
Abbreviation tree_with ic := (Store_ops (leaf_ops localtime connect) ic depth).
Abbreviation tree_good ic := (tree_ok localtime connect ic short_message false depth).

(** C2. Let a configuration file be accepted, with a positive number of workers and stores that
    can be served: file stores have a path and are not rotated every 0 seconds, topics parse as
    patterns, a network store is only the primary store of a buffer store, a secondary store is a
    file store for every topic whose directory holds what one wrote, and stores are nested no deeper
    than the bound. Then the server creates its store; and whatever callbacks its threads run, in
    any order and through any reloads, all are defined; every worker stays well formed; no
    descriptor belongs to two threads; every worker and the storer have received the first messages
    of the queue, in order and without a wrong notice, and what is missing is announced to them; and
    the storer offered the messages to its tree of stores in order. Of the callbacks it is assumed
    that an accepted descriptor is new, that input and output are of clients that are there, that a
    worker that reads a notice has patterns that parse and a message whose topic is not empty
    (stringmatchlen reads outside its arrays otherwise), that the callbacks of the connections of
    network stores are defined and leave the tree in its invariant (a reply of one byte CR is
    undefined behaviour), and that a new configuration can be served as well. *)
Theorem configured_server_safe content ctx :
  ParseConfigFile content = Some ctx -> ctx_success ctx = true ->
  exists conf store, ctx_conf ctx = Some conf /\ kc_store conf = Some store
    /\ let cfg := master_config conf in
       let run := run_callbacks (StoreOps0 := tree_with (ignore_case cfg)) cfg capacity set_begin create_store in
       paths_given store = true -> (levels store <= depth)%nat ->
       (forall c, servable localtime short_message (fs_at c) false store) -> 0 < worker_threads cfg ->
       forall c0 st0, exists t, Storer_Create (H := tree_with (ignore_case cfg)) create_store c0 store st0 = Some t
         /\ forall (loop : nat -> WL) start es,
              callbacks_ok (StoreOps0 := tree_with (ignore_case cfg)) cfg capacity set_begin create_store
                (tree_good (ignore_case cfg)) runnable es (new_server cfg t loop start) ->
              exists sv, run es (new_server cfg t loop start) = Some sv
                /\ (forall i t, threads sv !! i = Some t -> worker_ok (worker_of sv t))
                /\ (forall i j ti tj fd, threads sv !! i = Some ti -> threads sv !! j = Some tj -> owns ti fd -> owns tj fd -> i = j)
                /\ wrong_ (net_ (smaster sv)) = O
                /\ (forall c, (c <= workers cfg)%nat -> reads_in_order cfg sv c)
                /\ (offered_ sv).*1 = take (length (offered_ sv)) (pushed (queue_ (net_ (smaster sv)))).
Proof.
  intros E Hs. destruct (ParseConfig_ok (file_lines content [])) as (c' & E' & Hc). unfold ParseConfigFile in E.
  rewrite E' in E. injection E as <-. destruct (Hc Hs) as (conf & store & H1 & H2 & Hw).
  exists conf, store. split; [done|]. split; [done|]. intros cfg run Hp Hl Hserv Hworkers c0 st0.
  assert (runnable store) as Hrun by done.
  destruct (tree_promises localtime connect (ignore_case cfg) short_message short_small depth) as (HS & HT & _).
  specialize (HS false). unfold tree_methods in HS, HT.
  destruct (create_store_fresh c0 store Hrun) as (s0 & Es & Hs0). unfold Storer_Create. rewrite Es. cbn [mbind option_bind].
  destruct (serves_open (Serves := HS) c0 s0 st0 Hs0) as (b & s1 & st1 & Eo & Hs1 & _). rewrite Eo. cbn [mbind option_bind].
  eexists. split; [done|]. intros loop start es Hes.
  exact (server_safe (StoreOps0 := tree_with (ignore_case cfg)) cfg capacity set_begin create_store _ _ runnable set_begin_in
    create_store_fresh (MkStorer s1 st1 true store) loop start es Hworkers Hs1 Hrun Hes).
Qed.
End safe.

(** ** A server that forwards

    Its store sends to another server and keeps messages in a file while that
    one is away; it is away until second 1010. *)

Definition forwarder_text : bytes :=
  bs "worker_threads 2;" ++ [LF] ++ bs "listen { port 3388; }" ++ [LF] ++ bs "store buffer {" ++ [LF]
  ++ bs "store network primary { host 10.0.0.9; port 3388; }" ++ [LF]
  ++ bs "store file secondary { path /b; rotate 5min; }" ++ [LF] ++ bs "}" ++ [LF].
Definition forwarder_context : ParseContext := default new_ParseContext (ParseConfigFile forwarder_text).
Definition forwarder_conf : KidsConfig := default new_KidsConfig (ctx_conf forwarder_context).
Definition forwarder_cfg : Config := master_config forwarder_conf.
Definition forwarder_store : StoreConfig := default (null_conf []) (kc_store forwarder_conf).

Notation forwarder_tree := (Store (leaf dirfs (gmap Z Z)) 1).
Definition forwarder_connect (_ : address) (c : clock) : option Z := if unixtime c <? 1010 then None else Some 9.
Definition forwarder_create : clock -> StoreConfig -> option forwarder_tree := create_store (fun _ => DirFS ∅) (fun _ => ∅) 1.
Notation forwarder_ops := (Store_ops (leaf_ops clock_time forwarder_connect) (ignore_case forwarder_cfg) 1).

Definition second (t : Z) : clock := Clock t t.
Definition forwarder_moment : moment := Moment 1000 demo_env (fun _ => bs "127.0.0.1").

(** A client logs a message, which the file keeps; the timer connects, reads
    the file back and sends; the loop writes. *)
Definition forwarder_callbacks : list (callback (S := forwarder_tree)) :=
  [AcceptTcp (Some 7) (bs "10.0.0.1"); TakeConnection 0 forwarder_moment;
   ReadClient 0 forwarder_moment true (RData (encode [bs "LOG"; bs "app.web"; bs "GET /"])) 1;
   StorerNotice 0 (second 1001); WorkerNotice 0 0 forwarder_moment; StorerCron (second 1002); StorerCron (second 1011);
   StorerCron (second 1012); StorerCron (second 1013)].
Definition forwarder_write : callback (S := forwarder_tree) := StoreCallback (on_send [0%nat] [Wrote 1000] 1).

(** The connection of the forwarder's primary store. *)
Definition forwarder_agent (s : forwarder_tree) : option Agent :=
  match s with SBuffer b => match primary_ b with LNetwork _ x => agent_ x | _ => None end | _ => None end.

Ltac of_kind k := lazymatch goal with |- match ?x with _ => _ end => change x with (Some k) end; cbv iota beta.

Lemma forwarder_servable c : servable clock_time short_message ((fun _ : clock => DirFS ∅) c) false forwarder_store.
Proof.
  assert (forwarder_store = default (null_conf []) (kc_store forwarder_conf)) as E by done.
  set (x := default _ _) in E. vm_compute in x. subst x. rewrite E. clear E. cbn [servable sc_topic].
  split; [by left|]. of_kind KBuffer. split.
  - split; [by left|]. by of_kind KNetwork.
  - split; [by vm_compute|]. split; [by vm_compute|]. split; [by vm_compute|]. split; [by vm_compute|].
    exists dirfs_good, dir_files. split; [exact dirfs_directory|]. split; [|apply map_Forall_empty].
    intros n [y Hy]. cbn in Hy. by rewrite lookup_empty in Hy.
Qed.

Lemma forwarder_runnable : runnable clock_time (fun _ => DirFS ∅) 1 forwarder_store.
Proof.
  split; [by vm_compute|]. split; [by vm_compute|]. split; [apply (bool_decide_unpack _); by vm_compute|exact forwarder_servable].
Qed.

(** The run of the forwarder. *)
Notation forwarder_runs := (run_callbacks (StoreOps0 := forwarder_ops) forwarder_cfg 4 demo_begin forwarder_create).
Notation forwarder_good := (tree_ok clock_time forwarder_connect (ignore_case forwarder_cfg) short_message false 1).
Notation forwarder_runnables := (runnable clock_time (fun _ => DirFS ∅) 1).
Definition forwarder_start (t : Storer forwarder_tree) : server (gmap Z Z) forwarder_tree :=
  new_server forwarder_cfg t (fun _ => ∅) stat_zero.
Definition forwarder_storer : option (Storer forwarder_tree) :=
  Storer_Create (H := forwarder_ops) forwarder_create (second 1000) forwarder_store stat_zero.

Lemma forwarder_promises : Serves (H := forwarder_ops) (ignore_case forwarder_cfg) short_message
    (tree_fresh clock_time short_message false 1) forwarder_good /\ Stated (H := forwarder_ops) forwarder_good.
Proof.
  destruct (tree_promises clock_time forwarder_connect (ignore_case forwarder_cfg) short_message short_small 1) as (HS & HT & _).
  split; [exact (HS false)|exact HT].
Qed.

Lemma forwarder_created t : forwarder_storer = Some t -> forwarder_good (store_ t) /\ conf_ t = forwarder_store.
Proof.
  unfold forwarder_storer, Storer_Create.
  destruct (create_store_fresh clock_time (fun _ => DirFS ∅) (fun _ => ∅ : gmap Z Z) 1 (second 1000) forwarder_store forwarder_runnable)
    as (s0 & Es & Hs0). unfold forwarder_create. rewrite Es. cbn [mbind option_bind].
  destruct (serves_open (Serves := proj1 forwarder_promises) (second 1000) s0 stat_zero Hs0) as (b & s1 & st1 & Eo & Hs1 & _).
  rewrite Eo. cbn [mbind option_bind]. intros [= <-]. split; [exact Hs1|reflexivity].
Qed.

(** Its callbacks are called when they can be, the last one because the store
    kept its promises until then. *)
Lemma forwarder_callbacks_ok t : forwarder_storer = Some t ->
  callbacks_ok (StoreOps0 := forwarder_ops) forwarder_cfg 4 demo_begin forwarder_create forwarder_good forwarder_runnables
    (forwarder_callbacks ++ [forwarder_write]) (forwarder_start t).
Proof.
  intros Et. destruct (forwarder_created t Et) as [Hs Hc]. destruct forwarder_promises as [HS HT].
  assert (callbacks_ok (StoreOps0 := forwarder_ops) forwarder_cfg 4 demo_begin forwarder_create forwarder_good forwarder_runnables
    forwarder_callbacks (forwarder_start t)) as H1.
  { apply callbacks_test_ok. set (x := forwarder_storer) in Et. vm_compute in x. subst x. injection Et as <-. clear. vm_compute. reflexivity. }
  apply callbacks_ok_app; [exact H1|]. intros sv Esv. split; [|by destruct (run_callback _ _ _ _ _ _)].
  destruct (run_callbacks_ok (StoreOps0 := forwarder_ops) forwarder_cfg 4 demo_begin forwarder_create _ forwarder_good forwarder_runnables
    demo_begin_in (create_store_fresh clock_time (fun _ => DirFS ∅) (fun _ => ∅) 1) forwarder_callbacks (forwarder_start t))
    as (sv' & Esv' & Hsv & _); [reflexivity| |exact H1|].
  { apply new_server_ok; [reflexivity|exact Hs|rewrite Hc; exact forwarder_runnable]. }
  rewrite Esv in Esv'. injection Esv' as <-. pose proof (proj1 (so_storer _ _ _ _ Hsv)) as Hok.
  unfold callback_ok, forwarder_write. destruct (on_send [0%nat] [Wrote 1000] 1 (store_ (storer_ sv))) as [s|] eqn:Eon.
  - exists s. split; [reflexivity|]. exact (on_send_ok clock_time forwarder_connect _ short_message short_small [0%nat] [Wrote 1000] 1 _ s Hok Eon).
  - exfalso. clear - Et Esv Eon. set (x := forwarder_storer) in Et. vm_compute in x. subst x. injection Et as <-.
    set (x := forwarder_runs _ _) in Esv. vm_compute in x. subst x. injection Esv as <-. vm_compute in Eon. discriminate.
Qed.

(** What the server has done before the loop writes, and after. *)
Lemma forwarder_forwards :
  (t ← forwarder_storer; sv1 ← forwarder_runs forwarder_callbacks (forwarder_start t);
   sv ← forwarder_runs (forwarder_callbacks ++ [forwarder_write]) (forwarder_start t);
   Some (offered_ sv, agent_req <$> forwarder_agent (store_ (storer_ sv1)), agent_req <$> forwarder_agent (store_ (storer_ sv))))
  = Some ([((bs "app.web", bs "GET /"), true)], Some (log_request (bs "app.web", bs "GET /")), Some []).
Proof. vm_compute. reflexivity. Qed.

Lemma forwarder_ends t sv : forwarder_storer = Some t ->
  forwarder_runs (forwarder_callbacks ++ [forwarder_write]) (forwarder_start t) = Some sv ->
  offered_ sv = [((bs "app.web", bs "GET /"), true)]
  /\ (exists sv1, forwarder_runs forwarder_callbacks (forwarder_start t) = Some sv1
       /\ (agent_req <$> forwarder_agent (store_ (storer_ sv1))) = Some (log_request (bs "app.web", bs "GET /")))
  /\ (agent_req <$> forwarder_agent (store_ (storer_ sv))) = Some [].
Proof.
  intros Et Esv. pose proof forwarder_forwards as Hf. apply bind_Some in Hf as (t' & Et' & Hf).
  pose proof (eq_trans (eq_sym Et') Et) as Ht. apply (inj Some) in Ht. subst t'.
  apply bind_Some in Hf as (sv1 & E1 & Hf). apply bind_Some in Hf as (sv' & Esv' & Hf).
  pose proof (eq_trans (eq_sym Esv') Esv) as Hsv. apply (inj Some) in Hsv. subst sv'.
  apply (inj Some) in Hf. apply pair_equal_spec in Hf as [Hf Hl]. apply pair_equal_spec in Hf as [Ho Hr].
  split; [exact Ho|]. split; [exists sv1; split; [exact E1|exact Hr]|exact Hl].
Qed.

Lemma configured_server_safe_witness : exists t sv,
  forwarder_storer = Some t /\ forwarder_runs (forwarder_callbacks ++ [forwarder_write]) (forwarder_start t) = Some sv
  /\ wrong_ (net_ (smaster sv)) = O /\ offered_ sv = [((bs "app.web", bs "GET /"), true)]
  /\ (exists sv1, forwarder_runs forwarder_callbacks (forwarder_start t) = Some sv1
       /\ (agent_req <$> forwarder_agent (store_ (storer_ sv1))) = Some (log_request (bs "app.web", bs "GET /")))
  /\ (agent_req <$> forwarder_agent (store_ (storer_ sv))) = Some [].
Proof.
  destruct (configured_server_safe (WL := gmap Z Z) clock_time forwarder_connect (fun _ => DirFS ∅) (fun _ => ∅) 4 demo_begin demo_begin_in 1
    forwarder_text forwarder_context) as (conf & store & H1 & H2 & H3).
  - unfold forwarder_context. destruct (ParseConfigFile forwarder_text) eqn:E; [reflexivity|]. exfalso. vm_compute in E. discriminate.
  - vm_compute. reflexivity.
  - assert (conf = forwarder_conf) as -> by (unfold forwarder_conf; rewrite H1; reflexivity).
    assert (store = forwarder_store) as -> by (unfold forwarder_store; rewrite H2; reflexivity).
    destruct forwarder_runnable as (_ & Hp & Hl & Hs).
    destruct (H3 Hp Hl Hs ltac:(reflexivity) (second 1000) stat_zero) as (t & Et & Hrun).
    destruct (Hrun (fun _ => ∅) stat_zero (forwarder_callbacks ++ [forwarder_write]) (forwarder_callbacks_ok t Et))
      as (sv & Esv & _ & _ & Hwrong & _).
    exists t, sv. split; [exact Et|]. split; [exact Esv|]. split; [exact Hwrong|]. exact (forwarder_ends t sv Et Esv).
Defined.
