(* ===== verification/Sds.v ===== *)
(** * sds.c: length-prefixed strings

    An sds is a block with its length and its spare room before the
    characters.  Here it is a record with the block of characters, of which
    some may never have been written; an access outside the block or the use of
    a NULL result is [None], a NULL that the function returns is [Some None].
    [size_t] computations wrap at 64 bits and the two fields at 32. *)

From S2P Require Import Prelude Common Util Buffer.

Record sds := MkSds { len_ : Z; free_ : Z; buf_ : list (option byte) }.

(** ** Access to the characters *)

Definition get (b : list (option byte)) (i : Z) : option byte :=
  if i <? 0 then None else c ← b !! Z.to_nat i; c.

Definition get_all (b : list (option byte)) (i n : Z) : option (list (option byte)) :=
  if (0 <=? i) && (0 <=? n) && (i + n <=? zlen b) then Some (take (Z.to_nat n) (drop (Z.to_nat i) b)) else None.

Definition put_all (b : list (option byte)) (i : Z) (l : list (option byte)) : option (list (option byte)) :=
  if (0 <=? i) && (i + zlen l <=? zlen b) then Some (splice (Z.to_nat i) l b) else None.

(** [sizeof(struct sdshdr)], [SDS_MAX_PREALLOC] *)
Definition header : Z := 8.
Definition SDS_MAX_PREALLOC : Z := 1024 * 1024.

Definition sdslen (s : sds) : Z := u64 (len_ s).
Definition sdsavail (s : sds) : Z := u64 (free_ s).

Section sds.
(** Whether an allocation of this many bytes succeeds. *)
Variable alloc_ok : Z -> bool.

(** ** Creation *)

(** [sdsnewlen]; [init] is what [initlen] bytes are copied from. *)
Definition sdsnewlen (init : option (list (option byte))) (initlen : Z) : option (option sds) :=
  let size := u64 (header + initlen + 1) in
  if alloc_ok size then
    let block := replicate (Z.to_nat (size - header)) (match init with Some _ => None | None => Some NUL end) in
    block ← match init with
            | Some data => if initlen =? 0 then Some block else l ← get_all data 0 initlen; put_all block 0 l
            | None => Some block
            end;
    block ← put_all block initlen [Some NUL];
    Some (Some (MkSds (i32 initlen) 0 block))
  else Some None.

Definition sdsempty : option (option sds) := sdsnewlen (Some [Some NUL]) 0.

(** A C string, with its NUL. *)
Definition cstring (s : bytes) : list (option byte) := written (cstr s) ++ [Some NUL].

Definition sdsnew (init : option bytes) : option (option sds) :=
  sdsnewlen (cstring <$> init) (match init with None => 0 | Some s => Z.of_nat (strlen s) end).

Definition sdsdup (s : sds) : option (option sds) := sdsnewlen (Some (buf_ s)) (sdslen s).

(** ** Length and room *)

Definition sdsupdatelen (s : sds) : option sds :=
  t ← read_cstr (buf_ s);
  let reallen := i32 (zlen t) in
  Some (MkSds reallen (i32 (free_ s + (len_ s - reallen))) (buf_ s)).

Definition sdsclear (s : sds) : option sds :=
  b ← put_all (buf_ s) 0 [Some NUL]; Some (MkSds 0 (i32 (free_ s + len_ s)) b).

Definition sdsMakeRoomFor (s : sds) (addlen : Z) : option (option sds) :=
  if sdsavail s >=? addlen then Some (Some s)
  else
    let len := sdslen s in
    let newlen := u64 (len + addlen) in
    let newlen := if newlen <? SDS_MAX_PREALLOC then u64 (newlen * 2) else u64 (newlen + SDS_MAX_PREALLOC) in
    let size := u64 (header + newlen + 1) in
    if alloc_ok size then
      let n := Z.to_nat (size - header) in
      Some (Some (MkSds (len_ s) (i32 (newlen - len)) (take n (buf_ s ++ replicate n None))))
    else Some None.

(** The result of [realloc] is not tested. *)
Definition sdsRemoveFreeSpace (s : sds) : option sds :=
  let size := u64 (header + len_ s + 1) in
  if alloc_ok size then
    let n := Z.to_nat (size - header) in Some (MkSds (len_ s) 0 (take n (buf_ s ++ replicate n None)))
  else None.

Definition sdsAllocSize (s : sds) : Z := u64 (header + len_ s + free_ s + 1).

Definition sdsIncrLen (s : sds) (incr : Z) : option sds :=
  if free_ s >=? incr then
    let len := i32 (len_ s + incr) in
    let free := i32 (free_ s - incr) in
    if free >=? 0 then b ← put_all (buf_ s) len [Some NUL]; Some (MkSds len free b) else None
  else None.

Definition sdsgrowzero (s : sds) (len : Z) : option (option sds) :=
  let curlen := u64 (len_ s) in
  if len <=? curlen then Some (Some s)
  else
    r ← sdsMakeRoomFor s (u64 (len - curlen));
    match r with
    | None => Some None
    | Some s =>
        b ← put_all (buf_ s) curlen (replicate (Z.to_nat (len - curlen + 1)) (Some NUL));
        let totlen := u64 (len_ s + free_ s) in
        Some (Some (MkSds (i32 len) (i32 (totlen - len)) b))
    end.

(** ** Concatenation and copy *)

Definition sdscatlen (s : sds) (t : list (option byte)) (len : Z) : option (option sds) :=
  let curlen := sdslen s in
  r ← sdsMakeRoomFor s len;
  match r with
  | None => Some None
  | Some s =>
      l ← get_all t 0 len;
      b ← put_all (buf_ s) curlen l;
      b ← put_all b (curlen + len) [Some NUL];
      Some (Some (MkSds (i32 (curlen + len)) (i32 (free_ s - len)) b))
  end.

Definition sdscat (s : sds) (t : bytes) : option (option sds) := sdscatlen s (cstring t) (Z.of_nat (strlen t)).

(** [t] is another string. *)
Definition sdscatsds (s t : sds) : option (option sds) := sdscatlen s (buf_ t) (sdslen t).

Definition sdscpylen (s : sds) (t : list (option byte)) (len : Z) : option (option sds) :=
  let totlen := u64 (free_ s + len_ s) in
  r ← (if totlen <? len then sdsMakeRoomFor s (u64 (len - len_ s)) else Some (Some s));
  match r with
  | None => Some None
  | Some s =>
      let totlen := u64 (free_ s + len_ s) in
      l ← get_all t 0 len;
      b ← put_all (buf_ s) 0 l;
      b ← put_all b len [Some NUL];
      Some (Some (MkSds (i32 len) (i32 (totlen - len)) b))
  end.

Definition sdscpy (s : sds) (t : bytes) : option (option sds) := sdscpylen s (cstring t) (Z.of_nat (strlen t)).

(** [sdscatvprintf] when the format yields [text]. *)
Definition sdscatvprintf (s : sds) (text : bytes) : option (option sds) :=
  r ← print_loop alloc_ok 60 16 text;
  match r with Some t => sdscat s t | None => Some None end.

(** ** Parts *)

(** [strchr(cset, c)], which also finds the NUL. *)
Definition in_set (cset : bytes) (c : byte) : bool := bool_decide (c = NUL \/ c ∈ cstr cset).

Fixpoint trim_front (fuel : nat) (b : list (option byte)) (cset : bytes) (sp last : Z) : option Z :=
  if sp <=? last then
    c ← get b sp;
    match fuel with
    | O => None
    | S fuel => if in_set cset c then trim_front fuel b cset (sp + 1) last else Some sp
    end
  else Some sp.

Fixpoint trim_back (fuel : nat) (b : list (option byte)) (cset : bytes) (ep : Z) : option Z :=
  if ep >? 0 then
    c ← get b ep;
    match fuel with
    | O => None
    | S fuel => if in_set cset c then trim_back fuel b cset (ep - 1) else Some ep
    end
  else Some ep.

(** [memmove] to the beginning, the NUL and the fields, of [sdstrim] and
    [sdsrange]. *)
Definition keep_part (s : sds) (from n : Z) (move : bool) : option sds :=
  b ← (if move then l ← get_all (buf_ s) from n; put_all (buf_ s) 0 l else Some (buf_ s));
  b ← put_all b n [Some NUL];
  Some (MkSds (i32 n) (i32 (free_ s + (len_ s - n))) b).

Definition sdstrim (s : sds) (cset : bytes) : option sds :=
  let last := sdslen s - 1 in
  let fuel := S (Z.to_nat (sdslen s)) in
  sp ← trim_front fuel (buf_ s) cset 0 last;
  ep ← trim_back fuel (buf_ s) cset last;
  let n := if sp >? ep then 0 else ep - sp + 1 in
  keep_part s sp n (negb (sp =? 0)).

Definition sdsrange (s : sds) (start last : Z) : option sds :=
  let len := sdslen s in
  if len =? 0 then Some s
  else
    let from_end i := if i <? 0 then Z.max 0 (i32 (len + i)) else i in
    let start := from_end start in
    let last := from_end last in
    let count last := if start >? last then 0 else u64 (i32 (i32 (last - start) + 1)) in
    let newlen := count last in
    let '(start, newlen) :=
      if newlen =? 0 then (0, newlen)
      else if start >=? i32 len then (start, 0)
      else if last >=? i32 len then (start, count (i32 (len - 1)))
      else (start, newlen) in
    keep_part s start newlen (negb (start =? 0) && negb (newlen =? 0)).

(** ** Characters *)

(** A loop that replaces each of the characters. *)
Definition each_char (f : byte -> byte) (s : sds) : option sds :=
  l ← get_all (buf_ s) 0 (sdslen s);
  l ← mapM (fun c => c) l;
  b ← put_all (buf_ s) 0 (written (map f l));
  Some (MkSds (len_ s) (free_ s) b).

Definition sdstolower (s : sds) : option sds := each_char tolower s.
Definition sdstoupper (s : sds) : option sds := each_char toupper s.

(** The inner loop of [sdsmapchars] over the [setlen] pairs. *)
Fixpoint map_char (pairs : list (byte * byte)) (c : byte) : byte :=
  match pairs with [] => c | (x, y) :: pairs => if decide (c = x) then y else map_char pairs c end.

Definition sdsmapchars (s : sds) (pairs : list (byte * byte)) : option sds := each_char (map_char pairs) s.

Definition sdscmp (s1 s2 : sds) : option Z :=
  let l1 := sdslen s1 in
  let l2 := sdslen s2 in
  a ← get_all (buf_ s1) 0 (Z.min l1 l2); a ← mapM (fun c => c) a;
  b ← get_all (buf_ s2) 0 (Z.min l1 l2); b ← mapM (fun c => c) b;
  let cmp := memcmp a b in
  Some (if cmp =? 0 then i32 (l1 - l2) else cmp).

Definition sdsfromlonglong (value : Z) : option (option sds) :=
  let t := ll_text value in sdsnewlen (Some (written t)) (zlen t).

(** ** Quoting *)

Definition hex_char (d : Z) : byte := byte_of_Z (if d <? 10 then 48 + d else 87 + d).

(** What [sdscatrepr] appends for a character; the format "%02x" of a
    character gives two digits. *)
Definition repr_char (c : byte) : bytes :=
  if decide (c = "\"%char) then [ "\"%char; c]
  else if decide (c = ascii_of_nat 34) then [ "\"%char; c]
  else if decide (c = LF) then bs "\n"
  else if decide (c = CR) then bs "\r"
  else if decide (c = "009"%char) then bs "\t"
  else if decide (c = "007"%char) then bs "\a"
  else if decide (c = "008"%char) then bs "\b"
  else if isprint c then [c]
  else bs "\x" ++ [hex_char (uchar c / 16); hex_char (uchar c mod 16)].

(** The calls that append them: [sdscatprintf] where the source formats. *)
Definition cat_char (s : sds) (c : byte) : option (option sds) :=
  if decide (c ∈ [LF; CR; "009"%char; "007"%char; "008"%char]) then sdscatlen s (written (repr_char c)) 2
  else sdscatvprintf s (repr_char c).

(** A NULL string is used by the next call. *)
Fixpoint cat_chars (s : sds) (p : bytes) : option sds :=
  match p with
  | [] => Some s
  | c :: p => r ← cat_char s c; s ← r; cat_chars s p
  end.

Definition quote : byte := ascii_of_nat 34.

Definition sdscatrepr (s : sds) (p : bytes) : option (option sds) :=
  r ← sdscatlen s (written [quote]) 1; s ← r; s ← cat_chars s p; sdscatlen s (written [quote]) 1.

Definition is_hex_digit (c : byte) : bool :=
  let v := uchar c in
  ((48 <=? v) && (v <=? 57)) || ((97 <=? v) && (v <=? 102)) || ((65 <=? v) && (v <=? 70)).

Definition hex_digit_to_int (c : byte) : Z :=
  let v := uchar c in
  if (48 <=? v) && (v <=? 57) then v - 48
  else if (97 <=? v) && (v <=? 102) then v - 87
  else if (65 <=? v) && (v <=? 70) then v - 55
  else 0.

(** ** Splitting a line into arguments *)

(** [p] is what is left of the line; [p[k]], where the NUL that ends the line
    is the last that can be read. *)
Definition peek (p : bytes) (k : nat) : option byte := (p ++ [NUL]) !! k.

Definition cat1 (current : sds) (c : byte) : option sds := r ← sdscatlen current (written [c]) 1; r.

Inductive quoting : Type := Unquoted | Double | Single.

(** One round of the loop over a token: the characters read before the
    [p++] at its end, or an error of the quotes. *)
Inductive round : Type :=
| RNext (skip : nat) (q : quoting) (current : sds)
| RDone (skip : nat) (current : sds)
| RErr (current : sds).

(** A closing quote. *)
Definition close_quote (p : bytes) (current : sds) : option round :=
  x ← peek p 1;
  Some (if bool_decide (x <> NUL) && negb (isspace x) then RErr current else RDone 0 current).

Definition token_double (p : bytes) (current : sds) : option round :=
  c ← peek p 0;
  let plain :=
    if decide (c = quote) then close_quote p current
    else if decide (c = NUL) then Some (RErr current)
    else s ← cat1 current c; Some (RNext 0 Double s) in
  if decide (c = "\"%char) then
    x ← peek p 1;
    let escaped :=
      if decide (x = NUL) then plain
      else
        let y := if decide (x = "n"%char) then LF else if decide (x = "r"%char) then CR
                 else if decide (x = "t"%char) then "009"%char else if decide (x = "b"%char) then "008"%char
                 else if decide (x = "a"%char) then "007"%char else x in
        s ← cat1 current y; Some (RNext 1 Double s) in
    if decide (x = "x"%char) then
      h ← peek p 2;
      if is_hex_digit h then
        l ← peek p 3;
        if is_hex_digit l then
          s ← cat1 current (byte_of_Z (hex_digit_to_int h * 16 + hex_digit_to_int l)); Some (RNext 3 Double s)
        else escaped
      else escaped
    else escaped
  else plain.

Definition token_single (p : bytes) (current : sds) : option round :=
  c ← peek p 0;
  let plain :=
    if decide (c = "'"%char) then close_quote p current
    else if decide (c = NUL) then Some (RErr current)
    else s ← cat1 current c; Some (RNext 0 Single s) in
  if decide (c = "\"%char) then
    x ← peek p 1;
    if decide (x = "'"%char) then s ← cat1 current x; Some (RNext 1 Single s) else plain
  else plain.

Definition token_plain (p : bytes) (current : sds) : option round :=
  c ← peek p 0;
  if decide (c ∈ [" "%char; LF; CR; "009"%char; NUL]) then Some (RDone 0 current)
  else if decide (c = quote) then Some (RNext 0 Double current)
  else if decide (c = "'"%char) then Some (RNext 0 Single current)
  else s ← cat1 current c; Some (RNext 0 Unquoted s).

(** The loop over a token; after [skip] more characters, [if ( *p) p++]. *)
Fixpoint get_token (fuel : nat) (q : quoting) (p : bytes) (current : sds) : option (option (bytes * sds)) :=
  match fuel with
  | O => None
  | S fuel =>
      r ← match q with
          | Double => token_double p current
          | Single => token_single p current
          | Unquoted => token_plain p current
          end;
      match r with
      | RNext skip q s => get_token fuel q (drop (S skip) p) s
      | RDone skip s => Some (Some (drop (S skip) p, s))
      | RErr _ => Some None
      end
  end.

Fixpoint skip_blanks (p : bytes) : bytes :=
  match p with
  | c :: p' => if bool_decide (c <> NUL) && isspace c then skip_blanks p' else p
  | [] => []
  end.

(** The loop over the line; the results of [sdsempty], [sdscatlen] and
    [realloc] are not tested, and running out of memory there is taken as
    undefined.  [vector] is NULL as long as it has no tokens. *)
Fixpoint split_loop (fuel : nat) (p : bytes) (vector : list sds) : option (option (list sds)) :=
  match fuel with
  | O => None
  | S fuel =>
      match skip_blanks p with
      | [] => if bool_decide (vector = []) && negb (alloc_ok 8) then Some None else Some (Some vector)
      | p =>
          current ← mjoin sdsempty;
          r ← get_token (S (length p)) Unquoted p current;
          match r with
          | None => Some None
          | Some (p, current) =>
              if alloc_ok ((zlen vector + 1) * 8) then split_loop fuel p (vector ++ [current]) else None
          end
      end
  end.

(** [sdssplitargs] on a C string. *)
Definition sdssplitargs (line : bytes) : option (option (list sds)) := split_loop (S (length (cstr line))) (cstr line) [].

(** ** Splitting at a separator *)

(** [tokens[elements] = sdsnewlen(s+start, n)] in an array of [slots]; NULL
    frees what there is. *)
Definition add_token (s : bytes) (start n slots : Z) (tokens : list sds) : option (option (list sds)) :=
  if zlen tokens <? slots then
    l ← get_all (written s) start n;
    t ← sdsnewlen (Some l) n;
    Some (match t with Some t => Some (tokens ++ [t]) | None => None end)
  else None.

Fixpoint split_at_sep (fuel : nat) (s sep : bytes) (j start slots : Z) (tokens : list sds) : option (option (list sds)) :=
  if j <? zlen s - (zlen sep - 1) then
    match fuel with
    | O => None
    | S fuel =>
        let full := slots <? zlen tokens + 2 in
        let slots := if full then slots * 2 else slots in
        if full && negb (alloc_ok (8 * slots)) then Some None
        else
          l ← get_all (written s) j (zlen sep);
          if bool_decide (l = written sep) then
            r ← add_token s start (j - start) slots tokens;
            match r with
            | Some tokens => split_at_sep fuel s sep (j + zlen sep) (j + zlen sep) slots tokens
            | None => Some None
            end
          else split_at_sep fuel s sep (j + 1) start slots tokens
    end
  else add_token s start (zlen s - start) slots tokens.

(** [sdssplitlen]; the count is the length of the list. *)
Definition sdssplitlen (s sep : bytes) : option (option (list sds)) :=
  if zlen sep <? 1 then Some None
  else if negb (alloc_ok (8 * 5)) then Some None
  else if zlen s =? 0 then Some (Some [])
  else split_at_sep (S (length s)) s sep 0 0 5 [].
End sds.

(** ** Examples *)

Definition plenty (n : Z) : bool := true.
Definition text_of (s : sds) : option bytes := l ← get_all (buf_ s) 0 (sdslen s); mapM (fun c => c) l.
Definition texts_of (r : option (option (list sds))) : option (option (list (option bytes))) := option_map (option_map (map text_of)) r.

(** [memcmp(x, t, n + 1) == 0], the NUL of the literal included. *)
Definition has (s : sds) (t : bytes) : bool := bool_decide (get_all (buf_ s) 0 (zlen t + 1) = Some (written t ++ [Some NUL])).

(** The self test of sds.c, [main] under [SDS_TEST_MAIN]: the conditions in
    their order, as long as memory can be had. *)
Definition test_main : option (list bool) :=
  x ← mjoin (sdsnew plenty (Some (bs "foo")));
  let t1 := (sdslen x =? 3) && has x (bs "foo") in
  x ← mjoin (sdsnewlen plenty (Some (cstring (bs "foo"))) 2);
  let t2 := (sdslen x =? 2) && has x (bs "fo") in
  x ← mjoin (sdscat plenty x (bs "bar"));
  let t3 := (sdslen x =? 5) && has x (bs "fobar") in
  x ← mjoin (sdscpy plenty x (bs "a"));
  let t4 := (sdslen x =? 1) && has x (bs "a") in
  x ← mjoin (sdscpy plenty x (bs "xyzxxxxxxxxxxyyyyyyyyyykkkkkkkkkk"));
  let t5 := (sdslen x =? 33) && has x (bs "xyzxxxxxxxxxxyyyyyyyyyykkkkkkkkkk") in
  e ← mjoin (sdsempty plenty); x ← mjoin (sdscatvprintf plenty e (ll_text 123));
  let t6 := (sdslen x =? 3) && has x (bs "123") in
  x ← mjoin (sdsnew plenty (Some (bs "xxciaoyyy"))); x ← sdstrim x (bs "xy");
  let t7 := (sdslen x =? 4) && has x (bs "ciao") in
  let range start last t := d ← mjoin (sdsdup plenty x); y ← sdsrange d start last; Some ((sdslen y =? zlen t) && has y t) in
  t8 ← range 1 1 (bs "i"); t9 ← range 1 (-1) (bs "iao"); t10 ← range (-2) (-1) (bs "ao");
  t11 ← range 2 1 (bs ""); t12 ← range 1 100 (bs "iao"); t13 ← range 100 100 (bs "");
  let compare a b := x ← mjoin (sdsnew plenty (Some a)); y ← mjoin (sdsnew plenty (Some b)); sdscmp x y in
  c1 ← compare (bs "foo") (bs "foa"); c2 ← compare (bs "bar") (bs "bar"); c3 ← compare (bs "aar") (bs "bar");
  x ← mjoin (sdsnew plenty (Some (bs "0")));
  let t17 := (len_ x =? 1) && (free_ x =? 0) in
  x ← mjoin (sdsMakeRoomFor plenty x 1);
  let t18 := (len_ x =? 1) && (free_ x >? 0) in
  let oldfree := free_ x in
  b ← put_all (buf_ x) 1 [Some "1"%char]; x ← sdsIncrLen (MkSds (len_ x) (free_ x) b) 1;
  c ← get_all (buf_ x) 0 2;
  let t19 := bool_decide (c = [Some "0"%char; Some "1"%char]) in
  Some [t1; t2; t3; t4; t5; t6; t7; t8; t9; t10; t11; t12; t13; c1 >? 0; c2 =? 0; c3 <? 0; t17; t18; t19; len_ x =? 2; free_ x =? oldfree - 1].

Example self_test_passes : forallb id <$> test_main = Some true.
Proof. vm_compute. reflexivity. Qed.
Example split_example : texts_of (sdssplitlen plenty (bs "foo_-_bar_-_") (bs "_-_")) = Some (Some [Some (bs "foo"); Some (bs "bar"); Some []]).
Proof. vm_compute. reflexivity. Qed.
Example args_example : texts_of (sdssplitargs plenty (bs " foo 'a\'b' bar\x ")) = Some (Some [Some (bs "foo"); Some (bs "a'b"); Some (bs "bar\x")]).
Proof. vm_compute. reflexivity. Qed.
Example trim_example : (s ← mjoin (sdsnew plenty (Some (bs "xxciaoyyy"))); t ← sdstrim s (bs "xy"); text_of t) = Some (bs "ciao").
Proof. vm_compute. reflexivity. Qed.
Example range_example : (s ← mjoin (sdsnew plenty (Some (bs "ciao"))); t ← sdsrange s (-2) (-1); text_of t) = Some (bs "ao").
Proof. vm_compute. reflexivity. Qed.

(** ** The text of a string *)

(** [s] holds [v]: the fields and the NUL agree with it, and what is spare is
    there. *)
Record sds_is (s : sds) (v : bytes) : Prop := {
  si_len : len_ s = zlen v;
  si_free : 0 <= free_ s;
  si_size : zlen v + free_ s < 2 ^ 31 - 1;
  si_buf : exists t, buf_ s = written v ++ Some NUL :: t /\ zlen t = free_ s;
}.

(** Texts that keep every size an [int]. *)
Definition fits (n : Z) : Prop := n < 2 ^ 30.

Lemma zlen_written v : zlen (written v) = zlen v.
Proof. unfold written. by rewrite length_fmap. Qed.

Lemma get_all_ok b i n : 0 <= i -> 0 <= n -> i + n <= zlen b -> get_all b i n = Some (take (Z.to_nat n) (drop (Z.to_nat i) b)).
Proof. intros. unfold get_all. by rewrite !(proj2 (Z.leb_le _ _)) by lia. Qed.

Lemma put_all_ok b i l : 0 <= i -> i + zlen l <= zlen b -> put_all b i l = Some (splice (Z.to_nat i) l b).
Proof. intros. unfold put_all. by rewrite !(proj2 (Z.leb_le _ _)) by lia. Qed.

Lemma put_at (a x c l : list (option byte)) i : i = zlen a -> length l = length x -> put_all (a ++ x ++ c) i l = Some (a ++ l ++ c).
Proof.
  intros -> Hl. rewrite put_all_ok by (rewrite ?length_app; lia). unfold splice. rewrite Nat2Z.id, take_app_length, Hl.
  by rewrite <- drop_drop, drop_app_length, drop_app_length.
Qed.

Lemma put_at_end (a c l : list (option byte)) i : i = zlen a -> (length l <= length c)%nat ->
  put_all (a ++ c) i l = Some (a ++ l ++ drop (length l) c).
Proof. intros Hi Hl. rewrite <- (take_drop (length l) c) at 1. apply put_at; [done|]. rewrite length_take. lia. Qed.

(** A text is a C string, or goes on behind its first NUL. *)
Lemma cstr_split v : cstr v = v \/ exists u, v = cstr v ++ NUL :: u.
Proof.
  induction v as [|c v IH]; [by left|]. cbn. destruct (decide (c = NUL)) as [->|]; [right; by exists v|].
  destruct IH as [->|(u & E)]; [by left|right]. exists u. cbn. by rewrite <- E.
Qed.

Lemma sds_len s v : sds_is s v -> sdslen s = zlen v.
Proof. intros [E ? ? _]. unfold sdslen. rewrite E. apply u64_small. unfold in_u64. lia. Qed.

Lemma sds_avail s v : sds_is s v -> sdsavail s = free_ s.
Proof. intros [? ? ? _]. apply u64_small. unfold in_u64. lia. Qed.

Lemma sds_text s v : sds_is s v -> get_all (buf_ s) 0 (zlen v) = Some (written v).
Proof.
  intros [_ _ _ (t & -> & _)]. rewrite get_all_ok by (rewrite ?length_app, <- ?zlen_written; lia).
  by rewrite Nat2Z.id, drop_0, <- (length_fmap Some v), take_app_length.
Qed.

(** The block after a text and its NUL were written at [i]. *)
Lemma put_text (b l : list (option byte)) i : 0 <= i -> i + zlen l + 1 <= zlen b ->
  exists b1 t, put_all b i l = Some b1 /\ put_all b1 (i + zlen l) [Some NUL] = Some (take (Z.to_nat i) b ++ l ++ Some NUL :: t)
    /\ zlen t = zlen b - i - zlen l - 1.
Proof.
  intros Hi Hb. assert (exists x y z w, b = x ++ y ++ z :: w /\ zlen x = i /\ length y = length l /\ x = take (Z.to_nat i) b) as
    (x & y & z & w & -> & Hx & Hy & Hxt).
  { exists (take (Z.to_nat i) b), (take (length l) (drop (Z.to_nat i) b)).
    destruct (drop (length l) (drop (Z.to_nat i) b)) as [|z w] eqn:E.
    - apply (f_equal length) in E. rewrite !length_drop in E. cbn in E. lia.
    - exists z, w. rewrite <- E, !take_drop, !length_take, length_drop. split_and!; [done|lia|lia|done]. }
  exists (x ++ l ++ z :: w), w. rewrite (put_at x y (z :: w)) by done. split; [done|]. rewrite <- Hxt. split.
  - replace (x ++ l ++ z :: w) with ((x ++ l) ++ [z] ++ w) by (by rewrite <- app_assoc).
    rewrite put_at by (rewrite ?length_app; cbn; lia). by rewrite <- app_assoc.
  - rewrite !length_app. cbn. lia.
Qed.

Section correct.
Variable alloc_ok : Z -> bool.

(** A result is NULL only when memory runs out. *)
Definition holds (r : option (option sds)) (v : bytes) : Prop :=
  exists s, r = Some s /\ match s with Some s => sds_is s v | None => exists n, alloc_ok n = false end.

Lemma sdsnewlen_ok v (data : list (option byte)) : fits (zlen v) -> take (length v) data = written v ->
  holds (sdsnewlen alloc_ok (Some data) (zlen v)) v.
Proof.
  intros Hv Hd. unfold fits in Hv. unfold sdsnewlen, header. rewrite u64_small by (unfold in_u64; lia).
  destruct (alloc_ok _) eqn:Ea; [|eexists; split; [done|by eexists]].
  replace (Z.to_nat (8 + zlen v + 1 - 8)) with (length v + 1)%nat by lia.
  assert (exists b t, (if zlen v =? 0 then Some (replicate (length v + 1) None) else l ← get_all data 0 (zlen v); put_all (replicate (length v + 1) None) 0 l)
    = Some b /\ put_all b (zlen v) [Some NUL] = Some (written v ++ Some NUL :: t) /\ zlen t = 0) as (b & t & E1 & E2 & Ht).
  { destruct (Z.eqb_spec (zlen v) 0) as [E|E].
    - destruct v; [|done]. eexists _, []. split_and!; [done|done|done].
    - assert (zlen v <= zlen data) as Hlen.
      { apply (f_equal length) in Hd. unfold written in Hd. rewrite length_take, length_fmap in Hd. lia. }
      rewrite get_all_ok by lia. rewrite Nat2Z.id, drop_0, Hd. cbn [mbind option_bind].
      destruct (put_text (replicate (length v + 1) None) (written v) 0) as (b & t & E1 & E2 & Ht);
        [lia|rewrite zlen_written, length_replicate; lia|]. exists b, t. rewrite zlen_written, length_replicate in *.
      split_and!; [done|exact E2|lia]. }
  rewrite E1. cbn [mbind option_bind]. rewrite E2. cbn [mbind option_bind]. eexists. split; [done|].
  split; cbn; [apply i32_small; unfold in_i32; lia|lia|lia|by exists t].
Qed.

Lemma sdsMakeRoomFor_ok s v n : sds_is s v -> 0 <= n -> fits (zlen v + n) ->
  exists r, sdsMakeRoomFor alloc_ok s n = Some r
    /\ match r with Some s' => sds_is s' v /\ n <= free_ s' /\ free_ s <= free_ s' | None => exists n, alloc_ok n = false end.
Proof.
  intros Hs Hn Hf. unfold fits in Hf. pose proof Hs as [Hlen Hfree Hsize (t & Hbuf & Ht)]. unfold sdsMakeRoomFor.
  rewrite (sds_len _ _ Hs), (sds_avail _ _ Hs), Z.geb_leb.
  destruct (Z.leb_spec n (free_ s)); [by eexists|].
  unfold SDS_MAX_PREALLOC, header. rewrite (u64_small (zlen v + n)) by (unfold in_u64; lia).
  set (newlen := if _ <? _ then _ else _).
  assert (zlen v + n <= newlen < 2 ^ 31 - 1) as Hnew.
  { subst newlen. destruct (Z.ltb_spec (zlen v + n) (1024 * 1024)); rewrite u64_small by (unfold in_u64; lia); lia. }
  clearbody newlen. rewrite u64_small by (unfold in_u64; lia). destruct (alloc_ok _) eqn:Ea; [|eexists; split; [done|by eexists]].
  eexists. split; [done|]. rewrite i32_small by (unfold in_i32; lia). split; [|cbn; lia].
  assert (length (buf_ s) = length v + 1 + length t)%nat as Hb.
  { rewrite Hbuf, length_app. unfold written. rewrite length_fmap. cbn. lia. }
  split; cbn; [done|lia|lia|]. rewrite take_app_ge by lia. rewrite take_replicate, Nat.min_l by lia.
  exists (t ++ replicate (Z.to_nat (8 + newlen + 1 - 8) - length (buf_ s)) None).
  rewrite length_app, length_replicate. split; [rewrite Hbuf at 1; by rewrite <- app_assoc|]. rewrite Hb. lia.
Qed.

Lemma sds_block_length s v : sds_is s v -> zlen (buf_ s) = zlen v + free_ s + 1.
Proof. intros [_ _ _ (t & -> & Ht)]. rewrite length_app. unfold written. rewrite length_fmap. cbn. lia. Qed.

Lemma sds_take s v n : sds_is s v -> (n <= length v)%nat -> take n (buf_ s) = written (take n v).
Proof.
  intros [_ _ _ (t & -> & _)] Hn. rewrite take_app_le by (unfold written; by rewrite length_fmap). symmetry. apply fmap_take.
Qed.

(** A text written at [i] behind what stays, with its NUL and the new fields. *)
Lemma write_back s v t i : sds_is s v -> (i <= length v)%nat -> zlen t + Z.of_nat i <= zlen v + free_ s ->
  exists b1 b2, put_all (buf_ s) (Z.of_nat i) (written t) = Some b1 /\ put_all b1 (Z.of_nat i + zlen t) [Some NUL] = Some b2
    /\ sds_is (MkSds (i32 (Z.of_nat i + zlen t)) (i32 (zlen v + free_ s - (Z.of_nat i + zlen t))) b2) (take i v ++ t).
Proof.
  intros Hs Hi Ht. pose proof (sds_block_length _ _ Hs) as Hb. pose proof Hs as [_ Hfree Hsize _].
  destruct (put_text (buf_ s) (written t) (Z.of_nat i)) as (b1 & r & E1 & E2 & Hr); [lia|rewrite zlen_written; lia|].
  rewrite zlen_written in *. exists b1. eexists. split; [exact E1|]. split; [exact E2|].
  rewrite Nat2Z.id, (sds_take s v i) by done.
  split; cbn [len_ free_ buf_]; rewrite ?length_app, ?length_take; [rewrite i32_small by (unfold in_i32; lia); lia|
    rewrite i32_small by (unfold in_i32; lia); lia|rewrite i32_small by (unfold in_i32; lia); lia|].
  exists r. rewrite written_app, <- app_assoc. split; [done|]. rewrite i32_small by (unfold in_i32; lia). lia.
Qed.

Lemma sdscatlen_ok s v (data : list (option byte)) t : sds_is s v -> take (length t) data = written t -> fits (zlen v + zlen t) ->
  holds (sdscatlen alloc_ok s data (zlen t)) (v ++ t).
Proof.
  intros Hs Hd Hf. unfold sdscatlen. rewrite (sds_len _ _ Hs).
  destruct (sdsMakeRoomFor_ok s v (zlen t) Hs) as (r & E & Hr); [lia|done|]. rewrite E. cbn [mbind option_bind].
  destruct r as [s'|]; [|by eexists]. destruct Hr as (Hs' & Hroom & _).
  assert (zlen t <= zlen data) as Hlen.
  { apply (f_equal length) in Hd. unfold written in Hd. rewrite length_take, length_fmap in Hd. lia. }
  rewrite get_all_ok by lia. rewrite Nat2Z.id, drop_0, Hd. cbn [mbind option_bind].
  destruct (write_back s' v t (length v) Hs') as (b1 & b2 & E1 & E2 & H); [lia|lia|]. rewrite E1. cbn [mbind option_bind]. rewrite E2. cbn [mbind option_bind].
  eexists. split; [done|]. rewrite take_ge in H by lia. by replace (zlen v + free_ s' - (zlen v + zlen t)) with (free_ s' - zlen t) in H by lia.
Qed.

Lemma cstring_take t : take (length (cstr t)) (cstring t) = written (cstr t).
Proof. unfold cstring. rewrite <- (length_fmap Some (cstr t)). apply take_app_length. Qed.

Lemma sdscat_ok s v t : sds_is s v -> fits (zlen v + zlen (cstr t)) -> holds (sdscat alloc_ok s t) (v ++ cstr t).
Proof. intros Hs Hf. apply sdscatlen_ok; [done|apply cstring_take|done]. Qed.

Lemma sdscatsds_ok s v s2 t : sds_is s v -> sds_is s2 t -> fits (zlen v + zlen t) -> holds (sdscatsds alloc_ok s s2) (v ++ t).
Proof.
  intros Hs Hs2 Hf. unfold sdscatsds. rewrite (sds_len _ _ Hs2). apply sdscatlen_ok; [done| |done].
  by rewrite (sds_take s2 t), take_ge by done.
Qed.

Lemma sdscpylen_ok s v (data : list (option byte)) t : sds_is s v -> take (length t) data = written t -> fits (zlen v + zlen t) ->
  holds (sdscpylen alloc_ok s data (zlen t)) t.
Proof.
  intros Hs Hd Hf. pose proof Hs as [Hlen Hfree Hsize _]. unfold fits in Hf. unfold sdscpylen. rewrite Hlen, u64_small by (unfold in_u64; lia).
  assert (zlen t <= zlen data) as Hle.
  { apply (f_equal length) in Hd. unfold written in Hd. rewrite length_take, length_fmap in Hd. lia. }
  assert (exists r, (if free_ s + zlen v <? zlen t then sdsMakeRoomFor alloc_ok s (u64 (zlen t - zlen v)) else Some (Some s)) = Some r
    /\ match r with Some s' => sds_is s' v /\ zlen t <= zlen v + free_ s' | None => exists n, alloc_ok n = false end) as (r & E & Hr).
  { destruct (Z.ltb_spec (free_ s + zlen v) (zlen t)).
    - rewrite u64_small by (unfold in_u64; lia). destruct (sdsMakeRoomFor_ok s v (zlen t - zlen v) Hs) as (r & E & Hr); [lia|unfold fits; lia|].
      exists r. split; [done|]. destruct r; [|done]. split; [tauto|lia].
    - eexists. split; [done|]. split; [done|lia]. }
  rewrite E. cbn [mbind option_bind]. destruct r as [s'|]; [|by eexists]. destruct Hr as (Hs' & Hroom).
  pose proof Hs' as [Hlen' Hfree' Hsize' _]. rewrite Hlen', u64_small by (unfold in_u64; lia).
  rewrite get_all_ok by lia. rewrite Nat2Z.id, drop_0, Hd. cbn [mbind option_bind].
  destruct (write_back s' v t 0 Hs') as (b1 & b2 & E1 & E2 & H); [lia|lia|]. change (Z.of_nat 0) with 0 in *.
  rewrite Z.add_0_l in *. rewrite E1. cbn [mbind option_bind]. rewrite E2. cbn [mbind option_bind]. eexists. split; [done|]. by rewrite (Z.add_comm (free_ s')).
Qed.

Lemma sdsclear_ok s v : sds_is s v -> exists s', sdsclear s = Some s' /\ sds_is s' [].
Proof.
  intros Hs. pose proof Hs as [Hlen Hfree Hsize _]. unfold sdsclear. pose proof (sds_block_length _ _ Hs) as Hb.
  destruct (buf_ s) as [|x t]; [cbn in Hb; lia|]. cbn [length] in Hb.
  rewrite (put_at [] [x] t) by done. cbn [mbind option_bind app]. eexists. split; [done|].
  split; cbn; [done|rewrite i32_small by (unfold in_i32; lia); lia..|]. exists t. split; [done|]. rewrite i32_small by (unfold in_i32; lia). lia.
Qed.

Lemma sdsupdatelen_ok s v : sds_is s v -> exists s', sdsupdatelen s = Some s' /\ sds_is s' (cstr v).
Proof.
  intros Hs. pose proof Hs as [Hlen Hfree Hsize (t & Hb & Ht)]. unfold sdsupdatelen. rewrite Hb, read_cstr_written. cbn [mbind option_bind].
  pose proof (cstr_length_le v) as Hle. rewrite Hlen, (i32_small (zlen (cstr v))) by (unfold in_i32; lia).
  rewrite i32_small by (unfold in_i32; lia). eexists. split; [done|]. split; cbn; [done|lia|lia|].
  destruct (cstr_split v) as [E|(u & E)].
  - exists t. rewrite E. split; [done|lia].
  - exists (written u ++ Some NUL :: t). split.
    + rewrite E at 1. by rewrite written_app, <- app_assoc.
    + apply (f_equal length) in E. rewrite length_app in *. unfold written in *. rewrite length_fmap. cbn in *. lia.
Qed.

Lemma sdsRemoveFreeSpace_ok s v : sds_is s v -> (forall n, alloc_ok n = true) ->
  exists s', sdsRemoveFreeSpace alloc_ok s = Some s' /\ sds_is s' v /\ free_ s' = 0.
Proof.
  intros Hs Hm. pose proof Hs as [Hlen Hfree Hsize (t & Hb & Ht)]. unfold sdsRemoveFreeSpace, header.
  rewrite Hm, Hlen, u64_small by (unfold in_u64; lia). eexists. split; [done|]. split; [|done]. split; cbn; [done|lia|lia|].
  exists []. split; [|done]. replace (Z.to_nat (8 + zlen v + 1 - 8)) with (length (written v) + 1)%nat by (unfold written; rewrite length_fmap; lia).
  rewrite Hb, <- app_assoc, take_app_add. done.
Qed.

Lemma sdsgrowzero_ok s v n : sds_is s v -> fits n -> 0 <= n ->
  holds (sdsgrowzero alloc_ok s n) (v ++ replicate (Z.to_nat n - length v) NUL).
Proof.
  intros Hs Hf Hn. pose proof Hs as [Hlen Hfree Hsize _]. unfold fits in Hf. unfold sdsgrowzero. rewrite Hlen, u64_small by (unfold in_u64; lia).
  destruct (Z.leb_spec n (zlen v)).
  { eexists. split; [done|]. replace (Z.to_nat n - length v)%nat with 0%nat by lia. by rewrite app_nil_r. }
  rewrite u64_small by (unfold in_u64; lia).
  destruct (sdsMakeRoomFor_ok s v (n - zlen v) Hs) as (r & E & Hr); [lia|unfold fits; lia|]. rewrite E. cbn [mbind option_bind].
  destruct r as [s'|]; [|by eexists]. destruct Hr as (Hs' & Hroom & _). pose proof Hs' as [Hlen' Hfree' Hsize' (t & Hb & Ht)].
  rewrite Hb. set (k := (Z.to_nat n - length v)%nat).
  replace (Z.to_nat (n - zlen v + 1)) with (S k) by lia.
  rewrite (put_at_end (written v) (Some NUL :: t)) by (rewrite ?zlen_written; cbn [length]; rewrite ?length_replicate; lia).
  cbn [mbind option_bind]. rewrite Hlen', (u64_small (_ + _)) by (unfold in_u64; lia). eexists. split; [done|].
  split; cbn [len_ free_ buf_]; rewrite ?length_app, ?length_replicate; try (rewrite ?i32_small by (unfold in_i32; lia); lia).
  exists (drop (S k) (Some NUL :: t)). rewrite written_app, <- app_assoc. split.
  - f_equal. replace (S k) with (k + 1)%nat at 1 by lia. rewrite replicate_add, <- app_assoc. f_equal.
    unfold written. by rewrite fmap_replicate.
  - rewrite length_drop. cbn [length]. rewrite i32_small by (unfold in_i32; lia). lia.
Qed.

Lemma keep_part_ok s v from n (move : bool) : sds_is s v -> 0 <= from -> 0 <= n -> from + n <= zlen v -> (move = false -> from = 0 \/ n = 0) ->
  exists s', keep_part s from n move = Some s' /\ sds_is s' (take (Z.to_nat n) (drop (Z.to_nat from) v)).
Proof.
  intros Hs Hf Hn Hle Hmove. pose proof Hs as [Hlen Hfree Hsize _]. pose proof (sds_block_length _ _ Hs) as Hb.
  set (w := take (Z.to_nat n) (drop (Z.to_nat from) v)).
  assert (length w = Z.to_nat n) as Hw by (subst w; rewrite length_take, length_drop; lia).
  assert (exists b, (if move then l ← get_all (buf_ s) from n; put_all (buf_ s) 0 l else Some (buf_ s)) = Some b
    /\ length b = length (buf_ s) /\ take (Z.to_nat n) b = written w) as (b & E & Hbl & Hbt).
  { destruct move.
    - assert (take (Z.to_nat n) (drop (Z.to_nat from) (buf_ s)) = written w) as El.
      { rewrite take_drop_commute, (sds_take s v) by (done || lia). subst w. rewrite take_drop_commute. symmetry. apply fmap_drop. }
      rewrite get_all_ok, El by lia. cbn [mbind option_bind].
      rewrite (put_at_end [] (buf_ s) (written w)) by (done || (unfold written; rewrite length_fmap; lia)).
      eexists. split; [done|]. cbn [app]. assert (length (written w) = Z.to_nat n) as Hww by (unfold written; by rewrite length_fmap).
      split; [rewrite length_app, length_drop; lia|]. rewrite <- Hww. apply take_app_length.
    - exists (buf_ s). split_and!; [done|done|]. rewrite (sds_take s v) by (done || lia). f_equal. subst w.
      destruct Hmove as [->| ->]; done. }
  unfold keep_part. rewrite E. cbn [mbind option_bind].
  rewrite <- (take_drop (Z.to_nat n) b), Hbt. rewrite put_at_end by (rewrite ?zlen_written; cbn [length]; rewrite ?length_drop; lia).
  cbn [mbind option_bind]. eexists. split; [done|]. rewrite Hlen.
  split; cbn [len_ free_ buf_]; try (rewrite ?i32_small by (unfold in_i32; lia); lia).
  eexists. split; [done|]. rewrite !length_drop. cbn [length]. rewrite i32_small by (unfold in_i32; lia). lia.
Qed.

(** *** Trimming *)

Fixpoint drop_set (cset v : bytes) : bytes :=
  match v with c :: v' => if in_set cset c then drop_set cset v' else v | [] => [] end.

Definition trimmed (cset v : bytes) : bytes := rev (drop_set cset (rev (drop_set cset v))).

Lemma get_text s v (i : nat) c : sds_is s v -> v !! i = Some c -> get (buf_ s) (Z.of_nat i) = Some c.
Proof.
  intros [_ _ _ (t & -> & _)] Hi. unfold get. rewrite (proj2 (Z.ltb_ge _ _)), Nat2Z.id by lia.
  rewrite lookup_app_l by (unfold written; rewrite length_fmap; by eapply lookup_lt_Some).
  unfold written. by rewrite list_lookup_fmap, Hi.
Qed.

Lemma trim_front_ok s cset (p q : bytes) fuel : sds_is s (p ++ q) -> (length q < fuel)%nat ->
  trim_front fuel (buf_ s) cset (zlen p) (zlen (p ++ q) - 1) = Some (zlen (p ++ q) - zlen (drop_set cset q)).
Proof.
  revert p fuel. induction q as [|c q IH]; intros p fuel Hs Hf.
  - destruct fuel as [|fuel]; [lia|]. cbn [trim_front]. rewrite app_nil_r, (proj2 (Z.leb_gt _ _)) by lia. cbn. f_equal. lia.
  - destruct fuel as [|fuel]; [lia|]. cbn [trim_front drop_set]. rewrite (proj2 (Z.leb_le _ _)) by (rewrite length_app; cbn [length]; lia).
    rewrite (get_text s (p ++ c :: q) (length p) c Hs) by (by apply list_lookup_middle). cbn [mbind option_bind].
    destruct (in_set cset c).
    + specialize (IH (p ++ [c]) fuel). rewrite <- app_assoc in IH. cbn [app] in IH.
      replace (zlen (p ++ [c])) with (zlen p + 1) in IH by (rewrite length_app; cbn; lia). apply IH; [done|cbn in Hf; lia].
    + f_equal. rewrite length_app. lia.
Qed.

(** From the back the loop stops at the first character at the latest. *)
Lemma trim_back_ok s cset v (q : bytes) fuel : sds_is s v -> q `prefix_of` v -> (length q < fuel)%nat ->
  exists ep, trim_back fuel (buf_ s) cset (zlen q - 1) = Some ep
    /\ (drop_set cset (rev q) <> [] -> ep = zlen (drop_set cset (rev q)) - 1) /\ (drop_set cset (rev q) = [] -> ep <= 0).
Proof.
  revert fuel. induction q as [|c q IH] using rev_ind; intros fuel Hs Hp Hf.
  { destruct fuel; [lia|]. exists (-1). split_and!; [done|done|cbn; lia]. }
  rewrite length_app in Hf. cbn [length] in Hf. destruct fuel as [|fuel]; [lia|]. cbn [trim_back].
  rewrite rev_app_distr. cbn [rev app drop_set]. replace (zlen (q ++ [c]) - 1) with (zlen q) by (rewrite length_app; cbn; lia).
  destruct q as [|d q].
  { cbn [length Z.of_nat Z.gtb Z.compare]. exists 0. split; [done|]. cbn. destruct (in_set cset c); cbn; split; (lia || done). }
  set (q' := d :: q) in *. rewrite (proj2 (Z.gtb_lt _ _)) by (cbn; lia).
  assert (v !! length q' = Some c) as Hc by (destruct Hp as [u ->]; rewrite <- app_assoc; by apply list_lookup_middle).
  rewrite (get_text s v _ c Hs Hc). cbn [mbind option_bind]. destruct (in_set cset c).
  - apply IH; [done|by eapply prefix_app_l|lia].
  - eexists. split; [done|]. split; [intros _|done]. cbn [length]. rewrite length_rev. lia.
Qed.

Lemma drop_set_app cset a b : drop_set cset (a ++ b) = if decide (drop_set cset a = []) then drop_set cset b else drop_set cset a ++ b.
Proof. induction a as [|c a IH]; [done|]. cbn [app drop_set]. by destruct (in_set cset c). Qed.

Lemma drop_set_suffix cset v : exists p, v = p ++ drop_set cset v.
Proof.
  induction v as [|c v [p IH]]; [by exists []|]. cbn [drop_set]. destruct (in_set cset c); [|by exists []].
  exists (c :: p). cbn. by rewrite <- IH.
Qed.

Lemma drop_set_head cset c a v : drop_set cset v = c :: a -> in_set cset c = false.
Proof. induction v as [|d v IH]; [done|]. cbn. destruct (in_set cset d) eqn:E; [done|]. by intros [= <- _]. Qed.

Lemma sdstrim_ok s v cset : sds_is s v -> exists s', sdstrim s cset = Some s' /\ sds_is s' (trimmed cset v).
Proof.
  intros Hs. unfold sdstrim. rewrite (sds_len _ _ Hs), Nat2Z.id.
  pose proof (trim_front_ok s cset [] v (S (length v)) Hs (Nat.lt_succ_diag_r _)) as Ef. change (zlen []) with 0 in Ef. cbn [app] in Ef.
  rewrite Ef. cbn [mbind option_bind].
  destruct (trim_back_ok s cset v v (S (length v)) Hs (reflexivity v) (Nat.lt_succ_diag_r _)) as (ep & Eb & H1 & H2).
  rewrite Eb. cbn [mbind option_bind]. destruct (drop_set_suffix cset v) as [p Hv]. unfold trimmed.
  destruct (drop_set cset v) as [|c a] eqn:Ea.
  - rewrite app_nil_r in Hv. assert (drop_set cset (rev v) = []) as Er.
    { clear -Ea. induction v as [|d v IH]; [done|]. cbn in *. destruct (in_set cset d) eqn:E; [|done].
      rewrite drop_set_app, IH by done. cbn. by rewrite E. }
    specialize (H2 Er). cbn [length Z.of_nat rev drop_set]. rewrite Z.sub_0_r.
    destruct (Z.gtb_spec (zlen v) ep) as [Hgt|Hle].
    + destruct (keep_part_ok s v (zlen v) 0 (negb (zlen v =? 0)) Hs) as (s' & E & H); [lia|lia|lia|by right|]. by exists s'.
    + destruct v as [|d v]; [|cbn in Hle; lia]. cbn in Eb. injection Eb as <-. cbn in Hle. lia.
  - pose proof (drop_set_head _ _ _ _ Ea) as Hc.
    assert (drop_set cset (rev (c :: a)) <> []) as Hne.
    { cbn. rewrite drop_set_app. case_decide; [cbn; by rewrite Hc|by destruct (drop_set cset (rev a))]. }
    assert (drop_set cset (rev v) = drop_set cset (rev (c :: a)) ++ rev p) as Er.
    { rewrite Hv, rev_app_distr, drop_set_app. by rewrite decide_False. }
    assert (ep = zlen (drop_set cset (rev v)) - 1) as -> by (apply H1; rewrite Er; by destruct (drop_set cset (rev (c :: a)))).
    destruct (drop_set_suffix cset (rev (c :: a))) as [q Hq]. set (w := drop_set cset (rev (c :: a))) in *.
    assert (c :: a = rev w ++ rev q) as Hca by (by rewrite <- rev_app_distr, <- Hq, rev_involutive).
    assert (zlen v - zlen (c :: a) = zlen p) as -> by (rewrite Hv, length_app; lia).
    assert (1 <= zlen w) as Hw by (destruct w; [done|cbn; lia]).
    assert (zlen (drop_set cset (rev v)) - 1 = zlen p + zlen w - 1) as -> by (rewrite Er, length_app, length_rev; lia).
    destruct (Z.gtb_spec (zlen p) (zlen p + zlen w - 1)) as [?|_]; [lia|]. replace (zlen p + zlen w - 1 - zlen p + 1) with (zlen w) by lia.
    assert (zlen p + zlen w <= zlen v) as Hle.
    { rewrite Hv, Hca, !length_app, !length_rev. lia. }
    destruct (keep_part_ok s v (zlen p) (zlen w) (negb (zlen p =? 0)) Hs) as (s' & E & H); [lia|lia|lia|by intros ?%negb_false_iff%Z.eqb_eq; left|].
    exists s'. split; [done|]. rewrite !Nat2Z.id in H. rewrite Hv, drop_app_length, Hca in H.
    replace (length w) with (length (rev w)) in H by apply length_rev. by rewrite take_app_length in H.
Qed.

(** *** Ranges *)

(** A range of positions, both included, counted from the end when negative. *)
Definition range_of (start last : Z) (v : bytes) : bytes :=
  let pos i := if i <? 0 then Z.max 0 (zlen v + i) else i in
  take (Z.to_nat (pos last - pos start + 1)) (drop (Z.to_nat (pos start)) v).

Lemma sdsrange_ok s v start last : sds_is s v -> in_i32 start -> in_i32 last ->
  exists s', sdsrange s start last = Some s' /\ sds_is s' (range_of start last v).
Proof.
  intros Hs Hi Hj. pose proof Hs as [Hlen Hfree Hsize _]. unfold sdsrange, range_of. rewrite (sds_len _ _ Hs). unfold in_i32 in *.
  destruct (Z.eqb_spec (zlen v) 0) as [E|E].
  { exists s. split; [done|]. destruct v; [|done]. by rewrite drop_nil, take_nil. }
  set (pos i := if i <? 0 then Z.max 0 (zlen v + i) else i).
  assert (forall i, - 2 ^ 31 <= i < 2 ^ 31 -> (if i <? 0 then Z.max 0 (i32 (zlen v + i)) else i) = pos i /\ 0 <= pos i < 2 ^ 31) as Hpos.
  { intros i ?. unfold pos. destruct (Z.ltb_spec i 0); [|lia]. rewrite i32_small by (unfold in_i32; lia). lia. }
  cbn zeta. change (if start <? 0 then Z.max 0 (zlen v + start) else start) with (pos start).
  change (if last <? 0 then Z.max 0 (zlen v + last) else last) with (pos last).
  destruct (Hpos start Hi) as [-> Hps], (Hpos last Hj) as [-> Hpl]. set (a := pos start) in *. set (b := pos last) in *. clearbody a b. clear Hpos pos.
  rewrite (i32_small (zlen v)), (i32_small (zlen v - 1)) by (unfold in_i32; lia).
  assert (forall k, a <= k < 2 ^ 31 -> u64 (i32 (i32 (k - a) + 1)) <> 0) as Hcount.
  { intros k ?. rewrite (i32_small (k - a)) by (unfold in_i32; lia). destruct (Z.eq_dec (k - a + 1) (2 ^ 31)) as [->|]; [done|].
    rewrite i32_small, u64_small by (unfold in_i32, in_u64; lia). lia. }
  assert (exists s', keep_part s 0 0 false = Some s' /\ sds_is s' []) as Hnone by (apply (keep_part_ok s v 0 0 false Hs); lia || by left).
  destruct (Z.gtb_spec a b) as [Hab|Hab].
  { cbn [Z.eqb]. rewrite !andb_false_r. replace (Z.to_nat (b - a + 1)) with 0%nat by lia. exact Hnone. }
  rewrite (proj2 (Z.eqb_neq _ _)) by (apply Hcount; lia). rewrite !Z.geb_leb. destruct (Z.leb_spec (zlen v) a) as [Ha|Ha].
  { rewrite andb_false_r, (drop_ge v), take_nil by lia. exact Hnone. }
  assert (forall n, 1 <= n -> a + n <= zlen v ->
    exists s', keep_part s a n (negb (a =? 0) && negb (n =? 0)) = Some s' /\ sds_is s' (take (Z.to_nat n) (drop (Z.to_nat a) v))) as Hk.
  { intros n Hn Hle. apply keep_part_ok; [done|lia|lia|lia|]. rewrite andb_false_iff, !negb_false_iff, !Z.eqb_eq. lia. }
  destruct (Z.leb_spec (zlen v) b) as [Hb|Hb].
  - destruct (Z.gtb_spec a (zlen v - 1)); [lia|]. rewrite (i32_small (zlen v - 1 - a)), i32_small, u64_small by (unfold in_i32, in_u64; lia).
    destruct (Hk (zlen v - 1 - a + 1)) as (s' & Es & H'); [lia|lia|]. exists s'. split; [exact Es|].
    rewrite take_ge in H' by (rewrite length_drop; lia). by rewrite take_ge by (rewrite length_drop; lia).
  - rewrite (i32_small (b - a)), i32_small, u64_small by (unfold in_i32, in_u64; lia). apply Hk; lia.
Qed.

Lemma each_char_ok f s v : sds_is s v -> exists s', each_char f s = Some s' /\ sds_is s' (map f v).
Proof.
  intros Hs. unfold each_char. rewrite (sds_len _ _ Hs), (sds_text _ _ Hs). cbn [mbind option_bind]. rewrite mapM_written. cbn [mbind option_bind].
  pose proof Hs as [Hlen Hfree Hsize (t & Hb & Ht)]. rewrite Hb.
  rewrite (put_at [] (written v) (Some NUL :: t)) by (unfold written; rewrite ?length_fmap, ?length_map; done).
  cbn [mbind option_bind]. eexists. split; [done|]. split; cbn [len_ free_ buf_]; rewrite ?length_map; [done|done|done|by exists t].
Qed.

(** *** Formatting *)

Lemma print_loop_total text fuel : forall n, zlen text < 2 ^ 32 -> 16 <= n < 2 ^ 34 -> zlen text + 2 <= n * 2 ^ Z.of_nat fuel ->
  print_loop alloc_ok (S fuel) n text = Some (Some (cstr text))
  \/ (print_loop alloc_ok (S fuel) n text = Some None /\ exists n, alloc_ok n = false).
Proof.
  induction fuel as [|fuel IH]; intros n Ht Hn Hf.
  all: cbn [print_loop]; destruct (alloc_ok n) eqn:Ea; [|right; split; [done|by exists n]].
  all: replace (Z.to_nat (n - 2)) with (Z.to_nat n - 2)%nat by lia.
  all: destruct (vsnprintf_last (Z.to_nat n) text) as (c & Hc & H1 & H2); [lia|].
  all: rewrite Hc; cbn [mbind option_bind]; destruct (decide (c <> NUL)) as [Hne|Heq].
  - specialize (H1 Hne). cbn in Hf. lia.
  - destruct (decide (c = NUL)); [|done]. left. by rewrite H2.
  - specialize (H1 Hne). rewrite u64_small by (unfold in_u64; lia). apply IH; [done|lia|].
    replace (Z.of_nat (S fuel)) with (Z.of_nat fuel + 1) in Hf by lia. rewrite Z.pow_add_r in Hf by lia. lia.
  - destruct (decide (c = NUL)); [|done]. left. by rewrite H2.
Qed.

Lemma sdscatvprintf_ok s v text : sds_is s v -> fits (zlen v + zlen text) -> holds (sdscatvprintf alloc_ok s text) (v ++ cstr text).
Proof.
  intros Hs Hf. unfold sdscatvprintf. unfold fits in Hf.
  destruct (print_loop_total text 59 16) as [->|[-> Hno]]; [lia|lia|change (Z.of_nat 59) with 59; lia| |by eexists].
  cbn [mbind option_bind]. pose proof (sdscat_ok s v (cstr text) Hs) as H. rewrite cstr_idemp in H. apply H.
  pose proof (cstr_length_le text). unfold fits. lia.
Qed.

(** ** The operations on a string, as a client sees them *)

Inductive sds_op : Type :=
| OClear | OUpdateLen | OMakeRoom (n : Z) | ORemoveFree | OGrowZero (n : Z)
| OCat (t : bytes) | OCatLen (t : bytes) | OCpy (t : bytes) | OPrintf (text : bytes)
| OTrim (cset : bytes) | ORange (start last : Z) | OLower | OUpper | OMapChars (pairs : list (byte * byte)).

(** An operation that returns the string it was given. *)
Definition in_place (r : option sds) : option (option sds) := Some <$> r.

Definition run_op (s : sds) (o : sds_op) : option (option sds) :=
  match o with
  | OClear => in_place (sdsclear s)
  | OUpdateLen => in_place (sdsupdatelen s)
  | OMakeRoom n => sdsMakeRoomFor alloc_ok s n
  | ORemoveFree => in_place (sdsRemoveFreeSpace alloc_ok s)
  | OGrowZero n => sdsgrowzero alloc_ok s n
  | OCat t => sdscat alloc_ok s t
  | OCatLen t => sdscatlen alloc_ok s (written t) (zlen t)
  | OCpy t => sdscpy alloc_ok s t
  | OPrintf text => sdscatvprintf alloc_ok s text
  | OTrim cset => in_place (sdstrim s cset)
  | ORange start last => in_place (sdsrange s start last)
  | OLower => in_place (sdstolower s)
  | OUpper => in_place (sdstoupper s)
  | OMapChars pairs => in_place (sdsmapchars s pairs)
  end.

(** Operations one after the other, up to a NULL. *)
Fixpoint run_ops (s : sds) (l : list sds_op) : option (option sds) :=
  match l with
  | [] => Some (Some s)
  | o :: l => r ← run_op s o; match r with Some s => run_ops s l | None => Some None end
  end.

(** What each does to the text. *)
Definition spec_op (v : bytes) (o : sds_op) : bytes :=
  match o with
  | OClear => []
  | OUpdateLen => cstr v
  | OMakeRoom _ | ORemoveFree => v
  | OGrowZero n => v ++ replicate (Z.to_nat n - length v) NUL
  | OCat t | OPrintf t => v ++ cstr t
  | OCatLen t => v ++ t
  | OCpy t => cstr t
  | OTrim cset => trimmed cset v
  | ORange start last => range_of start last v
  | OLower => map tolower v
  | OUpper => map toupper v
  | OMapChars pairs => map (map_char pairs) v
  end.

(** The arguments are small enough; giving back the room needs memory, since
    that result is used without a test. *)
Definition op_ok (v : bytes) (o : sds_op) : Prop :=
  match o with
  | OMakeRoom n => 0 <= n /\ fits (zlen v + n)
  | OGrowZero n => 0 <= n /\ fits n
  | OCat t | OCatLen t | OPrintf t | OCpy t => fits (zlen v + zlen t)
  | ORange start last => in_i32 start /\ in_i32 last
  | ORemoveFree => forall n, alloc_ok n = true
  | _ => True
  end.

Fixpoint ops_ok (v : bytes) (l : list sds_op) : Prop :=
  match l with [] => True | o :: l => op_ok v o /\ ops_ok (spec_op v o) l end.

Lemma in_place_ok r v : (exists s, r = Some s /\ sds_is s v) -> holds (in_place r) v.
Proof. intros (s & -> & H). by exists (Some s). Qed.

Lemma run_op_ok s v o : sds_is s v -> op_ok v o -> holds (run_op s o) (spec_op v o).
Proof.
  intros Hs Ho. assert (forall t, fits (zlen v + zlen t) -> fits (zlen v + zlen (cstr t))) as Hcs.
  { intros t. pose proof (cstr_length_le t). unfold fits. lia. }
  destruct o; cbn [run_op spec_op op_ok] in *.
  - apply in_place_ok. by eapply sdsclear_ok.
  - apply in_place_ok. by apply sdsupdatelen_ok.
  - destruct Ho as [Hn Hf]. destruct (sdsMakeRoomFor_ok s v n Hs Hn Hf) as (r & E & Hr). exists r. split; [done|].
    destruct r; [by destruct Hr|done].
  - apply in_place_ok. destruct (sdsRemoveFreeSpace_ok s v Hs Ho) as (s' & E & H & _). by exists s'.
  - destruct Ho. by apply sdsgrowzero_ok.
  - apply sdscat_ok; auto.
  - apply sdscatlen_ok; [done| |done]. apply take_ge. by rewrite written_length.
  - apply (sdscpylen_ok s v); [done|apply cstring_take|auto].
  - by apply sdscatvprintf_ok.
  - apply in_place_ok. by apply sdstrim_ok.
  - apply in_place_ok. destruct Ho. by apply sdsrange_ok.
  - apply in_place_ok. by apply each_char_ok.
  - apply in_place_ok. by apply each_char_ok.
  - apply in_place_ok. by apply each_char_ok.
Qed.

Lemma run_ops_ok l : forall s v, sds_is s v -> ops_ok v l -> holds (run_ops s l) (fold_left spec_op l v).
Proof.
  induction l as [|o l IH]; intros s v Hs Hl; [by exists (Some s)|]. destruct Hl as [Ho Hl]. cbn [run_ops fold_left].
  destruct (run_op_ok s v o Hs Ho) as (r & -> & Hr). cbn [mbind option_bind]. destruct r as [s'|]; [by apply IH|by exists None].
Qed.
End correct.

(** C34. A string made by sdsnew is its text: whatever operations follow (clearing, growing,
    concatenating, copying, formatting, trimming, ranges, changing characters), with sizes below
    2^30, each is defined inside its block and the text is what the operations make of a byte
    sequence, until one of them returns NULL, which it does only when an allocation fails;
    sdsRemoveFreeSpace, which does not test its allocation, is called only when none can fail. *)
Theorem sds_refines_text alloc_ok init l :
  fits (zlen (cstr init)) -> ops_ok alloc_ok (cstr init) l ->
  exists r, sdsnew alloc_ok (Some init) = Some r
    /\ match r with
       | None => exists n, alloc_ok n = false
       | Some s => exists r, run_ops alloc_ok s l = Some r
           /\ match r with
              | None => exists n, alloc_ok n = false
              | Some s => text_of s = Some (fold_left spec_op l (cstr init))
              end
       end.
Proof.
  intros Hf Hl. unfold sdsnew. cbn [fmap option_fmap option_map]. unfold strlen.
  destruct (sdsnewlen_ok alloc_ok (cstr init) (cstring init) Hf (cstring_take init)) as (r & E & Hr). exists r. split; [exact E|].
  destruct r as [s|]; [|done]. destruct (run_ops_ok alloc_ok l s _ Hr Hl) as (r & E2 & Hr2). exists r. split; [done|].
  destruct r as [s'|]; [|done]. unfold text_of. rewrite (sds_len _ _ Hr2), (sds_text _ _ Hr2). apply mapM_written.
Qed.

Lemma sds_refines_text_witness :
  exists s s', sdsnew plenty (Some (bs "  Hello ")) = Some (Some s)
    /\ run_ops plenty s [OTrim (bs " "); OCat (bs " World"); OLower; ORange 1 (-2); OGrowZero 11; OUpdateLen] = Some (Some s')
    /\ text_of s' = Some (bs "ello worl").
Proof.
  pose proof (sds_refines_text plenty (bs "  Hello ") [OTrim (bs " "); OCat (bs " World"); OLower; ORange 1 (-2); OGrowZero 11; OUpdateLen]
    ltac:(done) ltac:(vm_compute; by split_and!)) as (r & E & H).
  destruct r as [s|]; [|by destruct H]. destruct H as (r & E2 & H). destruct r as [s'|]; [|by destruct H].
  exists s, s'. split; [done|]. split; [done|]. rewrite H. by vm_compute.
Defined.
