(* ===== verification/SdsArgs.v ===== *)
(** * sds.c: quoting and splitting into arguments

    What [sdscatrepr] writes, [sdssplitargs] reads back; a line of any
    bytes is split without a read past its NUL; what [sdssplitlen] cuts out
    gives the text again when it is joined. *)

From S2P Require Import Prelude Common Util Buffer Sds.

Section args.
Variable alloc_ok : Z -> bool.

Notation holds := (holds alloc_ok).

(** ** Quoting *)

(** Without a failure of memory. *)
Definition repr (p : bytes) : bytes := quote :: concat (map repr_char p) ++ [quote].

Lemma hex_char_ne d : 0 <= d < 16 -> hex_char d <> NUL.
Proof.
  intros Hd E. apply (f_equal uchar) in E. unfold hex_char in E. rewrite uchar_byte_of_Z in E. change (uchar NUL) with 0 in E.
  destruct (Z.ltb_spec d 10); rewrite Z.mod_small in E; lia.
Qed.

Lemma repr_char_text c : NUL ∉ repr_char c /\ (1 <= length (repr_char c) <= 4)%nat.
Proof.
  pose proof (uchar_range c) as Hc. unfold repr_char. repeat (case_decide; [subst; split; [set_solver|cbn; lia]|]).
  destruct (isprint c) eqn:E.
  - split; [|cbn; lia]. rewrite list_elem_of_singleton. intros <-. by vm_compute in E.
  - split; [|cbn; lia]. cbn. rewrite !elem_of_cons. intros [?|[?|[E1|[E1|[]%not_elem_of_nil]]]]; [done|done| |].
    + by apply (hex_char_ne (uchar c / 16)); [split; [apply Z.div_pos; lia|apply Z.div_lt_upper_bound; lia]|].
    + by apply (hex_char_ne (uchar c mod 16)); [apply Z.mod_pos_bound; lia|].
Qed.

Lemma repr_char_cstr c : cstr (repr_char c) = repr_char c.
Proof. apply cstr_id, repr_char_text. Qed.

Lemma cat_char_ok s v c : sds_is s v -> fits (zlen v + 4) -> holds (cat_char alloc_ok s c) (v ++ repr_char c).
Proof.
  intros Hs Hf. unfold fits in Hf. destruct (repr_char_text c) as [_ Hl]. unfold cat_char. case_decide as Hc.
  - replace 2 with (zlen (repr_char c)) by (repeat (apply elem_of_cons in Hc as [->|Hc]; [done|]); by apply not_elem_of_nil in Hc).
    apply sdscatlen_ok; [done|by apply take_ge; rewrite written_length|unfold fits; lia].
  - rewrite <- (repr_char_cstr c) at 2. apply sdscatvprintf_ok; [done|unfold fits; lia].
Qed.

(** Memory does not run out, where NULL results are used untested. *)
Hypothesis memory : forall n, alloc_ok n = true.

Lemma holds_some r v : holds r v -> exists s, r = Some (Some s) /\ sds_is s v.
Proof. intros (s & -> & H). destruct s; [by eexists|]. destruct H as [n H]. by rewrite memory in H. Qed.

Lemma cat_chars_ok p : forall s v, sds_is s v -> fits (zlen v + 4 * zlen p) ->
  exists s', cat_chars alloc_ok s p = Some s' /\ sds_is s' (v ++ concat (map repr_char p)).
Proof.
  induction p as [|c p IH]; intros s v Hs Hf; unfold fits in *; cbn [cat_chars map concat length] in *.
  - exists s. by rewrite app_nil_r.
  - destruct (holds_some _ _ (cat_char_ok s v c Hs ltac:(unfold fits; lia))) as (s1 & -> & H1). cbn [mbind option_bind].
    destruct (IH s1 _ H1) as (s' & E & H').
    { rewrite length_app. destruct (repr_char_text c) as [_ Hl]. lia. }
    exists s'. by rewrite app_assoc.
Qed.

Lemma cat_byte_ok s v c : sds_is s v -> fits (zlen v + 1) ->
  exists s', sdscatlen alloc_ok s (written [c]) 1 = Some (Some s') /\ sds_is s' (v ++ [c]).
Proof. intros Hs Hf. by apply holds_some, (sdscatlen_ok alloc_ok s v (written [c]) [c]). Qed.

Lemma sdscatrepr_ok s v p : sds_is s v -> fits (zlen v + 4 * zlen p + 2) ->
  exists s', sdscatrepr alloc_ok s p = Some (Some s') /\ sds_is s' (v ++ repr p).
Proof.
  intros Hs Hf. unfold fits in Hf. unfold sdscatrepr.
  destruct (cat_byte_ok s v quote Hs) as (s1 & -> & H1); [unfold fits; lia|]. cbn [mbind option_bind].
  destruct (cat_chars_ok p s1 _ H1) as (s2 & -> & H2); [unfold fits; rewrite length_app; cbn; lia|]. cbn [mbind option_bind].
  destruct (cat_byte_ok s2 _ quote H2) as (s3 & E & H3).
  { unfold fits. rewrite !length_app. cbn [length]. assert (length (concat (map repr_char p)) <= 4 * length p)%nat; [|lia].
    clear. induction p as [|c p IH]; cbn [map concat length]; [lia|]. rewrite length_app. destruct (repr_char_text c). lia. }
  exists s3. split; [done|]. unfold repr. by rewrite <- !app_assoc in H3.
Qed.

Lemma cat1_ok s v c : sds_is s v -> fits (zlen v + 1) -> exists s', cat1 alloc_ok s c = Some s' /\ sds_is s' (v ++ [c]).
Proof. intros Hs Hf. unfold cat1. destruct (cat_byte_ok s v c Hs Hf) as (s' & -> & H). by exists s'. Qed.

(** ** Reading back *)

(** In double quotes, the text of a character is the character. *)
Lemma double_reads_repr c rest s :
  token_double alloc_ok (repr_char c ++ rest) s
  = s ← cat1 alloc_ok s c; Some (RNext (pred (length (repr_char c))) Double s).
Proof.
  unfold token_double, close_quote. generalize (cat1 alloc_ok) as k. intros k.
  destruct c as [[] [] [] [] [] [] [] []]; vm_compute; reflexivity.
Qed.

(** The rest of a quoted argument, whose closing quote ends the token. *)
Definition token_ends (rest : bytes) : Prop := match rest with [] => True | c :: _ => isspace c = true end.

Lemma get_token_repr a : forall fuel rest s v, (length a < fuel)%nat -> token_ends rest -> sds_is s v -> fits (zlen v + zlen a) ->
  exists s', get_token alloc_ok fuel Double (concat (map repr_char a) ++ quote :: rest) s = Some (Some (rest, s')) /\ sds_is s' (v ++ a).
Proof.
  induction a as [|c a IH]; intros fuel rest s v Hfuel Hr Hs Hf; (destruct fuel as [|fuel]; [lia|]); cbn [map concat get_token].
  - exists s. rewrite app_nil_r. split; [|done]. cbn [app].
    unfold token_double, close_quote, peek. cbn [app lookup list_lookup mbind option_bind].
    rewrite (decide_False (P := quote = "\"%char)), (decide_True (P := quote = quote)) by done.
    destruct rest as [|x rest]; cbn [app lookup list_lookup mbind option_bind].
    + by rewrite bool_decide_eq_false_2 by tauto.
    + cbn in Hr. by rewrite Hr, andb_false_r.
  - rewrite <- app_assoc, double_reads_repr. unfold fits in Hf. cbn [length] in *.
    destruct (cat1_ok s v c Hs) as (s1 & -> & H1); [unfold fits; lia|]. cbn [mbind option_bind].
    replace (S (pred (length (repr_char c)))) with (length (repr_char c)) by (destruct (repr_char_text c); lia).
    rewrite drop_app_length. destruct (IH fuel rest s1 (v ++ [c])) as (s' & E & H'); [lia|done|done| |].
    { unfold fits. rewrite length_app. cbn [length]. lia. }
    exists s'. split; [done|]. by rewrite <- app_assoc in H'.
Qed.
(** Arguments, each behind a blank. *)
Definition quoted_line (args : list bytes) : bytes := concat (map (fun a => " "%char :: repr a) args).

Lemma sdsempty_ok : exists s, mjoin (sdsempty alloc_ok) = Some s /\ sds_is s [].
Proof.
  destruct (holds_some _ _ (sdsnewlen_ok alloc_ok [] [Some NUL] ltac:(done) eq_refl)) as (s & E & H).
  exists s. split; [|done]. unfold sdsempty. change 0 with (zlen (@nil byte)). by rewrite E.
Qed.

Lemma quoted_line_ends args : token_ends (quoted_line args).
Proof. by destruct args. Qed.

(** The first round reads the opening quote. *)
Lemma get_token_quoted a args s : sds_is s [] -> fits (zlen a) ->
  exists s', get_token alloc_ok (S (length (repr a ++ quoted_line args))) Unquoted (repr a ++ quoted_line args) s = Some (Some (quoted_line args, s'))
    /\ sds_is s' a.
Proof.
  intros Hs Hf. unfold repr. cbn [app get_token]. unfold token_plain, peek. cbn [app lookup list_lookup mbind option_bind].
  rewrite decide_False by (vm_compute; by inversion 1 as [|??? H]; repeat (inversion H as [|??? H']; clear H; rename H' into H)).
  rewrite (decide_True (P := quote = quote)) by done. cbn [mbind option_bind drop]. rewrite <- app_assoc.
  destruct (get_token_repr a (length (quote :: concat (map repr_char a) ++ [quote] ++ quoted_line args)) (quoted_line args) s []) as (s' & E & H);
    [|apply quoted_line_ends|done|done|by exists s'].
  cbn [length]. rewrite !length_app. cbn [length].
  assert (length a <= length (concat (map repr_char a)))%nat; [|lia].
  clear. induction a as [|c a IH]; cbn [map concat length]; [lia|]. rewrite length_app. destruct (repr_char_text c). lia.
Qed.

Lemma split_loop_quoted args : forall fuel vector, (length args < fuel)%nat -> Forall (fun a => fits (zlen a)) args ->
  exists vec, split_loop alloc_ok fuel (quoted_line args) vector = Some (Some (vector ++ vec)) /\ Forall2 sds_is vec args.
Proof.
  induction args as [|a args IH]; intros fuel vector Hf Ha; (destruct fuel as [|fuel]; [lia|]); cbn [split_loop].
  - exists []. rewrite app_nil_r. cbn. rewrite memory, andb_false_r. by split.
  - apply Forall_cons in Ha as [Ha Has]. change (quoted_line (a :: args)) with (" "%char :: repr a ++ quoted_line args).
    change (skip_blanks (" "%char :: repr a ++ quoted_line args)) with (repr a ++ quoted_line args).
    destruct (sdsempty_ok) as (s & Es & Hs). destruct (get_token_quoted a args s Hs Ha) as (s' & E & H).
    destruct (repr a ++ quoted_line args) eqn:El; [by unfold repr in El|]. rewrite <- El in *. rewrite El in E |- *.
    cbn [mbind option_bind]. rewrite Es. cbn [mbind option_bind]. rewrite E. cbn [mbind option_bind]. rewrite memory.
    cbn [length] in Hf. destruct (IH fuel (vector ++ [s']) ltac:(lia) Has) as (vec & Ev & Hv).
    exists (s' :: vec). rewrite <- app_assoc in Ev. split; [exact Ev|by constructor].
Qed.

Lemma quoted_line_no_NUL args : NUL ∉ quoted_line args.
Proof.
  induction args as [|a args IH]; [by intros ?%not_elem_of_nil|]. cbn [quoted_line map concat]. change (concat _) with (quoted_line args).
  rewrite <- app_comm_cons, not_elem_of_cons, not_elem_of_app. split_and!; [done| |done].
  unfold repr. rewrite not_elem_of_cons, not_elem_of_app, not_elem_of_cons. split_and!; [done| |done|by intros ?%not_elem_of_nil].
  clear. induction a as [|c a IH]; [by intros ?%not_elem_of_nil|]. cbn [map concat]. apply not_elem_of_app. split; [apply repr_char_text|done].
Qed.

(** A blank and a quoted argument, for each of them. *)
Fixpoint cat_args (s : sds) (args : list bytes) : option (option sds) :=
  match args with
  | [] => Some (Some s)
  | a :: args =>
      r ← sdscatlen alloc_ok s (written [" "%char]) 1; s ← r;
      r ← sdscatrepr alloc_ok s a; s ← r;
      cat_args s args
  end.

Lemma repr_length a : zlen (repr a) <= 4 * zlen a + 2.
Proof.
  unfold repr. cbn [length]. rewrite length_app. cbn [length]. assert (length (concat (map repr_char a)) <= 4 * length a)%nat; [|lia].
  induction a as [|c a IH]; cbn [map concat length]; [lia|]. rewrite length_app. destruct (repr_char_text c). lia.
Qed.

Definition args_size (args : list bytes) : Z := Z.of_nat (list_sum (map (fun a => 4 * length a + 3)%nat args)).

Lemma cat_args_ok args : forall s v, sds_is s v -> fits (zlen v + args_size args) ->
  exists s', cat_args s args = Some (Some s') /\ sds_is s' (v ++ quoted_line args).
Proof.
  induction args as [|a args IH]; intros s v Hs Hf; cbn [cat_args].
  - exists s. by rewrite app_nil_r.
  - unfold fits, args_size in *. cbn [map list_sum foldr] in Hf. fold (list_sum (map (fun a => 4 * length a + 3)%nat args)) in Hf.
    destruct (cat_byte_ok s v " "%char Hs) as (s1 & -> & H1); [unfold fits; lia|]. cbn [mbind option_bind].
    destruct (sdscatrepr_ok s1 _ a H1) as (s2 & -> & H2); [unfold fits; rewrite length_app; cbn [length]; lia|]. cbn [mbind option_bind].
    destruct (IH s2 _ H2) as (s' & E & H').
    { rewrite !length_app. cbn [length]. pose proof (repr_length a). lia. }
    exists s'. split; [done|]. rewrite <- !app_assoc in H'. exact H'.
Qed.
(** ** Any line *)

Lemma peek_in p k : (k <= length p)%nat -> exists x, peek p k = Some x /\ (x <> NUL -> (S k <= length p)%nat).
Proof.
  intros Hk. unfold peek. destruct (decide (k = length p)) as [->|Hne].
  - exists NUL. rewrite list_lookup_middle by done. by split.
  - destruct (lookup_lt_is_Some_2 p k ltac:(lia)) as [x Hx]. exists x. split; [by apply lookup_app_l_Some|lia].
Qed.

(** A round reads at least one character of the line before it goes on, and
    adds at most one. *)
Definition round_ok (p : bytes) (v : bytes) (r : round) : Prop :=
  match r with
  | RNext skip _ s => (S skip <= length p)%nat /\ exists v', sds_is s v' /\ zlen v' <= zlen v + 1
  | RDone skip s => skip = 0%nat /\ sds_is s v
  | RErr _ => True
  end.

Section round.
Context (p v : bytes) (s : sds).
Hypothesis (Hs : sds_is s v) (Hf : fits (zlen v + 1)).

Lemma token_next_ok c skip q : (S skip <= length p)%nat -> exists r, (s ← cat1 alloc_ok s c; Some (RNext skip q s)) = Some r /\ round_ok p v r.
Proof.
  intros Hp. destruct (cat1_ok s v c Hs Hf) as (s' & -> & H). eexists. split; [done|]. split; [done|].
  eexists. split; [exact H|]. rewrite length_app. cbn. lia.
Qed.

Lemma close_quote_ok : (1 <= length p)%nat -> exists r, close_quote p s = Some r /\ round_ok p v r.
Proof. intros Hp. unfold close_quote. destruct (peek_in p 1 Hp) as (x & -> & _). eexists. split; [done|]. by case_match. Qed.

Lemma token_plain_ok : exists r, token_plain alloc_ok p s = Some r /\ round_ok p v r.
Proof.
  unfold token_plain. destruct (peek_in p 0 ltac:(lia)) as (c & -> & Hc). cbn [mbind option_bind]. case_decide as Hset; [by eexists|].
  assert (S 0 <= length p)%nat as Hp by (apply Hc; set_solver).
  case_decide; [eexists; split; [done|]; split; [done|]; exists v; split; [done|lia]|].
  case_decide; [eexists; split; [done|]; split; [done|]; exists v; split; [done|lia]|]. by apply token_next_ok.
Qed.

Lemma token_single_ok : exists r, token_single alloc_ok p s = Some r /\ round_ok p v r.
Proof.
  unfold token_single. destruct (peek_in p 0 ltac:(lia)) as (c & -> & Hc). cbn [mbind option_bind]. cbn zeta.
  set (plain := if decide (c = "'"%char) then _ else _).
  assert (exists r, plain = Some r /\ round_ok p v r) as Hplain.
  { subst plain. case_decide as E; [apply close_quote_ok, Hc; by subst|]. case_decide; [by eexists|]. by apply token_next_ok, Hc. }
  clearbody plain. case_decide as E; [|done].
  destruct (peek_in p 1) as (x & -> & Hx); [apply Hc; by subst|]. cbn [mbind option_bind]. case_decide; [|done]. apply token_next_ok, Hx. by subst.
Qed.

Lemma token_double_ok : exists r, token_double alloc_ok p s = Some r /\ round_ok p v r.
Proof.
  unfold token_double. destruct (peek_in p 0 ltac:(lia)) as (c & -> & Hc). cbn [mbind option_bind]. cbn zeta.
  set (plain := if decide (c = quote) then _ else _).
  assert (exists r, plain = Some r /\ round_ok p v r) as Hplain.
  { subst plain. case_decide as E; [apply close_quote_ok, Hc; by subst|]. case_decide; [by eexists|]. by apply token_next_ok, Hc. }
  clearbody plain. case_decide as E; [|done].
  destruct (peek_in p 1) as (x & -> & Hx); [apply Hc; by subst|]. cbn [mbind option_bind].
  set (escaped := if decide (x = NUL) then plain else _).
  assert (exists r, escaped = Some r /\ round_ok p v r) as Hesc.
  { subst escaped. case_decide; [done|]. by apply token_next_ok, Hx. }
  clearbody escaped. case_decide as Ex; [|done].
  destruct (peek_in p 2) as (h & -> & Hh); [apply Hx; by subst|]. cbn [mbind option_bind]. destruct (is_hex_digit h) eqn:Eh; [|done].
  destruct (peek_in p 3) as (l & -> & Hl); [apply Hh; intros ->; done|]. cbn [mbind option_bind]. destruct (is_hex_digit l) eqn:El; [|done].
  apply token_next_ok, Hl. by intros ->.
Qed.
End round.

Definition is_sds (s : sds) : Prop := exists v, sds_is s v.

Lemma get_token_total fuel : forall q p v s, (length p < fuel)%nat -> sds_is s v -> fits (zlen v + Z.of_nat fuel) ->
  exists r, get_token alloc_ok fuel q p s = Some r
    /\ match r with Some (p', s') => (length p' <= length p - 1)%nat /\ is_sds s' | None => True end.
Proof.
  induction fuel as [|fuel IH]; intros q p v s Hp Hs Hf; [lia|]. cbn [get_token]. unfold fits in Hf.
  assert (fits (zlen v + 1)) as Hf1 by (unfold fits; lia).
  assert (exists r, match q with Double => token_double alloc_ok p s | Single => token_single alloc_ok p s | Unquoted => token_plain alloc_ok p s end
    = Some r /\ round_ok p v r) as (r & -> & Hr).
  { destruct q; [by apply token_plain_ok|by apply token_double_ok|by apply token_single_ok]. }
  cbn [mbind option_bind]. destruct r as [skip q' s'|skip s'|s']; [| |by exists None].
  - destruct Hr as (Hskip & v' & Hs' & Hv'). destruct (IH q' (drop (S skip) p) v' s') as (r & E & H); [|done|unfold fits; lia|].
    + rewrite length_drop. lia.
    + exists r. split; [done|]. destruct r as [[p' s'']|]; [|done]. rewrite length_drop in H. split; [lia|tauto].
  - destruct Hr as [-> Hr]. eexists. split; [done|]. split; [|by exists v]. destruct p; cbn; rewrite ?drop_0; lia.
Qed.

Lemma skip_blanks_length p : (length (skip_blanks p) <= length p)%nat.
Proof. induction p as [|c p IH]; [done|]. cbn [skip_blanks length]. case_match; cbn [length]; lia. Qed.

Lemma split_loop_total fuel : forall p vector, (length p < fuel)%nat -> fits (zlen p + 1) -> Forall is_sds vector ->
  exists r, split_loop alloc_ok fuel p vector = Some r /\ match r with Some vec => Forall is_sds vec | None => True end.
Proof.
  induction fuel as [|fuel IH]; intros p vector Hp Hf Hv; [lia|]. cbn [split_loop]. pose proof (skip_blanks_length p) as Hl.
  destruct (skip_blanks p) as [|c p1] eqn:E; [case_match; by eexists|]. set (p0 := c :: p1) in *.
  destruct (sdsempty_ok) as (s & -> & Hs). cbn [mbind option_bind]. unfold fits in Hf.
  destruct (get_token_total (S (length p0)) Unquoted p0 [] s) as (r & -> & Hr); [lia|done|unfold fits; cbn [length]; cbn [length] in Hl; lia|].
  cbn [mbind option_bind]. destruct r as [[p' s']|]; [|by exists None]. destruct Hr as [Hp' Hs']. rewrite memory.
  assert (length p' < length p0)%nat by (subst p0; cbn [length] in *; lia).
  apply IH; [lia|unfold fits; lia|]. by apply Forall_app_2; [|constructor].
Qed.
End args.

(** C35. Arguments of any bytes, each written by sdscatrepr behind a blank, are read back by
    sdssplitargs from the C string of the line: as many strings, with the same texts. *)
Theorem sdssplitargs_reads_back alloc_ok args :
  (forall n, alloc_ok n = true) -> fits (args_size args) ->
  exists s0 s line vec,
    sdsempty alloc_ok = Some (Some s0) /\ cat_args alloc_ok s0 args = Some (Some s) /\ read_cstr (buf_ s) = Some line
    /\ sdssplitargs alloc_ok line = Some (Some vec) /\ mapM text_of vec = Some args.
Proof.
  intros Hm Hf. destruct (sdsempty_ok alloc_ok Hm) as (s0 & E0 & H0).
  destruct (cat_args_ok alloc_ok Hm args s0 [] H0 Hf) as (s & E & H). pose proof H as [_ _ _ (t & Hb & _)].
  destruct (split_loop_quoted alloc_ok Hm args (S (length (quoted_line args))) []) as (vec & Ev & Hv).
  - apply Nat.lt_succ_r. clear. unfold quoted_line. induction args as [|a args IH]; [done|]. cbn [map concat length app]. rewrite length_app. lia.
  - apply Forall_forall. intros a Ha. unfold fits, args_size in *.
    assert (4 * length a + 3 <= list_sum (map (fun a => 4 * length a + 3) args))%nat; [|lia].
    clear -Ha. induction Ha as [|a b l Ha IH]; cbn [map list_sum foldr]; fold (list_sum (map (fun a => 4 * length a + 3)%nat l)); lia.
  - exists s0, s, (quoted_line args), vec. unfold sdssplitargs. rewrite !(cstr_id (quoted_line args)) by apply quoted_line_no_NUL.
    split_and!; [by destruct (sdsempty alloc_ok) as [[]|]; simplify_eq/=|done| |done|].
    + rewrite Hb, read_cstr_written, cstr_id by apply quoted_line_no_NUL. done.
    + apply mapM_Some. eapply Forall2_impl; [exact Hv|]. intros x y Hx. unfold text_of.
      rewrite (sds_len _ _ Hx), (sds_text _ _ Hx). apply mapM_written.
Qed.

Lemma sdssplitargs_reads_back_witness :
  let args := [bs "set"; bs "two words"; []; [NUL; "255"%char; quote; "\"%char; LF; "'"%char]] in
  exists s0 s line vec,
    sdsempty plenty = Some (Some s0) /\ cat_args plenty s0 args = Some (Some s) /\ read_cstr (buf_ s) = Some line
    /\ sdssplitargs plenty line = Some (Some vec) /\ mapM text_of vec = Some args.
Proof. intros args. apply (sdssplitargs_reads_back plenty args); [done|vm_compute; done]. Defined.

(** Any line is split, or refused for its quotes, without a read behind its
    NUL: the loops end. *)
Theorem sdssplitargs_total alloc_ok line :
  (forall n, alloc_ok n = true) -> fits (zlen line + 1) ->
  exists r, sdssplitargs alloc_ok line = Some r
    /\ match r with Some vec => exists args, Forall2 sds_is vec args | None => True end.
Proof.
  intros Hm Hf. pose proof (cstr_length_le line) as Hl. unfold fits in Hf.
  destruct (split_loop_total alloc_ok Hm (S (length (cstr line))) (cstr line) []) as (r & E & Hr); [lia|unfold fits; lia|done|].
  exists r. split; [done|]. destruct r as [vec|]; [|done]. clear E. induction Hr as [|s vec [v Hs] _ (args & IH)]; [by exists []|].
  exists (v :: args). by constructor.
Qed.

Lemma sdssplitargs_total_witness :
  exists r, sdssplitargs plenty (bs "say \x4 'it\'s' " ++ quote :: bs "open") = Some r
    /\ match r with Some vec => exists args, Forall2 sds_is vec args | None => True end.
Proof. by apply sdssplitargs_total. Defined.

(** ** Splitting at a separator *)

Fixpoint join (sep : bytes) (l : list bytes) : bytes :=
  match l with [] => [] | [t] => t | t :: l => t ++ sep ++ join sep l end.

Lemma join_snoc sep l t : join sep (l ++ [t]) = concat (map (fun t => t ++ sep) l) ++ t.
Proof.
  induction l as [|x l IH]; [done|]. cbn [app map concat]. rewrite <- !app_assoc, <- IH. by destruct l.
Qed.

Definition occurs_at (sep s : bytes) (i : nat) : Prop := take (length sep) (drop i s) = sep.

(** A separator in a part of the text is one in the text. *)
Lemma occurs_in_part sep s start n a b : take n (drop start s) = a ++ sep ++ b -> occurs_at sep s (start + length a).
Proof.
  intros E. unfold occurs_at. rewrite <- drop_drop, <- (take_drop n (drop start s)), E, <- !app_assoc.
  rewrite drop_app_length. apply take_app_length.
Qed.

Section split.
Variables (alloc_ok : Z -> bool) (s sep : bytes).
Hypothesis (Hs : fits (zlen s)) (Hsep : sep <> []).

(** The loop: the tokens and separators up to [start], and no separator from
    there to [j]. *)
Record split_inv (j start : nat) (slots : Z) (tokens : list sds) (vs : list bytes) : Prop := {
  spl_le : (start <= j)%nat /\ (j <= length s)%nat;
  spl_slots : zlen tokens + 1 <= slots;
  spl_tokens : Forall2 sds_is tokens vs;
  spl_before : take start s = concat (map (fun t => t ++ sep) vs);
  spl_clean : forall i, (start <= i < j)%nat -> ~ occurs_at sep s i;
  spl_free : Forall (fun t => forall a b, t <> a ++ sep ++ b) vs;
}.

Lemma add_token_ok start n slots tokens vs : zlen tokens < slots -> Forall2 sds_is tokens vs -> (start + n <= length s)%nat ->
  exists r, add_token alloc_ok s (Z.of_nat start) (Z.of_nat n) slots tokens = Some r
    /\ match r with Some l => Forall2 sds_is l (vs ++ [take n (drop start s)]) | None => exists n, alloc_ok n = false end.
Proof.
  intros Hl Ht Hn. unfold add_token. rewrite (proj2 (Z.ltb_lt _ _)) by done. unfold fits in Hs.
  rewrite get_all_ok by (rewrite ?zlen_written; lia). rewrite !Nat2Z.id. cbn [mbind option_bind].
  assert (length (take n (drop start s)) = n) as Hlen by (rewrite length_take, length_drop; lia).
  destruct (sdsnewlen_ok alloc_ok (take n (drop start s)) (take n (drop start (written s)))) as (r & E & Hr).
  { unfold fits. lia. }
  { rewrite Hlen, take_take, Nat.min_id. unfold written. by rewrite fmap_take, fmap_drop. }
  rewrite Hlen in E. rewrite E. cbn [mbind option_bind]. destruct r as [t|]; [|by exists None].
  eexists. split; [done|]. apply Forall2_app; [done|by constructor].
Qed.

Lemma sep_positive : (1 <= length sep)%nat.
Proof. destruct sep; [done|cbn; lia]. Qed.

(** A token up to [j] contains no separator. *)
Lemma token_free j start n a b : (forall i, (start <= i < j)%nat -> ~ occurs_at sep s i) ->
  (start + n <= j + length sep - 1)%nat -> (start + n <= length s)%nat -> take n (drop start s) <> a ++ sep ++ b.
Proof.
  intros Hc Hn Hlen E. pose proof sep_positive. apply (Hc (start + length a)%nat); [|by eapply occurs_in_part].
  apply (f_equal length) in E. rewrite length_take, length_drop, !length_app in E. lia.
Qed.

Definition cut_up (r : option (list sds)) : Prop :=
  match r with
  | None => exists n, alloc_ok n = false
  | Some l => exists vs, Forall2 sds_is l vs /\ join sep vs = s /\ vs <> [] /\ Forall (fun t => forall a b, t <> a ++ sep ++ b) vs
  end.

Lemma split_at_sep_ok fuel : forall j start slots tokens vs,
  split_inv j start slots tokens vs -> zlen s < Z.of_nat fuel + Z.of_nat j ->
  exists r, split_at_sep alloc_ok fuel s sep (Z.of_nat j) (Z.of_nat start) slots tokens = Some r /\ cut_up r.
Proof.
  induction fuel as [|fuel IH]; intros j start slots tokens vs [[Hle Hj] Hsl Ht Hb Hc Hfr] Hf;
    pose proof sep_positive as Hp; cbn [split_at_sep].
  { lia. }
  destruct (Z.ltb_spec (Z.of_nat j) (zlen s - (zlen sep - 1))) as [Hlt|Hge].
  - set (full := slots <? zlen tokens + 2). set (slots' := if full then slots * 2 else slots).
    assert (zlen tokens + 2 <= slots') as Hsl'.
    { subst slots' full. destruct (Z.ltb_spec slots (zlen tokens + 2)); lia. }
    cbn zeta. clearbody slots'. destruct (full && negb (alloc_ok (8 * slots'))) eqn:Ea.
    { exists None. split; [done|]. apply andb_true_iff in Ea as [_ Ea%negb_true_iff]. by eexists. }
    rewrite get_all_ok by (rewrite ?zlen_written; lia). rewrite !Nat2Z.id. cbn [mbind option_bind].
    assert (take (length sep) (drop j (written s)) = written (take (length sep) (drop j s))) as -> by (unfold written; by rewrite fmap_take, fmap_drop).
    case_bool_decide as Hocc.
    + apply (inj (fmap Some)) in Hocc. change (occurs_at sep s j) in Hocc.
      replace (Z.of_nat j - Z.of_nat start) with (Z.of_nat (j - start)) by lia.
      destruct (add_token_ok start (j - start) slots' tokens vs) as (r & -> & Hr); [lia|done|lia|]. cbn [mbind option_bind].
      destruct r as [tokens'|]; [|by exists None].
      replace (Z.of_nat j + zlen sep) with (Z.of_nat (j + length sep)) by lia. eapply IH; [|lia].
      pose proof (Forall2_length _ _ _ Hr) as Hlr. pose proof (Forall2_length _ _ _ Ht) as Hlt2. rewrite length_app in Hlr. cbn [length] in Hlr.
      split; [lia|lia|exact Hr| |lia|].
      * rewrite map_app, concat_app, <- Hb. cbn [map concat]. rewrite app_nil_r.
        replace (j + length sep)%nat with (start + ((j - start) + length sep))%nat by lia.
        rewrite <- take_take_drop, <- take_take_drop, drop_drop. do 2 f_equal. by replace (start + (j - start))%nat with j by lia.
      * apply Forall_app. split; [done|]. constructor; [|done]. intros a b. apply (token_free j); [done|lia|lia].
    + replace (Z.of_nat j + 1) with (Z.of_nat (S j)) by lia. eapply IH; [|lia]. split; [lia|lia|done|done| |done].
      intros i Hi. destruct (decide (i = j)) as [->|]; [|apply Hc; lia]. intros Ho. apply Hocc. by rewrite Ho.
  - replace (zlen s - Z.of_nat start) with (Z.of_nat (length s - start)) by lia.
    destruct (add_token_ok start (length s - start) slots tokens vs) as (r & -> & Hr); [lia|done|lia|]. exists r. split; [done|].
    destruct r as [l|]; [|done]. eexists. split; [exact Hr|]. rewrite join_snoc, <- Hb. rewrite (take_ge (drop start s)) by (rewrite length_drop; lia).
    split; [apply take_drop|]. split; [by destruct vs|]. apply Forall_app. split; [done|]. constructor; [|done].
    intros a b. rewrite <- (take_ge (drop start s) (length s - start)) by (rewrite length_drop; lia). apply (token_free j); [done|lia|lia].
Qed.
End split.

(** sdssplitlen of a text that is not empty stays inside the text and its array of tokens,
    and unless an allocation fails it returns tokens that give the text again when they are joined
    with the separator, none of which contains the separator. *)
Theorem sdssplitlen_cuts_up alloc_ok s sep : fits (zlen s) -> s <> [] -> sep <> [] ->
  exists r, sdssplitlen alloc_ok s sep = Some r /\ cut_up alloc_ok s sep r.
Proof.
  intros Hs Hne Hsep. unfold sdssplitlen. pose proof (sep_positive sep Hsep). rewrite (proj2 (Z.ltb_ge _ _)) by lia.
  destruct (alloc_ok (8 * 5)) eqn:Ea; cbn [negb]; [|exists None; split; [done|by exists (8 * 5)]].
  destruct (Z.eqb_spec (zlen s) 0); [by destruct s|]. apply (split_at_sep_ok alloc_ok s sep Hs Hsep (S (length s)) 0 0 5 [] []); [|lia].
  split; [lia|cbn; lia|constructor|done|lia|constructor].
Qed.

Lemma sdssplitlen_cuts_up_witness :
  exists r, sdssplitlen plenty (bs "a--b---c--") (bs "--") = Some r /\ cut_up plenty (bs "a--b---c--") (bs "--") r.
Proof. by apply sdssplitlen_cuts_up. Defined.
