(* ===== verification/Backends.v ===== *)
(** * deps/ae/ae_epoll.c, ae_kqueue.c, ae_select.c, ae_evport.c

    The event loop is compiled with one of four polling back ends.  Each is an
    instance of one interface, [Backend]: adding and deleting an event, and the
    poll, with the answer of the system as an input.  Its contract,
    [BackendLaws], is that the kernel waits for exactly the events of the
    table, and that it aborts only where a call of the kernel fails that it
    cannot do without.  Against that contract the loop is safe whatever its
    callbacks register and delete.  What the kernels do ([epoll_ctl], [kevent],
    [port_associate]) is a parameter with its documented behaviour. *)

From S2P Require Import Prelude EventLoop.

Definition has (m b : Z) : bool := negb (Z.land m b =? 0).

(** The masks of file events. *)
Definition is_mask (m : Z) : Prop := 0 <= m <= 3.

(** How a back end ends: with a value, by [abort], or without a meaning. *)
Inductive result (A : Type) : Type := Ran (a : A) | Aborted | Undefined.
Arguments Ran {_}.
Arguments Aborted {_}.
Arguments Undefined {_}.

#[export] Instance result_ret : MRet result := fun A a => Ran a.
#[export] Instance result_bind : MBind result := fun A B f x => match x with Ran a => f a | Aborted => Aborted | Undefined => Undefined end.

Definition defined {A} (x : option A) : result A := match x with Some a => Ran a | None => Undefined end.

(** It is defined, and what it does has the property, unless there is a reason
    to abort. *)
Definition ends {A} (why : Prop) (P : A -> Prop) (x : result A) : Prop :=
  match x with Ran a => P a | Aborted => why | Undefined => False end.

Lemma ends_bind {A B} why (P : B -> Prop) (f : A -> result B) x : ends why (fun a => ends why P (f a)) x -> ends why P (x ≫= f).
Proof. by destruct x. Qed.

Lemma ends_mono {A} (why why' : Prop) (P Q : A -> Prop) x : ends why P x -> (why -> why') -> (forall a, P a -> Q a) -> ends why' Q x.
Proof. destruct x; cbn; auto. Qed.

Section backends.
Context {fproc tproc cdata : Type}.
Notation loop := (aeEventLoop fproc tproc cdata).

(** ** The interface of a back end

    The flag of [api_add] is false for -1. *)
Class Backend (A R : Type) := {
  api_add : loop -> A -> Z -> Z -> result (bool * A);
  api_del : loop -> A -> Z -> Z -> result A;
  api_poll : loop -> A -> R -> result (list (Z * Z) * A);
  (** [aeApiName] *)
  api_name : bytes;
}.

Definition aeGetApiName (A R : Type) {b : Backend A R} : bytes := api_name.

(** The table with other masks at one descriptor. *)
Definition masks_set (el el' : loop) (fd m : Z) : Prop :=
  setsize el' = setsize el /\ forall fd', mask_at el' fd' = if decide (fd = fd') then m else mask_at el fd'.

(** What the table of a loop is for a back end. *)
Record table_ok (el : loop) : Prop := {
  tok_loop : el_ok el;
  tok_mask fd : is_mask (mask_at el fd);
}.

Class BackendLaws (A R : Type) {b : Backend A R} := {
  (** The tables the back end can serve, what it has told the kernel, the
      answers the system may give, the mask the kernel watches while the poll
      waits, and why it may abort: a call of the kernel that fails, or what a
      poll answers. *)
  servable : Z -> Prop;
  synced : loop -> A -> Prop;
  answers : loop -> A -> R -> Prop;
  watched : loop -> A -> Z -> result Z;
  may_abort : Prop;
  fatal : R -> Prop;
  synced_ext el el' a : (forall fd, mask_at el fd = mask_at el' fd) -> synced el a -> synced el' a;
  add_synced el a fd m :
    table_ok el -> servable (setsize el) -> synced el a -> 0 <= fd < setsize el -> m = AE_READABLE \/ m = AE_WRITABLE ->
    exists ok a', api_add el a fd m = Ran (ok, a')
      /\ (if ok : bool then forall el', masks_set el el' fd (Z.lor (mask_at el fd) m) -> synced el' a' else synced el a');
  del_synced el el' a fd m :
    table_ok el -> servable (setsize el) -> synced el a -> 0 <= fd < setsize el -> is_mask m -> mask_at el fd <> AE_NONE ->
    masks_set el el' fd (Z.land (mask_at el fd) (Z.lnot m)) ->
    ends may_abort (synced el') (api_del el' a fd m);
  watched_synced el a fd : table_ok el -> synced el a -> ends may_abort (fun m => m = mask_at el fd) (watched el a fd);
  poll_synced el a r :
    table_ok el -> synced el a -> answers el a r ->
    ends (may_abort \/ fatal r) (fun x => synced el x.2
      /\ zlen x.1 <= setsize el /\ Forall (fun f => mask_at el f.1 <> AE_NONE /\ is_mask f.2) x.1) (api_poll el a r);
}.

(** ** epoll *)

Definition EPOLLIN : Z := 1.
Definition EPOLLOUT : Z := 4.
Definition EPOLLERR : Z := 8.
Definition EPOLLHUP : Z := 16.
Inductive ctl_op : Type := EPOLL_CTL_ADD | EPOLL_CTL_MOD | EPOLL_CTL_DEL.

(** The kernel's interest list: [epoll_ctl] gives whether it succeeded.  An
    entry is added once, modified and deleted where it is, and modifying or
    deleting an entry that exists succeeds: [aeApiDelEvent] relies on it. *)
Class Epoll (K : Type) := {
  epoll_ctl : K -> ctl_op -> Z -> Z -> bool * K;
  interest : K -> Z -> option Z;
}.

Class EpollLaws (K : Type) {e : Epoll K} := {
  ctl_done k op fd ev k' :
    epoll_ctl k op fd ev = (true, k') ->
    forall fd', interest k' fd' = if decide (fd = fd') then match op with EPOLL_CTL_DEL => None | _ => Some ev end else interest k fd';
  ctl_refused k op fd ev k' : epoll_ctl k op fd ev = (false, k') -> forall fd', interest k' fd' = interest k fd';
  ctl_present k op fd ev w : interest k fd = Some w -> op <> EPOLL_CTL_ADD -> (epoll_ctl k op fd ev).1 = true;
}.

Definition epoll_events (mask : Z) : Z :=
  Z.lor (if has mask AE_READABLE then EPOLLIN else 0) (if has mask AE_WRITABLE then EPOLLOUT else 0).

Definition epoll_mask (ev : Z) : Z :=
  Z.lor (if has ev EPOLLIN then AE_READABLE else 0)
    (if has ev EPOLLOUT || has ev EPOLLERR || has ev EPOLLHUP then AE_WRITABLE else 0).

Section epoll.
Context {K : Type} `{Epoll K}.

Definition epoll_add (el : loop) (k : K) (fd mask : Z) : result (bool * K) :=
  let op := if mask_at el fd =? AE_NONE then EPOLL_CTL_ADD else EPOLL_CTL_MOD in
  let mask := Z.lor mask (mask_at el fd) in
  Ran (epoll_ctl k op fd (epoll_events mask)).

(** The result of [epoll_ctl] is not used. *)
Definition epoll_del (el : loop) (k : K) (fd delmask : Z) : result K :=
  let mask := Z.land (mask_at el fd) (Z.lnot delmask) in
  Ran (epoll_ctl k (if mask =? AE_NONE then EPOLL_CTL_DEL else EPOLL_CTL_MOD) fd (epoll_events mask)).2.

(** The events [epoll_wait] returned, none when it timed out or failed. *)
Definition epoll_poll (el : loop) (k : K) (r : list (Z * Z)) : result (list (Z * Z) * K) :=
  Ran ((fun e => (e.1, epoll_mask e.2)) <$> r, k).

#[export] Instance epoll_backend : Backend K (list (Z * Z)) := { api_add := epoll_add; api_del := epoll_del; api_poll := epoll_poll; api_name := bs "epoll" }.
End epoll.

(** ** select *)

Definition FD_SETSIZE : Z := 1024.

Record fd_sets := FdSets { rfds : gset Z; wfds : gset Z }.

(** [FD_SET] and [FD_CLR] outside the set write outside its array. *)
Definition change_set (f : gset Z -> gset Z -> gset Z) (s : gset Z) (on : bool) (fd : Z) : option (gset Z) :=
  if on then if (0 <=? fd) && (fd <? FD_SETSIZE) then Some (f s {[fd]}) else None else Some s.

Definition change_sets (f : gset Z -> gset Z -> gset Z) (s : fd_sets) (fd mask : Z) : option fd_sets :=
  r ← change_set f (rfds s) (has mask AE_READABLE) fd;
  w ← change_set f (wfds s) (has mask AE_WRITABLE) fd;
  Some (FdSets r w).

Definition select_add (el : loop) (s : fd_sets) (fd mask : Z) : result (bool * fd_sets) :=
  s ← defined (change_sets (∪) s fd mask); Ran (true, s).
Definition select_del (el : loop) (s : fd_sets) (fd mask : Z) : result fd_sets := defined (change_sets (∖) s fd mask).

(** One round over the table; [r] has the sets as [select] left them. *)
Definition select_fired (el : loop) (r : fd_sets) (j : Z) : option (Z * Z) :=
  let m := mask_at el j in
  if m =? AE_NONE then None
  else Some (j, Z.lor (if has m AE_READABLE && bool_decide (j ∈ rfds r) then AE_READABLE else 0)
                      (if has m AE_WRITABLE && bool_decide (j ∈ wfds r) then AE_WRITABLE else 0)).

(** The sets [select] left, or none when it timed out or failed. *)
Definition select_poll (el : loop) (s : fd_sets) (r : option fd_sets) : result (list (Z * Z) * fd_sets) :=
  Ran (match r with Some r => omap (select_fired el r) (seqZ 0 (maxfd el + 1)) | None => [] end, s).

#[export] Instance select_backend : Backend fd_sets (option fd_sets) := { api_add := select_add; api_del := select_del; api_poll := select_poll; api_name := bs "select" }.

(** ** kqueue *)

Inductive filter : Type := EVFILT_READ | EVFILT_WRITE.
Inductive ev_flag : Type := EV_ADD | EV_DELETE.

#[export] Instance filter_eq_dec : EqDecision filter.
Proof. solve_decision. Defined.

(** [kevent] with one change, and the filters of the queue: deleting one that
    is there succeeds, deleting one that is not fails. *)
Class Kqueue (K : Type) := {
  kevent : K -> Z -> filter -> ev_flag -> bool * K;
  filters : K -> Z -> filter -> bool;
}.

Class KqueueLaws (K : Type) {q : Kqueue K} := {
  kevent_done k fd f flag k' : kevent k fd f flag = (true, k') ->
    forall fd' f', filters k' fd' f' = if decide (fd = fd' /\ f = f') then match flag with EV_ADD => true | EV_DELETE => false end else filters k fd' f';
  kevent_refused k fd f flag k' : kevent k fd f flag = (false, k') -> forall fd' f', filters k' fd' f' = filters k fd' f';
  kevent_present k fd f : filters k fd f = true -> (kevent k fd f EV_DELETE).1 = true;
}.

Section kqueue.
Context {K : Type} `{Kqueue K}.

Definition kqueue_add (el : loop) (k : K) (fd mask : Z) : result (bool * K) :=
  let '(ok, k) := if has mask AE_READABLE then kevent k fd EVFILT_READ EV_ADD else (true, k) in
  if negb ok then Ran (false, k)
  else Ran (if has mask AE_WRITABLE then kevent k fd EVFILT_WRITE EV_ADD else (true, k)).

Definition kqueue_del (el : loop) (k : K) (fd mask : Z) : result K :=
  let k := if has mask AE_READABLE then (kevent k fd EVFILT_READ EV_DELETE).2 else k in
  Ran (if has mask AE_WRITABLE then (kevent k fd EVFILT_WRITE EV_DELETE).2 else k).

Definition kqueue_poll (el : loop) (k : K) (r : list (Z * filter)) : result (list (Z * Z) * K) :=
  Ran ((fun e => (e.1, match e.2 with EVFILT_READ => AE_READABLE | EVFILT_WRITE => AE_WRITABLE end)) <$> r, k).

#[export] Instance kqueue_backend : Backend K (list (Z * filter)) := { api_add := kqueue_add; api_del := kqueue_del; api_poll := kqueue_poll; api_name := bs "kqueue" }.
End kqueue.

(** ** Event ports *)

Definition MAX_EVENT_BATCHSZ : Z := 512.
Definition POLLIN : Z := 1.
Definition POLLOUT : Z := 4.

(** The associations of a port: the events and the mask given with them.  An
    association ends when it is reported.  A call may fail; one that could not
    associate leaves the associations. *)
Class Port (K : Type) := {
  port_associate : K -> Z -> Z -> Z -> bool * K;
  port_dissociate : K -> Z -> bool * K;
  port_taken : K -> list Z -> K;
  association : K -> Z -> option (Z * Z);
}.

Class PortLaws (K : Type) {p : Port K} := {
  associate_done k fd ev m k' : port_associate k fd ev m = (true, k') ->
    forall fd', association k' fd' = if decide (fd = fd') then Some (ev, m) else association k fd';
  associate_refused k fd ev m k' : port_associate k fd ev m = (false, k') -> forall fd', association k' fd' = association k fd';
  dissociate_done k fd k' : port_dissociate k fd = (true, k') ->
    forall fd', association k' fd' = if decide (fd = fd') then None else association k fd';
  taken_gone k l fd : association (port_taken k l) fd = if decide (fd ∈ l) then None else association k fd;
}.

(** [port_getn]: it returned events, also with ETIME; it returned none, with
    ETIME or EINTR; another error. *)
Inductive port_answer : Type := PortEvents (l : list (Z * Z * Z)) | PortNothing | PortError.

(** The first [npending] entries of [pending_fds] and [pending_masks]. *)
Record evport_state (K : Type) := Evport { port : K; pending : list (Z * Z) }.
Arguments Evport {K}.
Arguments port {K}.
Arguments pending {K}.

Section evport.
Context {K : Type} `{Port K}.

Fixpoint aeApiLookupPending (l : list (Z * Z)) (fd : Z) : option nat :=
  match l with
  | [] => None
  | (f, _) :: l => if f =? fd then Some 0%nat else S <$> aeApiLookupPending l fd
  end.

Definition aeApiAssociate (k : K) (fd mask : Z) : bool * K :=
  port_associate k fd (Z.lor (if has mask AE_READABLE then POLLIN else 0) (if has mask AE_WRITABLE then POLLOUT else 0)) mask.

Definition evport_add (el : loop) (s : evport_state K) (fd mask : Z) : result (bool * evport_state K) :=
  let fullmask := Z.lor mask (mask_at el fd) in
  match aeApiLookupPending (pending s) fd with
  | Some pfd => Ran (true, Evport (port s) (alter (fun e => (e.1, Z.lor e.2 fullmask)) pfd (pending s)))
  | None => let '(ok, k) := aeApiAssociate (port s) fd fullmask in Ran (ok, Evport k (pending s))
  end.

Definition evport_del (el : loop) (s : evport_state K) (fd mask : Z) : result (evport_state K) :=
  match aeApiLookupPending (pending s) fd with
  | Some pfd =>
      let drop_mask e := let m := Z.land e.2 (Z.lnot mask) in (if m =? AE_NONE then -1 else e.1, m) in
      Ran (Evport (port s) (alter drop_mask pfd (pending s)))
  | None =>
      let fullmask := mask_at el fd in
      let '(ok, k) := if fullmask =? AE_NONE then port_dissociate (port s) fd else aeApiAssociate (port s) fd fullmask in
      if ok then Ran (Evport k (pending s)) else Aborted
  end.

(** The pending descriptors associated again; a failure aborts. *)
Fixpoint reassociate (l : list (Z * Z)) (k : K) : result K :=
  match l with
  | [] => Ran k
  | (fd, mask) :: l =>
      if fd =? -1 then reassociate l k
      else let '(ok, k) := aeApiAssociate k fd mask in if ok : bool then reassociate l k else Aborted
  end.

Definition poll_mask (ev : Z) : Z :=
  Z.lor (if has ev POLLIN then AE_READABLE else 0) (if has ev POLLOUT then AE_WRITABLE else 0).

Definition evport_poll (el : loop) (s : evport_state K) (r : port_answer) : result (list (Z * Z) * evport_state K) :=
  k ← reassociate (pending s) (port s);
  match r with
  | PortEvents l =>
      Ran ((fun e => (e.1.1, poll_mask e.1.2)) <$> l, Evport (port_taken k ((fun e => e.1.1) <$> l)) ((fun e => (e.1.1, e.2)) <$> l))
  | PortNothing => Ran ([], Evport k [])
  | PortError => Aborted
  end.

#[export] Instance evport_backend : Backend (evport_state K) port_answer := { api_add := evport_add; api_del := evport_del; api_poll := evport_poll; api_name := bs "evport" }.
End evport.

(** ** The contract, back end by back end *)

Lemma mask_cases m : is_mask m -> m = 0 \/ m = 1 \/ m = 2 \/ m = 3.
Proof. unfold is_mask. lia. Qed.

Lemma mask_or m b : is_mask m -> b = AE_READABLE \/ b = AE_WRITABLE -> is_mask (Z.lor m b) /\ Z.lor m b <> AE_NONE.
Proof. by intros [->|[->|[->| ->]]]%mask_cases [->| ->]. Qed.

Lemma mask_without m d : is_mask m -> is_mask d -> is_mask (Z.land m (Z.lnot d)).
Proof. by intros [->|[->|[->| ->]]]%mask_cases [->|[->|[->| ->]]]%mask_cases. Qed.

(** The mask is taken off twice: once by the loop, once by the back end. *)
Lemma mask_without_twice m d : Z.land (Z.land m (Z.lnot d)) (Z.lnot d) = Z.land m (Z.lnot d).
Proof. by rewrite <- Z.land_assoc, Z.land_diag. Qed.

Lemma is_mask_select a b : is_mask (Z.lor (if a : bool then AE_READABLE else 0) (if b : bool then AE_WRITABLE else 0)).
Proof. by destruct a, b. Qed.

Lemma masks_set_same (el el' : loop) fd m : masks_set el el' fd m -> mask_at el' fd = m.
Proof. intros [_ ->]. by rewrite decide_True. Qed.

Lemma masks_set_other (el el' : loop) fd m fd' : masks_set el el' fd m -> fd <> fd' -> mask_at el' fd' = mask_at el fd'.
Proof. intros [_ ->] ?. by rewrite decide_False. Qed.

Section epoll_laws.
Context {K : Type} `{EpollLaws K}.

Definition epoll_want (m : Z) : option Z := if m =? AE_NONE then None else Some (epoll_events m).

Lemma epoll_watched m : is_mask m -> default 0 (epoll_mask <$> epoll_want m) = m.
Proof. by intros [->|[->|[->| ->]]]%mask_cases. Qed.

#[export] Program Instance epoll_laws : BackendLaws K (list (Z * Z)) := {
  servable _ := True;
  synced el k := forall fd, interest k fd = epoll_want (mask_at el fd);
  (* [epoll_wait] is called for at most [setsize] events *)
  answers el k r := zlen r <= setsize el /\ Forall (fun e => interest k e.1 <> None) r;
  watched el k fd := Ran (default 0 (epoll_mask <$> interest k fd));
  may_abort := False;
  fatal _ := False;
}.
Next Obligation. intros el el' k E Hs fd. by rewrite <- E. Qed.
Next Obligation.
  intros el k fd m [_ Hm] _ Hs _ Hb. cbn. unfold epoll_add. destruct (epoll_ctl _ _ _ _) as [ok k'] eqn:E.
  exists ok, k'. split; [done|]. destruct (mask_or _ _ (Hm fd) Hb) as [_ Hne]. destruct ok.
  - intros el' [_ Hm'] fd'. rewrite (ctl_done _ _ _ _ _ E), Hm', (Z.lor_comm m). case_decide; [|apply Hs].
    unfold epoll_want. rewrite (proj2 (Z.eqb_neq _ _) Hne). by case_match.
  - intros fd'. by rewrite (ctl_refused _ _ _ _ _ E).
Qed.
Next Obligation.
  intros el el' k fd m [_ Hm] _ Hs _ Hb Hne Hset. cbn. unfold epoll_del. rewrite (masks_set_same _ _ _ _ Hset), mask_without_twice. intros fd'.
  set (op := if _ =? AE_NONE then _ else _). set (ev := epoll_events _). destruct (epoll_ctl k op fd ev) as [ok k'] eqn:E. cbn.
  assert (ok = true) as ->.
  { change ok with (ok, k').1. rewrite <- E. apply (ctl_present _ _ _ _ (epoll_events (mask_at el fd))).
    - rewrite Hs. unfold epoll_want. by rewrite (proj2 (Z.eqb_neq _ _) Hne).
    - subst op. by case_match. }
  rewrite (ctl_done _ _ _ _ _ E). destruct Hset as [_ ->]. case_decide; [|apply Hs]. subst op ev. unfold epoll_want. by case_match.
Qed.
Next Obligation.
  intros el k fd [_ Hm] Hs. cbn. rewrite Hs. by apply epoll_watched.
Qed.
Next Obligation.
  intros el k r [_ Hm] Hs [Hl Hr]. cbn. split; [done|]. rewrite length_fmap. split; [done|]. apply Forall_fmap. eapply Forall_impl; [exact Hr|].
  intros [fd ev] Hi. cbn in *. rewrite Hs in Hi. split; [|apply is_mask_select]. intros E. by rewrite E in Hi.
Qed.
End epoll_laws.

Section select_laws.

Lemma change_set_ok f s (on : bool) fd : 0 <= fd < FD_SETSIZE -> change_set f s on fd = Some (if on then f s {[fd]} else s).
Proof. intros ?. unfold change_set. destruct on; [|done]. by rewrite (proj2 (Z.leb_le _ _)), (proj2 (Z.ltb_lt _ _)) by lia. Qed.

#[export] Program Instance select_laws : BackendLaws fd_sets (option fd_sets) := {
  (* a larger descriptor does not fit an [fd_set] *)
  servable size := size <= FD_SETSIZE;
  synced el s := forall fd, (fd ∈ rfds s <-> has (mask_at el fd) AE_READABLE = true) /\ (fd ∈ wfds s <-> has (mask_at el fd) AE_WRITABLE = true);
  answers el s r := forall r', r = Some r' -> rfds r' ⊆ rfds s /\ wfds r' ⊆ wfds s;
  (* the descriptors below [maxfd + 1] *)
  watched el s fd := Ran (if fd <=? maxfd el
    then Z.lor (if bool_decide (fd ∈ rfds s) then AE_READABLE else 0) (if bool_decide (fd ∈ wfds s) then AE_WRITABLE else 0) else 0);
  may_abort := False;
  fatal _ := False;
}.
Next Obligation. intros el el' s E Hs fd. rewrite <- E. apply Hs. Qed.
Next Obligation.
  intros el s fd m [_ Hm] Hsize Hs Hfd Hb. cbn. unfold select_add, change_sets.
  rewrite !change_set_ok by lia. cbn. do 2 eexists. split; [done|]. intros el' [_ Hm'] fd'. rewrite Hm'. cbn.
  destruct (Hs fd') as [Hr Hw]. case_decide as E.
  - subst fd'. destruct (mask_cases _ (Hm fd)) as [E|[E|[E|E]]]; rewrite E in *; destruct Hb as [->| ->]; cbn; cbn in Hr, Hw; set_solver.
  - destruct Hb as [->| ->]; cbn; set_solver.
Qed.
Next Obligation.
  intros el el' s fd m [_ Hm] Hsize Hs Hfd Hb Hne [_ Hm']. cbn. unfold select_del, change_sets.
  rewrite !change_set_ok by lia. cbn. intros fd'. rewrite Hm'. cbn.
  destruct (Hs fd') as [Hr Hw]. case_decide as E.
  - subst fd'. destruct (mask_cases _ (Hm fd)) as [E|[E|[E|E]]], (mask_cases _ Hb) as [->|[->|[->| ->]]]; rewrite E in *; cbn; cbn in Hr, Hw; set_solver.
  - destruct (mask_cases _ Hb) as [->|[->|[->| ->]]]; cbn; set_solver.
Qed.
Next Obligation.
  intros el s fd [Hok Hm] Hs. cbn. destruct (Hs fd) as [Hr Hw]. rewrite (bool_decide_ext _ _ Hr), (bool_decide_ext _ _ Hw).
  destruct (Z.leb_spec fd (maxfd el)).
  - by destruct (mask_cases _ (Hm fd)) as [->|[->|[->| ->]]].
  - destruct (decide (mask_at el fd = AE_NONE)) as [->|Hne]; [done|]. pose proof (ok_range _ Hok fd Hne). lia.
Qed.
Next Obligation.
  intros el s r [Hok Hm] Hs _. cbn.
  split; [done|]. pose proof (ok_size _ Hok). destruct r as [r|]; [|split; [cbn; lia|done]]. split.
  - transitivity (zlen (seqZ 0 (maxfd el + 1))); [|rewrite length_seqZ; lia]. apply inj_le.
    generalize (seqZ 0 (maxfd el + 1)). intros l. induction l as [|j l IH]; [done|]. cbn. case_match; cbn; lia.
  - apply Forall_forall. intros [fd m] (j & _ & Hj)%list_elem_of_omap. unfold select_fired in Hj.
    destruct (mask_at el j =? AE_NONE) eqn:E; [done|]. injection Hj as <- <-. split; [by apply Z.eqb_neq|apply is_mask_select].
Qed.
End select_laws.

Section kqueue_laws.
Context {K : Type} `{KqueueLaws K}.

Definition filter_bit (f : filter) : Z := match f with EVFILT_READ => AE_READABLE | EVFILT_WRITE => AE_WRITABLE end.

(** A filter is gone after it was deleted. *)
Lemma kevent_delete (b : bool) k fd f : forall fd' f',
  filters (if b then (kevent k fd f EV_DELETE).2 else k) fd' f' = if b && bool_decide (fd = fd') && bool_decide (f = f') then false else filters k fd' f'.
Proof.
  intros fd' f'. destruct b; [|done]. destruct (kevent k fd f EV_DELETE) as [[] k'] eqn:E; cbn.
  - rewrite (kevent_done _ _ _ _ _ E). rewrite <- bool_decide_and. case_decide; [by rewrite bool_decide_eq_true_2|by rewrite bool_decide_eq_false_2].
  - rewrite (kevent_refused _ _ _ _ _ E). rewrite <- bool_decide_and. case_bool_decide as Hf; [|done]. destruct Hf as [-> ->].
    destruct (filters k fd' f') eqn:Ef; [|done]. pose proof (kevent_present _ _ _ Ef) as Hp. by rewrite E in Hp.
Qed.

#[export] Program Instance kqueue_laws : BackendLaws K (list (Z * filter)) := {
  servable _ := True;
  synced el k := forall fd f, filters k fd f = has (mask_at el fd) (filter_bit f);
  (* [kevent] is called for at most [setsize] events *)
  answers el k r := zlen r <= setsize el /\ Forall (fun e => filters k e.1 e.2 = true) r;
  watched el k fd := Ran (Z.lor (if filters k fd EVFILT_READ then AE_READABLE else 0) (if filters k fd EVFILT_WRITE then AE_WRITABLE else 0));
  may_abort := False;
  fatal _ := False;
}.
Next Obligation. intros el el' k E Hs fd. by rewrite <- E. Qed.
Next Obligation.
  intros el k fd m [_ Hm] _ Hs _ Hb. cbn. unfold kqueue_add.
  assert (exists f, m = filter_bit f) as [f ->] by (destruct Hb as [->| ->]; [by exists EVFILT_READ|by exists EVFILT_WRITE]).
  destruct (kevent k fd f EV_ADD) as [ok k'] eqn:E. exists ok, k'. split.
  { assert (has (filter_bit f) AE_READABLE = bool_decide (f = EVFILT_READ) /\ has (filter_bit f) AE_WRITABLE = bool_decide (f = EVFILT_WRITE)) as [-> ->] by (by destruct f).
    destruct f; cbn [bool_decide decide]; rewrite ?bool_decide_eq_true_2, ?bool_decide_eq_false_2 by done; cbn [negb]; rewrite E; by destruct ok. }
  destruct ok.
  - intros el' [_ Hm'] fd' f'. rewrite (kevent_done _ _ _ _ _ E), Hm', Hs.
    destruct (decide (fd = fd')) as [->|]; [|by rewrite decide_False by tauto].
    rewrite (decide_ext _ (f = f')) by tauto. by destruct (mask_cases _ (Hm fd')) as [->|[->|[->| ->]]], f, f'.
  - intros fd' f'. by rewrite (kevent_refused _ _ _ _ _ E).
Qed.
Next Obligation.
  intros el el' k fd m [_ Hm] _ Hs _ Hb Hne [_ Hm']. cbn. unfold kqueue_del. intros fd' f'. rewrite Hm'.
  rewrite !kevent_delete, Hs. destruct (decide (fd = fd')) as [->|Hne'].
  - rewrite bool_decide_eq_true_2 by done. by destruct (mask_cases _ (Hm fd')) as [->|[->|[->| ->]]], (mask_cases _ Hb) as [->|[->|[->| ->]]], f'.
  - rewrite bool_decide_eq_false_2 by done. by rewrite !andb_false_r.
Qed.
Next Obligation.
  intros el k fd [_ Hm] Hs. cbn. rewrite !Hs. by destruct (mask_cases _ (Hm fd)) as [->|[->|[->| ->]]].
Qed.
Next Obligation.
  intros el k r [_ Hm] Hs [Hl Hr]. cbn.
  split; [done|]. rewrite length_fmap. split; [done|]. apply Forall_fmap. eapply Forall_impl; [exact Hr|].
  intros [fd f] Hi. cbn in *. rewrite Hs in Hi. split; [intros E; rewrite E in Hi; by destruct f|by destruct f].
Qed.
End kqueue_laws.

(** Different descriptors of the table are no more than its entries. *)
Lemma descriptors_fit (l : list Z) n : 0 <= n -> NoDup l -> Forall (fun fd => 0 <= fd < n) l -> zlen l <= n.
Proof.
  intros Hpos Hn Hl.
  transitivity (zlen (seqZ 0 n)); [|rewrite length_seqZ; lia]. apply inj_le, submseteq_length, NoDup_submseteq; [done|].
  intros fd Hfd. rewrite Forall_forall in Hl. specialize (Hl _ Hfd). apply elem_of_seqZ. lia.
Qed.

Section evport_laws.
Context {K : Type} `{PortLaws K}.

Definition port_want (m : Z) : option (Z * Z) :=
  if m =? AE_NONE then None
  else Some (Z.lor (if has m AE_READABLE then POLLIN else 0) (if has m AE_WRITABLE then POLLOUT else 0), m).

Definition is_pending (l : list (Z * Z)) (fd : Z) : Prop := fd <> -1 /\ exists i m, l !! i = Some (fd, m).

(** Each descriptor with events is either associated with its mask or pending
    with it, once. *)
Record port_synced (el : loop) (s : evport_state K) : Prop := {
  ps_once i j fd m m' : fd <> -1 -> pending s !! i = Some (fd, m) -> pending s !! j = Some (fd, m') -> i = j;
  ps_pending i fd m : fd <> -1 -> pending s !! i = Some (fd, m) ->
    m = mask_at el fd /\ m <> AE_NONE /\ association (port s) fd = None;
  ps_port fd : ~ is_pending (pending s) fd -> association (port s) fd = port_want (mask_at el fd);
}.

Lemma lookup_pending l fd : match aeApiLookupPending l fd with
  | Some i => exists m, l !! i = Some (fd, m)
  | None => forall i m, l !! i <> Some (fd, m)
  end.
Proof.
  induction l as [|[f m] l IH]; cbn; [intros i m'; by rewrite lookup_nil|].
  destruct (Z.eqb_spec f fd) as [->|Hne]; [by exists m|]. destruct (aeApiLookupPending l fd); [done|].
  intros [|i] m' E; cbn in E; [congruence|]. by apply (IH i m').
Qed.

(** Why a port makes the process abort. *)
Definition port_refuses : Prop :=
  (exists k fd ev m, (port_associate k fd ev m).1 = false) \/ exists k fd x, association k fd = Some x /\ (port_dissociate k fd).1 = false.

Lemma associate_ok k fd m : exists (ok : bool) k', aeApiAssociate k fd m = (ok, k')
  /\ if ok then forall fd', association k' fd' = if decide (fd = fd')
         then Some (Z.lor (if has m AE_READABLE then POLLIN else 0) (if has m AE_WRITABLE then POLLOUT else 0), m) else association k fd'
     else (forall fd', association k' fd' = association k fd') /\ port_refuses.
Proof.
  unfold aeApiAssociate. destruct (port_associate _ _ _ _) as [[] k'] eqn:E.
  - exists true, k'. split; [done|]. by eapply associate_done.
  - exists false, k'. split; [done|]. split; [by eapply associate_refused|]. left. do 4 eexists. by rewrite E.
Qed.

Lemma port_want_some m : m <> AE_NONE ->
  port_want m = Some (Z.lor (if has m AE_READABLE then POLLIN else 0) (if has m AE_WRITABLE then POLLOUT else 0), m).
Proof. intros Hm. unfold port_want. by rewrite (proj2 (Z.eqb_neq _ _) Hm). Qed.

Lemma reassociate_ok l : forall k,
  (forall i j fd m m', fd <> -1 -> l !! i = Some (fd, m) -> l !! j = Some (fd, m') -> i = j) ->
  ends port_refuses (fun k' =>
    (forall i fd m, fd <> -1 -> m <> AE_NONE -> l !! i = Some (fd, m) -> association k' fd = port_want m)
    /\ (forall fd, ~ is_pending l fd -> association k' fd = association k fd)) (reassociate l k).
Proof.
  induction l as [|[f x] l IH]; intros k Ho; cbn [reassociate]; [by split|].
  assert (forall i j fd m m', fd <> -1 -> l !! i = Some (fd, m) -> l !! j = Some (fd, m') -> i = j) as Ho'.
  { intros i j fd m m' Hne Hi Hj. assert (S i = S j) as [= ->] by (by eapply Ho). done. }
  assert (forall fd, ~ is_pending ((f, x) :: l) fd -> ~ is_pending l fd) as Hnp.
  { intros fd Hn [Hne (i & m & Hi)]. apply Hn. split; [done|]. by exists (S i), m. }
  destruct (Z.eqb_spec f (-1)) as [->|Hf].
  - eapply ends_mono; [exact (IH k Ho')|done|]. intros k' [H1 H2]. split; [|intros fd Hn; by apply H2, Hnp].
    intros [|i] fd m Hne Hm Hi; cbn in Hi; [congruence|by eapply H1].
  - destruct (associate_ok k f x) as ([] & k1 & -> & Ha); [|by destruct Ha].
    eapply ends_mono; [exact (IH k1 Ho')|done|]. intros k' [H1 H2]. split.
    + intros [|i] fd m Hne Hm Hi; cbn in Hi; [|by eapply H1]. injection Hi as -> ->. rewrite H2.
      * by rewrite Ha, decide_True, port_want_some.
      * intros [_ (j & m' & Hj)]. assert (0%nat = S j) as [=] by (by eapply (Ho 0%nat (S j))).
    + intros fd Hn. rewrite H2 by (by apply Hnp). rewrite Ha. rewrite decide_False; [done|]. intros ->. apply Hn. split; [done|]. by exists 0%nat, x.
Qed.

(** After the pending descriptors are associated again, the port has every
    descriptor with its mask. *)
Lemma reassociated el s : port_synced el s ->
  ends port_refuses (fun k => forall fd, association k fd = port_want (mask_at el fd)) (reassociate (pending s) (port s)).
Proof.
  intros [Ho Hp Hk]. eapply ends_mono; [exact (reassociate_ok (pending s) (port s) Ho)|done|]. intros k [H1 H2] fd.
  pose proof (lookup_pending (pending s) fd) as Hl. destruct (decide (fd = -1)) as [->|Hne].
  - assert (~ is_pending (pending s) (-1)) as Hn by (by intros [? _]). by rewrite H2, Hk.
  - destruct (aeApiLookupPending (pending s) fd) as [i|].
    + destruct Hl as [m Hi]. destruct (Hp i fd m Hne Hi) as (<- & Hm & _). by eapply H1.
    + assert (~ is_pending (pending s) fd) as Hn by (intros [_ (i & m & Hi)]; by apply (Hl i m)). by rewrite H2, Hk.
Qed.

Definition port_watched (s : evport_state K) (fd : Z) : result Z :=
  k ← reassociate (pending s) (port s); Ran (default 0 (snd <$> association k fd)).

(** What [port_getn] may return for the associations. *)
Definition port_answers (s : evport_state K) (r : port_answer) : Prop :=
  match r with
  | PortEvents l => NoDup ((fun e => e.1.1) <$> l) /\ forall k, reassociate (pending s) (port s) = Ran k ->
      Forall (fun e => exists ev, association k e.1.1 = Some (ev, e.2)) l
  | PortNothing | PortError => True
  end.

(** What a port reports is pending with its mask. *)
Lemma taken_synced el k l : (forall fd, association k fd = port_want (mask_at el fd)) -> NoDup ((fun e : Z * Z * Z => e.1.1) <$> l) ->
  (forall e, e ∈ l -> e.2 = mask_at el e.1.1 /\ e.2 <> AE_NONE) -> (forall e, e ∈ l -> 0 <= e.1.1 < setsize el) ->
  port_synced el (Evport (port_taken k ((fun e => e.1.1) <$> l)) ((fun e => (e.1.1, e.2)) <$> l)).
Proof.
  intros Hk Hnd Hin Hrange.
  assert (forall i fd m, ((fun e : Z * Z * Z => (e.1.1, e.2)) <$> l) !! i = Some (fd, m) ->
    ((fun e : Z * Z * Z => e.1.1) <$> l) !! i = Some fd /\ exists e, e ∈ l /\ e.1.1 = fd /\ e.2 = m) as Hlk.
  { intros i fd m Hi. rewrite list_lookup_fmap in Hi. rewrite list_lookup_fmap. destruct (l !! i) as [[[a ev] u]|] eqn:Ei; [|done].
    cbn in *. injection Hi as -> ->. split; [done|]. exists (fd, ev, m). split; [by eapply list_elem_of_lookup_2|done]. }
  split; cbn.
  - intros i j fd m m' _ Hi Hj. apply Hlk in Hi as [Hi _], Hj as [Hj _]. by eapply NoDup_lookup.
  - intros i fd m _ Hi. apply Hlk in Hi as (Hi & e & He & <- & <-). destruct (Hin e He) as [E Hne]. split_and!; [done|done|].
    rewrite taken_gone, decide_True; [done|]. apply list_elem_of_fmap. by exists e.
  - intros fd Hn. rewrite taken_gone. case_decide as Hfd; [|apply Hk]. apply list_elem_of_fmap in Hfd as (e & -> & He). destruct Hn.
    split; [specialize (Hrange e He); lia|]. apply list_elem_of_lookup_1 in He as [i Hi]. exists i, e.2. by rewrite list_lookup_fmap, Hi.
Qed.

#[export] Program Instance evport_laws : BackendLaws (evport_state K) port_answer := {
  servable _ := True;
  synced := port_synced;
  answers el := port_answers;
  watched el := port_watched;
  may_abort := port_refuses;
  fatal r := r = PortError;
}.
Next Obligation. intros el el' s E [Ho Hp Hk]. split; [done|intros i fd; rewrite <- E; apply Hp|intros fd; rewrite <- E; apply Hk]. Qed.
Next Obligation.
  intros el s fd m [_ Hm] _ Hs Hfd Hb. cbn. unfold evport_add. pose proof Hs as [Ho Hp Hk]. pose proof (lookup_pending (pending s) fd) as Hl.
  destruct (mask_or _ _ (Hm fd) Hb) as [_ Hne]. assert (fd <> -1) as Hfd1 by lia. destruct (aeApiLookupPending (pending s) fd) as [pfd|].
  - destruct Hl as [x Hx]. destruct (Hp pfd fd x Hfd1 Hx) as (-> & Hx0 & Ha). do 2 eexists. split; [done|]. intros el' Hset.
    assert (forall i f y, alter (fun e => (e.1, Z.lor e.2 (Z.lor m (mask_at el fd)))) pfd (pending s) !! i = Some (f, y) ->
      (i = pfd /\ f = fd /\ y = Z.lor (mask_at el fd) m) \/ (i <> pfd /\ pending s !! i = Some (f, y))) as Hlk.
    { intros i f y. destruct (decide (i = pfd)) as [->|Hi]; [|rewrite list_lookup_alter_ne by done; by right].
      rewrite list_lookup_alter_eq, Hx. cbn. intros [= <- <-]. left. split_and!; [done|done|].
      by rewrite (Z.lor_comm m), Z.lor_assoc, Z.lor_diag. }
    split; cbn.
    + intros i j f y y' Hf Hi Hj. apply Hlk in Hi, Hj. destruct Hi as [(-> & -> & _)|[Hi0 Hi]], Hj as [(-> & Hjf & _)|[Hj0 Hj]]; try done; simplify_eq.
      * by eapply Ho.
      * by eapply Ho.
      * by eapply Ho.
    + intros i f y Hf Hi. apply Hlk in Hi as [(-> & -> & ->)|[Hi0 Hi]]; [by rewrite (masks_set_same _ _ _ _ Hset)|].
      destruct (Hp i f y Hf Hi) as (-> & ? & ?). rewrite (masks_set_other _ _ _ _ f Hset); [done|]. intros <-. apply Hi0. by eapply Ho.
    + intros f Hn. assert (f <> fd).
      { intros ->. apply Hn. split; [done|]. exists pfd. eexists. by rewrite list_lookup_alter_eq, Hx. }
      rewrite (masks_set_other _ _ _ _ f Hset) by done. apply Hk. intros [Hf (i & y & Hi)]. apply Hn. split; [done|].
      exists i, y. rewrite list_lookup_alter_ne; [done|]. intros <-. congruence.
  - destruct (associate_ok (port s) fd (Z.lor m (mask_at el fd))) as (ok & k' & -> & Ha). do 2 eexists. split; [done|]. destruct ok.
    2: { destruct Ha as [Ha _]. split; cbn; [done| |]; intros; rewrite Ha; [by eapply Hp|by apply Hk]. }
    intros el' Hset. rewrite (Z.lor_comm m) in Ha. split; cbn; [done| |].
    + intros i f y Hf Hi. assert (fd <> f) by (intros ->; by apply (Hl i y)).
      rewrite (masks_set_other _ _ _ _ f Hset), Ha, decide_False by done. by eapply Hp.
    + intros f Hn. rewrite Ha. case_decide as E; [subst f; by rewrite (masks_set_same _ _ _ _ Hset), port_want_some|].
      rewrite (masks_set_other _ _ _ _ f Hset) by done. by apply Hk.
Qed.
Next Obligation.
  intros el el' s fd m [_ Hm] _ Hs Hfd Hb Hne Hset. cbn. unfold evport_del. pose proof Hs as [Ho Hp Hk]. pose proof (lookup_pending (pending s) fd) as Hl.
  assert (fd <> -1) as Hfd1 by lia. set (m' := Z.land (mask_at el fd) (Z.lnot m)) in *. destruct (aeApiLookupPending (pending s) fd) as [pfd|].
  - destruct Hl as [x Hx]. destruct (Hp pfd fd x Hfd1 Hx) as (-> & Hx0 & Ha). cbn [ends].
    set (g := fun e : Z * Z => _). assert (g (fd, mask_at el fd) = (if m' =? AE_NONE then -1 else fd, m')) as Hg by done.
    assert (forall i f y, f <> -1 -> alter g pfd (pending s) !! i = Some (f, y) ->
      (i = pfd /\ f = fd /\ y = m' /\ m' <> AE_NONE) \/ (i <> pfd /\ pending s !! i = Some (f, y))) as Hlk.
    { intros i f y Hf. destruct (decide (i = pfd)) as [->|Hi]; [|rewrite list_lookup_alter_ne by done; by right].
      rewrite list_lookup_alter_eq, Hx. cbn. rewrite Hg. destruct (Z.eqb_spec m' AE_NONE); intros [= <- <-]; [done|by left]. }
    clearbody g. split; cbn.
    + intros i j f y y' Hf Hi Hj. apply Hlk in Hi, Hj; [|done|done]. destruct Hi as [(-> & -> & _)|[Hi0 Hi]], Hj as [(-> & Hjf & _)|[Hj0 Hj]]; try done; simplify_eq.
      * by eapply Ho.
      * by eapply Ho.
      * by eapply Ho.
    + intros i f y Hf Hi. apply Hlk in Hi as [(-> & -> & -> & ?)|[Hi0 Hi]]; [by rewrite (masks_set_same _ _ _ _ Hset)| |done].
      destruct (Hp i f y Hf Hi) as (-> & ? & ?). rewrite (masks_set_other _ _ _ _ f Hset); [done|]. intros <-. apply Hi0. by eapply Ho.
    + intros f Hn. destruct (decide (fd = f)) as [<-|Hff].
      { rewrite (masks_set_same _ _ _ _ Hset), Ha. unfold port_want. destruct (Z.eqb_spec m' AE_NONE) as [|Hm']; [done|]. destruct Hn.
        split; [done|]. exists pfd, m'. rewrite list_lookup_alter_eq, Hx. cbn. rewrite Hg. by destruct (Z.eqb_spec m' AE_NONE). }
      rewrite (masks_set_other _ _ _ _ f Hset) by done. apply Hk. intros [Hf (i & y & Hi)]. apply Hn. split; [done|].
      exists i, y. rewrite list_lookup_alter_ne; [done|]. intros <-. congruence.
  - rewrite (masks_set_same _ _ _ _ Hset). fold m'.
    assert (association (port s) fd = port_want (mask_at el fd)) as Hold by (apply Hk; intros [_ (i & y & Hi)]; by apply (Hl i y)).
    rewrite port_want_some in Hold by done.
    assert (exists (ok : bool) k', (if m' =? AE_NONE then port_dissociate (port s) fd else aeApiAssociate (port s) fd m') = (ok, k')
      /\ if ok then forall fd', association k' fd' = if decide (fd = fd') then port_want m' else association (port s) fd' else port_refuses)
      as (ok & k' & -> & Ha).
    { unfold port_want. destruct (m' =? AE_NONE).
      - destruct (port_dissociate (port s) fd) as [ok k'] eqn:Ed. exists ok, k'. split; [done|]. destruct ok; [by eapply dissociate_done|].
        right. do 3 eexists. split; [exact Hold|]. by rewrite Ed.
      - destruct (associate_ok (port s) fd m') as (ok & k' & -> & Ha). exists ok, k'. split; [done|]. destruct ok; [done|apply Ha]. }
    destruct ok; [|exact Ha]. split; cbn; [done| |].
    + intros i f y Hf Hi. assert (fd <> f) by (intros ->; by apply (Hl i y)).
      rewrite (masks_set_other _ _ _ _ f Hset), Ha, decide_False by done. by eapply Hp.
    + intros f Hn. rewrite Ha. case_decide as E; [subst f; by rewrite (masks_set_same _ _ _ _ Hset)|].
      rewrite (masks_set_other _ _ _ _ f Hset) by done. by apply Hk.
Qed.
Next Obligation.
  intros el s fd [Hok Hm] Hs. unfold port_watched. apply ends_bind. eapply ends_mono; [exact (reassociated el s Hs)|done|].
  intros k Hk. cbn. rewrite Hk. unfold port_want. by destruct (Z.eqb_spec (mask_at el fd) AE_NONE) as [->|].
Qed.
Next Obligation.
  intros el s r [Hok Hm] Hs Hr. cbn. unfold evport_poll. pose proof (reassociated el s Hs) as Hre.
  destruct (reassociate (pending s) (port s)) as [k| |] eqn:Ek; cbn [ends mbind result_bind] in Hre |- *; [rename Hre into Hk|by left|done].
  pose proof (ok_size _ Hok). destruct r as [l| |]; cbn [ends fst snd]; [| |by right].
  + destruct Hr as [Hnd Hl]. specialize (Hl k Ek).
    assert (forall e, e ∈ l -> e.2 = mask_at el e.1.1 /\ e.2 <> AE_NONE) as Hin.
    { rewrite Forall_forall in Hl. intros e He. destruct (Hl e He) as [ev Hev]. rewrite Hk in Hev. unfold port_want in Hev.
      destruct (Z.eqb_spec (mask_at el e.1.1) AE_NONE); [done|]. injection Hev as _ <-. done. }
    assert (forall e, e ∈ l -> 0 <= e.1.1 < setsize el) as Hrange.
    { intros e He. destruct (Hin e He) as [E Hne]. rewrite E in Hne. pose proof (ok_range _ Hok _ Hne). lia. }
    split; [|split].
    * by apply taken_synced.
    * rewrite length_fmap, <- (length_fmap (fun e : Z * Z * Z => e.1.1)). apply descriptors_fit; [lia|done|].
      apply Forall_fmap, Forall_forall. exact Hrange.
    * apply Forall_fmap, Forall_forall. intros e He. cbn. destruct (Hin e He) as [<- ?]. split; [done|apply is_mask_select].
  + split; [|split; [cbn; lia|done]]. split; cbn; [done|done|]. intros fd _. apply Hk.
Qed.
End evport_laws.
End backends.

#[global] Arguments Evport {K}.
#[global] Arguments port {K}.
#[global] Arguments pending {K}.
