(* ===== verification/Polling.v ===== *)
(** * The event loop over its polling back end

    The loop of ae.c with the back end it is compiled with: creating and
    deleting a file event changes the table and what the kernel watches, and a
    poll runs the callbacks of what was reported, which create and delete
    events themselves.  A process that aborted does nothing more.  Proved
    against the contract of the back ends (Backends.v), then for each of the
    four. *)

From S2P Require Import Prelude EventLoop Backends.

Section loop.
Context {fproc tproc cdata : Type} `{EqDecision fproc}.
Notation loop := (aeEventLoop fproc tproc cdata).
Context {A R E : Type} {b : @Backend fproc tproc cdata A R}.

(** The loop; the back end, where the process goes on; and what else the
    callbacks act on. *)
Notation state := (loop * (result A * E))%type.

(** ** Creating and deleting events *)

Definition create_event (el : loop) (a : A) (fd m : Z) (p : fproc) (d : option cdata) : result (loop * A) :=
  if fd >=? setsize el then Ran (el, a)
  else if fd <? 0 then Undefined
  else
    '(ok, a) ← api_add el a fd m;
    match aeCreateFileEvent (fun _ _ _ => ok) el fd m p d with
    | Some (AE_OK el) => Ran (el, a)
    | Some AE_ERR => Ran (el, a)
    | None => Undefined
    end.

Definition delete_event (el : loop) (a : A) (fd m : Z) : result (loop * A) :=
  el' ← defined (aeDeleteFileEvent el fd m);
  if (fd >=? setsize el) || (mask_at el fd =? AE_NONE) then Ran (el', a)
  else a ← api_del el' a fd m; Ran (el', a).

Inductive action : Type :=
| ACreate (fd m : Z) (p : fproc) (d : option cdata)
| ADelete (fd m : Z).

Definition run_action (st : loop * A) (x : action) : result (loop * A) :=
  match x with
  | ACreate fd m p d => create_event st.1 st.2 fd m p d
  | ADelete fd m => delete_event st.1 st.2 fd m
  end.

Fixpoint run_actions (st : loop * A) (l : list action) : result (loop * A) :=
  match l with [] => Ran st | x :: l => st ← run_action st x; run_actions st l end.

(** ** Polling *)

(** What a callback does to the loop, and to the rest. *)
Variable callback : fproc -> Z -> option cdata -> Z -> loop -> E -> list action * E.

(** What the process is after [x], in [st] before it. *)
Definition after (st : state) (e : E) (x : result (loop * A)) : state :=
  match x with
  | Ran (el, a) => (el, (Ran a, e))
  | Aborted => (st.1, (Aborted, e))
  | Undefined => (st.1, (Undefined, e))
  end.

Definition call (p : fproc) (fd : Z) (d : option cdata) (m : Z) (st : state) : state :=
  match st.2.1 with
  | Ran a => let '(l, e) := callback p fd d m st.1 st.2.2 in after st e (run_actions (st.1, a) l)
  | Aborted | Undefined => st
  end.

Inductive loop_event : Type := EAct (x : action) | EPoll (r : R).

Definition run_event (st : state) (ev : loop_event) : option state :=
  match st.2.1 with
  | Ran a =>
      match ev with
      | EAct x => Some (after st st.2.2 (run_action (st.1, a) x))
      | EPoll r =>
          match api_poll st.1 a r with
          | Ran (fired, a) => dispatch_all call fired (st.1, (Ran a, st.2.2))
          | Aborted => Some (st.1, (Aborted, st.2.2))
          | Undefined => Some (st.1, (Undefined, st.2.2))
          end
      end
  | Aborted | Undefined => Some st
  end.

Fixpoint run_events (st : state) (l : list loop_event) : option state :=
  match l with [] => Some st | ev :: l => st ← run_event st ev; run_events st l end.

(** ** What holds of every state *)

(** An event has the callback it is for. *)
Definition procs_ok (el : loop) : Prop := forall fd,
  (has (mask_at el fd) AE_READABLE = true -> is_Some (rfileProc (event_at el fd)))
  /\ (has (mask_at el fd) AE_WRITABLE = true -> is_Some (wfileProc (event_at el fd))).

Definition action_ok (x : action) : Prop :=
  match x with
  | ACreate fd m _ _ => 0 <= fd /\ (m = AE_READABLE \/ m = AE_WRITABLE)
  | ADelete fd m => 0 <= fd /\ is_mask m
  end.

Context {bl : @BackendLaws fproc tproc cdata A R b}.

Record loop_ok (el : loop) (a : A) : Prop := {
  lo_table : table_ok el;
  lo_size : servable (setsize el);
  lo_procs : procs_ok el;
  lo_synced : synced el a;
}.

Hypothesis callback_ok : forall p fd d m el e, Forall action_ok (callback p fd d m el e).1.

(** Creating and deleting, in the table. *)
Lemma create_ok el fd m p d : table_ok el -> procs_ok el -> 0 <= fd < setsize el -> m = AE_READABLE \/ m = AE_WRITABLE ->
  exists el', aeCreateFileEvent (fun _ _ _ => true) el fd m p d = Some (AE_OK el')
    /\ masks_set el el' fd (Z.lor (mask_at el fd) m) /\ table_ok el' /\ procs_ok el'.
Proof.
  intros [Hok Hm] Hp Hfd Hb.
  assert (exists el', aeCreateFileEvent (fun _ _ _ => true) el fd m p d = Some (AE_OK el')
    /\ forall fd', event_at el' fd' = if decide (fd = fd') then FileEvent (Z.lor (mask_at el fd) m)
        (if Z.land m AE_READABLE =? 0 then rfileProc (event_at el fd) else Some p)
        (if Z.land m AE_WRITABLE =? 0 then wfileProc (event_at el fd) else Some p) d else event_at el fd') as (el' & E1 & Hev).
  { unfold aeCreateFileEvent. replace (fd >=? setsize el) with false by lia. replace (fd <? 0) with false by lia.
    eexists. split; [done|]. intros fd'. apply event_at_insert. }
  pose proof (create_masks (fun _ _ _ => true) _ _ _ _ _ _ E1) as (_ & Hs & _ & Hms).
  exists el'. split; [done|]. split; [by split|]. split; [split|].
  - eapply (maxfd_create (fun _ _ _ => true)); [exact Hok| |exact E1]. by destruct Hb as [->| ->].
  - intros fd'. rewrite Hms. case_decide; [|done]. by apply mask_or.
  - intros fd'. unfold mask_at. rewrite Hev. case_decide as Ed; [|apply Hp]. subst fd'. destruct (Hp fd) as [H1 H2]. cbn.
    unfold mask_at in *. destruct (mask_cases _ (Hm fd)) as [E0|[E0|[E0|E0]]]; unfold mask_at in E0; rewrite E0 in *;
      destruct Hb as [->| ->]; cbn; cbn in H1, H2; split; intros ?; try done; eauto.
Qed.

Lemma delete_ok el fd m : table_ok el -> procs_ok el -> 0 <= fd -> is_mask m ->
  exists el', aeDeleteFileEvent el fd m = Some el' /\ setsize el' = setsize el /\ table_ok el' /\ procs_ok el'
    /\ (fd < setsize el -> masks_set el el' fd (Z.land (mask_at el fd) (Z.lnot m)))
    /\ (setsize el <= fd \/ mask_at el fd = AE_NONE -> el' = el).
Proof.
  intros [Hok Hm] Hp Hfd Hb. destruct (delete_masks (fun _ _ _ => true) el fd m Hfd) as (el' & Ed & Hs & Hms). exists el'. split; [done|]. split; [done|].
  assert (setsize el <= fd \/ mask_at el fd = AE_NONE -> el' = el) as Hsame.
  { intros Hcase. unfold aeDeleteFileEvent in Ed. destruct (fd >=? setsize el) eqn:?; [by injection Ed|].
    replace (fd <? 0) with false in Ed by lia. destruct Hcase as [|Hz]; [lia|]. unfold mask_at in Hz. rewrite Hz in Ed. by injection Ed. }
  assert (forall fd', rfileProc (event_at el' fd') = rfileProc (event_at el fd') /\ wfileProc (event_at el' fd') = wfileProc (event_at el fd')) as Hpr.
  { intros fd'. destruct (decide (setsize el <= fd \/ mask_at el fd = AE_NONE)) as [Hc|Hc]; [by rewrite Hsame|].
    unfold aeDeleteFileEvent in Ed. replace (fd >=? setsize el) with false in Ed by lia. replace (fd <? 0) with false in Ed by lia.
    destruct (Z.eqb_spec (mask (event_at el fd)) AE_NONE); [tauto|]. injection Ed as <-. rewrite event_at_insert. by destruct (decide (fd = fd')) as [->|]. }
  split; [split|split; [|split; [|done]]].
  - destruct (maxfd_delete (fun _ _ _ => true) el fd m Hok Hfd) as (el'' & Ed' & H). rewrite Ed in Ed'. by injection Ed' as <-.
  - intros fd'. rewrite Hms. destruct (decide (fd = fd' /\ _)); [by apply mask_without|done].
  - intros fd'. destruct (Hpr fd') as [-> ->]. destruct (Hp fd') as [H1 H2]. rewrite Hms. destruct (decide (fd = fd' /\ _)) as [Ed'|]; [|done]. destruct Ed' as [-> _].
    destruct (mask_cases _ (Hm fd')) as [E0|[E0|[E0|E0]]]; rewrite E0 in *; destruct (mask_cases _ Hb) as [->|[->|[->| ->]]];
      cbn; cbn in H1, H2; split; intros ?; try done; eauto.
  - intros Hlt. split; [done|]. intros fd'. rewrite Hms. apply decide_ext. tauto.
Qed.

(** *** With the back end *)

(** What an action leaves: a good loop of the same size, unless it aborts. *)
Notation leaves el := (ends may_abort (fun st : loop * A => loop_ok st.1 st.2 /\ setsize st.1 = setsize el)).

Lemma create_event_ok el a fd m p d : loop_ok el a -> 0 <= fd -> m = AE_READABLE \/ m = AE_WRITABLE -> leaves el (create_event el a fd m p d).
Proof.
  intros Hl Hfd Hb. pose proof Hl as [Ht Hz Hp Hs]. unfold create_event.
  destruct (fd >=? setsize el) eqn:?; [done|]. replace (fd <? 0) with false by lia.
  destruct (add_synced el a fd m Ht Hz Hs) as (ok & a' & -> & Ha); [lia|done|]. cbn [mbind result_bind].
  destruct ok.
  - destruct (create_ok el fd m p d Ht Hp) as (el' & -> & Hset & Ht' & Hp'); [lia|done|].
    pose proof Hset as [Hsize _]. split; [|done]. split; [done|cbn; by rewrite Hsize|done|by apply Ha].
  - unfold aeCreateFileEvent. replace (fd >=? setsize el) with false by lia. replace (fd <? 0) with false by lia. cbn. by split.
Qed.

Lemma delete_event_ok el a fd m : loop_ok el a -> 0 <= fd -> is_mask m -> leaves el (delete_event el a fd m).
Proof.
  intros Hl Hfd Hb. pose proof Hl as [Ht Hz Hp Hs]. unfold delete_event.
  destruct (delete_ok el fd m Ht Hp Hfd Hb) as (el' & -> & Hsize & Ht' & Hp' & Hset & Hsame). cbn [defined mbind result_bind].
  destruct (fd >=? setsize el) eqn:?; cbn [orb]; [by rewrite Hsame by lia|].
  destruct (Z.eqb_spec (mask_at el fd) AE_NONE); [by rewrite Hsame by tauto|].
  apply ends_bind. eapply ends_mono; [apply (del_synced el el' a fd m Ht Hz Hs); [lia|done|done|apply Hset; lia]|done|].
  intros a' Ha. split; [|done]. split; [done|cbn; by rewrite Hsize|done|done].
Qed.

Lemma run_action_ok el a x : loop_ok el a -> action_ok x -> leaves el (run_action (el, a) x).
Proof. intros Hl. destruct x; intros [? ?]; [by apply create_event_ok|by apply delete_event_ok]. Qed.

Lemma run_actions_ok l : forall el a, loop_ok el a -> Forall action_ok l -> leaves el (run_actions (el, a) l).
Proof.
  induction l as [|x l IH]; intros el a Hl Hx; [done|]. apply Forall_cons in Hx as [Hx Hxs]. cbn [run_actions].
  apply ends_bind. eapply ends_mono; [exact (run_action_ok el a x Hl Hx)|done|]. intros [el1 a1] [Hl1 Hs1]. cbn in *.
  eapply ends_mono; [exact (IH el1 a1 Hl1 Hxs)|done|]. intros st [? ?]. split; [done|congruence].
Qed.

(** The table is in order whatever happened, and while the process goes on
    the back end has its events; [why] is the reason there is to abort. *)
Record good (why : Prop) (n : Z) (st : state) : Prop := {
  gd_table : table_ok st.1;
  gd_procs : procs_ok st.1;
  gd_size : setsize st.1 = n;
  gd_servable : servable n;
  gd_synced : ends why (synced st.1) st.2.1;
}.

Lemma good_loop why n el a e : loop_ok el a -> setsize el = n -> good why n (el, (Ran a, e)).
Proof. intros [H1 H2 H3 H4] <-. by split. Qed.

Lemma good_ok why n st a : good why n st -> st.2.1 = Ran a -> loop_ok st.1 a.
Proof. intros [H1 H2 H3 H4 H5] Ha. rewrite Ha in H5. split; [done|by rewrite H3|done|exact H5]. Qed.

Lemma good_stopped (why : Prop) n st e : why -> good why n st -> good why n (st.1, (Aborted, e)).
Proof. intros Hw [H1 H2 H3 H4 H5]. by split. Qed.

Lemma after_ok (why : Prop) n st e x : good why n st -> (may_abort -> why) -> leaves st.1 x -> good why n (after st e x).
Proof.
  intros Hst Hw Hx. destruct x as [[el a]| |]; cbn in *; [|apply good_stopped; auto|done].
  destruct Hx as [Hl Hs]. apply good_loop; [done|]. by rewrite Hs, (gd_size _ _ _ Hst).
Qed.

(** A callback runs to its end and leaves a good loop. *)
Lemma callback_call_ok (why : Prop) n p fd d m st : (may_abort -> why) -> good why n st -> good why n (call p fd d m st).
Proof.
  intros Hw Hst. unfold call. destruct (st.2.1) as [a| |] eqn:Ea; [|done..]. pose proof (callback_ok p fd d m st.1 st.2.2) as Hc.
  destruct (callback _ _ _ _ _ _) as [l e]. apply after_ok; [done|done|]. apply run_actions_ok; [|done]. by eapply good_ok.
Qed.

Lemma dispatch_ok (why : Prop) n f st : (may_abort -> why) -> good why n st -> 0 <= f.1 < n -> is_mask f.2 ->
  exists st', dispatch call f st = Some st' /\ good why n st'.
Proof.
  intros Hwhy Hst Hfd Hm. destruct f as [fd m]. cbn in Hfd, Hm. unfold dispatch. pose proof Hst as [Ht Hpr Hn _ _].
  replace ((fd <? 0) || (fd >=? setsize st.1)) with false by (rewrite Hn; lia).
  set (readable := negb (Z.land (Z.land (mask (event_at st.1 fd)) m) AE_READABLE =? 0)).
  assert (forall b el, is_mask b -> table_ok el -> procs_ok el -> negb (Z.land (Z.land (mask (event_at el fd)) m) b =? 0) = true -> has (mask_at el fd) b = true) as Hhas.
  { intros b0 el Hb [_ Hmk] _. specialize (Hmk fd). unfold has, mask_at in *. revert Hmk. generalize (mask (event_at el fd)). intros x Hx.
    by destruct (mask_cases _ Hx) as [->|[->|[->| ->]]], (mask_cases _ Hm) as [->|[->|[->| ->]]], (mask_cases _ Hb) as [->|[->|[->| ->]]]. }
  assert (exists st1, (if readable then p ← rfileProc (event_at st.1 fd); Some (call p fd (fclientData (event_at st.1 fd)) m st) else Some st) = Some st1 /\ good why n st1)
    as (st1 & -> & H1).
  { destruct readable eqn:Er; [|by exists st]. apply (Hhas AE_READABLE st.1) in Er; [|done..].
    destruct (Hpr fd) as [Hr _]. destruct (Hr Er) as [p ->]. eexists. split; [done|]. by apply callback_call_ok. }
  cbn [mbind option_bind]. destruct (negb (Z.land (Z.land (mask (event_at st1.1 fd)) m) AE_WRITABLE =? 0)) eqn:Ew; [|by exists st1].
  destruct (negb readable || _); [|by exists st1]. pose proof H1 as [Ht1 Hpr1 Hn1 _ _].
  apply (Hhas AE_WRITABLE st1.1) in Ew; [|done..]. destruct (Hpr1 fd) as [_ Hw]. destruct (Hw Ew) as [p ->].
  eexists. split; [done|]. by apply callback_call_ok.
Qed.

Lemma dispatch_all_ok (why : Prop) n l : (may_abort -> why) -> forall st, good why n st -> Forall (fun f => 0 <= f.1 < n /\ is_mask f.2) l ->
  exists st', dispatch_all call l st = Some st' /\ good why n st'.
Proof.
  intros Hw. induction l as [|f l IH]; intros st Hst Hl; [by exists st|]. apply Forall_cons in Hl as [[Hf Hm] Hl]. cbn [dispatch_all].
  destruct (dispatch_ok why n f st Hw Hst Hf Hm) as (st1 & -> & H1). cbn [mbind option_bind]. by apply IH.
Qed.

(** The poll answers what the system may answer. *)
Definition event_ok (st : state) (ev : loop_event) : Prop :=
  match ev with EAct x => action_ok x | EPoll r => forall a, st.2.1 = Ran a -> answers st.1 a r end.

Fixpoint events_ok (st : state) (l : list loop_event) : Prop :=
  match l with [] => True | ev :: l => event_ok st ev /\ forall st', run_event st ev = Some st' -> events_ok st' l end.

(** Why the process may have aborted in a run. *)
Definition abort_reason (l : list loop_event) : Prop := may_abort \/ exists r, EPoll r ∈ l /\ fatal r.

Lemma run_event_ok why n st ev : (may_abort -> why) -> (forall r, ev = EPoll r -> fatal r -> why) -> good why n st -> event_ok st ev ->
  exists st', run_event st ev = Some st' /\ good why n st'.
Proof.
  intros Hw Hf Hst Hev. unfold run_event. destruct (st.2.1) as [a| |] eqn:Ea; [|by exists st..]. pose proof (good_ok _ _ _ _ Hst Ea) as Hl.
  destruct ev as [x|r]; cbn [event_ok] in *.
  - eexists. split; [done|]. apply after_ok; [done|done|]. by apply run_action_ok.
  - pose proof Hl as [Ht Hz Hp Hs]. pose proof (poll_synced st.1 a r Ht Hs (Hev a Ea)) as Hpoll.
    destruct (api_poll st.1 a r) as [[fired a']| |]; cbn in Hpoll; [|eexists; split; [done|]; apply good_stopped; [|done]; destruct Hpoll; eauto|done].
    destruct Hpoll as (Hs' & _ & Hfired). pose proof (gd_size _ _ _ Hst) as Hn.
    apply (dispatch_all_ok why n); [done|by apply good_loop|]. eapply Forall_impl; [exact Hfired|]. intros [fd m] [Hne Hm]. split; [|done]. cbn in *.
    pose proof (ok_range _ (tok_loop _ Ht) _ Hne). pose proof (ok_size _ (tok_loop _ Ht)). lia.
Qed.

Lemma run_events_ok (why : Prop) n l : (may_abort -> why) -> (forall r, EPoll r ∈ l -> fatal r -> why) -> forall st, good why n st -> events_ok st l ->
  exists st', run_events st l = Some st' /\ good why n st'.
Proof.
  intros Hw. induction l as [|ev l IH]; intros Hf st Hst Hl; [by exists st|]. destruct Hl as [Hev Hl]. cbn [run_events].
  destruct (run_event_ok why n st ev Hw) as (st1 & Erun & H1); [|done|done|].
  { intros r ->. apply Hf. by left. }
  rewrite Erun. cbn [mbind option_bind]. apply IH; [|done|by apply Hl]. intros r Hr. apply Hf. by right.
Qed.

(** A run over this back end: it is defined and the table is in order; while
    the process goes on, the next poll waits for exactly its events; and it
    aborts only where there is a reason. *)
Definition runs_well (n : Z) (now : Z) (a : A) (e : E) : Prop :=
  forall l, events_ok (aeCreateEventLoop n now, (Ran a, e)) l ->
  exists st, run_events (aeCreateEventLoop n now, (Ran a, e)) l = Some st
    /\ el_ok st.1 /\ procs_ok st.1
    /\ ends (abort_reason l) (fun a => forall fd, ends may_abort (fun m => m = mask_at st.1 fd) (watched st.1 a fd)) st.2.1.

Lemma runs_well_ok n now a e : 0 <= n -> servable n -> synced (aeCreateEventLoop n now) a -> runs_well n now a e.
Proof.
  intros Hn Hz Hs l Hl. assert (forall fd, mask_at (aeCreateEventLoop n now : loop) fd = AE_NONE) as Hm.
  { intros fd. unfold mask_at, event_at. cbn. by rewrite lookup_empty. }
  assert (good (abort_reason l) n (aeCreateEventLoop n now, (Ran a, e))) as Hgood.
  { split; [split; [by apply el_ok_create|intros fd; by rewrite Hm]| |done|done|done]. intros fd. rewrite Hm. by split. }
  destruct (run_events_ok (abort_reason l) n l (fun x => or_introl x)) with (st := (aeCreateEventLoop n now, (Ran a, e)) : state)
    as (st & Erun & [Ht Hp _ _ Hs']); [|done|done|].
  { intros r Hr Hf. right. by exists r. }
  exists st. split_and!; [done|apply Ht|done|]. eapply ends_mono; [exact Hs'|done|]. intros a' Ha fd. by apply watched_synced.
Qed.
End loop.

(** ** The four back ends *)

Section every_backend.
Context {fproc tproc cdata E : Type} `{EqDecision fproc}.
Notation loop := (aeEventLoop fproc tproc cdata).
Variable callback : fproc -> Z -> option cdata -> Z -> loop -> E -> list (@action fproc cdata) * E.
Context {K1 K2 K3 : Type} `{EpollLaws K1} `{KqueueLaws K2} `{PortLaws K3}.

(** C32. Over each of the four polling back ends (epoll, kqueue, event ports, and select for a
    table that fits an fd_set), whatever events are created and deleted, by the callbacks of what is
    polled too, the loop is defined (no access outside the table, no missing callback), maxfd stays
    the highest descriptor with an event, and whenever it waits the kernel watches exactly the
    events of the table. Only event ports abort the process, and only on a kernel that refuses to
    make an association or to end one that is there, or after port_getn failed with another error
    than ETIME and EINTR. Taken from the kernels: epoll_ctl does not refuse to change or delete an
    entry that is there, nor kevent to delete a filter that is there; a poll reports descriptors
    that are watched, and epoll and kqueue not more than asked for; the events are for descriptors
    of the process. *)
Theorem backends_serve_the_loop (k1 : K1) (k2 : K2) (k3 : K3) n now x :
  (forall proc fd d m el x, Forall action_ok (callback proc fd d m el x).1) -> 0 <= n ->
  (forall fd, interest k1 fd = None) -> (forall fd f, filters k2 fd f = false) -> (forall fd, association k3 fd = None) ->
  runs_well callback n now k1 x
  /\ runs_well callback n now k2 x
  /\ runs_well callback n now (Evport k3 []) x
  /\ (n <= FD_SETSIZE -> runs_well callback n now (FdSets ∅ ∅) x).
Proof. intros Hc Hn Hk1 Hk2 Hk3. split_and!; [..|intros Hsize]; by apply runs_well_ok. Qed.
End every_backend.

(** ** Kernels on which the theorem can be tried *)

Definition test_epoll_ctl (k : gmap Z Z) (op : ctl_op) (fd ev : Z) : bool * gmap Z Z :=
  match op, k !! fd with
  | EPOLL_CTL_ADD, None | EPOLL_CTL_MOD, Some _ => (true, <[fd := ev]> k)
  | EPOLL_CTL_DEL, Some _ => (true, delete fd k)
  | _, _ => (false, k)
  end.

#[export] Instance test_epoll : Epoll (gmap Z Z) := { epoll_ctl := test_epoll_ctl; interest k fd := k !! fd }.

#[export] Instance test_epoll_laws : EpollLaws (gmap Z Z).
Proof.
  split; cbn; unfold test_epoll_ctl.
  - intros k op fd ev k' Ek fd'. destruct op, (k !! fd); try done; injection Ek as <-; rewrite ?lookup_insert, ?lookup_delete; by case_decide.
  - intros k op fd ev k' Ek. by destruct op, (k !! fd); try done; injection Ek as <-.
  - intros k op fd ev w Ek Hop. rewrite Ek. by destruct op.
Qed.

Definition test_kevent (k : list (Z * filter)) (fd : Z) (f : filter) (flag : ev_flag) : bool * list (Z * filter) :=
  match flag with
  | EV_ADD => (true, (fd, f) :: k)
  | EV_DELETE => (bool_decide ((fd, f) ∈ k), base.filter (fun x => x <> (fd, f)) k)
  end.

#[export] Instance test_kqueue : Kqueue (list (Z * filter)) := { kevent := test_kevent; filters k fd f := bool_decide ((fd, f) ∈ k) }.

#[export] Instance test_kqueue_laws : KqueueLaws (list (Z * filter)).
Proof.
  split; cbn; unfold test_kevent.
  - intros k fd f flag k' Ek fd' f'. destruct flag; injection Ek.
    + intros <-. destruct (decide (fd = fd' /\ f = f')) as [[-> ->]|Hx].
      * apply bool_decide_eq_true. set_solver.
      * apply bool_decide_ext. rewrite elem_of_cons. naive_solver.
    + intros <- _. destruct (decide (fd = fd' /\ f = f')) as [[-> ->]|Hx].
      * apply bool_decide_eq_false. by intros [? _]%list_elem_of_filter.
      * apply bool_decide_ext. rewrite list_elem_of_filter. naive_solver.
  - intros k fd f flag k' Ek fd' f'. destruct flag; [done|]. injection Ek as Hx <-. apply bool_decide_eq_false in Hx.
    apply bool_decide_ext. rewrite list_elem_of_filter. split; [by intros [_ ?]|]. intros Hin. split; [|done]. intros [= -> ->]. done.
  - done.
Qed.

#[export] Instance test_port : Port (gmap Z (Z * Z)) := {
  port_associate k fd ev m := (true, <[fd := (ev, m)]> k);
  port_dissociate k fd := (bool_decide (is_Some (k !! fd)), delete fd k);
  port_taken k l := foldr delete k l;
  association k fd := k !! fd;
}.

#[export] Instance test_port_laws : PortLaws (gmap Z (Z * Z)).
Proof.
  split; cbn.
  - intros k fd ev m k' [= <-] fd'. by rewrite lookup_insert.
  - done.
  - intros k fd k' Ek fd'. injection Ek as _ <-. by rewrite lookup_delete.
  - intros k l fd. induction l as [|f l IH]; [done|]. cbn [foldr]. rewrite lookup_delete, IH.
    repeat case_decide; subst; set_solver.
Qed.

(** Callback 0 waits for its output, callback 1 has written it. *)
Definition test_callback (p : nat) (fd : Z) (d : option nat) (m : Z) (el : aeEventLoop nat nat nat) (calls : list (nat * Z))
  : list (@action nat nat) * list (nat * Z) :=
  (match p with O => if 0 <=? fd then [ACreate fd AE_WRITABLE 1%nat None] else [] | _ => if 0 <=? fd then [ADelete fd AE_WRITABLE] else [] end,
   calls ++ [(p, fd)]).

Definition test_events {R} (read write : R) : list (@loop_event nat nat R) :=
  [EAct (ACreate 5 AE_READABLE 0%nat None); EPoll read; EPoll write; EAct (ADelete 5 AE_READABLE)].

(** Over epoll, and over an event port whose second poll fails. *)
Lemma backends_serve_the_loop_witness :
  (exists st, run_events test_callback (aeCreateEventLoop 16 0, (Ran (∅ : gmap Z Z), [])) (test_events [(5, EPOLLIN)] [(5, EPOLLOUT)]) = Some st
    /\ st.2.2 = [(0%nat, 5); (1%nat, 5)] /\ ends False (fun a => forall fd, watched st.1 a fd = Ran (mask_at st.1 fd)) st.2.1)
  /\ (exists st, run_events test_callback (aeCreateEventLoop 16 0, (Ran (Evport (∅ : gmap Z (Z * Z)) []), []))
        (test_events (PortEvents [(5, POLLIN, AE_READABLE)]) PortError) = Some st
    /\ st.2 = (Aborted, [(0%nat, 5)])).
Proof.
  pose proof (backends_serve_the_loop test_callback (∅ : gmap Z Z) ([] : list (Z * filter)) (∅ : gmap Z (Z * Z)) 16 0 []) as H.
  destruct H as (H1 & H2 & H3 & H4); [|lia|done|done|done|].
  { intros p fd d m el e. unfold test_callback. cbn. destruct (Z.leb_spec 0 fd), p; repeat constructor; (done || lia || by right). }
  split.
  - destruct (H1 (test_events [(5, EPOLLIN)] [(5, EPOLLOUT)])) as (st & E & _ & _ & Hw).
    + split; [split; [lia|by left]|]. intros st1 E1. vm_compute in E1. injection E1 as <-.
      split; [intros a [= <-]; split; [cbn; lia|by repeat constructor]|]. intros st2 E2. vm_compute in E2. injection E2 as <-.
      split; [intros a [= <-]; split; [cbn; lia|by repeat constructor]|]. intros st3 E3. vm_compute in E3. injection E3 as <-.
      split; [split; [lia|done]|]. done.
    + exists st. split; [done|]. split; [vm_compute in E; by injection E as <-|]. destruct (st.2.1) as [a| |]; cbn in Hw |- *.
      * intros fd. f_equal. exact (Hw fd).
      * destruct Hw as [[]|(r & _ & [])].
      * destruct Hw.
  - destruct (H3 (test_events (PortEvents [(5, POLLIN, AE_READABLE)]) PortError)) as (st & E & _).
    + split; [split; [lia|by left]|]. intros st1 E1. vm_compute in E1. injection E1 as <-.
      split; [intros a [= <-]; split; [by repeat constructor; set_solver|intros k Ek; vm_compute in Ek; injection Ek as <-; repeat constructor; by eexists]|].
      intros st2 E2. vm_compute in E2. injection E2 as <-.
      split; [by intros a _|].
      intros st3 E3. vm_compute in E3. injection E3 as <-. split; [split; [lia|done]|]. done.
    + exists st. split; [done|]. vm_compute in E. by injection E as <-.
Defined.
