(* ===== verification/Anet.v ===== *)
(** * deps/ae/anet.c: sockets

    The calls of the system are answered by an oracle.  The state keeps, for
    each open descriptor, the calls that succeeded on it since it was opened,
    and how many address lists are not freed; using or closing a descriptor
    that is not open, and freeing a list that is not there, is undefined
    ([None]).  What is proved is who owns a descriptor: a function that reports
    an error has closed what it opened, one that succeeds returns the one
    descriptor that is new, with the calls that make it what was asked for. *)

From S2P Require Import Prelude Common Util Buffer.

Definition ANET_OK : Z := 0.
Definition ANET_ERR : Z := -1.
Definition ANET_ERR_LEN : nat := 256.

Inductive option_name : Type :=
| SO_KEEPALIVE | TCP_KEEPIDLE | TCP_KEEPINTVL | TCP_KEEPCNT | TCP_NODELAY | SO_SNDBUF | SO_REUSEADDR | IPV6_V6ONLY | SO_SNDTIMEO.

Inductive domain : Type := AF_UNSPEC | AF_INET | AF_INET6 | AF_LOCAL.

#[export] Instance domain_eq_dec : EqDecision domain.
Proof. solve_decision. Defined.

(** Addresses: the bytes of [sun_path], or a family, an address and a port. *)
Inductive sockaddr : Type :=
| SockUnix (sun_path : list (option byte))
| SockInet (family : domain) (host : bytes) (port : Z).

Record addrinfo := AddrInfo { ai_family : domain; ai_addr : sockaddr }.

(** Successful calls on a descriptor. *)
Inductive call : Type :=
| Socket (family : domain)
| Accepted (listener : Z)
| SetOption (name : option_name) (val : Z) (usec : Z)
| SetFlags (flags : Z)
| Connect (to : sockaddr)
| Bind (to : sockaddr)
| Listen (backlog : Z).

(** An answer: success, and what the call gives: an error number, a number, a
    list of addresses, an address, bytes. *)
Record answer := Answer { ok : bool; number : Z; infos : list addrinfo; address : sockaddr; data : bytes }.

Record net := Net {
  step : nat;                      (* calls so far *)
  errno : Z;
  fds : gmap Z (list call);
  lists : nat;                     (* address lists not freed *)
  err_given : bool;                (* err is not NULL *)
  err : bytes;
  sent : bytes;                    (* written to descriptors *)
  got : bytes;                     (* read from descriptors *)
}.

(** Linux values. *)
Definition EINTR : Z := 4.
Definition EINPROGRESS : Z := 115.
Definition O_NONBLOCK : Z := 2048.

(** ** The monad *)

Definition M (A : Type) : Type := net -> option (A * net).
#[export] Instance M_ret : MRet M := fun A a w => Some (a, w).
#[export] Instance M_bind : MBind M := fun A B f m w => '(a, w) ← m w; f a w.

Lemma M_bind_eq {A B} (m : M A) (f : A -> M B) w : (m ≫= f) w = match m w with Some (a, w') => f a w' | None => None end.
Proof. unfold mbind, M_bind. by destruct (m w) as [[]|]. Qed.

Lemma M_ret_eq {A} (a : A) w : (mret a : M A) w = Some (a, w).
Proof. done. Qed.

(** The first call of a computation is known. *)
Ltac run E := rewrite M_bind_eq, E; cbv beta iota.

Section anet.
Variable os : nat -> answer.
(** The descriptor [socket] and [accept] give: one that is not open. *)
Variable lowest : gset Z -> Z.
Variables strerror gai_strerror : Z -> bytes.

Definition get_errno : M Z := fun w => Some (errno w, w).

(** [anetSetError] *)
Definition anetSetError (text : bytes) : M unit := fun w =>
  Some (tt, if err_given w
            then Net (step w) (errno w) (fds w) (lists w) true (take (ANET_ERR_LEN - 1) (cstr text)) (sent w) (got w)
            else w).

Definition with_errno (a : answer) (w : net) : Z := if ok a then errno w else number a.

(** A call on an open descriptor, recorded when [record] says so. *)
Definition call_on (fd : Z) (c : call) (record : answer -> bool) : M answer := fun w =>
  log ← fds w !! fd;
  let a := os (step w) in
  Some (a, Net (S (step w)) (with_errno a w) (if record a then <[fd := log ++ [c]]> (fds w) else fds w)
             (lists w) (err_given w) (err w) (sent w) (got w)).

(** A call that gives a new descriptor, or -1. *)
Definition call_new (c : call) : M Z := fun w =>
  let a := os (step w) in
  let fd := lowest (dom (fds w)) in
  Some (if ok a then fd else -1,
        Net (S (step w)) (with_errno a w) (if ok a then <[fd := [c]]> (fds w) else fds w) (lists w) (err_given w) (err w) (sent w) (got w)).

Definition close (fd : Z) : M unit := fun w =>
  _ ← fds w !! fd;
  let a := os (step w) in
  Some (tt, Net (S (step w)) (with_errno a w) (delete fd (fds w)) (lists w) (err_given w) (err w) (sent w) (got w)).

(** [getaddrinfo]: its error, or a list. *)
Definition getaddrinfo : M (Z + list addrinfo) := fun w =>
  let a := os (step w) in
  Some (if ok a then inr (infos a) else inl (number a),
        Net (S (step w)) (errno w) (fds w) (if ok a then S (lists w) else lists w) (err_given w) (err w) (sent w) (got w)).

Definition freeaddrinfo : M unit := fun w =>
  match lists w with
  | O => None
  | S n => Some (tt, Net (step w) (errno w) (fds w) n (err_given w) (err w) (sent w) (got w))
  end.

Definition socket (family : domain) : M Z := call_new (Socket family).
Definition setsockopt (fd : Z) (name : option_name) (val usec : Z) : M bool := a ← call_on fd (SetOption name val usec) ok; mret (ok a).
(** A connection that goes on in the background is recorded too. *)
Definition connect (fd : Z) (to : sockaddr) : M bool :=
  a ← call_on fd (Connect to) (fun a => ok a || (number a =? EINPROGRESS)); mret (ok a).
Definition bind (fd : Z) (to : sockaddr) : M bool := a ← call_on fd (Bind to) ok; mret (ok a).
Definition listen (fd backlog : Z) : M bool := a ← call_on fd (Listen backlog) ok; mret (ok a).

(** [if (... == -1) { anetSetError(err, "what: %s", strerror(errno)); return ANET_ERR; }] *)
Definition report (what : string) : M Z := e ← get_errno; anetSetError (bs what ++ strerror e) ;; mret ANET_ERR.

(** ** Options *)

(** [fcntl(fd, F_GETFL)], whose answer is the flags. *)
Definition get_flags (fd : Z) : M answer := call_on fd (SetFlags 0) (fun _ => false).

Definition anetSetBlock (fd : Z) (non_block : bool) : M Z :=
  a ← get_flags fd;
  if negb (ok a) then report "fcntl(F_GETFL): "
  else
    let flags := if non_block then Z.lor (number a) O_NONBLOCK else Z.land (number a) (Z.lnot O_NONBLOCK) in
    a ← call_on fd (SetFlags flags) ok;
    if negb (ok a) then report "fcntl(F_SETFL,O_NONBLOCK): " else mret ANET_OK.

Definition anetNonBlock (fd : Z) : M Z := anetSetBlock fd true.
Definition anetBlock (fd : Z) : M Z := anetSetBlock fd false.

Definition set_option (fd : Z) (name : option_name) (val usec : Z) (what : string) : M Z :=
  r ← setsockopt fd name val usec; if r : bool then mret ANET_OK else report what.

(** The options one after the other, up to an error. *)
Definition and_then (m k : M Z) : M Z := r ← m; if r =? ANET_ERR then mret ANET_ERR else k.

Definition anetKeepAlive (fd interval : Z) : M Z :=
  let third := if Z.quot interval 3 =? 0 then 1 else Z.quot interval 3 in
  and_then (set_option fd SO_KEEPALIVE 1 0 "setsockopt SO_KEEPALIVE: ")
    (and_then (set_option fd TCP_KEEPIDLE interval 0 "setsockopt TCP_KEEPIDLE: ")
      (and_then (set_option fd TCP_KEEPINTVL third 0 "setsockopt TCP_KEEPINTVL: ")
        (and_then (set_option fd TCP_KEEPCNT 3 0 "setsockopt TCP_KEEPCNT: ") (mret ANET_OK)))).

Definition anetSetTcpNoDelay (fd val : Z) : M Z := set_option fd TCP_NODELAY val 0 "setsockopt TCP_NODELAY: ".
Definition anetEnableTcpNoDelay (fd : Z) : M Z := anetSetTcpNoDelay fd 1.
Definition anetDisableTcpNoDelay (fd : Z) : M Z := anetSetTcpNoDelay fd 0.
Definition anetSetSendBuffer (fd buffsize : Z) : M Z := set_option fd SO_SNDBUF buffsize 0 "setsockopt SO_SNDBUF: ".
Definition anetTcpKeepAlive (fd : Z) : M Z := set_option fd SO_KEEPALIVE 1 0 "setsockopt SO_KEEPALIVE: ".
Definition anetSendTimeout (fd ms : Z) : M Z :=
  set_option fd SO_SNDTIMEO (Z.quot ms 1000) (Z.rem ms 1000 * 1000) "setsockopt SO_SNDTIMEO: ".
Definition anetSetReuseAddr (fd : Z) : M Z := set_option fd SO_REUSEADDR 1 0 "setsockopt SO_REUSEADDR: ".

(** ** Connecting *)

Definition anetCreateSocket (family : domain) : M Z :=
  s ← socket family;
  if s =? -1 then report "creating socket: "
  else
    r ← anetSetReuseAddr s;
    if r =? ANET_ERR then close s ;; mret ANET_ERR else mret s.

(** The loop over [servinfo]: whether it goes to [end], and [s]. *)
Fixpoint connect_loop (nonblock : bool) (l : list addrinfo) (s : Z) : M (bool * Z) :=
  match l with
  | [] => report "creating socket: " ;; mret (false, s)
  | p :: l =>
      s ← socket (ai_family p);
      if s =? -1 then connect_loop nonblock l s
      else
        r ← anetSetReuseAddr s;
        if r =? ANET_ERR then mret (false, s)
        else
          r ← (if nonblock then anetNonBlock s else mret ANET_OK);
          if negb (r =? ANET_OK) then mret (false, s)
          else
            connected ← connect s (ai_addr p);
            if connected : bool then mret (true, s)
            else
              e ← get_errno;
              if (e =? EINPROGRESS) && nonblock then mret (true, s)
              else close s ;; connect_loop nonblock l ANET_ERR
  end.

Definition anetTcpGenericConnect (nonblock : bool) : M Z :=
  r ← getaddrinfo;
  match r with
  | inl rv => anetSetError (gai_strerror rv) ;; mret ANET_ERR
  | inr servinfo =>
      '(fin, s) ← connect_loop nonblock servinfo ANET_ERR;
      if fin : bool then freeaddrinfo ;; mret s
      else
        (if negb (s =? ANET_ERR) then close s else mret tt) ;;
        freeaddrinfo ;; mret ANET_ERR
  end.

Definition anetTcpConnect : M Z := anetTcpGenericConnect false.
Definition anetTcpNonBlockConnect : M Z := anetTcpGenericConnect true.

(** [strncpy(sa.sun_path, path, 107)] into 108 bytes. *)
Definition sun_path (path : bytes) (last : option byte) : list (option byte) :=
  written (take 107 (cstr path ++ replicate 107 NUL)) ++ [last].

Definition anetUnixGenericConnect (path : bytes) (nonblock : bool) : M Z :=
  s ← anetCreateSocket AF_LOCAL;
  if s =? ANET_ERR then mret ANET_ERR
  else
    r ← (if nonblock then anetNonBlock s else mret ANET_OK);
    if negb (r =? ANET_OK) then mret ANET_ERR
    else
      connected ← connect s (SockUnix (sun_path path None));
      if connected : bool then mret s
      else
        e ← get_errno;
        if (e =? EINPROGRESS) && nonblock then mret s
        else report "connect: " ;; close s ;; mret ANET_ERR.

Definition anetUnixConnect (path : bytes) : M Z := anetUnixGenericConnect path false.
Definition anetUnixNonBlockConnect (path : bytes) : M Z := anetUnixGenericConnect path true.

(** ** Reading and writing *)

(** [read]: -1, or the bytes; [write]: -1, or how many of the bytes the system
    took.  It gives and takes no more than is asked. *)
Definition read (fd count : Z) : M (option bytes) := fun w =>
  _ ← fds w !! fd;
  let a := os (step w) in
  let l := take (Z.to_nat count) (data a) in
  Some (if ok a then Some l else None,
        Net (S (step w)) (with_errno a w) (fds w) (lists w) (err_given w) (err w) (sent w) (if ok a then got w ++ l else got w)).

Definition write (fd : Z) (buf : bytes) : M (option Z) := fun w =>
  _ ← fds w !! fd;
  let a := os (step w) in
  let l := take (Z.to_nat (number a)) buf in
  Some (if ok a then Some (zlen l) else None,
        Net (S (step w)) (with_errno a w) (fds w) (lists w) (err_given w) (err w) (if ok a then sent w ++ l else sent w) (got w)).

(** [buf] is what was read so far, [zlen buf] the code's [totlen]. *)
Fixpoint read_loop (fuel : nat) (fd count : Z) (buf : bytes) : M (Z * bytes) :=
  if zlen buf =? count then mret (zlen buf, buf)
  else
    match fuel with
    | O => fun _ => None
    | S fuel =>
        r ← read fd (count - zlen buf);
        match r with
        | None => mret (-1, buf)
        | Some [] => mret (zlen buf, buf)
        | Some l => read_loop fuel fd count (buf ++ l)
        end
    end.

Definition anetRead (fd count : Z) : M (Z * bytes) := read_loop (Z.to_nat count) fd count [].

Fixpoint write_loop (fuel : nat) (fd totlen : Z) (buf : bytes) : M Z :=
  if zlen buf =? 0 then mret totlen
  else
    match fuel with
    | O => fun _ => None
    | S fuel =>
        r ← write fd buf;
        match r with
        | None => mret (-1)
        | Some n => if n =? 0 then mret totlen else write_loop fuel fd (totlen + n) (drop (Z.to_nat n) buf)
        end
    end.

(** [anetWrite] of [count] bytes at [buf]. *)
Definition anetWrite (fd : Z) (buf : bytes) : M Z := write_loop (length buf) fd 0 buf.

(** ** Listening *)

Definition anetListen (s : Z) (sa : sockaddr) (backlog : Z) : M Z :=
  r ← bind s sa;
  if negb r then report "bind: " ;; close s ;; mret ANET_ERR
  else
    r ← listen s backlog;
    if negb r then report "listen: " ;; close s ;; mret ANET_ERR else mret ANET_OK.

Definition anetV6Only (s : Z) : M Z :=
  r ← set_option s IPV6_V6ONLY 1 0 "setsockopt: ";
  if r =? ANET_ERR then close s ;; mret ANET_ERR else mret ANET_OK.

(** The loop over [servinfo]: [s], or -1 where it goes to [error]. *)
Fixpoint server_loop (af : domain) (backlog : Z) (l : list addrinfo) : M Z :=
  match l with
  | [] => anetSetError (bs "unable to bind socket") ;; mret ANET_ERR
  | p :: l =>
      s ← socket (ai_family p);
      if s =? -1 then server_loop af backlog l
      else
        r ← (if decide (af = AF_INET6) then anetV6Only s else mret ANET_OK);
        if r =? ANET_ERR then mret ANET_ERR
        else
          r ← anetSetReuseAddr s;
          if r =? ANET_ERR then mret ANET_ERR
          else
            r ← anetListen s (ai_addr p) backlog;
            if r =? ANET_ERR then mret ANET_ERR else mret s
  end.

Definition _anetTcpServer (af : domain) (backlog : Z) : M Z :=
  r ← getaddrinfo;
  match r with
  | inl rv => anetSetError (gai_strerror rv) ;; mret ANET_ERR
  | inr servinfo => s ← server_loop af backlog servinfo; freeaddrinfo ;; mret s
  end.

Definition anetTcpServer (backlog : Z) : M Z := _anetTcpServer AF_INET backlog.
Definition anetTcp6Server (backlog : Z) : M Z := _anetTcpServer AF_INET6 backlog.

(** [chmod], whose result is not used, changes nothing here. *)
Definition anetUnixServer (path : bytes) (backlog : Z) : M Z :=
  s ← anetCreateSocket AF_LOCAL;
  if s =? ANET_ERR then mret ANET_ERR
  else
    r ← anetListen s (SockUnix (sun_path path (Some NUL))) backlog;
    if r =? ANET_ERR then mret ANET_ERR else mret s.

(** ** Accepting *)

(** The loop on EINTR, for at most [fuel] interruptions. *)
Fixpoint anetGenericAccept (fuel : nat) (s : Z) : M Z := fun w =>
  _ ← fds w !! s;
  ('(fd, w) ← call_new (Accepted s) w;
   if fd =? -1 then
     if errno w =? EINTR then
       match fuel with O => None | S fuel => anetGenericAccept fuel s w end
     else report "accept: " w
   else Some (fd, w)).

Definition anetUnixAccept (fuel : nat) (s : Z) : M Z := anetGenericAccept fuel s.

(** The address of a peer in [ip] and [port], as [inet_ntop] writes it into
    [ip_len] bytes. *)
Variable inet_ntop : sockaddr -> nat -> bytes.

Definition format_address (sa : sockaddr) (ip_len : nat) : option (bytes * Z) :=
  match sa with
  | SockInet _ _ port => Some (inet_ntop sa ip_len, u16 port)
  | SockUnix _ => None
  end.

Definition anetTcpAccept (fuel : nat) (s : Z) (ip_len : nat) : M (Z * option (bytes * Z)) :=
  fd ← anetGenericAccept fuel s;
  if fd =? -1 then mret (ANET_ERR, None)
  else fun w => Some ((fd, format_address (address (os (pred (step w)))) ip_len), w).

(** [anetPeerToString] and [anetSockName]: "?" when there is no name; that is
    written also where [ip] is NULL, which is undefined. *)
Definition socket_name (fd : Z) (ip_given : bool) (ip_len : nat) : M (Z * option (bytes * Z)) :=
  a ← call_on fd (SetFlags 0) (fun _ => false);
  if negb (ok a) then (if ip_given && (2 <=? ip_len)%nat then mret (-1, Some (bs "?", 0)) else fun _ => None)
  else mret (0, format_address (address a) ip_len).

Definition anetPeerToString : Z -> bool -> nat -> M (Z * option (bytes * Z)) := socket_name.
Definition anetSockName : Z -> bool -> nat -> M (Z * option (bytes * Z)) := socket_name.

(** ** Names *)

(** [getaddrinfo] with its hints, then the first address as text. *)
Definition anetGenericResolve (ip_len : nat) : M (Z * option bytes) :=
  r ← getaddrinfo;
  match r with
  | inl rv => anetSetError (gai_strerror rv) ;; mret (ANET_ERR, None)
  | inr [] => fun _ => None
  | inr (info :: _) => freeaddrinfo ;; mret (ANET_OK, Some (inet_ntop (ai_addr info) ip_len))
  end.
End anet.

(** ** Who owns a descriptor *)

Section ownership.
Variable os : nat -> answer.
Variable lowest : gset Z -> Z.
Variables strerror gai_strerror : Z -> bytes.
Hypothesis lowest_new : forall X, 0 <= lowest X /\ lowest X ∉ X.

(** As before the call, up to the numbers of the last call. *)
Record same (w w' : net) : Prop := {
  sm_fds : fds w' = fds w;
  sm_lists : lists w' = lists w;
}.

(** One descriptor more, with the calls in [log]. *)
Record opened (w : net) (s : Z) (log : list call) (w' : net) : Prop := {
  op_new : 0 <= s /\ fds w !! s = None;
  op_fds : fds w' = <[s := log]> (fds w);
  op_lists : lists w' = lists w;
}.

Lemma same_refl w : same w w.
Proof. done. Qed.

Lemma same_trans w1 w2 w3 : same w1 w2 -> same w2 w3 -> same w1 w3.
Proof. intros [] []. split; congruence. Qed.

Lemma opened_same w s log w1 w2 : opened w s log w1 -> same w1 w2 -> opened w s log w2.
Proof. intros [] []. split; [done|congruence|congruence]. Qed.

Lemma same_opened w w1 s log w2 : same w w1 -> opened w1 s log w2 -> opened w s log w2.
Proof. intros [E1 E2] [H1 H2 H3]. rewrite E1 in *. split; [done|done|congruence]. Qed.

(** The new descriptor is not -1. *)
Lemma opened_pos w s log w' : opened w s log w' -> (s =? -1) = false.
Proof. intros [[? _] _ _]. lia. Qed.

Lemma report_ok what w : exists w', report strerror what w = Some (ANET_ERR, w') /\ same w w'.
Proof. unfold report. cbn. eexists. split; [done|]. by destruct (err_given w). Qed.

Lemma set_error_ok text w : exists w', anetSetError text w = Some (tt, w') /\ same w w'.
Proof. eexists. split; [done|]. by destruct (err_given w). Qed.

Lemma call_new_ok c w : exists s w', call_new os lowest c w = Some (s, w')
  /\ ((s = -1 /\ same w w') \/ opened w s [c] w').
Proof.
  unfold call_new. do 2 eexists. split; [done|]. destruct (ok (os (step w))); cbn; [right|left; done].
  destruct (lowest_new (dom (fds w))) as [Hp Hn]. split; cbn; [|done|done]. split; [done|]. by apply not_elem_of_dom.
Qed.

(** A call on a descriptor that is owned: defined, and recorded or not. *)
Lemma call_on_ok w s log w1 c record : opened w s log w1 ->
  exists w2, call_on os s c record w1 = Some (os (step w1), w2)
    /\ opened w s (if record (os (step w1)) then log ++ [c] else log) w2 /\ (ok (os (step w1)) = false -> errno w2 = number (os (step w1))).
Proof.
  intros [Hn Hf Hl]. unfold call_on. rewrite Hf, lookup_insert_eq. cbn. eexists. split; [done|]. split.
  - split; cbn; [done| |done]. case_match; [by rewrite insert_insert_eq|done].
  - cbn. unfold with_errno. by intros ->.
Qed.

Lemma close_ok w s log w1 : opened w s log w1 -> exists w2, close os s w1 = Some (tt, w2) /\ same w w2.
Proof.
  intros [[Hp Hn] Hf Hl]. unfold close. rewrite Hf, lookup_insert_eq. cbn. eexists. split; [done|]. split; cbn; [|done].
  by rewrite delete_insert_id.
Qed.

Lemma set_option_ok w s log w1 name val usec what : opened w s log w1 ->
  exists r w2, set_option os strerror s name val usec what w1 = Some (r, w2)
    /\ ((r = ANET_OK /\ opened w s (log ++ [SetOption name val usec]) w2) \/ (r = ANET_ERR /\ opened w s log w2)).
Proof.
  intros Ho. unfold set_option, setsockopt. destruct (call_on_ok w s log w1 (SetOption name val usec) ok Ho) as (w2 & E & H & _).
  rewrite M_bind_eq. run E. rewrite M_ret_eq. destruct (ok (os (step w1))).
  - exists ANET_OK, w2. split; [done|]. by left.
  - destruct (report_ok what w2) as (w3 & E3 & Hs). exists ANET_ERR, w3. split; [exact E3|]. right. split; [done|]. by eapply opened_same.
Qed.
Lemma errno_ok w : get_errno w = Some (errno w, w).
Proof. done. Qed.

Lemma anetSetReuseAddr_ok w s log w1 : opened w s log w1 ->
  exists r w2, anetSetReuseAddr os strerror s w1 = Some (r, w2)
    /\ ((r = ANET_OK /\ opened w s (log ++ [SetOption SO_REUSEADDR 1 0]) w2) \/ (r = ANET_ERR /\ opened w s log w2)).
Proof. apply set_option_ok. Qed.

(** The flag is set beside those the descriptor has. *)
Lemma anetNonBlock_ok w s log w1 : opened w s log w1 ->
  exists r w2, anetNonBlock os strerror s w1 = Some (r, w2)
    /\ ((r = ANET_OK /\ opened w s (log ++ [SetFlags (Z.lor (number (os (step w1))) O_NONBLOCK)]) w2) \/ (r = ANET_ERR /\ opened w s log w2)).
Proof.
  intros Ho. unfold anetNonBlock, anetSetBlock, get_flags.
  destruct (call_on_ok w s log w1 (SetFlags 0) (fun _ => false) Ho) as (w2 & E & H & _). run E. cbn iota in H.
  destruct (ok (os (step w1))); cbn [negb].
  - destruct (call_on_ok w s log w2 (SetFlags (Z.lor (number (os (step w1))) O_NONBLOCK)) ok H) as (w3 & E3 & H3 & _). run E3.
    destruct (ok (os (step w2))); cbn [negb].
    + exists ANET_OK, w3. split; [done|]. by left.
    + destruct (report_ok "fcntl(F_SETFL,O_NONBLOCK): " w3) as (w4 & E4 & Hs). exists ANET_ERR, w4. split; [done|]. right. split; [done|].
      by eapply opened_same.
  - destruct (report_ok "fcntl(F_GETFL): " w2) as (w4 & E4 & Hs). exists ANET_ERR, w4. split; [done|]. right. split; [done|].
    by eapply opened_same.
Qed.

Lemma anetCreateSocket_ok family w : exists r w', anetCreateSocket os lowest strerror family w = Some (r, w')
  /\ ((r = ANET_ERR /\ same w w') \/ opened w r [Socket family; SetOption SO_REUSEADDR 1 0] w').
Proof.
  unfold anetCreateSocket, socket. destruct (call_new_ok (Socket family) w) as (s & w1 & E & [[-> Hs]|Ho]); run E.
  - destruct (report_ok "creating socket: " w1) as (w2 & E2 & Hs2). exists ANET_ERR, w2. split; [done|]. left. split; [done|]. by eapply same_trans.
  - rewrite (opened_pos _ _ _ _ Ho). destruct (anetSetReuseAddr_ok w s _ w1 Ho) as (r & w2 & E2 & [[-> H2]|[-> H2]]); run E2; cbn [Z.eqb].
    + exists s, w2. split; [done|]. by right.
    + change (ANET_ERR =? ANET_ERR) with true. cbv iota. destruct (close_ok w s _ w2 H2) as (w3 & E3 & H3). run E3.
      exists ANET_ERR, w3. split; [done|]. by left.
Qed.

Lemma connect_ok w s log w1 to : opened w s log w1 ->
  exists (r : bool) w2, connect os s to w1 = Some (r, w2)
    /\ (if r then opened w s (log ++ [Connect to]) w2
        else if errno w2 =? EINPROGRESS then opened w s (log ++ [Connect to]) w2 else opened w s log w2).
Proof.
  intros Ho. unfold connect.
  destruct (call_on_ok w s log w1 (Connect to) (fun a => ok a || (number a =? EINPROGRESS)) Ho) as (w2 & E & H & He). run E.
  exists (ok (os (step w1))), w2. split; [done|]. destruct (ok (os (step w1))); [done|]. cbn [orb] in H. rewrite He by done. by destruct (_ =? _).
Qed.

(** The calls of a connection to [p]; the flags the system answered. *)
Definition connected_to (nonblock : bool) (p : addrinfo) (log : list call) : Prop :=
  exists flags, log = [Socket (ai_family p); SetOption SO_REUSEADDR 1 0] ++ (if nonblock then [SetFlags (Z.lor flags O_NONBLOCK)] else []) ++ [Connect (ai_addr p)].

Lemma maybe_nonblock_ok (nonblock : bool) w s log w1 : opened w s log w1 ->
  exists r w2, (if nonblock then anetNonBlock os strerror s else mret ANET_OK) w1 = Some (r, w2)
    /\ ((r = ANET_OK /\ exists flags, opened w s (log ++ if nonblock then [SetFlags (Z.lor flags O_NONBLOCK)] else []) w2)
       \/ (r = ANET_ERR /\ nonblock = true /\ opened w s log w2)).
Proof.
  intros Ho. destruct nonblock.
  - destruct (anetNonBlock_ok w s log w1 Ho) as (r & w2 & E & H). exists r, w2. split; [done|].
    destruct H as [[-> H]|[-> H]]; [left; split; [done|]; by eexists|by right].
  - exists ANET_OK, w1. split; [done|]. left. split; [done|]. exists 0. by rewrite app_nil_r.
Qed.

(** What the loop leaves: where it goes to [end] the socket is connected,
    elsewhere [s] is what there is to close. *)
Lemma connect_loop_ok nonblock l : forall w0 w, same w0 w ->
  exists fin s w', connect_loop os lowest strerror nonblock l ANET_ERR w = Some ((fin, s), w')
    /\ (if fin : bool then exists p log, p ∈ l /\ connected_to nonblock p log /\ opened w0 s log w'
        else (s = ANET_ERR /\ same w0 w') \/ exists log, opened w0 s log w').
Proof.
  induction l as [|p l IH]; intros w0 w Hw; cbn [connect_loop].
  { destruct (report_ok "creating socket: " w) as (w1 & E1 & H1). run E1. exists false, ANET_ERR, w1. split; [done|]. left.
    split; [done|]. by eapply same_trans. }
  assert (forall w, same w0 w -> exists fin s w', connect_loop os lowest strerror nonblock l ANET_ERR w = Some ((fin, s), w')
    /\ (if fin : bool then exists p' log, p' ∈ p :: l /\ connected_to nonblock p' log /\ opened w0 s log w'
        else (s = ANET_ERR /\ same w0 w') \/ exists log, opened w0 s log w')) as Hnext.
  { intros w2 Hw2. destruct (IH w0 w2 Hw2) as (fin & s & w' & E & H). exists fin, s, w'. split; [done|]. destruct fin; [|done].
    destruct H as (p' & log & Hin & H). exists p', log. split; [by right|done]. }
  unfold socket. destruct (call_new_ok (Socket (ai_family p)) w) as (s & w1 & E & [[-> Hs]|Ho]); run E.
  { apply Hnext. by eapply same_trans. }
  apply (same_opened _ _ _ _ _ Hw) in Ho. rewrite (opened_pos _ _ _ _ Ho).
  destruct (anetSetReuseAddr_ok w0 s _ w1 Ho) as (r & w2 & E2 & [[-> H2]|[-> H2]]); run E2.
  2: { exists false, s, w2. split; [done|]. right. by eexists. }
  change (ANET_OK =? ANET_ERR) with false. cbv iota.
  destruct (maybe_nonblock_ok nonblock w0 s _ w2 H2) as (r & w3 & E3 & [(-> & flags & H3)|(-> & _ & H3)]); run E3.
  2: { exists false, s, w3. split; [done|]. right. by eexists. }
  change (negb (ANET_OK =? ANET_OK)) with false. cbv iota.
  destruct (connect_ok w0 s _ w3 (ai_addr p) H3) as (r & w4 & E4 & H4); run E4.
  assert (connected_to nonblock p ((([Socket (ai_family p)] ++ [SetOption SO_REUSEADDR 1 0]) ++
    (if nonblock then [SetFlags (Z.lor flags O_NONBLOCK)] else [])) ++ [Connect (ai_addr p)])) as Hlog.
  { exists flags. by rewrite <- !app_assoc. }
  destruct r.
  { exists true, s, w4. split; [done|]. exists p. eexists. split; [by left|]. by split. }
  run (errno_ok w4). destruct (errno w4 =? EINPROGRESS); cbn [andb]; [destruct nonblock|].
  - exists true, s, w4. split; [done|]. exists p. eexists. split; [by left|]. by split.
  - destruct (close_ok w0 s _ w4 H4) as (w5 & E5 & H5). run E5. by apply Hnext.
  - destruct (close_ok w0 s _ w4 H4) as (w5 & E5 & H5). run E5. by apply Hnext.
Qed.
(** An error leaves nothing open; a success is one new descriptor, made by
    such calls. *)
Definition owned (w : net) (made : list call -> Prop) (r : Z) (w' : net) : Prop :=
  (r = ANET_ERR /\ same w w') \/ exists log, made log /\ opened w r log w'.

Definition with_list (w : net) (n : nat) : net := Net (step w) (errno w) (fds w) n (err_given w) (err w) (sent w) (got w).

Lemma getaddrinfo_ok w : exists w1, getaddrinfo os w = Some (if ok (os (step w)) then inr (infos (os (step w))) else inl (number (os (step w))), w1)
  /\ fds w1 = fds w /\ lists w1 = if ok (os (step w)) then S (lists w) else lists w.
Proof. unfold getaddrinfo. eexists. split; [done|]. cbn. by destruct (ok _). Qed.

(** Freeing the list that [getaddrinfo] gave. *)
Lemma freeaddrinfo_ok w n : lists w = S n -> freeaddrinfo w = Some (tt, with_list w n).
Proof. intros E. unfold freeaddrinfo. by rewrite E. Qed.

Lemma freed_same w w1 w2 : fds w1 = fds w -> lists w1 = S (lists w) -> same w1 w2 ->
  exists w3, freeaddrinfo w2 = Some (tt, w3) /\ same w w3.
Proof.
  intros Hf Hl [E1 E2]. exists (with_list w2 (lists w)). split; [apply freeaddrinfo_ok; congruence|]. split; cbn; congruence.
Qed.

Lemma freed_opened w w1 s log w2 : fds w1 = fds w -> lists w1 = S (lists w) -> opened w1 s log w2 ->
  exists w3, freeaddrinfo w2 = Some (tt, w3) /\ opened w s log w3.
Proof.
  intros Hf Hl [H1 H2 H3]. exists (with_list w2 (lists w)). split; [apply freeaddrinfo_ok; congruence|]. rewrite Hf in *. by split.
Qed.

Lemma anetTcpGenericConnect_ok nonblock w :
  exists r w', anetTcpGenericConnect os lowest strerror gai_strerror nonblock w = Some (r, w')
    /\ owned w (fun log => exists p, p ∈ infos (os (step w)) /\ connected_to nonblock p log) r w'.
Proof.
  unfold anetTcpGenericConnect. destruct (getaddrinfo_ok w) as (w1 & E & Hf & Hl). run E. destruct (ok (os (step w))).
  2: { destruct (set_error_ok (gai_strerror (number (os (step w)))) w1) as (w2 & E2 & H2). run E2. exists ANET_ERR, w2. split; [done|]. left.
       split; [done|]. eapply same_trans; [|exact H2]. by split. }
  destruct (connect_loop_ok nonblock (infos (os (step w))) w1 w1 (same_refl w1)) as (fin & s & w2 & E2 & H2). run E2. destruct fin.
  - destruct H2 as (p & log & Hin & Hlog & Ho). destruct (freed_opened _ _ _ _ _ Hf Hl Ho) as (w3 & E3 & H3). run E3.
    exists s, w3. split; [done|]. right. exists log. split; [by exists p|done].
  - destruct H2 as [[-> Hs]|[log Ho]].
    + change (negb (ANET_ERR =? ANET_ERR)) with false. cbv iota. run (M_ret_eq tt w2). destruct (freed_same _ _ _ Hf Hl Hs) as (w3 & E3 & H3). run E3.
      exists ANET_ERR, w3. split; [done|]. by left.
    + change (s =? ANET_ERR) with (s =? -1). rewrite (opened_pos _ _ _ _ Ho). cbn [negb]. destruct (close_ok _ _ _ _ Ho) as (w3 & E3 & H3). run E3.
      destruct (freed_same _ _ _ Hf Hl H3) as (w4 & E4 & H4). run E4. exists ANET_ERR, w4. split; [done|]. by left.
Qed.

Lemma anetUnixConnect_ok path w :
  exists r w', anetUnixConnect os lowest strerror path w = Some (r, w')
    /\ owned w (fun log => connected_to false (AddrInfo AF_LOCAL (SockUnix (sun_path path None))) log) r w'.
Proof.
  unfold anetUnixConnect, anetUnixGenericConnect. destruct (anetCreateSocket_ok AF_LOCAL w) as (s & w1 & E & [[-> Hs]|Ho]); run E.
  { exists ANET_ERR, w1. split; [done|]. by left. }
  change (s =? ANET_ERR) with (s =? -1). rewrite (opened_pos _ _ _ _ Ho). run (M_ret_eq ANET_OK w1). change (negb (ANET_OK =? ANET_OK)) with false. cbv iota.
  destruct (connect_ok _ _ _ _ (SockUnix (sun_path path None)) Ho) as (r & w2 & E2 & H2). run E2. destruct r.
  { exists s, w2. split; [done|]. right. eexists. split; [|exact H2]. by exists 0. }
  run (errno_ok w2). rewrite andb_false_r. destruct (report_ok "connect: " w2) as (w3 & E3 & H3). run E3.
  assert (exists log, opened w s log w3) as [log Ho3].
  { destruct (errno w2 =? EINPROGRESS); eexists; by eapply opened_same. }
  destruct (close_ok _ _ _ _ Ho3) as (w4 & E4 & H4). run E4. exists ANET_ERR, w4. split; [done|]. by left.
Qed.

Lemma anetListen_ok w s log w1 sa backlog : opened w s log w1 ->
  exists r w2, anetListen os strerror s sa backlog w1 = Some (r, w2)
    /\ ((r = ANET_OK /\ opened w s (log ++ [Bind sa; Listen backlog]) w2) \/ (r = ANET_ERR /\ same w w2)).
Proof.
  intros Ho. unfold anetListen, bind, listen. rewrite M_bind_eq.
  destruct (call_on_ok _ _ _ _ (Bind sa) ok Ho) as (w2 & E2 & H2 & _). run E2. rewrite M_ret_eq. destruct (ok (os (step w1))); cbn [negb].
  - rewrite M_bind_eq. destruct (call_on_ok _ _ _ _ (Listen backlog) ok H2) as (w3 & E3 & H3 & _). run E3. rewrite M_ret_eq.
    destruct (ok (os (step w2))); cbn [negb].
    + exists ANET_OK, w3. split; [done|]. left. split; [done|]. by rewrite <- app_assoc in H3.
    + destruct (report_ok "listen: " w3) as (w4 & E4 & H4). run E4. destruct (close_ok _ _ _ _ (opened_same _ _ _ _ _ H3 H4)) as (w5 & E5 & H5). run E5.
      exists ANET_ERR, w5. split; [done|]. by right.
  - destruct (report_ok "bind: " w2) as (w4 & E4 & H4). run E4. destruct (close_ok _ _ _ _ (opened_same _ _ _ _ _ H2 H4)) as (w5 & E5 & H5). run E5.
    exists ANET_ERR, w5. split; [done|]. by right.
Qed.

(** The calls of a listening socket. *)
Definition listens_on (before : list call) (sa : sockaddr) (backlog : Z) (log : list call) : Prop := log = before ++ [Bind sa; Listen backlog].

Lemma anetUnixServer_ok path backlog w :
  exists r w', anetUnixServer os lowest strerror path backlog w = Some (r, w')
    /\ owned w (listens_on [Socket AF_LOCAL; SetOption SO_REUSEADDR 1 0] (SockUnix (sun_path path (Some NUL))) backlog) r w'.
Proof.
  unfold anetUnixServer. destruct (anetCreateSocket_ok AF_LOCAL w) as (s & w1 & E & [[-> Hs]|Ho]); run E.
  { exists ANET_ERR, w1. split; [done|]. by left. }
  change (s =? ANET_ERR) with (s =? -1). rewrite (opened_pos _ _ _ _ Ho).
  destruct (anetListen_ok _ _ _ _ (SockUnix (sun_path path (Some NUL))) backlog Ho) as (r & w2 & E2 & [[-> H2]|[-> H2]]); run E2.
  - exists s, w2. split; [done|]. right. by eexists.
  - exists ANET_ERR, w2. split; [done|]. by left.
Qed.
Lemma anetV6Only_ok w s log w1 : opened w s log w1 ->
  exists r w2, anetV6Only os strerror s w1 = Some (r, w2)
    /\ ((r = ANET_OK /\ opened w s (log ++ [SetOption IPV6_V6ONLY 1 0]) w2) \/ (r = ANET_ERR /\ same w w2)).
Proof.
  intros Ho. unfold anetV6Only. destruct (set_option_ok _ _ _ _ IPV6_V6ONLY 1 0 "setsockopt: " Ho) as (r & w2 & E & [[-> H]|[-> H]]); run E.
  - exists ANET_OK, w2. split; [done|]. by left.
  - change (ANET_ERR =? ANET_ERR) with true. cbv iota. destruct (close_ok _ _ _ _ H) as (w3 & E3 & H3). run E3.
    exists ANET_ERR, w3. split; [done|]. by right.
Qed.

Definition v6_calls (af : domain) : list call := if decide (af = AF_INET6) then [SetOption IPV6_V6ONLY 1 0] else [].

Definition serves (af : domain) (backlog : Z) (l : list addrinfo) (log : list call) : Prop :=
  exists p, p ∈ l /\ listens_on (Socket (ai_family p) :: v6_calls af ++ [SetOption SO_REUSEADDR 1 0]) (ai_addr p) backlog log.

(** What remains open when SO_REUSEADDR is refused: a socket for an address
    of the list on which all the calls before it succeeded, where the last call
    of all was the one that was refused. *)
Definition left_open (af : domain) (l : list addrinfo) (w w' : net) : Prop :=
  exists s p w1 w2, p ∈ l /\ opened w s (Socket (ai_family p) :: v6_calls af) w'
    /\ anetSetReuseAddr os strerror s w1 = Some (ANET_ERR, w2) /\ fds w2 = fds w' /\ step w2 = step w'.

Lemma server_loop_ok af backlog l : forall w0 w, same w0 w ->
  exists r w', server_loop os lowest strerror af backlog l w = Some (r, w')
    /\ (owned w0 (serves af backlog l) r w' \/ (r = ANET_ERR /\ left_open af l w0 w')).
Proof.
  induction l as [|p l IH]; intros w0 w Hw; cbn [server_loop].
  { destruct (set_error_ok (bs "unable to bind socket") w) as (w1 & E1 & H1). run E1. exists ANET_ERR, w1. split; [done|].
    left. left. split; [done|]. by eapply same_trans. }
  unfold socket. destruct (call_new_ok (Socket (ai_family p)) w) as (s & w1 & E & [[-> Hs]|Ho]); run E.
  { destruct (IH w0 w1) as (r & w' & E' & H); [by eapply same_trans|]. exists r, w'. split; [done|]. destruct H as [[H|(log & (q & Hq & Hlog) & Ho)]|(-> & s & q & w2 & w3 & Hq & H)]; [by left; left| |].
    2: { right. split; [done|]. exists s, q, w2, w3. split; [by right|done]. }
    left. right. exists log. split; [|done]. exists q. split; [by right|done]. }
  apply (same_opened _ _ _ _ _ Hw) in Ho. rewrite (opened_pos _ _ _ _ Ho).
  assert (exists r w2, (if decide (af = AF_INET6) then anetV6Only os strerror s else mret ANET_OK) w1 = Some (r, w2)
    /\ ((r = ANET_OK /\ opened w0 s ([Socket (ai_family p)] ++ v6_calls af) w2) \/ (r = ANET_ERR /\ same w0 w2))) as (r & w2 & E2 & H2).
  { unfold v6_calls. destruct (decide (af = AF_INET6)); [by apply anetV6Only_ok|]. exists ANET_OK, w1. split; [done|]. by left. }
  run E2. destruct H2 as [[-> H2]|[-> H2]].
  2: { exists ANET_ERR, w2. split; [done|]. left. by left. }
  change (ANET_OK =? ANET_ERR) with false. cbv iota.
  destruct (anetSetReuseAddr_ok _ _ _ _ H2) as (r & w3 & E3 & [[-> H3]|[-> H3]]); run E3.
  2: { exists ANET_ERR, w3. split; [done|]. right. split; [done|]. exists s, p, w2, w3. split; [by left|by split]. }
  change (ANET_OK =? ANET_ERR) with false. cbv iota.
  destruct (anetListen_ok _ _ _ _ (ai_addr p) backlog H3) as (r & w4 & E4 & [[-> H4]|[-> H4]]); run E4.
  - exists s, w4. split; [done|]. left. right. eexists. split; [|exact H4]. exists p. split; [by left|]. reflexivity.
  - exists ANET_ERR, w4. split; [done|]. left. by left.
Qed.

Lemma anetTcpServer_ok af backlog w :
  exists r w', _anetTcpServer os lowest strerror gai_strerror af backlog w = Some (r, w')
    /\ (owned w (serves af backlog (infos (os (step w)))) r w' \/ (r = ANET_ERR /\ left_open af (infos (os (step w))) w w')).
Proof.
  unfold _anetTcpServer. destruct (getaddrinfo_ok w) as (w1 & E & Hf & Hl). run E. destruct (ok (os (step w))).
  2: { destruct (set_error_ok (gai_strerror (number (os (step w)))) w1) as (w2 & E2 & H2). run E2. exists ANET_ERR, w2. split; [done|]. left. left.
       split; [done|]. eapply same_trans; [|exact H2]. by split. }
  destruct (server_loop_ok af backlog (infos (os (step w))) w1 w1 (same_refl w1)) as (r & w2 & E2 & H2). run E2.
  destruct H2 as [[[-> Hs]|(log & Hlog & Ho)]|[-> (s & p & u1 & u2 & Hp & Ho & Hu & Hf2 & Hs2)]].
  - destruct (freed_same _ _ _ Hf Hl Hs) as (w3 & E3 & H3). run E3. exists ANET_ERR, w3. split; [done|]. left. by left.
  - destruct (freed_opened _ _ _ _ _ Hf Hl Ho) as (w3 & E3 & H3). run E3. exists r, w3. split; [done|]. left. right. by exists log.
  - destruct (freed_opened _ _ _ _ _ Hf Hl Ho) as (w3 & E3 & H3). pose proof E3 as E3'. run E3. exists ANET_ERR, w3. split; [done|]. right. split; [done|].
    exists s, p, u1, u2. split; [done|]. split; [exact H3|]. split; [exact Hu|]. unfold freeaddrinfo in E3'. destruct (lists w2); [done|]. by injection E3' as <-.
Qed.

(** Accepting ends when the system no longer interrupts it. *)
Lemma anetGenericAccept_ok fuel listener : forall w, is_Some (fds w !! listener) ->
  (exists k, (k <= fuel)%nat /\ (ok (os (step w + k)) = true \/ number (os (step w + k)) <> EINTR)) ->
  exists r w', anetGenericAccept os lowest strerror fuel listener w = Some (r, w') /\ owned w (fun log => log = [Accepted listener]) r w'.
Proof.
  induction fuel as [|fuel IH]; intros w [x Hx] (k & Hk & Hend); cbn [anetGenericAccept]; rewrite Hx; cbn [mbind option_bind].
  all: destruct (call_new_ok (Accepted listener) w) as (s & w1 & E & Hs); pose proof E as E0; rewrite E; cbn [mbind option_bind].
  all: unfold call_new in E0; injection E0 as Es Ew.
  all: destruct Hs as [[-> Hs]|Ho]; [|rewrite (opened_pos _ _ _ _ Ho); exists s, w1; split; [done|]; right; by eexists].
  all: cbn [Z.eqb Pos.eqb]; destruct (Z.eqb_spec (errno w1) EINTR) as [He|He].
  2, 4: destruct (report_ok "accept: " w1) as (w2 & E2 & H2); exists ANET_ERR, w2; split; [done|]; left; split; [done|]; by eapply same_trans.
  - exfalso. replace k with 0%nat in Hend by lia. rewrite Nat.add_0_r in Hend. destruct (ok (os (step w))) eqn:Eok.
    + destruct (lowest_new (dom (fds w))). lia.
    + subst w1. unfold with_errno in He. cbn in He. rewrite Eok in He. by destruct Hend.
  - assert (ok (os (step w)) = false) as Eok.
    { destruct (ok (os (step w))) eqn:Eok; [|done]. destruct (lowest_new (dom (fds w))). lia. }
    assert (number (os (step w)) = EINTR) as Hn by (subst w1; unfold with_errno in He; cbn in He; by rewrite Eok in He).
    destruct k as [|k].
    { rewrite Nat.add_0_r in Hend. destruct Hend; congruence. }
    destruct (IH w1) as (r & w' & E' & H').
    + destruct Hs as [-> _]. by exists x.
    + exists k. split; [lia|]. rewrite <- Ew. cbn. by replace (S (step w + k)) with (step w + S k)%nat by lia.
    + exists r, w'. split; [done|]. destruct H' as [[-> H']|(log & Hlog & Ho)]; [left; split; [done|]; by eapply same_trans|].
      right. exists log. split; [done|]. by eapply same_opened.
Qed.
(** ** Reading and writing *)

Lemma write_loop_ok fuel fd : forall totlen buf w, (length buf <= fuel)%nat -> is_Some (fds w !! fd) ->
  exists r w' n, write_loop os fuel fd totlen buf w = Some (r, w') /\ same w w' /\ (n <= length buf)%nat
    /\ sent w' = sent w ++ take n buf /\ (r = -1 \/ r = totlen + Z.of_nat n).
Proof.
  induction fuel as [|fuel IH]; intros totlen buf w Hl [x Hx]; cbn [write_loop]; destruct (Z.eqb_spec (zlen buf) 0) as [E|E]; [|lia| |].
  1, 2: exists totlen, w, 0%nat; rewrite take_0, app_nil_r; split_and!; [done|done|lia|done|right; lia].
  rewrite M_bind_eq. unfold write. rewrite Hx. cbn [mbind option_bind]. destruct (ok (os (step w))); cbn iota.
  2: { exists (-1), (Net (S (step w)) (with_errno (os (step w)) w) (fds w) (lists w) (err_given w) (err w) (sent w) (got w)), 0%nat.
       rewrite take_0, app_nil_r. split_and!; [done|done|lia|done|by left]. }
  set (l := take (Z.to_nat (number (os (step w)))) buf). set (w1 := Net _ _ _ _ _ _ _ _).
  assert (buf = l ++ drop (length l) buf) as Hbuf.
  { subst l. rewrite length_take. destruct (decide (Z.to_nat (number (os (step w))) <= length buf)%nat).
    - rewrite Nat.min_l by done. by rewrite take_drop.
    - rewrite Nat.min_r, drop_all, app_nil_r by lia. by rewrite take_ge by lia. }
  clearbody l. destruct (Z.eqb_spec (zlen l) 0) as [E0|E0].
  - exists totlen, w1, 0%nat. rewrite take_0, app_nil_r. split_and!; [done|done|lia| |right; lia]. destruct l; [apply app_nil_r|done].
  - rewrite Nat2Z.id. destruct (IH (totlen + zlen l) (drop (length l) buf) w1) as (r & w' & n & -> & Hs & Hn & Hsent & Hr).
    + rewrite length_drop. lia.
    + by exists x.
    + exists r, w', (length l + n)%nat. split_and!; [done| | | |].
      * by eapply same_trans; [|exact Hs].
      * rewrite length_drop in Hn. apply (f_equal length) in Hbuf. rewrite length_app, length_drop in Hbuf. lia.
      * rewrite Hsent. cbn. rewrite <- app_assoc. f_equal. rewrite Hbuf at 2. symmetry. apply take_app_add.
      * destruct Hr as [->| ->]; [by left|right; lia].
Qed.

Lemma read_loop_ok fuel fd count : forall buf w, zlen buf <= count <= zlen buf + Z.of_nat fuel -> is_Some (fds w !! fd) ->
  exists r l w', read_loop os fuel fd count buf w = Some ((r, buf ++ l), w') /\ same w w' /\ got w' = got w ++ l
    /\ zlen (buf ++ l) <= count /\ (r = -1 \/ r = zlen (buf ++ l)).
Proof.
  induction fuel as [|fuel IH]; intros buf w Hl [x Hx]; cbn [read_loop]; destruct (Z.eqb_spec (zlen buf) count) as [E|E]; [|lia| |].
  1, 2: exists (zlen buf), [], w; rewrite !app_nil_r; split_and!; [done|done|done|lia|by right].
  rewrite M_bind_eq. unfold read. rewrite Hx. cbn [mbind option_bind]. destruct (ok (os (step w))); cbn iota.
  2: { eexists (-1), [], _. rewrite !app_nil_r. split_and!; [done|done|done|lia|by left]. }
  set (l := take (Z.to_nat (count - zlen buf)) (data (os (step w)))). set (w1 := Net _ _ _ _ _ _ _ _).
  assert (zlen l <= count - zlen buf) as Hle by (subst l; rewrite length_take; lia). clearbody l. destruct l as [|c l].
  - exists (zlen buf), [], w1. rewrite !app_nil_r. split_and!; [done|done|cbn; by rewrite app_nil_r|lia|by right].
  - destruct (IH (buf ++ c :: l) w1) as (r & l' & w' & -> & Hs & Hg & Hc & Hr); [rewrite length_app; cbn [length] in *; lia|by exists x|].
    exists r, (c :: l ++ l'), w'. rewrite <- app_assoc in *. cbn [app] in *. split_and!; [done| | |done|done].
    + by eapply same_trans; [|exact Hs].
    + rewrite Hg. cbn. by rewrite <- app_assoc.
Qed.
End ownership.

(** C39. Whatever the system answers, connecting (over TCP, or to a Unix socket to block) and
    listening use and close only descriptors that are open, free each address list once, and either
    report an error with nothing left open or return one new descriptor on which exactly the calls
    that make it such a socket succeeded, for an address of the list; only a TCP server that fails
    may leave a socket open, and only one on which every call before succeeded and whose
    SO_REUSEADDR, the last call, was refused. The descriptors the system gives are new and not
    negative. *)
Theorem sockets_owned os lowest strerror gai_strerror w :
  (forall X, 0 <= lowest X /\ lowest X ∉ X) ->
  (forall nonblock, exists r w', anetTcpGenericConnect os lowest strerror gai_strerror nonblock w = Some (r, w')
    /\ owned w (fun log => exists p, p ∈ infos (os (step w)) /\ connected_to nonblock p log) r w')
  /\ (forall path, exists r w', anetUnixConnect os lowest strerror path w = Some (r, w')
    /\ owned w (connected_to false (AddrInfo AF_LOCAL (SockUnix (sun_path path None)))) r w')
  /\ (forall path backlog, exists r w', anetUnixServer os lowest strerror path backlog w = Some (r, w')
    /\ owned w (listens_on [Socket AF_LOCAL; SetOption SO_REUSEADDR 1 0] (SockUnix (sun_path path (Some NUL))) backlog) r w')
  /\ (forall af backlog, exists r w', _anetTcpServer os lowest strerror gai_strerror af backlog w = Some (r, w')
    /\ (owned w (serves af backlog (infos (os (step w)))) r w' \/ (r = ANET_ERR /\ left_open os strerror af (infos (os (step w))) w w'))).
Proof.
  intros Hl. split_and!; intros.
  - by apply anetTcpGenericConnect_ok.
  - by apply anetUnixConnect_ok.
  - by apply anetUnixServer_ok.
  - by apply anetTcpServer_ok.
Qed.

(** [anetWrite] writes a prefix of its bytes and [anetRead] fills its buffer
    with what the system gives, in order; both end, and return its length or -1. *)
Theorem whole_transfers os w fd : is_Some (fds w !! fd) ->
  (forall buf, exists r w' n, anetWrite os fd buf w = Some (r, w') /\ same w w' /\ sent w' = sent w ++ take n buf /\ (n <= length buf)%nat
    /\ (r = -1 \/ r = Z.of_nat n))
  /\ (forall count, 0 <= count -> exists r l w', anetRead os fd count w = Some ((r, l), w') /\ same w w' /\ got w' = got w ++ l
    /\ zlen l <= count /\ (r = -1 \/ r = zlen l)).
Proof.
  intros Hfd. split.
  - intros buf. destruct (write_loop_ok os (length buf) fd 0 buf w) as (r & w' & n & E & Hs & Hn & Hsent & Hr); [done|done|]. by exists r, w', n.
  - intros count Hc. destruct (read_loop_ok os (Z.to_nat count) fd count [] w) as (r & l & w' & E & H); [cbn; lia|done|]. by exists r, l, w'.
Qed.

(** ** A system to try them on *)

Definition here : sockaddr := SockInet AF_INET (bs "127.0.0.1") 7350.
Definition no_text (e : Z) : bytes := bs "error".
Definition start (open : gmap Z (list call)) : net := Net 0 0 open 0 true [] [] [].

(** One address; the first failing call is the one numbered [bad]. *)
Definition refusing (bad : nat) (n : nat) : answer :=
  Answer (negb (n =? bad)%nat) 2 [AddrInfo AF_INET here] here (bs "data").

Definition descriptors {A} (r : option (A * net)) : option (A * list Z) := (fun x => (x.1, elements (dom (fds x.2)))) <$> r.

(** The socket of a connection that is not to block stays open when its flags
    cannot be read; a listening socket stays open when SO_REUSEADDR is refused. *)
Example unix_connect_leaks :
  descriptors (anetUnixNonBlockConnect (refusing 2) above no_text (bs "/tmp/s") (start ∅)) = Some (ANET_ERR, [0]).
Proof. vm_compute. reflexivity. Qed.
Example tcp_server_leaks :
  descriptors (anetTcpServer (refusing 2) above no_text no_text 511 (start ∅)) = Some (ANET_ERR, [0]).
Proof. vm_compute. reflexivity. Qed.
Example v6_closes :
  descriptors (anetTcp6Server (refusing 2) above no_text no_text 511 (start ∅)) = Some (ANET_ERR, []).
Proof. vm_compute. reflexivity. Qed.
Example tcp_connect_closes :
  descriptors (anetTcpNonBlockConnect (refusing 3) above no_text no_text (start ∅)) = Some (ANET_ERR, []).
Proof. vm_compute. reflexivity. Qed.

Lemma sockets_owned_witness :
  descriptors (anetTcpConnect (refusing 9) above no_text no_text (start ∅)) = Some (0, [0])
  /\ (forall nonblock, exists r w', anetTcpGenericConnect (refusing 9) above no_text no_text nonblock (start ∅) = Some (r, w')
    /\ owned (start ∅) (fun log => exists p, p ∈ infos (refusing 9 0) /\ connected_to nonblock p log) r w').
Proof. split; [by vm_compute|]. apply (sockets_owned (refusing 9) above no_text no_text (start ∅)), above_new. Defined.

Lemma whole_transfers_witness :
  exists r w' n, anetWrite (refusing 3) 5 (bs "hello") (start {[5 := []]}) = Some (r, w')
    /\ same (start {[5 := []]}) w' /\ sent w' = take n (bs "hello") /\ (n <= 5)%nat /\ (r = -1 \/ r = Z.of_nat n).
Proof. apply (whole_transfers (refusing 3) (start {[5 := []]}) 5). by exists []. Defined.
