(* ===== verification/Zmalloc.v ===== *)
(** * deps/ae/zmalloc.c: allocation with a counter

    The variant without [malloc_usable_size]: each block starts with a
    [size_t] that holds the size that was asked for, and [used_memory] counts
    the blocks with that prefix, rounded up to a [long].  The allocator of the
    C library is a parameter; running out of memory ends the process, as the
    handler for it does ([Some None]), and using a pointer that was not given
    out is undefined ([None]).  Also the counter under several threads, and
    the readers of /proc. *)

From Stdlib Require SpecFloat.
From S2P Require Import Prelude Util Buffer.

Definition PREFIX_SIZE : Z := 8.

(** A block of the library: the prefix, and the bytes behind it. *)
Record zblock := ZBlock { prefix : Z; contents : list (option byte) }.

(** [zmalloc_oom_handler]: [zmalloc_default_oom], which aborts, or another,
    which may return. *)
Inductive oom_handler : Type := DefaultOom | OwnOom (returns : bool).

Record zstate := ZState { blocks : gmap Z zblock; used_memory : Z; zmalloc_oom_handler : oom_handler }.

(** The rounding of [update_zmalloc_stat_alloc] and of [zmalloc_size]. *)
Definition round_long (n : Z) : Z := if negb (Z.land n 7 =? 0) then u64 (n + (8 - Z.land n 7)) else n.

Definition stat_alloc (z : zstate) (n : Z) : zstate := ZState (blocks z) (u64 (used_memory z + round_long n)) (zmalloc_oom_handler z).
Definition stat_free (z : zstate) (n : Z) : zstate := ZState (blocks z) (u64 (used_memory z - round_long n)) (zmalloc_oom_handler z).
Definition with_block (z : zstate) (p : Z) (b : zblock) : zstate := ZState (<[p := b]> (blocks z)) (used_memory z) (zmalloc_oom_handler z).

Definition zmalloc_set_oom_handler (h : oom_handler) (z : zstate) : zstate := ZState (blocks z) (used_memory z) h.

Section zmalloc.
(** The address the library gives for a number of bytes; NULL is None. *)
Variable libc_alloc : gmap Z zblock -> Z -> option Z.

Notation outcome A := (option (option A)).

(** When there is no memory the handler is called; after one that returns the
    prefix is written to NULL. *)
Definition out_of_memory {A} (z : zstate) : outcome A :=
  match zmalloc_oom_handler z with OwnOom true => None | _ => Some None end.

(** [fill] is what the new bytes hold.  A size that wraps around leaves no
    room for the prefix. *)
Definition zalloc (fill : option byte) (z : zstate) (size : Z) : outcome (Z * zstate) :=
  let n := u64 (size + PREFIX_SIZE) in
  match libc_alloc (blocks z) n with
  | None => out_of_memory z
  | Some p =>
      if n <? PREFIX_SIZE then None
      else
        let z := with_block z p (ZBlock size (replicate (Z.to_nat (n - PREFIX_SIZE)) fill)) in
        Some (Some (p + PREFIX_SIZE, stat_alloc z n))
  end.

Definition zmalloc : zstate -> Z -> outcome (Z * zstate) := zalloc None.
Definition zcalloc : zstate -> Z -> outcome (Z * zstate) := zalloc (Some NUL).

(** The block of a pointer that was given out. *)
Definition block_of (z : zstate) (ptr : Z) : option zblock := blocks z !! (ptr - PREFIX_SIZE).

Definition zmalloc_size (z : zstate) (ptr : Z) : option Z :=
  b ← block_of z ptr; Some (u64 (round_long (prefix b) + PREFIX_SIZE)).

(** A NULL [ptr] is None.  [realloc] moves the block and keeps what fits. *)
Definition zrealloc (z : zstate) (ptr : option Z) (size : Z) : outcome (Z * zstate) :=
  match ptr with
  | None => zmalloc z size
  | Some ptr =>
      b ← block_of z ptr;
      let oldsize := prefix b in
      let n := u64 (size + PREFIX_SIZE) in
      let others := delete (ptr - PREFIX_SIZE) (blocks z) in
      match libc_alloc others n with
      | None => out_of_memory z
      | Some p =>
          if n <? PREFIX_SIZE then None
          else
            let m := Z.to_nat (n - PREFIX_SIZE) in
            let z := ZState (<[p := ZBlock size (take m (contents b ++ replicate m None))]> others) (used_memory z) (zmalloc_oom_handler z) in
            Some (Some (p + PREFIX_SIZE, stat_alloc (stat_free z oldsize) size))
      end
  end.

Definition zfree (z : zstate) (ptr : option Z) : option zstate :=
  match ptr with
  | None => Some z
  | Some ptr =>
      b ← block_of z ptr;
      let z := stat_free z (u64 (prefix b + PREFIX_SIZE)) in
      Some (ZState (delete (ptr - PREFIX_SIZE) (blocks z)) (used_memory z) (zmalloc_oom_handler z))
  end.

Definition zstrdup (z : zstate) (s : bytes) : outcome (Z * zstate) :=
  let l := Z.of_nat (strlen s) + 1 in
  r ← zmalloc z l;
  match r with
  | None => Some None
  | Some (p, z) => Some (Some (p, with_block z (p - PREFIX_SIZE) (ZBlock l (written (cstr s) ++ [Some NUL]))))
  end.

Definition zmalloc_used_memory (z : zstate) : Z := used_memory z.

(** ** Calls of a client *)

Inductive zcall : Type := ZMalloc (n : Z) | ZCalloc (n : Z) | ZRealloc (p : option Z) (n : Z) | ZFree (p : option Z) | ZStrdup (s : bytes)
| ZSetOom (h : oom_handler).

Definition out_state (r : outcome (Z * zstate)) : outcome zstate := option_map (option_map snd) r.

Definition zrun1 (z : zstate) (c : zcall) : outcome zstate :=
  match c with
  | ZMalloc n => out_state (zmalloc z n)
  | ZCalloc n => out_state (zcalloc z n)
  | ZRealloc p n => out_state (zrealloc z p n)
  | ZFree p => option_map Some (zfree z p)
  | ZStrdup s => out_state (zstrdup z s)
  | ZSetOom h => Some (Some (zmalloc_set_oom_handler h z))
  end.

Fixpoint zrun (z : zstate) (l : list zcall) : outcome zstate :=
  match l with
  | [] => Some (Some z)
  | c :: l => r ← zrun1 z c; match r with Some z => zrun z l | None => Some None end
  end.

(** Pointers are NULL or given out, sizes leave room for the prefix, a handler
    does not return. *)
Definition zsize_ok (n : Z) : Prop := 0 <= n < 2 ^ 64 - 16.
Definition zptr_ok (z : zstate) (p : option Z) : Prop := match p with None => True | Some p => is_Some (block_of z p) end.
Definition zcall_ok (z : zstate) (c : zcall) : Prop :=
  match c with
  | ZMalloc n | ZCalloc n => zsize_ok n
  | ZRealloc p n => zptr_ok z p /\ zsize_ok n
  | ZFree p => zptr_ok z p
  | ZStrdup s => zsize_ok (Z.of_nat (strlen s) + 1)
  | ZSetOom h => h <> OwnOom true
  end.

Fixpoint zcalls_ok (z : zstate) (l : list zcall) : Prop :=
  match l with [] => True | c :: l => zcall_ok z c /\ forall z', zrun1 z c = Some (Some z') -> zcalls_ok z' l end.

(** What the blocks occupy. *)
Definition block_size (b : zblock) : Z := round_long (prefix b) + PREFIX_SIZE.
Definition occupied (h : gmap Z zblock) : Z := map_fold (fun _ b n => n + block_size b) 0 h.

Record zinv (z : zstate) : Prop := {
  zi_used : used_memory z = u64 (occupied (blocks z));
  zi_block p b : blocks z !! p = Some b -> 0 <= prefix b < 2 ^ 64 - 16 /\ zlen (contents b) = prefix b;
  zi_oom : zmalloc_oom_handler z <> OwnOom true;
}.

Lemma occupied_insert h p b : h !! p = None -> occupied (<[p := b]> h) = occupied h + block_size b.
Proof. intros Hp. unfold occupied. rewrite map_fold_insert_L; [done|intros; lia|done]. Qed.

Lemma occupied_delete h p b : h !! p = Some b -> occupied (delete p h) = occupied h - block_size b.
Proof.
  intros Hp. rewrite <- (insert_delete_id h p b Hp) at 2. rewrite occupied_insert by apply lookup_delete_eq. lia.
Qed.

(** Rounding goes up to the next multiple of 8. *)
Lemma round_long_eq n : 0 <= n < 2 ^ 64 - 8 -> round_long n = (n + 7) / 8 * 8.
Proof.
  intros Hn. unfold round_long. change 7 with (Z.ones 3) at 1 2. rewrite Z.land_ones by lia. change (2 ^ 3) with 8.
  pose proof (Z.mod_pos_bound n 8 eq_refl). pose proof (Z.div_mod n 8 ltac:(lia)) as Hd.
  destruct (Z.eqb_spec (n mod 8) 0) as [E|E]; cbn [negb].
  - rewrite <- (Z.div_unique (n + 7) 8 (n / 8) 7); lia.
  - rewrite u64_small by (unfold in_u64; lia). rewrite <- (Z.div_unique (n + 7) 8 (n / 8 + 1) (n mod 8 - 1)); lia.
Qed.

Lemma round_prefix n : 0 <= n < 2 ^ 64 - 16 -> round_long (n + 8) = round_long n + 8.
Proof.
  intros Hn. rewrite !round_long_eq by lia. replace (n + 8 + 7) with (n + 7 + 1 * 8) by lia. rewrite Z.div_add by lia. lia.
Qed.

Hypothesis alloc_new : forall h n p, libc_alloc h n = Some p -> h !! p = None.

Lemma out_of_memory_eq A z : zinv z -> @out_of_memory A z = Some None.
Proof. intros Hz. pose proof (zi_oom _ Hz). unfold out_of_memory. by destruct (zmalloc_oom_handler z) as [|[]]. Qed.

(** A call gives a block that was not there, and counts it. *)
Lemma zalloc_ok fill z n : zinv z -> zsize_ok n ->
  match zalloc fill z n with
  | Some (Some (p, z')) => zinv z' /\ blocks z !! (p - PREFIX_SIZE) = None
      /\ blocks z' = <[p - PREFIX_SIZE := ZBlock n (replicate (Z.to_nat n) fill)]> (blocks z)
  | Some None => True
  | None => False
  end.
Proof.
  intros Hz Hn. pose proof Hz as [Hu Hb Ho]. unfold zsize_ok in Hn. unfold zalloc, PREFIX_SIZE. rewrite u64_small by (unfold in_u64; lia).
  destruct (libc_alloc (blocks z) (n + 8)) as [p|] eqn:Ea; [|by rewrite out_of_memory_eq]. pose proof (alloc_new _ _ _ Ea) as Hp.
  destruct (Z.ltb_spec (n + 8) 8); [lia|]. replace (p + 8 - 8) with p by lia. replace (n + 8 - 8) with n by lia.
  split; [|done]. split; cbn; [| |exact Ho].
  - rewrite occupied_insert, Hu, u64_add_l, round_prefix by (done || lia). done.
  - intros q b. rewrite lookup_insert_Some. intros [[<- <-]|[_ Hq]]; [|by eapply Hb]. cbn. rewrite length_replicate. lia.
Qed.

Lemma zfree_ok z p b : zinv z -> block_of z p = Some b -> exists z', zfree z (Some p) = Some z' /\ zinv z' /\ blocks z' = delete (p - PREFIX_SIZE) (blocks z).
Proof.
  intros [Hu Hb Ho] Hp. unfold zfree. rewrite Hp. cbn [mbind option_bind]. eexists. split; [done|]. split; [|done].
  destruct (Hb _ _ Hp) as [Hsize _]. split; cbn; [| |exact Ho].
  - rewrite (occupied_delete _ _ b Hp), Hu, u64_sub_l. unfold block_size, PREFIX_SIZE.
    rewrite (u64_small (prefix b + 8)) by (unfold in_u64; lia). by rewrite round_prefix.
  - intros q c. rewrite lookup_delete_Some. intros [_ Hq]. by eapply Hb.
Qed.

(** A block that moves keeps the bytes that fit. *)
Lemma zrealloc_ok z p b n : zinv z -> block_of z p = Some b -> zsize_ok n ->
  match zrealloc z (Some p) n with
  | Some (Some (p', z')) => zinv z' /\ delete (p - PREFIX_SIZE) (blocks z) !! (p' - PREFIX_SIZE) = None
      /\ exists b', blocks z' = <[p' - PREFIX_SIZE := b']> (delete (p - PREFIX_SIZE) (blocks z)) /\ prefix b' = n
           /\ forall m, (m <= length (contents b))%nat -> (m <= Z.to_nat n)%nat -> take m (contents b') = take m (contents b)
  | Some None => True
  | None => False
  end.
Proof.
  intros Hz Hp Hn. pose proof Hz as [Hu Hb Ho]. unfold zsize_ok in Hn. unfold zrealloc. rewrite Hp. cbn [mbind option_bind]. unfold block_of in Hp. unfold PREFIX_SIZE in *.
  rewrite u64_small by (unfold in_u64; lia). destruct (Hb _ _ Hp) as [Hsize Hlen].
  destruct (libc_alloc (delete (p - 8) (blocks z)) (n + 8)) as [q|] eqn:Ea; [|by rewrite out_of_memory_eq]. pose proof (alloc_new _ _ _ Ea) as Hq.
  destruct (Z.ltb_spec (n + 8) 8); [lia|]. replace (q + 8 - 8) with q by lia. replace (n + 8 - 8) with n by lia.
  split; [|split; [done|]].
  - split; cbn; [| |exact Ho].
    + rewrite occupied_insert by done. rewrite (occupied_delete _ _ b Hp), Hu, u64_sub_l, u64_add_l. f_equal. unfold block_size. cbn. lia.
    + intros r c. rewrite lookup_insert_Some. intros [[<- <-]|[_ Hr]]; cbn.
      * rewrite length_take, length_app, length_replicate. lia.
      * apply lookup_delete_Some in Hr as [_ Hr]. by eapply Hb.
  - eexists. split; [done|]. split; [done|]. cbn. intros m Hm1 Hm2. rewrite take_take, Nat.min_l by done. by rewrite take_app_le.
Qed.

Lemma zrun1_ok z c : zinv z -> zcall_ok z c -> exists r, zrun1 z c = Some r /\ match r with Some z' => zinv z' | None => True end.
Proof.
  intros Hz Hc. destruct c as [n|n|[p|] n|[p|]|s|h]; cbn [zrun1 zcall_ok zptr_ok] in *.
  - pose proof (zalloc_ok None z n Hz Hc) as H. change (zmalloc z n) with (zalloc None z n).
    destruct (zalloc None z n) as [[[p z']|]|]; [|by exists None|done]. exists (Some z'). split; [done|apply H].
  - pose proof (zalloc_ok (Some NUL) z n Hz Hc) as H. change (zcalloc z n) with (zalloc (Some NUL) z n).
    destruct (zalloc (Some NUL) z n) as [[[p z']|]|]; [|by exists None|done]. exists (Some z'). split; [done|apply H].
  - destruct Hc as [[b Hp] Hn]. pose proof (zrealloc_ok z p b n Hz Hp Hn) as H.
    destruct (zrealloc z (Some p) n) as [[[q z']|]|]; [|by exists None|done]. exists (Some z'). split; [done|apply H].
  - destruct Hc as [_ Hn]. pose proof (zalloc_ok None z n Hz Hn) as H. change (zrealloc z None n) with (zalloc None z n).
    destruct (zalloc None z n) as [[[p z']|]|]; [|by exists None|done]. exists (Some z'). split; [done|apply H].
  - destruct Hc as [b Hp]. destruct (zfree_ok z p b Hz Hp) as (z' & -> & H & _). by exists (Some z').
  - by exists (Some z).
  - unfold zstrdup. pose proof (zalloc_ok None z _ Hz Hc) as H. change (zmalloc z (Z.of_nat (strlen s) + 1)) with (zalloc None z (Z.of_nat (strlen s) + 1)).
    destruct (zalloc None z _) as [[[p z']|]|]; [|by exists None|done]. cbn. eexists. split; [done|]. destruct H as ([Hu Hb Ho] & Hnew & Hbl). split; cbn; [| |exact Ho].
    + rewrite Hbl, insert_insert_eq, Hu, Hbl. rewrite !occupied_insert by done. done.
    + intros q c. rewrite lookup_insert_Some. intros [[<- <-]|[_ Hq]]; [|by eapply Hb]. cbn. unfold zsize_ok in Hc. split; [lia|].
      rewrite length_app, written_length. cbn. unfold strlen. lia.
  - destruct Hz as [Hu Hb _]. by exists (Some (zmalloc_set_oom_handler h z)).
Qed.

Lemma zrun_ok l : forall z, zinv z -> zcalls_ok z l -> exists r, zrun z l = Some r /\ match r with Some z' => zinv z' | None => True end.
Proof.
  induction l as [|c l IH]; intros z Hz Hl; [by exists (Some z)|]. destruct Hl as [Hc Hl]. cbn [zrun].
  destruct (zrun1_ok z c Hz Hc) as (r & E & Hr). rewrite E. cbn [mbind option_bind]. destruct r as [z'|]; [|by exists None]. by apply IH, Hl.
Qed.
End zmalloc.

(** C40. For any sequence of allocations, reallocations and frees of pointers that were given
    out, each call is defined or memory runs out under a handler that does not return, the counter
    is the sum modulo 2^64 of zmalloc_size over the live blocks, and every block has the bytes that
    were asked for. *)
Theorem used_memory_exact libc_alloc l :
  (forall h n p, libc_alloc h n = Some p -> h !! p = None) -> zcalls_ok libc_alloc (ZState ∅ 0 DefaultOom) l ->
  exists r, zrun libc_alloc (ZState ∅ 0 DefaultOom) l = Some r
    /\ match r with
       | None => True
       | Some z => zmalloc_used_memory z = u64 (occupied (blocks z))
           /\ forall p b, blocks z !! p = Some b -> zlen (contents b) = prefix b /\ zmalloc_size z (p + PREFIX_SIZE) = Some (block_size b)
       end.
Proof.
  intros Ha Hl. destruct (zrun_ok libc_alloc Ha l (ZState ∅ 0 DefaultOom)) as (r & E & Hr); [|done|].
  { split; cbn; [done| |done]. by intros p b ?%lookup_empty_Some. }
  exists r. split; [done|]. destruct r as [z|]; [|done]. destruct Hr as [Hu Hb _]. split; [done|]. intros p b Hp.
  destruct (Hb p b Hp) as [Hs Hlen]. split; [done|]. unfold zmalloc_size, block_of, PREFIX_SIZE. replace (p + 8 - 8) with p by lia. rewrite Hp.
  cbn. unfold block_size, PREFIX_SIZE. rewrite round_long_eq by lia. rewrite u64_small; [done|]. unfold in_u64.
  pose proof (Z.div_mod (prefix b + 7) 8 ltac:(lia)). pose proof (Z.mod_pos_bound (prefix b + 7) 8 eq_refl). lia.
Qed.

(** An allocator that never reuses an address. *)
Definition bump (h : gmap Z zblock) (n : Z) : option Z := Some (1 + foldr Z.max 0 (map fst (map_to_list h))).

Lemma bump_new h n p : bump h n = Some p -> h !! p = None.
Proof.
  intros [= <-]. apply eq_None_not_Some. intros [b Hb]. apply elem_of_map_to_list in Hb.
  assert (forall l (q : Z * zblock), q ∈ l -> q.1 <= foldr Z.max 0 (map fst l)) as Hmax.
  { intros l q Hq. induction Hq as [q l|q q' l _ IH]; cbn [map foldr]; lia. }
  specialize (Hmax _ _ Hb). cbn in Hmax. lia.
Qed.

Lemma used_memory_exact_witness :
  exists z, zrun bump (ZState ∅ 0 DefaultOom) [ZMalloc 5; ZCalloc 20; ZRealloc (Some 9) 33; ZStrdup (bs "kids"); ZFree (Some 10)] = Some (Some z)
    /\ zmalloc_used_memory z = u64 (occupied (blocks z)) /\ zmalloc_used_memory z = 64.
Proof.
  destruct (used_memory_exact bump [ZMalloc 5; ZCalloc 20; ZRealloc (Some 9) 33; ZStrdup (bs "kids"); ZFree (Some 10)] bump_new) as (r & E & H).
  - split; [done|]. intros z1 E1. vm_compute in E1. injection E1 as <-. split; [done|]. intros z2 E2. vm_compute in E2. injection E2 as <-.
    split; [split; [by eexists|done]|]. intros z3 E3. vm_compute in E3. injection E3 as <-. split; [done|]. intros z4 E4. vm_compute in E4. injection E4 as <-.
    split; [by eexists|]. done.
  - destruct r as [z|]; [|by vm_compute in E]. exists z. split; [done|]. split; [apply H|]. vm_compute in E. by injection E as <-.
Defined.

(** ** The counter and its threads

    [update_zmalloc_stat_alloc] and [update_zmalloc_stat_free] are called by
    every thread: by a plain [+=], which reads and writes, unless
    [zmalloc_thread_safe] is set, when it is under [used_memory_mutex], or one
    step where there is an atomic add. *)

Inductive counting : Type := NotSafe | SafeMutex | SafeAtomic.
Definition zmalloc_enable_thread_safeness (atomic : bool) : counting := if atomic then SafeAtomic else SafeMutex.

(** An update by a rounded size. *)
Inductive update : Type := Add (n : Z) | Sub (n : Z).
Definition signed (u : update) : Z := match u with Add n => n | Sub n => - n end.
Definition updated (v : Z) (u : update) : Z := u64 (v + signed u).
Definition total (l : list update) : Z := foldr (fun u n => signed u + n) 0 l.

(** Where a thread is in its first update: before it, in the section of the
    mutex, having read the counter, having written it. *)
Inductive counter_pc : Type := Before | Locked | HasRead (v : Z) | HasWritten.
Record counter_thread := CThread { cpc : counter_pc; updates : list update }.
Record counter := Counter { value : Z; used_memory_mutex : option nat; cthreads : list counter_thread; finished : list update }.

Definition with_cthread (t : nat) (th : counter_thread) (s : counter) : counter :=
  Counter (value s) (used_memory_mutex s) (<[t := th]> (cthreads s)) (finished s).
Definition with_value (v : Z) (u : update) (s : counter) : counter := Counter v (used_memory_mutex s) (cthreads s) (finished s ++ [u]).
Definition with_mutex (m : option nat) (s : counter) : counter := Counter (value s) m (cthreads s) (finished s).

(** A step of thread [t], if it can move. *)
Definition counter_step (mode : counting) (t : nat) (s : counter) : option counter :=
  th ← cthreads s !! t;
  match updates th with
  | [] => None
  | u :: rest =>
      match mode, cpc th with
      | SafeAtomic, Before => Some (with_cthread t (CThread Before rest) (with_value (updated (value s) u) u s))
      | SafeMutex, Before =>
          match used_memory_mutex s with
          | None => Some (with_cthread t (CThread Locked (u :: rest)) (with_mutex (Some t) s))
          | Some _ => None
          end
      | SafeMutex, Locked | NotSafe, Before => Some (with_cthread t (CThread (HasRead (value s)) (u :: rest)) s)
      | SafeMutex, HasRead v => Some (with_cthread t (CThread HasWritten (u :: rest)) (with_value (updated v u) u s))
      | NotSafe, HasRead v => Some (with_cthread t (CThread Before rest) (with_value (updated v u) u s))
      | SafeMutex, HasWritten => Some (with_cthread t (CThread Before rest) (with_mutex None s))
      | _, _ => None
      end
  end.

(** A schedule; a thread that cannot move waits. *)
Fixpoint counter_run (mode : counting) (schedule : list nat) (s : counter) : counter :=
  match schedule with [] => s | t :: schedule => counter_run mode schedule (default s (counter_step mode t s)) end.

Definition counter_start (l : list (list update)) : counter := Counter 0 None (map (CThread Before) l) [].

(** What a thread has still to write. *)
Definition unwritten (th : counter_thread) : list update := match cpc th with HasWritten => tail (updates th) | _ => updates th end.
Definition remaining (l : list counter_thread) : Z := foldr (fun th n => total (unwritten th) + n) 0 l.

Definition thread_ok (s : counter) (t : nat) (th : counter_thread) : Prop :=
  match cpc th with
  | Before => used_memory_mutex s <> Some t
  | HasRead v => used_memory_mutex s = Some t /\ updates th <> [] /\ v = value s
  | Locked | HasWritten => used_memory_mutex s = Some t /\ updates th <> []
  end.

Record counter_ok (atomic : bool) (sum : Z) (s : counter) : Prop := {
  ck_value : value s = u64 (total (finished s));
  ck_sum : total (finished s) + remaining (cthreads s) = sum;
  ck_thread t th : cthreads s !! t = Some th -> thread_ok s t th;
  ck_holder t : used_memory_mutex s = Some t -> is_Some (cthreads s !! t);
  ck_atomic : atomic = true -> used_memory_mutex s = None;
}.

Lemma total_app l k : total (l ++ k) = total l + total k.
Proof. unfold total. induction l as [|u l IH]; cbn in *; lia. Qed.

Lemma remaining_insert l t th th' : l !! t = Some th -> remaining (<[t := th']> l) = remaining l - total (unwritten th) + total (unwritten th').
Proof.
  revert t. induction l as [|x l IH]; intros [|t] Ht; [done..| |].
  - injection Ht as ->. cbn. lia.
  - change (total (unwritten x) + remaining (<[t := th']> l) = total (unwritten x) + remaining l - total (unwritten th) + total (unwritten th')).
    rewrite (IH t Ht). lia.
Qed.

Lemma remaining_start l : remaining (map (CThread Before) l) = total (concat l).
Proof.
  induction l as [|us l IH]; [done|]. cbn [concat]. rewrite total_app, <- IH. done.
Qed.

Lemma counter_start_ok atomic l : counter_ok atomic (total (concat l)) (counter_start l).
Proof.
  split; cbn; [done| | |done|done].
  - apply remaining_start.
  - intros t th. rewrite list_lookup_fmap_Some. intros (us & -> & _). done.
Qed.

(** A thread that goes on, with the value and the mutex as they are then. *)
Lemma counter_moved atomic sum s t pc us pc' us' v m fin : counter_ok atomic sum s -> cthreads s !! t = Some (CThread pc us) ->
  let s' := with_cthread t (CThread pc' us') (Counter v m (cthreads s) fin) in
  v = u64 (total fin) -> total fin + total (unwritten (CThread pc' us')) = total (finished s) + total (unwritten (CThread pc us)) ->
  (v = value s \/ atomic = true \/ used_memory_mutex s = Some t) ->
  (m = used_memory_mutex s \/ (used_memory_mutex s = None /\ m = Some t) \/ (used_memory_mutex s = Some t /\ m = None)) ->
  thread_ok s' t (CThread pc' us') -> (atomic = true -> m = None) ->
  counter_ok atomic sum s'.
Proof.
  intros [Hv Hs Ht Hh Ha] E s' Hval Htot Hw Hm Hok Hat. subst s'. assert (t < length (cthreads s))%nat as Hlen by (by eapply lookup_lt_Some).
  split; cbn [with_cthread value finished cthreads used_memory_mutex] in *.
  - exact Hval.
  - rewrite (remaining_insert _ _ _ _ E). lia.
  - intros q th. rewrite list_lookup_insert_Some. intros [(<- & <- & _)|[Hq Eq]]; [exact Hok|].
    pose proof (Ht _ _ Eq) as H. unfold thread_ok in *. cbn [with_cthread value used_memory_mutex] in *.
    destruct (cpc th) as [| |w|]; naive_solver congruence.
  - intros q Hq. rewrite list_lookup_insert_is_Some. destruct (decide (t = q)) as [<-|Hne]; [by rewrite E|].
    apply Hh. destruct Hm as [<-|[[_ Hm]|[_ Hm]]]; congruence.
  - exact Hat.
Qed.

(** The mutex is free when a thread takes it, and its holder is the only one
    that is not before its update. *)
Lemma counter_step_ok atomic sum t s s' : counter_ok atomic sum s ->
  counter_step (zmalloc_enable_thread_safeness atomic) t s = Some s' -> counter_ok atomic sum s'.
Proof.
  intros Hs. pose proof Hs as [Hv _ Ht _ Ha]. unfold counter_step. destruct (cthreads s !! t) as [[pc us]|] eqn:E; [|done].
  cbn [mbind option_bind updates cpc]. destruct us as [|u rest]; [done|]. pose proof (Ht _ _ E) as Hok. unfold thread_ok in Hok. cbn [cpc updates] in Hok.
  assert (forall v, v = value s -> updated v u = u64 (total (finished s) + (signed u + 0))) as Hup.
  { intros v ->. unfold updated. rewrite Hv, u64_add_l. f_equal. lia. }
  destruct atomic; cbn [zmalloc_enable_thread_safeness]; destruct pc as [| |v|]; try done;
    [|destruct (used_memory_mutex s) eqn:Em; [done|]|..]; intros [= <-];
    eapply (counter_moved _ _ s); try done; cbn; rewrite ?total_app; cbn; try lia; try tauto; try (apply Hup; tauto); auto.
Qed.

(** Some thread can move while one has an update left. *)
Lemma counter_progress atomic sum s t th : counter_ok atomic sum s -> cthreads s !! t = Some th -> updates th <> [] ->
  exists q, is_Some (counter_step (zmalloc_enable_thread_safeness atomic) q s).
Proof.
  intros [_ _ Ht Hh Ha] E Hu. pose proof (Ht _ _ E) as Hok. unfold thread_ok in Hok.
  destruct (used_memory_mutex s) as [q|] eqn:Em.
  - exists q. destruct (Hh q eq_refl) as [[pc us] Eq]. specialize (Ht _ _ Eq). unfold thread_ok in Ht. unfold counter_step. rewrite Eq.
    cbn [mbind option_bind updates cpc] in *. destruct atomic; [by specialize (Ha eq_refl)|]. cbn [zmalloc_enable_thread_safeness].
    destruct pc, us; naive_solver.
  - exists t. unfold counter_step. rewrite E, Em. destruct th as [pc us]. cbn [mbind option_bind updates cpc] in *.
    destruct us; [done|]. destruct atomic, pc; cbn; naive_solver.
Qed.

Lemma counter_run_ok atomic sum schedule : forall s, counter_ok atomic sum s ->
  counter_ok atomic sum (counter_run (zmalloc_enable_thread_safeness atomic) schedule s).
Proof.
  induction schedule as [|t l IH]; intros s Hs; [done|]. cbn [counter_run]. apply IH.
  destruct (counter_step _ t s) as [s'|] eqn:E; [by eapply counter_step_ok|done].
Qed.

(** With thread safeness, under any schedule, the counter is the sum of the
    updates that were made, modulo 2^64; a thread can move while an update is
    left, and then the counter is the sum of all. *)
Theorem counter_exact atomic l schedule :
  let s := counter_run (zmalloc_enable_thread_safeness atomic) schedule (counter_start l) in
  value s = u64 (total (finished s))
  /\ ((forall t, counter_step (zmalloc_enable_thread_safeness atomic) t s = None) -> value s = u64 (total (concat l))).
Proof.
  intros s. assert (counter_ok atomic (total (concat l)) s) as Hs by apply counter_run_ok, counter_start_ok.
  split; [apply Hs|]. intros Hend. rewrite (ck_value _ _ _ Hs), <- (ck_sum _ _ _ Hs).
  assert (forall ths, (forall t th, ths !! t = Some th -> updates th = []) -> remaining ths = 0) as H0.
  { induction ths as [|[pc us] ths IH]; intros Hu; [done|]. pose proof (Hu 0%nat _ eq_refl) as H. cbn in H. subst us.
    cbn [remaining foldr]. fold (remaining ths). rewrite IH by (intros t; exact (Hu (S t))). by destruct pc. }
  rewrite H0; [f_equal; lia|]. intros t th E. destruct (decide (updates th = [])) as [|Hu]; [done|exfalso].
  destruct (counter_progress _ _ _ _ _ Hs E Hu) as (q & s' & Eq). by rewrite Hend in Eq.
Qed.

(** Without it an update can be lost: of 8 and 16, only 16 is counted. *)
Example update_lost : value (counter_run NotSafe [0; 1; 0; 1]%nat (counter_start [[Add 8]; [Add 16]])) = 16
  /\ value (counter_run SafeMutex [0; 1; 0; 1; 0; 0; 1; 1; 1; 1]%nat (counter_start [[Add 8]; [Add 16]])) = 24.
Proof. split; reflexivity. Qed.

(** ** What is reported *)

(** Where neither /proc nor the task's information can be read, the resident
    size is what was allocated. *)
Definition zmalloc_get_rss_portable (z : zstate) : Z := zmalloc_used_memory z.
(** [task_info] gives the resident size, when the task can be had. *)
Definition zmalloc_get_rss_task (resident : option Z) : Z := default 0 resident.

(** A [size_t] as a [float], rounded to nearest. *)
Definition float_of (n : Z) : SpecFloat.spec_float := SpecFloat.binary_normalize 24 128 n 0 false.
Definition zmalloc_get_fragmentation_ratio (rss used : Z) : SpecFloat.spec_float := SpecFloat.SFdiv 24 128 (float_of rss) (float_of used).

(** 3 MB of which 2 are used are a ratio of 1.5; before anything is allocated
    there is none, whatever the resident size: not even 1 where it is the
    memory used. *)
Example fragmentation_examples : zmalloc_get_fragmentation_ratio 3145728 2097152 = SpecFloat.S754_finite false 12582912 (-23)
  /\ zmalloc_get_fragmentation_ratio 4096 0 = SpecFloat.S754_infinity false
  /\ zmalloc_get_fragmentation_ratio (zmalloc_get_rss_portable (ZState ∅ 0 DefaultOom)) 0 = SpecFloat.S754_nan.
Proof. vm_compute. repeat split. Qed.

(** ** Reading /proc *)

(** [strtoll(s, NULL, 10)] on the text up to the NUL: blanks, a sign, digits;
    a value that does not fit is the nearest that does. *)
Fixpoint digits_prefix (s : bytes) (v : Z) : Z :=
  match s with c :: s => if isdigit c then digits_prefix s (v * 10 + digit_val c) else v | [] => v end.

Fixpoint drop_blanks (s : bytes) : bytes := match s with c :: s' => if isspace c then drop_blanks s' else s | [] => [] end.

Definition strtoll (s : bytes) : Z :=
  let value s := digits_prefix s 0 in
  let v := match drop_blanks s with
           | c :: s' => if decide (c = "-"%char) then - value s' else if decide (c = "+"%char) then value s' else value (c :: s')
           | [] => 0
           end in
  Z.max LLONG_MIN (Z.min LLONG_MAX v).

(** [strchr] in an array: the rest from the character, NULL, or undefined when
    it reads what was not written or is behind the end. *)
Fixpoint chr (b : list (option byte)) (c : byte) : option (option (list (option byte))) :=
  match b with
  | Some x :: b' => if decide (x = c) then Some (Some b) else if decide (x = NUL) then Some None else chr b' c
  | _ => None
  end.

(** The loop over [count] fields. *)
Fixpoint skip_fields (count : nat) (p : list (option byte)) : option (option (list (option byte))) :=
  match count with
  | O => Some (Some p)
  | S count =>
      r ← chr p " "%char;
      match r with None => Some None | Some p => skip_fields count (drop 1 p) end
  end.

(** The contents of /proc/pid/stat, or none when it cannot be opened; [read]
    takes 4096 bytes of it. *)
Definition zmalloc_get_rss (page : Z) (file : option bytes) : option Z :=
  match file with
  | None | Some [] => Some 0
  | Some data =>
      let data := take 4096 data in
      let buf := written data ++ replicate (4096 - length data) None in
      r ← skip_fields 23 buf;
      match r with
      | None => Some 0
      | Some p =>
          x ← chr p " "%char;
          match x with
          | None => Some 0
          | Some x => s ← mapM (fun c => c) (take (length p - length x) p); Some (u64 (u64 (strtoll (cstr s)) * page))
          end
      end
  end.

(** One line of /proc/self/smaps, of at most 1023 characters. *)
Definition private_dirty_line (line : bytes) : Z :=
  if bool_decide (take 14 line = bs "Private_Dirty:") then
    match strchr (cstr line) "k"%char with
    | Some k => strtoll (drop 14 (take k line)) * 1024
    | None => 0
    end
  else 0.

(** [zmalloc_get_private_dirty] over the lines [fgets] gives. *)
Definition zmalloc_get_private_dirty (file : option (list bytes)) : Z :=
  match file with None => 0 | Some lines => fold_left (fun pd line => u64 (pd + private_dirty_line line)) lines 0 end.

Example private_dirty_example :
  zmalloc_get_private_dirty (Some [bs "Private_Dirty:        12 kB"; bs "Referenced:  8 kB"; bs "Private_Dirty: 4 kB"]) = 16384.
Proof. vm_compute. reflexivity. Qed.

Definition field (f : bytes) : Prop := " "%char ∉ f /\ NUL ∉ f.

Lemma chr_field f b : field f -> chr (written f ++ Some " "%char :: b) " "%char = Some (Some (Some " "%char :: b)).
Proof.
  intros [Hs Hn]. induction f as [|c f IH]; [done|]. apply not_elem_of_cons in Hs as [Hc Hs], Hn as [Hc0 Hn]. cbn.
  rewrite !decide_False by done. by apply IH.
Qed.

Lemma skip_fields_ok l b : Forall field l ->
  skip_fields (length l) (written (concat (map (fun f => f ++ [" "%char]) l)) ++ b) = Some (Some b).
Proof.
  induction l as [|f l IH]; [done|]. intros [Hf Hl]%Forall_cons. cbn [length skip_fields map concat].
  rewrite !written_app, <- !app_assoc. change (written [" "%char] ++ ?x) with (Some " "%char :: x). rewrite chr_field by done.
  cbn [mbind option_bind drop]. by apply IH.
Qed.

Lemma digits_prefix_all d v : Forall (fun c => isdigit c = true) d -> digits_prefix d v = digits_value v d.
Proof. intros Hd. revert v. induction Hd as [|c d Hc Hd IH]; intros v; [done|]. cbn. rewrite Hc. apply IH. Qed.

Lemma digit_range c : isdigit c = true -> 48 <= uchar c <= 57.
Proof. unfold isdigit. lia. Qed.

Lemma strtoll_ll_text v : 0 <= v < 2 ^ 63 -> strtoll (ll_text v) = v.
Proof.
  intros Hv. destruct (ll_text_nonneg v Hv) as (d & -> & Hd & Hval & _ & Hc). unfold strtoll.
  assert (exists c d', d = c :: d') as (c & d' & ->) by (destruct Hc as [[_ ->]|(c & d' & -> & _)]; by eexists _, _).
  assert (isdigit c = true) as Hdc by (by apply Forall_cons in Hd as [? _]). pose proof (digit_range _ Hdc) as Hr.
  assert (isspace c = false) as Hsp by (unfold isspace; lia). cbn [drop_blanks]. rewrite Hsp.
  rewrite !decide_False by (intros ->; vm_compute in Hr; by destruct Hr). rewrite digits_prefix_all, Hval by done. unfold LLONG_MIN, LLONG_MAX. lia.
Qed.

Lemma ll_text_field v : 0 <= v < 2 ^ 63 -> field (ll_text v).
Proof.
  intros Hv. destruct (ll_text_nonneg v Hv) as (d & -> & Hd & _). rewrite Forall_forall in Hd.
  split; intros H; specialize (Hd _ H); by vm_compute in Hd.
Qed.

(** Where no field has a blank, the resident size is the 24th field, times the
    size of a page. *)
Theorem rss_is_field_24 page before v rest : Forall field before -> length before = 23%nat -> 0 <= v < 2 ^ 63 ->
  (length (concat (map (fun f => f ++ [" "%char]) before) ++ ll_text v ++ " "%char :: rest) <= 4096)%nat ->
  zmalloc_get_rss page (Some (concat (map (fun f => f ++ [" "%char]) before) ++ ll_text v ++ " "%char :: rest)) = Some (u64 (v * page)).
Proof.
  intros Hb H23 Hv Hlen. unfold zmalloc_get_rss. set (data := _ ++ _) in *.
  destruct data as [|c0 d0] eqn:Ed; [apply (f_equal length) in Ed; subst data; rewrite !length_app in Ed; cbn [length] in Ed; lia|]. rewrite <- Ed. rewrite take_ge by (by rewrite Ed). subst data.
  clear c0 d0 Ed Hlen. rewrite written_app, <- app_assoc, <- H23, skip_fields_ok by done. cbn [mbind option_bind].
  rewrite written_app, <- app_assoc. change (written (" "%char :: rest)) with (Some " "%char :: written rest). rewrite <- app_comm_cons.
  rewrite chr_field by (by apply ll_text_field). cbn [mbind option_bind].
  rewrite (length_app (written (ll_text v))), Nat.add_sub, take_app_length, mapM_written. cbn [mbind option_bind].
  rewrite cstr_id by (by apply ll_text_field). by rewrite strtoll_ll_text, (u64_small v) by (done || unfold in_u64; lia).
Qed.

Lemma rss_is_field_24_witness :
  zmalloc_get_rss 4096 (Some (bs "7 (kids) S 1 7 7 0 -1 4194304 90 0 0 0 1 2 0 0 20 0 5 0 100 200000 320 18446744073709551615 1")) = Some (320 * 4096)
  /\ zmalloc_get_rss 4096 (Some (concat (map (fun f => f ++ [" "%char]) (replicate 23 (bs "0"))) ++ ll_text 320 ++ " "%char :: bs "9")) = Some (u64 (320 * 4096)).
Proof.
  split; [by vm_compute|]. apply (rss_is_field_24 4096 (replicate 23 (bs "0")) 320 (bs "9")); [|done|lia|vm_compute; lia].
  apply Forall_forall. intros f Hf. apply elem_of_replicate in Hf as [-> _]. split; vm_compute; by inversion 1 as [|? ? ? H]; inversion H.
Defined.
