(* ===== verification/Setup.v ===== *)
(** * Creating and freeing an event loop

    What [aeCreateEventLoop] and the [aeApiCreate] of each back end hold: the
    blocks from zmalloc and the descriptor of the kernel's queue.  Freeing what
    is not held is undefined ([None]). *)

From S2P Require Import Prelude.

Inductive resource : Type := RLoop | REventTable | RFiredTable | RApiState | RApiEvents | RApiDescriptor.

#[export] Instance resource_eq_dec : EqDecision resource.
Proof. solve_decision. Defined.

Inductive backend_kind : Type := KEpoll | KKqueue | KSelect | KEvport.

Section setup.
(** Which of them can be had. *)
Variable available : resource -> bool.

(** A resource that was asked for; [None] inside is NULL or -1. *)
Definition get (r : resource) (h : list resource) : bool * list resource := if available r then (true, r :: h) else (false, h).

Fixpoint give_back (r : resource) (h : list resource) : option (list resource) :=
  match h with
  | [] => None
  | x :: h => if decide (x = r) then Some h else cons x <$> give_back r h
  end.

(** [zfree] of a pointer that may be NULL. *)
Definition give_back_if (b : bool) (r : resource) (h : list resource) : option (list resource) := if b then give_back r h else Some h.

(** [aeApiCreate] of epoll and of kqueue; false for -1. *)
Definition queue_aeApiCreate (h : list resource) : option (bool * list resource) :=
  let '(state, h) := get RApiState h in
  if negb state then Some (false, h)
  else
    let '(evs, h) := get RApiEvents h in
    if negb evs then h ← give_back RApiState h; Some (false, h)
    else
      let '(fd, h) := get RApiDescriptor h in
      if negb fd then h ← give_back RApiEvents h; h ← give_back RApiState h; Some (false, h)
      else Some (true, h).

Definition queue_aeApiFree (h : list resource) : option (list resource) :=
  h ← give_back RApiDescriptor h; h ← give_back RApiEvents h; give_back RApiState h.

Definition select_aeApiCreate (h : list resource) : option (bool * list resource) := Some (get RApiState h).
Definition select_aeApiFree (h : list resource) : option (list resource) := give_back RApiState h.

Definition evport_aeApiCreate (h : list resource) : option (bool * list resource) :=
  let '(state, h) := get RApiState h in
  if negb state then Some (false, h)
  else
    let '(fd, h) := get RApiDescriptor h in
    if negb fd then h ← give_back RApiState h; Some (false, h) else Some (true, h).

Definition evport_aeApiFree (h : list resource) : option (list resource) := h ← give_back RApiDescriptor h; give_back RApiState h.

Definition aeApiCreate (k : backend_kind) : list resource -> option (bool * list resource) :=
  match k with KEpoll | KKqueue => queue_aeApiCreate | KSelect => select_aeApiCreate | KEvport => evport_aeApiCreate end.

Definition aeApiFree (k : backend_kind) : list resource -> option (list resource) :=
  match k with KEpoll | KKqueue => queue_aeApiFree | KSelect => select_aeApiFree | KEvport => evport_aeApiFree end.

(** [aeCreateEventLoop], where [err] frees the three blocks of the loop. *)
Definition create_loop (k : backend_kind) (h : list resource) : option (bool * list resource) :=
  let '(el, h) := get RLoop h in
  if negb el then Some (false, h)
  else
    let '(evs, h) := get REventTable h in
    let '(fired, h) := get RFiredTable h in
    r ← (if negb evs || negb fired then Some (false, h) else aeApiCreate k h);
    let '(ok, h) := r in
    if ok : bool then Some (true, h)
    else
      h ← give_back_if evs REventTable h;
      h ← give_back_if fired RFiredTable h;
      h ← give_back RLoop h;
      Some (false, h).

Definition aeDeleteEventLoop (k : backend_kind) (h : list resource) : option (list resource) :=
  h ← aeApiFree k h;
  h ← give_back REventTable h; h ← give_back RFiredTable h; give_back RLoop h.

(** A loop that cannot be created leaves nothing behind, one that was created
    leaves nothing when it is deleted, and nothing is freed twice. *)
Theorem loop_resources k :
  exists ok h, create_loop k [] = Some (ok, h) /\ (if ok : bool then aeDeleteEventLoop k h = Some [] else h = []).
Proof.
  unfold create_loop, aeApiCreate, queue_aeApiCreate, select_aeApiCreate, evport_aeApiCreate, get.
  destruct k, (available RLoop), (available REventTable), (available RFiredTable), (available RApiState), (available RApiEvents), (available RApiDescriptor);
    cbn; by eexists _, _.
Qed.
End setup.

(** ** aeWait *)

(** Bits of poll.h. *)
Definition POLLIN : Z := 1.
Definition POLLOUT : Z := 4.
Definition POLLERR : Z := 8.
Definition POLLHUP : Z := 16.

Definition has (bits bit : Z) : bool := negb (Z.land bits bit =? 0).
Definition flag (b : bool) (bit : Z) : Z := if b then bit else 0.

(** [poll] on one descriptor: its result and [revents], from [events]. *)
Definition aeWait (poll : Z -> Z * Z) (mask : Z) : Z :=
  let evs := Z.lor (flag (has mask 1) POLLIN) (flag (has mask 2) POLLOUT) in
  let '(retval, revents) := poll evs in
  if retval =? 1 then
    Z.lor (Z.lor (Z.lor (flag (has revents POLLIN) 1) (flag (has revents POLLOUT) 2)) (flag (has revents POLLERR) 2)) (flag (has revents POLLHUP) 2)
  else retval.

(** It says readable when there is input and writable when there is room, an
    error or a hang-up; the result of poll when no descriptor is ready. *)
Lemma aeWait_spec poll mask : let '(retval, revents) := poll (Z.lor (flag (has mask 1) POLLIN) (flag (has mask 2) POLLOUT)) in
  if retval =? 1 then
    has (aeWait poll mask) 1 = has revents POLLIN
    /\ has (aeWait poll mask) 2 = has revents POLLOUT || has revents POLLERR || has revents POLLHUP
  else aeWait poll mask = retval.
Proof.
  unfold aeWait. destruct (poll _) as [retval revents]. destruct (retval =? 1); [|done].
  by destruct (has revents POLLIN), (has revents POLLOUT), (has revents POLLERR), (has revents POLLHUP).
Qed.
