(* ===== verification/Logger.v ===== *)
(** * logger.cc: the log of the program itself

    C strings, FILE objects and files are on an explicit heap: a file is a node
    that a name of the directory may point to, so that a rename over another
    name loses the node it had.  Reading a string that was freed, and writing
    to or closing a FILE that is not open, is undefined ([None]).  The macros
    of logger.h hold [log_lock] around a line and [RotateLogger] holds it too:
    a line and a rotation are one step each.  Whether a file can be opened or
    renamed, and the time, are arguments; memory for [strdup] and the space a
    line takes on the disk can be had. *)

From S2P Require Import Prelude Util Files.

(** ** Levels *)

Inductive LogLevel : Type := kNone | kFatal | kCritical | kError | kWarning | kInfo | kDebug.

#[export] Instance LogLevel_eq_dec : EqDecision LogLevel.
Proof. solve_decision. Defined.

Definition level_number (l : LogLevel) : Z :=
  match l with kNone => 0 | kFatal => 1 | kCritical => 2 | kError => 3 | kWarning => 4 | kInfo => 5 | kDebug => 6 end.

Definition levels : list LogLevel := [kNone; kFatal; kCritical; kError; kWarning; kInfo; kDebug].

Definition LevelName (l : LogLevel) : bytes :=
  bs match l with
     | kNone => "NONE" | kFatal => "FATAL" | kCritical => "CRITICAL" | kError => "ERROR"
     | kWarning => "WARNING" | kInfo => "INFO" | kDebug => "DEBUG"
     end.

(** The loop of [LogLevelFromString]. *)
Fixpoint level_loop (l : list LogLevel) (level : bytes) : LogLevel :=
  match l with
  | [] => kNone
  | i :: l => if strcaseeq (LevelName i) level then i else level_loop l level
  end.

Definition LogLevelFromString (level : bytes) : LogLevel := level_loop levels level.

(** [level > log_level]: the line is not for this log. *)
Definition above (level log_level : LogLevel) : bool := level_number log_level <? level_number level.

(** ** The heap and the disk *)

Record disk := Disk {
  strings : gmap nat bytes;      (* C strings, the callers' and those of strdup *)
  streams : gmap nat nat;        (* the node of an open FILE *)
  names : gmap bytes nat;        (* the node of a name *)
  texts : gmap nat bytes;        (* what a node holds *)
  fresh : nat;                   (* addresses and nodes from here on are new *)
}.

Definition stdout : nat := 1.
Definition stderr : nat := 2.

Definition strdup (text : bytes) (d : disk) : nat * disk :=
  (fresh d, Disk (<[fresh d := text]> (strings d)) (streams d) (names d) (texts d) (S (fresh d))).

(** [free] of a pointer that may be NULL. *)
Definition free (p : option nat) (d : disk) : option disk :=
  match p with
  | None => Some d
  | Some p => _ ← strings d !! p; Some (Disk (delete p (strings d)) (streams d) (names d) (texts d) (fresh d))
  end.

(** [fopen(name, "a+")]: the node of the name, a new one if there is none. *)
Definition fopen (name : bytes) (opens : bool) (d : disk) : option nat * disk :=
  if negb opens then (None, d)
  else
    match names d !! name with
    | Some i => (Some (fresh d), Disk (strings d) (<[fresh d := i]> (streams d)) (names d) (texts d) (S (fresh d)))
    | None =>
        let i := S (fresh d) in
        (Some (fresh d), Disk (strings d) (<[fresh d := i]> (streams d)) (<[name := i]> (names d)) (<[i := []]> (texts d)) (S i))
    end.

Definition fclose (f : nat) (d : disk) : option disk :=
  _ ← streams d !! f; Some (Disk (strings d) (delete f (streams d)) (names d) (texts d) (fresh d)).

(** A stream appends to its node, whatever name that has; every print is
    flushed. *)
Definition fprint (f : nat) (text : bytes) (d : disk) : option disk :=
  i ← streams d !! f; t ← texts d !! i;
  Some (Disk (strings d) (streams d) (names d) (<[i := t ++ text]> (texts d)) (fresh d)).

Definition rename (from to : bytes) (renames : bool) (d : disk) : disk :=
  match names d !! from with
  | Some i => if renames then Disk (strings d) (streams d) (<[to := i]> (delete from (names d))) (texts d) (fresh d) else d
  | None => d
  end.

(** ** The logger *)

(** The static variables, [now] being that of [UpdateTime]. *)
Record logger := Logger {
  log_level : LogLevel;
  log_filename : option nat;
  log_file : option nat;
  now : Z;
  now_str : bytes;
}.

Definition new_logger : logger := Logger kDebug None None 0 [].

Section logger.
Variable localtime : Z -> tm.

Definition line_time (t : tm) : bytes :=
  pad 4 (1900 + tm_year t) ++ bs "/" ++ pad 2 (tm_mon t + 1) ++ bs "/" ++ pad 2 (tm_mday t) ++ bs " "
  ++ pad 2 (tm_hour t) ++ bs ":" ++ pad 2 (tm_min t) ++ bs ":" ++ pad 2 (tm_sec t).

(** The size of [now_str]. *)
Definition now_size : nat := 20.

Definition UpdateTime (t : Z) (l : logger) : option logger :=
  if t - now l =? 0 then Some l
  else
    let text := line_time (localtime t) in
    if (length text <? now_size)%nat then Some (Logger (log_level l) (log_filename l) (log_file l) t text) else None.

Definition print_log (text : bytes) (l : logger) (d : disk) : option disk :=
  match log_file l with Some f => fprint f text d | None => Some d end.

Definition LogPrint (level : LogLevel) (text : bytes) (l : logger) (d : disk) : option disk :=
  if above level (log_level l) then Some d else print_log text l d.

Definition LogInternal (t : Z) (level : LogLevel) (text : bytes) (l : logger) (d : disk) : option (logger * disk) :=
  if above level (log_level l) then Some (l, d)
  else
    l ← UpdateTime t l;
    d ← print_log (now_str l ++ bs " [" ++ LevelName level ++ bs "] ") l d;
    d ← print_log text l d;
    Some (l, d).

(** [LogInfo], [LogWarning], [LogError], [LogCritical], and [LogFatal] before
    its [exit]. *)
Definition LogLine (t : Z) (level : LogLevel) (text : bytes) (l : logger) (d : disk) : option (logger * disk) :=
  '(l, d) ← LogInternal t level text l d; d ← LogPrint level [LF] l d; Some (l, d).

(** [LogDebug], where LOGDEBUG is defined. *)
Definition LogDebug (t : Z) (function : bytes) (text : bytes) (l : logger) (d : disk) : option (logger * disk) :=
  '(l, d) ← LogInternal t kDebug text l d;
  d ← LogPrint kDebug (bs " [" ++ function ++ bs "]") l d;
  d ← LogPrint kDebug [LF] l d;
  Some (l, d).

Definition InitLogger (level : LogLevel) (filename : option nat) (opens : bool) (l : logger) (d : disk) : option (logger * disk) :=
  match filename with
  | None => Some (l, d)
  | Some p =>
      d ← (if decide (log_filename l = Some p) then Some d else free (log_filename l) d);
      text ← strings d !! p;
      let '(q, d) := strdup text d in
      let '(f, d) := if decide (text = bs "stderr" \/ text = []) then (Some stderr, d)
                     else if decide (text = bs "stdout") then (Some stdout, d)
                     else fopen text opens d in
      Some (Logger level (Some q) f (now l) (now_str l), d)
  end.

(** ["%s-%04d-%02d-%02d-%02d-%02d-%02d"] *)
Definition rotated_name (file : bytes) (t : Z) : bytes :=
  file ++ bs "-" ++ date_text (localtime t) ++ bs "-" ++ time_text (localtime t).

Definition RotateLogger (t : Z) (renames opens : bool) (l : logger) (d : disk) : option (logger * disk) :=
  '(l, d) ← match log_file l with
            | Some f =>
                if decide (f = stderr \/ f = stdout) then Some (l, d)
                else
                  p ← log_filename l; file ← strings d !! p;
                  let filename := rotated_name file t in
                  if (length filename <? 1024)%nat then
                    d ← fclose f d;
                    Some (Logger (log_level l) (log_filename l) None (now l) (now_str l), rename file filename renames d)
                  else None
            | None => Some (l, d)
            end;
  let filename := log_filename l in
  '(l, d) ← InitLogger (log_level l) filename opens l d;
  d ← free filename d;
  Some (l, d).

(** The two calls of main, the second with what the configuration says. *)
Definition start_logger (level : LogLevel) (console file : nat) (opens : bool) (d : disk) : option (logger * disk) :=
  '(l, d) ← InitLogger kDebug (Some console) true new_logger d;
  InitLogger level (Some file) opens l d.

(** ** Lines and rotations in any order *)

Inductive levent : Type :=
| Line (t : Z) (level : LogLevel) (text : bytes)
| Rotate (t : Z) (renames opens : bool).

Definition lstep (e : levent) (x : logger * disk) : option (logger * disk) :=
  match e with
  | Line t level text => LogLine t level text x.1 x.2
  | Rotate t renames opens => RotateLogger t renames opens x.1 x.2
  end.

Fixpoint lsteps (es : list levent) (x : logger * disk) : option (logger * disk) :=
  match es with [] => Some x | e :: es => x ← lstep e x; lsteps es x end.

(** What the lines say that are logged while the log is open. *)
Definition line_text (t : Z) (level : LogLevel) (text : bytes) : bytes :=
  line_time (localtime t) ++ bs " [" ++ LevelName level ++ bs "] " ++ text ++ [LF].

Fixpoint logged (threshold : LogLevel) (is_open : bool) (es : list levent) : bytes :=
  match es with
  | [] => []
  | Line t level text :: es =>
      (if is_open && negb (above level threshold) then line_text t level text else []) ++ logged threshold is_open es
  | Rotate _ _ opens :: es => logged threshold opens es
  end.

(** The names the log is moved to. *)
Fixpoint rotations (file : bytes) (is_open : bool) (es : list levent) : list bytes :=
  match es with
  | [] => []
  | Line _ _ _ :: es => rotations file is_open es
  | Rotate t renames opens :: es => (if is_open && renames then [rotated_name file t] else []) ++ rotations file opens es
  end.
End logger.

(** What a name holds. *)
Definition content (d : disk) (name : bytes) : bytes := default [] (i ← names d !! name; texts d !! i).

(** ** Every line is in a file *)

Record date_ok (t : tm) : Prop := {
  year_ok : 0 <= 1900 + tm_year t < 10000;
  mon_ok : 0 <= tm_mon t <= 11;
  mday_ok : 1 <= tm_mday t <= 31;
  hour_ok : 0 <= tm_hour t <= 23;
  min_ok : 0 <= tm_min t <= 59;
  sec_ok : 0 <= tm_sec t <= 60;
}.

Lemma pad_2 n : 0 <= n < 100 -> length (pad 2 n) = 2%nat.
Proof.
  intros H. assert (forallb (fun k => bool_decide (length (pad 2 (Z.of_nat k)) = 2%nat)) (seq 0 100) = true) as E by (vm_compute; reflexivity).
  rewrite forallb_forall in E. specialize (E (Z.to_nat n)). rewrite bool_decide_eq_true, Z2Nat.id in E by lia. apply E, in_seq. lia.
Qed.

Lemma pad_4 n : 0 <= n < 10000 -> length (pad 4 n) = 4%nat.
Proof.
  intros H. assert (forallb (fun k => bool_decide (length (pad 4 (Z.of_nat k)) = 4%nat)) (seq 0 (100 * 100)) = true) as E by (vm_compute; reflexivity).
  rewrite forallb_forall in E. specialize (E (Z.to_nat n)). rewrite bool_decide_eq_true, Z2Nat.id in E by lia. apply E, in_seq. lia.
Qed.

Lemma line_time_length t : date_ok t -> length (line_time t) = 19%nat.
Proof. intros []. unfold line_time. rewrite !length_app, pad_4, !pad_2 by lia. reflexivity. Qed.

Lemma rotated_name_length localtime file t : date_ok (localtime t) -> length (rotated_name localtime file t) = (length file + 20)%nat.
Proof. intros []. unfold rotated_name, date_text, time_text. rewrite !length_app, pad_4, !pad_2 by lia. cbn [bs list_ascii_of_string length]. lia. Qed.

(** Each file has one name, and what is new was not there. *)
Record disk_ok (d : disk) : Prop := {
  one_name : forall n m i, names d !! n = Some i -> names d !! m = Some i -> n = m;
  has_text : forall n i, names d !! n = Some i -> is_Some (texts d !! i);
  fresh_string : forall p, (fresh d <= p)%nat -> strings d !! p = None;
  fresh_stream : forall p, (fresh d <= p)%nat -> streams d !! p = None;
  fresh_node : forall n i, names d !! n = Some i -> (i < fresh d)%nat;
}.

(** The directory holds the same under every name. *)
Definition same_files (d d' : disk) : Prop := forall n, content d' n = content d n /\ (names d !! n = None -> content d' n = []).

Lemma content_none d n : names d !! n = None -> content d n = [].
Proof. unfold content. by intros ->. Qed.

Lemma fprint_ok d f i file text : disk_ok d -> streams d !! f = Some i -> names d !! file = Some i ->
  exists d', fprint f text d = Some d' /\ disk_ok d' /\ strings d' = strings d /\ streams d' = streams d /\ names d' = names d
    /\ (forall n, content d' n = content d n ++ if decide (n = file) then text else []).
Proof.
  intros [H1 H2 H3 H4 H5] Hf Hn. destruct (H2 _ _ Hn) as [t Ht]. unfold fprint. rewrite Hf. cbn [mbind option_bind]. rewrite Ht. cbn [mbind option_bind].
  eexists. split; [done|]. split_and!; try done.
  - split; cbn; try done. intros n j Hj. destruct (decide (j = i)) as [->|]; [rewrite lookup_insert_eq|rewrite lookup_insert_ne by done; by eapply H2]. by eexists.
  - intros n. unfold content. cbn. destruct (decide (n = file)) as [->|Hne].
    + rewrite Hn. cbn. by rewrite Ht, lookup_insert_eq.
    + rewrite app_nil_r. destruct (names d !! n) as [j|] eqn:Ej; [|done]. cbn. rewrite lookup_insert_ne; [done|]. intros <-. by apply Hne, (H1 _ _ i).
Qed.

(** A copy of the name, and the file it names. *)
Lemma open_ok d file opens q d1 f d2 : disk_ok d -> strdup file d = (q, d1) -> fopen file opens d1 = (f, d2) ->
  disk_ok d2 /\ strings d !! q = None /\ strings d2 = <[q := file]> (strings d)
  /\ (if opens : bool then exists g i, f = Some g /\ streams d !! g = None /\ streams d2 = <[g := i]> (streams d) /\ names d2 !! file = Some i
      else f = None /\ streams d2 = streams d)
  /\ (forall n, content d2 n = content d n) /\ (forall n, n <> file -> names d2 !! n = names d !! n).
Proof.
  intros [H1 H2 H3 H4 H5] [= <- <-]. unfold fopen. cbn [names fresh strings streams texts]. destruct opens; cbn [negb].
  2: { intros [= <- <-]. split; [|split_and!; try done; by apply H3].
       split; cbn; try done; intros; rewrite ?lookup_insert_ne by lia; try (apply H3 || apply H4); try lia. specialize (H5 _ _ H). lia. }
  destruct (names d !! file) as [i|] eqn:Ei; intros [= <- <-].
  - split; [|split_and!; try done; [by apply H3|]; exists (S (fresh d)), i; split_and!; try done; by apply H4; lia].
    split; cbn; try done; intros; rewrite ?lookup_insert_ne by lia; try (apply H3 || apply H4); try lia. specialize (H5 _ _ H). lia.
  - assert (forall n j, <[file := S (S (fresh d))]> (names d) !! n = Some j -> (n = file /\ j = S (S (fresh d))) \/ (n <> file /\ names d !! n = Some j)) as Hin.
    { intros n j. rewrite lookup_insert_Some. naive_solver. }
    assert (forall n j, names d !! n = Some j -> j <> S (S (fresh d))) as Hnew by (intros n j Hj ->; specialize (H5 _ _ Hj); lia).
    split; [|split_and!; try done; [by apply H3| | |]].
    + split; cbn.
      * intros n m j Hn Hm. destruct (Hin _ _ Hn) as [[-> ->]|[? Hn']], (Hin _ _ Hm) as [[-> Ej]|[? Hm']]; subst; try done; [| |by eapply H1];
          exfalso; by eapply Hnew.
      * intros n j Hn. destruct (Hin _ _ Hn) as [[-> ->]|[? Hn']]; [by rewrite lookup_insert_eq|]. rewrite lookup_insert_ne by (intros E; by eapply Hnew).
        by eapply H2.
      * intros p Hp. rewrite lookup_insert_ne by lia. apply H3. lia.
      * intros p Hp. rewrite lookup_insert_ne by lia. apply H4. lia.
      * intros n j Hn. destruct (Hin _ _ Hn) as [[-> ->]|[? Hn']]; [lia|]. specialize (H5 _ _ Hn'). lia.
    + exists (S (fresh d)), (S (S (fresh d))). split_and!; try done; [apply H4; lia|]. cbn. by rewrite lookup_insert_eq.
    + intros n. unfold content. cbn. destruct (decide (n = file)) as [->|Hne]; [by rewrite lookup_insert_eq, Ei; cbn; rewrite lookup_insert_eq|].
      rewrite lookup_insert_ne by done. destruct (names d !! n) as [j|] eqn:Ej; [|done]. cbn. rewrite lookup_insert_ne; [done|]. intros E. by eapply Hnew.
    + intros n Hne. cbn. by rewrite lookup_insert_ne.
Qed.

Section kept.
Variable localtime : Z -> tm.
Hypothesis calendar : forall t, date_ok (localtime t).
(** The disk at the start, and the log. *)
Variables (d0 : disk) (file : bytes) (threshold : LogLevel).
Hypothesis Hfile : file <> bs "stderr" /\ file <> [] /\ file <> bs "stdout".
Hypothesis Hlength : (length file <= 1003)%nat.
Hypothesis Hstd : is_Some (streams d0 !! stdout) /\ is_Some (streams d0 !! stderr).

(** The log was moved to [moved], and [written] was logged. *)
Record files_ok (moved : list bytes) (written : bytes) (d : disk) : Prop := {
  fk_disk : disk_ok d;
  fk_moved : file ∉ moved;
  fk_text : concat (content d <$> moved) ++ content d file = content d0 file ++ written;
  fk_other : forall n, n ∉ moved -> n <> file -> names d !! n = names d0 !! n /\ content d n = content d0 n;
}.

Record log_ok (is_open : bool) (moved : list bytes) (written : bytes) (l : logger) (d : disk) : Prop := {
  lk_level : log_level l = threshold;
  lk_name : exists q, log_filename l = Some q /\ strings d0 !! q = None /\ strings d = <[q := file]> (strings d0);
  lk_file : if is_open then exists f i, log_file l = Some f /\ streams d0 !! f = None /\ streams d = <[f := i]> (streams d0) /\ names d !! file = Some i
            else log_file l = None /\ streams d = streams d0;
  lk_time : now l = 0 \/ now_str l = line_time (localtime (now l));
  lk_files : files_ok moved written d;
}.

(** Nothing is written, and only the log may get a node. *)
Lemma files_ok_same moved written d d' : disk_ok d' -> (forall n, content d' n = content d n) ->
  (forall n, n <> file -> names d' !! n = names d !! n) -> files_ok moved written d -> files_ok moved written d'.
Proof.
  intros Hd Hc Hn [H1 H2 H3 H4]. split; [exact Hd|exact H2| |].
  - rewrite Hc, <- H3. do 2 f_equal. apply list_fmap_ext. intros. apply Hc.
  - intros n Hm Hne. rewrite Hc, Hn by done. by apply H4.
Qed.

Lemma print_ok is_open moved written l d text : log_ok is_open moved written l d ->
  exists d', print_log text l d = Some d' /\ log_ok is_open moved (written ++ if is_open then text else []) l d'.
Proof.
  intros [H1 H2 H3 H4 Hfs]. unfold print_log. destruct is_open.
  2: { destruct H3 as [E H3]. rewrite E. exists d. by rewrite app_nil_r. }
  destruct Hfs as [H5 H6 H7 H8]. destruct H3 as (f & i & Ef & Hf & Es & Hn). rewrite Ef.
  destruct (fprint_ok d f i file text H5) as (d' & E & Hd & Estr & Estm & En & Hc); [by rewrite Es, lookup_insert_eq|done|].
  exists d'. split; [done|]. split; [exact H1|by rewrite Estr| |exact H4|split; [exact Hd|exact H6| |]].
  - exists f, i. split_and!; congruence.
  - rewrite Hc, decide_True by done. rewrite !app_assoc, <- H7. do 2 f_equal. f_equal. apply list_fmap_ext. intros k n Hk.
    rewrite Hc, decide_False, app_nil_r; [done|]. intros ->. apply H6. by eapply list_elem_of_lookup_2.
  - intros n Hm Hne. rewrite En, Hc, decide_False, app_nil_r by done. by apply H8.
Qed.

Lemma UpdateTime_ok is_open moved written l d t : t <> 0 -> log_ok is_open moved written l d ->
  exists l', UpdateTime localtime t l = Some l' /\ log_ok is_open moved written l' d /\ now_str l' = line_time (localtime t).
Proof.
  intros Ht H. unfold UpdateTime. destruct (t - now l =? 0) eqn:E.
  - exists l. split_and!; [done|done|]. destruct (lk_time _ _ _ _ _ H) as [E'|E']; [lia|]. by replace t with (now l) by lia.
  - rewrite line_time_length by apply calendar. change (19 <? now_size)%nat with true. cbv iota. eexists. split_and!; [reflexivity| |reflexivity].
    destruct H as [H1 H2 H3 _ H5]. by split; [exact H1|exact H2|exact H3|right; reflexivity|].
Qed.

Lemma line_ok is_open moved written l d t level text : t <> 0 -> log_ok is_open moved written l d ->
  exists l' d', LogLine localtime t level text l d = Some (l', d')
    /\ log_ok is_open moved (written ++ if is_open && negb (above level threshold) then line_text localtime t level text else []) l' d'.
Proof.
  intros Ht H. unfold LogLine, LogInternal, LogPrint. pose proof (lk_level _ _ _ _ _ H) as El. rewrite El. destruct (above level threshold) eqn:Ea; cbn [negb].
  { cbn [mbind option_bind]. rewrite El, Ea, andb_false_r, app_nil_r. by exists l, d. }
  rewrite andb_true_r. destruct (UpdateTime_ok _ _ _ _ _ t Ht H) as (l1 & E1 & H1 & En). rewrite E1. cbn [mbind option_bind].
  destruct (print_ok _ _ _ _ _ (now_str l1 ++ bs " [" ++ LevelName level ++ bs "] ") H1) as (d1 & E2 & H2). rewrite E2. cbn [mbind option_bind].
  destruct (print_ok _ _ _ _ _ text H2) as (d2 & E3 & H3). rewrite E3. cbn [mbind option_bind].
  rewrite (lk_level _ _ _ _ _ H1), Ea. destruct (print_ok _ _ _ _ _ [LF] H3) as (d3 & E4 & H4). rewrite E4. cbn [mbind option_bind].
  exists l1, d3. split; [done|]. rewrite En in H4. destruct is_open.
  - unfold line_text. rewrite <- !app_assoc in H4. exact H4.
  - rewrite !app_nil_r in H4. by rewrite app_nil_r.
Qed.

Lemma free_ok d p text : disk_ok d -> strings d !! p = Some text ->
  exists d', free (Some p) d = Some d' /\ disk_ok d' /\ strings d' = delete p (strings d) /\ streams d' = streams d
    /\ names d' = names d /\ (forall n, content d' n = content d n).
Proof.
  intros [H1 H2 H3 H4 H5] Hp. unfold free. rewrite Hp. cbn [mbind option_bind]. eexists. split_and!; try done.
  split; cbn; try done. intros q Hq. destruct (decide (p = q)) as [->|]; [apply lookup_delete_eq|]. rewrite lookup_delete_ne by done. by apply H3.
Qed.

(** [InitLogger] after it has freed the old name. *)
Lemma init_ok moved written l d d1 p opens :
  (if decide (log_filename l = Some p) then Some d else free (log_filename l) d) = Some d1 ->
  strings d1 !! p = Some file -> files_ok moved written d1 -> streams d1 = streams d0 ->
  exists q f d2, InitLogger threshold (Some p) opens l d = Some (Logger threshold (Some q) f (now l) (now_str l), d2)
    /\ files_ok moved written d2 /\ strings d1 !! q = None /\ strings d2 = <[q := file]> (strings d1)
    /\ (if opens : bool then exists g i, f = Some g /\ streams d0 !! g = None /\ streams d2 = <[g := i]> (streams d0) /\ names d2 !! file = Some i
        else f = None /\ streams d2 = streams d0).
Proof.
  intros E Hp Hfs Hst. unfold InitLogger. rewrite E. cbn [mbind option_bind]. rewrite Hp. cbn [mbind option_bind].
  destruct (strdup file d1) as [q d2] eqn:E2. destruct Hfile as (Hf1 & Hf2 & Hf3).
  rewrite (decide_False (P := file = bs "stderr" \/ file = [])) by (intros [?|?]; done). rewrite (decide_False (P := file = bs "stdout")) by done.
  destruct (fopen file opens d2) as [f d3] eqn:E3. destruct (open_ok _ _ _ _ _ _ _ (fk_disk _ _ _ Hfs) E2 E3) as (Hd & Hq & Hs & Ho & Hc & Hn).
  exists q, f, d3. split_and!; try done.
  - by eapply files_ok_same.
  - by rewrite <- Hst.
Qed.

(** The log is closed, and moved when [rename] moves it. *)
Lemma log_close_ok moved written l d t renames : log_ok true moved written l d ->
  let r := rotated_name localtime file t in (renames = true -> names d !! r = None /\ r ∉ moved) ->
  exists f q d1 d2, log_file l = Some f /\ ~ (f = stderr \/ f = stdout) /\ log_filename l = Some q /\ strings d !! q = Some file
    /\ (length r < 1024)%nat /\ fclose f d = Some d1 /\ rename file r renames d1 = d2
    /\ log_ok false (moved ++ if renames : bool then [r] else []) written (Logger (log_level l) (log_filename l) None (now l) (now_str l)) d2.
Proof.
  intros [H1 (q & Hq & Hq0 & Hs) (f & i & Ef & Hf & Est & Hn) H4 Hfs] r Hr. pose proof (rotated_name_length localtime file t (calendar t)) as Hlen. fold r in Hlen.
  assert (r <> file) as Hrf by (intros E; rewrite E in Hlen; lia).
  exists f, q, (Disk (strings d) (delete f (streams d)) (names d) (texts d) (fresh d)). eexists. unfold fclose. rewrite Est, lookup_insert_eq. cbn [mbind option_bind]. split_and!; try done.
  { destruct Hstd as [[a Ha] [b Hb]]. intros [E|E]; congruence. } { by rewrite Hs, lookup_insert_eq. } { lia. }
  rewrite delete_insert_id by done. unfold rename. cbn [names]. rewrite Hn. destruct Hfs as [[D1 D2 D3 D4 D5] H6 H7 H8].
  assert (forall p, (fresh d <= p)%nat -> streams d0 !! p = None) as D4'.
  { intros p Hp. specialize (D4 p Hp). rewrite Est in D4. by apply lookup_insert_None in D4 as [? _]. }
  destruct renames.
  2: { rewrite app_nil_r. split; cbn; [done|by exists q|done|done|]. by split. }
  destruct (Hr eq_refl) as [Hr' Hrm].
  split; cbn; [done|by exists q|done|done|].
  set (names' := <[r := i]> (delete file (names d))).
  assert (forall n j, names' !! n = Some j -> (n = r /\ j = i) \/ (n <> r /\ n <> file /\ names d !! n = Some j)) as Hin.
  { intros n j. unfold names'. rewrite lookup_insert_Some, lookup_delete_Some. naive_solver. }
  assert (forall n, n <> r -> n <> file -> content d n = default [] (k ← names' !! n; texts d !! k)) as Hc.
  { intros n ? ?. unfold names'. by rewrite lookup_insert_ne, lookup_delete_ne by done. }
  split; cbn [fresh names strings streams texts].
  - split; cbn [fresh names strings streams texts]; try done.
    + intros n m j A B. destruct (Hin _ _ A) as [[-> ->]|(? & ? & A')], (Hin _ _ B) as [[-> ?]|(? & ? & B')]; subst; try done; [| |by eapply D1]; exfalso;
        [apply H0|apply H0]; symmetry; by eapply D1.
    + intros n j A. destruct (Hin _ _ A) as [[-> ->]|(? & ? & A')]; by eapply D2.
    + intros n j A. destruct (Hin _ _ A) as [[-> ->]|(? & ? & A')]; by eapply D5.
  - rewrite not_elem_of_app, not_elem_of_cons. split_and!; [done|done|apply not_elem_of_nil].
  - rewrite <- H7, fmap_app, concat_app. unfold content at 2 3. cbn [fmap list_fmap concat names texts]. unfold names' at 2 3.
    rewrite lookup_insert_eq, lookup_insert_ne, lookup_delete_eq by done. cbn. rewrite !app_nil_r. unfold content at 3. rewrite Hn. cbn. f_equal. f_equal.
    apply list_fmap_ext. intros k n Hk. apply list_elem_of_lookup_2 in Hk. symmetry. apply Hc; intros ->; done.
  - intros n. rewrite not_elem_of_app, not_elem_of_cons. intros (Hm & Hnr & _) Hnf. split; [|transitivity (content d n); [symmetry; by apply Hc|by apply H8]].
    unfold names'. rewrite lookup_insert_ne, lookup_delete_ne by done. by apply H8.
Qed.

(** The log is opened again, under a copy of its name. *)
Lemma reinit_ok moved written l d opens : log_ok false moved written l d ->
  exists q l' d2 d', log_filename l = Some q /\ InitLogger (log_level l) (Some q) opens l d = Some (l', d2)
    /\ free (Some q) d2 = Some d' /\ log_ok opens moved written l' d'.
Proof.
  intros [H1 (q & Hq & Hq0 & Hs) [Hf Hst] H4 Hfs]. rewrite H1.
  destruct (init_ok moved written l d d q opens) as (q' & f & d2 & E & Hfs2 & Hq' & Hs2 & Ho); [by rewrite decide_True|by rewrite Hs, lookup_insert_eq|done|done|].
  assert (q' <> q /\ strings d0 !! q' = None) as [Hne Hq0'] by (rewrite Hs in Hq'; apply lookup_insert_None in Hq' as [? ?]; done).
  destruct (free_ok d2 q file (fk_disk _ _ _ Hfs2)) as (d' & Ef & Hd & Es & Est & En & Hc); [by rewrite Hs2, lookup_insert_ne, Hs, lookup_insert_eq|].
  exists q. do 2 eexists. exists d'. split_and!; [done|done|done|]. split; cbn; [done| | |done|].
  - exists q'. split_and!; [done|done|]. by rewrite Es, Hs2, Hs, delete_insert_ne, delete_insert_id by done.
  - destruct opens; [|by rewrite Est]. destruct Ho as (g & i & Hg). exists g, i. by rewrite Est, En.
  - eapply files_ok_same; [done|done| |done]. intros n _. by rewrite En.
Qed.

Lemma rotate_ok is_open moved written l d t renames opens : log_ok is_open moved written l d ->
  (is_open && renames = true -> let r := rotated_name localtime file t in names d !! r = None /\ r ∉ moved) ->
  exists l' d', RotateLogger localtime t renames opens l d = Some (l', d')
    /\ log_ok opens (moved ++ if is_open && renames then [rotated_name localtime file t] else []) written l' d'.
Proof.
  intros H Hr. unfold RotateLogger. destruct is_open.
  - destruct (log_close_ok _ _ _ _ t renames H Hr) as (f & q & d1 & d2 & Ef & Hstd' & Eq & Eqs & Hlen & Ec & Er & H2).
    rewrite Ef, decide_False, Eq by done. cbn [mbind option_bind]. rewrite Eqs. cbn [mbind option_bind].
    rewrite (proj2 (Nat.ltb_lt _ _) Hlen), Ec. cbn [mbind option_bind]. rewrite Er.
    destruct (reinit_ok _ _ _ _ opens H2) as (q' & l' & d3 & d' & Eq' & Ei & Efr & H3). rewrite Eq in Eq'. cbn [log_filename log_level] in *. injection Eq' as <-.
    rewrite Eq in Ei. rewrite Ei. cbn [mbind option_bind]. rewrite Efr. cbn [mbind option_bind]. by exists l', d'.
  - rewrite (proj1 (lk_file _ _ _ _ _ H)), app_nil_r. cbn [mbind option_bind].
    destruct (reinit_ok _ _ _ _ opens H) as (q' & l' & d3 & d' & Eq' & Ei & Efr & H3). rewrite Eq', Ei. cbn [mbind option_bind]. rewrite Efr.
    cbn [mbind option_bind]. by exists l', d'.
Qed.

(** The names the log is moved to are new and all different: no two of these
    rotations are in the same second. *)
Definition rotations_new (is_open : bool) (es : list levent) : Prop :=
  NoDup (rotations localtime file is_open es) /\ Forall (fun r => names d0 !! r = None) (rotations localtime file is_open es).

Definition timed (e : levent) : Prop := match e with Line t _ _ => t <> 0 | Rotate _ _ _ => True end.

Lemma lsteps_ok es : forall is_open moved written l d, log_ok is_open moved written l d -> Forall timed es ->
  NoDup (moved ++ rotations localtime file is_open es) -> Forall (fun r => names d0 !! r = None) (rotations localtime file is_open es) ->
  exists l' d' is_open', lsteps localtime es (l, d) = Some (l', d')
    /\ log_ok is_open' (moved ++ rotations localtime file is_open es) (written ++ logged localtime threshold is_open es) l' d'.
Proof.
  induction es as [|e es IH]; intros is_open moved written l d H Ht Hnd Hnew.
  { exists l, d, is_open. cbn [rotations logged]. by rewrite !app_nil_r. }
  apply Forall_cons in Ht as [He Ht]. cbn [lsteps]. destruct e as [t level text|t renames opens]; cbn [lstep fst snd].
  - destruct (line_ok _ _ _ _ _ t level text He H) as (l1 & d1 & E & H1). rewrite E. cbn [mbind option_bind].
    destruct (IH _ _ _ _ _ H1 Ht Hnd Hnew) as (l' & d' & o & E' & H'). exists l', d', o. split; [done|]. cbn [rotations logged]. by rewrite app_assoc.
  - cbn [rotations] in Hnd, Hnew. rewrite app_assoc in Hnd. apply Forall_app in Hnew as [Hnew1 Hnew].
    destruct (rotate_ok _ _ _ _ _ t renames opens H) as (l1 & d1 & E & H1).
    { intros Eo. rewrite Eo in Hnew1, Hnd. apply Forall_cons in Hnew1 as [Hn _]. rewrite <- app_assoc in Hnd. cbn [app] in Hnd. apply NoDup_app in Hnd as (_ & Hnd & _).
      assert (rotated_name localtime file t ∉ moved) as Hm by (intros Hin; apply (Hnd _ Hin); by left).
      pose proof (rotated_name_length localtime file t (calendar t)) as Hlen.
      split; [|done]. destruct (fk_other _ _ _ (lk_files _ _ _ _ _ H) _ Hm) as [-> _]; [|done]. intros E. rewrite E in Hlen. lia. }
    rewrite E. cbn [mbind option_bind]. destruct (IH _ _ _ _ _ H1 Ht Hnd Hnew) as (l' & d' & o & E' & H'). exists l', d', o. split; [done|].
    cbn [rotations logged]. by rewrite app_assoc.
Qed.

(** main, whose first log is the console. *)
Lemma start_ok console p opens : disk_ok d0 -> strings d0 !! console = Some (bs "stderr") -> strings d0 !! p = Some file ->
  exists l d, start_logger threshold console p opens d0 = Some (l, d) /\ log_ok opens [] [] l d.
Proof.
  intros Hd Hc Hp. pose proof (fresh_string _ Hd) as Hfr.
  assert (p <> fresh d0) as Hpf by (intros ->; by rewrite Hfr in Hp by lia).
  set (d1 := Disk (<[fresh d0 := bs "stderr"]> (strings d0)) (streams d0) (names d0) (texts d0) (S (fresh d0))).
  set (l1 := Logger kDebug (Some (fresh d0)) (Some stderr) (now new_logger) (now_str new_logger)).
  assert (InitLogger kDebug (Some console) true new_logger d0 = Some (l1, d1)) as E1.
  { unfold InitLogger. cbn [new_logger log_filename]. destruct (decide (None = Some console)); [done|]. cbn [free mbind option_bind].
    rewrite Hc. cbn [mbind option_bind strdup]. by rewrite decide_True by (by left). }
  unfold start_logger. rewrite E1. cbn [mbind option_bind].
  assert (disk_ok d1) as Hd1.
  { destruct Hd as [D1 D2 D3 D4 D5]. split; cbn; try done; intros; rewrite ?lookup_insert_ne by lia; try (apply D3 || apply D4); try lia. specialize (D5 _ _ H). lia. }
  destruct (free_ok d1 (fresh d0) (bs "stderr") Hd1) as (d2 & Ef & Hd2 & Es & Est & En & Hcn); [apply lookup_insert_eq|].
  cbn [strings d1] in Es. rewrite delete_insert_id in Es by (apply Hfr; lia).
  destruct (init_ok [] [] l1 d1 d2 p opens) as (q & f & d3 & E & Hfs & Hq & Hs & Ho).
  - by rewrite decide_False by (cbn; congruence).
  - by rewrite Es.
  - split; [done|apply not_elem_of_nil| |].
    + cbn [fmap list_fmap concat]. by rewrite app_nil_r, Hcn.
    + intros n _ _. by rewrite En, Hcn.
  - by rewrite Est.
  - exists (Logger threshold (Some q) f (now l1) (now_str l1)), d3. split; [exact E|]. split; cbn; [done| |done|by left|done]. exists q. by rewrite <- Es.
Qed.

(** C20. Let the log be a file whose name is not empty, neither stdout nor stderr, and at most
    1003 bytes long (RotateLogger has 1024 bytes for the name and a time). Whatever lines are logged
    and however the log is rotated, if the clock of each line is not 0 (the logger would take it for
    a line never dated), no two rotations fall into the same second and their names are new, the
    files the log was moved to and the log hold, in order, what the log held before and every line
    at or above its level that was logged while it was open, with its time and level; no other file
    changes; and one copy of its name and at most one FILE remain. *)
Theorem log_lines_kept console p opens es : disk_ok d0 -> strings d0 !! console = Some (bs "stderr") -> strings d0 !! p = Some file ->
  Forall timed es -> rotations_new opens es ->
  exists l d, (x ← start_logger threshold console p opens d0; lsteps localtime es x) = Some (l, d)
    /\ concat (content d <$> rotations localtime file opens es) ++ content d file = content d0 file ++ logged localtime threshold opens es
    /\ (forall n, n ∉ rotations localtime file opens es -> n <> file -> content d n = content d0 n)
    /\ (exists q, log_filename l = Some q /\ strings d0 !! q = None /\ strings d = <[q := file]> (strings d0))
    /\ (size (streams d) <= size (streams d0) + 1)%nat.
Proof.
  intros Hd Hc Hp Ht [Hnd Hnew]. destruct (start_ok console p opens Hd Hc Hp) as (l0 & d1 & E & H). rewrite E. cbn [mbind option_bind].
  destruct (lsteps_ok es _ _ _ _ _ H Ht Hnd Hnew) as (l & d & is_open & E' & [_ H2 H3 _ [_ _ H7 H8]]). exists l, d.
  split_and!; [done|done| |done|]; [intros; by apply H8|].
  destruct is_open; [destruct H3 as (f & i & _ & Hf & -> & _)|destruct H3 as [_ ->]; lia]. rewrite map_size_insert_None by done. lia.
Qed.
End kept.

(** ** Levels have their names *)

Lemma level_name_inj a b s : strcaseeq (LevelName a) s = true -> strcaseeq (LevelName b) s = true -> a = b.
Proof.
  unfold strcaseeq. rewrite !bool_decide_eq_true. intros Ha Hb. rewrite <- Hb in Ha. clear Hb.
  destruct a, b; first [reflexivity|exfalso; revert Ha; vm_compute; discriminate].
Qed.

Lemma level_loop_spec l s : (exists i, i ∈ l /\ strcaseeq (LevelName i) s = true /\ level_loop l s = i)
  \/ ((forall i, i ∈ l -> strcaseeq (LevelName i) s = false) /\ level_loop l s = kNone).
Proof.
  induction l as [|i l IH]; cbn [level_loop].
  - right. split; [|done]. intros i Hi. by apply not_elem_of_nil in Hi.
  - destruct (strcaseeq (LevelName i) s) eqn:E.
    + left. exists i. split; [by left|done].
    + destruct IH as [(j & Hj & H)|[H ->]]; [left; exists j; split; [by right|done]|]. right. split; [|done].
      intros j Hj. apply elem_of_cons in Hj as [->|Hj]; [done|by apply H].
Qed.

(** A name in any case is its level; any other text is [kNone]. *)
Theorem LogLevelFromString_spec s l : LogLevelFromString s = l <->
  strcaseeq (LevelName l) s = true \/ (l = kNone /\ forall i, strcaseeq (LevelName i) s = false).
Proof.
  assert (forall i, i ∈ levels) as Hall by (intros i; unfold levels; rewrite !elem_of_cons; destruct i; tauto).
  unfold LogLevelFromString. destruct (level_loop_spec levels s) as [(i & _ & Hi & ->)|[H ->]]; split.
  - intros <-. by left.
  - intros [Hl|[-> Hl]]; [by eapply level_name_inj|]. by rewrite Hl in Hi.
  - intros <-. right. split; [done|]. intros i. by apply H.
  - intros [Hl|[-> _]]; [|done]. by rewrite H in Hl.
Qed.

(** A log whose level has no name is silent, whatever is logged. *)
Lemma silent_log localtime t level text l d : log_level l = kNone -> level <> kNone -> LogLine localtime t level text l d = Some (l, d).
Proof.
  intros El Hl. unfold LogLine, LogInternal, LogPrint. assert (above level (log_level l) = true) as E by (rewrite El; by destruct level).
  rewrite E. cbn [mbind option_bind]. by rewrite E.
Qed.

(** ** Examples *)

(** A clock that starts in 2013 and has no days. *)
Definition test_clock (t : Z) : tm := Tm 113 0 1 (t / 3600 mod 24) (t / 60 mod 60) (t mod 60).

Lemma test_clock_ok t : date_ok (test_clock t).
Proof.
  pose proof (Z.mod_pos_bound (t / 3600) 24 eq_refl). pose proof (Z.mod_pos_bound (t / 60) 60 eq_refl). pose proof (Z.mod_pos_bound t 60 eq_refl).
  split; cbn; lia.
Qed.

Definition test_disk : disk :=
  Disk (<[3%nat := bs "stderr"]> {[4%nat := bs "kids.log"]}) (<[stdout := 5%nat]> {[stderr := 6%nat]}) {[bs "kids.log" := 7%nat]}
    (<[5%nat := []]> (<[6%nat := []]> {[7%nat := bs "old"]})) 10.

Lemma test_disk_ok : disk_ok test_disk.
Proof.
  unfold test_disk. split; cbn [names texts strings streams fresh].
  - intros n m i. rewrite !lookup_singleton_Some. naive_solver.
  - intros n i. rewrite lookup_singleton_Some. intros [<- <-]. by eexists.
  - intros p Hp. rewrite lookup_insert_ne, lookup_singleton_ne by lia. done.
  - intros p Hp. unfold stdout, stderr. rewrite lookup_insert_ne, lookup_singleton_ne by lia. done.
  - intros n i. rewrite lookup_singleton_Some. intros [<- <-]. lia.
Qed.

Definition test_log : list levent :=
  [Line 60 kInfo (bs "one"); Line 60 kDebug (bs "not logged"); Rotate 61 true true; Line 62 kError (bs "two"); Rotate 63 false true; Line 64 kInfo (bs "three");
   Rotate 65 true false; Line 66 kFatal (bs "lost"); Rotate 67 true true; Line 68 kInfo (bs "four")].

(** What a run leaves under a name; nothing for a run that is undefined. *)
Definition left_in (name : bytes) (x : option (logger * disk)) : option bytes := (fun x => content x.2 name) <$> x.

Lemma test_log_new : rotations_new test_clock test_disk (bs "kids.log") true test_log.
Proof. split; apply (bool_decide_unpack _); vm_compute; exact I. Qed.

(** The run of the witness, with the line that was lost while the log was not open. *)
Example test_log_run : let x := x ← start_logger kInfo 3 4 true test_disk; lsteps test_clock test_log x in
  left_in (bs "kids.log-2013-01-01-00-01-01") x = Some (bs "old2013/01/01 00:01:00 [INFO] one" ++ [LF])
  /\ left_in (bs "kids.log-2013-01-01-00-01-05") x = Some (bs "2013/01/01 00:01:02 [ERROR] two" ++ [LF] ++ bs "2013/01/01 00:01:04 [INFO] three" ++ [LF])
  /\ left_in (bs "kids.log") x = Some (bs "2013/01/01 00:01:08 [INFO] four" ++ [LF]).
Proof. vm_compute. repeat split. Qed.

(** Two rotations in one second: the second replaces the file of the first,
    and what it held is lost. *)
Example rotations_in_one_second : let x := x ← start_logger kInfo 3 4 true test_disk;
    lsteps test_clock [Line 60 kInfo (bs "one"); Rotate 61 true true; Line 61 kInfo (bs "two"); Rotate 61 true true] x in
  left_in (bs "kids.log-2013-01-01-00-01-01") x = Some (bs "2013/01/01 00:01:01 [INFO] two" ++ [LF]) /\ left_in (bs "kids.log") x = Some [].
Proof. vm_compute. repeat split. Qed.

(** A long name of the log does not fit in the 1024 bytes of [RotateLogger]. *)
Example long_name_overflows : let file := repeat "a"%char 1004 in
  let d := Disk (<[3%nat := bs "stderr"]> {[4%nat := file]}) (<[stdout := 5%nat]> {[stderr := 6%nat]}) ∅ (<[5%nat := []]> {[6%nat := []]}) 10 in
  (x ← start_logger kInfo 3 4 true d; lsteps test_clock [Rotate 61 true true] x) = None.
Proof. vm_compute. reflexivity. Qed.

Lemma log_lines_kept_witness : exists l d, (x ← start_logger kInfo 3 4 true test_disk; lsteps test_clock test_log x) = Some (l, d)
  /\ concat (content d <$> rotations test_clock (bs "kids.log") true test_log) ++ content d (bs "kids.log")
     = content test_disk (bs "kids.log") ++ logged test_clock kInfo true test_log.
Proof.
  destruct (log_lines_kept test_clock test_clock_ok test_disk (bs "kids.log") kInfo) with (console := 3%nat) (p := 4%nat) (opens := true) (es := test_log)
    as (l & d & E & H & _).
  - repeat split; discriminate.
  - apply Nat.leb_le. reflexivity.
  - split; by eexists.
  - exact test_disk_ok.
  - reflexivity.
  - reflexivity.
  - unfold test_log. repeat (apply Forall_cons; split; [cbn [timed]; first [exact I|discriminate]|]). apply Forall_nil, I.
  - exact test_log_new.
  - exists l, d. split; [exact E|exact H].
Defined.
