(* ===== verification/Threads.v ===== *)
(** * The threads of the server: start, stop and reload

    The main thread (kids.cc, master.cc) starts the storer and the workers and
    runs the loop of the master; the signal thread of kids.cc stops them all on
    SIGINT, SIGTERM or SIGPIPE and hands the storer a new configuration on
    SIGHUP.  A step is what a thread does between two accesses to what the
    threads share: the [stop] flags of the loops, the configurations on the
    heap, the fields [conf_] and [conf_loaded_] of the storer.  What a loop
    does in one round is one step, but for the storer, whose cron may read a
    configuration.  [pthread_create] may
    refuse a thread, which the code does not look at.  Using what was deleted,
    or is not there (yet), is undefined ([None]); a step that cannot be taken leaves the state. *)

From S2P Require Import Prelude Conf Parser Lexer.

(** ** Event loops *)

(** [Started]: the thread exists and has not entered [aeMain]; [Testing]: it
    is about to test [stop]; [Inside]: it runs [aeProcessEvents]; [Refused]:
    [pthread_create] failed, so that there is no thread and [tid_] was not
    written. *)
Inductive loop_pc : Type := NotStarted | Started | Testing | Inside | Ended | Refused.

#[export] Instance loop_pc_eq_dec : EqDecision loop_pc.
Proof. solve_decision. Defined.

Record loop := Loop { pc : loop_pc; stop : bool }.

(** [aeMain]; a loop wakes up at least every 100 milliseconds, for its timer. *)
Definition aeMain_step (l : loop) : loop :=
  match pc l with
  | Started => Loop Testing false
  | Testing => if stop l then Loop Ended true else Loop Inside false
  | Inside => Loop Testing (stop l)
  | NotStarted | Ended | Refused => l
  end.

(** [eventl_->stop = 1] *)
Definition stop_loop (l : loop) : loop := Loop (pc l) true.

(** ** The process *)

(** The main thread: in [Master::Create]; in [Master::Start], where so many
    threads run; in its loop; joining the signal thread; deleting. *)
Inductive main_pc : Type := Creating | Starting (k : nat) | Serving | Joining | Deleting | Exited.

#[export] Instance main_pc_eq_dec : EqDecision main_pc.
Proof. solve_decision. Defined.

(** The signal thread: in [sigwait]; with a new configuration, before and
    after it deleted the old one, and with [conf_] set; in [Master::Stop],
    before thread [k] and joining it. *)
Inductive signal_pc : Type := Waiting | Parsed (c : nat) | Installed (c : nat) | Refreshed | Stopping (k : nat) | JoiningThread (k : nat) | Returned.

Record process := Process {
  main : main_pc;
  signal : signal_pc;
  master : loop;
  threads : list loop;               (* the workers and, last, the storer *)
  kids : bool;                       (* points to a server *)
  contexts : gmap nat ParseContext;  (* not deleted *)
  next : nat;
  main_ctx : nat;                    (* the variable of main, which hides the global one *)
  ctx : option nat;                  (* the global variable *)
  conf_ : nat;                       (* the context whose store conf_ points to *)
  conf_loaded_ : bool;
  reading : option nat;              (* what the storer creates a store from *)
  store_ : StoreConfig;              (* what its store was created from *)
  accepted : StoreConfig;            (* of the last file that was accepted *)
}.

Definition with_main (x : main_pc) (s : process) : process :=
  Process x (signal s) (master s) (threads s) (kids s) (contexts s) (next s) (main_ctx s) (ctx s) (conf_ s) (conf_loaded_ s) (reading s) (store_ s) (accepted s).
Definition with_signal (x : signal_pc) (s : process) : process :=
  Process (main s) x (master s) (threads s) (kids s) (contexts s) (next s) (main_ctx s) (ctx s) (conf_ s) (conf_loaded_ s) (reading s) (store_ s) (accepted s).
Definition with_master (x : loop) (s : process) : process :=
  Process (main s) (signal s) x (threads s) (kids s) (contexts s) (next s) (main_ctx s) (ctx s) (conf_ s) (conf_loaded_ s) (reading s) (store_ s) (accepted s).
Definition with_threads (x : list loop) (s : process) : process :=
  Process (main s) (signal s) (master s) x (kids s) (contexts s) (next s) (main_ctx s) (ctx s) (conf_ s) (conf_loaded_ s) (reading s) (store_ s) (accepted s).
Definition with_kids (x : bool) (s : process) : process :=
  Process (main s) (signal s) (master s) (threads s) x (contexts s) (next s) (main_ctx s) (ctx s) (conf_ s) (conf_loaded_ s) (reading s) (store_ s) (accepted s).
Definition with_contexts (x : gmap nat ParseContext) (s : process) : process :=
  Process (main s) (signal s) (master s) (threads s) (kids s) x (next s) (main_ctx s) (ctx s) (conf_ s) (conf_loaded_ s) (reading s) (store_ s) (accepted s).
Definition with_ctx (x : option nat) (s : process) : process :=
  Process (main s) (signal s) (master s) (threads s) (kids s) (contexts s) (next s) (main_ctx s) x (conf_ s) (conf_loaded_ s) (reading s) (store_ s) (accepted s).
Definition with_conf (p : nat) (loaded : bool) (r : option nat) (store : StoreConfig) (s : process) : process :=
  Process (main s) (signal s) (master s) (threads s) (kids s) (contexts s) (next s) (main_ctx s) (ctx s) p loaded r store (accepted s).
Definition with_new (c : ParseContext) (a : StoreConfig) (s : process) : process :=
  Process (main s) (signal s) (master s) (threads s) (kids s) (<[next s := c]> (contexts s)) (S (next s)) (main_ctx s) (ctx s)
    (conf_ s) (conf_loaded_ s) (reading s) (store_ s) a.

(** [ctx->conf->store], where neither pointer is NULL. *)
Definition store_of (c : ParseContext) : option StoreConfig := k ← ctx_conf c; kc_store k.

(** [delete] of a pointer to a context that may be NULL. *)
Definition delete_context (p : option nat) (s : process) : option process :=
  match p with
  | None => Some s
  | Some p => _ ← contexts s !! p; Some (with_contexts (delete p (contexts s)) s)
  end.

Definition storer_index (s : process) : nat := pred (length (threads s)).

(** [Master::Start] starts the storer, then the workers. *)
Definition start_index (k : nat) (s : process) : nat := match k with O => storer_index s | S k => k end.

(** [created]: what [pthread_create] did, whose result is not looked at. *)
Definition start_loop (created : bool) (l : loop) : loop := Loop (if created then Started else Refused) (stop l).

Definition main_step (created : bool) (s : process) : option process :=
  match main s with
  | Creating => Some (with_kids true (with_main (Starting 0) s))
  | Starting k =>
      if decide (k < length (threads s))%nat then
        Some (with_main (Starting (S k)) (with_threads (alter (start_loop created) (start_index k s) (threads s)) s))
      else Some (with_main Serving (with_master (Loop Started (stop (master s))) s))
  | Serving =>
      let l := aeMain_step (master s) in
      Some (if decide (pc l = Ended) then with_main Joining (with_master l s) else with_master l s)
  | Joining => Some (match signal s with Returned => with_main Deleting s | _ => s end)
  | Deleting => s ← delete_context (Some (main_ctx s)) s; Some (with_main Exited (with_kids false s))
  | Exited => Some s
  end.

(** A thread works on the server. *)
Definition thread_step (k : nat) (s : process) : option process :=
  match threads s !! k with
  | None => Some s
  | Some l =>
      if decide (pc l = NotStarted \/ pc l = Ended \/ pc l = Refused) then Some s
      else if negb (kids s) then None
      else if decide (k = storer_index s) then
        match reading s with
        | Some _ => Some s
        | None => Some (with_threads (<[k := aeMain_step l]> (threads s)) s)
        end
      else Some (with_threads (<[k := aeMain_step l]> (threads s)) s)
  end.

(** [Storer::Cron]: [IfConfigRefreshed], then [conf_] is read. *)
Definition cron_step (s : process) : option process :=
  match threads s !! storer_index s with
  | Some l =>
      if decide (pc l = Inside /\ reading s = None) then
        if negb (kids s) then None
        else if conf_loaded_ s then Some s
        else Some (with_conf (conf_ s) true (Some (conf_ s)) (store_ s) s)
      else Some s
  | None => Some s
  end.

(** The [Store::Create] of [DoConfigReload]. *)
Definition create_step (s : process) : option process :=
  match reading s with
  | None => Some s
  | Some p => c ← contexts s !! p; store ← store_of c; Some (with_conf (conf_ s) (conf_loaded_ s) None store s)
  end.

(** [sigwait] gives one of the three that stop the server. *)
Definition term_step (s : process) : option process :=
  match signal s with
  | Waiting => if kids s then Some (with_signal (Stopping 0) (with_master (stop_loop (master s)) s)) else None
  | _ => Some s
  end.

(** [sigwait] gives SIGHUP, and the configuration file holds [content]; what
    is not accepted stays on the heap. *)
Definition hup_step (content : bytes) (s : process) : option process :=
  match signal s with
  | Waiting =>
      c ← ParseConfigFile content;
      if ctx_success c then store ← store_of c; Some (with_signal (Parsed (next s)) (with_new c store s))
      else Some (with_new c (accepted s) s)
  | _ => Some s
  end.

Definition signal_step (s : process) : option process :=
  match signal s with
  | Waiting | Returned => Some s
  | Parsed c => s ← delete_context (ctx s) s; Some (with_signal (Installed c) (with_ctx (Some c) s))
  | Installed c =>
      if kids s then
        x ← contexts s !! c; _ ← store_of x;
        Some (with_signal Refreshed (with_conf c (conf_loaded_ s) (reading s) (store_ s) s))
      else None
  | Refreshed => if kids s then Some (with_signal Waiting (with_conf (conf_ s) false (reading s) (store_ s) s)) else None
  | Stopping k =>
      match threads s !! k with
      | Some l => Some (with_signal (JoiningThread k) (with_threads (<[k := stop_loop l]> (threads s)) s))
      | None => Some (with_signal Returned s)
      end
  | JoiningThread k =>
      l ← threads s !! k;
      match pc l with
      | NotStarted | Refused => None
      | Ended => Some (with_signal (Stopping (S k)) s)
      | Started | Testing | Inside => Some s
      end
  end.

(** [MainRefused]: the main thread goes on, and where it starts a thread the
    system refuses to create it. *)
Inductive actor : Type :=
| Main
| MainRefused
| Thread (k : nat)
| StorerCron
| StorerCreate
| Signal
| Term
| Hup (content : bytes).

Definition step (a : actor) (s : process) : option process :=
  match a with
  | Main => main_step true s
  | MainRefused => main_step false s
  | Thread k => thread_step k s
  | StorerCron => cron_step s
  | StorerCreate => create_step s
  | Signal => signal_step s
  | Term => term_step s
  | Hup content => hup_step content s
  end.

Fixpoint steps (l : list actor) (s : process) : option process :=
  match l with [] => Some s | a :: l => s ← step a s; steps l s end.

(** main, after the configuration was accepted and the signal thread created;
    [workers] is [worker_threads]. *)
Definition start (content : bytes) (workers : nat) : option process :=
  c ← ParseConfigFile content;
  if ctx_success c then
    store ← store_of c;
    Some (Process Creating Waiting (Loop NotStarted false) (replicate (S workers) (Loop NotStarted false)) false {[0%nat := c]} 1 0 None
            0 true None store store)
  else None.

(** ** What may happen when *)

(** [Master::Start] has started every thread. *)
Definition serving (s : process) : bool := match main s with Creating | Starting _ => false | _ => true end.

(** The storer has taken the last configuration. *)
Definition quiet (s : process) : Prop := conf_loaded_ s = true /\ reading s = None.

(** No thread was refused. *)
Definition all_created (s : process) : Prop := Forall (fun l => pc l <> Refused) (threads s).

(** Signals come once the threads run, one that stops the server only if
    every thread could be created, and SIGHUP once the storer has taken the
    last configuration; without that the steps may be undefined (see the
    examples). *)
Definition allowed (a : actor) (s : process) : Prop :=
  match a with
  | Term => serving s = true /\ all_created s
  | Hup _ => serving s = true /\ quiet s
  | _ => True
  end.

Section runs.
Variables (content : bytes) (workers : nat).

Inductive reachable : process -> Prop :=
| reach_start s : start content workers = Some s -> reachable s
| reach_step a s s' : reachable s -> allowed a s -> step a s = Some s' -> reachable s'.

(** ** The invariant *)

Definition at_pc (s : process) (k : nat) (P : loop_pc -> Prop) : Prop := exists l, threads s !! k = Some l /\ P (pc l).

Definition ended_below (k : nat) (s : process) : Prop := forall i, (i < k)%nat -> at_pc s i (fun p => p = Ended).
Definition all_started (s : process) : Prop := forall i, (i < S workers)%nat -> at_pc s i (fun p => p <> NotStarted).

Definition good (s : process) (p : nat) : Prop := (contexts s !! p ≫= store_of) = Some (accepted s).

(** The global context, if there is one, is alive and not that of main. *)
Definition ctx_ok (s : process) : Prop := forall g, ctx s = Some g -> g <> main_ctx s /\ is_Some (contexts s !! g).

Definition main_ok (s : process) : Prop :=
  match main s with
  | Creating => kids s = false /\ (forall i l, threads s !! i = Some l -> pc l = NotStarted)
  | Starting k => kids s = true /\ (k <= S workers)%nat /\ forall i, (i < k)%nat -> at_pc s (start_index i s) (fun p => p <> NotStarted)
  | Serving => kids s = true /\ all_started s
  | Joining => kids s = true /\ all_started s /\ pc (master s) = Ended
  | Deleting => kids s = true /\ signal s = Returned /\ pc (master s) = Ended /\ all_started s
  | Exited => kids s = false /\ signal s = Returned /\ pc (master s) = Ended /\ all_started s
  end.

Definition signal_ok (s : process) : Prop :=
  (signal s <> Waiting -> serving s = true)
  /\ match signal s with
     | Stopping k => (k <= S workers)%nat /\ ended_below k s
     | JoiningThread k => (k < S workers)%nat /\ ended_below k s
     | Returned => ended_below (S workers) s
     | _ => True
     end.

Definition conf_ok (s : process) : Prop :=
  match signal s with
  | Parsed c => quiet s /\ ctx_ok s /\ good s c /\ c <> main_ctx s /\ ctx s <> Some c
  | Installed c => quiet s /\ ctx s = Some c /\ good s c /\ c <> main_ctx s
  | Refreshed => quiet s /\ ctx_ok s /\ good s (conf_ s)
  | _ => ctx_ok s /\ (main s <> Exited -> good s (conf_ s)) /\ (quiet s -> store_ s = accepted s)
  end.

Record inv (s : process) : Prop := {
  iv_length : length (threads s) = S workers;
  iv_main : main_ok s;
  iv_signal : signal_ok s;
  iv_fresh : forall p, (next s <= p)%nat -> contexts s !! p = None;
  iv_main_ctx : main s <> Exited -> is_Some (contexts s !! main_ctx s);
  iv_conf : conf_ok s;
  iv_reading : forall p, reading s = Some p -> p = conf_ s /\ at_pc s workers (fun x => x = Inside);
  iv_quiet : serving s = false -> quiet s;
  iv_created : match signal s with Stopping _ | JoiningThread _ | Returned => all_created s | _ => True end;
}.

Lemma file_accepted file c : ParseConfigFile file = Some c -> ctx_success c = true -> exists store, store_of c = Some store.
Proof.
  intros E Hs. destruct (ParseConfig_ok (file_lines file [])) as (c' & E' & H). unfold ParseConfigFile in E. rewrite E' in E. injection E as ->.
  destruct (H Hs) as (conf & store & H1 & H2 & _). exists store. unfold store_of. by rewrite H1.
Qed.

Lemma file_parsed file : exists c, ParseConfigFile file = Some c.
Proof. destruct (ParseConfig_ok (file_lines file [])) as (c & E & _). by exists c. Qed.

Lemma start_inv s : start content workers = Some s -> inv s.
Proof.
  unfold start. destruct (file_parsed content) as [c Ec]. rewrite Ec. cbn [mbind option_bind]. destruct (ctx_success c) eqn:Es; [|done].
  destruct (file_accepted _ _ Ec Es) as [store Est]. rewrite Est. cbn [mbind option_bind]. intros [= <-].
  split; cbn.
  - by rewrite length_replicate.
  - split; [done|]. intros i l Hl. by apply (lookup_replicate (S workers)) in Hl as [-> _].
  - by split.
  - intros p Hp. rewrite lookup_singleton_ne by lia. done.
  - intros _. rewrite lookup_singleton_eq. by eexists.
  - unfold conf_ok. cbn. split_and!; [done| |done]. intros _. unfold good. cbn. by rewrite lookup_singleton_eq.
  - done.
  - done.
  - done.
Qed.

(** The steps of a loop. *)
Lemma aeMain_step_refused l : pc (aeMain_step l) = Refused -> pc l = Refused.
Proof. unfold aeMain_step. destruct (pc l) eqn:E; cbn; rewrite ?E; try done. by destruct (stop l). Qed.

Lemma aeMain_step_pc l : pc l <> NotStarted -> pc (aeMain_step l) <> NotStarted.
Proof. unfold aeMain_step. destruct (pc l) eqn:E; cbn; rewrite ?E; try done. by destruct (stop l). Qed.

Lemma storer_last s : inv s -> storer_index s = workers.
Proof. intros H. unfold storer_index. by rewrite (iv_length _ H). Qed.

Lemma at_pc_lt s k P : at_pc s k P -> (k < length (threads s))%nat.
Proof. intros (l & E & _). by eapply lookup_lt_Some. Qed.

(** Changing one thread. *)
Lemma at_pc_insert s k l l' (P : loop_pc -> Prop) i : threads s !! k = Some l -> (P (pc l) -> P (pc l')) -> at_pc s i P ->
  at_pc (with_threads (<[k := l']> (threads s)) s) i P.
Proof.
  intros Hk HP (x & E & Hx). destruct (decide (i = k)) as [->|Hne].
  - exists l'. cbn. rewrite list_lookup_insert_eq by (by eapply lookup_lt_Some). split; [done|]. apply HP. congruence.
  - exists x. cbn. by rewrite list_lookup_insert_ne.
Qed.

(** Only loops change, none that was started or has ended goes back, and the
    storer does not leave what it reads. *)
Lemma inv_threads s k l l' : inv s -> threads s !! k = Some l -> pc l <> NotStarted -> pc l' <> NotStarted -> (pc l' = Refused -> pc l = Refused) ->
  (pc l = Ended -> pc l' = Ended) -> (k = workers -> reading s <> None -> pc l = Inside -> pc l' = Inside) -> inv (with_threads (<[k := l']> (threads s)) s).
Proof.
  intros [H1 H2 H3 H4 H5 H6 H7 H8 H9] Hk Hns0 Hns Href Hend Hrd. split; try done.
  - cbn. by rewrite length_insert.
  - unfold main_ok in *. cbn. assert (all_started s -> all_started (with_threads (<[k := l']> (threads s)) s)) as Ha.
    { intros Ha i Hi. eapply at_pc_insert; [done|done|by apply Ha]. }
    destruct (main s); [by destruct H2 as [_ H2]; rewrite (H2 _ _ Hk) in Hns0| |tauto..]. destruct H2 as (? & ? & H2). split_and!; [done|done|]. intros i Hi.
    unfold start_index, storer_index. cbn. rewrite length_insert. eapply at_pc_insert; [done|done|by apply H2].
  - destruct H3 as [H3 H3']. split; [done|]. cbn. assert (forall j, ended_below j s -> ended_below j (with_threads (<[k := l']> (threads s)) s)) as He.
    { intros j Hj i Hi. eapply at_pc_insert; [done|done|by apply Hj]. }
    destruct (signal s); [exact I..|destruct H3'; split; auto|destruct H3'; split; auto|auto].
  - intros p Hp. destruct (H7 p Hp) as [E Hat]. split; [done|]. destruct (decide (k = workers)) as [->|Hne].
    + destruct Hat as (x & Ex & Hx). assert (x = l) as -> by congruence. exists l'. cbn.
      rewrite list_lookup_insert_eq by (by eapply lookup_lt_Some). split; [done|]. apply Hrd; [done| |exact Hx]. cbn in Hp. congruence.
    + destruct Hat as (x & Ex & Hx). exists x. cbn. by rewrite list_lookup_insert_ne.
  - cbn. assert (all_created s -> all_created (with_threads (<[k := l']> (threads s)) s)) as Hall.
    { unfold all_created. intros Ha. apply Forall_insert; [done|]. intros E. rewrite Forall_lookup in Ha. by apply (Ha _ _ Hk), Href. }
    destruct (signal s); auto.
Qed.

(** ** Every step is defined and keeps it *)

(** A thread that runs has the server. *)
Lemma kids_alive s k l : inv s -> threads s !! k = Some l -> pc l <> NotStarted -> pc l <> Ended -> kids s = true.
Proof.
  intros H Hk Hn He. pose proof (iv_main _ H) as Hm. pose proof (iv_signal _ H) as [_ Hs]. unfold main_ok in Hm. destruct (main s); try tauto.
  - destruct Hm as [_ Hm]. by apply Hm in Hk.
  - destruct Hm as (_ & E & _). rewrite E in Hs. destruct (Hs k) as (x & Ex & Hx); [|congruence].
    rewrite <- (iv_length _ H). by eapply lookup_lt_Some.
Qed.

Lemma thread_ok k s : inv s -> exists s', thread_step k s = Some s' /\ inv s'.
Proof.
  intros H. unfold thread_step. destruct (threads s !! k) as [l|] eqn:Ek; [|by exists s].
  destruct (decide (pc l = NotStarted \/ pc l = Ended \/ pc l = Refused)) as [|Hpc]; [by exists s|].
  assert (pc l <> NotStarted /\ pc l <> Ended /\ pc l <> Refused) as (Hn & He & Hr) by tauto.
  rewrite (kids_alive _ _ _ H Ek Hn He). cbn [negb]. pose proof (aeMain_step_pc _ Hn) as Hn'. pose proof (aeMain_step_refused l) as Hr'.
  destruct (decide (k = storer_index s)) as [E|E]; [destruct (reading s) eqn:Er; [by exists s|]|]; eexists; (split; [done|]);
    eapply inv_threads; try done. intros E'. by rewrite storer_last in E by done.
Qed.

Lemma storer_cron_step_ok s : inv s -> exists s', cron_step s = Some s' /\ inv s'.
Proof.
  intros H. unfold cron_step. destruct (threads s !! storer_index s) as [l|] eqn:El; [|by exists s].
  destruct (decide (pc l = Inside /\ reading s = None)) as [[Hpc Hr]|]; [|by exists s].
  rewrite (kids_alive _ _ _ H El) by congruence. cbn [negb]. destruct (conf_loaded_ s) eqn:Ec; [by exists s|].
  eexists. split; [done|]. destruct H as [H1 H2 H3 H4 H5 H6 H7 H8]. split; try done.
  - unfold conf_ok, quiet in *. cbn. rewrite Ec in H6. destruct (signal s); try (destruct H6 as [[? _] _]; done); destruct H6 as (? & ? & _);
      (split_and!; [done|done|by intros [_ ?]]).
  - cbn. intros p [= <-]. split; [done|]. exists l. unfold storer_index in El. rewrite H1 in El. done.
  - cbn. intros Hs. destruct (H8 Hs). congruence.
Qed.

Lemma store_create_ok s : inv s -> exists s', create_step s = Some s' /\ inv s'.
Proof.
  intros H. unfold create_step. destruct (reading s) as [p|] eqn:Er; [|by exists s]. pose proof H as [H1 H2 H3 H4 H5 H6 H7 H8].
  destruct (H7 p Er) as [-> (l & El & Hl)].
  assert (main s <> Exited) as Hm.
  { intros E. unfold main_ok in H2. rewrite E in H2. destruct H2 as (_ & E' & _ & _). destruct H3 as [_ H3]. rewrite E' in H3.
    destruct (H3 workers ltac:(lia)) as (x & Ex & Hx). congruence. }
  assert (good s (conf_ s)) as Hg.
  { unfold conf_ok, quiet in H6. rewrite Er in H6. destruct (signal s); try (destruct H6 as [[_ ?] _]; done); destruct H6 as (_ & Hg & _); auto. }
  pose proof Hg as Hg'. unfold good in Hg'. destruct (contexts s !! conf_ s) as [c|] eqn:Ec; [|done]. cbn [mbind option_bind] in *. rewrite Hg'.
  cbn [mbind option_bind]. eexists. split; [done|]. split; try done.
  - unfold conf_ok, quiet in *. cbn. rewrite Er in H6. destruct (signal s); try (destruct H6 as [[_ ?] _]; done); destruct H6 as (? & _ & _); done.
  - cbn. intros Hs. destruct (H8 Hs). by split.
Qed.

Lemma term_ok s : inv s -> allowed Term s -> exists s', term_step s = Some s' /\ inv s'.
Proof.
  intros H [Hs Hcr]. unfold term_step. destruct (signal s) eqn:Es; try (by exists s).
  assert (kids s = true) as Hk.
  { pose proof (iv_main _ H) as Hm. unfold main_ok, serving in *. destruct (main s); try done; try tauto. destruct Hm as (_ & E & _). congruence. }
  rewrite Hk. eexists. split; [done|]. destruct H as [H1 H2 H3 H4 H5 H6 H7 H8]. split; try done.
  - unfold main_ok in *. cbn. rewrite Es in H2. destruct (main s); try done; by destruct H2 as (_ & E & _).
  - split; [done|]. cbn. split; [lia|]. intros i Hi. lia.
  - unfold conf_ok in *. cbn. by rewrite Es in H6.
Qed.

(** Until the signal thread has returned nothing is deleted. *)
Lemma not_deleting s : inv s -> signal s <> Returned -> main s <> Deleting /\ main s <> Exited.
Proof. intros [_ H2 _ _ _ _ _ _] Hs. unfold main_ok in H2. by destruct (main s); try done; destruct H2 as (_ & E & _). Qed.

Lemma good_new s c a p : inv s -> (contexts s !! p ≫= store_of) = Some a -> (<[next s := c]> (contexts s) !! p ≫= store_of) = Some a.
Proof. intros H Hp. rewrite lookup_insert_ne; [done|]. intros <-. by rewrite (iv_fresh _ H) in Hp by lia. Qed.

Lemma hup_ok file s : inv s -> allowed (Hup file) s -> exists s', hup_step file s = Some s' /\ inv s'.
Proof.
  intros H [Hserve Hq]. unfold hup_step. destruct (signal s) eqn:Es; try (by exists s).
  destruct (file_parsed file) as [c Ec]. rewrite Ec. cbn [mbind option_bind].
  assert (forall p, is_Some (contexts s !! p) -> p <> next s) as Hne by (intros p [x Hx] ->; by rewrite (iv_fresh _ H) in Hx by lia).
  assert (forall p x, is_Some (contexts s !! p) -> is_Some (<[next s := x]> (contexts s) !! p)) as Hmore.
  { intros p x Hp. rewrite lookup_insert_ne by (apply not_eq_sym, Hne, Hp). done. }
  destruct (not_deleting s H) as [_ Hx]; [by rewrite Es|]. pose proof H as [H1 H2 H3 H4 H5 H6 H7 H8]. unfold conf_ok in H6. rewrite Es in H6. destruct H6 as (C1 & C2 & C3).
  assert (ctx_ok (with_new c (accepted s) s)) as C1' by (intros g Hg; destruct (C1 g Hg); split; [done|by apply Hmore]).
  assert (forall p : nat, (S (next s) <= p)%nat -> <[next s := c]> (contexts s) !! p = None) as H4' by (intros p Hp; rewrite lookup_insert_ne by lia; apply H4; lia).
  destruct (ctx_success c) eqn:Esu.
  - destruct (file_accepted _ _ Ec Esu) as [store Est]. rewrite Est. cbn [mbind option_bind]. eexists. split; [done|]. split; try done.
    + unfold main_ok in *. cbn. rewrite Es in H2. destruct (main s); try done; by destruct H2 as (_ & E & _).
    + intros Hm. cbn. by apply Hmore, H5.
    + unfold conf_ok. cbn. split_and!; [done|done| | |].
      * unfold good. cbn. by rewrite lookup_insert_eq.
      * apply not_eq_sym, Hne, H5, Hx.
      * intros E. destruct (C1 _ E) as [_ Hg]. by apply Hne in Hg.
  - eexists. split; [done|]. split; try done.
    + intros Hm. cbn. by apply Hmore, H5.
    + unfold conf_ok. cbn. rewrite Es. split_and!; [done| |done]. intros Hm. specialize (C2 Hm). by apply good_new.
Qed.

Lemma kids_serving s : inv s -> signal s <> Waiting -> signal s <> Returned -> kids s = true /\ all_started s.
Proof.
  intros H Hw Hr. pose proof (iv_signal _ H) as [Hs _]. specialize (Hs Hw). pose proof (not_deleting s H Hr) as [Hd1 Hd2].
  pose proof (iv_main _ H) as Hm. unfold main_ok, serving in *. destruct (main s); try done; try tauto.
Qed.

(** The signal thread goes on. *)
Lemma inv_signal s x : inv s -> signal s <> Waiting -> signal s <> Returned ->
  signal_ok (with_signal x s) -> conf_ok (with_signal x s) -> all_created s -> inv (with_signal x s).
Proof.
  intros H Hw Hr Hs Hc Ha. pose proof (not_deleting s H Hr) as [Hd1 Hd2]. destruct H as [H1 H2 H3 H4 H5 H6 H7 H8]. split; try done.
  - unfold main_ok in *. cbn. by destruct (main s).
  - by destruct x.
Qed.

Lemma signal_conf_ok s : inv s -> match signal s with Parsed _ | Installed _ | Refreshed => True | _ => False end ->
  exists s', signal_step s = Some s' /\ inv s'.
Proof.
  intros H Hsig. assert (signal s <> Waiting /\ signal s <> Returned) as [Hw Hr] by (by destruct (signal s)).
  destruct (kids_serving s H Hw Hr) as [Hk _]. pose proof (not_deleting s H Hr) as [Hd1 Hd2]. pose proof H as [H1 H2 [H3 _] H4 H5 H6 H7 H8]. specialize (H3 Hw).
  unfold signal_step. unfold conf_ok in H6. rewrite Hk. destruct (signal s) as [|c|c| | | |] eqn:Es; try done.
  - destruct H6 as (Hq & Hctx & Hg & Hc & Hn). unfold delete_context. destruct (ctx s) as [g|] eqn:Eg.
    + destruct (Hctx g Eg) as [Hgm [y Hy]]. rewrite Hy. cbn [mbind option_bind]. eexists. split; [done|].
      assert (forall p, p <> g -> contexts s !! p = delete g (contexts s) !! p) as Hdel by (intros; by rewrite lookup_delete_ne).
      split; cbn; try done.
      * unfold main_ok in *. cbn. by destruct (main s).
      * intros p Hp. destruct (decide (p = g)) as [->|]; [by rewrite lookup_delete_eq|]. rewrite <- Hdel by done. by apply H4.
      * intros _. rewrite <- Hdel by done. by apply H5.
      * unfold conf_ok. cbn. split_and!; try done. unfold good. cbn. rewrite <- Hdel by congruence. done.
    + cbn [mbind option_bind]. eexists. split; [done|]. split; cbn; try done.
      unfold main_ok in *. cbn. by destruct (main s).
  - destruct H6 as ([Hl Hrd] & Hctx & Hg & Hc). pose proof Hg as Hg'. unfold good in Hg'. destruct (contexts s !! c) as [x|] eqn:Ex; [|done].
    cbn [mbind option_bind] in *. rewrite Hg'. cbn [mbind option_bind]. eexists. split; [done|]. split; cbn; try done.
    + unfold main_ok in *. cbn. by destruct (main s).
    + unfold conf_ok. cbn. split_and!; [done| |done]. intros g Eg. cbn in Eg. assert (g = c) as -> by congruence. split; [done|]. cbn. by rewrite Ex.
    + by rewrite Hrd.
  - destruct H6 as ([Hl Hrd] & Hctx & Hg). eexists. split; [done|]. split; cbn; try done.
    + unfold main_ok in *. cbn. by destruct (main s).
    + unfold conf_ok. cbn. split_and!; [done|done|]. by intros [? _].
    + intros Hs. change (serving s = false) in Hs. congruence.
Qed.

Lemma signal_stop_ok s : inv s -> match signal s with Stopping _ | JoiningThread _ => True | _ => False end ->
  exists s', signal_step s = Some s' /\ inv s'.
Proof.
  intros H Hsig. assert (signal s <> Waiting /\ signal s <> Returned) as [Hw Hr] by (by destruct (signal s)).
  destruct (kids_serving s H Hw Hr) as [_ Hall]. pose proof (iv_signal _ H) as [Hsv Hse]. pose proof (iv_conf _ H) as Hc.
  pose proof (iv_created _ H) as Hcr. unfold signal_step. unfold conf_ok in Hc. destruct (signal s) as [| | | |k|k|] eqn:Es; try done.
  - destruct Hse as [Hk He]. destruct (threads s !! k) as [l|] eqn:El.
    + eexists. split; [done|]. assert (k < S workers)%nat as Hlt by (rewrite <- (iv_length _ H); by eapply lookup_lt_Some).
      assert (pc l <> NotStarted) as Hn by (destruct (Hall k Hlt) as (x & Ex & Hx); congruence).
      pose proof (inv_threads s k l (stop_loop l) H El Hn Hn (fun E => E) (fun E => E) (fun _ _ E => E)) as Hi. pose proof (iv_created _ Hi) as Hcr'. cbn in Hcr'. rewrite Es in Hcr'.
      apply inv_signal; [done|by cbn; rewrite Es|by cbn; rewrite Es| |exact Hc|exact Hcr'].
      split; [intros _; by apply Hsv|]. cbn. split; [done|]. pose proof (iv_signal _ Hi) as [_ Hs']. cbn in Hs'. rewrite Es in Hs'. by destruct Hs'.
    + eexists. split; [done|]. apply inv_signal; [done|by rewrite Es|by rewrite Es| |exact Hc|exact Hcr]. split; [intros _; by apply Hsv|]. cbn. apply lookup_ge_None in El.
      rewrite (iv_length _ H) in El. by replace (S workers) with k by lia.
  - destruct Hse as [Hk He]. destruct (Hall k Hk) as (l & El & Hl). rewrite El. cbn [mbind option_bind]. destruct (pc l) eqn:Ep; try done; try (by exists s).
    2: { unfold all_created in Hcr. rewrite Forall_lookup in Hcr. by destruct (Hcr _ _ El). }
    eexists. split; [done|]. apply inv_signal; [done|by rewrite Es|by rewrite Es| |exact Hc|exact Hcr]. split; [intros _; by apply Hsv|]. cbn. split; [lia|].
    intros i Hi. destruct (decide (i = k)) as [->|]; [by exists l|]. apply He. lia.
Qed.

Lemma signal_ok_step s : inv s -> exists s', signal_step s = Some s' /\ inv s'.
Proof.
  intros H. pose proof (signal_conf_ok s H) as Hc. pose proof (signal_stop_ok s H) as Hs. unfold signal_step in *.
  destruct (signal s); eauto.
Qed.

(** The main thread goes on. *)
Lemma inv_main x l b s : inv s -> main s <> Exited -> x <> Exited ->
  let s' := with_main x (with_master l (with_kids b s)) in (signal s <> Waiting -> serving s' = true) -> (serving s' = false -> quiet s) -> main_ok s' -> inv s'.
Proof.
  intros [H1 H2 [H3 H3'] H4 H5 H6 H7 H8] Hm Hx s' Hs Hq Hok. split; try done.
  { intros _. by apply H5. }
  unfold conf_ok in *. cbn. destruct (signal s); first [exact H6|destruct H6 as (A & B & C); split; [exact A|split; [intros _; exact (B Hm)|exact C]]].
Qed.

Lemma idle_signal s : inv s -> serving s = false -> signal s = Waiting.
Proof. intros [_ _ [H3 _] _ _ _ _ _] Hs. destruct (signal s); try done; by rewrite H3 in Hs. Qed.

(** Starting a thread. *)
Lemma start_thread_ok created k s : inv s -> main s = Starting k -> (k < S workers)%nat ->
  inv (with_main (Starting (S k)) (with_threads (alter (start_loop created) (start_index k s) (threads s)) s)).
Proof.
  intros H Em Hk. pose proof (idle_signal s H) as Es. unfold serving in Es. rewrite Em in Es. specialize (Es eq_refl).
  pose proof H as [H1 H2 [H3 H3'] H4 H5 H6 H7 H8]. unfold main_ok in H2. rewrite Em in H2. destruct H2 as (H2 & Hle & Hst).
  assert (forall i (P : loop_pc -> Prop), (forall l, P (pc (start_loop created l))) -> at_pc s i P ->
    at_pc (with_threads (alter (start_loop created) (start_index k s) (threads s)) s) i P) as Hat.
  { intros i P HP (x & Ex & Hx). destruct (decide (i = start_index k s)) as [->|Hne].
    - exists (start_loop created x). split; [|apply HP]. cbn. by rewrite list_lookup_alter_eq, Ex.
    - exists x. cbn. by rewrite list_lookup_alter_ne. }
  assert (start_index k s < length (threads s))%nat as Hi by (unfold start_index, storer_index; destruct k; lia).
  split; try done; cbn.
  - by rewrite length_alter.
  - unfold main_ok. cbn. split_and!; [done|lia|]. intros i Hi'. unfold start_index, storer_index. cbn. rewrite length_alter.
    destruct (decide (i = k)) as [->|Hne]; [|apply (Hat (start_index i s) (fun p => p <> NotStarted)); [by destruct created|apply Hst; lia]].
    destruct (lookup_lt_is_Some_2 _ _ Hi) as [l El]. exists (start_loop created l). split; [|by destruct created]. cbn.
    fold (storer_index s). fold (start_index k s). by rewrite list_lookup_alter_eq, El.
  - split; cbn; rewrite Es; done.
  - intros _. apply H5. by rewrite Em.
  - unfold conf_ok in *. cbn. rewrite Es in *. destruct H6 as (? & H6 & ?). split_and!; [done| |done]. intros _. apply H6. by rewrite Em.
  - destruct H8 as [_ Hr]; [unfold serving; by rewrite Em|]. by rewrite Hr.
  - intros _. apply H8. unfold serving. by rewrite Em.
  - by rewrite Es.
Qed.

(** The loop of the master ends only after it was stopped. *)
Lemma aeMain_step_ended l : pc l <> Ended -> pc (aeMain_step l) = Ended -> stop l = true.
Proof. unfold aeMain_step. destruct (pc l) eqn:E; cbn; rewrite ?E; try done. by destruct (stop l). Qed.

Lemma main_step_ok created s : inv s -> exists s', main_step created s = Some s' /\ inv s'.
Proof.
  intros H. pose proof (iv_main _ H) as Hm. pose proof (iv_quiet _ H) as Hq. pose proof (iv_signal _ H) as [Hs _]. unfold main_step, main_ok, serving in *.
  destruct (main s) as [|k| | | |] eqn:Em.
  - eexists. split; [done|]. apply (inv_main (Starting 0) (master s) true s); try done; [by rewrite Em|].
    unfold main_ok. cbn. split_and!; [done|lia|]. intros i Hi. lia.
  - destruct Hm as (Hk & Hle & Hst). destruct (decide (k < length (threads s))%nat) as [Hlt|Hge].
    + eexists. split; [done|]. apply start_thread_ok; [done|done|]. by rewrite <- (iv_length _ H).
    + eexists. split; [done|]. apply (inv_main Serving (Loop Started (stop (master s))) (kids s) s); try done; [by rewrite Em|].
      rewrite (iv_length _ H) in Hge. unfold main_ok. cbn. split; [done|]. intros i Hi. destruct (decide (i = workers)) as [->|Hne].
      * specialize (Hst 0%nat ltac:(lia)). cbn in Hst. by rewrite storer_last in Hst.
      * apply (Hst (S i)). lia.
  - destruct Hm as [Hk Ha]. eexists. split; [done|]. destruct (decide (pc (aeMain_step (master s)) = Ended)) as [He|He].
    + apply (inv_main Joining (aeMain_step (master s)) (kids s) s); try done. by rewrite Em.
    + replace (with_master (aeMain_step (master s)) s) with (with_main Serving (with_master (aeMain_step (master s)) (with_kids (kids s) s)))
        by (unfold with_main, with_master, with_kids; cbn; by rewrite Em).
      apply inv_main; try done. by rewrite Em.
  - destruct Hm as (Hk & Ha & He). eexists. split; [done|]. destruct (signal s) eqn:Es; try done.
    apply (inv_main Deleting (master s) (kids s) s); try done. by rewrite Em.
  - destruct Hm as (Hk & Es & He & Ha). destruct (iv_main_ctx _ H) as [x Hx]; [by rewrite Em|]. cbn [delete_context]. rewrite Hx. cbn [mbind option_bind].
    eexists. split; [done|]. destruct H as [H1 H2 [H3 H3'] H4 H5 H6 H7 H8]. split; try done.
    + intros p Hp. cbn. destruct (decide (p = main_ctx s)) as [->|]; [apply lookup_delete_eq|]. rewrite lookup_delete_ne by done. by apply H4.
    + unfold conf_ok in *. cbn. rewrite Es in *. destruct H6 as (A & _ & C). split_and!; [|done|done]. intros g Hg. destruct (A g Hg) as [? ?].
      split; [done|]. cbn. by rewrite lookup_delete_ne.
  - by exists s.
Qed.

Lemma any_step_ok a s : inv s -> allowed a s -> exists s', step a s = Some s' /\ inv s'.
Proof.
  intros H Ha. destruct a as [| |k| | | | |file]; cbn [step].
  - by apply main_step_ok.
  - by apply main_step_ok.
  - by apply thread_ok.
  - by apply storer_cron_step_ok.
  - by apply store_create_ok.
  - by apply signal_ok_step.
  - by apply term_ok.
  - by apply hup_ok.
Qed.

Lemma reachable_inv s : reachable s -> inv s.
Proof.
  induction 1 as [s Hs|a s s' _ IH Ha E]; [by apply start_inv|]. destruct (any_step_ok a s IH Ha) as (s'' & E' & H). congruence.
Qed.

(** What holds once the server is being deleted. *)
Lemma deleting_ended s : inv s -> main s = Deleting \/ main s = Exited ->
  signal s = Returned /\ pc (master s) = Ended /\ Forall (fun l => pc l = Ended) (threads s).
Proof.
  intros H Hm. pose proof (iv_main _ H) as Hok. unfold main_ok in Hok.
  assert (signal s = Returned /\ pc (master s) = Ended) as [Hs He].
  { destruct Hm as [E|E]; rewrite E in Hok; tauto. }
  split_and!; [done|done|]. pose proof (iv_signal _ H) as [_ Hend]. rewrite Hs in Hend. apply Forall_lookup. intros i l Hi.
  destruct (Hend i) as (x & Ex & Hx); [|congruence]. rewrite <- (iv_length _ H). by eapply lookup_lt_Some.
Qed.

(** C15. However the main thread, the workers, the storer and the signal thread interleave, and
    whichever threads the system refuses to create, every step is defined if no signal comes before
    the main thread has started the last thread, a signal that stops the server comes only if no
    thread was refused, and SIGHUP only once the storer took the last configuration: no
    configuration is read after it was deleted or deleted twice, no thread is joined that was not
    created, no pointer of an accepted file is NULL; and when the server is deleted every loop has
    ended and the signal thread has returned. *)
Theorem shutdown_safe s a : reachable s -> allowed a s -> is_Some (step a s)
  /\ (main s = Deleting \/ main s = Exited -> signal s = Returned /\ pc (master s) = Ended /\ Forall (fun l => pc l = Ended) (threads s)).
Proof.
  intros H Ha. pose proof (reachable_inv s H) as Hi. split; [|by apply deleting_ended]. destruct (any_step_ok a s Hi Ha) as (s' & E & _). by exists s'.
Qed.

(** ** A new configuration *)

(** The three steps of the signal thread. *)
Lemma install_steps s c : inv s -> signal s = Parsed c ->
  exists s', steps [Signal; Signal; Signal] s = Some s' /\ signal s' = Waiting /\ conf_loaded_ s' = false /\ reading s' = None
    /\ accepted s' = accepted s /\ ctx s' = Some c /\ threads s' = threads s
    /\ (forall p, contexts s' !! p = if decide (ctx s = Some p) then None else contexts s !! p).
Proof.
  intros H Es. destruct (kids_serving s H) as [Hk _]; [by rewrite Es..|]. pose proof (iv_conf _ H) as Hc. unfold conf_ok in Hc. rewrite Es in Hc.
  destruct Hc as ([_ Hr] & Hctx & Hg & _ & Hn). unfold good in Hg. cbn [steps step].
  assert (signal_step s = (s1 ← delete_context (ctx s) s; Some (with_signal (Installed c) (with_ctx (Some c) s1)))) as -> by (unfold signal_step; by rewrite Es).
  assert (exists s1, delete_context (ctx s) s = Some s1 /\ contexts s1 !! c = contexts s !! c /\ kids s1 = true /\ reading s1 = None
    /\ accepted s1 = accepted s /\ threads s1 = threads s
    /\ forall p, contexts s1 !! p = if decide (ctx s = Some p) then None else contexts s !! p) as (s1 & E1 & Ec & Hk1 & Hr1 & Ha1 & Ht1 & Hd1).
  { unfold delete_context. destruct (ctx s) as [g|] eqn:Eg; [|by exists s]. destruct (Hctx g Eg) as [_ [x Hx]]. rewrite Hx. cbn [mbind option_bind].
    eexists. split; [done|]. cbn. split_and!; try done.
    - rewrite lookup_delete_ne by congruence. done.
    - intros p. case_decide as Ep; [injection Ep as ->; apply lookup_delete_eq|apply lookup_delete_ne; congruence]. }
  rewrite E1. cbn [mbind option_bind]. destruct (contexts s !! c) as [x|]; [|done]. cbn [mbind option_bind] in Hg.
  eexists. split; [unfold signal_step; cbn; rewrite Hk1, Ec; cbn; rewrite Hg; cbn; rewrite Hk1; done|]. cbn. by rewrite Hr1.
Qed.

(** No step but a signal has a condition. *)
Lemma steps_inv l s s' : inv s -> Forall (fun a => match a with Term | Hup _ => False | _ => True end) l -> steps l s = Some s' -> inv s'.
Proof.
  intros H Hl. revert s H. induction Hl as [|a l Ha _ IH]; intros s H; cbn [steps]; [by intros [= <-]|].
  destruct (any_step_ok a s H) as (s1 & -> & H1); [by destruct a|]. cbn [mbind option_bind]. by apply IH.
Qed.

Lemma steps_app l l' s : steps (l ++ l') s = s' ← steps l s; steps l' s'.
Proof. revert s. induction l as [|a l IH]; intros s; [done|]. cbn [app steps]. destruct (step a s); [apply IH|done]. Qed.

(** What the storer's cron then does. *)
Lemma storer_reloads s : inv s -> conf_loaded_ s = false -> reading s = None -> at_pc s workers (fun x => x = Inside) ->
  exists s', steps [StorerCron; StorerCreate] s = Some s' /\ inv s' /\ quiet s' /\ signal s' = signal s /\ accepted s' = accepted s /\ contexts s' = contexts s /\ ctx s' = ctx s.
Proof.
  intros H Hl Hr (l & El & Hpc). destruct (storer_cron_step_ok s H) as (s1 & E1 & H1). cbn [steps step]. rewrite E1. cbn [mbind option_bind].
  destruct (store_create_ok s1 H1) as (s2 & E2 & H2). rewrite E2. cbn [mbind option_bind]. exists s2. split; [done|]. split; [done|].
  unfold cron_step in E1. rewrite (storer_last s H), El, decide_True, (kids_alive _ _ _ H El), Hl in E1 by (done || congruence).
  cbn [negb] in E1. injection E1 as <-. unfold create_step in E2. cbn in E2. destruct (contexts s !! conf_ s); [|done]. cbn in E2.
  destruct (store_of p); [|done]. cbn in E2. by injection E2 as <-.
Qed.

Lemma quiet_cron s : inv s -> quiet s -> cron_step s = Some s.
Proof.
  intros H [Hl Hr]. unfold cron_step. destruct (threads s !! storer_index s) as [l|] eqn:El; [|done].
  destruct (decide (pc l = Inside /\ reading s = None)) as [[Hp _]|]; [|done]. rewrite (kids_alive _ _ _ H El) by congruence. cbn [negb]. by rewrite Hl.
Qed.

(** C17. Whenever the storer has taken the last configuration and the signal thread waits, its
    store was made from the last file that was accepted; and if it then runs its loop, after a
    SIGHUP the steps of the signal thread and one cron of the storer put the store of the new file,
    when that is accepted, in its place, and delete the configuration of the SIGHUP before, if there
    was one, and no other (the one read at the start is kept by main). A file that is not accepted
    leaves the store and every configuration, and its own is never deleted. *)
Theorem reload_takes_effect s file : reachable s -> signal s = Waiting -> quiet s ->
  store_ s = accepted s
  /\ (serving s = true -> at_pc s workers (fun x => x = Inside) ->
      exists c s', ParseConfigFile file = Some c /\ steps [Hup file; Signal; Signal; Signal; StorerCron; StorerCreate] s = Some s'
        /\ signal s' = Waiting /\ quiet s'
        /\ (if ctx_success c
            then store_of c = Some (store_ s') /\ ctx s' = Some (next s)
              /\ (forall p, contexts s' !! p = if decide (ctx s = Some p) then None else <[next s := c]> (contexts s) !! p)
            else store_ s' = store_ s /\ ctx s' = ctx s /\ contexts s' = <[next s := c]> (contexts s))).
Proof.
  intros Hreach Es Hq. pose proof (reachable_inv s Hreach) as H. pose proof (iv_conf _ H) as Hc. unfold conf_ok in Hc. rewrite Es in Hc.
  destruct Hc as (_ & _ & Hst). split; [by apply Hst|]. intros Hs Hat. destruct (file_parsed file) as [c Ec]. exists c.
  destruct (hup_ok file s H (conj Hs Hq)) as (s1 & E1 & H1). change ([Hup file; Signal; Signal; Signal; StorerCron; StorerCreate])
    with ([Hup file] ++ [Signal; Signal; Signal] ++ [StorerCron; StorerCreate]).
  pose proof E1 as E1'. unfold hup_step in E1'. rewrite Es, Ec in E1'. cbn [mbind option_bind] in E1'. destruct (ctx_success c) eqn:Esu.
  - destruct (store_of c) as [store|] eqn:Est; [|done]. cbn [mbind option_bind] in E1'.
    assert (signal s1 = Parsed (next s) /\ accepted s1 = store /\ ctx s1 = ctx s /\ threads s1 = threads s /\ contexts s1 = <[next s := c]> (contexts s))
      as (Es1 & Ea1 & Ec1 & Et1 & Ex1) by by injection E1' as <-.
    destruct (install_steps s1 _ H1 Es1) as (s2 & E2 & Es2 & Hl2 & Hr2 & Ea2 & Ec2 & Et2 & Hd2).
    pose proof (steps_inv [Signal; Signal; Signal] _ _ H1 ltac:(by repeat constructor) E2) as H2.
    destruct (storer_reloads s2 H2 Hl2 Hr2) as (s3 & E3 & H3 & Hq3 & Es3 & Ea3 & Ec3 & Ex3); [unfold at_pc in *; by rewrite Et2, Et1|].
    exists s3. assert (steps [Hup file] s = Some s1) as E1s by (cbn [steps step]; by rewrite E1). rewrite steps_app, E1s. cbn [mbind option_bind].
    rewrite steps_app, E2. cbn [mbind option_bind]. split_and!; try done.
    + congruence.
    + pose proof (iv_conf _ H3) as Hc3. unfold conf_ok in Hc3. rewrite Es3, Es2 in Hc3. destruct Hc3 as (_ & _ & Hc3). rewrite (Hc3 Hq3). congruence.
    + congruence.
    + intros p. rewrite Ec3, Hd2, Ec1, Ex1. done.
  - assert (s1 = with_new c (accepted s) s) as -> by by injection E1' as <-. exists (with_new c (accepted s) s). split; [done|].
    cbn [app steps step]. rewrite E1. cbn [mbind option_bind].
    assert (signal_step (with_new c (accepted s) s) = Some (with_new c (accepted s) s)) as E by (unfold signal_step; cbn; by rewrite Es).
    rewrite E. cbn [mbind option_bind]. rewrite E. cbn [mbind option_bind]. rewrite E. cbn [mbind option_bind].
    rewrite (quiet_cron _ H1 Hq). cbn [mbind option_bind]. destruct Hq as [Hl Hr].
    assert (create_step (with_new c (accepted s) s) = Some (with_new c (accepted s) s)) as -> by (unfold create_step; cbn; by rewrite Hr).
    by cbn.
Qed.

(** ** Stopping *)

(** How much a thread, the signal thread, the main thread and the storer's
    configuration have still to do. *)
Definition loop_rank (l : loop) : nat := if stop l then match pc l with Inside => 2 | Testing => 1 | _ => 0 end else 3.

Definition signal_rank (s : process) : nat :=
  match signal s with Stopping k => 2 * (S workers - k) + 1 | JoiningThread k => 2 * (S workers - k) | _ => 0 end.

Definition main_rank (s : process) : nat := match main s with Serving => 3 | Joining => 2 | Deleting => 1 | _ => 0 end.

Definition conf_rank (s : process) : nat := (if conf_loaded_ s then 0 else 2) + match reading s with Some _ => 1 | None => 0 end.

Definition rank (s : process) : nat :=
  sum_list_with loop_rank (threads s) + loop_rank (master s) + signal_rank s + main_rank s + conf_rank s.

(** A loop that has entered [aeMain]. *)
Definition entered (l : loop) : Prop := pc l <> NotStarted /\ pc l <> Started /\ pc l <> Refused.

Record stopping (s : process) : Prop := {
  sg_inv : inv s;
  sg_signal : match signal s with Stopping _ | JoiningThread _ | Returned => True | _ => False end;
  sg_main : serving s = true;
  sg_master : entered (master s) /\ stop (master s) = true;
  sg_threads : forall i l, threads s !! i = Some l -> entered l;
  sg_join : forall k l, signal s = JoiningThread k -> threads s !! k = Some l -> stop l = true;
}.

Lemma sum_insert (f : loop -> nat) k l l' ts : ts !! k = Some l -> (sum_list_with f (<[k := l']> ts) + f l = sum_list_with f ts + f l')%nat.
Proof.
  revert k. induction ts as [|x ts IH]; intros [|k] H; try done.
  - injection H as ->. cbn. lia.
  - change (<[S k := l']> (x :: ts)) with (x :: <[k := l']> ts). cbn [sum_list_with]. specialize (IH k H). lia.
Qed.

Lemma rank_thread s k l l' : threads s !! k = Some l ->
  (rank (with_threads (<[k := l']> (threads s)) s) + loop_rank l = rank s + loop_rank l')%nat.
Proof.
  intros Hk. pose proof (sum_insert loop_rank k l l' (threads s) Hk) as E.
  assert (rank (with_threads (<[k := l']> (threads s)) s)
    = (sum_list_with loop_rank (<[k := l']> (threads s)) + loop_rank (master s) + signal_rank s + main_rank s + conf_rank s)%nat) as -> by reflexivity.
  unfold rank. lia.
Qed.

Lemma loop_step l : entered l -> entered (aeMain_step l) /\ stop (aeMain_step l) = stop l /\ (loop_rank (aeMain_step l) <= loop_rank l)%nat
  /\ (stop l = true -> pc l <> Ended -> (loop_rank (aeMain_step l) < loop_rank l)%nat) /\ (pc l = Ended -> pc (aeMain_step l) = Ended).
Proof.
  intros (H1 & H2 & H3). destruct l as [p b]. unfold entered, aeMain_step, loop_rank in *. cbn in *.
  destruct p, b; cbn; split_and!; try done; try lia.
Qed.

(** Who has to go on for the server to stop. *)
Definition critical (s : process) : actor :=
  match reading s with
  | Some _ => StorerCreate
  | None =>
      match signal s with
      | JoiningThread k => match threads s !! k with Some l => if decide (pc l = Ended) then Signal else Thread k | None => Signal end
      | Returned => Main
      | _ => Signal
      end
  end.

(** A step that takes nothing from the rank leaves who has to go on. *)
Definition progress (a : actor) (s s' : process) : Prop :=
  stopping s' /\ (rank s' <= rank s)%nat /\ (rank s' = rank s -> (main s <> Exited -> a <> critical s) /\ critical s' = critical s /\ main s' = main s).

Lemma progress_refl a s : stopping s -> (main s <> Exited -> a <> critical s) -> progress a s s.
Proof. by intros. Qed.

Lemma progress_less a s s' : stopping s' -> (rank s' < rank s)%nat -> progress a s s'.
Proof. intros. split; [done|]. lia. Qed.

(** One thread changes. *)
Lemma stopping_thread s k l l' : stopping s -> threads s !! k = Some l -> entered l' -> (stop l = true -> stop l' = true) ->
  inv (with_threads (<[k := l']> (threads s)) s) -> stopping (with_threads (<[k := l']> (threads s)) s).
Proof.
  intros [H1 H2 H3 H4 H5 H6] Hk Hl Hst Hi. split; try done; cbn.
  - intros i x. rewrite list_lookup_insert_Some. intros [(-> & -> & _)|[_ Hx]]; [done|by eapply H5].
  - intros j x Ej. rewrite list_lookup_insert_Some. intros [(-> & -> & _)|[_ Hx]]; [eapply Hst, H6; done|by eapply H6].
Qed.

Lemma thread_progress k s : stopping s -> exists s', thread_step k s = Some s' /\ progress (Thread k) s s'.
Proof.
  intros H. destruct (thread_ok k s (sg_inv _ H)) as (s' & E & Hi). exists s'. split; [done|]. pose proof E as E'. unfold thread_step in E'.
  assert ((reading s <> None \/ threads s !! k = None \/ (exists l, threads s !! k = Some l /\ pc l = Ended)) -> Some s = Some s' -> progress (Thread k) s s') as Hsame.
  { intros Hc [= <-]. apply progress_refl; [done|]. intros _. unfold critical. destruct (reading s); [done|]. destruct (signal s) eqn:Es; try done.
    destruct Hc as [Hc|[Hc|(l & Hl & He)]]; [done|..].
    - destruct (threads s !! k0) as [l|] eqn:El; [|done]. destruct (decide (pc l = Ended)); [done|]. congruence.
    - destruct (threads s !! k0) as [l0|] eqn:El; [|done]. destruct (decide (pc l0 = Ended)); [done|]. congruence. }
  destruct (threads s !! k) as [l|] eqn:El; [|by apply Hsame; [auto|]]. pose proof (sg_threads _ H _ _ El) as Hent.
  destruct (decide (pc l = NotStarted \/ pc l = Ended \/ pc l = Refused)) as [Hpc|Hpc].
  { destruct Hent as (? & ? & ?). apply Hsame; [|done]. right. right. exists l. tauto. }
  assert (pc l <> NotStarted /\ pc l <> Ended) as [Hn He] by tauto. rewrite (kids_alive _ _ _ (sg_inv _ H) El Hn He) in E'. cbn [negb] in E'.
  assert (s' = s /\ reading s <> None \/ s' = with_threads (<[k := aeMain_step l]> (threads s)) s /\ (k = workers -> reading s = None)) as [[-> Hr]|[-> Hr]].
  { destruct (decide (k = storer_index s)) as [Ek|Ek]; [destruct (reading s)|]; injection E' as <-; auto.
    right. split; [done|]. rewrite storer_last in Ek by apply H. done. }
  { apply Hsame; auto. }
  destruct (loop_step l Hent) as (Hent' & Hst & Hle & Hlt & _). pose proof (rank_thread s k l (aeMain_step l) El) as Hsum.
  assert (stopping (with_threads (<[k := aeMain_step l]> (threads s)) s)) as Hs' by (apply (stopping_thread s k l); try done; by rewrite Hst).
  destruct (stop l) eqn:Est.
  { apply progress_less; [done|]. specialize (Hlt eq_refl He). lia. }
  assert (forall j, signal s = JoiningThread j -> j <> k) as Hj.
  { intros j Ej ->. pose proof (sg_join _ H _ _ Ej El). congruence. }
  split; [done|]. split; [lia|].
  intros _. split_and!; [| |done].
  - intros _. unfold critical. destruct (reading s); [done|]. destruct (signal s) eqn:Es; try done. destruct (threads s !! k0) as [x|]; [|done].
    destruct (decide (pc x = Ended)); [done|]. intros [= <-]. by apply (Hj k).
  - unfold critical. cbn. destruct (reading s); [done|]. destruct (signal s) eqn:Es; try done. rewrite list_lookup_insert_ne; [done|]. intros ->. by apply (Hj k0).
Qed.

Lemma stopping_same s s' : stopping s -> inv s' -> signal s' = signal s -> main s' = main s -> master s' = master s -> threads s' = threads s -> stopping s'.
Proof.
  intros [H1 H2 H3 H4 H5 H6] Hi Es Em Ea Et. split; [done|by rewrite Es| |by rewrite Ea|by rewrite Et|by rewrite Es, Et].
  unfold serving. by rewrite Em.
Qed.

Lemma storer_cron_progress s : stopping s -> exists s', cron_step s = Some s' /\ progress StorerCron s s'.
Proof.
  intros H. destruct (storer_cron_step_ok s (sg_inv _ H)) as (s' & E & Hi). exists s'. split; [done|]. unfold cron_step in E.
  assert (StorerCron <> critical s) as Hc.
  { unfold critical. destruct (reading s); [done|]. destruct (signal s); try done. destruct (threads s !! k) as [l|]; [|done]. by destruct (decide _). }
  destruct (threads s !! storer_index s) as [l|]; [|injection E as <-; by apply progress_refl].
  destruct (decide (pc l = Inside /\ reading s = None)) as [[_ Hr]|]; [|injection E as <-; by apply progress_refl].
  destruct (kids s); cbn [negb] in E; [|done]. destruct (conf_loaded_ s) eqn:El; injection E as <-; [by apply progress_refl|].
  apply progress_less; [by eapply stopping_same|]. unfold rank, conf_rank. cbn. rewrite El, Hr.
  change (signal_rank (with_conf _ _ _ _ s)) with (signal_rank s). change (main_rank (with_conf _ _ _ _ s)) with (main_rank s). lia.
Qed.

Lemma create_progress s : stopping s -> exists s', create_step s = Some s' /\ progress StorerCreate s s'.
Proof.
  intros H. destruct (store_create_ok s (sg_inv _ H)) as (s' & E & Hi). exists s'. split; [done|]. unfold create_step in E.
  destruct (reading s) as [p|] eqn:Er.
  - destruct (contexts s !! p) as [c|]; [|done]. cbn [mbind option_bind] in E. destruct (store_of c); [|done]. cbn [mbind option_bind] in E. injection E as <-.
    apply progress_less; [by eapply stopping_same|]. unfold rank, conf_rank. cbn. rewrite Er.
    change (signal_rank (with_conf _ _ _ _ s)) with (signal_rank s). change (main_rank (with_conf _ _ _ _ s)) with (main_rank s). lia.
  - injection E as <-. apply progress_refl; [done|]. intros _. unfold critical. rewrite Er. destruct (signal s); try done.
    destruct (threads s !! k) as [l|]; [|done]. by destruct (decide _).
Qed.

(** Only the signal thread's own state changes. *)
Lemma stopping_signal s x : stopping s -> inv (with_signal x s) -> match x with Stopping _ | Returned => True | _ => False end -> stopping (with_signal x s).
Proof. intros [H1 H2 H3 H4 H5 H6] Hi Hx. split; try done; cbn; [by destruct x|]. intros k l ->. done. Qed.

Lemma signal_progress s : stopping s -> exists s', signal_step s = Some s' /\ progress Signal s s'.
Proof.
  intros H. destruct (signal_ok_step s (sg_inv _ H)) as (s' & E & Hi). exists s'. split; [done|]. unfold signal_step in E.
  pose proof (iv_length _ (sg_inv _ H)) as Hlen. pose proof (iv_signal _ (sg_inv _ H)) as [_ Hsig]. pose proof (sg_signal _ H) as Hst.
  destruct (signal s) as [| | | |k|k|] eqn:Es; try done.
  - destruct (threads s !! k) as [l|] eqn:El; injection E as <-.
    + apply progress_less.
      * pose proof (sg_threads _ H _ _ El) as Hl. destruct H as [H1 H2 H3 H4 H5 H6]. split; try done; cbn.
        -- intros i x. rewrite list_lookup_insert_Some. intros [(_ & <- & _)|[_ Hx]]; [exact Hl|by eapply H5].
        -- intros j x [= ->]. rewrite list_lookup_insert_Some. by intros [(_ & <- & _)|[? _]].
      * pose proof (rank_thread s k l (stop_loop l) El) as Hr. assert (loop_rank (stop_loop l) <= loop_rank l)%nat as Hle.
        { unfold loop_rank, stop_loop. cbn. destruct (stop l); [done|]. destruct (pc l); lia. }
        unfold rank in *. cbn [threads master with_signal with_threads] in *.
        change (main_rank (with_signal _ _)) with (main_rank s). change (conf_rank (with_signal _ _)) with (conf_rank s).
        change (main_rank (with_threads _ _)) with (main_rank s) in Hr. change (conf_rank (with_threads _ _)) with (conf_rank s) in Hr.
        change (signal_rank (with_threads _ _)) with (signal_rank s) in Hr. unfold signal_rank in *. rewrite Es in *. cbn [signal with_signal]. lia.
    + apply progress_less; [by apply stopping_signal|]. unfold rank, signal_rank. rewrite Es. cbn [threads master signal with_signal].
      change (main_rank (with_signal _ _)) with (main_rank s). change (conf_rank (with_signal _ _)) with (conf_rank s). lia.
  - destruct Hsig as [Hk _]. destruct (threads s !! k) as [l|] eqn:El; [|done]. cbn [mbind option_bind] in E.
    assert (pc l <> Ended -> progress Signal s s) as Hsame.
    { intros Hp. apply progress_refl; [done|]. intros _. unfold critical. destruct (reading s); [done|]. rewrite Es, El. by rewrite decide_False. }
    destruct (pc l) eqn:Ep; try done; injection E as <-; try (by apply Hsame).
    apply progress_less; [by apply stopping_signal|]. unfold rank, signal_rank. rewrite Es. cbn [threads master signal with_signal].
    change (main_rank (with_signal _ _)) with (main_rank s). change (conf_rank (with_signal _ _)) with (conf_rank s). lia.
  - injection E as <-. apply progress_refl; [done|]. intros _. unfold critical. destruct (reading s); [done|]. by rewrite Es.
Qed.

(** The main thread, in its loop and after it. *)
Lemma main_progress s : stopping s -> exists s', main_step true s = Some s' /\ progress Main s s'.
Proof.
  intros H. destruct (main_step_ok true s (sg_inv _ H)) as (s' & E & Hi). exists s'. split; [done|]. unfold main_step in E.
  pose proof H as [H1 H2 H3 [H4 H4'] H5 H6]. unfold serving in H3. pose proof (iv_main _ H1) as Hm. unfold main_ok in Hm.
  destruct (main s) as [| | | | |] eqn:Em; try done.
  - destruct (loop_step (master s) H4) as (Hent & Hst & Hle & Hlt & Hend). rewrite H4' in Hst.
    assert (stopping s') as Hs by (destruct (decide (pc (aeMain_step (master s)) = Ended)); injection E as <-; split; try done; unfold serving; cbn; by rewrite ?Em).
    apply progress_less; [done|]. destruct (decide (pc (aeMain_step (master s)) = Ended)) as [He|He]; injection E as <-; unfold rank, main_rank; rewrite Em;
      cbn [threads master main with_main with_master]; rewrite ?Em.
    + change (signal_rank (with_main _ _)) with (signal_rank s). change (conf_rank (with_main _ _)) with (conf_rank s). lia.
    + change (signal_rank (with_master _ _)) with (signal_rank s). change (conf_rank (with_master _ _)) with (conf_rank s).
      assert (loop_rank (aeMain_step (master s)) < loop_rank (master s))%nat by (apply Hlt; [done|]; intros Ee; by apply He, Hend). lia.
  - destruct (signal s) eqn:Es; try done; injection E as <-.
    + apply progress_refl; [done|]. intros _. unfold critical. destruct (reading s); [done|]. by rewrite Es.
    + apply progress_refl; [done|]. intros _. unfold critical. destruct (reading s); [done|]. rewrite Es. destruct (threads s !! k) as [l|]; [|done].
      by destruct (decide _).
    + apply progress_less; [split; try done; cbn; rewrite Es; done|]. unfold rank, main_rank. rewrite Em. cbn [threads master main with_main].
      change (signal_rank (with_main _ _)) with (signal_rank s). change (conf_rank (with_main _ _)) with (conf_rank s). lia.
  - destruct Hm as (_ & Es & _ & Ha). cbn [delete_context] in E. destruct (contexts s !! main_ctx s); [|done]. cbn [mbind option_bind] in E.
    injection E as <-. apply progress_less; [split; try done; cbn; rewrite Es; done|]. unfold rank, main_rank. rewrite Em. cbn [threads master main with_main with_kids with_contexts].
    change (signal_rank (with_main _ _)) with (signal_rank s). change (conf_rank (with_main _ _)) with (conf_rank s). lia.
  - injection E as <-. apply progress_refl; [done|]. by intros [].
Qed.

(** No thread is started any more. *)
Lemma refused_progress s : stopping s -> exists s', main_step false s = Some s' /\ progress MainRefused s s'.
Proof.
  intros H. destruct (main_progress s H) as (s' & E & Hs & Hle & Heq). exists s'. split.
  - rewrite <- E. pose proof (sg_main _ H) as Hm. unfold main_step, serving in *. by destruct (main s).
  - split_and!; [done|done|]. intros Er. destruct (Heq Er) as (_ & H2 & H3). split_and!; [|done|done]. intros _. unfold critical.
    destruct (reading s); [done|]. destruct (signal s); try done. destruct (threads s !! k) as [l|]; [|done]. by destruct (decide _).
Qed.

Lemma step_progress a s : stopping s -> exists s', step a s = Some s' /\ progress a s s'.
Proof.
  intros H. destruct a as [| |k| | | | |file]; cbn [step].
  - by apply main_progress.
  - by apply refused_progress.
  - by apply thread_progress.
  - by apply storer_cron_progress.
  - by apply create_progress.
  - by apply signal_progress.
  - exists s. split; [unfold term_step; pose proof (sg_signal _ H); by destruct (signal s)|]. apply progress_refl; [done|]. intros _. unfold critical.
    destruct (reading s); [done|]. destruct (signal s); try done. destruct (threads s !! k) as [l|]; [|done]. by destruct (decide _).
  - exists s. split; [unfold hup_step; pose proof (sg_signal _ H); by destruct (signal s)|]. apply progress_refl; [done|]. intros _. unfold critical.
    destruct (reading s); [done|]. destruct (signal s); try done. destruct (threads s !! k) as [l|]; [|done]. by destruct (decide _).
Qed.

(** Every thread has a turn, and so has the storer's creation of a store. *)
Definition round (l : list actor) : Prop := Main ∈ l /\ Signal ∈ l /\ StorerCreate ∈ l /\ forall k, (k < S workers)%nat -> Thread k ∈ l.

Lemma critical_in_round l s : stopping s -> round l -> critical s ∈ l.
Proof.
  intros H (Hm & Hs & Hc & Ht). unfold critical. destruct (reading s); [done|]. destruct (signal s) eqn:Es; try done.
  destruct (threads s !! k) as [x|] eqn:Ek; [|done]. destruct (decide _); [done|]. apply Ht. rewrite <- (iv_length _ (sg_inv _ H)). by eapply lookup_lt_Some.
Qed.

Lemma steps_stopping l : forall s, stopping s -> exists s', steps l s = Some s' /\ stopping s' /\ (rank s' <= rank s)%nat
  /\ (main s <> Exited -> critical s ∈ l -> (rank s' < rank s)%nat).
Proof.
  induction l as [|a l IH]; intros s H; cbn [steps].
  - exists s. split_and!; [done|done|done|]. intros _ Hin. by apply not_elem_of_nil in Hin.
  - destruct (step_progress a s H) as (s1 & -> & H1 & Hle & Heq). cbn [mbind option_bind]. destruct (IH s1 H1) as (s' & E & H' & Hle' & Hlt').
    exists s'. split_and!; [done|done|lia|]. intros Hx Hin. destruct (decide (rank s1 = rank s)) as [Er|Er]; [|lia].
    destruct (Heq Er) as (Hne & Hcr & Hmain). rewrite <- Er. apply Hlt'; [congruence|]. rewrite Hcr. apply elem_of_cons in Hin as [Hin|Hin]; [|done].
    exfalso. by eapply Hne.
Qed.

(** Nothing brings the main thread back. *)
Lemma exited_step a s s' : main s = Exited -> step a s = Some s' -> main s' = Exited.
Proof.
  intros Hm. destruct a as [| |k| | | | |file]; cbn [step].
  - unfold main_step. rewrite Hm. by intros [= <-].
  - unfold main_step. rewrite Hm. by intros [= <-].
  - unfold thread_step. destruct (threads s !! k) as [l|]; [|by intros [= <-]]. destruct (decide _); [by intros [= <-]|]. destruct (kids s); [|done]. cbn [negb].
    destruct (decide _); [destruct (reading s)|]; by intros [= <-].
  - unfold cron_step. destruct (threads s !! _) as [l|]; [|by intros [= <-]]. destruct (decide _); [|by intros [= <-]]. destruct (kids s); [|done]. cbn [negb].
    destruct (conf_loaded_ s); by intros [= <-].
  - unfold create_step. destruct (reading s) as [p|]; [|by intros [= <-]]. destruct (contexts s !! p) as [c|]; [|done]. cbn [mbind option_bind].
    destruct (store_of c); [|done]. by intros [= <-].
  - unfold signal_step, delete_context. destruct (signal s) as [|c|c| |k|k|]; try by intros [= <-].
    + destruct (ctx s) as [g|]; [destruct (contexts s !! g)|]; cbn [mbind option_bind]; try done; by intros [= <-].
    + destruct (kids s); [|done]. destruct (contexts s !! c) as [x|]; [|done]. cbn [mbind option_bind]. destruct (store_of x); [|done]. by intros [= <-].
    + destruct (kids s); [|done]. by intros [= <-].
    + destruct (threads s !! k); by intros [= <-].
    + destruct (threads s !! k) as [l|]; [|done]. cbn [mbind option_bind]. destruct (pc l); try done; by intros [= <-].
  - unfold term_step. destruct (signal s), (kids s); try done; by intros [= <-].
  - unfold hup_step. destruct (signal s); try by intros [= <-]. destruct (ParseConfigFile file) as [c|]; [|done]. cbn [mbind option_bind].
    destruct (ctx_success c); [destruct (store_of c); [|done]|]; by intros [= <-].
Qed.

Lemma exited_steps l : forall s, stopping s -> main s = Exited -> exists s', steps l s = Some s' /\ main s' = Exited.
Proof.
  induction l as [|a l IH]; intros s H Hm; cbn [steps]; [by exists s|]. destruct (step_progress a s H) as (s1 & E & H1 & _). rewrite E.
  cbn [mbind option_bind]. apply IH; [done|]. by eapply exited_step.
Qed.

(** As many rounds as the rank are enough. *)
Lemma rounds_exit rounds : forall s, stopping s -> Forall round rounds -> (rank s <= length rounds)%nat ->
  exists s', steps (concat rounds) s = Some s' /\ main s' = Exited.
Proof.
  induction rounds as [|l rounds IH]; intros s H Hr Hle.
  - exists s. split; [done|]. pose proof (sg_main _ H) as Hm. unfold serving, rank, main_rank in *. cbn [length] in Hle. destruct (main s); try done; lia.
  - destruct (decide (main s = Exited)) as [Ex|Ex]; [by apply exited_steps|].
    apply Forall_cons in Hr as [Hl Hr]. destruct (steps_stopping l s H) as (s1 & E1 & H1 & Hle1 & Hlt1). cbn [concat]. rewrite steps_app, E1. cbn [mbind option_bind].
    apply IH; [done|done|]. specialize (Hlt1 Ex (critical_in_round l s H Hl)). cbn [length] in Hle. lia.
Qed.

Lemma loops_rank ls : (sum_list_with loop_rank ls <= 3 * length ls)%nat.
Proof.
  induction ls as [|l ls IH]; [done|]. cbn [sum_list_with length]. assert (loop_rank l <= 3)%nat by (unfold loop_rank; destruct (stop l), (pc l); lia). lia.
Qed.

(** C16. When SIGTERM comes after every loop was entered, the process ends: whatever the threads
    do in between, 5n + 14 rounds in which each of them has a turn are enough for n workers. *)
Theorem shutdown_completes s rounds : reachable s -> main s = Serving -> signal s = Waiting -> entered (master s) -> Forall entered (threads s) ->
  Forall round rounds -> (5 * workers + 14 <= length rounds)%nat ->
  exists s', steps (Term :: concat rounds) s = Some s' /\ main s' = Exited.
Proof.
  intros Hreach Hm Hs Hma Hth Hr Hlen. pose proof (reachable_inv s Hreach) as H. assert (serving s = true) as Hsv by (unfold serving; by rewrite Hm).
  assert (all_created s) as Hcr by (eapply Forall_impl; [exact Hth|]; by intros l (_ & _ & ?)).
  destruct (term_ok s H (conj Hsv Hcr)) as (s1 & E1 & H1). pose proof E1 as E. unfold term_step in E. rewrite Hs in E. destruct (kids s); [|done]. injection E as <-.
  cbn [steps step]. rewrite E1. cbn [mbind option_bind]. rewrite Forall_lookup in Hth. apply rounds_exit; [split; try done|done|].
  pose proof (loops_rank (threads s)) as Hl. rewrite (iv_length _ H) in Hl. unfold rank, main_rank, signal_rank, conf_rank.
  cbn [threads master signal main conf_loaded_ reading with_signal with_master]. rewrite Hm.
  assert (loop_rank (stop_loop (master s)) <= 2)%nat by (unfold loop_rank; cbn; destruct (pc (master s)); lia). destruct (conf_loaded_ s), (reading s); lia.
Qed.
End runs.

(** ** A stop that is lost *)

(** [aeMain] clears the flag: a thread that was told to stop before it entered
    its loop never stops, and the signal thread waits for it. *)
Definition hangs (s : process) : Prop :=
  exists k l, signal s = JoiningThread k /\ threads s !! k = Some l /\ stop l = false /\ (pc l = Testing \/ pc l = Inside)
    /\ (main s = Serving \/ main s = Joining).

Lemma hangs_loop l : stop l = false -> pc l = Testing \/ pc l = Inside ->
  stop (aeMain_step l) = false /\ (pc (aeMain_step l) = Testing \/ pc (aeMain_step l) = Inside).
Proof. unfold aeMain_step. intros Hs [->| ->]; rewrite ?Hs; cbn; auto. Qed.

Lemma hangs_step a s s' : hangs s -> step a s = Some s' -> hangs s'.
Proof.
  intros (k & l & Es & El & Hst & Hpc & Hm). assert (pc l <> Ended /\ pc l <> NotStarted) as [He Hn] by (by destruct Hpc as [E|E]; rewrite E).
  assert (forall f : process, signal f = signal s -> threads f = threads s -> main f = Serving \/ main f = Joining -> hangs f) as Hsame.
  { intros f H1 H2 H3. exists k, l. by rewrite H1, H2. }
  assert (forall created, main_step created s = Some s' -> hangs s') as Hmain.
  { intros created. unfold main_step. destruct Hm as [Em|Em]; rewrite Em.
    - intros [= <-]. destruct (decide _); apply Hsame; cbn; rewrite ?Em; auto.
    - rewrite Es. intros [= <-]. apply Hsame; auto. }
  destruct a as [| |j| | | | |file]; cbn [step].
  - apply Hmain.
  - apply Hmain.
  - unfold thread_step. destruct (threads s !! j) as [x|] eqn:Ej; [|by intros [= <-]; apply Hsame]. destruct (decide _); [by intros [= <-]; apply Hsame|].
    destruct (kids s); [|done]. cbn [negb].
    assert (hangs (with_threads (<[j := aeMain_step x]> (threads s)) s)) as Hh.
    { destruct (decide (j = k)) as [->|Hne].
      - assert (x = l) as -> by congruence. destruct (hangs_loop l Hst Hpc). exists k, (aeMain_step l). cbn.
        rewrite list_lookup_insert_eq by (by eapply lookup_lt_Some). done.
      - exists k, l. cbn. by rewrite list_lookup_insert_ne. }
    destruct (decide _); [destruct (reading s)|]; intros [= <-]; first [exact Hh|by apply Hsame].
  - unfold cron_step. destruct (threads s !! storer_index s) as [x|]; [|by intros [= <-]; apply Hsame]. destruct (decide _); [|by intros [= <-]; apply Hsame].
    destruct (kids s); [|done]. cbn [negb]. destruct (conf_loaded_ s); intros [= <-]; by apply Hsame.
  - unfold create_step. destruct (reading s) as [p|]; [|by intros [= <-]; apply Hsame]. destruct (contexts s !! p) as [c|]; [|done]. cbn [mbind option_bind].
    destruct (store_of c); [|done]. intros [= <-]. by apply Hsame.
  - unfold signal_step. rewrite Es, El. cbn [mbind option_bind]. destruct Hpc as [E|E]; rewrite E; intros [= <-]; by apply Hsame.
  - unfold term_step. rewrite Es. intros [= <-]. by apply Hsame.
  - unfold hup_step. rewrite Es. intros [= <-]. by apply Hsame.
Qed.

Theorem lost_stop_hangs l : forall s s', hangs s -> steps l s = Some s' -> main s' <> Exited.
Proof.
  induction l as [|a l IH]; intros s s' H; cbn [steps]; [intros [= <-]; destruct H as (? & ? & ? & ? & ? & ? & [E|E]); by rewrite E|].
  destruct (step a s) as [s1|] eqn:E; [|done]. cbn [mbind option_bind]. apply IH. by eapply hangs_step.
Qed.

(** ** Examples *)

Section examples.
(** A configuration that is accepted, and one that is not. *)
Definition null_conf : bytes := bs "store null {}".
Definition topic_conf : bytes := bs "store null { topic x; }".
Definition bad_conf : bytes := bs "store {".

(** The main thread starts both threads and all enter their loops. *)
Definition boot : list actor := [Main; Main; Main; Main; Main; Thread 0; Thread 1; Thread 1].

Definition run (l : list actor) : option process := s ← start null_conf 1; steps l s.

(** SIGTERM before the server is there, and while the threads start. *)
Example stop_before_start : run [Term] = None /\ run [Main; Main; Term; Signal; Signal; Main] = None.
Proof. vm_compute. repeat split. Qed.

(** A worker for which there is no thread: the server runs, and when it is
    stopped the signal thread joins what is not there. *)
Definition one_refused : list actor := [Main; Main; MainRefused; Main; Main; Thread 1; Thread 1; Hup topic_conf; Signal; Signal; Signal].
Example thread_refused : is_Some (run one_refused) /\ run (one_refused ++ [Term; Signal; Signal]) = None.
Proof. vm_compute. split; [by eexists|reflexivity]. Qed.

(** A second SIGHUP deletes the configuration that the storer reads. *)
Example reload_while_reading : run (boot ++ [Hup topic_conf; Signal; Signal; Signal; StorerCron; Hup null_conf; Signal; StorerCreate]) = None.
Proof. vm_compute. reflexivity. Qed.

(** A second SIGHUP before the cron, which then runs before [conf_] is set. *)
Example reload_before_cron : run (boot ++ [Hup topic_conf; Signal; Signal; Signal; Hup null_conf; Signal; StorerCron; StorerCreate]) = None.
Proof. vm_compute. reflexivity. Qed.

(** A stop that comes before thread 0 has entered its loop. *)
Example stop_is_lost : exists s, run [Main; Main; Main; Main; Term; Signal; Thread 0] = Some s /\ hangs s.
Proof.
  destruct (run [Main; Main; Main; Main; Term; Signal; Thread 0]) as [s|] eqn:E; [|by vm_compute in E]. exists s. split; [done|].
  vm_compute in E. injection E as <-. exists 0%nat, (Loop Testing false). cbn. split_and!; auto.
Qed.

(** The server with a configuration that was read again. *)
Definition reloaded : list actor := boot ++ [Hup topic_conf; Signal; Signal; Signal; StorerCron; StorerCreate; Hup bad_conf].

Lemma reach_steps l s s' : reachable null_conf 1 s -> Forall (fun a => match a with Term | Hup _ => False | _ => True end) l -> steps l s = Some s' ->
  reachable null_conf 1 s'.
Proof.
  intros H Hl. revert s H. induction Hl as [|a l Ha _ IH]; intros s H; cbn [steps]; [by intros [= <-]|].
  destruct (step a s) as [s1|] eqn:E; [|done]. cbn [mbind option_bind]. apply IH. eapply reach_step; [done| |done]. by destruct a.
Qed.

Definition view (s : process) := (main s, signal s, conf_loaded_ s, reading s, master s, threads s).

(** A run whose state is known in part. *)
Lemma run_view content n l v : view <$> (s ← start content n; steps l s) = Some v ->
  exists s0 s, start content n = Some s0 /\ steps l s0 = Some s /\ (s ← start content n; steps l s) = Some s /\ view s = v.
Proof.
  destruct (start content n) as [s0|]; [|done]. cbn [mbind option_bind]. destruct (steps l s0) as [s|] eqn:E; [|done]. intros [= <-]. by exists s0, s.
Qed.

Lemma booted_view : view <$> (s ← start null_conf 1; steps boot s) = Some (Serving, Waiting, true, None, Loop Testing false, [Loop Testing false; Loop Inside false]).
Proof. vm_compute. reflexivity. Qed.

Lemma booted : exists s, run boot = Some s /\ reachable null_conf 1 s /\ main s = Serving /\ signal s = Waiting /\ quiet s
  /\ entered (master s) /\ Forall entered (threads s) /\ at_pc s 1 (fun x => x = Inside).
Proof.
  destruct (run_view _ _ _ _ booted_view) as (s0 & s & E0 & E & Er & Ev). exists s. split; [exact Er|]. split.
  - refine (reach_steps boot s0 s (reach_start _ _ s0 E0) _ E).
    unfold boot. repeat (apply Forall_cons; split; [exact I|]). apply Forall_nil, I.
  - clear E E0 Er. injection Ev as E1 E2 E3 E4 E5 E6. unfold quiet, entered, at_pc. rewrite E1, E2, E3, E4, E5, E6.
    split_and!; try reflexivity; try discriminate; [|by exists (Loop Inside false)]. repeat (apply Forall_cons; split; [split_and!; discriminate|]). apply Forall_nil, I.
Qed.

Lemma shutdown_safe_witness : exists s s', run boot = Some s /\ step Term s = Some s'.
Proof.
  destruct booted as (s & E & H & Hm & Hs & _ & _ & Hth & _). exists s. destruct (shutdown_safe null_conf 1 s Term H) as [[s' E'] _].
  - split; [unfold serving; rewrite Hm; reflexivity|]. eapply Forall_impl; [exact Hth|]. intros l (_ & _ & Hl). exact Hl.
  - exists s'. split; [exact E|exact E'].
Defined.

Lemma topic_conf_accepted c : ParseConfigFile topic_conf = Some c -> ctx_success c = true.
Proof.
  intros E. assert (option_map ctx_success (ParseConfigFile topic_conf) = Some true) as E1 by (vm_compute; reflexivity). rewrite E in E1.
  clear E. by injection E1.
Qed.

Lemma reload_takes_effect_witness : exists s c s', run boot = Some s /\ ParseConfigFile topic_conf = Some c
  /\ steps [Hup topic_conf; Signal; Signal; Signal; StorerCron; StorerCreate] s = Some s' /\ store_of c = Some (store_ s').
Proof.
  destruct booted as (s & E & H & Hm & Hs & Hq & _ & _ & Hin). exists s.
  destruct (reload_takes_effect null_conf 1 s topic_conf H Hs Hq) as [_ Hr]. destruct Hr as (c & s' & Ec & E' & _ & _ & Hc).
  - unfold serving. rewrite Hm. reflexivity.
  - exact Hin.
  - exists c, s'. rewrite (topic_conf_accepted c Ec) in Hc. destruct Hc as [Hc _]. split; [exact E|]. split; [exact Ec|]. split; [exact E'|exact Hc].
Defined.

Definition test_round : list actor := [Thread 1; Signal; Main; StorerCreate; Thread 0].

Lemma test_round_ok : round 1 test_round.
Proof.
  unfold round, test_round. rewrite !elem_of_cons. split_and!; [tauto..|]. intros [|[|k]] Hk; [rewrite !elem_of_cons; tauto..|lia].
Qed.

Lemma shutdown_completes_witness : exists s s', run boot = Some s
  /\ steps (Term :: concat (replicate 19 test_round)) s = Some s' /\ main s' = Exited.
Proof.
  destruct booted as (s & E & H & Hm & Hs & _ & Hma & Hth & _). exists s.
  destruct (shutdown_completes null_conf 1 s (replicate 19 test_round) H Hm Hs Hma Hth) as (s' & E' & Hx).
  - apply Forall_replicate, test_round_ok.
  - rewrite length_replicate. lia.
  - exists s'. split; [exact E|]. split; [exact E'|exact Hx].
Defined.
End examples.
