(* ===== verification/Startup.v ===== *)
(** * Creating and deleting the server

    The constructors and destructors of [Master], [Worker] and [Storer] with the
    descriptors they open and close.  Whether a call of the system succeeds is
    answered by an oracle; closing a descriptor that is not open, and using an
    event loop that could not be created, is undefined.  What an event loop
    holds is in Setup.v, how sockets are made in Anet.v, and the descriptors of
    the stores are their own. *)

From S2P Require Import Prelude Common.

(** ** The process *)

(** How a computation ends: with a value, by [exit], by an exception that is
    not caught, or without a meaning. *)
Inductive outcome (A : Type) : Type := Done (a : A) | Exit (code : Z) | Uncaught | Undefined.
Arguments Done {_}.
Arguments Exit {_}.
Arguments Uncaught {_}.
Arguments Undefined {_}.

(** Open descriptors, and the calls so far. *)
Record world := World { fds : gset Z; calls : nat }.

Definition proc (A : Type) : Type := world -> outcome (A * world).
#[export] Instance proc_ret : MRet proc := fun A a w => Done (a, w).
#[export] Instance proc_bind : MBind proc := fun A B f m w =>
  match m w with Done (a, w) => f a w | Exit c => Exit c | Uncaught => Uncaught | Undefined => Undefined end.

Definition exit {A} (code : Z) : proc A := fun _ => Exit code.
Definition undefined {A} : proc A := fun _ => Undefined.

(** [LogFatal], after its line. *)
Definition LogFatal {A} : proc A := exit (-1).

Section startup.
Variable os : nat -> bool.
(** Whether an event loop can be had. *)
Variable loops : nat -> bool.
(** The descriptor the system gives: one that is not open. *)
Variable lowest : gset Z -> Z.

(** A call that succeeds or not. *)
Definition call : proc bool := fun w => Done (os (calls w), World (fds w) (S (calls w))).

(** A call that gives a descriptor, or -1. *)
Definition open_when (succeeds : nat -> bool) : proc Z := fun w =>
  let fd := lowest (fds w) in
  Done (if succeeds (calls w) then (fd, World ({[fd]} ∪ fds w) (S (calls w))) else (-1, World (fds w) (S (calls w)))).

Definition open_fd : proc Z := open_when os.

Definition close (fd : Z) : proc unit := fun w =>
  if decide (fd ∈ fds w) then Done (tt, World (fds w ∖ {[fd]}) (calls w)) else Undefined.

Fixpoint close_all (l : list Z) : proc unit :=
  match l with [] => mret tt | fd :: l => close fd ;; close_all l end.

(** [socketpair(AF_UNIX, SOCK_STREAM, 0, noti_socks)] *)
Definition socketpair : proc (option (Z * Z)) := fun w =>
  let a := lowest (fds w) in
  let b := lowest ({[a]} ∪ fds w) in
  Done (if os (calls w) then (Some (a, b), World ({[b]} ∪ ({[a]} ∪ fds w)) (S (calls w))) else (None, World (fds w) (S (calls w)))).

(** An event loop is the descriptor of its queue; nothing for NULL. *)
Definition aeCreateEventLoop : proc (option Z) := fd ← open_when loops; mret (if fd =? -1 then None else Some fd).
Definition aeCreateFileEvent (el : option Z) (fd : Z) : proc bool := match el with Some _ => call | None => undefined end.
Definition aeTimeEvent (el : option Z) : proc unit := match el with Some _ => mret tt | None => undefined end.
Definition aeDeleteEventLoop (el : option Z) : proc unit := match el with Some fd => close fd | None => undefined end.

(** ** Storer and worker *)

(** One pair of sockets for each thread that sends notices: where it writes
    and where they are read. *)
Fixpoint notification_pairs (n : nat) : proc (list (Z * Z)) :=
  match n with
  | O => mret []
  | S n =>
      p ← socketpair;
      match p with
      | None => LogFatal
      | Some p => ps ← notification_pairs n; mret (p :: ps)
      end
  end.

(** An event for each descriptor; the thread does not start without one. *)
Fixpoint register_all (el : option Z) (l : list Z) : proc unit :=
  match l with
  | [] => mret tt
  | fd :: l => ok ← aeCreateFileEvent el fd; if ok : bool then register_all el l else LogFatal
  end.

(** [new int[n]], which throws for a negative length. *)
Definition new_array (n : Z) : proc nat := if n <? 0 then fun _ => Uncaught else mret (Z.to_nat n).

(** The last pair of a worker is for connections; [clients] and
    [conn_queue_] are the descriptors of its clients and of connections that
    are not clients yet. *)
Record Worker := MkWorker {
  w_eventl : option Z;
  msg_pairs : list (Z * Z);
  conn_pair : Z * Z;
  clients : list Z;
  conn_queue_ : list Z;
}.

Definition Worker_Create (num_workers : Z) : proc Worker :=
  el ← aeCreateEventLoop;
  n ← new_array num_workers;
  ps ← notification_pairs n;
  c ← notification_pairs 1;
  match c with
  | [conn] =>
      register_all el [conn.2] ;;
      register_all el (ps.*2) ;;
      aeTimeEvent el ;;
      mret (MkWorker el ps conn [] [])
  | _ => undefined
  end.

Definition pair_fds (p : Z * Z) : list Z := [p.1; p.2].

(** [~Worker]; a client closes its descriptor. *)
Definition Worker_delete (t : Worker) : proc unit :=
  aeTimeEvent (w_eventl t) ;;
  close_all (pair_fds (conn_pair t)) ;;
  close_all (msg_pairs t ≫= pair_fds) ;;
  close_all (clients t) ;;
  aeDeleteEventLoop (w_eventl t).

Record Storer := MkStorer { s_eventl : option Z; s_pairs : list (Z * Z) }.

(** [Storer::Create]; [Store::Create] gives a store or NULL. *)
Definition Storer_Create (store_created : bool) (num_workers : Z) : proc Storer :=
  el ← aeCreateEventLoop;
  n ← new_array num_workers;
  ps ← notification_pairs n;
  if negb store_created then LogFatal
  else
    register_all el (ps.*2) ;;
    aeTimeEvent el ;;
    mret (MkStorer el ps).

Definition Storer_delete (t : Storer) : proc unit :=
  aeTimeEvent (s_eventl t) ;;
  close_all (s_pairs t ≫= pair_fds) ;;
  aeDeleteEventLoop (s_eventl t).

(** ** Master *)

Record Master := MkMaster {
  config_ : Config;
  eventl_ : option Z;
  tcpfd_ : Z;
  unixfd_ : Z;
  storer_ : Storer;
  workers_ : list Worker;
}.

(** The listening sockets of the constructor; the address is bound where
    [tcp_host] is not empty. *)
Definition listen_tcp (conf : Config) : proc Z := if 0 <? listen_port conf then open_fd else mret (-1).
Definition listen_unix (conf : Config) : proc Z := if decide (listen_socket conf = []) then mret (-1) else open_fd.

(** The event of a listening socket, whose failure is logged and no more. *)
Definition accept_event (el : option Z) (fd : Z) : proc unit := if 0 <? fd then _ ← aeCreateFileEvent el fd; mret tt else mret tt.

Fixpoint create_workers (n : nat) (num_workers : Z) : proc (list Worker) :=
  match n with
  | O => mret []
  | S n => t ← Worker_Create num_workers; ts ← create_workers n num_workers; mret (t :: ts)
  end.

(** [Master::Master] and [Master::Create]. *)
Definition Master_Create (conf : Config) (store_created : bool) : proc Master :=
  el ← aeCreateEventLoop;
  tcp ← listen_tcp conf;
  unix ← listen_unix conf;
  if worker_threads conf =? 0 then LogFatal
  else
    accept_event el tcp ;;
    accept_event el unix ;;
    if (tcp =? -1) && (unix =? -1) then LogFatal
    else
      storer ← Storer_Create store_created (worker_threads conf);
      workers ← create_workers (Z.to_nat (worker_threads conf)) (worker_threads conf);
      aeTimeEvent el ;;
      mret (MkMaster conf el tcp unix storer workers).

Fixpoint delete_workers (l : list Worker) : proc unit :=
  match l with [] => mret tt | t :: l => Worker_delete t ;; delete_workers l end.

(** [~Master] *)
Definition Master_delete (m : Master) : proc unit :=
  aeTimeEvent (eventl_ m) ;;
  delete_workers (workers_ m) ;;
  Storer_delete (storer_ m) ;;
  (if 0 <? unixfd_ m then close (unixfd_ m) else mret tt) ;;
  (if 0 <? tcpfd_ m then close (tcpfd_ m) else mret tt) ;;
  aeDeleteEventLoop (eventl_ m).

(** ** What the running server does to descriptors *)

(** The listening socket for TCP or the one for Unix is ready, [admitted] is
    the answer of [ShouldAccept] and worker [i] the one whose turn it is; the
    worker takes its oldest connection; a client is deleted. *)
Inductive devent : Type :=
| DAcceptTcp (admitted : bool) (i : nat)
| DAcceptUnix (i : nat)
| DTake (i : nat)
| DHangup (i j : nat).

Definition with_workers (l : list Worker) (m : Master) : Master :=
  MkMaster (config_ m) (eventl_ m) (tcpfd_ m) (unixfd_ m) (storer_ m) l.

Definition with_connections (cs q : list Z) (t : Worker) : Worker := MkWorker (w_eventl t) (msg_pairs t) (conn_pair t) cs q.

(** [close] of what [anetTcpAccept] gave, which may be -1: that is no
    descriptor, [close] answers EBADF, and nothing changes. *)
Definition close_accepted (fd : Z) : proc unit := if fd =? -1 then _ ← call; mret tt else close fd.

(** [AssignNewConnection] and [PutNewConnection] *)
Definition assign (i : nat) (fd : Z) (m : Master) : proc Master :=
  match workers_ m !! i with
  | Some t => mret (with_workers (<[i := with_connections (clients t) (conn_queue_ t ++ [fd]) t]> (workers_ m)) m)
  | None => undefined
  end.

(** The connection is refused before the result of [accept] is tested. *)
Definition AcceptTcpHandler (admitted : bool) (i : nat) (m : Master) : proc Master :=
  cfd ← open_fd;
  if negb admitted then close_accepted cfd ;; mret m
  else if cfd =? -1 then mret m
  else assign i cfd m.

Definition AcceptUnixHandler (i : nat) (m : Master) : proc Master :=
  cfd ← open_fd;
  if cfd =? -1 then mret m else assign i cfd m.

(** [GetNewConnection]: a client that cannot have its event is deleted. *)
Definition GetNewConnection (i : nat) (m : Master) : proc Master :=
  match workers_ m !! i with
  | Some t =>
      match conn_queue_ t with
      | fd :: q =>
          ok ← aeCreateFileEvent (w_eventl t) fd;
          if ok : bool then mret (with_workers (<[i := with_connections (clients t ++ [fd]) q t]> (workers_ m)) m)
          else close fd ;; mret (with_workers (<[i := with_connections (clients t) q t]> (workers_ m)) m)
      | [] => mret m
      end
  | None => undefined
  end.

(** [~Client] of the [j]-th client of worker [i] *)
Definition delete_client (i j : nat) (m : Master) : proc Master :=
  match workers_ m !! i with
  | Some t =>
      match clients t !! j with
      | Some fd => close fd ;; mret (with_workers (<[i := with_connections (delete j (clients t)) (conn_queue_ t) t]> (workers_ m)) m)
      | None => mret m
      end
  | None => undefined
  end.

Definition dstep (e : devent) : Master -> proc Master :=
  match e with
  | DAcceptTcp admitted i => AcceptTcpHandler admitted i
  | DAcceptUnix i => AcceptUnixHandler i
  | DTake i => GetNewConnection i
  | DHangup i j => delete_client i j
  end.

Fixpoint dsteps (es : list devent) (m : Master) : proc Master :=
  match es with [] => mret m | e :: es => m ← dstep e m; dsteps es m end.
End startup.

(** ** Every descriptor has an owner *)

(** The descriptors of an object, in the order of its destructor. *)
Definition loop_fds (el : option Z) : list Z := match el with Some fd => [fd] | None => [] end.
Definition worker_fds (t : Worker) : list Z := pair_fds (conn_pair t) ++ (msg_pairs t ≫= pair_fds) ++ clients t ++ loop_fds (w_eventl t).
Definition storer_fds (t : Storer) : list Z := (s_pairs t ≫= pair_fds) ++ loop_fds (s_eventl t).
Definition listen_fds (fd : Z) : list Z := if 0 <? fd then [fd] else [].
Definition rest_fds (m : Master) : list Z := storer_fds (storer_ m) ++ listen_fds (unixfd_ m) ++ listen_fds (tcpfd_ m) ++ loop_fds (eventl_ m).

(** Connections that are not clients yet. *)
Definition queued (m : Master) : list Z := workers_ m ≫= conn_queue_.

Section owners.
Variables (os loops : nat -> bool) (lowest : gset Z -> Z).
Hypothesis lowest_new : forall X, 0 <= lowest X /\ lowest X ∉ X.
Hypothesis loops_ok : forall n, loops n = true.
(** What was open before, the standard input among it. *)
Variable X : gset Z.
Hypothesis stdin_open : 0 ∈ X.
(** Why the process may exit. *)
Variable excuse : Prop.
Hypothesis failed_call : forall n, os n = false -> excuse.

(** The open descriptors are those and the ones in the list. *)
Record owns (l : list Z) (w : world) : Prop := {
  own_fds : fds w = X ∪ list_to_set l;
  own_nodup : NoDup l;
  own_new : forall fd, fd ∈ l -> fd ∉ X /\ 0 < fd;
}.

(** The computation is defined; where it ends with a value it has the
    property, where it does not there is a reason. *)
Definition wp {A} (m : proc A) (P : A -> world -> Prop) (w : world) : Prop :=
  match m w with Done (a, w') => P a w' | Exit _ | Uncaught => excuse | Undefined => False end.

Lemma wp_bind {A B} (m : proc A) (f : A -> proc B) P w : wp m (fun a w' => wp (f a) P w') w -> wp (m ≫= f) P w.
Proof. unfold wp, mbind, proc_bind. by destruct (m w) as [[a w']| | |]. Qed.

Lemma wp_ret {A} (a : A) (P : A -> world -> Prop) w : P a w -> wp (mret a) P w.
Proof. done. Qed.

Lemma wp_mono {A} (m : proc A) (P Q : A -> world -> Prop) w : wp m P w -> (forall a w', P a w' -> Q a w') -> wp m Q w.
Proof. unfold wp. destruct (m w) as [[a w']| | |]; auto. Qed.

Lemma owns_perm l l' w : l ≡ₚ l' -> owns l w -> owns l' w.
Proof.
  intros Hp [H1 H2 H3]. split.
  - rewrite H1. f_equal. apply leibniz_equiv. by rewrite Hp.
  - by rewrite <- Hp.
  - intros fd Hfd. apply H3. by rewrite Hp.
Qed.

Lemma owns_calls l w n : owns l w -> owns l (World (fds w) n).
Proof. by intros [H1 H2 H3]. Qed.

(** A new descriptor. *)
Lemma owns_open l w n : owns l w -> let fd := lowest (fds w) in 0 < fd /\ owns (fd :: l) (World ({[fd]} ∪ fds w) n).
Proof.
  intros [H1 H2 H3] fd. destruct (lowest_new (fds w)) as [Hp Hn]. fold fd in Hp, Hn. rewrite H1, elem_of_union, elem_of_list_to_set in Hn.
  assert (fd ∉ X /\ fd ∉ l) as [HX Hl] by tauto. assert (0 < fd) as H0 by (assert (fd <> 0) by (intros E; by rewrite E in HX); lia).
  split; [done|]. split; cbn [fds].
  - rewrite H1. cbn [list_to_set foldr]. set_solver.
  - by apply NoDup_cons.
  - intros x Hx. apply elem_of_cons in Hx as [->|Hx]; [done|by apply H3].
Qed.

Lemma wp_open_fd l w P : owns l w -> (forall w', os (calls w) = false -> owns l w' -> P (-1) w') ->
  (forall fd w', 0 < fd -> owns (fd :: l) w' -> P fd w') -> wp (open_fd os lowest) P w.
Proof.
  intros H H1 H2. unfold wp, open_fd, open_when. destruct (os (calls w)) eqn:E.
  - destruct (owns_open l w (S (calls w)) H) as [Hp Ho]. by apply H2.
  - apply H1; [done|]. by apply owns_calls.
Qed.

Lemma wp_socketpair l w P : owns l w -> (forall w', excuse -> P None w') ->
  (forall p w', owns (pair_fds p ++ l) w' -> P (Some p) w') -> wp (socketpair os lowest) P w.
Proof.
  intros H H1 H2. unfold wp, socketpair. destruct (os (calls w)) eqn:E; [|apply H1; by eapply failed_call].
  destruct (owns_open l w 0 H) as [_ Ho]. destruct (owns_open _ _ (S (calls w)) Ho) as [_ Ho']. apply H2. cbn [pair_fds fst snd app].
  eapply owns_perm; [apply perm_swap|exact Ho'].
Qed.

Lemma wp_loop l w P : owns l w -> (forall fd w', owns (fd :: l) w' -> P (Some fd) w') -> wp (aeCreateEventLoop loops lowest) P w.
Proof.
  intros H HP. unfold aeCreateEventLoop. apply wp_bind. unfold wp at 1, open_when. rewrite loops_ok. destruct (owns_open l w (S (calls w)) H) as [Hp Ho].
  apply wp_ret. destruct (lowest (fds w) =? -1) eqn:E; [lia|]. by apply HP.
Qed.

Lemma wp_event l w P el fd : owns l w -> (forall b w', (b = false -> excuse) -> owns l w' -> P b w') -> wp (aeCreateFileEvent os (Some el) fd) P w.
Proof. intros H HP. cbn. unfold wp, call. apply HP; [apply failed_call|]. by apply owns_calls. Qed.

Lemma owns_close l l' w fd n : owns l w -> l ≡ₚ fd :: l' -> fd ∈ fds w /\ owns l' (World (fds w ∖ {[fd]}) n).
Proof.
  intros H Hp. apply (owns_perm _ _ _ Hp) in H as [H1 H2 H3]. apply NoDup_cons in H2 as [Hn H2]. split; [rewrite H1; cbn; set_solver|]. split; cbn [fds].
  - rewrite H1. destruct (H3 fd) as [HX _]; [by left|]. cbn [list_to_set foldr]. set_solver.
  - done.
  - intros x Hx. apply H3. by right.
Qed.

Lemma wp_close l l' w P fd : owns l w -> l ≡ₚ fd :: l' -> (forall w', owns l' w' -> P tt w') -> wp (close fd) P w.
Proof.
  intros H Hp HP. destruct (owns_close _ _ _ _ (calls w) H Hp) as [Hin Ho]. unfold wp, close. rewrite decide_True by done. by apply HP.
Qed.

Lemma wp_close_all ls : forall l' w P, owns (ls ++ l') w -> (forall w', owns l' w' -> P tt w') -> wp (close_all ls) P w.
Proof.
  induction ls as [|fd ls IH]; intros l' w P H HP; cbn [close_all]; [apply wp_ret; by apply HP|].
  apply wp_bind. apply (wp_close _ (ls ++ l') _ _ fd H); [done|]. intros w' Hw'. by eapply IH.
Qed.

(** ** Creation *)

Lemma wp_pairs n : forall l w P, owns l w -> (forall ps w', length ps = n -> owns ((ps ≫= pair_fds) ++ l) w' -> P ps w') ->
  wp (notification_pairs os lowest n) P w.
Proof.
  induction n as [|n IH]; intros l w P H HP; cbn [notification_pairs]; [by apply wp_ret, HP|].
  apply wp_bind, (wp_socketpair l); [done|done|]. intros p w1 H1. apply wp_bind, (IH _ _ _ H1). intros ps w2 Hlen H2. apply wp_ret, HP; [by rewrite <- Hlen|].
  cbn [mbind list_bind]. eapply owns_perm; [|exact H2]. rewrite <- app_assoc. apply Permutation_app_swap_app.
Qed.

Lemma wp_register fds' : forall l w P el, owns l w -> (forall w', owns l w' -> P tt w') -> wp (register_all os (Some el) fds') P w.
Proof.
  induction fds' as [|fd fds' IH]; intros l w P el H HP; cbn [register_all]; [by apply wp_ret, HP|].
  apply wp_bind, (wp_event l); [done|]. intros [] w' Hb Hw'; [by eapply IH|]. by apply Hb.
Qed.

Lemma wp_new_array n w P : (n < 0 -> excuse) -> (0 <= n -> P (Z.to_nat n) w) -> wp (new_array n) P w.
Proof. unfold new_array. intros H1 H2. destruct (n <? 0) eqn:E; [apply H1; lia|]. apply wp_ret, H2. lia. Qed.

Lemma wp_worker n l w P : (n < 0 -> excuse) -> owns l w ->
  (forall t w', owns (worker_fds t ++ l) w' -> is_Some (w_eventl t) -> conn_queue_ t = [] -> length (msg_pairs t) = Z.to_nat n -> P t w') ->
  wp (Worker_Create os loops lowest n) P w.
Proof.
  intros Hn H HP. unfold Worker_Create. apply wp_bind, (wp_loop l); [done|]. intros el w1 H1. apply wp_bind, wp_new_array; [done|]. intros Hn0.
  apply wp_bind, (wp_pairs _ _ _ _ H1). intros ps w2 Hlen H2. apply wp_bind, (wp_pairs _ _ _ _ H2). intros c w3 Hc H3.
  destruct c as [|conn [|? ?]]; [done| |done]. apply wp_bind, (wp_register _ _ _ _ _ H3). intros w4 H4.
  apply wp_bind, (wp_register _ _ _ _ _ H4). intros w5 H5. apply wp_bind. apply wp_ret, wp_ret, HP; [|done|done|done].
  unfold worker_fds. cbn [conn_pair msg_pairs clients w_eventl loop_fds mbind list_bind] in *. rewrite app_nil_r in H5.
  by rewrite !app_nil_l, <- !app_assoc.
Qed.

Lemma wp_storer sc n l w P : (n < 0 -> excuse) -> (sc = false -> excuse) -> owns l w ->
  (forall t w', owns (storer_fds t ++ l) w' -> is_Some (s_eventl t) -> P t w') -> wp (Storer_Create os loops lowest sc n) P w.
Proof.
  intros Hn Hsc H HP. unfold Storer_Create. apply wp_bind, (wp_loop l); [done|]. intros el w1 H1. apply wp_bind, wp_new_array; [done|]. intros Hn0.
  apply wp_bind, (wp_pairs _ _ _ _ H1). intros ps w2 Hlen H2. destruct sc; cbn [negb]; [|by apply Hsc].
  apply wp_bind, (wp_register _ _ _ _ _ H2). intros w3 H3. apply wp_bind, wp_ret, wp_ret, HP; [|done]. unfold storer_fds. cbn. by rewrite <- app_assoc.
Qed.

Lemma wp_workers k n : forall l w P, (n < 0 -> excuse) -> owns l w ->
  (forall ts w', owns ((ts ≫= worker_fds) ++ l) w' -> Forall (fun t => is_Some (w_eventl t)) ts -> (ts ≫= conn_queue_) = [] -> length ts = k -> P ts w') ->
  wp (create_workers os loops lowest k n) P w.
Proof.
  induction k as [|k IH]; intros l w P Hn H HP; cbn [create_workers]; [by apply wp_ret, HP|].
  apply wp_bind, (wp_worker n l); [done|done|]. intros t w1 H1 Hel Hq _. apply wp_bind, (IH _ _ _ Hn H1). intros ts w2 H2 Hels Hqs Hlen.
  apply wp_ret, HP; [|by constructor| |by rewrite <- Hlen].
  - cbn [mbind list_bind]. eapply owns_perm; [|exact H2]. rewrite <- app_assoc. apply Permutation_app_swap_app.
  - cbn [mbind list_bind]. rewrite Hq. exact Hqs.
Qed.

Record master_ok (l : list Z) (m : Master) (w : world) : Prop := {
  mk_owns : owns (queued m ++ (workers_ m ≫= worker_fds) ++ rest_fds m ++ l) w;
  mk_loops : Forall (fun t => is_Some (w_eventl t)) (workers_ m);
  mk_loop : is_Some (eventl_ m) /\ is_Some (s_eventl (storer_ m));
}.

(** Why a server may not be created. *)
Definition cannot_start (conf : Config) (sc : bool) : Prop :=
  worker_threads conf <= 0 \/ sc = false \/ (listen_port conf <= 0 /\ listen_socket conf = []) \/ exists n, os n = false.

Lemma wp_listen_tcp conf l w P : owns l w -> (forall fd w', (fd = -1 -> listen_port conf <= 0 \/ exists n, os n = false) -> fd = -1 \/ 0 < fd ->
  owns (listen_fds fd ++ l) w' -> P fd w') -> wp (listen_tcp os lowest conf) P w.
Proof.
  intros H HP. unfold listen_tcp. destruct (0 <? listen_port conf) eqn:E.
  - apply (wp_open_fd l); [done|..].
    + intros w' Hos Hw'. apply HP; [right; by eexists|by left|done].
    + intros fd w' Hfd Hw'. apply HP; [lia|by right|]. unfold listen_fds. by rewrite (proj2 (Z.ltb_lt 0 fd)).
  - apply wp_ret, HP; [left; lia|by left|done].
Qed.

Lemma wp_listen_unix conf l w P : owns l w -> (forall fd w', (fd = -1 -> listen_socket conf = [] \/ exists n, os n = false) -> fd = -1 \/ 0 < fd ->
  owns (listen_fds fd ++ l) w' -> P fd w') -> wp (listen_unix os lowest conf) P w.
Proof.
  intros H HP. unfold listen_unix. destruct (decide (listen_socket conf = [])) as [E|E].
  - apply wp_ret, HP; [by left|by left|done].
  - apply (wp_open_fd l); [done|..].
    + intros w' Hos Hw'. apply HP; [right; by eexists|by left|done].
    + intros fd w' Hfd Hw'. apply HP; [lia|by right|]. unfold listen_fds. by rewrite (proj2 (Z.ltb_lt 0 fd)).
Qed.

Lemma wp_accept_event l w P el fd : owns l w -> (forall w', owns l w' -> P tt w') -> wp (accept_event os (Some el) fd) P w.
Proof.
  intros H HP. unfold accept_event. destruct (0 <? fd); [|by apply wp_ret, HP].
  apply wp_bind, (wp_event l); [done|]. intros b w' _ Hw'. by apply wp_ret, HP.
Qed.

Lemma wp_master conf sc l w P : (cannot_start conf sc -> excuse) -> owns l w ->
  (forall m w', master_ok l m w' -> queued m = [] -> length (workers_ m) = Z.to_nat (worker_threads conf) -> config_ m = conf -> P m w') ->
  wp (Master_Create os loops lowest conf sc) P w.
Proof.
  intros He H HP. unfold cannot_start in He. unfold Master_Create. apply wp_bind, (wp_loop l); [done|]. intros el w1 H1.
  apply wp_bind, (wp_listen_tcp conf _ _ _ H1). intros tcp w2 Ht Ht' H2. apply wp_bind, (wp_listen_unix conf _ _ _ H2). intros unix w3 Hu Hu' H3.
  destruct (worker_threads conf =? 0) eqn:E0; [apply He; left; lia|].
  apply wp_bind, (wp_accept_event _ _ _ _ _ H3). intros w4 H4. apply wp_bind, (wp_accept_event _ _ _ _ _ H4). intros w5 H5.
  destruct ((tcp =? -1) && (unix =? -1)) eqn:E1.
  { apply andb_true_iff in E1 as [Et Eu]. apply He. destruct Ht as [Ht|Ht]; [lia| |auto]. destruct Hu as [Hu|Hu]; [lia|auto..]. }
  assert (worker_threads conf < 0 -> excuse) as Hneg by (intros; apply He; left; lia). assert (sc = false -> excuse) as Hsc by (intros; apply He; auto).
  apply wp_bind, (wp_storer _ _ _ _ _ Hneg Hsc H5). intros st w6 H6 Hst.
  apply wp_bind, (wp_workers _ _ _ _ _ Hneg H6). intros ts w7 H7 Hts Hq Hlen.
  apply wp_bind, wp_ret, wp_ret, HP; [|done|done|done]. split; [|done|by split; [eexists|]].
  unfold queued, rest_fds. cbn [workers_ storer_ unixfd_ tcpfd_ eventl_ loop_fds]. rewrite Hq. cbn [app]. by rewrite <- !app_assoc.
Qed.

(** ** The running server *)

Lemma bind_delete (f : Worker -> list Z) ts i t : ts !! i = Some t -> (ts ≫= f) ≡ₚ f t ++ (delete i ts ≫= f).
Proof. intros H. by rewrite (delete_Permutation _ _ _ H) at 1. Qed.

Lemma delete_insert_same {A} (ts : list A) i t : delete i (<[i := t]> ts) = delete i ts.
Proof. revert i. induction ts as [|x ts IH]; intros [|i]; [done..|]. cbn. f_equal. apply IH. Qed.

(** A worker and its connections, together. *)
Definition all_fds (t : Worker) : list Z := conn_queue_ t ++ worker_fds t.

Lemma all_fds_split ts : (ts ≫= all_fds) ≡ₚ (ts ≫= conn_queue_) ++ (ts ≫= worker_fds).
Proof.
  induction ts as [|t ts IH]; [done|]. cbn [mbind list_bind]. change (list_bind _ _ all_fds ts) with (ts ≫= all_fds). rewrite IH. unfold all_fds.
  rewrite <- !app_assoc. apply Permutation_app_head. rewrite Permutation_app_swap_app. done.
Qed.

(** One worker changes: what it had goes, what it has comes. *)
Lemma master_ok_update l m w w' i t t' : workers_ m !! i = Some t -> w_eventl t' = w_eventl t -> master_ok l m w ->
  (forall rest, owns (all_fds t ++ rest) w -> owns (all_fds t' ++ rest) w') -> master_ok l (with_workers (<[i := t']> (workers_ m)) m) w'.
Proof.
  intros Hi Hel [H1 H2 H3] Hup. split; [|cbn; apply Forall_insert; [done|]|done].
  - set (R := rest_fds m ++ l). set (others := delete i (workers_ m) ≫= all_fds).
    assert (owns (all_fds t ++ others ++ R) w) as H.
    { eapply owns_perm; [|exact H1]. unfold queued, others, R. rewrite (app_assoc _ (workers_ m ≫= worker_fds)), <- (all_fds_split (workers_ m)).
      rewrite (bind_delete all_fds _ _ _ Hi). by rewrite <- app_assoc. }
    apply Hup in H. eapply owns_perm; [|exact H]. unfold queued, others, R. cbn [workers_ with_workers].
    change (rest_fds (with_workers _ m)) with (rest_fds m). rewrite (app_assoc (_ ≫= conn_queue_)), <- all_fds_split.
    rewrite (bind_delete all_fds (<[i := t']> (workers_ m)) i t'), delete_insert_same by (apply list_lookup_insert_eq; by eapply lookup_lt_Some).
    by rewrite <- app_assoc.
  - rewrite Hel. rewrite Forall_lookup in H2. by eapply H2.
Qed.

Lemma move_last (fd : Z) q a b c d : (fd :: q) ++ a ++ b ++ c ++ d ≡ₚ q ++ a ++ b ++ (c ++ [fd]) ++ d.
Proof. rewrite <- (app_assoc c). cbn [app]. by rewrite <- !Permutation_middle. Qed.

Definition in_range (n : nat) (e : devent) : Prop := match e with DAcceptTcp _ i | DAcceptUnix i | DTake i | DHangup i _ => (i < n)%nat end.

Definition preserved (l : list Z) (m : Master) (P : Master -> world -> Prop) : Prop :=
  forall m' w', master_ok l m' w' -> length (workers_ m') = length (workers_ m) -> P m' w'.

Lemma master_ok_calls l m w n : master_ok l m w -> master_ok l m (World (fds w) n).
Proof. intros [H1 H2 H3]. split; [by apply owns_calls|done|done]. Qed.

(** A connection was accepted, and one of the workers gets it. *)
Lemma wp_assign i l m w n P : (i < length (workers_ m))%nat -> master_ok l m w -> preserved l m P ->
  wp (assign i (lowest (fds w)) m) P (World ({[lowest (fds w)]} ∪ fds w) n).
Proof.
  intros Hr H HP. unfold assign. destruct (lookup_lt_is_Some_2 _ _ Hr) as [t Ht]. rewrite Ht. apply wp_ret, HP; [|cbn; by rewrite length_insert].
  eapply (master_ok_update l m w); [exact Ht|done|exact H|]. intros rest Ho. apply (owns_open _ _ n) in Ho as [_ Ho].
  eapply owns_perm; [|exact Ho]. unfold all_fds. cbn [conn_queue_ with_connections].
  change (worker_fds (with_connections (clients t) (conn_queue_ t ++ [?x]) t)) with (worker_fds t). rewrite <- !app_assoc. cbn [app].
  apply Permutation_middle.
Qed.

Lemma wp_accept_tcp admitted i l m w P : (i < length (workers_ m))%nat -> master_ok l m w -> preserved l m P ->
  wp (AcceptTcpHandler os lowest admitted i m) P w.
Proof.
  intros Hr H HP. unfold AcceptTcpHandler. apply wp_bind. unfold wp at 1, open_fd, open_when. destruct (os (calls w)).
  - pose proof (owns_open _ _ (S (calls w)) (mk_owns _ _ _ H)) as [Hp Ho].
    replace (lowest (fds w) =? -1) with false by lia. destruct admitted; cbn [negb]; [by eapply wp_assign|].
    apply wp_bind. unfold close_accepted. replace (lowest (fds w) =? -1) with false by lia.
    eapply wp_close; [exact Ho|reflexivity|]. intros w' Hw'. apply wp_ret, HP; [|done]. destruct H as [_ H2 H3]. by split.
  - cbn. destruct admitted; cbn [negb]; [apply wp_ret, HP; [by apply master_ok_calls|done]|].
    unfold close_accepted, call, wp. cbn. apply HP; [exact (master_ok_calls l m w _ H)|done].
Qed.

Lemma wp_accept_unix i l m w P : (i < length (workers_ m))%nat -> master_ok l m w -> preserved l m P -> wp (AcceptUnixHandler os lowest i m) P w.
Proof.
  intros Hr H HP. unfold AcceptUnixHandler. apply wp_bind. unfold wp at 1, open_fd, open_when. destruct (os (calls w)).
  - pose proof (owns_open _ _ (S (calls w)) (mk_owns _ _ _ H)) as [Hp _].
    replace (lowest (fds w) =? -1) with false by lia. by eapply wp_assign.
  - cbn. apply wp_ret, HP; [by apply master_ok_calls|done].
Qed.

(** A worker closes one of its descriptors. *)
Lemma wp_close_of i l m w P t t' fd : workers_ m !! i = Some t -> w_eventl t' = w_eventl t -> all_fds t ≡ₚ fd :: all_fds t' -> master_ok l m w ->
  preserved l m P -> wp (close fd ;; mret (with_workers (<[i := t']> (workers_ m)) m)) P w.
Proof.
  intros Ht Hel Hp H HP. apply wp_bind. assert (fd ∈ fds w) as Hin.
  { rewrite (own_fds _ _ (mk_owns _ _ _ H)), elem_of_union, elem_of_list_to_set. right.
    rewrite app_assoc. rewrite <- (all_fds_split (workers_ m)), (bind_delete all_fds _ _ _ Ht), Hp. by left. }
  unfold wp at 1, close. rewrite decide_True by done. apply wp_ret, HP; [|cbn; by rewrite length_insert].
  eapply (master_ok_update l m w); [exact Ht|done|exact H|]. intros rest Ho. eapply (owns_close _ _ w fd (calls w)) in Ho as [_ Ho]; [exact Ho|].
  by rewrite Hp.
Qed.

Lemma wp_take i l m w P : (i < length (workers_ m))%nat -> master_ok l m w -> preserved l m P -> wp (GetNewConnection os i m) P w.
Proof.
  intros Hr H HP. unfold GetNewConnection. destruct (lookup_lt_is_Some_2 _ _ Hr) as [t Ht]. rewrite Ht.
  destruct (conn_queue_ t) as [|fd q] eqn:Eq; [by apply wp_ret, HP|]. apply wp_bind.
  pose proof (mk_loops _ _ _ H) as Hel. rewrite Forall_lookup in Hel. destruct (Hel _ _ Ht) as [el Ew]. rewrite Ew.
  unfold wp at 1, aeCreateFileEvent, call. apply (master_ok_calls _ _ _ (S (calls w))) in H. destruct (os (calls w)).
  - apply wp_ret, HP; [|cbn; by rewrite length_insert].
    eapply (master_ok_update l m); [exact Ht|done|exact H|]. intros rest Ho. eapply owns_perm; [|exact Ho].
    apply Permutation_app_tail. unfold all_fds, worker_fds. rewrite Eq. cbn [conn_queue_ with_connections conn_pair msg_pairs clients w_eventl].
    apply move_last.
  - eapply wp_close_of; [exact Ht|done| |exact H|done]. unfold all_fds, worker_fds. rewrite Eq.
    by cbn [conn_queue_ with_connections conn_pair msg_pairs clients w_eventl app].
Qed.

Lemma wp_hangup i j l m w P : (i < length (workers_ m))%nat -> master_ok l m w -> preserved l m P -> wp (delete_client i j m) P w.
Proof.
  intros Hr H HP. unfold delete_client. destruct (lookup_lt_is_Some_2 _ _ Hr) as [t Ht]. rewrite Ht.
  destruct (clients t !! j) as [fd|] eqn:Ej; [|by apply wp_ret, HP].
  eapply wp_close_of; [exact Ht|done| |exact H|done]. unfold all_fds, worker_fds. cbn [conn_queue_ with_connections conn_pair msg_pairs clients w_eventl].
  rewrite (delete_Permutation _ _ _ Ej) at 1. cbn [app]. rewrite <- !Permutation_middle. done.
Qed.

Lemma wp_dstep e l m w P : in_range (length (workers_ m)) e -> master_ok l m w -> preserved l m P -> wp (dstep os lowest e m) P w.
Proof. intros Hr H HP. destruct e; cbn [dstep in_range] in *; [by eapply wp_accept_tcp|by eapply wp_accept_unix|by eapply wp_take|by eapply wp_hangup]. Qed.

Lemma wp_dsteps es : forall l m w P, Forall (in_range (length (workers_ m))) es -> master_ok l m w ->
  (forall m' w', master_ok l m' w' -> P m' w') -> wp (dsteps os lowest es m) P w.
Proof.
  induction es as [|e es IH]; intros l m w P Hr H HP; cbn [dsteps]; [by apply wp_ret, HP|]. apply Forall_cons in Hr as [He Hr].
  apply wp_bind, (wp_dstep e l); [done|done|]. intros m' w' H' Hlen. eapply IH; [by rewrite Hlen|done|done].
Qed.

(** ** Deletion *)

Lemma wp_delete_worker t l w P : is_Some (w_eventl t) -> owns (worker_fds t ++ l) w -> (forall w', owns l w' -> P tt w') -> wp (Worker_delete t) P w.
Proof.
  intros [el Hel] H HP. unfold Worker_delete, worker_fds in *. rewrite Hel in *. cbn [aeTimeEvent loop_fds aeDeleteEventLoop] in *. rewrite <- !app_assoc in H.
  apply wp_bind, wp_ret, wp_bind. eapply wp_close_all; [exact H|]. intros w1 H1.
  apply wp_bind. eapply wp_close_all; [exact H1|]. intros w2 H2. apply wp_bind. eapply wp_close_all; [exact H2|]. intros w3 H3.
  by apply (wp_close _ l _ _ _ H3).
Qed.

Lemma wp_delete_workers ts : forall l w P, Forall (fun t => is_Some (w_eventl t)) ts -> owns ((ts ≫= worker_fds) ++ l) w ->
  (forall w', owns l w' -> P tt w') -> wp (delete_workers ts) P w.
Proof.
  induction ts as [|t ts IH]; intros l w P Hel H HP; cbn [delete_workers]; [by apply wp_ret, HP|]. apply Forall_cons in Hel as [Ht Hel].
  cbn [mbind list_bind] in H. rewrite <- app_assoc in H. apply wp_bind. eapply wp_delete_worker; [done|exact H|]. intros w' H'. by eapply IH.
Qed.

Lemma wp_close_listen fd l w P : owns (listen_fds fd ++ l) w -> (forall w', owns l w' -> P tt w') -> wp (if 0 <? fd then close fd else mret tt) P w.
Proof. unfold listen_fds. intros H HP. destruct (0 <? fd); [by apply (wp_close _ l _ _ _ H)|by apply wp_ret, HP]. Qed.

Lemma move_to_end (q a b c d e g l : list Z) : q ++ a ++ b ++ c ++ d ++ e ++ g ++ l ≡ₚ a ++ b ++ c ++ d ++ e ++ g ++ q ++ l.
Proof. by do 6 rewrite (Permutation_app_swap_app q). Qed.

(** What remains are the connections no worker took. *)
Lemma wp_delete l m w P : master_ok l m w -> (forall w', owns (queued m ++ l) w' -> P tt w') -> wp (Master_delete m) P w.
Proof.
  intros [H1 H2 [[el H3] [sel H4]]] HP. unfold Master_delete, Storer_delete, rest_fds, storer_fds in *. rewrite H3, H4 in *.
  cbn [aeTimeEvent loop_fds aeDeleteEventLoop] in *. rewrite <- !app_assoc in H1.
  apply wp_bind, wp_ret, wp_bind.
  apply (wp_delete_workers (workers_ m) ((s_pairs (storer_ m) ≫= pair_fds) ++ [sel] ++ listen_fds (unixfd_ m) ++ listen_fds (tcpfd_ m) ++ [el] ++ queued m ++ l));
    [done| |].
  { eapply owns_perm; [|exact H1]. apply move_to_end. }
  intros w1 Ho1.
  apply wp_bind, wp_bind, wp_ret, wp_bind. eapply wp_close_all; [exact Ho1|]. intros w2 Ho2. cbn [app] in Ho2. eapply wp_close; [exact Ho2|reflexivity|]. intros w3 Ho3.
  apply wp_bind. eapply wp_close_listen; [exact Ho3|]. intros w4 Ho4. apply wp_bind. eapply wp_close_listen; [exact Ho4|]. intros w5 Ho5.
  cbn [app] in Ho5. eapply wp_close; [exact Ho5|reflexivity|exact HP].
Qed.
End owners.

Lemma owns_none w : owns (fds w) [] w.
Proof. split; [set_solver|apply NoDup_nil_2|]. intros fd Hfd. by apply not_elem_of_nil in Hfd. Qed.

(** ** The whole life of a server *)

Definition life (os loops : nat -> bool) (lowest : gset Z -> Z) (conf : Config) (store_created : bool) (es : list devent) : proc (list Z) :=
  m ← Master_Create os loops lowest conf store_created;
  m ← dsteps os lowest es m;
  Master_delete m ;;
  mret (queued m).


(** ** Examples *)

Definition test_config : Config := MkConfig 2 (bs "/tmp/kids.sock") [] 3388 false 10 (fun _ => Limit 0 0 0) 1000000.
Definition std_world : world := World {[0; 1; 2]} 0.
Definition test_events : list devent := [DAcceptTcp true 0; DAcceptUnix 1; DTake 0; DAcceptTcp false 0; DAcceptTcp true 0; DTake 1; DHangup 0 0; DAcceptUnix 1].

Definition left_open (x : outcome (list Z * world)) : option (list Z * list Z) :=
  match x with Done (l, w) => Some (l, elements (fds w)) | _ => None end.

(** Two connections that no worker took are left. *)
Example test_life : left_open (life (fun _ => true) (fun _ => true) above test_config true test_events std_world) = Some ([27; 28], [27; 28; 2; 1; 0]).
Proof. vm_compute. reflexivity. Qed.

(** A connection that cannot be accepted, from an address that is refused:
    [close(-1)] is called. *)
Example refused_failure : let m := MkMaster test_config (Some 3) 4 5 (MkStorer (Some 6) []) [] in
  AcceptTcpHandler (fun _ => false) above false 0 m std_world = Done (m, World {[0; 1; 2]} 2)
  /\ close (-1) std_world = Undefined.
Proof. by vm_compute. Qed.

(** Neither a negative number of threads nor a missing event loop is tested. *)
Example negative_threads : let conf := MkConfig (-1) [] [] 3388 false 10 (fun _ => Limit 0 0 0) 1000000 in
  life (fun _ => true) (fun _ => true) above conf true [] std_world = Uncaught.
Proof. vm_compute. reflexivity. Qed.
Example no_event_loop : life (fun _ => true) (fun _ => false) above test_config true [] std_world = Undefined.
Proof. vm_compute. reflexivity. Qed.

