(* ===== verification/Kids.v ===== *)
(** * kids.cc: main

    The command line, the pid file, going to the background, and the start of
    the server from its configuration file, which puts the other components
    together: ParseConfigFile of Lexer, the log of Logger, the configuration of
    the master and the store of Creation, the descriptors of Startup and the
    threads of Threads.  [getopt_long] is the C library's: what it returns, one
    option after the other, and the arguments it leaves are given; so are the
    file system, the result of [fork], and what calls of the system answer. *)

From S2P Require Import Prelude Common Util Conf Parser Grammar Lexer Layout Creation Files Logger Startup.
From S2P Require Threads.

(** ** The command line *)

Record settings := Settings { config_file : bytes; daemonize : bool; pidfile : option bytes }.

Inductive command : Type := ShowUsage | ShowVersion | RunServer (s : settings).

(** What [getopt_long] is given: an option that takes an argument is followed
    by a colon, and a long option has the letter it stands for. *)
Definition short_options : bytes := bs "c:dvh".
Definition long_options : list (bytes * bool * byte) :=
  [(bs "config", true, "c"%char); (bs "daemon", false, "d"%char); (bs "pid", true, "p"%char);
   (bs "version", false, "v"%char); (bs "help", false, "h"%char)].

(** The loop over the options; an option that is not known is ['?']. *)
Fixpoint options (l : list (byte * bytes)) (s : settings) : command :=
  match l with
  | [] => RunServer s
  | (opt, optarg) :: l =>
      if decide (opt = "c"%char) then options l (Settings optarg (daemonize s) (pidfile s))
      else if decide (opt = "d"%char) then options l (Settings (config_file s) true (pidfile s))
      else if decide (opt = "p"%char) then options l (Settings (config_file s) (daemonize s) (Some optarg))
      else if decide (opt = "v"%char) then ShowVersion
      else ShowUsage
  end.

(** [opts], then the arguments from [optind] on. *)
Definition command_line (opts : list (byte * bytes)) (rest : list bytes) : command :=
  match options opts (Settings [] false None) with
  | RunServer s =>
      let file := match rest with arg :: _ => if decide (config_file s = []) then arg else config_file s | [] => config_file s end in
      if decide (file = []) then ShowUsage else RunServer (Settings file (daemonize s) (pidfile s))
  | c => c
  end.

(** Every long option is handled by its letter; only that of [pid] is not a
    short option as well. *)
Lemma long_options_handled l s arg : Forall (fun o : bytes * bool * byte =>
  options ((o.2, arg) :: l) s = if decide (o.2 = "h"%char) then ShowUsage else if decide (o.2 = "v"%char) then ShowVersion
    else options l (if decide (o.2 = "c"%char) then Settings arg (daemonize s) (pidfile s)
                    else if decide (o.2 = "d"%char) then Settings (config_file s) true (pidfile s)
                    else Settings (config_file s) (daemonize s) (Some arg))) long_options.
Proof. unfold long_options. repeat constructor. Qed.

Example pid_is_long_only : filter (fun c => c ∉ short_options) (map snd long_options) = ["p"%char].
Proof. vm_compute. reflexivity. Qed.

(** ** Signals *)

Inductive signal_number : Type := SIGINT | SIGTERM | SIGPIPE | SIGHUP | SIGUSR1 | OtherSignal.
Inductive signal_action : Type := StopServer | ReloadConfig | RotateLog | Fatal.

(** The set that is blocked in every thread, and that [sigwait] waits for. *)
Definition signal_mask : list signal_number := [SIGINT; SIGTERM; SIGPIPE; SIGHUP; SIGUSR1].

(** The [switch] of [signal_thread_function]; what is done is in Threads.v and
    Logger.v. *)
Definition signal_switch (signo : signal_number) : signal_action :=
  match signo with
  | SIGINT | SIGTERM | SIGPIPE => StopServer
  | SIGHUP => ReloadConfig
  | SIGUSR1 => RotateLog
  | OtherSignal => Fatal
  end.

(** No signal that is waited for is a fatal one. *)
Lemma signals_handled signo : signo ∈ signal_mask -> signal_switch signo <> Fatal.
Proof. intros H. destruct signo; try done. unfold signal_mask in H. repeat (apply elem_of_cons in H as [H|H]; [done|]). by apply not_elem_of_nil in H. Qed.

(** The results of [pthread_sigmask] and [pthread_create]. *)
Definition CreateSignalThread (sigmask create : Z) : proc unit :=
  if negb (sigmask =? 0) then LogFatal else if negb (create =? 0) then LogFatal else mret tt.

(** ** Starting *)

(** What [open] and [write] gave for the pid file. *)
Definition pid_text (pid : Z) : bytes := ll_text pid ++ [LF].

Definition WritePID (pid fd written : Z) : proc unit :=
  if (0 <? fd) && negb (written =? zlen (pid_text pid)) then LogFatal else mret tt.

(** [daemon]: the parent exits, and so does the process when it could not be
    forked; the standard streams, which it gives /dev/null, stay open. *)
Definition daemon (fork : Z) : proc unit := if fork =? 0 then mret tt else exit 0.

Definition lift {A} (x : option A) : proc A := match x with Some a => mret a | None => undefined end.

(** The environment. *)
Record environment := Environment {
  file_content : bytes -> bytes;        (* of the configuration file *)
  fork : Z;
  log_opens : bool;                     (* fopen of the log *)
  sigmask_error : Z; thread_error : Z;  (* of the signal thread *)
  pid : Z; pid_fd : Z; pid_written : Z;
}.

(** The components when [Master::Start] is called. *)
Record server := Server {
  server_settings : settings;
  server_log : logger * disk;
  server_threads : Threads.process;
  server_master : Startup.Master;
}.

Section main.
Context {FS EL : Type} (fs : FS) (el : EL).
Variables (os loops : nat -> bool) (lowest : gset Z -> Z).

(** The levels of stores that a configuration has. *)
Definition store_created (store : StoreConfig) : option bool :=
  x ← Create fs el (Creation.levels store) store; Some (match x with Some _ => true | None => false end).

Definition main (opts : list (byte * bytes)) (rest : list bytes) (env : environment) (d : disk) : proc server :=
  match command_line opts rest with
  | ShowUsage | ShowVersion => exit 0
  | RunServer s =>
      let '(console, d) := strdup (bs "stderr") d in
      '(l, d) ← lift (InitLogger kDebug (Some console) true new_logger d);
      let content := file_content env (config_file s) in
      c ← lift (ParseConfigFile content);
      if negb (ctx_success c) then LogFatal
      else
        (if daemonize s then daemon (fork env) else mret tt) ;;
        conf ← lift (ctx_conf c);
        let '(file, d) := strdup (cstr (kc_log_file conf)) d in
        log ← lift (InitLogger (LogLevelFromString (kc_log_level conf)) (Some file) (log_opens env) l d);
        CreateSignalThread (sigmask_error env) (thread_error env) ;;
        store ← lift (kc_store conf);
        created ← lift (store_created store);
        m ← Master_Create os loops lowest (master_config conf) created;
        (if pidfile s then WritePID (pid env) (pid_fd env) (pid_written env) else mret tt) ;;
        threads ← lift (Threads.start content (length (workers_ m)));
        mret (Server s log threads m)
  end.
End main.

(** ** How main ends *)

Section outcome.
Context {FS EL : Type} (fs : FS) (el : EL).
Variables (os loops : nat -> bool) (lowest : gset Z -> Z).
Hypothesis lowest_new : forall X, 0 <= lowest X /\ lowest X ∉ X.
Hypothesis loops_ok : forall n, loops n = true.

(** The paths of the file stores of an accepted configuration are given. *)
Definition paths_of (content : bytes) : Prop :=
  forall c conf store, ParseConfigFile content = Some c -> ctx_conf c = Some conf -> kc_store conf = Some store -> paths_given store = true.

(** Why the server does not run: it was not asked to; the file is not
    accepted; this is not the process that goes on; there is no thread for the
    signals; the server cannot be created; the pid file cannot be written. *)
Definition no_server (opts : list (byte * bytes)) (rest : list bytes) (env : environment) : Prop :=
  match command_line opts rest with
  | ShowUsage | ShowVersion => True
  | RunServer s =>
      exists c, ParseConfigFile (file_content env (config_file s)) = Some c
      /\ (ctx_success c = false \/ (daemonize s = true /\ fork env <> 0) \/ sigmask_error env <> 0 \/ thread_error env <> 0
          \/ (exists conf, ctx_conf c = Some conf /\ cannot_start os (master_config conf) true)
          \/ pid_written env <> zlen (pid_text (pid env)))
  end.

Record serves (opts : list (byte * bytes)) (rest : list bytes) (env : environment) (w : world) (srv : server) (w' : world) : Prop := {
  sv_command : command_line opts rest = RunServer (server_settings srv);
  sv_conf : exists c conf, ParseConfigFile (file_content env (config_file (server_settings srv))) = Some c /\ ctx_success c = true /\ ctx_conf c = Some conf
    /\ config_ (server_master srv) = master_config conf
    /\ Logger.log_level (server_log srv).1 = LogLevelFromString (kc_log_level conf)
    /\ length (workers_ (server_master srv)) = Z.to_nat (worker_threads (master_config conf));
  sv_threads : Threads.reachable (file_content env (config_file (server_settings srv))) (length (workers_ (server_master srv))) (server_threads srv);
  sv_master : master_ok (fds w) [] (server_master srv) w';
}.

(** The log is started, whatever it is. *)
Lemma InitLogger_first text d : exists l d', InitLogger kDebug (Some (fresh d)) true new_logger (strdup text d).2 = Some (l, d') /\ now l = 0
  /\ exists q, log_filename l = Some q /\ strings d' !! q = Some text /\ (q < fresh d')%nat.
Proof.
  unfold InitLogger. cbn [log_filename new_logger]. destruct (decide (None = Some (fresh d))); [done|]. cbn [free mbind option_bind strdup snd strings].
  rewrite lookup_insert_eq. cbn [mbind option_bind].
  set (q := S (fresh d)).
  destruct (decide _); [|destruct (decide _)].
  - do 2 eexists. split; [done|]. split; [done|]. exists q. cbn. rewrite lookup_insert_eq. split_and!; [done|done|unfold q; lia].
  - do 2 eexists. split; [done|]. split; [done|]. exists q. cbn. rewrite lookup_insert_eq. split_and!; [done|done|unfold q; lia].
  - unfold fopen. cbn [negb names strings streams texts fresh]. destruct (names d !! text); do 2 eexists; (split; [done|]; split; [done|]; exists q; cbn;
      rewrite lookup_insert_eq; split_and!; [done|done|unfold q; lia]).
Qed.

Lemma InitLogger_again text level opens l d q old : log_filename l = Some q -> strings d !! q = Some old -> (q < fresh d)%nat ->
  exists x, InitLogger level (Some (fresh d)) opens l (strdup text d).2 = Some x /\ Logger.log_level x.1 = level.
Proof.
  intros Hq Ho Hlt. unfold InitLogger. rewrite Hq, decide_False by (intros [= E]; lia). cbn [free strdup snd strings].
  rewrite lookup_insert_ne, Ho by lia. cbn [mbind option_bind strings]. rewrite lookup_delete_ne, lookup_insert_eq by lia. cbn [mbind option_bind].
  repeat (destruct (decide _); [by eexists|]). destruct (fopen _ _ _) as [f d']. by eexists.
Qed.

Lemma wp_lift {A} excuse (x : option A) (a : A) P (w : world) : x = Some a -> P a w -> wp excuse (lift x) P w.
Proof. by intros ->. Qed.

Lemma wp_pid excuse s env w (P : unit -> world -> Prop) : (pid_written env <> zlen (pid_text (pid env)) -> excuse) -> P tt w ->
  wp excuse (if pidfile s then WritePID (pid env) (pid_fd env) (pid_written env) else mret tt) P w.
Proof.
  intros He HP. destruct (pidfile s); [|exact HP]. unfold WritePID. destruct (0 <? pid_fd env); [|exact HP]. cbn [andb].
  destruct (pid_written env =? zlen (pid_text (pid env))) eqn:E; cbn [negb]; [exact HP|]. apply He. lia.
Qed.

Lemma wp_daemon excuse s env w (P : unit -> world -> Prop) : (daemonize s = true -> fork env <> 0 -> excuse) -> P tt w ->
  wp excuse (if daemonize s then daemon (fork env) else mret tt) P w.
Proof.
  intros He HP. destruct (daemonize s); [|exact HP]. unfold daemon. destruct (fork env =? 0) eqn:E; [exact HP|]. apply He; [done|lia].
Qed.

Lemma wp_signal excuse env w (P : unit -> world -> Prop) : (sigmask_error env <> 0 \/ thread_error env <> 0 -> excuse) -> P tt w ->
  wp excuse (CreateSignalThread (sigmask_error env) (thread_error env)) P w.
Proof.
  intros He HP. unfold CreateSignalThread. destruct (sigmask_error env =? 0) eqn:E; cbn [negb]; [|apply He; left; lia].
  destruct (thread_error env =? 0) eqn:E2; cbn [negb]; [exact HP|]. apply He. right. lia.
Qed.

Lemma configured content c : ParseConfigFile content = Some c -> ctx_success c = true -> paths_of content ->
  exists conf store, ctx_conf c = Some conf /\ kc_store conf = Some store /\ store_created fs el store = Some true.
Proof.
  intros E Hs Hp. destruct (ParseConfig_ok (file_lines content [])) as (c' & E' & Hc). pose proof E as E1. unfold ParseConfigFile in E1. rewrite E' in E1. injection E1 as ->.
  destruct (Hc Hs) as (conf & store & H1 & H2 & Hw). exists conf, store. split_and!; [done|done|]. unfold store_created.
  destruct (Create_ok fs el (Creation.levels store) store Hw (Hp _ _ _ E H1 H2) ltac:(lia)) as (s & -> & _). done.
Qed.

(** The threads of the components that main starts. *)
Lemma start_defined content n c : ParseConfigFile content = Some c -> ctx_success c = true -> exists p, Threads.start content n = Some p.
Proof.
  intros E Hs. destruct (Threads.file_accepted _ _ E Hs) as [store Hst]. unfold Threads.start. rewrite E. cbn [mbind option_bind]. rewrite Hs, Hst.
  by eexists.
Qed.

Lemma strdup_eq text d : strdup text d = (fresh d, (strdup text d).2).
Proof. done. Qed.

Lemma main_wp opts rest env d w : 0 ∈ fds w -> (forall s, command_line opts rest = RunServer s -> paths_of (file_content env (config_file s))) ->
  wp (no_server opts rest env) (main fs el os loops lowest opts rest env d) (serves opts rest env w) w.
Proof.
  intros H0 Hp. unfold main. destruct (command_line opts rest) as [| |s] eqn:Ec; [cbn; unfold no_server; by rewrite Ec..|]. specialize (Hp s eq_refl).
  destruct (InitLogger_first (bs "stderr") d) as (l & d1 & E1 & _ & q & Hq & Hqs & Hlt).
  rewrite (strdup_eq (bs "stderr") d). cbv beta iota. rewrite E1.
  apply wp_bind, (wp_lift _ _ (l, d1)); [done|]. destruct (Threads.file_parsed (file_content env (config_file s))) as [c Epc].
  set (content := file_content env (config_file s)) in *. apply wp_bind, (wp_lift _ _ c); [done|].
  assert ((ctx_success c = false \/ (daemonize s = true /\ fork env <> 0) \/ sigmask_error env <> 0 \/ thread_error env <> 0
          \/ (exists conf, ctx_conf c = Some conf /\ cannot_start os (master_config conf) true)
          \/ pid_written env <> zlen (pid_text (pid env))) -> no_server opts rest env) as Hno by (intros Hr; unfold no_server; rewrite Ec; by exists c).
  destruct (ctx_success c) eqn:Esc; cbn [negb]; [|by apply Hno; left].
  apply wp_bind, wp_daemon; [intros; apply Hno; auto|].
  destruct (configured content c Epc Esc Hp) as (conf & store & Econf & Estore & Ecr). apply wp_bind, (wp_lift _ _ conf); [exact Econf|].
  destruct (InitLogger_again (cstr (kc_log_file conf)) (LogLevelFromString (kc_log_level conf)) (log_opens env) l d1 q (bs "stderr") Hq Hqs Hlt) as (x & Ex & Elv).
  rewrite (strdup_eq (cstr (kc_log_file conf)) d1). cbv beta iota. rewrite Ex.
  apply wp_bind, (wp_lift _ _ x); [done|]. apply wp_bind, wp_signal; [intros; apply Hno; tauto|]. apply wp_bind, (wp_lift _ _ store); [exact Estore|]. apply wp_bind, (wp_lift _ _ true); [exact Ecr|].
  assert (forall n, os n = false -> no_server opts rest env) as Hcall.
  { intros n En. apply Hno. do 4 right. left. exists conf. split; [done|]. right. right. right. by exists n. }
  apply wp_bind. eapply (wp_master os loops lowest lowest_new loops_ok (fds w) H0 _ Hcall (master_config conf) true []).
  { intros Hc. apply Hno. do 4 right. left. by exists conf. }
  { apply owns_none. }
  intros m w' Hm _ Hlen Hconf. apply wp_bind, wp_pid; [intros Hw; apply Hno; tauto|].
  destruct (start_defined content (length (workers_ m)) c Epc Esc) as [p Ep]. rewrite Ep. apply wp_bind, (wp_lift _ _ p); [done|]. apply wp_ret.
  split; cbn [server_settings server_log server_threads server_master].
  - exact Ec.
  - exists c, conf. rewrite Hconf, Hlen. split_and!; done.
  - by apply Threads.reach_start.
  - exact Hm.
Qed.

(** C19. On any command line, configuration file and answers of the system main is defined, if
    the file stores of the configuration have their paths, descriptor 0 is open and no event loop
    fails to be created (Startup.no_event_loop): either it reaches Master::Start with the components
    of the configuration (the master and its number of workers, each with its descriptors, the level
    of the log, the threads about to be started), or it exits for one of the reasons listed: usage,
    a file that is not accepted, the parent of fork, no thread for the signals, a server that cannot
    be created, a pid file that cannot be written. *)
Theorem main_outcome opts rest env d w : 0 ∈ fds w -> (forall s, command_line opts rest = RunServer s -> paths_of (file_content env (config_file s))) ->
  match main fs el os loops lowest opts rest env d w with
  | Done (srv, w') => serves opts rest env w srv w'
  | Exit _ | Uncaught => no_server opts rest env
  | Undefined => False
  end.
Proof. intros H0 Hp. pose proof (main_wp opts rest env d w H0 Hp) as H. unfold wp in H. by destruct (main _ _ _ _ _ _ _ _ _ _) as [[srv w']| | |]. Qed.
End outcome.

(** ** Examples *)

Definition dev_conf : bytes :=
  bs "listen { host 0.0.0.0; port 3388; } log { level info; file kids.log; } worker_threads 2; store null {}".

Definition test_env : environment := Environment (fun _ => dev_conf) 0 true 0 0 77 5 3.

(** [-d -c kids.conf] *)
Definition test_opts : list (byte * bytes) := [("d"%char, []); ("c"%char, bs "kids.conf")].

Example usage_without_file : command_line [("d"%char, [])] [] = ShowUsage /\ command_line [] [bs "kids.conf"] = RunServer (Settings (bs "kids.conf") false None)
  /\ command_line test_opts [bs "other"] = RunServer (Settings (bs "kids.conf") true None).
Proof. vm_compute. repeat split. Qed.

(** [fork] failed, and the process exits as if it were the parent. *)
Example fork_failed : daemon (-1) std_world = Exit 0.
Proof. reflexivity. Qed.

Definition empty_disk : disk := Disk ∅ (<[stdout := 1%nat]> {[stderr := 2%nat]}) ∅ (<[1%nat := []]> {[2%nat := []]}) 3.

Definition started (x : outcome (server * world)) : option (Z * nat * LogLevel) :=
  match x with
  | Done (srv, _) => Some (listen_port (config_ (server_master srv)), length (workers_ (server_master srv)), Logger.log_level (server_log srv).1)
  | _ => None
  end.

Example main_starts : started (main tt tt (fun _ => true) (fun _ => true) Prelude.above test_opts [] test_env empty_disk std_world) = Some (3388, 2%nat, kInfo).
Proof. vm_compute. reflexivity. Qed.

Lemma dev_paths : paths_of dev_conf.
Proof.
  intros c conf store E Ec Es.
  assert (option_map (fun c => s ← (k ← ctx_conf c; kc_store k); Some (paths_given s)) (ParseConfigFile dev_conf) = Some (Some true)) as H by (vm_compute; reflexivity).
  rewrite E in H. clear E. cbn [option_map] in H. rewrite Ec in H. cbn [mbind option_bind] in H. rewrite Es in H. cbn [mbind option_bind] in H. by injection H.
Qed.

Lemma main_outcome_witness :
  match main tt tt (fun _ => true) (fun _ => true) Prelude.above test_opts [] test_env empty_disk std_world with
  | Done (srv, w') => serves test_opts [] test_env std_world srv w'
  | Exit _ | Uncaught => no_server (fun _ => true) test_opts [] test_env
  | Undefined => False
  end.
Proof.
  apply main_outcome.
  - exact above_new.
  - reflexivity.
  - by vm_compute.
  - intros s _. exact dev_paths.
Defined.
