(* ===== verification/Samples.v ===== *)
(** * client/c/sample: clients of the server

    echo2kids publishes the lines of its input, loggen numbered messages, and
    subscribe prints what is published.  They speak to the server through
    hiredis, which is a class: what it does to a connection is given, and
    documented where a theorem relies on it.  What [getopt_long] returns, one
    option after the other, and the lines of the input are given too.  [None]
    is what is undefined: a NULL text that is printed, an element of a reply
    that is not there, characters that were never written. *)

From S2P Require Import Prelude Common Util EventLoop Protocol Client PubSub Worker Demo Stores NetworkStore Creation.

(** ** hiredis *)

(** Connections and replies.  [redis_error] is [err] with [errstr];
    a command is the words of its format, one for each [%s]. *)
Class Hiredis (C R : Type) := {
  redisConnect : address -> C;
  redis_error : C -> option bytes;
  redisCommand : list bytes -> C -> option R * C;
  redisGetReply : C -> option R * C;
  freeReplyObject : option R -> option unit;
  reply_str : R -> option bytes;
  reply_element : R -> list R;
}.

(** ** The command line *)

Record options := Options {
  socket : option bytes; ip : bytes; port : Z; topic : bytes; filename : option bytes;
  num : Z; period : Z; quiet : bool; psub : bool;
}.

Definition default_options : options := Options None (bs "127.0.0.1") 3388 (bs "loggen") None (-1) (-1) false false.

Definition with_socket (x : bytes) (o : options) : options := Options (Some x) (ip o) (port o) (topic o) (filename o) (num o) (period o) (quiet o) (psub o).
Definition with_ip (x : bytes) (o : options) : options := Options (socket o) x (port o) (topic o) (filename o) (num o) (period o) (quiet o) (psub o).
Definition with_port (x : bytes) (o : options) : options := Options (socket o) (ip o) (atoi (cstr x)) (topic o) (filename o) (num o) (period o) (quiet o) (psub o).
Definition with_topic (x : bytes) (o : options) : options := Options (socket o) (ip o) (port o) x (filename o) (num o) (period o) (quiet o) (psub o).
Definition with_filename (x : bytes) (o : options) : options := Options (socket o) (ip o) (port o) (topic o) (Some x) (num o) (period o) (quiet o) (psub o).
Definition with_num (x : bytes) (o : options) : options := Options (socket o) (ip o) (port o) (topic o) (filename o) (atoi (cstr x)) (period o) (quiet o) (psub o).
Definition with_period (x : bytes) (o : options) : options := Options (socket o) (ip o) (port o) (topic o) (filename o) (num o) (atoi (cstr x)) (quiet o) (psub o).
Definition with_quiet (o : options) : options := Options (socket o) (ip o) (port o) (topic o) (filename o) (num o) (period o) true (psub o).
Definition with_psub (o : options) : options := Options (socket o) (ip o) (port o) (topic o) (filename o) (num o) (period o) (quiet o) true.

(** The [switch] of each program: [None] is the usage. *)
Definition echo_option (opt : byte) (optarg : bytes) (o : options) : option options :=
  if decide (opt = "s"%char) then Some (with_socket optarg o)
  else if decide (opt = "h"%char) then Some (with_ip optarg o)
  else if decide (opt = "p"%char) then Some (with_port optarg o)
  else if decide (opt = "t"%char) then Some (with_topic optarg o)
  else if decide (opt = "d"%char) then Some o
  else None.

Definition loggen_option (opt : byte) (optarg : bytes) (o : options) : option options :=
  if decide (opt = "s"%char) then Some (with_socket optarg o)
  else if decide (opt = "h"%char) then Some (with_ip optarg o)
  else if decide (opt = "p"%char) then Some (with_port optarg o)
  else if decide (opt = "t"%char) then Some (with_topic optarg o)
  else if decide (opt = "f"%char) then Some (with_filename optarg o)
  else if decide (opt = "n"%char) then Some (with_num optarg o)
  else if decide (opt = "r"%char) then Some (with_period optarg o)
  else if decide (opt = "q"%char) then Some (with_quiet o)
  else None.

Definition subscribe_option (opt : byte) (optarg : bytes) (o : options) : option options :=
  if decide (opt = "s"%char) then Some (with_socket optarg o)
  else if decide (opt = "i"%char) then Some (with_ip optarg o)
  else if decide (opt = "p"%char) then Some (with_port optarg o)
  else if decide (opt = "t"%char) then Some (with_topic optarg o)
  else if decide (opt = "b"%char) then Some (with_psub o)
  else if decide (opt = "n"%char) then Some (with_num optarg o)
  else if decide (opt = "r"%char) then Some (with_period optarg o)
  else if decide (opt = "q"%char) then Some (with_quiet o)
  else None.

(** What [getopt_long] is given: whether an option takes an argument, and the
    letter of a long option. *)
Definition echo_short_options : bytes := bs "s:h:p:t:f:n:qH".
Definition echo_long_options : list (bytes * bool * byte) :=
  [(bs "socket", true, "s"%char); (bs "host", true, "h"%char); (bs "port", true, "p"%char); (bs "topic", true, "t"%char);
   (bs "help", false, "H"%char)].

Definition loggen_short_options : bytes := bs "s:h:p:t:f:n:qH".
Definition loggen_long_options : list (bytes * bool * byte) :=
  [(bs "socket", true, "s"%char); (bs "host", true, "h"%char); (bs "port", true, "p"%char); (bs "topic", true, "t"%char);
   (bs "file", true, "f"%char); (bs "num", true, "n"%char); (bs "period", true, "r"%char); (bs "quiet", false, "q"%char);
   (bs "help", false, "H"%char)].

Definition subscribe_short_options : bytes := bs "s:i:p:t:f:n:qbh".
Definition subscribe_long_options : list (bytes * bool * byte) :=
  [(bs "socket", true, "s"%char); (bs "ip", true, "i"%char); (bs "port", true, "p"%char); (bs "topic", true, "t"%char);
   (bs "psub", false, "b"%char); (bs "num", true, "n"%char); (bs "period", true, "r"%char); (bs "quiet", false, "q"%char);
   (bs "help", false, "h"%char)].

(** Every long option is handled but that of the help. *)
Lemma sample_options_handled arg o :
  Forall (fun x : bytes * bool * byte => x.2 = "H"%char \/ is_Some (echo_option x.2 arg o)) echo_long_options
  /\ Forall (fun x : bytes * bool * byte => x.2 = "H"%char \/ is_Some (loggen_option x.2 arg o)) loggen_long_options
  /\ Forall (fun x : bytes * bool * byte => x.2 = "h"%char \/ is_Some (subscribe_option x.2 arg o)) subscribe_long_options.
Proof. split_and!; repeat (apply Forall_cons; split; [first [left; reflexivity | right; eexists; reflexivity]|]); apply Forall_nil_2. Qed.

(** Short options that are accepted and lead to the usage. *)
Example short_options_not_handled : filter (fun c => c <> ":"%char /\ echo_option c [] default_options = None) echo_short_options = bs "fnqH"
  /\ filter (fun c => c <> ":"%char /\ subscribe_option c [] default_options = None) subscribe_short_options = bs "fh".
Proof. by vm_compute. Qed.

(** [Usage]: the lines between the first two and the empty one at the end. *)
Definition usage_text (program_name : bytes) (lines : list bytes) : bytes :=
  bs "Usage: " ++ cstr program_name ++ bs " [options]" ++ [LF] ++ bs "options:" ++ [LF] ++ concat (map (fun l => l ++ [LF]) lines) ++ [LF].

Definition quoted (s : bytes) : bytes := [ascii_of_nat 34] ++ s ++ [ascii_of_nat 34].
Definition usage_topic : bytes := bs "  -t, --topic <topic>   topic of log send to kids (default is " ++ quoted (bs "KID_SAMPLE") ++ bs ")".

Definition usage_echo2kids (program_name : bytes) : bytes := usage_text program_name
  [bs "  -s, --socket <file>   unix socket of kids";
   bs "  -h, --host <host>     host of kids (at least one of ip and socket must be specified)";
   bs "  -p, --port <port>     port of kids (default is 3388)"; usage_topic;
   bs "  -h, --help            print help and quit"].

Definition usage_loggen (program_name : bytes) : bytes := usage_text program_name
  [bs "  -s, --socket <file>   unix socket of kids";
   bs "  -h, --host <host>     host of kids (at least one of ip and socket must be specified)";
   bs "  -p, --port <port>     port of kids (default is 3388)"; usage_topic;
   bs "  -f, --file <log file> read logs from file";
   bs "  -n, --num <num>       number of logs send to kids (default is -1 means infinite)";
   bs "  -q, --quiet           don't print logs on screen";
   bs "  --period <time>       time (millisecond) between sending two logs";
   bs "  -h, --help            print help and quit"].

Definition usage_subscribe (program_name : bytes) : bytes := usage_text program_name
  [bs "  -s, --socket <file>   unix socket of kids";
   bs "  -i, --ip <ip>         ip of kids (at least one of ip and socket must be specified)";
   bs "  -p, --port <port>     port of kids (default is 3388)"; usage_topic;
   bs "  -b, --psub            subscribe a pattern";
   bs "  -n, --num <num>       number of logs send to kids (default is -1 means infinite)";
   bs "  -q, --quiet           don't print logs on screen";
   bs "  --period <time>       time (millisecond) between sending two logs";
   bs "  -h, --help            print help and quit"].

(** The topic the usage names is not the one that is used. *)
Example default_topic : topic default_options = bs "loggen".
Proof. reflexivity. Qed.

(** The loop over the options. *)
Definition read_options (option1 : byte -> bytes -> options -> option options) (opts : list (byte * bytes)) : option options :=
  foldl (fun o x => o ← o; option1 x.1 x.2 o) (Some default_options) opts.

(** [socket] if it is given, else [ip], which never is NULL, and [port]. *)
Definition target (o : options) : address := match socket o with Some path => Unix path | None => Tcp (ip o) (port o) end.

(** ** The programs *)

Section programs.
Context {C R : Type} `{!Hiredis C R}.

(** How a program ends: its status, what it printed, and its connection when
    it got so far; or it is still running after the rounds it was given. *)
Inductive result : Type :=
| Exited (status : Z) (printed : bytes) (c : option C)
| Running (printed : bytes) (c : C).

(** Connecting, or the reason to exit. *)
Definition connected (usage : bytes) (o : option options) (run : options -> C -> option result) : option result :=
  match o with
  | None => Some (Exited 0 usage None)
  | Some o =>
      let c := redisConnect (target o) in
      match redis_error c with
      | Some errstr => Some (Exited 1 (bs "Connection error: " ++ cstr errstr ++ [LF]) (Some c))
      | None => run o c
      end
  end.

(** "PUBLISH %s %s" *)
Definition publish (topic text : bytes) (c : C) : option R * C := redisCommand [bs "PUBLISH"; cstr topic; cstr text] c.

(** The lines that [getline] gives, each at least one character; the last of
    a line becomes its end.  The message on a failure has the characters of
    [logbuf], which nothing writes. *)
Fixpoint echo_loop (topic : bytes) (lines : list bytes) (c : C) : option C :=
  match lines with
  | [] | [] :: _ => Some c
  | line :: lines =>
      let '(reply, c) := publish topic (removelast line) c in
      match reply with
      | Some r => _ ← freeReplyObject (Some r); echo_loop topic lines c
      | None => None
      end
  end.

Definition echo2kids (program_name : bytes) (opts : list (byte * bytes)) (lines : list bytes) : option result :=
  connected (usage_echo2kids program_name) (read_options echo_option opts) (fun o c => c ← echo_loop (topic o) lines c; Some (Exited 0 [] (Some c))).

(** "%6d" *)
Definition padded (n : Z) : bytes := replicate (6 - length (ll_text n)) " "%char ++ ll_text n.
Definition log_text (i : Z) : bytes := bs "sn " ++ padded i.

(** [rounds] more rounds of the loop of loggen; [i] must not overflow. *)
Fixpoint log_loop (rounds : nat) (topic : bytes) (num i : Z) (c : C) : option (bool * C) :=
  if (i <? num) || (num =? -1) then
    match rounds with
    | O => Some (false, c)
    | S rounds =>
        if i =? 2 ^ 31 - 1 then None
        else
          let i := i + 1 in
          let '(reply, c) := publish topic (take 1023 (log_text i)) c in
          _ ← freeReplyObject reply; log_loop rounds topic num i c
    end
  else Some (true, c).

(** The file is opened and closed, and not read. *)
Definition loggen (rounds : nat) (program_name : bytes) (opts : list (byte * bytes)) : option result :=
  connected (usage_loggen program_name) (read_options loggen_option opts) (fun o c =>
    '(ended, c) ← log_loop rounds (topic o) (num o) 0 c; Some (if ended : bool then Exited 0 [] (Some c) else Running [] c)).

(** [printf] of the text of an element. *)
Definition element_text (r : R) (n : nat) : option bytes := e ← reply_element r !! n; t ← reply_str e; Some (cstr t).

Definition printed_message (psub : bool) (r : R) : option bytes :=
  a ← element_text r 0; b ← element_text r 1; c ← element_text r 2;
  rest ← (if psub then element_text r 3 else Some []);
  Some (a ++ bs " " ++ b ++ bs " " ++ c ++ rest ++ [LF]).

(** [usleep(period * 1000)], whose argument is an [int]. *)
Definition sleep (period : Z) : option unit :=
  if (period =? -1) || bool_decide (in_i32 (period * 1000)) then Some tt else None.

(** The loop of subscribe has no end. *)
Fixpoint message_loop (rounds : nat) (psub : bool) (period : Z) (out : bytes) (c : C) : option result :=
  match rounds with
  | O => Some (Running out c)
  | S rounds =>
      let '(reply, c) := redisGetReply c in
      t ← match reply with
          | Some r => t ← printed_message psub r; _ ← freeReplyObject (Some r); Some t
          | None => Some (bs "get msg failed" ++ [LF])
          end;
      _ ← sleep period;
      message_loop rounds psub period (out ++ t) c
  end.

Definition subscribe (rounds : nat) (program_name : bytes) (opts : list (byte * bytes)) : option result :=
  connected (usage_subscribe program_name) (read_options subscribe_option opts) (fun o c =>
    let '(reply, c) := redisCommand [if psub o then bs "PSUBSCRIBE" else bs "SUBSCRIBE"; cstr (topic o)] c in
    out ← match reply with
          | Some r => t ← reply_str r; _ ← freeReplyObject (Some r); Some (bs "SUBSCRIBE " ++ cstr t ++ [LF])
          | None => Some []
          end;
    message_loop rounds (psub o) (period o) out c).
End programs.
Arguments result : clear implicits.

(** ** What the server is given *)

(** While the server answers: the connection is made, a command is written in
    the protocol and its reply comes, and a reply can be freed; [sent] is what
    was written to the socket of a connection. *)
Class Answering (C R : Type) `{!Hiredis C R} (sent : C -> bytes) : Prop := {
  connects a : redis_error (R := R) (redisConnect (R := R) a) = None /\ sent (redisConnect (R := R) a) = [];
  answers args c : exists r c', redisCommand (C := C) (R := R) args c = (Some r, c') /\ sent c' = sent c ++ encode args;
  frees (r : R) : freeReplyObject (C := C) (Some r) = Some tt;
}.

Section publish.
Context {C R : Type} `{!Hiredis C R} (sent : C -> bytes) `{!Answering C R sent}.

Definition published (topic text : bytes) : message := (cstr topic, cstr text).

Lemma publish_ok topic text c : exists r c', publish (C := C) (R := R) topic text c = (Some r, c')
  /\ sent c' = sent c ++ put_request (bs "PUBLISH") (published topic text).
Proof. apply answers. Qed.

Lemma echo_loop_ok topic lines : Forall (fun l => l <> []) lines -> forall c, exists c', echo_loop topic lines c = Some c'
  /\ sent c' = sent c ++ concat (map (fun l => put_request (bs "PUBLISH") (published topic (removelast l))) lines).
Proof.
  induction 1 as [|line lines Hl _ IH]; intros c; [exists c; by rewrite app_nil_r|].
  destruct (publish_ok topic (removelast line) c) as (r & c1 & E & Hs). destruct (IH c1) as (c' & E' & Hs').
  exists c'. destruct line as [|x line]; [done|]. cbn [echo_loop map concat]. rewrite E, (frees (sent := sent)). cbn [mbind option_bind].
  split; [exact E'|]. by rewrite Hs', Hs, <- app_assoc.
Qed.

Lemma log_text_whole i : in_i64 i -> cstr (take 1023 (log_text i)) = log_text i.
Proof.
  intros Hi. pose proof (ll_text_length i Hi) as Hl. rewrite take_ge.
  - apply cstr_id. unfold log_text, padded. intros H. rewrite !elem_of_app, elem_of_replicate in H. destruct H as [H|[[H _]|H]]; [|done|].
    + cbn in H. repeat (apply elem_of_cons in H as [H|H]; [done|]). by apply not_elem_of_nil in H.
    + destruct (ll_text_no_special i NUL Hi H) as [?|?]; done.
  - unfold log_text, padded. rewrite !length_app, length_replicate. cbn [length]. change (length (bs "sn ")) with 3%nat. lia.
Qed.

Lemma published_log topic i : in_i64 i -> published topic (take 1023 (log_text i)) = published topic (log_text i).
Proof. intros Hi. unfold published. rewrite log_text_whole by done. f_equal. symmetry. rewrite <- log_text_whole by done. apply cstr_idemp. Qed.

(** The messages from the next to the last. *)
Definition numbers (i num : Z) : list Z := map (fun k => i + 1 + Z.of_nat k) (seq 0 (Z.to_nat (num - i))).

Lemma numbers_step i num : i < num -> numbers i num = i + 1 :: numbers (i + 1) num.
Proof.
  intros Hi. unfold numbers. replace (Z.to_nat (num - i)) with (S (Z.to_nat (num - (i + 1)))) by lia. cbn [seq map].
  f_equal; [lia|]. rewrite <- seq_shift, map_map. apply map_ext. lia.
Qed.

Lemma log_loop_ok topic num rounds : 0 <= num < 2 ^ 31 -> forall i c, 0 <= i <= num -> (Z.to_nat (num - i) <= rounds)%nat ->
  exists c', log_loop rounds topic num i c = Some (true, c')
    /\ sent c' = sent c ++ concat (map (fun k => put_request (bs "PUBLISH") (published topic (log_text k))) (numbers i num)).
Proof.
  intros Hnum. induction rounds as [|rounds IH]; intros i c Hi Hr; cbn [log_loop]; rewrite (proj2 (Z.eqb_neq num (-1))), orb_false_r by lia.
  - rewrite (proj2 (Z.ltb_ge i num)) by lia. exists c. split; [done|]. unfold numbers. replace (Z.to_nat (num - i)) with 0%nat by lia. by rewrite app_nil_r.
  - destruct (Z.ltb_spec i num) as [Hlt|Hge].
    + rewrite (proj2 (Z.eqb_neq i (2 ^ 31 - 1))) by lia. destruct (publish_ok topic (take 1023 (log_text (i + 1))) c) as (r & c1 & E & Hs).
      rewrite E, (frees (sent := sent)). cbn [mbind option_bind]. destruct (IH (i + 1) c1) as (c' & E' & Hs'); [lia..|]. exists c'. split; [exact E'|].
      rewrite Hs', Hs, <- app_assoc, (numbers_step i num Hlt). cbn [map concat]. by rewrite published_log by (unfold in_i64; lia).
    + exists c. split; [done|]. unfold numbers. replace (Z.to_nat (num - i)) with 0%nat by lia. by rewrite app_nil_r.
Qed.

Context {EL M : Type} `{FileEvents EL fproc cid} `{MasterOps M}.
Variable cfg : Config.
Variable unixtime : Z.
Variable env : info_env.
Variable set_begin : gset bytes -> bytes.

(** What a program that ends well published is what the server put. *)
Definition arrives (x : option (result C)) (msgs : list message) (s : Client.st EL M) : Prop :=
  exists c s', x = Some (Exited 0 [] (Some c))
    /\ ProcessRequestBuffer cfg unixtime env set_begin (sent c) pstate0 s = Some ([], pstate0, s')
    /\ ms s' = put_all (worker_id_ (wk s)) msgs (ms s).

Lemma sent_arrives msgs c (s : Client.st EL M) : close_after_reply (conn s) = false -> Forall forwardable msgs ->
  sent c = concat (map (put_request (bs "PUBLISH")) msgs) -> zlen (sent c) < 2 ^ 63 -> arrives (Some (Exited 0 [] (Some c))) msgs s.
Proof.
  intros Hc Hm Hs Hl. rewrite Hs in Hl.
  destruct (put_requests cfg unixtime env set_begin (bs "PUBLISH") msgs s (or_intror eq_refl) Hc Hm Hl) as (s' & E & H1 & _).
  exists c, s'. rewrite Hs. by split_and!.
Qed.

(** While the server answers, echo2kids ends and has published each line of
    its input, without its last character, in order: the server that reads
    what it sent puts exactly these messages under the topic of the command
    line. *)
Theorem echo2kids_arrives program_name opts o lines (s : Client.st EL M) :
  let msgs := map (fun l => published (topic o) (removelast l)) lines in
  read_options echo_option opts = Some o -> Forall (fun l => l <> []) lines -> Forall forwardable msgs ->
  zlen (concat (map (put_request (bs "PUBLISH")) msgs)) < 2 ^ 63 -> close_after_reply (conn s) = false ->
  arrives (echo2kids program_name opts lines) msgs s.
Proof.
  intros msgs Ho Hlines Hm Hlen Hc. unfold echo2kids, connected. rewrite Ho. destruct (connects (sent := sent) (target o)) as [-> Hs0].
  destruct (echo_loop_ok (topic o) lines Hlines (redisConnect (R := R) (target o))) as (c & E & Hs). rewrite E. cbn [mbind option_bind].
  rewrite Hs0 in Hs. cbn [app] in Hs. unfold msgs in *. rewrite map_map in Hlen. apply sent_arrives; [done|done|by rewrite map_map|by rewrite Hs].
Qed.

(** loggen with a number ends after as many rounds, and has published the
    messages from 1 to it. *)
Theorem loggen_arrives rounds program_name opts o (s : Client.st EL M) :
  let msgs := map (fun k => published (topic o) (log_text k)) (numbers 0 (num o)) in
  read_options loggen_option opts = Some o -> 0 <= num o < 2 ^ 31 -> (Z.to_nat (num o) <= rounds)%nat -> Forall forwardable msgs ->
  zlen (concat (map (put_request (bs "PUBLISH")) msgs)) < 2 ^ 63 -> close_after_reply (conn s) = false ->
  arrives (loggen rounds program_name opts) msgs s.
Proof.
  intros msgs Ho Hnum Hr Hm Hlen Hc. unfold loggen, connected. rewrite Ho. destruct (connects (sent := sent) (target o)) as [-> Hs0].
  destruct (log_loop_ok (topic o) (num o) rounds Hnum 0 (redisConnect (R := R) (target o))) as (c & E & Hs); [lia..|]. rewrite E. cbn [mbind option_bind].
  rewrite Hs0 in Hs. cbn [app] in Hs. unfold msgs in *. rewrite map_map in Hlen. apply sent_arrives; [done|done|by rewrite map_map|by rewrite Hs].
Qed.
End publish.

(** ** subscribe *)

Section messages.
Context {C R : Type} `{!Hiredis C R}.

(** The loop never ends, a connection that fails prints the same line again
    and again. *)
Lemma message_loop_runs rounds psub period : forall out c x, message_loop (R := R) rounds psub period out c = Some x ->
  exists out' c', x = Running (out ++ out') c'.
Proof.
  induction rounds as [|rounds IH]; intros out c x; cbn [message_loop].
  - intros [= <-]. exists [], c. by rewrite app_nil_r.
  - destruct (redisGetReply c) as [reply c1]. destruct (match reply with Some _ => _ | None => _ end) as [t|]; [|done].
    cbn [mbind option_bind]. destruct (sleep period); [|done]. cbn [mbind option_bind]. intros H.
    destruct (IH _ _ _ H) as (o & c' & ->). exists (t ++ o), c'. by rewrite app_assoc.
Qed.

(** Replies whose elements are texts. *)
Definition texts (r : R) (l : list bytes) : Prop := map reply_str (reply_element r) = map Some l.

Lemma element_text_ok r l n t : texts r l -> l !! n = Some t -> element_text r n = Some (cstr t).
Proof.
  unfold texts, element_text. intros Hr Ht. assert (map reply_str (reply_element r) !! n = Some (Some t)) as H.
  { rewrite Hr. apply list_lookup_fmap_Some. by exists t. }
  apply list_lookup_fmap_Some in H as (e & He & ->). cbn [mbind option_bind]. by rewrite <- He.
Qed.

(** A message is printed with its topic, and what comes for a pattern with the
    pattern before it and no blank before the text. *)
Lemma printed_message_ok r : (forall kind topic text, texts r [kind; topic; text] ->
    printed_message false r = Some (cstr kind ++ bs " " ++ cstr topic ++ bs " " ++ cstr text ++ [LF]))
  /\ (forall kind pattern topic text, texts r [kind; pattern; topic; text] ->
    printed_message true r = Some (cstr kind ++ bs " " ++ cstr pattern ++ bs " " ++ cstr topic ++ cstr text ++ [LF])).
Proof.
  split; intros *; intros Hr; unfold printed_message;
    repeat (erewrite element_text_ok by (exact Hr || reflexivity); cbn [mbind option_bind]); done.
Qed.
End messages.

(** ** Examples *)

(** A connection that keeps what is sent, and answers until it has taken a
    number of bytes. *)
Definition demo_hiredis (limit : Z) : Hiredis bytes unit := {|
  redisConnect _ := [];
  redis_error _ := None;
  redisCommand args c := (if zlen c <? limit then Some tt else None, c ++ encode args);
  redisGetReply c := (None, c);
  freeReplyObject _ := Some tt;
  reply_str _ := None;
  reply_element _ := [];
|}.

#[local] Instance answering : Hiredis bytes unit := {|
  redisConnect _ := [];
  redis_error _ := None;
  redisCommand args c := (Some tt, c ++ encode args);
  redisGetReply c := (None, c);
  freeReplyObject _ := Some tt;
  reply_str _ := None;
  reply_element _ := [];
|}.

#[local] Instance answering_laws : Answering bytes unit (fun c => c).
Proof. split; [done|by intros; eexists _, _|done]. Qed.

Definition lines_of (l : list bytes) : list bytes := map (fun x => x ++ [LF]) l.

(** A last line without its end loses a character; when a reply does not come
    the message that is printed was never written. *)
Example last_character_lost : echo2kids (bs "echo2kids") [] [bs "first" ++ [LF]; bs "last"]
    = Some (Exited 0 [] (Some (concat (map (fun t => encode [bs "PUBLISH"; bs "loggen"; t]) [bs "first"; bs "las"]))))
  /\ @echo2kids bytes unit (demo_hiredis 0) (bs "echo2kids") [] (lines_of [bs "first"]) = None.
Proof. split; vm_compute; reflexivity. Qed.

(** What SUBSCRIBE answers is an array, without a text of its own. *)
Example subscribe_prints_NULL : subscribe (C := bytes) (R := unit) 3 (bs "subscribe") [] = None.
Proof. reflexivity. Qed.

Example subscribe_fails_forever : exists c, @subscribe bytes unit (demo_hiredis 0) 3 (bs "subscribe") []
  = Some (Running (concat (replicate 3 (bs "get msg failed" ++ [LF]))) c).
Proof. eexists. vm_compute. reflexivity. Qed.

Lemma echo2kids_arrives_witness :
  arrives (fun c : bytes => c) demo_cfg 100 demo_env demo_begin (echo2kids (bs "echo2kids") [("t"%char, bs "app.web")] (lines_of [bs "GET /"; bs "slow"]))
    [(bs "app.web", bs "GET /"); (bs "app.web", bs "slow")] (demo_client_state replied).
Proof.
  apply (echo2kids_arrives (fun c : bytes => c) demo_cfg 100 demo_env demo_begin (bs "echo2kids") [("t"%char, bs "app.web")]
    (with_topic (bs "app.web") default_options) (lines_of [bs "GET /"; bs "slow"])).
  - reflexivity.
  - repeat constructor; done.
  - repeat constructor; done.
  - vm_compute. done.
  - vm_compute. reflexivity.
Defined.

Lemma loggen_arrives_witness :
  arrives (fun c : bytes => c) demo_cfg 100 demo_env demo_begin (loggen 5 (bs "loggen") [("n"%char, bs "2")])
    [(bs "loggen", bs "sn      1"); (bs "loggen", bs "sn      2")] (demo_client_state replied).
Proof.
  apply (loggen_arrives (fun c : bytes => c) demo_cfg 100 demo_env demo_begin 5 (bs "loggen") [("n"%char, bs "2")] (with_num (bs "2") default_options)).
  - vm_compute. reflexivity.
  - vm_compute. done.
  - vm_compute. lia.
  - repeat (constructor; [split; by vm_compute|]). constructor.
  - vm_compute. done.
  - vm_compute. reflexivity.
Defined.
